(* ===== verification/_CoqProject ===== *)
-Q . S2P
Prelude.v
Monitor.v
Types.v
Retry.v
Journal.v
Chain.v
Machine.v
Session.v
Funding.v
Intent.v
EvmRecovery.v
State.v
Plan.v
Config.v
Cosmos.v
Json.v
Target.v
Recovery.v
Verifiers.v
Checkpoints.v
Context.v
EvmSteps.v
CosmosSteps.v
Inputs.v
Steps.v
Checks.v
Preflight.v
Runner.v
Safety.v
Progress.v
Approvals.v
Termination.v
RobustSend.v
LoadTest.v
LoadNet.v
LoadPipeline.v
LoadFacts.v
LoadVerdicts.v
LoadEnds.v
LoadDestinations.v
LoadEngine.v
Propose.v
ProposeFacts.v
ProposeNet.v
ProposeRun.v
ProposeSafety.v
ProposeOnce.v
ProposeSearch.v
ProposeResume.v
Asg.v
AsgRun.v
AsgSafety.v
AsgFacts.v
SignedCalls.v
Intents.v
IntentAmounts.v
IntentRun.v
IntentSafety.v
IntentBounds.v
IntentCaps.v
Pipeline.v
PipelineFacts.v
Stress.v
StressFacts.v
StressBounds.v
Mcp.v
McpFacts.v
McpRuns.v
Witnesses.v
LoadWitnesses.v
ProposeWitnesses.v
AsgWitnesses.v
IntentWitnesses.v
StressWitnesses.v
McpWitnesses.v
