(* ===== verification/Prelude.v ===== *)
(** * A verification development for axe

    axe is a tool for the Axelar network.  It deploys an EVM chain's Axelar
    contracts and connects them to the network, it sends transactions over
    unreliable endpoints, it load-tests routes between chains and verifies that
    the messages arrive, it submits governance proposals and carries them out on
    the connected chains, it deploys the contract of service governance and hands
    ownership over to it, it moves assets between chains through solvers, and it
    offers these commands to an agent.  This development models these seven
    parts and proves what an operator relies on.

    - The hardened deployment (src/commands/deploy/hardened/ and src/steps/).
      A deployment is long, pays real gas, and is interrupted and resumed many
      times, so every transaction is signed, written to a journal on disk, and
      only then broadcast; a restart finds it there and follows it.  No
      transaction leaves the process unrecorded, no action is done twice,
      budgets hold, what was approved is what is done, and waits end.
    - The robust EVM sender (src/evm.rs), which everything else sends with.
    - The verification of a load test (src/commands/load_test/verification/):
      every transaction that was sent gets one verdict and is counted once.
    - Governance proposals (src/commands/propose.rs and propose/).  A proposal
      costs a deposit and ends in calls that pause gateways or change trusted
      chains, so it is submitted at most once, a rerun resumes it, and nothing
      is sent that was not shown and approved.
    - Service governance (src/commands/its_asg.rs and its_asg/).  Handing the
      gateway and the ITS over cannot be undone by the operator, so every
      transaction is shown, approved, verified again, recorded and then sent;
      a recorded one is replaced only on evidence that it is dead.
    - Intents (src/commands/intents.rs and intents/).  A solver that is not
      trusted names the contract, the calldata and the amounts of each deposit,
      so a quote is checked against what was asked, against the wallet and
      against the limits of the run before anything is approved or sent.
    - The MCP server (src/mcp.rs and mcp/).  An agent may ask for anything, so
      what it spends is held against caps of the operator, and one flow at a
      time spends on a machine.

    Paths below are under the crate's src/; [H/] is commands/deploy/hardened/
    and [V/] is commands/load_test/verification/.

    ** The parts and their files

    Shared:
    - Prelude: results, the state-and-error monad [M], its triples, checked
      machine arithmetic, decimal text, shared list and map lemmas.
    - Monitor: automata that read the trace of a program, and how a program is
      shown to satisfy one (proposals and service governance use it).
    - Types (types.rs), Retry (retry.rs; the operation is an arbitrary stateful
      function), Json ([serde_json::Value]), Target (config.rs, utils.rs: the
      network configuration, read and edited in place).
    - Chain: what the third-party crates and remote services provide, as
      classes: [EvmLib] (alloy), [CosmosLib] (protobuf, secp256k1), [EvmNode]
      and [LcdNode] (answers of nodes, any answer at all), [Host] (disk, clock,
      console), [ClockLaws] (time does not run backwards).  No operation of
      these classes is given a body.

    Deployment:
    - Journal (H/types.rs, H/confirmations.rs): plan, options, transactions,
      the journal record.  Machine: the abstract specification, a transition
      system on journals whose steps rest on what the nodes have answered: a
      confirmation is saved only as a node gave it, an attempt is retired only
      on a failure a node reported.  Session (H/session.rs, H/journal.rs,
      H/storage.rs): the operations on the journal; a [World] holds the node
      and host state, the journal in memory and on disk, and the trace of what
      passed: writes, broadcasts, questions, and the answers of the nodes.  A
      disk write may fail before or after it took effect.
    - Funding (H/evm_funding.rs, H/cosmos_funding.rs, H/evm.rs), Intent
      (H/evm_intent.rs), EvmRecovery (H/evm.rs, H/evm_recovery.rs,
      H/evm_retry.rs), Cosmos (H/cosmos.rs, H/cosmos_recovery.rs,
      H/cosmos_fees.rs, H/direct.rs, cosmos/), Recovery (H/recovery.rs):
      sending, following, replacing and retiring transactions.
    - State (state.rs), Plan (H/plan.rs, H/loading.rs, H/evm_policy.rs), Config
      (H/environment.rs, commands/deploy/configuration.rs), Verifiers (evm.rs,
      H/verification.rs, H/verifier_set.rs), Checkpoints (H/evidence.rs,
      H/protocols.rs, H/confirmations.rs), Inputs (H/inputs.rs): what a
      deployment keeps and what it pins.
    - Context (commands/deploy.rs): the state a step works on.  EvmSteps and
      CosmosSteps: the bodies of all steps (steps/).  Steps: their dispatch and
      preview.  Checks (H/postconditions.rs, H/contract_checks.rs,
      H/handoff.rs), Preflight (H/preflight.rs).
    - Runner (H/runner.rs): [run]; [lifetime] is any number of runs, each cut
      at any point of its trace, with the history of all their events.
    - Safety, Progress, Approvals, Termination: the theorems on whole runs.

    Sender: RobustSend (evm.rs): [EvmEndpoints] and [send_tx_robust].

    Load test:
    - LoadTest (V/engine/state.rs, pending.rs, report.rs, pipeline/scheduler.rs,
      load_test/support/metrics.rs): a transaction under verification, its
      phases and verdicts, the report, the scheduler's choice.
    - LoadNet (cosmos/rpc.rs, cosmos/events.rs, gmp_api.rs,
      evm/legacy_gateway.rs, V/engine/pipeline/cosmos.rs, checks/evm.rs,
      legacy.rs): what is asked of the network, over the class [PollEnv].
    - LoadPipeline (V/engine/pipeline.rs): the GMP pipeline [poll_pipeline] and
      the hub pipeline [poll_its_hub], against the interface
      [DestinationVerifier].  LoadDestinations (V/engine/pipeline/destination.rs
      and the second-leg verifiers of pipeline.rs): its implementations, which
      discharge what the pipelines need to end.
    - LoadEngine (V/engine.rs, V/engine/config.rs): the entry points.
    - LoadFacts, LoadVerdicts, LoadEnds: the lemmas on pipelines, from the
      moves of one transaction to runs.

    Proposals ([P/] is commands/propose/):
    - Propose (P/types.rs, helpers.rs, targets.rs, recovery.rs, funding.rs,
      submission_guard.rs, coverage.rs, commands/propose.rs): plans, the
      configuration they come from, calls and payloads, the recognition of a
      proposal on the hub, the names of the markers.  ProposeFacts: its theory.
    - ProposeNet (http.rs, cosmos/rpc.rs, its_hub.rs, evm/its_trust.rs,
      P/recovery.rs, monitor.rs, relay_message.rs, relay_consensus.rs,
      targets.rs, signer.rs): everything that is read, as programs over the
      class [GovEnv], up to [build_plan].
    - ProposeRun (commands/propose.rs, P/submission_guard.rs, coverage.rs,
      funding.rs, relay.rs, relay_consensus.rs, cosmos/tx.rs): [run], on a state
      [Gov] with the environment, the marker files and the trace of what was
      asked and answered, shown, marked and sent.
    - ProposeSafety (monitors over traces, the auditor), ProposeOnce (the
      ledger of a call, [lifetime]), ProposeSearch (block searches),
      ProposeResume (plans, reruns, funding): the theorems.

    Service governance ([A/] is commands/its_asg/):
    - Asg (A/types.rs, config.rs, factory.rs, rpc.rs): options, settings of the
      networks, the context read from the configuration, artifacts, records.
    - AsgRun (commands/its_asg.rs, A/ all files): the programs up to [run], on a
      state [Asg] with the environment, the journal files, the copies and
      evidence of retired ones, the configuration under review, and the trace.
    - AsgSafety (the auditor), AsgFacts (replacement over many runs, evidence,
      confirmations, preview, handoff, edits of the configuration).

    Intents ([I/] is commands/intents/):
    - Intents (I/types.rs, route.rs, execution.rs): assets, amounts, quotes,
      the choice of routes and the checks of quotes, all pure.  IntentAmounts:
      the text of amounts.
    - IntentRun (commands/intents.rs, I/client.rs, route.rs, execution.rs,
      traffic.rs, execution_lock.rs, config.rs): discovery, plans, legs, round
      trips, sweeps and traffic, on a state [Desk] with the environment, the
      results, the counters and the trace of what was handed to the sender and
      of what the sender put on the wire.
    - SignedCalls: what [send_tx_robust] signs is what it was handed.
    - IntentSafety (legs and round trips), IntentBounds (plans, restricted
      runs), IntentCaps (caps of sweeps and traffic, a leg ends): the theorems.
    - Pipeline (evm/pipeline.rs, pipeline/types.rs): the sender many deposits of
      one chain share, with its nonce, reservations, gas budget and stops;
      [broadcast] and [settle] are what a deposit does under its lock.
      PipelineFacts: consecutive nonces, the budget, what reaches the wire.
    - Stress (I/stress.rs, stress/types.rs, stress/scheduler.rs, and its part of
      route.rs and execution.rs): the setup as a program, and the scheduler
      with its deposit tasks as the step relation [stress_step], in which the
      parts of the tasks interleave in any order; a step is labelled with the
      receipts it settled.  StressFacts (invariants of
      the relation), StressBounds (the setup and the theorems on runs).

    MCP server:
    - Mcp (mcp/policy.rs, runs.rs, server.rs, context.rs, args/intents.rs,
      mcp.rs): the caps and their ledger file, the run registry, the tools that
      spend; [mcp_step] interleaves what runs under one lock, over any number
      of servers, calls, flows and crashes.
    - McpFacts (the slot, what flows claim, the budget), McpRuns (identifiers
      and the listing of runs).

    Witnesses, LoadWitnesses, ProposeWitnesses, AsgWitnesses, IntentWitnesses,
    StressWitnesses and McpWitnesses: concrete worlds, evaluated runs, and an
    instance of every theorem that has hypotheses.

    ** What the theorems show

    Runs of a deployment (Safety, Progress): bytes are on disk before they are
    sent; every journal written refines the abstract machine over the nodes'
    own answers; at most one transaction signed for an action succeeds, over any
    number of runs and crashes; a recorded transaction is never forgotten and is
    cleared only on a failure that a node answered; the plan stays satisfied; the verifier checkpoint is
    passed only with consent; a run that returns has saved its progress.
    Approvals (Approvals, Inputs): the fingerprint binds the plan and the
    inputs, and governance steps end only on the proposal whose id the node
    gave for the recorded submission.
    Money (Funding): the liability bounds what can be spent.  Identity (Intent,
    Cosmos, Verifiers): intents that encode alike are equal, fee replacements
    change the fee only, the predicted gateway address pins deployer and nonce.
    State (State, Plan, Config): a resume accepts exactly the approved steps
    and secrets are not saved.  Waits (Termination, Retry) end.

    Sender (RobustSend): while no node reports the nonce held, one send signs
    at one nonce; a receipt it returns belongs to something it sent; it ends.
    [ZeroTip] is a send that leaves several transactions, computed.

    Load test: a run refines the life of a transaction ([life]: legal phase
    changes, at most one verdict, final); every batch entry point counts each
    confirmed transaction once, as the success, the failure or the stuck one it
    ended as, writes the timing that was measured for it and touches no other
    metrics; second legs are
    known where they are needed; the windowed search of the legacy gateway is a
    search of all blocks; pipelines end for every destination, with a verdict
    for every transaction; an execution is concluded only on the word of the
    gateway where an observed approval is required, and
    [unapproved_conclusion] shows what is concluded where it is not.

    Proposals: an auditor that reads the trace of a run accepts every write,
    and holds each observation a write rests on, with what it was asked about,
    against what the node answered (ProposeSafety); over any number of interrupted runs a call is submitted
    once, unless a new proposal is asked for, and only after the whole history
    of the hub was read without a match (ProposeOnce); a proposal is recognized
    exactly when its messages can be assigned to the calls of the plan, so what
    was submitted is found again, and the rerun follows it and submits nothing
    (ProposeFacts, ProposeResume); the
    marker of a plan names its calls up to order; the block searches find the
    first block after the vote and the message in it (ProposeSearch); the
    choice of the payer and of the edge chains is characterized on every branch.

    Service governance: an auditor that reads the trace of a run accepts every
    write, and what a write rests on is true of the node: the contract was
    verified at a confirmed canonical block, the address was predicted by the
    factory, the signed bytes carry the approved request (AsgSafety); over any
    number of interrupted runs a pending transaction
    is never replaced silently, and it is called dead only on what the node
    last said; the wait for confirmations ends; a preview changes nothing; a
    handoff sends ownership transfers to the governance contract and nothing
    else, and one that returns has seen, at confirmed canonical blocks, both
    contracts owned by it and the operators untouched; an edit of the configuration changes the fields it
    names and no others (AsgFacts).

    Intents: a leg hands over at most one approval and one deposit, both taken
    from one quote the service offered for the leg and that passed the checks;
    nothing else is signed, and a leg that is done was fulfilled under that
    quote; the quoted inputs of a round trip stay within its budget
    (IntentSafety; what the calldata of a token deposit takes is up to the
    service and the approval); plans spend the asked share of the wallet and
    name each pair once; a run restricted to some chains sends on these only
    (IntentBounds); a sweep keeps its cap and a leg ends (IntentCaps), while
    [traffic_exceeds_cap] is a traffic run that deposits past its cap
    (IntentWitnesses); a printed amount reads back (IntentAmounts).  In every
    interleaving, a stress run signs planned deposits only, one per nonce and
    at consecutive nonces, within the caps on their number, volume and
    concurrency, the gas its receipts cost stays within the budget of each
    source, and its accounts balance (StressBounds).

    MCP server: one flow at a time has the slot, and a refusal that blames a
    blocking tool or another process is right that a flow is under way; the
    lifetime cap holds over restarts, crashes and failed
    writes of the ledger for the tools that send one intent, a round trip or a
    sweep, with one server at a time (McpFacts); [servers_overspend] and
    [traffic_breaks_budget] are runs that break it with a second server and
    with traffic (McpWitnesses); runs are listed completely, newest first
    (McpRuns).

    ** Fuel and bounds

    Loops that are not structural take a fuel and end in [OutOfFuel] when it
    is spent.  The deployment's polling loops sleep five seconds a round, so
    [S fuel] rounds with [wait <= 5 * fuel] are enough ([send_terminates]): 361
    for the default wait of 1800 seconds; its safety theorems hold at every
    fuel, an exhausted one being one more place where a run can be cut.  The
    step loop takes one round per step and one more.  The robust sender has the
    rounds and attempts of the code.  A load-test pipeline needs the rounds of
    [enough]: each unit of progress (at most five phases a transaction, six
    through the hub) may take a whole inactivity budget, and the sender may
    take its time.  The search of the legacy gateway computes its number of
    windows.  The block searches of a relay take 66 rounds of doubling and 66 of
    halving, enough for every 64-bit height ([first_block_at_spec]); the search
    of the proposal history needs as many rounds as there are pages
    ([rerun_resumes]); the waits for a vote, an approval and a time lock have no
    bound in the code, and their theorems hold at every fuel.
    The wait for confirmations takes two rounds more than the timeout has polls
    ([wait_for_confirmations_ends]), and so does the wait for the fulfillment of
    an intent ([intent_ends]); its receipts are polled 46 times, two seconds
    apart, for 90 seconds.  Sweeps and traffic run until they are stopped: their
    theorems hold at every fuel.  Integers are [Z] with the checks of the code at their widths
    ([checked_add 64], [128], [256]); parsing bounds them.  Times of the load
    test are milliseconds; rates and averages are rationals.

    ** What is not modelled

    Text formats (JSON, protobuf, base64, ABI), hashes and signatures are
    parameters with the laws a theorem needs.  File paths and permissions, the
    exclusive file lock (runs of one deployment do not overlap) and console
    output other than prompts are left out.  Concurrent requests of a poll run
    one after the other and complete in any order ([unordered]).  Trimming and
    letters are ASCII; a floating-point gas price is an abstract type.  The
    generation of load (wallets, routes, submission), the waiters for remote
    token deployments, the benchmark and the inventory of intents, smoke tests,
    the read-only tools and the transport of the MCP server, inspection
    commands and the other chains' SDK code are outside.  What a load test, an
    express transfer or a stress run sends through the MCP server is a
    parameter, of which nothing is assumed: the theorem on the lifetime cap
    leaves these tools out; a write to the ledger that fails leaves the file
    alone or cut off.  Of proposals,
    the text of the review (names, formatted amounts, decoded calldata) is left
    out: a review is the value that is shown.  Of the stress test, progress and
    the printed report are left out, and the reasons of a stopped source are
    shortened.  Runs on one machine do not overlap between the search and
    the submission (the lock of the hub), and runs of service governance do not
    overlap either (its locks), nor do intent runs of one wallet; how the checkout with the configuration is found
    is a parameter; the clock is read once for the times
    of a plan's calls, and an interrupted process loses no marker it created. *)

From Stdlib Require Export ZArith Lia Sorted.
From Stdlib Require Import Ascii.
From Stdlib Require String.
From stdpp Require Export base gmap strings list sorting fin_maps option.
Export String.StringSyntax.
#[global] Open Scope string_scope.
#[global] Open Scope list_scope.
#[global] Open Scope Z_scope.

(** ** Results and errors

    [eyre::Result] with the one error type the deployment code inspects:
    [Paused] (hardened/types.rs), which the runner downcasts to.  An error
    carries the fixed wording of its message.  [OutOfFuel] is not a program
    error: it marks a polling loop cut by the model's fuel, and every theorem
    on such a loop says when it cannot occur. *)

Inductive error : Type :=
  | Failed (msg : string)
  | Paused (msg : string)
  | OutOfFuel.

#[export] Instance error_eq_dec : EqDecision error.
Proof. solve_decision. Defined.

Inductive result (A : Type) : Type :=
  | Ok (a : A)
  | Err (e : error).
Arguments Ok {A} a.
Arguments Err {A} e.

#[export] Instance result_eq_dec `{EqDecision A} : EqDecision (result A).
Proof. solve_decision. Defined.

#[export] Instance result_ret : MRet result := fun A a => Ok a.
#[export] Instance result_bind : MBind result := fun A B f m =>
  match m with Ok a => f a | Err e => Err e end.
#[export] Instance result_fmap : FMap result := fun A B f m =>
  match m with Ok a => Ok (f a) | Err e => Err e end.

(** [eyre::ensure!], [ok_or_else] and [bail!] on pure results. *)
Definition ensure_ok (b : bool) (msg : string) : result () :=
  if b then Ok () else Err (Failed msg).
Definition ok_or {A} (o : option A) (msg : string) : result A :=
  match o with Some a => Ok a | None => Err (Failed msg) end.
Definition bail {A} (msg : string) : result A := Err (Failed msg).

Definition is_ok {A} (r : result A) : bool :=
  match r with Ok _ => true | Err _ => false end.

Lemma result_bind_ok {A B} (m : result A) (f : A -> result B) b :
  (m ≫= f) = Ok b <-> exists a, m = Ok a /\ f a = Ok b.
Proof.
  destruct m as [a|e]; simpl; (split; [|intros (? & ? & ?)]); try done; eauto.
  congruence.
Qed.

Lemma Ok_inj {A} (a b : A) : Ok a = Ok b -> a = b.
Proof. congruence. Qed.

Lemma ensure_ok_ok b msg u : ensure_ok b msg = Ok u <-> b = true.
Proof. destruct b, u; simpl; naive_solver. Qed.

Lemma ok_or_ok {A} (o : option A) msg a : ok_or o msg = Ok a <-> o = Some a.
Proof. destruct o; simpl; naive_solver. Qed.

(** ** The state and error monad of the effectful code

    A computation reads and changes a state [S] and may fail; a failure keeps
    the state it was raised in, as [?] does with the session behind its lock. *)

Definition M (S A : Type) : Type := S -> result A * S.

#[export] Instance M_ret {S} : MRet (M S) := fun A a s => (Ok a, s).
#[export] Instance M_bind {S} : MBind (M S) := fun A B f m s =>
  match m s with
  | (Ok a, s') => f a s'
  | (Err e, s') => (Err e, s')
  end.

Definition lift {S A} (r : result A) : M S A := fun s => (r, s).
Definition throw {S A} (e : error) : M S A := fun s => (Err e, s).
Definition get {S} : M S S := fun s => (Ok s, s).
Definition modify {S} (f : S -> S) : M S () := fun s => (Ok (), f s).
Definition ensure {S} (b : bool) (msg : string) : M S () := lift (ensure_ok b msg).
(** [let _ = m.await;]: run [m], forget its outcome. *)
Definition ignore {S A} (m : M S A) : M S () := fun s => (Ok (), (m s).2).

(** [map_err]: replace the error of a failed computation. *)
Definition map_err {S A} (e : error) (m : M S A) : M S A := fun s =>
  match m s with
  | (Ok a, s') => (Ok a, s')
  | (Err _, s') => (Err e, s')
  end.

(** A [for] loop over a list, stopping at the first error. *)
Fixpoint for_each {S A} (f : A -> M S ()) (l : list A) : M S () :=
  match l with
  | [] => mret ()
  | x :: l => f x;; for_each f l
  end.

(** [find_map] with an effectful body: the first [Some] wins. *)
Fixpoint first_some {S A B} (f : A -> M S (option B)) (l : list A) : M S (option B) :=
  match l with
  | [] => mret None
  | x :: l =>
      r ← f x;
      match r with
      | Some b => mret (Some b)
      | None => first_some f l
      end
  end.

(** *** Runs that succeed *)

Lemma M_bind_ok {S A B} (m : M S A) (f : A -> M S B) s b s' :
  (m ≫= f) s = (Ok b, s') <-> exists a s1, m s = (Ok a, s1) /\ f a s1 = (Ok b, s').
Proof.
  unfold mbind, M_bind. destruct (m s) as [[a|e] s1]; (split; [|intros (? & ? & ? & ?)]); try done; eauto.
  congruence.
Qed.

Lemma lift_ok {S A} (r : result A) (s s' : S) a : lift r s = (Ok a, s') <-> r = Ok a /\ s' = s.
Proof. unfold lift. split; [by intros [= -> ->]|by intros [-> ->]]. Qed.

Lemma ensure_run_ok {S} b msg (s s' : S) u : ensure b msg s = (Ok u, s') <-> b = true /\ s' = s.
Proof. unfold ensure. by rewrite lift_ok, ensure_ok_ok. Qed.

(** *** Hoare triples: [P] before, [Q] on success, [F] on failure *)

Definition hoare {S A} (P : S -> Prop) (m : M S A)
    (Q : A -> S -> Prop) (F : S -> Prop) : Prop :=
  forall s, P s ->
    match m s with
    | (Ok a, s') => Q a s'
    | (Err _, s') => F s'
    end.

Create HintDb hoare.

Section Hoare.
Context {S : Type}.
Implicit Types (P F : S -> Prop).

Lemma hoare_ret {A} (a : A) P F : hoare P (mret a) (fun a' s => a' = a /\ P s) F.
Proof. intros s HP. cbn. auto. Qed.

Lemma hoare_bind {A B} P F (R : A -> S -> Prop) (m : M S A) (f : A -> M S B) Q :
  hoare P m R F ->
  (forall a, hoare (R a) (f a) Q F) ->
  hoare P (m ≫= f) Q F.
Proof.
  intros Hm Hf s HP. specialize (Hm s HP). unfold mbind, M_bind.
  destruct (m s) as [[a|e] s']; [by apply Hf|done].
Qed.

Lemma hoare_conseq {A} P P' F F' (m : M S A) (Q Q' : A -> S -> Prop) :
  hoare P' m Q' F' ->
  (forall s, P s -> P' s) ->
  (forall a s, Q' a s -> Q a s) ->
  (forall s, F' s -> F s) ->
  hoare P m Q F.
Proof.
  intros Hm HP HQ HF s Hs. specialize (Hm s (HP s Hs)).
  destruct (m s) as [[a|e] s']; auto.
Qed.

Lemma hoare_pre {A} P P' F (m : M S A) Q :
  hoare P' m Q F -> (forall s, P s -> P' s) -> hoare P m Q F.
Proof. intros. eapply hoare_conseq; eauto. Qed.

Lemma hoare_post {A} P F (m : M S A) (Q Q' : A -> S -> Prop) :
  hoare P m Q' F -> (forall a s, Q' a s -> Q a s) -> hoare P m Q F.
Proof. intros. eapply hoare_conseq; eauto. Qed.

(** A pure fact of the precondition moves to the context. *)
Lemma hoare_pure {A} (φ : Prop) P F (m : M S A) Q :
  (φ -> hoare P m Q F) -> hoare (fun s => φ /\ P s) m Q F.
Proof. intros Hm s [Hφ HP]. by apply Hm. Qed.

Lemma hoare_exists {A B} (P : B -> S -> Prop) F (m : M S A) Q :
  (forall b, hoare (P b) m Q F) -> hoare (fun s => exists b, P b s) m Q F.
Proof. intros Hm s [b HP]. by apply (Hm b). Qed.

Lemma hoare_lift {A} (r : result A) P F :
  (forall s, P s -> F s) ->
  hoare P (lift r) (fun a s => r = Ok a /\ P s) F.
Proof. intros HF s HP. unfold lift. destruct r; auto. Qed.

Lemma hoare_ensure b msg P F :
  (forall s, P s -> F s) ->
  hoare P (ensure b msg) (fun _ s => b = true /\ P s) F.
Proof.
  intros HF. unfold ensure. eapply hoare_post; [by apply hoare_lift|].
  intros u s [Hb HP]. by apply ensure_ok_ok in Hb.
Qed.

Lemma hoare_throw {A} e P F (Q : A -> S -> Prop) :
  (forall s, P s -> F s) -> hoare P (throw e) Q F.
Proof. intros HF s HP. cbn. auto. Qed.

Lemma hoare_get P F : hoare P get (fun a s => a = s /\ P s) F.
Proof. intros s HP. cbn. auto. Qed.

Lemma hoare_modify f P Q F :
  (forall s, P s -> Q () (f s)) -> hoare P (modify f) Q F.
Proof. intros HQ s HP. cbn. auto. Qed.

Lemma hoare_ignore {A} P (m : M S A) (I : S -> Prop) F :
  hoare P m (fun _ => I) I -> hoare P (ignore m) (fun _ => I) F.
Proof.
  intros Hm s HP. specialize (Hm s HP). unfold ignore.
  destruct (m s) as [[a|e] s']; simpl; auto.
Qed.

Lemma hoare_map_err {A} e P (m : M S A) Q F :
  hoare P m Q F -> hoare P (map_err e m) Q F.
Proof.
  intros Hm s HP. specialize (Hm s HP). unfold map_err.
  destruct (m s) as [[a|er] s']; done.
Qed.

Lemma hoare_for_each {A} P F (f : A -> M S ()) l :
  (forall x, x ∈ l -> hoare P (f x) (fun _ => P) F) ->
  hoare P (for_each f l) (fun _ => P) F.
Proof.
  induction l as [|x l IH]; intros Hf; simpl.
  - eapply hoare_post; [apply hoare_ret|]. by intros ?? [_ ?].
  - eapply hoare_bind; [apply Hf; set_solver|]. intros u. apply IH.
    intros y Hy. apply Hf. set_solver.
Qed.

Lemma hoare_first_some {A B} P F (f : A -> M S (option B)) (Q : B -> S -> Prop) l :
  (forall x, x ∈ l ->
    hoare P (f x) (fun r s => match r with Some b => Q b s | None => P s end) F) ->
  hoare P (first_some f l)
    (fun r s => match r with Some b => Q b s | None => P s end) F.
Proof.
  induction l as [|x l IH]; intros Hf; simpl.
  - eapply hoare_post; [apply hoare_ret|]. intros r s [Hr Hs]; by subst r.
  - eapply hoare_bind; [apply Hf; set_solver|]. intros [b|].
    + eapply hoare_post; [apply hoare_ret|]. intros r s [Hr Hs]; by subst r.
    + apply IH. intros y Hy. apply Hf. set_solver.
Qed.
End Hoare.

(** ** Machine integers

    A [uN] is a [Z] in [0, 2^N); arithmetic that can leave the range is
    written with the operation the source uses. *)

Definition in_width (w : Z) (z : Z) : bool := (0 <=? z) && (z <? 2 ^ w).
Definition u64_max : Z := 2 ^ 64 - 1.
Definition u128_max : Z := 2 ^ 128 - 1.

Definition checked (w : Z) (z : Z) : option Z := if in_width w z then Some z else None.
Definition checked_add (w a b : Z) : option Z := checked w (a + b).
Definition checked_sub (w a b : Z) : option Z := checked w (a - b).
Definition checked_mul (w a b : Z) : option Z := checked w (a * b).
Definition saturating_sub (a b : Z) : Z := Z.max 0 (a - b).
Definition saturating_mul (w a b : Z) : Z := Z.min (a * b) (2 ^ w - 1).
(** [uN::div_ceil] for a positive divisor. *)
Definition div_ceil (a b : Z) : Z := (a + b - 1) / b.

Lemma in_width_spec w z : in_width w z = true <-> 0 <= z < 2 ^ w.
Proof. unfold in_width. rewrite andb_true_iff, Z.leb_le, Z.ltb_lt. done. Qed.

Lemma checked_Some w z z' : checked w z = Some z' <-> z = z' /\ 0 <= z' < 2 ^ w.
Proof.
  unfold checked. destruct (in_width w z) eqn:E.
  - apply in_width_spec in E. split; [intros [= <-]|intros [-> _]]; done.
  - split; [done|]. intros [-> H]. apply in_width_spec in H. congruence.
Qed.

Lemma checked_None w z : checked w z = None <-> ~ (0 <= z < 2 ^ w).
Proof.
  unfold checked. rewrite <- in_width_spec. destruct (in_width w z); naive_solver.
Qed.

Lemma div_ceil_spec a b q : 0 < b -> div_ceil a b = q <-> b * (q - 1) < a <= b * q.
Proof.
  intros Hb. unfold div_ceil.
  pose proof (Z.div_mod (a + b - 1) b ltac:(lia)) as Hd.
  pose proof (Z.mod_pos_bound (a + b - 1) b ltac:(lia)) as Hm.
  split; [intros <-; lia|]. intros Hq.
  assert ((a + b - 1) / b = q); [|done]. symmetry. apply (Z.div_unique _ _ _ (a + b - 1 - b * q)); lia.
Qed.

(** ** Decimal text of unsigned integers

    [str::parse::<uN>] (an optional leading [+], at least one digit, range
    checked) and [to_string]. *)

Definition digit_value (c : Ascii.ascii) : option Z :=
  let n := Z.of_N (Ascii.N_of_ascii c) in
  if (48 <=? n) && (n <=? 57) then Some (n - 48) else None.

Definition digit_char (d : Z) : Ascii.ascii := Ascii.ascii_of_N (Z.to_N (d + 48)).

Fixpoint parse_digits (s : string) (acc : Z) : option Z :=
  match s with
  | EmptyString => Some acc
  | String c s => d ← digit_value c; parse_digits s (acc * 10 + d)
  end.

Definition parse_uint (w : Z) (s : string) : option Z :=
  let body := match s with
              | String "+"%char rest => rest
              | _ => s
              end in
  match body with
  | EmptyString => None
  | _ => z ← parse_digits body 0; checked w z
  end.

Fixpoint dec_loop (fuel : nat) (z : Z) (acc : string) : string :=
  match fuel with
  | O => acc
  | S fuel =>
      let acc := String (digit_char (z mod 10)) acc in
      if z <? 10 then acc else dec_loop fuel (z / 10) acc
  end.

Definition to_dec (z : Z) : string := dec_loop (S (Z.to_nat (Z.log2 z))) z "".

Lemma digit_value_char d : 0 <= d < 10 -> digit_value (digit_char d) = Some d.
Proof.
  intros Hd.
  assert (d = 0 \/ d = 1 \/ d = 2 \/ d = 3 \/ d = 4 \/ d = 5 \/ d = 6 \/ d = 7 \/ d = 8 \/ d = 9)
    as Hcases by lia.
  by repeat destruct Hcases as [->|Hcases]; [..|subst].
Qed.

Lemma parse_dec_loop fuel z acc :
  0 <= z < 2 ^ Z.of_nat fuel ->
  parse_digits (dec_loop fuel z acc) 0 = parse_digits acc z.
Proof.
  revert z acc. induction fuel as [|fuel IH]; intros z acc Hz; [simpl in *; f_equal; lia|].
  simpl. pose proof (Z.mod_pos_bound z 10 ltac:(lia)).
  pose proof (Z.div_mod z 10 ltac:(lia)).
  rewrite Nat2Z.inj_succ, Z.pow_succ_r in Hz by lia.
  destruct (Z.ltb_spec z 10).
  - simpl. rewrite digit_value_char by lia. simpl. f_equal. rewrite Z.mod_small; lia.
  - rewrite IH by (pose proof (Z.div_lt_upper_bound z 10 (2 ^ Z.of_nat fuel)); lia).
    simpl. rewrite digit_value_char by lia. simpl. f_equal. lia.
Qed.

Lemma dec_loop_head fuel z acc :
  0 <= z -> exists c s, dec_loop (S fuel) z acc = String c s /\ digit_value c <> None.
Proof.
  revert z acc. induction fuel as [|fuel IH]; intros z acc Hz.
  - exists (digit_char (z mod 10)), acc.
    rewrite digit_value_char by (pose proof (Z.mod_pos_bound z 10); lia).
    simpl. by destruct (z <? 10).
  - change (dec_loop (S (S fuel)) z acc) with
      (let acc := String (digit_char (z mod 10)) acc in
       if z <? 10 then acc else dec_loop (S fuel) (z / 10) acc). cbv zeta.
    destruct (z <? 10).
    + eexists _, _. split; [done|].
      rewrite digit_value_char by (pose proof (Z.mod_pos_bound z 10); lia). done.
    + apply IH. apply Z.div_pos; lia.
Qed.

Lemma parse_uint_digits w c s :
  digit_value c <> None ->
  parse_uint w (String c s) = parse_digits (String c s) 0 ≫= checked w.
Proof.
  intros Hc. unfold parse_uint.
  destruct c as [[] [] [] [] [] [] [] []]; try reflexivity; by vm_compute in Hc.
Qed.

(** Printing then parsing at a width that holds the number is the identity. *)
Lemma parse_to_dec w z : 0 <= z < 2 ^ w -> parse_uint w (to_dec z) = Some z.
Proof.
  intros Hz. unfold to_dec.
  destruct (dec_loop_head (Z.to_nat (Z.log2 z)) z "") as (c & s & Hs & Hc); [lia|].
  rewrite Hs, parse_uint_digits by done. rewrite <- Hs, parse_dec_loop.
  - simpl. apply checked_Some. lia.
  - rewrite Nat2Z.inj_succ, Z2Nat.id by apply Z.log2_nonneg.
    destruct (decide (z = 0)) as [->|]; [done|].
    pose proof (Z.log2_spec z). lia.
Qed.

Lemma parse_uint_range w s z : parse_uint w s = Some z -> 0 <= z < 2 ^ w.
Proof.
  unfold parse_uint.
  generalize (match s with String "+"%char rest => rest | _ => s end). intros body.
  destruct body as [|c body]; [done|]. destruct (parse_digits _ _); [|done].
  by intros [-> ?]%checked_Some.
Qed.

(** ** Searching text

    [str::to_lowercase] on ASCII, [str::contains], and the text after the first
    occurrence of a needle ([find] with the slice behind it). *)

Fixpoint to_lowercase (s : string) : string :=
  match s with
  | EmptyString => ""
  | String c s =>
      let n := Ascii.N_of_ascii c in
      String (if ((65 <=? n) && (n <=? 90))%N then Ascii.ascii_of_N (n + 32) else c) (to_lowercase s)
  end.

Fixpoint strip_prefix (needle s : string) : option string :=
  match needle, s with
  | EmptyString, _ => Some s
  | String a needle, String b s => if Ascii.eqb a b then strip_prefix needle s else None
  | _, _ => None
  end.

Fixpoint text_after (needle s : string) : option string :=
  match strip_prefix needle s with
  | Some rest => Some rest
  | None => match s with EmptyString => None | String _ s => text_after needle s end
  end.

Definition contains (needle s : string) : bool :=
  match text_after needle s with Some _ => true | None => false end.

(** [chars().take_while(char::is_ascii_digit)]. *)
Fixpoint leading_digits (s : string) : string :=
  match s with
  | String c s => match digit_value c with Some _ => String c (leading_digits s) | None => "" end
  | EmptyString => ""
  end.

(** ** [BTreeMap]

    Maps are [gmap]s; [btree_list] is the iteration order of a [BTreeMap]
    (ascending keys). *)

Definition key_le {V} (a b : string * V) : Prop := String.leb a.1 b.1 = true.
#[export] Instance key_le_dec {V} (a b : string * V) : Decision (key_le a b) :=
  decide (String.leb a.1 b.1 = true).

Definition btree_list {V} (m : gmap string V) : list (string * V) :=
  merge_sort key_le (map_to_list m).

Lemma elem_of_btree_list {V} (m : gmap string V) k v :
  (k, v) ∈ btree_list m <-> m !! k = Some v.
Proof. unfold btree_list. by rewrite merge_sort_Permutation, elem_of_map_to_list. Qed.

Lemma btree_list_perm {V} (m : gmap string V) : btree_list m ≡ₚ map_to_list m.
Proof. apply merge_sort_Permutation. Qed.

(** The keys come out in ascending order. *)
Lemma btree_list_sorted {V} (m : gmap string V) : Sorted key_le (btree_list m).
Proof. apply Sorted_merge_sort. intros a b. apply String.leb_total. Qed.

Definition zkey_le {V} (a b : Z * V) : Prop := a.1 <= b.1.
#[export] Instance zkey_le_dec {V} (a b : Z * V) : Decision (zkey_le a b) :=
  decide (a.1 <= b.1).

Definition btree_zlist {V} (m : gmap Z V) : list (Z * V) := merge_sort zkey_le (map_to_list m).

Lemma btree_zlist_perm {V} (m : gmap Z V) : btree_zlist m ≡ₚ map_to_list m.
Proof. apply merge_sort_Permutation. Qed.
