(* ===== verification/Monitor.v ===== *)
(** * Monitors over traces

    A program over a state that keeps the trace of its effects.  A monitor reads
    the trace event by event and refuses what must not happen; the rules below
    prove that it accepts every run of a program, with what its state is then
    known to be beside a view of the program's state. *)

From S2P Require Import Prelude.

Definition monitor {S Ev} (step : S -> Ev -> option S) (init : S) (t : list Ev) : option S :=
  foldl (fun st ev => st ≫= fun st => step st ev) (Some init) t.

Lemma monitor_app {S Ev} (step : S -> Ev -> option S) init t u :
  monitor step init (t ++ u) = monitor step init t ≫= fun st => monitor step st u.
Proof.
  unfold monitor. rewrite foldl_app. destruct (foldl _ _ t) as [st|]; [done|]. simpl. by induction u.
Qed.

Lemma monitor_snoc {S Ev} (step : S -> Ev -> option S) init t ev :
  monitor step init (t ++ [ev]) = monitor step init t ≫= fun st => step st ev.
Proof. apply monitor_app. Qed.

Lemma monitor_prefix {S Ev} (step : S -> Ev -> option S) init t u :
  t `prefix_of` u -> is_Some (monitor step init u) -> is_Some (monitor step init t).
Proof. intros [v ->]. rewrite monitor_app. by destruct (monitor step init t). Qed.

Section Monitored.
Context {St Ev S V : Type} (trace : St -> list Ev) (view : St -> V) (step : S -> Ev -> option S) (init : S)
  (link : S -> V -> Prop).
Implicit Types Q : S -> V -> Prop.

(** The monitor has accepted the trace, is linked to the view, and is in a state
    of [Q]. *)
Definition seen Q (s : St) : Prop :=
  exists st, monitor step init (trace s) = Some st /\ link st (view s) /\ Q st (view s).
Definition monitored {A} Q (m : M St A) (Q' : A -> S -> V -> Prop) : Prop :=
  hoare (seen Q) m (fun a => seen (Q' a)) (seen (fun _ _ => True)).

Lemma seen_weaken Q Q' s : (forall st fs, Q st fs -> Q' st fs) -> seen Q s -> seen Q' s.
Proof. intros HQ (st & Hm & Hl & Hq). exists st. auto. Qed.

Lemma monitored_weaken {A} Q P (m : M St A) (Q' P' : A -> S -> V -> Prop) :
  monitored Q m Q' -> (forall st fs, P st fs -> Q st fs) -> (forall a st fs, Q' a st fs -> P' a st fs) -> monitored P m P'.
Proof.
  intros Hm Hp Hq. eapply hoare_conseq; [exact Hm|..]; [|intros a|done]; intros s; apply seen_weaken; auto.
Qed.

Lemma monitored_bind {A B} Q R (m : M St A) (f : A -> M St B) (Q' : B -> S -> V -> Prop) :
  monitored Q m R -> (forall a, monitored (R a) (f a) Q') -> monitored Q (m ≫= f) Q'.
Proof. apply hoare_bind. Qed.

Lemma monitored_ret {A} Q (a : A) : monitored Q (mret a) (fun b st fs => b = a /\ Q st fs).
Proof. intros s (st & Hm & Hl & Hq). exists st. auto. Qed.

Lemma monitored_lift {A} Q (r : result A) : monitored Q (lift r) (fun a st fs => r = Ok a /\ Q st fs).
Proof. intros s (st & Hm & Hl & Hq). unfold lift. destruct r; exists st; auto. Qed.

Lemma monitored_throw {A} Q e (Q' : A -> S -> V -> Prop) : monitored Q (throw e) Q'.
Proof. intros s (st & Hm & Hl & Hq). exists st. auto. Qed.

Lemma monitored_get {A} Q (f : St -> M St A) (Q' : A -> S -> V -> Prop) :
  (forall s, monitored Q (f s) Q') -> monitored Q (s ← get; f s) Q'.
Proof. intros Hf s Hs. exact (Hf s s Hs). Qed.

(** The view of the state is known to the monitor's side. *)
Lemma monitored_peek {A} Q (g : V -> A) :
  monitored Q (s ← get; mret (g (view s))) (fun a st fs => a = g fs /\ Q st fs).
Proof. intros s (st & Hm & Hl & Hq). exists st. auto. Qed.

Lemma monitored_ensure Q b msg : monitored Q (ensure b msg) (fun _ st fs => b = true /\ Q st fs).
Proof.
  eapply monitored_weaken; [apply monitored_lift|done|]. intros u st fs [Hb Hq]. by apply ensure_ok_ok in Hb.
Qed.

Lemma monitored_for_each {A} Q (f : A -> M St ()) l :
  (forall x, x ∈ l -> monitored Q (f x) (fun _ => Q)) -> monitored Q (for_each f l) (fun _ => Q).
Proof.
  induction l as [|x l IH]; intros Hf; cbn [for_each].
  - eapply monitored_weaken; [apply monitored_ret|done|naive_solver].
  - eapply monitored_bind; [apply Hf; set_solver|]. intros u. apply IH. intros y Hy. apply Hf. set_solver.
Qed.

(** Programs that leave the trace and the view alone. *)
Lemma monitored_quiet {A} Q (m : M St A) :
  (forall s, trace (m s).2 = trace s /\ view (m s).2 = view s) -> monitored Q m (fun _ => Q).
Proof.
  intros Hq s (st & Hm & Hl & HQ). specialize (Hq s) as [Ht Hv].
  destruct (m s) as [[a|e] s']; simpl in *; exists st; rewrite Ht, ?Hv; auto.
Qed.

(** Programs that add one event and change the view. *)
Lemma monitored_event {A} Q (m : M St A) (a : A) ev (g : V -> V) (Q' : A -> S -> V -> Prop) :
  (forall s, (m s).1 = Ok a /\ trace (m s).2 = trace s ++ [ev] /\ view (m s).2 = g (view s)) ->
  (forall st fs, link st fs -> Q st fs -> exists st', step st ev = Some st' /\ link st' (g fs) /\ Q' a st' (g fs)) ->
  monitored Q m Q'.
Proof.
  intros Hm Hs s (st & Hst & Hl & Hq). specialize (Hm s) as (Hr & Ht & Hv).
  destruct (Hs _ _ Hl Hq) as (st' & Hstep & Hq'). destruct (m s) as [r s']; simpl in *. subst r. exists st'.
  by rewrite Ht, Hv, monitor_app, Hst.
Qed.

(** Events the monitor ignores. *)
Definition silent (ev : Ev) : Prop := forall st, step st ev = Some st.
End Monitored.
