(* ===== verification/Types.v ===== *)
(** * Foundation types (src/types.rs)

    [ChainType] and [Network] with their string forms and the per-network
    presets the deployment commands read. *)

From Stdlib Require Ascii.
From S2P Require Import Prelude.

(** 20-byte and 32-byte values are the integers they encode. *)
Abbreviation Address := Z.
Abbreviation B256 := Z.
Abbreviation bytes := (list Z).

(** [hex::decode]. *)
Definition hex_value (c : Ascii.ascii) : option Z :=
  let n := Z.of_N (Ascii.N_of_ascii c) in
  if (48 <=? n) && (n <=? 57) then Some (n - 48)
  else if (97 <=? n) && (n <=? 102) then Some (n - 87)
  else if (65 <=? n) && (n <=? 70) then Some (n - 55)
  else None.
Fixpoint hex_decode (s : string) : option bytes :=
  match s with
  | EmptyString => Some []
  | String a (String b s) =>
      x ← hex_value a; y ← hex_value b; rest ← hex_decode s; Some (x * 16 + y :: rest)
  | String _ EmptyString => None
  end.

(** The integer that big-endian bytes encode. *)
Definition from_be (b : bytes) : Z := foldl (fun acc x => acc * 256 + x) 0 b.

(** [char::to_ascii_lowercase]. *)
Definition to_ascii_lowercase (c : Ascii.ascii) : Ascii.ascii :=
  let n := Ascii.N_of_ascii c in
  if ((65 <=? n) && (n <=? 90))%N then Ascii.ascii_of_N (n + 32) else c.

Fixpoint eq_ignore_ascii_case (a b : string) : bool :=
  match a, b with
  | EmptyString, EmptyString => true
  | String x a, String y b =>
      Ascii.eqb (to_ascii_lowercase x) (to_ascii_lowercase y) && eq_ignore_ascii_case a b
  | _, _ => false
  end.

Inductive ChainType : Type := Evm | Svm.

#[export] Instance ChainType_eq_dec : EqDecision ChainType.
Proof. solve_decision. Defined.

Module ChainTypeStr.
Definition as_str (c : ChainType) : string :=
  match c with Evm => "evm" | Svm => "svm" end.

Definition from_str (s : string) : result ChainType :=
  if decide (s = "evm") then Ok Evm
  else if decide (s = "svm") then Ok Svm
  else Err (Failed "unknown chainType").
End ChainTypeStr.

Inductive Network : Type := Mainnet | Testnet | Stagenet | DevnetAmplifier.

#[export] Instance Network_eq_dec : EqDecision Network.
Proof. solve_decision. Defined.

Definition ALL : list Network := [Mainnet; Testnet; Stagenet; DevnetAmplifier].

(** A threshold is a fraction [(numerator, denominator)] of [u64]s. *)
Definition verifier_threshold (n : Network) : Z * Z :=
  match n with
  | Mainnet => (2, 3)
  | Testnet | Stagenet => (51, 100)
  | DevnetAmplifier => (6, 10)
  end.

Definition gateway_rotation_delay_seconds (n : Network) : Z :=
  match n with
  | Mainnet => 86400
  | Testnet => 3600
  | Stagenet => 300
  | DevnetAmplifier => 0
  end.

Definition deployment_uses_governance (n : Network) : bool :=
  match n with DevnetAmplifier => false | _ => true end.

Definition verifier_service_name (n : Network) : string :=
  match n with
  | DevnetAmplifier => "validators"
  | Mainnet | Testnet | Stagenet => "amplifier"
  end.

(** [Network::axelar_operators]. *)
Definition axelar_operators (n : Network) : list Address :=
  match n with
  | Mainnet => [0x0CDeE446bD3c2E0D11568eeDB859Aa7112BE657a; 0x1a07a2Ee043Dd3922448CD53D20Aae88a67e486E]
  | Testnet => [0x8f23e84c49624a22e8c252684129910509ade4e2; 0x3b401fa00191acb03c24ebb7754fe35d34dd1abd]
  | Stagenet => [0x7054acf1b2d01e33b86235458edf0046cc354293; 0xf669ed1ebc608c48f58b6e290df566ede7fb1103]
  | DevnetAmplifier =>
      [0x01c793e1F8185a2527C5a2Ef3b4a3FBCb8982690; 0xDb32E08fd5d6823E7f0298963E487d5df4e54b1E]
  end.

Module NetworkStr.
Definition as_str (n : Network) : string :=
  match n with
  | Mainnet => "mainnet"
  | Testnet => "testnet"
  | Stagenet => "stagenet"
  | DevnetAmplifier => "devnet-amplifier"
  end.

Definition from_str (s : string) : result Network :=
  if decide (s = "mainnet") then Ok Mainnet
  else if decide (s = "testnet") then Ok Testnet
  else if decide (s = "stagenet") then Ok Stagenet
  else if decide (s = "devnet-amplifier") then Ok DevnetAmplifier
  else Err (Failed "unknown network").
End NetworkStr.

(** [HubChain::NAME]. *)
Definition HubChain_NAME : string := "axelar".

Lemma chain_type_from_str_iff s c :
  ChainTypeStr.from_str s = Ok c <-> s = ChainTypeStr.as_str c.
Proof.
  unfold ChainTypeStr.from_str, ChainTypeStr.as_str.
  repeat case_decide; subst; destruct c; naive_solver.
Qed.

Lemma network_from_str_iff s n :
  NetworkStr.from_str s = Ok n <-> s = NetworkStr.as_str n.
Proof.
  unfold NetworkStr.from_str, NetworkStr.as_str.
  repeat case_decide; subst; destruct n; naive_solver.
Qed.

Lemma ALL_complete n : n ∈ ALL.
Proof. destruct n; set_solver. Qed.
