(* ===== verification/Retry.v ===== *)
(** * Retry helpers (src/retry.rs)

    [retry_async], [retry_with_fallback], their backoff schedule and the
    default classification of errors.  The retried operation is a state
    transformer over an arbitrary environment, so that successive calls may
    answer differently, and so is sleeping; the model also returns the delays
    slept, in order. *)

From S2P Require Import Prelude.

Definition DEFAULT_ATTEMPTS : Z := 6.
Definition FALLBACK_ATTEMPTS : nat := 6.
Definition BASE_BACKOFF_MS : Z := 4000.
Definition MAX_BACKOFF_MS : Z := 64000.

(** The nominal delay before the retry that follows attempt [attempt]. *)
Definition nominal_backoff (attempt : Z) : Z :=
  Z.min (Z.shiftl BASE_BACKOFF_MS (Z.min attempt 31)) MAX_BACKOFF_MS.

(** A Rust outcome: a returned [Result], or the panic of [unreachable!]. *)
Inductive outcome (T X : Type) : Type :=
  | Returned (r : X + T)
  | Panicked.
Arguments Returned {T X} r.
Arguments Panicked {T X}.

Section Retry.
Context {Env T X C : Type}.
(** The jitter of [jittered]: a random spread around the nominal delay. *)
Context (jittered : Z -> Z).
Context (sleep : Z -> Env -> Env).
Context (is_transient : X -> bool).

Definition backoff_for_attempt (attempt : Z) : Z := jittered (nominal_backoff attempt).

(** The loop of [retry_async] from attempt number [attempt]; [fuel] bounds
    the iterations. *)
Fixpoint retry_loop (fuel : nat) (attempts attempt : Z) (op : Env -> (X + T) * Env)
    (e : Env) : option ((X + T) * list Z * Env) :=
  match fuel with
  | O => None
  | S fuel =>
      match op e with
      | (inr t, e') => Some (inr t, [], e')
      | (inl x, e') =>
          if (attempt + 1 <? attempts) && is_transient x then
            '(r, slept, e'') ← retry_loop fuel attempts (attempt + 1) op (sleep (backoff_for_attempt attempt) e');
            Some (r, backoff_for_attempt attempt :: slept, e'')
          else Some (inl x, [], e')
      end
  end.

Definition retry_async (attempts : Z) (op : Env -> (X + T) * Env) (e : Env)
    : option ((X + T) * list Z * Env) :=
  retry_loop (S (Z.to_nat attempts)) attempts 0 op e.

(** The attempts of one endpoint in [retry_with_fallback]: [inr] is a
    return from the function, [inl] falls through to the next endpoint with
    the recorded [final_err]. *)
Fixpoint endpoint_loop (remaining : nat) (attempt : Z) (final_err : option X)
    (op : C -> Env -> (X + T) * Env) (c : C) (e : Env)
    : (option X + (X + T)) * list Z * Env :=
  match remaining with
  | O => (inl final_err, [], e)
  | S remaining =>
      match op c e with
      | (inr t, e') => (inr (inr t), [], e')
      | (inl x, e') =>
          if negb (is_transient x) then (inr (inl x), [], e')
          else if attempt + 1 <? Z.of_nat FALLBACK_ATTEMPTS then
            let '(r, slept, e'') :=
              endpoint_loop remaining (attempt + 1) final_err op c (sleep (backoff_for_attempt attempt) e') in
            (r, backoff_for_attempt attempt :: slept, e'')
          else endpoint_loop remaining (attempt + 1) (Some x) op c e'
      end
  end.

Fixpoint fallback_loop (endpoints : list C) (final_err : option X)
    (op : C -> Env -> (X + T) * Env) (e : Env) : outcome T X * list Z * Env :=
  match endpoints with
  | [] =>
      (match final_err with Some x => Returned (inl x) | None => Panicked end, [], e)
  | c :: rest =>
      match endpoint_loop FALLBACK_ATTEMPTS 0 final_err op c e with
      | (inr r, slept, e') => (Returned r, slept, e')
      | (inl err, slept, e') =>
          let '(r, slept', e'') := fallback_loop rest err op e' in
          (r, slept ++ slept', e'')
      end
  end.

Definition retry_with_fallback (endpoints : list C) (op : C -> Env -> (X + T) * Env)
    (e : Env) : outcome T X * list Z * Env :=
  fallback_loop endpoints None op e.

(** ** Specification: [n] calls from attempt number [attempt], all but the last
    failing transiently and followed by the scheduled delay *)

Inductive calls (op : Env -> (X + T) * Env) : Z -> nat -> Env -> (X + T) -> Env -> Prop :=
  | calls_last attempt e r e' : op e = (r, e') -> calls op attempt 1 e r e'
  | calls_retry attempt e x e1 n r e' :
      op e = (inl x, e1) -> is_transient x = true ->
      calls op (attempt + 1) n (sleep (backoff_for_attempt attempt) e1) r e' ->
      calls op attempt (S n) e r e'.

Definition transient_failure (r : X + T) : bool :=
  match r with inl x => is_transient x | inr _ => false end.

Lemma calls_pos op a n e r e' : calls op a n e r e' -> (1 <= n)%nat.
Proof. induction 1; lia. Qed.

Lemma seqZ_retry m n :
  (1 <= n)%nat -> seqZ m (Z.of_nat (S n) - 1) = m :: seqZ (m + 1) (Z.of_nat n - 1).
Proof.
  intros Hn. rewrite (seqZ_cons m) by lia. f_equal. f_equal; lia.
Qed.

Lemma retry_loop_spec op fuel attempts attempt e :
  0 <= attempt -> (Z.to_nat (attempts - attempt) < fuel)%nat ->
  exists n r slept e',
    retry_loop fuel attempts attempt op e = Some (r, slept, e') /\
    calls op attempt n e r e' /\
    Z.of_nat n <= Z.max 1 (attempts - attempt) /\
    slept = backoff_for_attempt <$> seqZ attempt (Z.of_nat n - 1) /\
    (transient_failure r = true -> Z.of_nat n = Z.max 1 (attempts - attempt)).
Proof.
  revert attempt e. induction fuel as [|fuel IH]; intros attempt e Ha Hf; [lia|].
  simpl. destruct (op e) as [[x|t] e1] eqn:Hop.
  - destruct (Z.ltb_spec (attempt + 1) attempts) as [Hlt|Hge]; simpl.
    + destruct (is_transient x) eqn:Hx.
      * destruct (IH (attempt + 1) (sleep (backoff_for_attempt attempt) e1)) as (n & r & slept & e' & -> & Hc & Hn & -> & Hr);
          [lia..|].
        exists (S n), r, (backoff_for_attempt attempt :: (backoff_for_attempt <$> seqZ (attempt + 1) (Z.of_nat n - 1))), e'.
        pose proof (calls_pos _ _ _ _ _ _ Hc).
        split; [done|]. split; [by eapply calls_retry|]. split; [lia|]. split.
        -- by rewrite seqZ_retry by lia.
        -- intros Ht. specialize (Hr Ht). lia.
      * exists 1%nat, (inl x), [], e1. repeat split; [by constructor|lia|simpl; congruence].
    + exists 1%nat, (inl x), [], e1. repeat split; [by constructor|lia|lia].
  - exists 1%nat, (inr t), [], e1. repeat split; [by constructor|lia|done].
Qed.

Lemma endpoint_loop_spec op c remaining attempt err e :
  (0 < remaining)%nat -> Z.of_nat remaining = Z.of_nat FALLBACK_ATTEMPTS - attempt ->
  exists n r slept e',
    calls (op c) attempt n e r e' /\ (n <= remaining)%nat /\
    slept = backoff_for_attempt <$> seqZ attempt (Z.of_nat n - 1) /\
    (transient_failure r = true -> n = remaining) /\
    endpoint_loop remaining attempt err op c e =
      (match r with
       | inl x => if is_transient x then inl (Some x) else inr (inl x)
       | inr t => inr (inr t)
       end, slept, e').
Proof.
  revert attempt e. induction remaining as [|rem IH]; intros attempt e Hpos Heq; [lia|].
  simpl. destruct (op c e) as [[x|t] e1] eqn:Hop; simpl.
  2: { exists 1%nat, (inr t), [], e1. repeat split; [by constructor|lia|done]. }
  destruct (is_transient x) eqn:Hx; simpl.
  2: { exists 1%nat, (inl x), [], e1. rewrite Hx.
       repeat split; [by constructor|lia|simpl; congruence]. }
  destruct (Z.ltb_spec (attempt + 1) (Z.of_nat FALLBACK_ATTEMPTS)) as [Hlt|Hge].
  - destruct (IH (attempt + 1) (sleep (backoff_for_attempt attempt) e1)) as (n & r & slept & e' & Hc & Hn & -> & Hr & ->); [lia..|].
    pose proof (calls_pos _ _ _ _ _ _ Hc).
    exists (S n), r, (backoff_for_attempt <$> seqZ attempt (Z.of_nat (S n) - 1)), e'.
    split; [by eapply calls_retry|]. split; [lia|]. split; [done|]. split; [naive_solver lia|].
    by rewrite seqZ_retry by lia.
  - assert (rem = 0%nat) as -> by lia.
    exists 1%nat, (inl x), [], e1. rewrite Hx. repeat split; [by constructor|lia].
Qed.

(** What [retry_with_fallback] does with its ordered endpoints. *)
Inductive fallback (op : C -> Env -> (X + T) * Env)
    : list C -> Env -> (X + T) -> Env -> Prop :=
  | fallback_decided c cs n e r e' :
      calls (op c) 0 n e r e' -> (n <= FALLBACK_ATTEMPTS)%nat ->
      transient_failure r = false -> fallback op (c :: cs) e r e'
  | fallback_last c e x e' :
      calls (op c) 0 FALLBACK_ATTEMPTS e (inl x) e' -> is_transient x = true ->
      fallback op [c] e (inl x) e'
  | fallback_next c c' cs e x e1 r e' :
      calls (op c) 0 FALLBACK_ATTEMPTS e (inl x) e1 -> is_transient x = true ->
      fallback op (c' :: cs) e1 r e' -> fallback op (c :: c' :: cs) e r e'.

Lemma fallback_loop_cons op c cs err e :
  fallback_loop (c :: cs) err op e =
    match endpoint_loop FALLBACK_ATTEMPTS 0 err op c e with
    | (inr r, slept, e') => (Returned r, slept, e')
    | (inl err, slept, e') =>
        let '(r, slept', e'') := fallback_loop cs err op e' in (r, slept ++ slept', e'')
    end.
Proof. reflexivity. Qed.

Lemma fallback_loop_spec op cs c err e :
  exists r slept e',
    fallback_loop (c :: cs) err op e = (Returned r, slept, e') /\
    fallback op (c :: cs) e r e' /\
    (length slept <= (FALLBACK_ATTEMPTS - 1) * length (c :: cs))%nat.
Proof.
  revert c err e. induction cs as [|c' cs IH]; intros c err e.
  all: destruct (endpoint_loop_spec op c FALLBACK_ATTEMPTS 0 err e)
    as (n & r & slept & e' & Hc & Hn & Hs & Hr & Heq); [unfold FALLBACK_ATTEMPTS; lia..|].
  all: assert (length slept = n - 1)%nat as Hlen
    by (rewrite Hs, length_fmap, length_seqZ; lia).
  all: pose proof (calls_pos _ _ _ _ _ _ Hc); rewrite fallback_loop_cons, Heq.
  all: destruct r as [x|t]; [destruct (is_transient x) eqn:Hx|].
  all: try (eexists _, _, _; split; [done|]; split;
            [by eapply fallback_decided|simpl in *; unfold FALLBACK_ATTEMPTS in *; lia]).
  - rewrite Hr in Hc by done. eexists _, _, _. split; [done|].
    split; [by apply fallback_last|]. rewrite length_app.
    simpl in *; unfold FALLBACK_ATTEMPTS in *; lia.
  - rewrite Hr in Hc by done.
    destruct (IH c' (Some x) e') as (r' & slept' & e'' & -> & Hfb & Hle).
    eexists _, _, _. split; [done|]. split; [by eapply fallback_next|].
    rewrite length_app. simpl in *. unfold FALLBACK_ATTEMPTS in *. lia.
Qed.

(** A property of what the last call leaves, from an invariant of the calls
    before it. *)
Lemma calls_post (I : Env -> Prop) (Q : X + T -> Env -> Prop) op a n e r e' :
  (forall e, I e -> Q (op e).1 (op e).2 /\ (forall x, (op e).1 = inl x -> I (op e).2)) ->
  (forall d e, I e -> I (sleep d e)) ->
  calls op a n e r e' -> I e -> Q r e'.
Proof.
  intros Hop Hs. induction 1 as [a e r e' Hr|a e x e1 n r e' Hx _ _ IH]; intros Hi.
  - specialize (Hop e Hi). rewrite Hr in Hop. apply Hop.
  - apply IH, Hs. specialize (Hop e Hi). rewrite Hx in Hop. by eapply Hop.
Qed.

Lemma fallback_post (I : Env -> Prop) (Q : X + T -> Env -> Prop) op cs e r e' :
  (forall c e, c ∈ cs -> I e -> Q (op c e).1 (op c e).2 /\ (forall x, (op c e).1 = inl x -> I (op c e).2)) ->
  (forall d e, I e -> I (sleep d e)) ->
  fallback op cs e r e' -> I e -> Q r e'.
Proof.
  intros Hop Hs Hf. revert Hop. induction Hf as [c cs n e r e' Hc _ _|c e x e' Hc _|c c' cs e x e1 r e' Hc _ _ IH];
    intros Hop Hi.
  1-2: eapply (calls_post I Q (op c)); [intros e1; apply Hop; set_solver|done..].
  apply IH; [intros c0 e0 Hin; apply Hop; set_solver|].
  eapply (calls_post I (fun r e => forall x, r = inl x -> I e) (op c)); [|done..].
  intros e0 He0. destruct (Hop c e0 ltac:(set_solver) He0) as [_ Hx]. done.
Qed.

(** [retry_async] always returns.  It makes [n] calls, at least one and
    at most the budget; every call but the last failed with an error the
    predicate calls transient; it sleeps the scheduled delay of attempts
    [0 .. n-2] between them; and it gives up on a transient error only when
    the whole budget is spent. *)
Theorem retry_async_bounded op attempts e :
  exists n r slept e',
    retry_async attempts op e = Some (r, slept, e') /\
    calls op 0 n e r e' /\
    Z.of_nat n <= Z.max 1 attempts /\
    slept = backoff_for_attempt <$> seqZ 0 (Z.of_nat n - 1) /\
    (transient_failure r = true -> Z.of_nat n = Z.max 1 attempts).
Proof.
  destruct (retry_loop_spec op (S (Z.to_nat attempts)) attempts 0 e)
    as (n & r & slept & e' & H); [lia..|].
  rewrite Z.sub_0_r in H. eauto.
Qed.

(** With at least one endpoint [retry_with_fallback] never reaches its
    [unreachable!]: it walks the endpoints in order, moves on only after six
    transient failures of one endpoint, returns the first success or
    permanent error, and otherwise the last error of the last endpoint. *)
Theorem retry_with_fallback_spec op c cs e :
  exists r slept e',
    retry_with_fallback (c :: cs) op e = (Returned r, slept, e') /\
    fallback op (c :: cs) e r e' /\
    (length slept <= (FALLBACK_ATTEMPTS - 1) * length (c :: cs))%nat.
Proof. apply fallback_loop_spec. Qed.
End Retry.

(** ** Variants *)

Section Variants.
Context {Env T X C : Type} (jittered : Z -> Z) (sleep : Z -> Env -> Env).

(** [retry_all] and [retry_with_fallback_all]: every error is transient. *)
Definition retry_all (op : Env -> (X + T) * Env) : Env -> option ((X + T) * list Z * Env) :=
  retry_async jittered sleep (fun _ => true) DEFAULT_ATTEMPTS op.

Definition retry_with_fallback_all (endpoints : list C) (op : C -> Env -> (X + T) * Env)
    : Env -> outcome T X * list Z * Env :=
  retry_with_fallback jittered sleep (fun _ => true) endpoints op.
End Variants.

(** [is_transient_default], by the text of the error. *)
Definition is_transient_default (text : string) : bool :=
  let msg := to_lowercase text in
  existsb (fun signature => contains signature msg)
    ["timeout"; "timed out"; "connection"; "network"; "502"; "503"; "504"; "429";
     "too many requests"; "bad gateway"; "service unavailable"; "gateway timeout"; "server error";
     "state not available for pending block"].

(** The documented worst case of one endpoint: five delays, 124 seconds. *)
Example worst_case_endpoint : foldr Z.add 0 (nominal_backoff <$> seqZ 0 5) = 124000.
Proof. reflexivity. Qed.

Lemma nominal_backoff_bounds attempt :
  0 <= attempt -> BASE_BACKOFF_MS <= nominal_backoff attempt <= MAX_BACKOFF_MS.
Proof.
  intros Ha. unfold nominal_backoff, BASE_BACKOFF_MS, MAX_BACKOFF_MS.
  rewrite Z.shiftl_mul_pow2 by lia.
  pose proof (Z.pow_pos_nonneg 2 (Z.min attempt 31)). nia.
Qed.
