(* ===== verification/Journal.v ===== *)
(** * Deployment journal: data (hardened/types.rs)

    The records and enums of the hardened deployment, the journal with its
    pure updates, and the confirmation policy with its text form. *)

From S2P Require Import Prelude Types.

(** ** Public deployment inputs *)

Record CosmosDeployment : Type := mkCosmosDeployment {
  deployment_name : string;
  cd_coordinator : string;
  cd_salt : string;
  code_ids : Z * Z * Z;
  cd_gateway : string;
  cd_verifier : string;
  cd_prover : string
}.

Record Plan : Type := mkPlan {
  evm_chain_id : Z;
  axelar_chain_id : string;
  gateway_owner : Address;
  operators_owner : Address;
  gas_service_owner : Address;
  its_owner : Address;
  factory_owner : Address;
  gateway_operator : Address;
  plan_prover_admin : string;
  approved_verifiers : list string;
  evm_gas_budget : string;
  cosmos_fee_budget : string;
  reward_amount : string;
  voting_threshold : Z * Z;
  signing_threshold : Z * Z;
  block_expiry : Z;
  confirmation_height : Z
}.

#[export] Instance Plan_eq_dec : EqDecision Plan.
Proof. solve_decision. Defined.

(** ** [EvmConfirmationPolicy] *)

Inductive EvmConfirmationPolicy : Type :=
  | Confirmations (count : Z)   (* NonZeroU64 *)
  | Finalized.

#[export] Instance EvmConfirmationPolicy_eq_dec : EqDecision EvmConfirmationPolicy.
Proof. solve_decision. Defined.

(** The block an RPC is asked for: [BlockNumberOrTag]. *)
Inductive BlockTag : Type := TagLatest | TagFinalized | TagNumber (n : Z).

Module Policy.
Definition default : EvmConfirmationPolicy := Confirmations 1.
Definition previous_default : EvmConfirmationPolicy := Finalized.

Definition block_tag (p : EvmConfirmationPolicy) : BlockTag :=
  match p with
  | Confirmations _ => TagLatest
  | Finalized => TagFinalized
  end.

(** [str::parse::<NonZeroU64>]. *)
Definition parse_nonzero_u64 (s : string) : option Z :=
  n ← parse_uint 64 s; if n =? 0 then None else Some n.

Definition from_str (value : string) : result EvmConfirmationPolicy :=
  if decide (value = "finalized") then Ok Finalized
  else match parse_nonzero_u64 value with
       | Some count => Ok (Confirmations count)
       | None => Err (Failed "EVM confirmations must be a positive block count or 'finalized'")
       end.

Definition fmt (p : EvmConfirmationPolicy) : string :=
  match p with
  | Confirmations count => to_dec count
  | Finalized => "finalized"
  end.

(** A value the Rust type can hold. *)
Definition valid (p : EvmConfirmationPolicy) : Prop :=
  match p with
  | Confirmations count => 0 < count < 2 ^ 64
  | Finalized => True
  end.

(** [confirmations::required_height]. *)
Definition required_height (p : EvmConfirmationPolicy) (inclusion : Z) : result Z :=
  let extra := match p with
               | Confirmations count => count - 1
               | Finalized => 0
               end in
  ok_or (checked_add 64 inclusion extra) "confirmation height overflow".
End Policy.

(** ** Command line options of [deploy run] *)

Record Options : Type := mkOptions {
  activate : bool;
  opt_evm_confirmations : option EvmConfirmationPolicy;
  evm_wait_seconds : Z;
  bump_fees : option string;
  cosmos_fee : option Z;
  opt_retry_failed : option string;
  retry_gas_limit : option Z;
  recovery_lcd : option string
}.

(** ** Transactions, receipts and confirmations *)

Inductive Transaction : Type :=
  | EvmTx (intent : B256) (raw : bytes) (hash : B256) (sender : Address)
      (nonce : Z) (gas_cost : string)
  | CosmosTx (intent : B256) (raw : bytes) (hash : string) (sender : string)
      (fee : string) (sequence : Z).

#[export] Instance Transaction_eq_dec : EqDecision Transaction.
Proof. solve_decision. Defined.

(** The fields of alloy's [TransactionReceipt] that the code reads. *)
Record Log : Type := mkLog {
  log_topics : list B256;
  log_index : option Z
}.

Record Receipt : Type := mkReceipt {
  transaction_hash : B256;
  block_number : option Z;
  block_hash : option B256;
  status : bool;
  contract_address : option Address;
  receipt_logs : list Log
}.

(** What the code reads of an LCD transaction response: each field is the
    outcome of its [as_str] or [as_u64] access below [tx_response]. *)
Record TxResponse : Type := mkTxResponse {
  txhash : option string;
  height : option string;
  code : option Z;
  (** The events with their attributes (key, value); [None] when the list does
      not deserialize. *)
  tx_events : option (list (string * list (option string * option string)))
}.

Inductive Confirmation : Type :=
  | EvmConfirmed (receipt : Receipt)
  | CosmosConfirmed (height code : Z) (response : TxResponse).

Record ContractEvidence : Type := mkEvidence {
  ev_address : Address;
  ev_code_hash : B256;
  ev_owner : option Address;
  ev_implementation : option Address;
  ev_operator : option Address;
  ev_signer_hash : option B256
}.

#[export] Instance ContractEvidence_eq_dec : EqDecision ContractEvidence.
Proof. solve_decision. Defined.

Record ProtocolIdentity : Type := mkProtocol {
  pi_address : string;
  pi_code_id : string;
  pi_checksum : string;
  pi_creator : string;
  pi_admin : string
}.

#[export] Instance ProtocolIdentity_eq_dec : EqDecision ProtocolIdentity.
Proof. solve_decision. Defined.

Record InitialSigners : Type := mkInitialSigners {
  identities : list string;
  signers : list (Address * Z);
  threshold : Z;
  set_nonce : B256;
  set_id : string;
  set_hash : B256
}.

(** ** The journal *)

Record Journal : Type := mkJournal {
  version : Z;
  fingerprint : B256;
  cosmos_deployment : option CosmosDeployment;
  inputs_hash : option B256;
  evm_confirmations : EvmConfirmationPolicy;
  actions : gmap string Transaction;
  evidence : gmap string ContractEvidence;
  confirmations : gmap string Confirmation;
  attempts : gmap string (list Transaction);
  retry_gas_limits : gmap string Z;
  protocols : gmap string ProtocolIdentity;
  protocol_history : list (gmap string ProtocolIdentity);
  initial_signers : option InitialSigners;
  rotations : gmap Z B256
}.

Definition set_cosmos_deployment (x : option CosmosDeployment) (j : Journal) : Journal :=
  mkJournal (version j) (fingerprint j) x (inputs_hash j) (evm_confirmations j) (actions j) (evidence j) (confirmations j) (attempts j) (retry_gas_limits j) (protocols j) (protocol_history j) (initial_signers j) (rotations j).
Definition set_inputs_hash (x : option B256) (j : Journal) : Journal :=
  mkJournal (version j) (fingerprint j) (cosmos_deployment j) x (evm_confirmations j) (actions j) (evidence j) (confirmations j) (attempts j) (retry_gas_limits j) (protocols j) (protocol_history j) (initial_signers j) (rotations j).
Definition set_evm_confirmations (x : EvmConfirmationPolicy) (j : Journal) : Journal :=
  mkJournal (version j) (fingerprint j) (cosmos_deployment j) (inputs_hash j) x (actions j) (evidence j) (confirmations j) (attempts j) (retry_gas_limits j) (protocols j) (protocol_history j) (initial_signers j) (rotations j).
Definition set_actions (x : gmap string Transaction) (j : Journal) : Journal :=
  mkJournal (version j) (fingerprint j) (cosmos_deployment j) (inputs_hash j) (evm_confirmations j) x (evidence j) (confirmations j) (attempts j) (retry_gas_limits j) (protocols j) (protocol_history j) (initial_signers j) (rotations j).
Definition set_evidence (x : gmap string ContractEvidence) (j : Journal) : Journal :=
  mkJournal (version j) (fingerprint j) (cosmos_deployment j) (inputs_hash j) (evm_confirmations j) (actions j) x (confirmations j) (attempts j) (retry_gas_limits j) (protocols j) (protocol_history j) (initial_signers j) (rotations j).
Definition set_confirmations (x : gmap string Confirmation) (j : Journal) : Journal :=
  mkJournal (version j) (fingerprint j) (cosmos_deployment j) (inputs_hash j) (evm_confirmations j) (actions j) (evidence j) x (attempts j) (retry_gas_limits j) (protocols j) (protocol_history j) (initial_signers j) (rotations j).
Definition set_attempts (x : gmap string (list Transaction)) (j : Journal) : Journal :=
  mkJournal (version j) (fingerprint j) (cosmos_deployment j) (inputs_hash j) (evm_confirmations j) (actions j) (evidence j) (confirmations j) x (retry_gas_limits j) (protocols j) (protocol_history j) (initial_signers j) (rotations j).
Definition set_retry_gas_limits (x : gmap string Z) (j : Journal) : Journal :=
  mkJournal (version j) (fingerprint j) (cosmos_deployment j) (inputs_hash j) (evm_confirmations j) (actions j) (evidence j) (confirmations j) (attempts j) x (protocols j) (protocol_history j) (initial_signers j) (rotations j).
Definition set_protocols (x : gmap string ProtocolIdentity) (j : Journal) : Journal :=
  mkJournal (version j) (fingerprint j) (cosmos_deployment j) (inputs_hash j) (evm_confirmations j) (actions j) (evidence j) (confirmations j) (attempts j) (retry_gas_limits j) x (protocol_history j) (initial_signers j) (rotations j).
Definition set_protocol_history (x : list (gmap string ProtocolIdentity)) (j : Journal) : Journal :=
  mkJournal (version j) (fingerprint j) (cosmos_deployment j) (inputs_hash j) (evm_confirmations j) (actions j) (evidence j) (confirmations j) (attempts j) (retry_gas_limits j) (protocols j) x (initial_signers j) (rotations j).
Definition set_initial_signers (x : option InitialSigners) (j : Journal) : Journal :=
  mkJournal (version j) (fingerprint j) (cosmos_deployment j) (inputs_hash j) (evm_confirmations j) (actions j) (evidence j) (confirmations j) (attempts j) (retry_gas_limits j) (protocols j) (protocol_history j) x (rotations j).
Definition set_rotations (x : gmap Z B256) (j : Journal) : Journal :=
  mkJournal (version j) (fingerprint j) (cosmos_deployment j) (inputs_hash j) (evm_confirmations j) (actions j) (evidence j) (confirmations j) (attempts j) (retry_gas_limits j) (protocols j) (protocol_history j) (initial_signers j) x.

(** The journal a first run starts from ([Session::load] with no file). *)
Definition fresh_journal (fp : B256) : Journal :=
  mkJournal 2 fp None None Policy.default ∅ ∅ ∅ ∅ ∅ ∅ [] None ∅.

(** [entry(key).or_default()] on the attempts. *)
Definition attempts_of (j : Journal) (key : string) : list Transaction :=
  default [] (attempts j !! key).

Definition push_attempt (key : string) (tx : Transaction) (j : Journal) : Journal :=
  set_attempts (<[key := attempts_of j key ++ [tx]]> (attempts j)) j.

(** Every transaction signed for an action: retired and replaced attempts
    first, then the current one. *)
Definition recorded (j : Journal) (key : string) : list Transaction :=
  attempts_of j key ++ option_list (actions j !! key).

(** All the journal's transactions, as
    [actions.values().chain(attempts.values().flatten())] lists them. *)
Definition all_transactions (j : Journal) : list Transaction :=
  (btree_list (actions j)).*2 ++ concat (btree_list (attempts j)).*2.

(** ** Confirmation policy *)

Module PolicyFacts.
Lemma parse_nonzero_to_dec n :
  0 < n < 2 ^ 64 -> Policy.parse_nonzero_u64 (to_dec n) = Some n.
Proof.
  intros Hn. unfold Policy.parse_nonzero_u64. rewrite parse_to_dec by lia. simpl.
  destruct (Z.eqb_spec n 0); [lia|done].
Qed.

Lemma to_dec_not_finalized n : 0 < n < 2 ^ 64 -> to_dec n <> "finalized".
Proof.
  intros Hn Heq. pose proof (parse_nonzero_to_dec n Hn) as Hp. rewrite Heq in Hp. done.
Qed.

Lemma from_str_valid s p : Policy.from_str s = Ok p -> Policy.valid p.
Proof.
  unfold Policy.from_str, Policy.parse_nonzero_u64. case_decide; [by intros [= <-]|].
  destruct (parse_uint 64 s) as [n|] eqn:Hn; [|done]. simpl.
  destruct (Z.eqb_spec n 0); [done|]. intros [= <-]. apply parse_uint_range in Hn.
  simpl. lia.
Qed.

(** The text of a confirmation policy reads back as that policy, so a
    resumed deployment inherits exactly the policy the journal saved; and
    whatever text is accepted denotes a policy the type can hold. *)
Theorem policy_roundtrip p :
  (Policy.valid p -> Policy.from_str (Policy.fmt p) = Ok p) /\
  (forall s, Policy.from_str s = Ok p -> Policy.valid p).
Proof.
  split; [|intros s; apply from_str_valid]. intros Hp.
  unfold Policy.from_str. destruct p as [n|]; simpl in *; [|done].
  rewrite decide_False by (by apply to_dec_not_finalized).
  by rewrite parse_nonzero_to_dec.
Qed.
End PolicyFacts.
