(* ===== verification/Chain.v ===== *)
(** * Interfaces to the outside of the deployment code

    Cryptography and codecs (alloy, prost, sha2), the EVM node behind a
    [Provider], the Cosmos LCD, and the machine axe runs on (clock, terminal,
    disk).  None of these is code of the repository's own logic: each is a
    class, so that every theorem holds for every behaviour of the other side.
    A node operation takes the environment and returns its answer together
    with the environment it leaves, hence two calls may answer differently. *)

From S2P Require Import Prelude Types Journal.

(** ** EVM transactions as alloy presents them *)

Record TxEnvelope : Type := mkEnvelope {
  tx_hash : B256;
  tx_nonce : Z;
  tx_chain_id : option Z;
  tx_to : option Address;                 (* [None] is a CREATE *)
  tx_value : Z;
  tx_input : bytes;
  tx_gas_limit : Z;
  tx_max_fee_per_gas : Z;
  tx_gas_price : option Z;
  tx_max_priority_fee_per_gas : option Z;
  tx_ty : Z;
  tx_access_list : option (list (Address * list B256));
  tx_authorization_list : option (list bytes);
  tx_blob_versioned_hashes : option (list B256)
}.

Inductive TxKind : Type := Create | CallTo (a : Address).

Record TransactionRequest : Type := mkRequest {
  rq_from : option Address;
  rq_to : option TxKind;
  rq_gas_price : option Z;
  rq_max_fee_per_gas : option Z;
  rq_max_priority_fee_per_gas : option Z;
  rq_gas : option Z;
  rq_value : option Z;
  rq_input : option bytes;
  rq_nonce : option Z;
  rq_chain_id : option Z;
  rq_access_list : option (list (Address * list B256));
  rq_authorization_list : option (list bytes);
  rq_blob_versioned_hashes : option (list B256)
}.

Record Block : Type := mkBlock {
  bk_number : Z;
  bk_hash : B256
}.

(** Cryptography, encodings and number text of third-party crates. *)
Class EvmLib : Type := {
  keccak256 : bytes -> B256;
  b256_to_string : B256 -> string;
  parse_u256 : string -> option Z;
  u256_to_string : Z -> string;
  (** [PrivateKeySigner] of a key string, by its address. *)
  signer_address : string -> option Address;
  decode_2718 : bytes -> option TxEnvelope;
  encoded_2718 : TxEnvelope -> bytes;
  (** [signature().recover_address_from_prehash(&signature_hash())]. *)
  recover_address : TxEnvelope -> option Address;
  (** [TransactionRequest::from_transaction_with_sender]. *)
  from_transaction_with_sender : TxEnvelope -> Address -> TransactionRequest
}.

(** ** Cosmos transactions as cosmos_sdk_proto presents them *)

Record Any : Type := mkAny {
  type_url : string;
  any_value : bytes
}.

#[export] Instance Any_eq_dec : EqDecision Any.
Proof. solve_decision. Defined.

Record Coin : Type := mkCoin {
  coin_denom : string;
  coin_amount : string
}.

Record Fee : Type := mkFee {
  fee_amount : list Coin;
  fee_gas_limit : Z;
  fee_payer : string;
  fee_granter : string
}.

Record SignerInfo : Type := mkSignerInfo {
  si_public_key : option Any;
  si_mode_info : bytes;
  si_sequence : Z
}.

Record AuthInfo : Type := mkAuthInfo {
  signer_infos : list SignerInfo;
  auth_fee : option Fee;
  auth_tip : option bytes
}.

Record TxRaw : Type := mkTxRaw {
  body_bytes : bytes;
  auth_info_bytes : bytes;
  signatures : list bytes
}.

Record SignDoc : Type := mkSignDoc {
  sd_body_bytes : bytes;
  sd_auth_info_bytes : bytes;
  sd_chain_id : string;
  sd_account_number : Z
}.

(** A [SigningKey], by the mnemonic it is derived from. *)
Abbreviation SigningKey := string.

(** Protobuf codecs (prost), hashes and signatures (sha2, cosmrs, k256), and
    JSON text (serde_json). *)
Class CosmosLib : Type := {
  (** [hex::encode_upper(Sha256::digest(raw))]. *)
  cosmos_tx_hash : bytes -> string;
  decode_tx_raw : bytes -> option TxRaw;
  encode_tx_raw : TxRaw -> bytes;
  decode_auth_info : bytes -> option AuthInfo;
  encode_auth_info : AuthInfo -> bytes;
  (** [TxBody] with an empty memo and no timeout, by its messages. *)
  encode_body : list Any -> bytes;
  decode_body : bytes -> option (list Any);
  encode_sign_doc : SignDoc -> bytes;
  (** The coins of a [MsgSubmitProposal]'s deposit and of a
      [MsgExecuteContract]'s funds. *)
  decode_proposal_deposit : bytes -> option (list Coin);
  decode_execute_funds : bytes -> option (list Coin);
  (** The message decodes with the JSON payload its preview shows. *)
  previewable : Any -> bool;
  (** [signer.public_key().account_id("axelar")] and [.to_any()]. *)
  key_account : SigningKey -> option string;
  key_any : SigningKey -> option Any;
  (** The single direct signing mode. *)
  mode_direct : bytes;
  sign_bytes : SigningKey -> bytes -> option bytes;
  verify_bytes : SigningKey -> bytes -> bytes -> bool;
  valid_denom : string -> bool;
  valid_chain_id : string -> bool;
  (** [serde_json::to_vec] of the tuple that [cosmos::send] hashes. *)
  intent_json : string -> string -> string -> list (string * string) -> bytes
}.

(** The operating system side: the monotonic clock in seconds, the operator's
    answer to a yes/no question, and what becomes of a journal write. *)
Inductive write_outcome : Type :=
  | Committed        (* the rename happened and everything was synced *)
  | FailedBefore     (* an error before the rename: the old file remains *)
  | FailedAfter.     (* an error after the rename: the new file is in place *)

Class Host (E : Type) : Type := {
  clock : E -> Z;
  sleep : Z -> E -> E;
  ui_confirm : string -> E -> bool * E;
  disk_write : E -> write_outcome * E
}.

Class EvmNode (E : Type) : Type := {
  eth_chain_id : E -> result Z * E;
  eth_get_transaction_count : Address -> E -> result Z * E;
  eth_get_transaction_receipt : B256 -> E -> result (option Receipt) * E;
  eth_knows_transaction : B256 -> E -> result bool * E;
  eth_send_raw_transaction : bytes -> E -> result B256 * E;
  eth_get_block : BlockTag -> E -> result (option Block) * E;
  eth_gas_price : E -> result Z * E;
  eth_get_balance : Address -> E -> result Z * E;
  eth_call : TransactionRequest -> E -> result () * E;
  (** [EvmEndpoints::fill_and_sign] (src/evm.rs): fill nonce, gas and fees from
      the node and sign with the key. *)
  fill_and_sign : string -> TransactionRequest -> E -> result TxEnvelope * E
}.

(** The LCD, by what the code reads of each answer. *)
Class LcdNode (E : Type) : Type := {
  (** [accounts/{address}]: [None] when the answer has no account, else its
      number and sequence. *)
  lcd_get_account : string -> string -> E -> result (option (Z * Z)) * E;
  lcd_get_balance : string -> string -> string -> E -> result Z * E;
  (** [txs] in sync mode: the [code] of the response, if it has one. *)
  lcd_post_tx : string -> bytes -> E -> result (option Z) * E;
  (** [simulate]: the error message and the gas used, where present. *)
  lcd_post_simulate : string -> bytes -> E -> result (option string * option string) * E;
  (** [txs/{hash}]: an HTTP status and, when the body parses, the response. *)
  lcd_get_tx : string -> string -> E -> result (Z * option TxResponse) * E;
  (** The [network] of [node_info], if the LCD answers. *)
  lcd_node_network : string -> E -> result (option string) * E;
  (** The expedited voting period of the governance parameters. *)
  lcd_voting_period : string -> E -> result string * E
}.

(** A clock that does not run backwards, and a [sleep] that really sleeps: the
    documented behaviour of [Instant] and [tokio::time::sleep].  Node calls
    and questions may take any time, but not negative time. *)
Class ClockLaws (E : Type) `{Host E, EvmNode E} : Prop := {
  sleep_advances d e : clock e + d <= clock (sleep d e);
  ask_advances p e : clock e <= clock (ui_confirm p e).2;
  write_advances e : clock e <= clock (disk_write e).2;
  chain_advances e : clock e <= clock (eth_chain_id e).2;
  count_advances a e : clock e <= clock (eth_get_transaction_count a e).2;
  receipt_advances h e : clock e <= clock (eth_get_transaction_receipt h e).2;
  known_advances h e : clock e <= clock (eth_knows_transaction h e).2;
  send_advances raw e : clock e <= clock (eth_send_raw_transaction raw e).2;
  block_advances t e : clock e <= clock (eth_get_block t e).2;
  price_advances e : clock e <= clock (eth_gas_price e).2;
  balance_advances a e : clock e <= clock (eth_get_balance a e).2;
  call_advances r e : clock e <= clock (eth_call r e).2;
  sign_advances k r e : clock e <= clock (fill_and_sign k r e).2
}.
