(* ===== verification/Machine.v ===== *)
(** * The journal as an abstract machine

    The contract of the deployment journal: which transitions a journal may
    make, given what the nodes have answered, and what every history made of
    them guarantees.  The programs of the other files are proved to make only
    these transitions. *)

From S2P Require Import Prelude Types Journal Chain.

(** Transactions of one group compete for one account nonce (EVM) or sequence
    (Cosmos): the chain includes at most one of them. *)
Inductive group : Type :=
  | EvmSlot (sender : Address) (nonce : Z)
  | CosmosSlot (sender : string) (sequence : Z).

#[export] Instance group_eq_dec : EqDecision group.
Proof. solve_decision. Defined.

Definition group_of (tx : Transaction) : group :=
  match tx with
  | EvmTx _ _ _ sender nonce _ => EvmSlot sender nonce
  | CosmosTx _ _ _ sender _ sequence => CosmosSlot sender sequence
  end.

Definition intent_of (tx : Transaction) : B256 :=
  match tx with
  | EvmTx intent _ _ _ _ _ | CosmosTx intent _ _ _ _ _ => intent
  end.

Definition raw_of (tx : Transaction) : bytes :=
  match tx with
  | EvmTx _ raw _ _ _ _ | CosmosTx _ raw _ _ _ _ => raw
  end.

(** The key under which a transaction's confirmation is saved. *)
Definition hash_key `{EvmLib} (tx : Transaction) : string :=
  match tx with
  | EvmTx _ _ hash _ _ _ => b256_to_string hash
  | CosmosTx _ _ hash _ _ _ => hash
  end.

(** A confirmation that proves the transaction was included and failed. *)
Definition proves_failure (c : Confirmation) : bool :=
  match c with
  | EvmConfirmed r => negb (status r)
  | CosmosConfirmed height code _ => (0 <? height) && negb (code =? 0)
  end.

(** The fields that transactions live in. *)
Definition same_transactions (j j' : Journal) : Prop :=
  actions j' = actions j /\ attempts j' = attempts j /\ confirmations j' = confirmations j.

(** What may be known of the chains: the confirmations that hold for a hash. *)
Abbreviation knowledge := (string -> Confirmation -> Prop).

(** Only the saved confirmations changed, and each new one is known. *)
Definition absorbs (V : knowledge) (j j' : Journal) : Prop :=
  j' = set_confirmations (confirmations j') j /\
  forall h c, confirmations j' !! h = Some c -> V h c \/ confirmations j !! h = Some c.

Section Machine.
Context `{EvmLib}.

(** The transitions of a journal, given what is known of the chains: record a
    new action, replace a transaction at its own nonce with the same intent,
    retire one with the saved failure of a competitor, save confirmations that
    are known, or change no transaction. *)
Inductive jstep (V : knowledge) (j : Journal) : Journal -> Prop :=
  | js_record key tx :
      actions j !! key = None ->
      jstep V j (set_actions (<[key := tx]> (actions j)) j)
  | js_replace key old new :
      actions j !! key = Some old ->
      group_of new = group_of old -> intent_of new = intent_of old ->
      jstep V j (push_attempt key old (set_actions (<[key := new]> (actions j)) j))
  | js_retire key tx failed c limits :
      actions j !! key = Some tx ->
      failed ∈ recorded j key -> group_of failed = group_of tx ->
      confirmations j !! hash_key failed = Some c -> proves_failure c = true ->
      jstep V j
        (set_retry_gas_limits limits
           (push_attempt key tx (set_actions (delete key (actions j)) j)))
  | js_confirm j' : absorbs V j j' -> jstep V j j'
  | js_meta j' : same_transactions j j' -> jstep V j j'.

Lemma absorbs_refl V j : absorbs V j j.
Proof. split; [by destruct j|by right]. Qed.

Lemma absorbs_mono (V V' : knowledge) j j' :
  (forall h c, V h c -> V' h c) -> absorbs V j j' -> absorbs V' j j'.
Proof. intros HV [Hj Hc]. split; [done|]. intros h c Hh. destruct (Hc h c Hh); eauto. Qed.

Lemma absorbs_trans V j1 j2 j3 : absorbs V j1 j2 -> absorbs V j2 j3 -> absorbs V j1 j3.
Proof.
  intros [H1 Hc1] [H2 Hc2]. split; [rewrite H2, H1; by destruct j1|].
  intros h c Hh. destruct (Hc2 h c Hh) as [?|Hh2]; [by left|]. by apply Hc1.
Qed.

Lemma absorbs_insert (V : knowledge) j j' h c :
  V h c -> absorbs V j j' -> absorbs V j (set_confirmations (<[h := c]> (confirmations j')) j').
Proof.
  intros Hv [Hj Hc]. split; [by rewrite Hj|]. simpl. intros h' c' Hh.
  destruct (decide (h = h')) as [<-|Hne].
  - rewrite lookup_insert_eq in Hh. left. congruence.
  - rewrite lookup_insert_ne in Hh by done. by apply Hc.
Qed.

Lemma absorbs_same V j j' :
  absorbs V j j' -> actions j' = actions j /\ attempts j' = attempts j.
Proof. intros [-> _]. done. Qed.

Lemma absorbs_recorded V j j' key : absorbs V j j' -> recorded j' key = recorded j key.
Proof. intros [Ha Hb]%absorbs_same. unfold recorded, attempts_of. by rewrite Ha, Hb. Qed.

Lemma jstep_mono (V V' : knowledge) j j' :
  (forall h c, V h c -> V' h c) -> jstep V j j' -> jstep V' j j'.
Proof.
  intros HV Hs. destruct Hs; [by apply js_record|by apply js_replace|by eapply js_retire| |by apply js_meta].
  apply js_confirm. by eapply absorbs_mono.
Qed.

Lemma jpath_mono (V V' : knowledge) j j' :
  (forall h c, V h c -> V' h c) -> rtc (jstep V) j j' -> rtc (jstep V') j j'.
Proof. intros HV. apply rtc_subrel. intros x y. by apply jstep_mono. Qed.

(** ** Lookups after an update *)

Lemma attempts_of_push j key tx key' :
  attempts_of (push_attempt key tx j) key' =
    if decide (key = key') then attempts_of j key ++ [tx] else attempts_of j key'.
Proof.
  unfold attempts_of, push_attempt. simpl. rewrite lookup_insert.
  by destruct (decide (key = key')).
Qed.

Lemma recorded_retire limits j key tx key' :
  actions j !! key = Some tx ->
  recorded (set_retry_gas_limits limits
    (push_attempt key tx (set_actions (delete key (actions j)) j))) key' = recorded j key'.
Proof.
  intros Htx. unfold recorded.
  change (attempts_of (set_retry_gas_limits limits
    (push_attempt key tx (set_actions (delete key (actions j)) j))) key')
    with (attempts_of (push_attempt key tx (set_actions (delete key (actions j)) j)) key').
  rewrite attempts_of_push. simpl. destruct (decide (key = key')) as [<-|].
  - rewrite Htx, lookup_delete_eq. simpl. by rewrite app_nil_r.
  - by rewrite lookup_delete_ne.
Qed.

Lemma recorded_replace j key old new key' :
  actions j !! key = Some old ->
  recorded (push_attempt key old (set_actions (<[key := new]> (actions j)) j)) key' =
    recorded j key' ++ (if decide (key = key') then [new] else []).
Proof.
  intros Ho. unfold recorded. rewrite attempts_of_push. simpl. destruct (decide (key = key')) as [<-|].
  - by rewrite Ho, lookup_insert_eq.
  - rewrite lookup_insert_ne by done. by rewrite app_nil_r.
Qed.

Lemma recorded_record j key tx key' :
  actions j !! key = None ->
  recorded (set_actions (<[key := tx]> (actions j)) j) key' =
    recorded j key' ++ (if decide (key = key') then [tx] else []).
Proof.
  intros Hn. unfold recorded.
  change (attempts_of (set_actions (<[key:=tx]> (actions j)) j) key') with (attempts_of j key').
  simpl. destruct (decide (key = key')) as [<-|].
  - rewrite Hn, lookup_insert_eq. simpl. by rewrite app_nil_r.
  - rewrite lookup_insert_ne by done. by rewrite app_nil_r.
Qed.

(** What a step adds to an action's record is its current transaction. *)
Lemma jstep_recorded_inv V j j' key :
  jstep V j j' ->
  exists new, recorded j' key = recorded j key ++ new /\
    forall a, a ∈ new -> actions j' !! key = Some a.
Proof.
  intros [k tx Hn|k old new Ho _ _|k tx failed c limits Ht _ _ _ _|j1 Ha|j1 (Ha & Hb & _)].
  - eexists. split; [by apply recorded_record|]. intros a Ha. case_decide; [|set_solver]. subst.
    apply list_elem_of_singleton in Ha as ->. apply lookup_insert_eq.
  - eexists. split; [by apply recorded_replace|]. intros a Ha. case_decide; [|set_solver]. subst.
    apply list_elem_of_singleton in Ha as ->. apply lookup_insert_eq.
  - exists []. rewrite recorded_retire by done. rewrite app_nil_r. split; [done|set_solver].
  - exists []. rewrite (absorbs_recorded _ _ _ _ Ha), app_nil_r. split; [done|set_solver].
  - exists []. unfold recorded, attempts_of. rewrite Ha, Hb, app_nil_r. split; [done|set_solver].
Qed.

(** Nothing the journal has recorded for an action is ever dropped. *)
Lemma jstep_recorded V j j' key : jstep V j j' -> recorded j key ⊆ recorded j' key.
Proof. intros (new & -> & _)%(jstep_recorded_inv _ _ _ key). set_solver. Qed.

Lemma jpath_recorded V j j' key : rtc (jstep V) j j' -> recorded j key ⊆ recorded j' key.
Proof.
  induction 1 as [|j1 j2 j3 Hs _ IH]; [done|].
  pose proof (jstep_recorded _ _ _ key Hs). set_solver.
Qed.

(** ** Settled attempts *)

(** Every saved confirmation is known. *)
Definition sourced (V : knowledge) (j : Journal) : Prop :=
  forall h c, confirmations j !! h = Some c -> V h c.

(** Some transaction recorded for [key] in the group is known to have been
    included and failed. *)
Definition disproved (V : knowledge) (j : Journal) (key : string) (g : group) : Prop :=
  exists failed c, failed ∈ recorded j key /\ group_of failed = g /\
    V (hash_key failed) c /\ proves_failure c = true.

(** A transaction competes with the current one of its action, or its group
    is known to have failed. *)
Definition settled (V : knowledge) (j : Journal) (key : string) (a : Transaction) : Prop :=
  disproved V j key (group_of a) \/
  exists cur, actions j !! key = Some cur /\ group_of cur = group_of a.

Lemma disproved_step V j j' key g : jstep V j j' -> disproved V j key g -> disproved V j' key g.
Proof.
  intros Hs (failed & c & Hin & Hrest). exists failed, c. split; [|done].
  by apply (jstep_recorded _ _ _ key Hs).
Qed.

Lemma sourced_step V j j' : jstep V j j' -> sourced V j -> sourced V j'.
Proof.
  intros [k tx Hn|k old new Ho _ _|k tx failed c limits Ht _ _ _ _|j1 [_ Ha]|j1 (_ & _ & Hc)] Hj h c' Hh;
    try by apply Hj.
  - destruct (Ha h c' Hh); [done|by apply Hj].
  - apply Hj. by rewrite <- Hc.
Qed.

Lemma path_sourced V j j' : rtc (jstep V) j j' -> sourced V j -> sourced V j'.
Proof. induction 1 as [|j1 j2 j3 Hs _ IH]; [done|]. intros Hj. apply IH. by eapply sourced_step. Qed.

Lemma settled_step V j j' key a :
  jstep V j j' -> sourced V j -> settled V j key a -> settled V j' key a.
Proof.
  intros Hs Hj [Hd|(cur & Hcur & Hg)]; [left; by eapply disproved_step|].
  pose proof (jstep_recorded _ _ _ key Hs) as Hrec.
  destruct Hs as [k tx Hn|k old new Ho Hgn _|k tx failed c limits Ht Hf Hgf Hc Hp|j1 Ha|j1 (Ha & _ & _)].
  - right. exists cur. split; [|done]. simpl. by rewrite lookup_insert_ne by congruence.
  - right. simpl. destruct (decide (k = key)) as [->|].
    + exists new. rewrite lookup_insert_eq. split; [done|]. congruence.
    + exists cur. by rewrite lookup_insert_ne by done.
  - destruct (decide (k = key)) as [->|Hne].
    + left. exists failed, c. split; [by apply Hrec|]. split; [congruence|]. split; [by apply Hj|done].
    + right. exists cur. simpl. by rewrite lookup_delete_ne by done.
  - right. exists cur. destruct (absorbs_same _ _ _ Ha) as [-> _]. done.
  - right. exists cur. by rewrite Ha.
Qed.

(** Over a path: a settled transaction stays settled, and whatever is recorded
    later was current at some point, so it is settled too. *)
Lemma path_settled V j j' key a :
  rtc (jstep V) j j' -> sourced V j -> settled V j key a -> settled V j' key a.
Proof.
  induction 1 as [|j1 j2 j3 Hs _ IH]; intros Hj Ha; [done|].
  apply IH; [by eapply sourced_step|by eapply settled_step].
Qed.

Lemma path_all_settled V j j' key :
  rtc (jstep V) j j' -> sourced V j -> (forall a, a ∈ recorded j key -> settled V j key a) ->
  forall a, a ∈ recorded j' key -> settled V j' key a.
Proof.
  induction 1 as [|j1 j2 j3 Hs _ IH]; intros Hj Ha; [done|].
  apply IH; [by eapply sourced_step|]. intros a Hin.
  destruct (jstep_recorded_inv _ _ _ key Hs) as (new & Hnew & Hcur).
  rewrite Hnew in Hin. apply elem_of_app in Hin as [Hin|Hin].
  - eapply settled_step; eauto.
  - right. exists a. auto.
Qed.
End Machine.

#[export] Hint Resolve absorbs_refl : hoare.
