(* ===== verification/Session.v ===== *)
(** * The deployment session (hardened/session.rs, journal.rs, storage.rs)

    The journal in memory and on disk, the operations that change it, and the
    trace of what passed between the process and the outside: journal writes,
    broadcasts, questions to the operator, and the answers of the nodes that
    confirmations rest on.  [Inv] ties the three together; it is the
    invariant every deployment program is proved to keep. *)

From S2P Require Import Prelude Types Journal Chain Machine.

(** What left the process, and the answers of the nodes on transactions and
    blocks; newest first in a trace. *)
Inductive event : Type :=
  | Wrote (j : Journal)
  | SentEvm (raw : bytes)
  | SentCosmos (raw : bytes)
  | Simulated (raw : bytes)
  | Asked (prompt : string) (answer : bool)
  | GotReceipt (hash : B256) (receipt : Receipt)
  | GotBlock (tag : BlockTag) (block : Block)
  | GotTx (lcd hash : string) (http : Z) (response : TxResponse).

Record World (E : Type) : Type := mkWorld {
  env : E;
  journal : Journal;         (* the session's [Mutex<Journal>] *)
  disk : Journal;            (* what journal.json holds *)
  trace : list event
}.
Arguments mkWorld {E}.
Arguments env {E}.
Arguments journal {E}.
Arguments disk {E}.
Arguments trace {E}.

(** The read-only part of a [Session] and the task-local scope of an action:
    [SESSION] may be absent, [ACTION_SCOPE] holds the step name and the
    signing key. *)
Record Session : Type := mkSession {
  plan : Plan;
  options : Options
}.

Record Scope : Type := mkScope {
  session : option Session;
  scope_step : string;
  scope_key : string
}.

Definition active (sc : Scope) : bool := bool_decide (is_Some (session sc)).

Section Session.
Context {E : Type} `{Host E}.
Abbreviation W := (World E).

(** A call to the outside.  Whatever goes wrong there is an ordinary error. *)
Definition call {A} (f : E -> result A * E) : M W A := fun w =>
  let '(r, e) := f (env w) in
  (match r with Ok a => Ok a | Err _ => Err (Failed "call failed") end,
   mkWorld e (journal w) (disk w) (trace w)).

Definition emit (ev : event) : M W () := fun w =>
  (Ok (), mkWorld (env w) (journal w) (disk w) (ev :: trace w)).

(** A call whose answer is kept in the trace. *)
Definition call_noting {A} (note : A -> option event) (f : E -> result A * E) : M W A :=
  a ← call f;
  match note a with
  | Some ev => emit ev;; mret a
  | None => mret a
  end.

Definition now : M W Z := fun w => (Ok (clock (env w)), w).

Definition sleep_for (d : Z) : M W () := fun w =>
  (Ok (), mkWorld (sleep d (env w)) (journal w) (disk w) (trace w)).

(** [ui::confirm]. *)
Definition confirm_prompt (prompt : string) : M W bool := fun w =>
  let '(b, e) := ui_confirm prompt (env w) in
  (Ok b, mkWorld e (journal w) (disk w) (Asked prompt b :: trace w)).

(** [session::current]. *)
Definition current (sc : Scope) : M W Session :=
  lift (ok_or (session sc) "missing hardened deployment session").

(** [session::validate_context] and [guard_send]. *)
Definition validate_context (required present : bool) : result () :=
  ensure_ok (negb required || present)
    "hardened session missing; refusing an unjournaled transaction".

(** [session::action_key]. *)
Definition action_key (sc : Scope) (label : string) : string :=
  (scope_step sc +:+ "/" +:+ label)%string.

(** [storage::atomic_write] of the serialized journal. *)
Definition atomic_write (j : Journal) : M W () := fun w =>
  let '(o, e) := disk_write (env w) in
  match o with
  | Committed => (Ok (), mkWorld e (journal w) j (Wrote j :: trace w))
  | FailedBefore =>
      (Err (Failed "journal write failed"), mkWorld e (journal w) (disk w) (trace w))
  | FailedAfter =>
      (Err (Failed "journal write failed"), mkWorld e (journal w) j (Wrote j :: trace w))
  end.

Definition read_journal : M W Journal := fun w => (Ok (journal w), w).
Definition set_journal (j : Journal) : M W () := fun w =>
  (Ok (), mkWorld (env w) j (disk w) (trace w)).

(** Change the journal behind its lock, then write it. *)
Definition commit (f : Journal -> Journal) : M W () :=
  j ← read_journal; set_journal (f j);; atomic_write (f j).

(** [Session::get]. *)
Definition get_action (key : string) : M W (option Transaction) :=
  j ← read_journal; mret (actions j !! key).

(** [Session::record]. *)
Definition record (key : string) (tx : Transaction) : M W () :=
  j ← read_journal;
  ensure (bool_decide (actions j !! key = None)) "transaction already recorded";;
  commit (fun j => set_actions (<[key := tx]> (actions j)) j).

(** [journal::confirmation]. *)
Definition confirmation (sc : Scope) (hash : string) : M W (option Confirmation) :=
  if active sc then j ← read_journal; mret (confirmations j !! hash)
  else mret None.

(** [journal::confirm]. *)
Definition confirm (sc : Scope) (hash : string) (c : Confirmation) : M W () :=
  if active sc then
    commit (fun j => set_confirmations (<[hash := c]> (confirmations j)) j)
  else mret ().

(** [journal::replace]: the insertion happens before the previous value is
    known to exist, so a missing action is left inserted in memory. *)
Definition replace (sc : Scope) (key : string) (replacement : Transaction) : M W () :=
  current sc;;
  j ← read_journal;
  set_journal (set_actions (<[key := replacement]> (actions j)) j);;
  match actions j !! key with
  | None => throw (Failed "missing action")
  | Some previous => commit (push_attempt key previous)
  end.

(** [journal::attempts]. *)
Definition journal_attempts (sc : Scope) (key : string) (latest : Transaction)
    : M W (list Transaction) :=
  if active sc then j ← read_journal; mret (attempts_of j key ++ [latest])
  else mret [latest].

(** [recovery::retire]. *)
Definition retire (sc : Scope) (key : string) (gas_limit : option Z) : M W () :=
  current sc;;
  j ← read_journal;
  set_journal (set_actions (delete key (actions j)) j);;
  match actions j !! key with
  | None => throw (Failed "missing failed action")
  | Some previous =>
      commit (fun j =>
        let j := push_attempt key previous j in
        match gas_limit with
        | Some limit => set_retry_gas_limits (<[key := limit]> (retry_gas_limits j)) j
        | None => j
        end)
  end.

(** ** Histories of the outside *)

(** The journal on disk after a trace that started from [init]. *)
Fixpoint disk_of (init : Journal) (t : list event) : Journal :=
  match t with
  | [] => init
  | Wrote j :: _ => j
  | _ :: t => disk_of init t
  end.

(** The bytes are those of a transaction the journal holds. *)
Definition on_record (raw : bytes) (j : Journal) : Prop :=
  exists key tx, tx ∈ recorded j key /\ raw_of tx = raw.

Context `{EvmLib, CosmosLib}.

(** The nodes' answers in a trace establish a confirmation of a hash.  EVM:
    the node answered this receipt for the hash, it names that hash, and the
    node answered the receipt's block hash for its block number.  Cosmos: an
    LCD answered this response for the hash, successfully, with the hash, a
    positive height and the result code. *)
Definition observed (t : list event) (h : string) (c : Confirmation) : Prop :=
  match c with
  | EvmConfirmed r =>
      b256_to_string (transaction_hash r) = h /\
      GotReceipt (transaction_hash r) r ∈ t /\
      exists number block, block_number r = Some number /\
        GotBlock (TagNumber number) block ∈ t /\ block_hash r = Some (bk_hash block)
  | CosmosConfirmed n k response =>
      exists lcd http actual text,
        GotTx lcd h http response ∈ t /\ 200 <= http < 300 /\
        txhash response = Some actual /\ eq_ignore_ascii_case actual h = true /\
        height response = Some text /\ parse_uint 64 text = Some n /\ 0 < n /\
        code response = Some k
  end.

Lemma observed_mono t t' h c : t ⊆ t' -> observed t h c -> observed t' h c.
Proof.
  intros Ht. destruct c as [r|n k response]; simpl.
  - intros (? & ? & number & block & ? & ? & ?). split; [done|]. split; [by apply Ht|].
    exists number, block. auto.
  - intros (lcd & http & actual & text & ? & Hrest). exists lcd, http, actual, text. auto.
Qed.

(** The bytes carry no signature: every signature was filled with zeros. *)
Definition unsigned (raw : bytes) : Prop :=
  exists tx, raw = encode_tx_raw tx /\ Forall (Forall (fun b => b = 0)) (signatures tx).

(** Every journal written is the previous one with confirmations that the
    nodes answered by then, changed by one transition of the abstract machine;
    every broadcast transaction was on disk when it was sent, and what was
    only simulated carried no signature.  The definition looks at every suffix
    of the trace, that is at every moment a crash could have cut it. *)
Fixpoint good (init : Journal) (t : list event) : Prop :=
  match t with
  | [] => True
  | Wrote j :: t =>
      good init t /\
      exists j1, absorbs (observed t) (disk_of init t) j1 /\ jstep (observed t) j1 j
  | SentEvm raw :: t | SentCosmos raw :: t => good init t /\ on_record raw (disk_of init t)
  | Simulated raw :: t => good init t /\ unsigned raw
  | Asked _ _ :: t | GotReceipt _ _ :: t | GotBlock _ _ :: t | GotTx _ _ _ _ :: t => good init t
  end.

(** What holds whatever happened, also after an error. *)
Definition Safe (init : Journal) (w : W) : Prop :=
  good init (trace w) /\ disk w = disk_of init (trace w).

(** What holds while a program runs: memory is ahead of the disk by observed
    confirmations at most. *)
Definition Inv (init : Journal) (w : W) : Prop :=
  Safe init w /\ absorbs (observed (trace w)) (disk w) (journal w).

(** [Inv] with a fact about the journal in memory. *)
Definition Has (init : Journal) (φ : Journal -> Prop) (w : W) : Prop :=
  Inv init w /\ φ (journal w).

(** An error condition that [Inv] implies: [Safe], or [Inv] itself. *)
Class Tolerates (init : Journal) (F : W -> Prop) : Prop :=
  tolerates w : Inv init w -> F w.

#[global] Instance tolerates_safe init : Tolerates init (Safe init).
Proof. by intros w [? _]. Qed.
#[global] Instance tolerates_inv init : Tolerates init (Inv init).
Proof. by intros w. Qed.

Lemma Inv_fresh init e j :
  Inv init (mkWorld e j j []) <-> j = init.
Proof.
  split; [by intros [[_ ?] _]|]. intros ->. split; [done|]. apply absorbs_refl.
Qed.

Lemma absorbs_grow t ev d j :
  absorbs (observed t) d j -> absorbs (observed (ev :: t)) d j.
Proof. apply absorbs_mono. intros h c. apply observed_mono. set_solver. Qed.

(** ** Triples of the session operations *)

Lemma hoare_call {A} init φ (f : E -> result A * E) F `{!Tolerates init F} :
  hoare (Has init φ) (call f) (fun _ => Has init φ) F.
Proof.
  intros w Hw. unfold call. destruct (f (env w)) as [[a|er] e]; [done|].
  apply tolerates. apply Hw.
Qed.

Lemma hoare_now init φ F : hoare (Has init φ) now (fun _ => Has init φ) F.
Proof. by intros w Hw. Qed.

Lemma hoare_sleep init φ d F : hoare (Has init φ) (sleep_for d) (fun _ => Has init φ) F.
Proof. by intros w Hw. Qed.

Lemma hoare_confirm_prompt init φ p F :
  hoare (Has init φ) (confirm_prompt p) (fun _ => Has init φ) F.
Proof.
  intros w [[Hs Ha] Hφ]. unfold confirm_prompt. destruct (ui_confirm p (env w)).
  split; [|done]. split; [done|]. by apply absorbs_grow.
Qed.

Lemma hoare_current init φ sc F `{!Tolerates init F} :
  hoare (Has init φ) (current sc)
    (fun s w => session sc = Some s /\ Has init φ w) F.
Proof.
  unfold current. eapply hoare_post; [apply hoare_lift|].
  - intros w [? _]. by apply tolerates.
  - intros s w [Hs ?]. by apply ok_or_ok in Hs.
Qed.

Lemma hoare_read init φ F :
  hoare (Has init φ) read_journal (fun j w => φ j /\ Has init (fun j' => φ j' /\ j' = j) w) F.
Proof. intros w [Hw Hφ]. cbn. repeat split; try done; apply Hw. Qed.

Lemma hoare_emit init φ ev F :
  (forall w, Has init φ w ->
     match ev with
     | SentEvm raw | SentCosmos raw => on_record raw (disk w)
     | Wrote _ => False
     | Simulated raw => unsigned raw
     | Asked _ _ | GotReceipt _ _ | GotBlock _ _ | GotTx _ _ _ _ => True
     end) ->
  hoare (Has init φ) (emit ev) (fun _ => Has init φ) F.
Proof.
  intros Hev w Hw. specialize (Hev w Hw). destruct Hw as [[[Hg Hd] Hp] Hφ].
  cbn. split; [|done]. split; [|by apply absorbs_grow].
  split; simpl; destruct ev; simpl; try done; by rewrite <- Hd.
Qed.

(** An answer noted in the trace: the event is one of a node's answers. *)
Definition is_answer (ev : event) : bool :=
  match ev with GotReceipt _ _ | GotBlock _ _ | GotTx _ _ _ _ => true | _ => false end.

Lemma hoare_call_noting {A} init φ (note : A -> option event) (f : E -> result A * E) F
    `{!Tolerates init F} :
  (forall a ev, note a = Some ev -> is_answer ev = true) ->
  hoare (Has init φ) (call_noting note f)
    (fun a w => Has init φ w /\ forall ev, note a = Some ev -> ev ∈ trace w) F.
Proof.
  intros Hn. unfold call_noting. eapply hoare_bind; [by apply hoare_call|]. intros a.
  destruct (note a) as [ev|] eqn:Ha.
  - eapply (hoare_bind _ _ (fun _ w => Has init φ w /\ ev ∈ trace w)).
    + intros w Hw. pose proof (hoare_emit init φ ev F) as He. specialize (Hn _ _ Ha).
      specialize (He ltac:(by destruct ev) w Hw). simpl in *. split; [done|]. set_solver.
    + intros [] w [Hw He]. simpl. split; [done|]. congruence.
  - intros w Hw. simpl. split; [done|]. congruence.
Qed.

(** The journal after a write, successful or not. *)
Lemma commit_spec init f w :
  Inv init w -> jstep (observed (trace w)) (journal w) (f (journal w)) ->
  let w' := (commit f w).2 in
  journal w' = f (journal w) /\ Safe init w' /\
  ((commit f w).1 = Ok () -> disk w' = f (journal w)) /\
  (disk w' = f (journal w) \/ disk w' = disk w) /\ trace w ⊆ trace w'.
Proof.
  intros [[Hg Hd] Ha] Hs.
  unfold commit, mbind, M_bind, read_journal, set_journal, atomic_write. simpl.
  destruct (disk_write (env w)) as [[] e]; simpl;
    (split; [done|split; [|split; [auto|split; [auto|set_solver]]]]); try done.
  all: split; simpl; try done; split; try done; exists (journal w); by rewrite <- Hd.
Qed.

Lemma hoare_commit init φ (ψ : Journal -> Prop) f :
  (forall V j, φ j -> jstep V j (f j) /\ ψ (f j)) ->
  hoare (Has init φ) (commit f) (fun _ => Has init ψ) (Safe init).
Proof.
  intros Hf w [Hw Hφ]. destruct (Hf (observed (trace w)) _ Hφ) as [Hs Hψ].
  pose proof (commit_spec init f w Hw Hs) as (Hj & Hsafe & Hok & _).
  destruct (commit f w) as [[[]|er] w'] eqn:Hr; simpl in *; [|done].
  split; [|by rewrite Hj]. split; [done|]. rewrite Hok, Hj by done. apply absorbs_refl.
Qed.

(** A confirmation that may be saved: the nodes answered it in this run, or
    the journal has it already. *)
Definition backed (h : string) (c : Confirmation) (j : Journal) (t : list event) : Prop :=
  observed t h c \/ confirmations j !! h = Some c.

Lemma hoare_confirm init φ (ψ : Journal -> Prop) sc h c F `{!Tolerates init F} :
  (forall j, φ j -> if active sc
     then ψ (set_confirmations (<[h := c]> (confirmations j)) j) else ψ j) ->
  hoare (fun w => Has init φ w /\ backed h c (journal w) (trace w)) (confirm sc h c)
    (fun _ => Has init ψ) F.
Proof.
  intros Hf w [[Hw Hφ] Hb]. specialize (Hf _ Hφ). unfold confirm.
  destruct (active sc); [|done].
  set (f := fun j => set_confirmations (<[h:=c]> (confirmations j)) j) in *.
  assert (absorbs (observed (trace w)) (journal w) (f (journal w))) as Hstep.
  { destruct Hb as [Hb|Hb]; [apply absorbs_insert; [done|apply absorbs_refl]|].
    unfold f. rewrite insert_id by done. destruct (journal w). apply absorbs_refl. }
  pose proof (commit_spec init f w Hw (js_confirm _ _ _ Hstep))
    as (Hj & Hsafe & Hok & Hdisk & Hgrow).
  assert (Inv init (commit f w).2) as Hinv.
  { destruct Hw as [_ Ha]. split; [done|]. rewrite Hj.
    apply (absorbs_mono (observed (trace w))); [intros h' c'; by apply observed_mono|].
    destruct Hdisk as [->| ->]; [apply absorbs_refl|by eapply absorbs_trans]. }
  destruct (commit f w) as [[[]|er] w'] eqn:Hr; simpl in *; [|by apply tolerates].
  split; [done|]. by rewrite Hj.
Qed.

Lemma hoare_get_action init φ key F :
  hoare (Has init φ) (get_action key)
    (fun r w => Has init (fun j => φ j /\ actions j !! key = r) w) F.
Proof.
  unfold get_action. eapply hoare_bind; [apply hoare_read|]. intros j.
  apply hoare_pure. intros Hφ. eapply hoare_post; [apply hoare_ret|].
  intros r w [-> [Hw [? <-]]]. done.
Qed.

Lemma hoare_record init φ (ψ : Journal -> Prop) key tx :
  (forall j, φ j -> actions j !! key = None ->
     ψ (set_actions (<[key := tx]> (actions j)) j)) ->
  hoare (Has init φ) (record key tx) (fun _ => Has init ψ) (Safe init).
Proof.
  intros Hψ. unfold record. eapply hoare_bind; [apply hoare_read|]. intros j.
  apply hoare_pure. intros Hφ. eapply hoare_bind; [apply hoare_ensure; by intros w [[? _] _]|].
  intros []. apply hoare_pure. intros Hnone%bool_decide_eq_true. apply hoare_commit.
  intros V j' [Hφ' ->]. split; [|by apply Hψ]. by apply js_record.
Qed.

Lemma hoare_confirmation init φ sc h F :
  hoare (Has init φ) (confirmation sc h)
    (fun r w => Has init (fun j => φ j /\
       forall c, r = Some c -> active sc = true /\ confirmations j !! h = Some c) w) F.
Proof.
  unfold confirmation. destruct (active sc).
  - eapply hoare_bind; [apply hoare_read|]. intros j. apply hoare_pure. intros Hφ.
    eapply hoare_post; [apply hoare_ret|]. intros r w [-> [Hw [? <-]]].
    split; [done|]. split; [done|]. by intros c ->.
  - eapply hoare_post; [apply hoare_ret|]. intros r w [-> [Hw ?]]. by split.
Qed.

Lemma hoare_journal_attempts init φ sc key latest F :
  hoare (Has init φ) (journal_attempts sc key latest)
    (fun l w => Has init (fun j => φ j /\
       l = (if active sc then attempts_of j key else []) ++ [latest]) w) F.
Proof.
  unfold journal_attempts. destruct (active sc).
  - eapply hoare_bind; [apply hoare_read|]. intros j. apply hoare_pure. intros Hφ.
    eapply hoare_post; [apply hoare_ret|]. by intros r w [-> [Hw [? <-]]].
  - eapply hoare_post; [apply hoare_ret|]. by intros r w [-> [Hw ?]].
Qed.

Lemma replace_commit sc key tx w s old :
  session sc = Some s -> actions (journal w) !! key = Some old ->
  replace sc key tx w =
    commit (fun j => push_attempt key old (set_actions (<[key := tx]> (actions j)) j)) w.
Proof.
  intros Hs Ho. unfold replace, current, commit, mbind, M_bind, lift, read_journal, set_journal.
  by rewrite Hs; simpl; rewrite Ho.
Qed.

Lemma hoare_replace init φ (ψ : Journal -> Prop) sc key tx :
  (forall j, φ j -> exists old,
     actions j !! key = Some old /\ group_of tx = group_of old /\
     intent_of tx = intent_of old /\
     ψ (push_attempt key old (set_actions (<[key := tx]> (actions j)) j))) ->
  hoare (Has init φ) (replace sc key tx) (fun _ => Has init ψ) (Safe init).
Proof.
  intros Hf w [Hw Hφ]. destruct (Hf _ Hφ) as (old & Ho & Hg & Hi & Hψ).
  destruct (session sc) as [s|] eqn:Hs.
  - rewrite (replace_commit sc key tx w s old) by done.
    apply (hoare_commit init (fun j => φ j /\ j = journal w) ψ); [|by split].
    intros V j [Hφj ->]. split; [|done]. by apply js_replace.
  - unfold replace, current, mbind, M_bind, lift. rewrite Hs. simpl. apply Hw.
Qed.

Definition retire_update (key : string) (previous : Transaction) (gas_limit : option Z)
    (j : Journal) : Journal :=
  let j := push_attempt key previous (set_actions (delete key (actions j)) j) in
  match gas_limit with
  | Some limit => set_retry_gas_limits (<[key := limit]> (retry_gas_limits j)) j
  | None => j
  end.

Lemma retire_commit sc key lim w s old :
  session sc = Some s -> actions (journal w) !! key = Some old ->
  retire sc key lim w = commit (retire_update key old lim) w.
Proof.
  intros Hs Ho. unfold retire, current, commit, mbind, M_bind, lift, read_journal, set_journal.
  by rewrite Hs; simpl; rewrite Ho.
Qed.

Lemma retire_step V key tx failed c lim j :
  actions j !! key = Some tx -> failed ∈ recorded j key -> group_of failed = group_of tx ->
  confirmations j !! hash_key failed = Some c -> proves_failure c = true ->
  jstep V j (retire_update key tx lim j).
Proof.
  intros. unfold retire_update. destruct lim as [limit|]; [by eapply js_retire|].
  assert (push_attempt key tx (set_actions (delete key (actions j)) j) =
    set_retry_gas_limits (retry_gas_limits j)
      (push_attempt key tx (set_actions (delete key (actions j)) j))) as ->
    by by destruct j.
  by eapply js_retire.
Qed.

Lemma hoare_retire init φ sc key lim :
  (forall j, φ j -> exists tx failed c,
     actions j !! key = Some tx /\ failed ∈ recorded j key /\
     group_of failed = group_of tx /\
     confirmations j !! hash_key failed = Some c /\ proves_failure c = true) ->
  hoare (Has init φ) (retire sc key lim) (fun _ => Has init (fun _ => True)) (Safe init).
Proof.
  intros Hf w [Hw Hφ]. destruct (Hf _ Hφ) as (tx & failed & c & Htx & Hrest).
  destruct (session sc) as [s|] eqn:Hs.
  - rewrite (retire_commit sc key lim w s tx) by done.
    apply (hoare_commit init (fun j => j = journal w)); [|by split].
    intros V j ->. split; [|done]. destruct_and!. by eapply retire_step.
  - unfold retire, current, mbind, M_bind, lift. rewrite Hs. simpl. apply Hw.
Qed.

Lemma hoare_lift_has {A} init φ (r : result A) F `{!Tolerates init F} :
  hoare (Has init φ) (lift r) (fun a w => r = Ok a /\ Has init φ w) F.
Proof. apply hoare_lift. intros w [? _]. by apply tolerates. Qed.

Lemma hoare_ensure_has init φ b msg F `{!Tolerates init F} :
  hoare (Has init φ) (ensure b msg) (fun _ w => b = true /\ Has init φ w) F.
Proof. apply hoare_ensure. intros w [? _]. by apply tolerates. Qed.

Lemma hoare_throw_has {A} init φ e (Q : A -> W -> Prop) F `{!Tolerates init F} :
  hoare (Has init φ) (throw e) Q F.
Proof. apply hoare_throw. intros w [? _]. by apply tolerates. Qed.

Lemma hoare_ret_has {A} init φ (a : A) (Q : A -> W -> Prop) F :
  (forall w, Has init φ w -> Q a w) -> hoare (Has init φ) (mret a) Q F.
Proof. intros HQ w Hw. by apply HQ. Qed.

(** A fact that saving confirmations does not disturb. *)
Definition confirm_stable (φ : Journal -> Prop) : Prop :=
  forall h c j, φ j -> φ (set_confirmations (<[h := c]> (confirmations j)) j).

(** A program that keeps [Inv] keeps every fact about recorded
    transactions; after a crash the journal is read back from disk. *)
Definition reload (w : W) : W := mkWorld (env w) (disk w) (disk w) (trace w).

Lemma Inv_reload init w : Safe init w -> Inv init (reload w).
Proof.
  intros Hs. split; [done|]. apply absorbs_refl.
Qed.

(** ** Facts about the trace

    Programs that leave the journal in memory alone only add to the trace, so
    a fact about both that survives more events is kept. *)
Definition steady {A} (m : M W A) : Prop :=
  forall w, journal (m w).2 = journal w /\ trace w ⊆ trace (m w).2.

Definition persistent (κ : Journal -> list event -> Prop) : Prop :=
  forall j t t', t ⊆ t' -> κ j t -> κ j t'.

Lemma backed_persistent h c : persistent (backed h c).
Proof. intros j t t' Ht [?|?]; [left; by eapply observed_mono|by right]. Qed.

Lemma hoare_keep {A} (κ : Journal -> list event -> Prop) (m : M W A) P (Q : A -> W -> Prop) F :
  persistent κ -> steady m -> hoare P m Q F ->
  hoare (fun w => P w /\ κ (journal w) (trace w)) m
    (fun a w => Q a w /\ κ (journal w) (trace w)) F.
Proof.
  intros Hκ Hm Hh w [Hw Hk]. specialize (Hh w Hw). destruct (Hm w) as [Hj Ht].
  destruct (m w) as [[a|er] w']; simpl in *; [|done]. split; [done|]. rewrite Hj. by eapply Hκ.
Qed.

Lemma steady_lift {A} (r : result A) : steady (lift r).
Proof. by intros w. Qed.
Lemma steady_ret {A} (a : A) : steady (mret a).
Proof. by intros w. Qed.
Lemma steady_ensure b msg : steady (ensure b msg).
Proof. by intros w. Qed.
Lemma steady_now : steady now.
Proof. by intros w. Qed.
Lemma steady_sleep d : steady (sleep_for d).
Proof. by intros w. Qed.
Lemma steady_call {A} (f : E -> result A * E) : steady (call f).
Proof. intros w. unfold call. by destruct (f (env w)). Qed.
Lemma steady_emit ev : steady (emit ev).
Proof. intros w. simpl. split; [done|]. set_solver. Qed.
Lemma steady_bind {A B} (m : M W A) (f : A -> M W B) :
  steady m -> (forall a, steady (f a)) -> steady (m ≫= f).
Proof.
  intros Hm Hf w. destruct (Hm w) as [Hj Ht]. unfold mbind, M_bind.
  destruct (m w) as [[a|er] w1]; simpl in *; [|done].
  destruct (Hf a w1) as [Hj1 Ht1]. split; [congruence|]. set_solver.
Qed.
Lemma steady_call_noting {A} (note : A -> option event) (f : E -> result A * E) :
  steady (call_noting note f).
Proof.
  apply steady_bind; [apply steady_call|]. intros a. destruct (note a); [|apply steady_ret].
  apply steady_bind; [apply steady_emit|]. intros []. apply steady_ret.
Qed.

Lemma Has_weaken init (φ ψ : Journal -> Prop) w :
  (forall j, φ j -> ψ j) -> Has init φ w -> Has init ψ w.
Proof. intros Hφ [? ?]. split; [done|]. by apply Hφ. Qed.

Lemma Has_on_record init φ w key tx :
  (forall j, φ j -> tx ∈ recorded j key) -> Has init φ w -> on_record (raw_of tx) (disk w).
Proof.
  intros Hφ [[_ Ha] Hj]. exists key, tx. split; [|done].
  rewrite <- (absorbs_recorded _ _ _ key Ha). by apply Hφ.
Qed.
End Session.

(** A suffix of a good trace is good: what holds of a whole run holds at every
    point where it could have been cut. *)
Lemma good_suffix `{EvmLib, CosmosLib} init t1 t2 : good init (t1 ++ t2) -> good init t2.
Proof.
  induction t1 as [|ev t1 IH]; [done|]. simpl. intros Hg. apply IH.
  by destruct ev; first [exact Hg|destruct Hg].
Qed.

Lemma good_disk_path `{EvmLib, CosmosLib} init t : good init t -> rtc (jstep (observed t)) init (disk_of init t).
Proof.
  induction t as [|ev t IH]; simpl; [intros _; constructor|].
  assert (forall h c, observed t h c -> observed (ev :: t) h c) as Hmono.
  { intros h c. apply observed_mono. set_solver. }
  destruct ev as [j|raw|raw|raw|p b|h r|tag b|l h n r]; simpl.
  1: intros [Hg (j1 & Ha & Hs)].
  1: apply (jpath_mono (observed t)); [done|]; etrans; [by apply IH|].
  1: by eapply rtc_l; [by apply js_confirm|]; apply rtc_once.
  all: intros Hg; apply (jpath_mono (observed t)); [done|]; apply IH; first [exact Hg|by destruct Hg].
Qed.

(** What is known after a history: what the journal had at its start, and what
    the nodes answered since. *)
Definition known `{EvmLib} (init : Journal) (hist : list event) (h : string) (c : Confirmation) : Prop :=
  confirmations init !! h = Some c \/ observed hist h c.

(** The confirmations in memory are all known. *)
Lemma Inv_sourced {E} `{EvmLib, CosmosLib} init (w : World E) :
  Inv init w -> sourced (known init (trace w)) (journal w).
Proof.
  intros [[Hg Hd] Ha]. apply good_disk_path in Hg. rewrite <- Hd in Hg.
  assert (rtc (jstep (known init (trace w))) init (journal w)) as Hp.
  { apply (jpath_mono (observed (trace w))); [by right|]. eapply rtc_r; [done|]. by apply js_confirm. }
  assert (sourced (known init (trace w)) init) as Hs by by left.
  by eapply path_sourced.
Qed.

(** ** Facts about one action of the journal *)

(** [saved] is the current transaction of [key]; the other actions are those
    of [act]. *)
Definition frames (key : string) (act : gmap string Transaction) (j : Journal) : Prop :=
  forall k, k <> key -> actions j !! k = act !! k.
Definition owns (key : string) (saved : Transaction) (act : gmap string Transaction) (j : Journal) : Prop :=
  actions j !! key = Some saved /\ frames key act j.
Definition all_recorded (key : string) (l : list Transaction) (j : Journal) : Prop :=
  forall a, a ∈ l -> a ∈ recorded j key.

Lemma owns_recorded key saved act j : owns key saved act j -> saved ∈ recorded j key.
Proof. intros [Ho _]. unfold recorded. rewrite Ho. simpl. set_solver. Qed.

Lemma frames_confirm_stable key act : confirm_stable (frames key act).
Proof. intros h c j Hj k Hk. by apply Hj. Qed.

Lemma all_recorded_confirm_stable key l : confirm_stable (all_recorded key l).
Proof. intros h c j Hj a Ha. by apply Hj. Qed.

(** What a proof of failure establishes before an attempt is retired. *)
Definition failure_on_record `{EvmLib} (key : string) (saved : Transaction) (j : Journal) : Prop :=
  exists failed c,
    actions j !! key = Some saved /\ failed ∈ recorded j key /\
    group_of failed = group_of saved /\
    confirmations j !! hash_key failed = Some c /\ proves_failure c = true.

(** ** Programs that leave the journal's transactions alone, whatever their
    outcome *)

Definition quiet {E A} (m : M (World E) A) : Prop :=
  forall w, actions (journal (m w).2) = actions (journal w) /\
            attempts (journal (m w).2) = attempts (journal w).

Create HintDb quiet.

Section Quiet.
Context {E : Type} `{Host E}.
Implicit Types (sc : Scope).

Lemma quiet_ret {A} (a : A) : quiet (E := E) (mret a).
Proof. done. Qed.
Lemma quiet_lift {A} (r : result A) : quiet (E := E) (lift r).
Proof. done. Qed.
Lemma quiet_ensure b msg : quiet (E := E) (ensure b msg).
Proof. done. Qed.
Lemma quiet_throw {A} e : quiet (E := E) (A := A) (throw e).
Proof. done. Qed.
Lemma quiet_emit ev : quiet (E := E) (emit ev).
Proof. done. Qed.
Lemma quiet_sleep d : quiet (E := E) (sleep_for d).
Proof. done. Qed.
Lemma quiet_current sc : quiet (E := E) (current sc).
Proof. done. Qed.
Lemma quiet_call {A} (f : E -> result A * E) : quiet (call f).
Proof. intros w. unfold call. by destruct (f (env w)). Qed.

Lemma quiet_call_noting {A} (note : A -> option event) (f : E -> result A * E) :
  quiet (call_noting note f).
Proof.
  intros w. unfold call_noting, mbind, M_bind, call. destruct (f (env w)) as [[a|er] e]; [|done].
  by destruct (note a).
Qed.

Lemma quiet_bind {A B} (m : M (World E) A) (f : A -> M (World E) B) :
  quiet m -> (forall a, quiet (f a)) -> quiet (m ≫= f).
Proof.
  intros Hm Hf w. destruct (Hm w) as [Ha Hb]. unfold mbind, M_bind.
  destruct (m w) as [[a|e] w']; simpl in *; [|done].
  destruct (Hf a w') as [Ha' Hb']. by rewrite Ha', Hb'.
Qed.

Lemma quiet_confirmation sc h : quiet (E := E) (confirmation sc h).
Proof. unfold confirmation. by destruct (active sc). Qed.
Lemma quiet_journal_attempts sc k tx : quiet (E := E) (journal_attempts sc k tx).
Proof. unfold journal_attempts. by destruct (active sc). Qed.

Lemma quiet_confirm sc h c : quiet (E := E) (confirm sc h c).
Proof.
  intros w. unfold confirm, commit, mbind, M_bind, read_journal, set_journal, atomic_write.
  destruct (active sc); [|done]. simpl. by destruct (disk_write (env w)) as [[] e].
Qed.

Lemma quiet_first_some {A B} (f : A -> M (World E) (option B)) l :
  (forall x, quiet (f x)) -> quiet (first_some f l).
Proof.
  intros Hf. induction l as [|x l IH]; simpl; [apply quiet_ret|].
  apply quiet_bind; [done|]. intros [b|]; [apply quiet_ret|done].
Qed.

(** Forgetting the outcome of a quiet program keeps what is known of the
    actions and attempts. *)
Lemma hoare_ignore_quiet `{EvmLib, CosmosLib} {A} init φ (m : M (World E) A) F :
  quiet m -> hoare (Has init φ) m (fun _ => Inv init) (Inv init) ->
  (forall j j', φ j -> actions j' = actions j -> attempts j' = attempts j -> φ j') ->
  hoare (Has init φ) (ignore m) (fun _ => Has init φ) F.
Proof.
  intros Hq Hm Hφ w Hw. specialize (Hm w Hw). destruct (Hq w) as [Ha Hb]. destruct Hw as [_ Hw].
  unfold ignore. destruct (m w) as [[a|e] w']; simpl in *; split; eauto.
Qed.
End Quiet.

#[export] Hint Resolve quiet_ret quiet_lift quiet_ensure quiet_throw quiet_emit quiet_sleep
  quiet_current quiet_call quiet_call_noting quiet_bind quiet_confirmation quiet_journal_attempts quiet_confirm
  quiet_first_some : quiet.
Ltac squiet :=
  repeat first
    [ progress intros
    | apply quiet_bind
    | solve [auto with quiet]
    | match goal with |- quiet (match ?x with _ => _ end) => destruct x end ].

(** The next statement of a program, by the triple of its operation. *)
Ltac hop :=
  first [ eapply hoare_call | eapply hoare_now | eapply hoare_sleep
        | eapply hoare_confirm_prompt | eapply hoare_current | eapply hoare_read
        | eapply hoare_get_action | eapply hoare_confirmation
        | eapply hoare_journal_attempts | eapply hoare_ensure_has | eapply hoare_lift_has
        | solve [eauto with hoare] ];
  try typeclasses eauto.
Ltac hstep := eapply hoare_bind; [hop|]; cbv beta.
(** A statement whose triple yields a pure fact. *)
Tactic Notation "hstep" "as" simple_intropattern(x) simple_intropattern(pat) :=
  hstep; intros x; apply hoare_pure; intros pat.
Ltac hthrow := eapply hoare_throw_has; typeclasses eauto.
Ltac hret := eapply hoare_ret_has; intros ? ?.

#[export] Hint Resolve hoare_call hoare_now hoare_sleep hoare_confirm_prompt
  hoare_current hoare_read hoare_get_action hoare_confirmation
  hoare_journal_attempts : hoare.
