(* ===== verification/Funding.v ===== *)
(** * Fee and gas liability (hardened/evm_funding.rs, cosmos_funding.rs, evm.rs)

    How much the transactions of a journal can cost one signer.  Attempts at
    one nonce or sequence compete, so only the dearest of them counts. *)

From S2P Require Import Prelude Types Journal Chain Machine.

(** ** Slots: the dearest attempt per nonce *)

Definition add_slot (m : gmap Z Z) (slot amount : Z) : gmap Z Z :=
  <[slot := Z.max (default 0 (m !! slot)) amount]> m.

(** The loop over the journal: [f] selects the signer's transactions and gives
    their slot and parsed amount ([None] when the text does not parse). *)
Fixpoint collect_slots (f : Transaction -> option (Z * option Z)) (txs : list Transaction)
    (m : gmap Z Z) : result (gmap Z Z) :=
  match txs with
  | [] => Ok m
  | tx :: txs =>
      match f tx with
      | None => collect_slots f txs m
      | Some (_, None) => Err (Failed "invalid amount")
      | Some (slot, Some amount) => collect_slots f txs (add_slot m slot amount)
      end
  end.

(** [values().try_fold(0, checked_add)]. *)
Fixpoint checked_sum (w : Z) (acc : Z) (l : list Z) (msg : string) : result Z :=
  match l with
  | [] => Ok acc
  | x :: l => acc ← ok_or (checked_add w acc x) msg; checked_sum w acc l msg
  end.

Definition add_candidate (candidate : option (Z * Z)) (m : gmap Z Z) : gmap Z Z :=
  match candidate with
  | Some (slot, amount) => add_slot m slot amount
  | None => m
  end.

Definition evm_slot `{EvmLib} (sender : Address) (tx : Transaction) : option (Z * option Z) :=
  match tx with
  | EvmTx _ _ _ from nonce gas_cost =>
      if decide (from = sender) then Some (nonce, parse_u256 gas_cost) else None
  | CosmosTx _ _ _ _ _ _ => None
  end.

Definition cosmos_slot (sender : string) (tx : Transaction) : option (Z * option Z) :=
  match tx with
  | CosmosTx _ _ _ from fee sequence =>
      if decide (from = sender) then Some (sequence, parse_uint 128 fee) else None
  | EvmTx _ _ _ _ _ _ => None
  end.

(** [evm_funding::liability]. *)
Definition liability `{EvmLib} (j : Journal) (sender : Address) (candidate : option (Z * Z))
    : result Z :=
  nonces ← collect_slots (evm_slot sender) (all_transactions j) ∅;
  checked_sum 256 0 (btree_zlist (add_candidate candidate nonces)).*2 "gas budget overflow".

(** [cosmos_funding::fee_liability]. *)
Definition fee_liability (j : Journal) (sender : string) (candidate : option (Z * Z))
    : result Z :=
  sequences ← collect_slots (cosmos_slot sender) (all_transactions j) ∅;
  checked_sum 128 0 (btree_zlist (add_candidate candidate sequences)).*2 "fee budget overflow".

(** The decision of [evm::check_budget]. *)
Definition check_budget_with `{EvmLib} (p : Plan) (j : Journal) (sender : Address) (cost : Z)
    (replacing : option string) : result () :=
  let candidate_nonce : option Z :=
    tx ← (replacing ≫= fun key => actions j !! key);
    match tx with
    | EvmTx _ _ _ _ nonce _ => Some nonce
    | CosmosTx _ _ _ _ _ _ => None
    end in
  spent ← liability j sender ((fun n => (n, cost)) <$> candidate_nonce);
  total ← (if candidate_nonce is Some _ then Ok spent
           else ok_or (checked_add 256 spent cost) "gas budget overflow");
  budget ← ok_or (parse_u256 (evm_gas_budget p)) "invalid gas budget";
  ensure_ok (total <=? budget) "transaction exceeds approved EVM gas budget".

(** The decision of [cosmos_funding::check_fee_budget]. *)
Definition check_fee_budget_with (p : Plan) (j : Journal) (sender : string) (sequence fee : Z)
    : result () :=
  total ← fee_liability j sender (Some (sequence, fee));
  budget ← ok_or (parse_uint 128 (cosmos_fee_budget p)) "invalid fee budget";
  ensure_ok (total <=? budget) "Cosmos fee budget exceeded".

Fixpoint add_coins (denom : string) (coins : list Coin) (amount : Z) : result Z :=
  match coins with
  | [] => Ok amount
  | mkCoin d a :: coins =>
      _ ← ensure_ok (bool_decide (d = denom)) "unsupported deployment payment denomination";
      a ← ok_or (parse_uint 128 a) "invalid amount";
      amount ← ok_or (checked_add 128 amount a) "submission funding overflow";
      add_coins denom coins amount
  end.

(** The coins a message pays. *)
Definition message_coins `{CosmosLib} (m : Any) : result (list Coin) :=
  if decide (type_url m = "/cosmos.gov.v1.MsgSubmitProposal") then
    ok_or (decode_proposal_deposit (any_value m)) "invalid proposal"
  else if decide (type_url m = "/cosmwasm.wasm.v1.MsgExecuteContract") then
    ok_or (decode_execute_funds (any_value m)) "invalid execution"
  else bail "unsupported deployment message".

(** [cosmos_funding::required]: what the messages pay, in [denom]. *)
Fixpoint required_from `{CosmosLib} (messages : list Any) (denom : string) (amount : Z)
    : result Z :=
  match messages with
  | [] => Ok amount
  | m :: messages =>
      coins ← message_coins m;
      amount ← add_coins denom coins amount;
      required_from messages denom amount
  end.
Definition required `{CosmosLib} (messages : list Any) (denom : string) : result Z :=
  required_from messages denom 0.

(** ** Sums *)

Definition zsum (l : list Z) : Z := foldr Z.add 0 l.

Lemma zsum_app l1 l2 : zsum (l1 ++ l2) = zsum l1 + zsum l2.
Proof. induction l1; simpl; lia. Qed.

#[export] Instance zsum_perm : Proper ((≡ₚ) ==> (=)) zsum.
Proof. intros l1 l2. induction 1; simpl; lia. Qed.

Lemma zsum_nonneg l : Forall (fun z => 0 <= z) l -> 0 <= zsum l.
Proof. induction 1; simpl; lia. Qed.

Lemma checked_sum_ok w acc l msg s :
  0 <= acc < 2 ^ w -> Forall (fun z => 0 <= z) l ->
  checked_sum w acc l msg = Ok s <-> s = acc + zsum l /\ s < 2 ^ w.
Proof.
  revert acc. induction l as [|x l IH]; intros acc Hacc Hl; simpl.
  - split; [intros [= <-]; lia|]. intros [-> _]. f_equal. lia.
  - inversion_clear Hl as [|?? Hx Hl']. pose proof (zsum_nonneg _ Hl').
    unfold checked_add. destruct (checked w (acc + x)) as [acc'|] eqn:Hc; simpl.
    + apply checked_Some in Hc as [<- ?]. rewrite IH by done. lia.
    + apply checked_None in Hc. split; [done|]. lia.
Qed.

(** The sum of a map's values. *)
Definition total (m : gmap Z Z) : Z := zsum (map_to_list m).*2.

Lemma total_btree m : zsum (btree_zlist m).*2 = total m.
Proof. unfold total. by rewrite btree_zlist_perm. Qed.

Lemma total_insert m k v : m !! k = None -> total (<[k := v]> m) = v + total m.
Proof. intros Hk. unfold total. by rewrite map_to_list_insert by done. Qed.

Lemma total_empty : total ∅ = 0.
Proof. done. Qed.

Lemma total_delete m k v : m !! k = Some v -> total m = v + total (delete k m).
Proof.
  intros Hk. rewrite <- (insert_delete_id m k v Hk) at 1.
  by rewrite total_insert by apply lookup_delete_eq.
Qed.

Lemma total_alter m k v v' :
  m !! k = Some v -> total (<[k := v']> m) = total m - v + v'.
Proof.
  intros Hk. rewrite (total_delete m k v Hk).
  rewrite (total_delete (<[k := v']> m) k v') by apply lookup_insert_eq.
  rewrite delete_insert_eq. lia.
Qed.

(** ** What the slots hold *)

(** The slots built from a list of (slot, amount) pairs. *)
Definition slots_of (pairs : list (Z * Z)) (m : gmap Z Z) : gmap Z Z :=
  foldl (fun m p => add_slot m p.1 p.2) m pairs.

(** The pairs a collection loop reads, when all amounts parse. *)
Fixpoint selected (f : Transaction -> option (Z * option Z)) (txs : list Transaction)
    : option (list (Z * Z)) :=
  match txs with
  | [] => Some []
  | tx :: txs =>
      match f tx with
      | None => selected f txs
      | Some (_, None) => None
      | Some (slot, Some amount) => ((slot, amount) ::.) <$> selected f txs
      end
  end.

Lemma collect_slots_ok f txs m m' :
  collect_slots f txs m = Ok m' <->
  exists pairs, selected f txs = Some pairs /\ m' = slots_of pairs m.
Proof.
  revert m. induction txs as [|tx txs IH]; intros m; simpl.
  - split; [intros [= <-]; by exists []|]. intros (? & [= <-] & ->). done.
  - destruct (f tx) as [[slot [amount|]]|]; simpl.
    + rewrite IH. split.
      * intros (pairs & -> & ->). by exists ((slot, amount) :: pairs).
      * intros (pairs & Hp & ->). destruct (selected f txs) as [ps|]; [|done].
        simpl in Hp. injection Hp as <-. by exists ps.
    + split; [done|]. by intros (? & ? & _).
    + apply IH.
Qed.

Definition nonneg_map (m : gmap Z Z) : Prop := map_Forall (fun _ v => 0 <= v) m.

Lemma add_slot_nonneg m slot amount : nonneg_map m -> nonneg_map (add_slot m slot amount).
Proof.
  intros Hm. unfold add_slot. apply map_Forall_insert_2; [|done].
  destruct (m !! slot) eqn:E; simpl; [apply Hm in E|]; lia.
Qed.

Lemma slots_of_nonneg pairs m : nonneg_map m -> nonneg_map (slots_of pairs m).
Proof.
  unfold slots_of. revert m. induction pairs as [|[s a] pairs IH]; intros m Hm; simpl; [done|].
  by apply IH, add_slot_nonneg.
Qed.

Lemma nonneg_values m : nonneg_map m -> Forall (fun z => 0 <= z) (map_to_list m).*2.
Proof.
  intros Hm. apply list.Forall_forall. intros v Hv%list_elem_of_fmap.
  destruct Hv as ([k v'] & -> & Hin%elem_of_map_to_list). by apply (Hm k).
Qed.

Lemma nonneg_total m : nonneg_map m -> 0 <= total m.
Proof. intros Hm. by apply zsum_nonneg, nonneg_values. Qed.

(** Every amount is covered by its slot. *)
Lemma slots_of_mono pairs m slot v :
  m !! slot = Some v -> exists v', slots_of pairs m !! slot = Some v' /\ v <= v'.
Proof.
  unfold slots_of. revert m v. induction pairs as [|[s a] pairs IH]; intros m v Hv; simpl.
  - eauto with lia.
  - destruct (decide (s = slot)) as [->|Hne].
    + destruct (IH (add_slot m slot a) (Z.max (default 0 (m !! slot)) a)) as (v' & ? & ?).
      { apply lookup_insert_eq. }
      rewrite Hv in *. simpl in *. exists v'. split; [done|lia].
    + apply IH. unfold add_slot. by rewrite lookup_insert_ne.
Qed.

Lemma slots_of_covers pairs m slot amount :
  (slot, amount) ∈ pairs -> exists v, slots_of pairs m !! slot = Some v /\ amount <= v.
Proof.
  revert m. induction pairs as [|[s a] pairs IH]; intros m Hin; [set_solver|].
  apply elem_of_cons in Hin as [[= <- <-]|Hin]; [|by apply IH].
  destruct (slots_of_mono pairs (add_slot m slot amount) slot (Z.max (default 0 (m !! slot)) amount))
    as (v & ? & ?); [apply lookup_insert_eq|]. exists v. split; [done|lia].
Qed.

(** Amounts at distinct slots cost at most the total of the slots. *)
Lemma total_bounds_selection m sel :
  nonneg_map m -> NoDup sel.*1 ->
  (forall slot amount, (slot, amount) ∈ sel -> exists v, m !! slot = Some v /\ amount <= v) ->
  zsum sel.*2 <= total m.
Proof.
  revert m. induction sel as [|[s a] sel IH]; intros m Hm Hnd Hcov; simpl.
  - by apply nonneg_total.
  - apply list.NoDup_cons in Hnd as [Hs Hnd].
    destruct (Hcov s a) as (v & Hv & Hle); [set_solver|].
    rewrite (total_delete m s v Hv). apply Z.add_le_mono; [done|]. apply IH; [|done|].
    + intros k x Hk. apply lookup_delete_Some in Hk as [_ Hk]. by apply (Hm k).
    + intros slot amount Hin. destruct (Hcov slot amount) as (v' & Hv' & ?); [set_solver|].
      exists v'. split; [|done]. rewrite lookup_delete_ne; [done|].
      intros ->. apply Hs. apply list_elem_of_fmap. by exists (slot, amount).
Qed.

Lemma total_add_slot m slot amount :
  nonneg_map m -> 0 <= amount -> total m <= total (add_slot m slot amount) <= total m + amount.
Proof.
  intros Hm Ha. unfold add_slot. destruct (m !! slot) as [v|] eqn:Hv; simpl.
  - rewrite (total_alter m slot v) by done. apply Hm in Hv. lia.
  - rewrite total_insert by done. lia.
Qed.

(** ** The order of the transactions does not matter *)

Lemma add_slot_comm m s1 a1 s2 a2 :
  add_slot (add_slot m s1 a1) s2 a2 = add_slot (add_slot m s2 a2) s1 a1.
Proof.
  unfold add_slot. destruct (decide (s1 = s2)) as [->|Hne].
  - rewrite !lookup_insert_eq, !insert_insert_eq. simpl. f_equal. lia.
  - rewrite (lookup_insert_ne _ s1 s2), (lookup_insert_ne _ s2 s1) by done.
    by rewrite insert_insert_ne by done.
Qed.

Lemma slots_of_perm ps ps' m : ps ≡ₚ ps' -> slots_of ps m = slots_of ps' m.
Proof.
  intros Hp. revert m. unfold slots_of.
  induction Hp as [|p l l' _ IH|p q l|l1 l2 l3 _ IH1 _ IH2]; intros m; simpl; auto.
  - by rewrite add_slot_comm.
  - by rewrite IH1.
Qed.

Lemma selected_perm f txs txs' ps :
  txs ≡ₚ txs' -> selected f txs = Some ps -> exists ps', selected f txs' = Some ps' /\ ps ≡ₚ ps'.
Proof.
  intros Hp. revert ps. induction Hp as [|tx l l' _ IH|x y l|l1 l2 l3 _ IH1 _ IH2]; intros ps Hs.
  - simpl in Hs. injection Hs as <-. by exists [].
  - simpl in *. destruct (f tx) as [[s [a|]]|]; [|done|by apply IH].
    destruct (selected f l) as [qs|]; [|done]. injection Hs as <-.
    destruct (IH qs eq_refl) as (ps' & -> & ?). eexists. split; [done|]. by constructor.
  - simpl in *. destruct (f x) as [[s [a|]]|], (f y) as [[s' [a'|]]|], (selected f l); simplify_eq/=;
      eexists; (split; [done|]); first [reflexivity | apply perm_swap].
  - destruct (IH1 ps Hs) as (ps2 & Hs2 & ?). destruct (IH2 ps2 Hs2) as (ps3 & ? & ?).
    exists ps3. split; [done|]. by etransitivity.
Qed.

Lemma slots_of_snoc ps p m : slots_of (p :: ps) m = add_slot (slots_of ps m) p.1 p.2.
Proof.
  rewrite (slots_of_perm (p :: ps) (ps ++ [p])) by apply Permutation_cons_append.
  unfold slots_of. by rewrite foldl_app.
Qed.

(** Transactions of a journal after each transition. *)
Lemma all_transactions_perm j :
  all_transactions j ≡ₚ (map_to_list (actions j)).*2 ++ concat (map_to_list (attempts j)).*2.
Proof. unfold all_transactions. by rewrite !btree_list_perm. Qed.

Lemma all_transactions_record j key tx :
  actions j !! key = None ->
  all_transactions (set_actions (<[key := tx]> (actions j)) j) ≡ₚ tx :: all_transactions j.
Proof. intros Hn. rewrite !all_transactions_perm. simpl. by rewrite map_to_list_insert by done. Qed.

Lemma concat_attempts_push (m : gmap string (list Transaction)) key tx :
  concat (map_to_list (<[key := default [] (m !! key) ++ [tx]]> m)).*2 ≡ₚ
  tx :: concat (map_to_list m).*2.
Proof.
  destruct (m !! key) as [l|] eqn:Hl; simpl.
  - rewrite <- (insert_delete_id m key l Hl) at 2. rewrite <- insert_delete_eq.
    rewrite !map_to_list_insert by apply lookup_delete_eq. simpl.
    rewrite <- app_assoc, Permutation_middle. simpl. by rewrite <- Permutation_middle.
  - by rewrite map_to_list_insert by done.
Qed.

Lemma all_transactions_replace j key old tx :
  actions j !! key = Some old ->
  all_transactions (push_attempt key old (set_actions (<[key := tx]> (actions j)) j)) ≡ₚ
  tx :: all_transactions j.
Proof.
  intros Ho. rewrite !all_transactions_perm. unfold push_attempt, attempts_of. simpl.
  rewrite concat_attempts_push. rewrite <- insert_delete_eq.
  rewrite map_to_list_insert by apply lookup_delete_eq. simpl.
  rewrite <- (insert_delete_id (actions j) key old Ho) at 2.
  rewrite map_to_list_insert by apply lookup_delete_eq. simpl.
  by rewrite <- Permutation_middle.
Qed.

(** ** The two liabilities share one shape *)

Definition liability_with (w : Z) (f : Transaction -> option (Z * option Z)) (msg : string)
    (j : Journal) (candidate : option (Z * Z)) : result Z :=
  slots ← collect_slots f (all_transactions j) ∅;
  checked_sum w 0 (btree_zlist (add_candidate candidate slots)).*2 msg.

Lemma add_candidate_nonneg c m : nonneg_map m -> nonneg_map (add_candidate c m).
Proof. destruct c as [[s a]|]; [apply add_slot_nonneg|done]. Qed.

Lemma slots_empty_nonneg ps : nonneg_map (slots_of ps ∅).
Proof. apply slots_of_nonneg. apply map_Forall_empty. Qed.

Lemma liability_with_ok w f msg j c t :
  0 <= w ->
  liability_with w f msg j c = Ok t <->
  exists ps, selected f (all_transactions j) = Some ps /\
    t = total (add_candidate c (slots_of ps ∅)) /\ t < 2 ^ w.
Proof.
  intros Hw. unfold liability_with. rewrite result_bind_ok.
  pose proof (Z.pow_pos_nonneg 2 w ltac:(lia) Hw).
  assert (forall ps, Forall (fun z => 0 <= z)
    (btree_zlist (add_candidate c (slots_of ps ∅))).*2) as Hnn.
  { intros ps. rewrite btree_zlist_perm.
    by apply nonneg_values, add_candidate_nonneg, slots_empty_nonneg. }
  split.
  - intros (m & Hm & Hs). apply collect_slots_ok in Hm as (ps & Hp & ->).
    apply checked_sum_ok in Hs as [-> ?]; [|lia|done]. rewrite total_btree in *. eauto.
  - intros (ps & Hp & -> & Hlt). eexists. split; [by apply collect_slots_ok; eauto|].
    apply checked_sum_ok; [lia|done|]. rewrite total_btree. lia.
Qed.

(** Adding a transaction adds its slot. *)
Lemma liability_with_adds w f msg j j' tx slot amount t :
  0 <= w -> all_transactions j' ≡ₚ tx :: all_transactions j ->
  f tx = Some (slot, Some amount) ->
  liability_with w f msg j' None = Ok t <->
  exists ps, selected f (all_transactions j) = Some ps /\
    t = total (add_slot (slots_of ps ∅) slot amount) /\ t < 2 ^ w.
Proof.
  intros Hw Hperm Hf. rewrite liability_with_ok by done. simpl. split.
  - intros (ps & Hp & -> & Hlt).
    destruct (selected_perm f _ _ ps Hperm Hp) as (ps' & Hp' & Hps).
    simpl in Hp'. rewrite Hf in Hp'. destruct (selected f (all_transactions j)) as [qs|]; [|done].
    injection Hp' as <-. exists qs. split; [done|].
    rewrite (slots_of_perm ps _ _ Hps), slots_of_snoc in *. done.
  - intros (qs & Hq & -> & Hlt).
    assert (selected f (tx :: all_transactions j) = Some ((slot, amount) :: qs)) as Hsel
      by (simpl; by rewrite Hf, Hq).
    destruct (selected_perm f _ _ _ (Permutation_sym Hperm) Hsel) as (ps' & Hp' & Hps).
    exists ps'. split; [done|].
    rewrite <- (slots_of_perm _ _ _ Hps), slots_of_snoc. done.
Qed.

(** ** What the budget checks guarantee *)

Lemma liability_with_bounds_spend w f msg j t sel :
  0 <= w -> liability_with w f msg j None = Ok t -> NoDup sel.*1 ->
  (forall slot amount, (slot, amount) ∈ sel ->
     exists tx, tx ∈ all_transactions j /\ f tx = Some (slot, Some amount)) ->
  zsum sel.*2 <= t.
Proof.
  intros Hw Ht Hnd Hsel. apply liability_with_ok in Ht as (ps & Hp & -> & _); [|done]. simpl.
  apply total_bounds_selection; [apply slots_empty_nonneg|done|].
  intros slot amount Hin. destruct (Hsel slot amount Hin) as (tx & Htx & Hf).
  apply slots_of_covers. clear Hsel Hin Hnd. revert ps Hp.
  induction (all_transactions j) as [|tx' txs IH]; intros ps Hp; [set_solver|].
  simpl in Hp. apply elem_of_cons in Htx as [<-|Htx].
  - rewrite Hf in Hp. destruct (selected f txs); [|done]. injection Hp as <-. set_solver.
  - destruct (f tx') as [[s [a|]]|]; [|done|by apply IH].
    destruct (selected f txs) as [qs|]; [|done]. injection Hp as <-.
    specialize (IH Htx qs eq_refl). set_solver.
Qed.

(** C40: the gas liability bounds what a signer can lose.  Whichever of the
    journal's transactions the chain includes, at most one per nonce, their
    maximum gas costs add up to no more than [liability]. *)
Theorem liability_bounds_spend `{EvmLib} j sender t sel :
  liability j sender None = Ok t -> NoDup sel.*1 ->
  (forall nonce cost, (nonce, cost) ∈ sel ->
     exists tx, tx ∈ all_transactions j /\ evm_slot sender tx = Some (nonce, Some cost)) ->
  zsum sel.*2 <= t.
Proof. apply liability_with_bounds_spend. lia. Qed.

(** A transaction that passed [check_budget] keeps the signer's liability
    within the approved budget once it is journaled: a new action, recorded at
    whatever nonce, and a fee replacement at the nonce of the action it
    replaces. *)
Theorem check_budget_keeps_budget `{EvmLib} p j sender cost key tx intent raw hash nonce gas_cost :
  tx = EvmTx intent raw hash sender nonce gas_cost ->
  parse_u256 gas_cost = Some cost -> 0 <= cost ->
  (actions j !! key = None /\ check_budget_with p j sender cost None = Ok () ->
   exists t budget, parse_u256 (evm_gas_budget p) = Some budget /\ t <= budget /\
     liability (set_actions (<[key := tx]> (actions j)) j) sender None = Ok t) /\
  (forall old, actions j !! key = Some old -> group_of tx = group_of old ->
   check_budget_with p j sender cost (Some key) = Ok () ->
   exists t budget, parse_u256 (evm_gas_budget p) = Some budget /\ t <= budget /\
     liability (push_attempt key old (set_actions (<[key := tx]> (actions j)) j)) sender None = Ok t).
Proof.
  intros -> Hcost Hpos.
  assert (forall n, evm_slot sender (EvmTx intent raw hash sender n gas_cost) = Some (n, Some cost))
    as Hslot by (intros n; simpl; by rewrite decide_True, Hcost by done).
  split.
  - intros [Hnone Hb]. unfold check_budget_with in Hb. simpl in Hb.
    apply result_bind_ok in Hb as (spent & Hs & Hb).
    apply result_bind_ok in Hb as (tot & Ht & Hb). apply ok_or_ok, checked_Some in Ht as [<- Ht].
    apply result_bind_ok in Hb as (budget & Hbud & Hb). apply ok_or_ok in Hbud.
    apply ensure_ok_ok, Z.leb_le in Hb.
    apply (liability_with_ok 256) in Hs as (ps & Hp & -> & _); [|lia]. cbn [fmap option_fmap option_map add_candidate] in *.
    pose proof (total_add_slot (slots_of ps ∅) nonce cost (slots_empty_nonneg ps) Hpos).
    exists (total (add_slot (slots_of ps ∅) nonce cost)), budget. split; [done|]. split; [lia|].
    apply (liability_with_adds 256 (evm_slot sender) _ j _
      (EvmTx intent raw hash sender nonce gas_cost) nonce cost); [lia|by apply all_transactions_record|done|].
    exists ps. repeat split; [done|lia].
  - intros old Hold Hg Hb. unfold check_budget_with in Hb. simpl in Hb. rewrite Hold in Hb.
    destruct old as [i r h s n gc|]; [|done]. simpl in Hg. injection Hg as <- <-. simpl in Hb.
    apply result_bind_ok in Hb as (spent & Hs & Hb). simpl in Hb.
    apply result_bind_ok in Hb as (budget & Hbud & Hb). apply ok_or_ok in Hbud.
    apply ensure_ok_ok, Z.leb_le in Hb.
    apply (liability_with_ok 256) in Hs as (ps & Hp & -> & ?); [|lia]. cbn [fmap option_fmap option_map add_candidate] in *.
    eexists _, budget. split; [done|]. split; [done|].
    apply (liability_with_adds 256 (evm_slot sender) _ j _
      (EvmTx intent raw hash sender nonce gas_cost) nonce cost); [lia|by apply all_transactions_replace|done|].
    exists ps. repeat split; [done|lia].
Qed.

(** The same for Cosmos fees: after [check_fee_budget] accepted a fee at a
    sequence, recording the transaction, or replacing one of that sequence by
    it, leaves the signer's fee liability within the approved budget. *)
Theorem check_fee_budget_keeps_budget p j sender sequence fee key tx intent raw hash fee_text :
  tx = CosmosTx intent raw hash sender fee_text sequence ->
  parse_uint 128 fee_text = Some fee ->
  check_fee_budget_with p j sender sequence fee = Ok () ->
  exists t budget, parse_uint 128 (cosmos_fee_budget p) = Some budget /\ t <= budget /\
    (actions j !! key = None ->
     fee_liability (set_actions (<[key := tx]> (actions j)) j) sender None = Ok t) /\
    (forall old, actions j !! key = Some old ->
     fee_liability (push_attempt key old (set_actions (<[key := tx]> (actions j)) j)) sender None
       = Ok t).
Proof.
  intros -> Hfee Hb. unfold check_fee_budget_with in Hb.
  apply result_bind_ok in Hb as (spent & Hs & Hb).
  apply result_bind_ok in Hb as (budget & Hbud & Hb). apply ok_or_ok in Hbud.
  apply ensure_ok_ok, Z.leb_le in Hb.
  apply (liability_with_ok 128) in Hs as (ps & Hp & -> & Hlt); [|lia]. cbn [fmap option_fmap option_map add_candidate] in *.
  exists (total (add_slot (slots_of ps ∅) sequence fee)), budget. split; [done|]. split; [done|].
  assert (cosmos_slot sender (CosmosTx intent raw hash sender fee_text sequence)
    = Some (sequence, Some fee)) as Hslot by (simpl; by rewrite decide_True, Hfee by done).
  split; intros.
  all: apply (liability_with_adds 128 (cosmos_slot sender) _ j _
    (CosmosTx intent raw hash sender fee_text sequence) sequence fee); [lia| |done|by eauto].
  - by apply all_transactions_record.
  - by apply all_transactions_replace.
Qed.
