(* ===== verification/Intent.v ===== *)
(** * Transaction intents (hardened/evm_intent.rs)

    The versioned encoding whose hash identifies what a deployment transaction
    does: everything but its fees. *)

From S2P Require Import Prelude Types Journal Chain.

(** Big-endian bytes of an unsigned integer. *)
Fixpoint be_bytes (n : nat) (z : Z) : bytes :=
  match n with
  | O => []
  | S n => be_bytes n (z / 256) ++ [z mod 256]
  end.

Fixpoint string_bytes (s : string) : bytes :=
  match s with
  | EmptyString => []
  | String c s => Z.of_N (Ascii.N_of_ascii c) :: string_bytes s
  end.

Definition INTENT_VERSION : bytes := string_bytes "axe-deploy-intent-v2".

(** [request.to.and_then(|to| to.to().copied())]. *)
Definition call_target (r : TransactionRequest) : option Address :=
  match rq_to r with
  | Some (CallTo a) => Some a
  | Some Create | None => None
  end.

Definition optional_u64 (v : option Z) : bytes :=
  (if v is Some _ then 1 else 0) :: be_bytes 8 (default 0 v).

Definition supported (r : TransactionRequest) : bool :=
  match rq_access_list r with None | Some [] => true | Some _ => false end &&
  bool_decide (rq_authorization_list r = None) &&
  bool_decide (rq_blob_versioned_hashes r = None).

(** The bytes [evm_intent::hash] hashes. *)
Definition intent_bytes (r : TransactionRequest) : result bytes :=
  _ ← ensure_ok (supported r) "unsupported deployment transaction extensions";
  chain ← ok_or (rq_chain_id r) "missing chain ID";
  from ← ok_or (rq_from r) "missing signer";
  Ok (INTENT_VERSION ++ be_bytes 8 chain ++ be_bytes 20 from ++
      match call_target r with
      | Some address => 1 :: be_bytes 20 address
      | None => [0]
      end ++
      be_bytes 32 (default 0 (rq_value r)) ++
      optional_u64 (rq_nonce r) ++ optional_u64 (rq_gas r) ++
      default [] (rq_input r)).

(** [evm_intent::hash]. *)
Definition intent_hash `{EvmLib} (r : TransactionRequest) : result B256 :=
  keccak256 <$> intent_bytes r.

(** A request whose fields are in the range of their Rust types. *)
Definition in_range (n : nat) (v : option Z) : Prop :=
  match v with Some z => 0 <= z < 256 ^ Z.of_nat n | None => True end.
Definition request_wf (r : TransactionRequest) : Prop :=
  in_range 8 (rq_chain_id r) /\ in_range 20 (rq_from r) /\ in_range 20 (call_target r) /\
  in_range 32 (rq_value r) /\ in_range 8 (rq_nonce r) /\ in_range 8 (rq_gas r).

(** Two requests ask for the same execution: same chain, signer, destination,
    value, nonce, gas limit and calldata.  Fees are free. *)
Definition same_execution (r r' : TransactionRequest) : Prop :=
  rq_chain_id r = rq_chain_id r' /\ rq_from r = rq_from r' /\
  call_target r = call_target r' /\ default 0 (rq_value r) = default 0 (rq_value r') /\
  rq_nonce r = rq_nonce r' /\ rq_gas r = rq_gas r' /\
  default [] (rq_input r) = default [] (rq_input r').

Lemma be_bytes_length n z : length (be_bytes n z) = n.
Proof. revert z. induction n as [|n IH]; intros z; simpl; [done|]. rewrite length_app, IH. simpl. lia. Qed.

Lemma be_bytes_inj n z z' :
  0 <= z < 256 ^ Z.of_nat n -> 0 <= z' < 256 ^ Z.of_nat n ->
  be_bytes n z = be_bytes n z' -> z = z'.
Proof.
  revert z z'. induction n as [|n IH]; intros z z' Hz Hz' Heq; [simpl in *; lia|].
  simpl in Heq. apply app_inj_2 in Heq as [Hq [= Hr]]; [|done].
  rewrite Nat2Z.inj_succ, Z.pow_succ_r in Hz, Hz' by lia.
  rewrite (Z.div_mod z 256), (Z.div_mod z' 256), Hr by lia. do 2 f_equal.
  apply IH; [| |done]; (split; [apply Z.div_pos; lia|apply Z.div_lt_upper_bound; lia]).
Qed.

Lemma optional_u64_inj v v' l l' :
  in_range 8 v -> in_range 8 v' ->
  optional_u64 v ++ l = optional_u64 v' ++ l' -> v = v' /\ l = l'.
Proof.
  intros Hv Hv' Heq. unfold optional_u64 in Heq. rewrite <- !app_comm_cons in Heq.
  apply cons_eq_inj in Heq as [Hflag Hrest]. apply app_inj_1 in Hrest as [Hz ->]; [|by rewrite !be_bytes_length].
  split; [|done]. destruct v as [z|], v' as [z'|]; try done.
  simpl in Hz, Hv, Hv'. by apply (be_bytes_inj 8) in Hz as ->.
Qed.

Lemma target_inj t t' l l' :
  in_range 20 t -> in_range 20 t' ->
  match t with Some a => 1 :: be_bytes 20 a | None => [0] end ++ l =
  match t' with Some a => 1 :: be_bytes 20 a | None => [0] end ++ l' -> t = t' /\ l = l'.
Proof.
  intros Ht Ht' Heq. destruct t as [a|], t' as [a'|]; try (by apply cons_eq_inj in Heq as [[=] _]).
  - rewrite <- !app_comm_cons in Heq. apply cons_eq_inj in Heq as [_ Heq].
    apply app_inj_1 in Heq as [Ha ->]; [|by rewrite !be_bytes_length].
    by apply (be_bytes_inj 20) in Ha as ->.
  - by apply cons_eq_inj in Heq as [_ ->].
Qed.

(** C12: the intent encoding is injective up to fees.  Two well-formed requests
    have the same encoding exactly when they ask for the same execution, so a
    matching intent hash (no collision) means the journaled transaction does
    what is asked now. *)
Theorem intent_bytes_injective r r' b b' :
  request_wf r -> request_wf r' -> intent_bytes r = Ok b -> intent_bytes r' = Ok b' ->
  b = b' <-> same_execution r r'.
Proof.
  intros (Hc & Hf & Ht & Hv & Hn & Hg) (Hc' & Hf' & Ht' & Hv' & Hn' & Hg') Hb Hb'.
  unfold intent_bytes in Hb, Hb'.
  apply result_bind_ok in Hb as (u & _ & Hb). apply result_bind_ok in Hb as (c & Hcr & Hb).
  apply result_bind_ok in Hb as (f & Hfr & Hb). apply Ok_inj in Hb as <-. apply ok_or_ok in Hcr, Hfr.
  apply result_bind_ok in Hb' as (u' & _ & Hb'). apply result_bind_ok in Hb' as (c' & Hcr' & Hb').
  apply result_bind_ok in Hb' as (f' & Hfr' & Hb'). apply Ok_inj in Hb' as <-. apply ok_or_ok in Hcr', Hfr'.
  rewrite Hcr in Hc. rewrite Hfr in Hf. rewrite Hcr' in Hc'. rewrite Hfr' in Hf'.
  unfold same_execution. rewrite Hcr, Hfr, Hcr', Hfr'. split.
  - intros Heq. apply app_inj_1 in Heq as [_ Heq]; [|done].
    apply app_inj_1 in Heq as [Hchain Heq]; [|by rewrite !be_bytes_length].
    apply app_inj_1 in Heq as [Hfrom Heq]; [|by rewrite !be_bytes_length].
    apply target_inj in Heq as [Htgt Heq]; [|done..].
    apply app_inj_1 in Heq as [Hval Heq]; [|by rewrite !be_bytes_length].
    apply optional_u64_inj in Heq as [Hnonce Heq]; [|done..].
    apply optional_u64_inj in Heq as [Hgas Heq]; [|done..].
    apply be_bytes_inj in Hchain as ->; [|done..]. apply be_bytes_inj in Hfrom as ->; [|done..].
    apply be_bytes_inj in Hval; [done| |]; [destruct (rq_value r)|destruct (rq_value r')];
      simpl in *; lia.
  - intros ([= ->] & [= ->] & -> & -> & -> & -> & ->). done.
Qed.
