(* ===== verification/EvmRecovery.v ===== *)
(** * Sending and recovering EVM transactions
    (hardened/evm.rs, evm_recovery.rs, evm_retry.rs, confirmations.rs)

    Every write of the deployment goes through [send]: it is journaled before
    it is broadcast, resumed from the journal, fee-bumped at its own nonce and
    retired only on proof of failure. *)

From S2P Require Import Prelude Types Journal Chain Machine Session Funding Intent.

Definition is_evm (tx : Transaction) : bool :=
  match tx with EvmTx _ _ _ _ _ _ => true | CosmosTx _ _ _ _ _ _ => false end.

(** [matches!(attempt, Evm { sender: from, nonce: n, .. } if ..)]. *)
Definition competes (sender : Address) (nonce : Z) (attempt : Transaction) : bool :=
  match attempt with
  | EvmTx _ _ _ from n _ => (from =? sender) && (n =? nonce)
  | CosmosTx _ _ _ _ _ _ => false
  end.

(** ** Pure checks *)

Definition wrapping_add_u256 (a b : Z) : Z := (a + b) mod 2 ^ 256.

Section Checks.
Context `{EvmLib}.

(** [evm_recovery::validate_replacement]. *)
Definition validate_replacement (old new : TxEnvelope) : result () :=
  old_signer ← ok_or (recover_address old) "invalid signature";
  new_signer ← ok_or (recover_address new) "invalid signature";
  a ← intent_hash (from_transaction_with_sender old old_signer);
  b ← intent_hash (from_transaction_with_sender new new_signer);
  _ ← ensure_ok ((a =? b) && (tx_ty old =? tx_ty new)) "replacement changed execution fields";
  ensure_ok (tx_max_fee_per_gas old <? tx_max_fee_per_gas new) "replacement fee must increase".

(** [evm_retry::validate_retry_fields]. *)
Definition validate_retry_fields (old new : TxEnvelope) : result () :=
  ensure_ok
    ((tx_nonce old <? tx_nonce new) &&
     bool_decide (tx_chain_id old = tx_chain_id new) &&
     bool_decide (tx_to old = tx_to new) &&
     (tx_value old =? tx_value new) &&
     bool_decide (tx_input old = tx_input new) &&
     bool_decide (tx_access_list old = tx_access_list new) &&
     bool_decide (tx_authorization_list old = tx_authorization_list new) &&
     bool_decide (tx_blob_versioned_hashes old = tx_blob_versioned_hashes new))
    "retry must advance the nonce and preserve chain, destination, value and calldata".

(** CREATE actions whose address no other step depends on. *)
Definition create_retry_allowed (key : string) : bool :=
  bool_decide (key ∈ [
    "EvmCompatibilityCheck/deploy compatibility probe";
    "ConstAddressDeployer/ConstAddressDeployer";
    "AxelarGasService/gas implementation";
    "AxelarGasService/gas proxy"]).

(** [evm_retry::validate_action]. *)
Definition validate_action (key : string) (saved : Transaction) : result () :=
  _ ← ensure_ok (negb (String.prefix "AxelarGateway/" key))
    "gateway CREATE failure consumed a nonce pinned to the address registered on Cosmos";
  match saved with
  | CosmosTx _ _ _ _ _ _ => bail "expected EVM action"
  | EvmTx _ raw hash sender nonce _ =>
      tx ← ok_or (decode_2718 raw) "invalid signed transaction";
      signer ← ok_or (recover_address tx) "invalid signature";
      _ ← ensure_ok ((tx_hash tx =? hash) && (tx_nonce tx =? nonce) && (signer =? sender))
        "journal signed EVM transaction identity mismatch";
      match tx_to tx with
      | Some _ => Ok ()
      | None => ensure_ok (create_retry_allowed key)
          "CREATE action has no safe address-preserving recovery policy"
      end
  end.

(** The fees of a replacement request: at least double the old cap, and at
    least the node's price ([evm_recovery::bump]). *)
Definition bumped_request (old : TxEnvelope) (sender : Address) (fees : Z)
    : result TransactionRequest :=
  let r := from_transaction_with_sender old sender in
  doubled ← ok_or (checked_mul 128 (tx_max_fee_per_gas old) 2) "fee overflow";
  match tx_gas_price old with
  | Some _ =>
      Ok (mkRequest (rq_from r) (rq_to r) (Some (Z.max doubled fees)) (rq_max_fee_per_gas r)
            (rq_max_priority_fee_per_gas r) (rq_gas r) (rq_value r) (rq_input r) (rq_nonce r)
            (rq_chain_id r) (rq_access_list r) (rq_authorization_list r)
            (rq_blob_versioned_hashes r))
  | None =>
      twice ← ok_or (checked_mul 128 fees 2) "fee overflow";
      priority ← ok_or (checked_mul 128 (default 0 (tx_max_priority_fee_per_gas old)) 2)
        "fee overflow";
      Ok (mkRequest (rq_from r) (rq_to r) (rq_gas_price r) (Some (Z.max doubled twice))
            (Some (Z.max priority 1)) (rq_gas r) (rq_value r) (rq_input r) (rq_nonce r)
            (rq_chain_id r) (rq_access_list r) (rq_authorization_list r)
            (rq_blob_versioned_hashes r))
  end.
End Checks.

(** [request.from], [request.chain_id] and the saved gas override of [send]. *)
Definition prepare_request (r : TransactionRequest) (from chain : Z) (limit : option Z)
    : TransactionRequest :=
  mkRequest (Some from) (rq_to r) (rq_gas_price r) (rq_max_fee_per_gas r)
    (rq_max_priority_fee_per_gas r) (if limit is Some l then Some l else rq_gas r) (rq_value r)
    (rq_input r) (rq_nonce r) (Some chain) (rq_access_list r) (rq_authorization_list r)
    (rq_blob_versioned_hashes r).

(** ** Programs *)

Section Programs.
Context {E : Type} `{Host E, EvmNode E, EvmLib, CosmosLib}.
Abbreviation W := (World E).
Implicit Types (sc : Scope) (key : string).

(** [evm::check_budget]. *)
Definition check_budget sc (sender : Address) (cost : Z) (replacing : option string) : M W () :=
  s ← current sc;
  j ← read_journal;
  lift (check_budget_with (plan s) j sender cost replacing).

(** The node's answers on receipts and blocks, kept in the trace. *)
Definition get_receipt (hash : B256) : M W (option Receipt) :=
  call_noting (fmap (GotReceipt hash)) (eth_get_transaction_receipt hash).
Definition get_block (tag : BlockTag) : M W (option Block) :=
  call_noting (fmap (GotBlock tag)) (eth_get_block tag).

(** [evm_recovery::canonical]. *)
Definition canonical (r : Receipt) : M W bool :=
  number ← lift (ok_or (block_number r) "receipt has no block number");
  found ← get_block (TagNumber number);
  block ← lift (ok_or found "receipt block unavailable; cannot establish canonical inclusion");
  mret (bool_decide (Some (bk_hash block) = block_hash r)).

(** The body of the loop in [evm_recovery::included]. *)
Definition included_one sc (attempt : Transaction) : M W (option Receipt) :=
  match attempt with
  | CosmosTx _ _ _ _ _ _ => throw (Failed "invalid EVM attempt")
  | EvmTx _ _ hash _ _ _ =>
      saved ← confirmation sc (b256_to_string hash);
      cached ← match saved with
               | Some (EvmConfirmed receipt) =>
                   ensure (transaction_hash receipt =? hash) "cached receipt hash mismatch";;
                   ok ← canonical receipt;
                   mret (if ok : bool then Some receipt else None)
               | _ => mret None
               end;
      match cached with
      | Some receipt => mret (Some receipt)
      | None =>
          found ← get_receipt hash;
          match found with
          | Some receipt =>
              ensure (transaction_hash receipt =? hash) "receipt hash mismatch";;
              mret (Some receipt)
          | None => mret None
          end
      end
  end.

(** [evm_recovery::included]. *)
Definition included sc (attempts : list Transaction) : M W (option Receipt) :=
  first_some (included_one sc) attempts.

(** [evm_recovery::broadcast]. *)
Definition broadcast (saved : Transaction) : M W () :=
  match saved with
  | CosmosTx _ _ _ _ _ _ => throw (Failed "expected EVM transaction")
  | EvmTx _ raw hash _ _ _ =>
      known ← call (eth_knows_transaction hash);
      if known : bool then mret ()
      else
        emit (SentEvm raw);;
        pending ← map_err (Paused "broadcast unresolved; resume to reconcile")
                    (call (eth_send_raw_transaction raw));
        ensure (pending =? hash) "RPC returned a different transaction hash"
  end.

(** [evm_recovery::wait_receipt]. *)
Fixpoint wait_receipt (fuel : nat) sc (hash : B256) (receipt : Receipt) (deadline : Z)
    (policy : EvmConfirmationPolicy) : M W Receipt :=
  match fuel with
  | O => throw OutOfFuel
  | S fuel =>
      block ← lift (ok_or (block_number receipt) "receipt has no block number");
      target ← lift (Policy.required_height policy block);
      found ← get_block (Policy.block_tag policy);
      head ← lift (ok_or found "RPC does not expose confirmation blocks");
      if target <=? bk_number head then
        ok ← canonical receipt;
        ensure ok "receipt is no longer canonical; resume to resolve its transaction again";;
        confirm sc (b256_to_string (transaction_hash receipt)) (EvmConfirmed receipt);;
        mret receipt
      else
        t ← now;
        if deadline <=? t then throw (Paused "included, awaiting confirmations; resume to continue")
        else
          sleep_for 10;;
          again ← get_receipt (transaction_hash receipt);
          match again with
          | None => throw (Paused "receipt disappeared before the confirmation target; resume to reconcile")
          | Some receipt =>
              ensure (transaction_hash receipt =? hash) "receipt hash mismatch";;
              wait_receipt fuel sc hash receipt deadline policy
          end
  end.

(** [evm_recovery::wait_confirmed]. *)
Definition wait_confirmed (fuel : nat) sc (receipt : Receipt) (deadline : Z)
    (policy : EvmConfirmationPolicy) : M W Receipt :=
  receipt ← wait_receipt fuel sc (transaction_hash receipt) receipt deadline policy;
  ensure (status receipt) "recorded transaction reverted; use --retry-failed to review recovery";;
  mret receipt.

(** [evm_recovery::competing_attempts]. *)
Definition competing_attempts sc key (saved : Transaction) : M W (list Transaction) :=
  match saved with
  | CosmosTx _ _ _ _ _ _ => throw (Failed "expected EVM transaction")
  | EvmTx _ _ _ sender nonce _ =>
      l ← journal_attempts sc key saved;
      mret (List.filter (competes sender nonce) l)
  end.

(** [evm_recovery::bump]. *)
Definition bump sc key (saved : Transaction) : M W Transaction :=
  match saved with
  | CosmosTx _ _ _ _ _ _ => throw (Failed "expected EVM transaction")
  | EvmTx intent raw _ sender nonce _ =>
      old ← lift (ok_or (decode_2718 raw) "invalid signed transaction");
      signer ← lift (ok_or (signer_address (scope_key sc)) "invalid signing key");
      recovered ← lift (ok_or (recover_address old) "invalid signature");
      ensure ((signer =? sender) && (recovered =? sender) && (tx_nonce old =? nonce))
        "replacement signer/nonce mismatch";;
      fees ← call eth_gas_price;
      request ← lift (bumped_request old sender fees);
      current sc;;
      envelope ← call (fill_and_sign (scope_key sc) request);
      lift (validate_replacement old envelope);;
      let cost := tx_gas_limit envelope * tx_max_fee_per_gas envelope in
      check_budget sc sender cost (Some key);;
      balance ← call (eth_get_balance sender);
      ensure (wrapping_add_u256 cost (tx_value old) <=? balance)
        "replacement signer lacks funds for gas and value";;
      approved ← confirm_prompt "Approve this fee-only replacement?";
      if negb approved then throw (Paused "replacement declined")
      else
        let replacement := EvmTx intent (encoded_2718 envelope) (tx_hash envelope) sender nonce
                             (u256_to_string cost) in
        replace sc key replacement;;
        mret replacement
  end.

(** The inclusion loop of [evm_recovery::resume]. *)
Fixpoint poll_included (fuel : nat) sc (attempts : list Transaction) (deadline : Z)
    (policy : EvmConfirmationPolicy) : M W Receipt :=
  match fuel with
  | O => throw OutOfFuel
  | S fuel' =>
      found ← included sc attempts;
      match found with
      | Some receipt => wait_confirmed fuel sc receipt deadline policy
      | None =>
          t ← now;
          if deadline <=? t then throw (Paused "transaction still pending; resume")
          else sleep_for 5;; poll_included fuel' sc attempts deadline policy
      end
  end.

(** [evm_recovery::resume]. *)
Definition resume (fuel : nat) sc (saved : Transaction) (intent : B256) key : M W Receipt :=
  match saved with
  | CosmosTx _ _ _ _ _ _ => throw (Failed "journal transaction type mismatch")
  | EvmTx expected raw hash sender nonce _ =>
      ensure ((expected =? intent) && (keccak256 raw =? hash))
        "journal intent or signed bytes mismatch";;
      attempts ← competing_attempts sc key saved;
      wait ← (if active sc then s ← current sc; mret (evm_wait_seconds (options s))
              else mret 0);
      t ← now;
      let deadline := t + wait in
      policy ← (if active sc then j ← read_journal; mret (evm_confirmations j)
                else mret Finalized);
      found ← included sc attempts;
      match found with
      | Some receipt => wait_confirmed fuel sc receipt deadline policy
      | None =>
          count ← call (eth_get_transaction_count sender);
          ensure (count <=? nonce)
            "nonce consumed but recorded transaction unavailable; recover its receipt";;
          attempts ←
            (if active sc then
               s ← current sc;
               if bool_decide (bump_fees (options s) = Some key) then
                 replacement ← bump sc key saved;
                 mret (attempts ++ [replacement])
               else mret attempts
             else mret attempts);
          latest ← lift (ok_or (list.last attempts) "missing EVM attempt");
          broadcast latest;;
          poll_included fuel sc attempts deadline policy
      end
  end.

(** [evm_retry::validate_retry]. *)
Definition validate_retry sc key (new : TxEnvelope) : M W () :=
  current sc;;
  j ← read_journal;
  match list.last (attempts_of j key) with
  | Some (EvmTx _ raw _ sender _ _) =>
      old ← lift (ok_or (decode_2718 raw) "invalid signed transaction");
      lift (validate_retry_fields old new);;
      signer ← lift (ok_or (recover_address new) "invalid signature");
      ensure (signer =? sender) "retry signer differs from retired attempt"
  | _ => mret ()
  end.

(** [evm::send]; [required] is the process-wide [HARDENED_REQUIRED]. *)
Definition send (fuel : nat) (required : bool) sc (request : TransactionRequest) (label : string)
    : M W Receipt :=
  lift (validate_context required (active sc));;
  s ← current sc;
  signer ← lift (ok_or (signer_address (scope_key sc)) "invalid signing key");
  chain ← call eth_chain_id;
  ensure (chain =? evm_chain_id (plan s)) "EVM RPC network changed";;
  let key := action_key sc label in
  j ← read_journal;
  let request := prepare_request request signer (evm_chain_id (plan s))
                   (retry_gas_limits j !! key) in
  intent ← lift (intent_hash request);
  saved ← get_action key;
  match saved with
  | Some saved => resume fuel sc saved intent key
  | None =>
      match rq_nonce request with
      | Some nonce =>
          count ← call (eth_get_transaction_count signer);
          ensure (count =? nonce) "pinned deployment nonce was consumed; reconcile before proceeding"
      | None => mret ()
      end;;
      map_err (Failed "simulation failed") (call (eth_call request));;
      envelope ← call (fill_and_sign (scope_key sc) request);
      validate_retry sc key envelope;;
      let gas_cost := tx_gas_limit envelope * tx_max_fee_per_gas envelope in
      check_budget sc signer gas_cost None;;
      approved ← confirm_prompt "Send this transaction?";
      if negb approved then throw (Paused "Transaction declined; it was not submitted")
      else
        let saved := EvmTx intent (encoded_2718 envelope) (tx_hash envelope) signer
                       (tx_nonce envelope) (u256_to_string gas_cost) in
        record key saved;;
        resume fuel sc saved intent key
  end.

(** [evm::reconcile]. *)
Definition reconcile (fuel : nat) sc key (saved : Transaction) : M W () :=
  match saved with
  | EvmTx intent _ _ _ _ _ => resume fuel sc saved intent key;; mret ()
  | CosmosTx _ _ _ _ _ _ => mret ()
  end.

(** A later nonce of the same sender among all the journal's transactions. *)
Definition later_signed (sender : Address) (nonce : Z) (j : Journal) : bool :=
  existsb (fun tx => match tx with
                     | EvmTx _ _ _ from later _ => (from =? sender) && (nonce <? later)
                     | CosmosTx _ _ _ _ _ _ => false
                     end) (all_transactions j).

(** [evm_retry::prove_with_provider]. *)
Definition prove_with_provider (fuel : nat) sc key (saved : Transaction) : M W string :=
  lift (validate_action key saved);;
  s ← current sc;
  attempts ← competing_attempts sc key saved;
  for_each (fun attempt => lift (validate_action key attempt)) attempts;;
  match saved with
  | EvmTx _ raw _ sender nonce _ =>
      tx ← lift (ok_or (decode_2718 raw) "invalid signed transaction");
      match tx_to tx with
      | Some _ => mret ()
      | None =>
          j ← read_journal;
          ensure (negb (later_signed sender nonce j))
            "a later transaction is already signed by this CREATE deployer"
      end
  | CosmosTx _ _ _ _ _ _ => mret ()
  end;;
  found ← included sc attempts;
  receipt ← lift (ok_or found "no receipt proving failure; unknown transactions cannot be retired");
  ensure (negb (status receipt)) "successful transactions cannot be retried";;
  t ← now;
  let deadline := t + evm_wait_seconds (options s) in
  receipt ← wait_receipt fuel sc (transaction_hash receipt) receipt deadline Finalized;
  ensure (negb (status receipt)) "transaction became successful while waiting; cannot retire it";;
  mret (b256_to_string (transaction_hash receipt)).

(** [evm_retry::prove]. *)
Definition prove (fuel : nat) sc key (saved : Transaction) : M W string :=
  s ← current sc;
  chain ← call eth_chain_id;
  ensure (chain =? evm_chain_id (plan s)) "recovery RPC network mismatch";;
  prove_with_provider fuel sc key saved.
End Programs.

(** ** The programs keep the session invariant *)

Section Keeps.
Context {E : Type} `{Host E, EvmNode E, EvmLib, CosmosLib}.
Abbreviation W := (World E).
Implicit Types (sc : Scope) (key : string) (φ : Journal -> Prop).

(** The node answered this receipt for its hash, or the journal has it. *)
Definition vouched (r : Receipt) (j : Journal) (t : list event) : Prop :=
  GotReceipt (transaction_hash r) r ∈ t \/
  confirmations j !! b256_to_string (transaction_hash r) = Some (EvmConfirmed r).

(** The node answered the receipt's block hash for its block number. *)
Definition in_chain (r : Receipt) (t : list event) : Prop :=
  exists number block, block_number r = Some number /\
    GotBlock (TagNumber number) block ∈ t /\ block_hash r = Some (bk_hash block).

Lemma vouched_persistent r : persistent (vouched r).
Proof. intros j t t' Ht [?|?]; [left; by apply Ht|by right]. Qed.

Lemma vouched_backed r j t :
  vouched r j t -> in_chain r t ->
  backed (b256_to_string (transaction_hash r)) (EvmConfirmed r) j t.
Proof. intros [Hr|Hr] Hb; [left|by right]. by split. Qed.

(** A triple with a fact about the trace carried along. *)
Definition Knows (init : Journal) φ (κ : Journal -> list event -> Prop) (w : W) : Prop :=
  Has init φ w /\ κ (journal w) (trace w).

Lemma hoare_keeps {A} init φ κ (m : M W A) (Q : A -> W -> Prop) F :
  persistent κ -> steady m -> hoare (Has init φ) m (fun a w => Q a w /\ Has init φ w) F ->
  hoare (Knows init φ κ) m (fun a w => Q a w /\ Knows init φ κ w) F.
Proof.
  intros Hκ Hm Hh. eapply hoare_post; [by apply (hoare_keep κ)|].
  intros a w [[HQ Hw] Hk]. split; [done|]. by split.
Qed.

Lemma steady_canonical r : steady (canonical (E := E) r).
Proof.
  unfold canonical. apply steady_bind; [apply steady_lift|]. intros number.
  apply steady_bind; [apply steady_call_noting|]. intros found.
  apply steady_bind; [apply steady_lift|]. intros block. apply steady_ret.
Qed.

Lemma hoare_get_receipt init φ hash F `{!Tolerates init F} :
  hoare (Has init φ) (get_receipt (E := E) hash)
    (fun r w => (forall receipt, r = Some receipt -> GotReceipt hash receipt ∈ trace w) /\
       Has init φ w) F.
Proof.
  eapply hoare_post; [apply hoare_call_noting; [done|]; intros [x|] ev Hev; [by injection Hev as <-|discriminate]|].
  intros r w [Hw Hn]. split; [|done]. intros receipt ->. by apply Hn.
Qed.

Lemma hoare_get_block init φ tag F `{!Tolerates init F} :
  hoare (Has init φ) (get_block (E := E) tag)
    (fun b w => (forall block, b = Some block -> GotBlock tag block ∈ trace w) /\
       Has init φ w) F.
Proof.
  eapply hoare_post; [apply hoare_call_noting; [done|]; intros [x|] ev Hev; [by injection Hev as <-|discriminate]|].
  intros b w [Hw Hn]. split; [|done]. intros block ->. by apply Hn.
Qed.

Lemma hoare_canonical init φ r F `{!Tolerates init F} :
  hoare (Has init φ) (canonical (E := E) r)
    (fun ok w => (ok = true -> in_chain r (trace w)) /\ Has init φ w) F.
Proof.
  unfold canonical. hstep as number Hn. apply ok_or_ok in Hn.
  eapply hoare_bind; [by apply hoare_get_block|]. intros [block|]; intros w [Hb Hw]; simpl.
  2: { by apply tolerates, Hw. }
  split; [|done]. intros Heq%bool_decide_eq_true.
  exists number, block. split; [done|]. split; [by apply Hb|done].
Qed.

(** A receipt found for a list of attempts is of one of them. *)
Definition receipt_of (attempts : list Transaction) (r : Receipt) : Prop :=
  exists i raw s n g, EvmTx i raw (transaction_hash r) s n g ∈ attempts.

(** What a search leaves behind: a receipt that is vouched for, or nothing. *)
Definition finds (attempts : list Transaction) (init : Journal) φ (r : option Receipt) (w : W) : Prop :=
  match r with
  | Some r => receipt_of attempts r /\ Knows init φ (vouched r) w
  | None => Has init φ w
  end.

Lemma hoare_included_one init φ sc attempt F `{!Tolerates init F} :
  hoare (Has init φ) (included_one (E := E) sc attempt) (finds [attempt] init φ) F.
Proof.
  unfold included_one. destruct attempt as [i raw hash s n g|]; [|hthrow].
  assert (forall r, transaction_hash r = hash -> receipt_of [EvmTx i raw hash s n g] r) as Hof.
  { intros r <-. exists i, raw, s, n, g. set_solver. }
  hstep. intros saved.
  eapply (hoare_bind _ _ (finds [EvmTx i raw hash s n g] init φ)).
  - destruct saved as [[receipt|]|].
    2, 3: eapply hoare_ret_has; intros w Hw; eapply Has_weaken; [|exact Hw]; naive_solver.
    hstep as u Hh. apply Z.eqb_eq in Hh.
    eapply hoare_bind; [apply hoare_canonical; typeclasses eauto|].
    intros []. 2: { intros w [_ Hw]. eapply Has_weaken; [|exact Hw]; naive_solver. }
    intros w [_ Hw]. split; [by apply Hof|]. split; [eapply Has_weaken; [|exact Hw]; naive_solver|].
    destruct Hw as [_ [_ Hc]]. right. rewrite Hh. by apply Hc.
  - intros [receipt|]; [by intros w Hw|].
    eapply hoare_bind; [by apply hoare_get_receipt|]. intros [receipt|]; [|by intros w [_ Hw]].
    eapply hoare_bind.
    { apply hoare_ensure. intros w [_ Hw]. by apply tolerates, Hw. }
    intros [] w (Hh%Z.eqb_eq & Hr & Hw). split; [by apply Hof|]. split; [done|].
    left. rewrite Hh. by apply Hr.
Qed.

Lemma receipt_of_mono l l' r : l ⊆ l' -> receipt_of l r -> receipt_of l' r.
Proof. intros Hl (i & raw & s & n & g & Hin). exists i, raw, s, n, g. by apply Hl. Qed.

Lemma hoare_included init φ sc attempts F `{!Tolerates init F} :
  hoare (Has init φ) (included (E := E) sc attempts) (finds attempts init φ) F.
Proof.
  apply (hoare_first_some _ _ _ (fun r w => finds attempts init φ (Some r) w)).
  intros attempt Hin. eapply hoare_post.
  - apply hoare_included_one; typeclasses eauto.
  - intros [r|] w Hw; [|done]. destruct Hw as [Hr Hw]. split; [|done].
    eapply receipt_of_mono; [|done]. set_solver.
Qed.

(** The receipt was saved under its hash, if a session is active. *)
Definition saved_receipt sc (r : Receipt) (j : Journal) : Prop :=
  active sc = true ->
  confirmations j !! b256_to_string (transaction_hash r) = Some (EvmConfirmed r).

Lemma hoare_wait_receipt init φ fuel sc hash receipt deadline policy F `{!Tolerates init F} :
  confirm_stable φ -> transaction_hash receipt = hash ->
  hoare (Knows init φ (vouched receipt))
    (wait_receipt (E := E) fuel sc hash receipt deadline policy)
    (fun r w => transaction_hash r = hash /\ Has init (fun j => φ j /\ saved_receipt sc r j) w) F.
Proof.
  intros Hφ. revert receipt. induction fuel as [|fuel IH]; intros receipt Hh; [|simpl].
  { apply hoare_throw. intros w [[Hw _] _]. by apply tolerates. }
  pose proof (vouched_persistent receipt) as Hp.
  eapply hoare_bind; [apply hoare_keeps; [done|apply steady_lift|hop]|]. intros block.
  cbv beta. apply hoare_pure. intros _.
  eapply hoare_bind; [apply hoare_keeps; [done|apply steady_lift|hop]|]. intros target.
  cbv beta. apply hoare_pure. intros _.
  eapply hoare_bind; [apply hoare_keeps; [done|apply steady_call_noting|by apply hoare_get_block]|].
  intros found. cbv beta. apply (hoare_pre _ (Knows init φ (vouched receipt))); [|by intros w [_ ?]].
  eapply hoare_bind; [apply hoare_keeps; [done|apply steady_lift|hop]|]. intros head.
  cbv beta. apply hoare_pure. intros _.
  destruct (target <=? bk_number head).
  - eapply hoare_bind.
    { apply (hoare_keep (vouched receipt)); [done|apply steady_canonical|].
      apply hoare_canonical; typeclasses eauto. }
    intros ok. cbv beta. eapply hoare_bind.
    { apply hoare_ensure. intros w [[_ [Hw _]] _]. by apply tolerates. }
    intros u. apply hoare_pure. intros Hok.
    eapply hoare_bind.
    + eapply hoare_pre.
      * apply (hoare_confirm init φ (fun j => φ j /\ saved_receipt sc receipt j)); [typeclasses eauto|].
        intros j Hj. destruct (active sc) eqn:Ha.
        -- split; [by apply Hφ|]. intros _. apply lookup_insert_eq.
        -- split; [done|]. intros Habs. congruence.
      * intros w [[Hc Hw] Hv]. split; [done|]. apply vouched_backed; auto.
    + intros []. by hret.
  - apply (hoare_pre _ (Has init φ)); [|by intros w [? _]].
    hstep. intros t. destruct (deadline <=? t); [hthrow|].
    hstep. intros []. eapply hoare_bind; [by apply hoare_get_receipt|]. intros [r|].
    + eapply hoare_bind.
      { apply hoare_ensure. intros w [_ [Hw _]]. by apply tolerates. }
      intros u. apply hoare_pure. intros Hr%Z.eqb_eq.
      eapply hoare_pre; [by apply IH|]. intros w [Hg Hw]. split; [done|]. left.
      rewrite Hr, <- Hh. by apply Hg.
    + apply hoare_throw. intros w [_ [Hw _]]. by apply tolerates.
Qed.

Lemma hoare_wait_confirmed init φ fuel sc receipt deadline policy F `{!Tolerates init F} :
  confirm_stable φ ->
  hoare (Knows init φ (vouched receipt)) (wait_confirmed (E := E) fuel sc receipt deadline policy)
    (fun r w => status r = true /\ transaction_hash r = transaction_hash receipt /\
       Has init (fun j => φ j /\ saved_receipt sc r j) w) F.
Proof.
  intros Hφ. unfold wait_confirmed.
  eapply hoare_bind; [by apply hoare_wait_receipt|]. intros r.
  apply hoare_pure. intros Hh. hstep as u Hs. by hret.
Qed.

Lemma hoare_broadcast init φ key saved F `{!Tolerates init F} :
  (forall j, φ j -> saved ∈ recorded j key) ->
  hoare (Has init φ) (broadcast (E := E) saved) (fun _ => Has init φ) F.
Proof.
  intros Hrec. unfold broadcast. destruct saved as [i raw hash s n g|]; [|hthrow].
  hstep. intros []; [by hret|].
  eapply hoare_bind.
  { apply hoare_emit. intros w Hw. by apply (Has_on_record init φ w key _ Hrec) in Hw. }
  intros []. eapply hoare_bind; [apply hoare_map_err; hop|]. intros pending. simpl.
  eapply hoare_post; [hop|]. by intros u w [_ ?].
Qed.

Lemma hoare_poll_included init φ fuel sc attempts deadline policy F `{!Tolerates init F} :
  confirm_stable φ ->
  hoare (Has init φ) (poll_included (E := E) fuel sc attempts deadline policy)
    (fun r w => status r = true /\ receipt_of attempts r /\ Has init φ w) F.
Proof.
  intros Hφ. induction fuel as [|fuel IH]; [hthrow|]. cbn [poll_included].
  eapply hoare_bind; [by apply hoare_included|]. intros [receipt|].
  - apply hoare_pure. intros (i & raw & s & n & g & Hin).
    eapply hoare_post; [by apply hoare_wait_confirmed|].
    intros r w (Hs & Hh & Hw). split; [done|]. split; [by rewrite <- Hh in Hin; exists i, raw, s, n, g|].
    eapply Has_weaken; [|done]. naive_solver.
  - hstep. intros t. destruct (deadline <=? t); [hthrow|]. hstep. intros []. apply IH.
Qed.

Lemma hoare_competing init φ sc key saved F `{!Tolerates init F} :
  (forall j, φ j -> saved ∈ recorded j key) ->
  hoare (Has init φ) (competing_attempts (E := E) sc key saved)
    (fun l w => (forall a, a ∈ l -> group_of a = group_of saved) /\
       Has init (fun j => φ j /\ all_recorded key l j) w) F.
Proof.
  intros Hrec. unfold competing_attempts. destruct saved as [i raw h s n g|]; [|hthrow].
  hstep. intros l. eapply hoare_ret_has. intros w [Hw [Hφ Hl]]. split.
  - intros a Ha. apply list_elem_of_In, filter_In in Ha as [_ Hc].
    destruct a as [? ? ? s' n' ?|]; [|done]. simpl in *.
    apply andb_true_iff in Hc as [->%Z.eqb_eq ->%Z.eqb_eq]. done.
  - split; [done|]. split; [done|]. intros a Ha.
    apply list_elem_of_In, filter_In in Ha as [Ha _]. apply list_elem_of_In in Ha.
    subst l. apply elem_of_app in Ha as [Ha| ->%list_elem_of_singleton]; [|by apply Hrec].
    unfold recorded. destruct (active sc); set_solver.
Qed.

Lemma hoare_check_budget init φ sc sender cost replacing F `{!Tolerates init F} :
  hoare (Has init φ) (check_budget (E := E) sc sender cost replacing) (fun _ => Has init φ) F.
Proof.
  unfold check_budget. hstep as s Hs. hstep as j Hj.
  eapply hoare_post; [hop|]. intros u w [_ Hw]. eapply Has_weaken; [|done]. naive_solver.
Qed.

Lemma hoare_bump init sc key saved act l :
  hoare (Has init (fun j => owns key saved act j /\ all_recorded key l j))
    (bump (E := E) sc key saved)
    (fun r => Has init (fun j => frames key act j /\ all_recorded key (l ++ [r]) j)) (Safe init).
Proof.
  unfold bump. destruct saved as [i raw h sender nonce g|]; [|hthrow].
  hstep as old Hold. hstep as signer Hsigner. hstep as recovered Hrec. hstep as u Hok.
  hstep. intros fees. hstep as request Hreq. hstep as s Hs. hstep. intros envelope.
  hstep as u' Hv. eapply hoare_bind; [apply hoare_check_budget; typeclasses eauto|]. intros [].
  hstep. intros balance. hstep as u'' Hbal. hstep. intros [|]; cbn [negb]; [|hthrow].
  set (r := EvmTx i (encoded_2718 envelope) _ sender nonce _).
  apply (hoare_bind _ _ (fun _ => Has init (fun j =>
    frames key act j /\ all_recorded key (l ++ [r]) j))); [|intros u1; by hret].
  apply hoare_replace. intros j [[Ho Hf] Hl].
  exists (EvmTx i raw h sender nonce g). split; [done|]. split; [done|].
  split; [done|]. split.
  - intros k Hk. simpl. by rewrite lookup_insert_ne by done; apply Hf.
  - intros a [Ha| ->%list_elem_of_singleton]%elem_of_app.
    + rewrite recorded_replace by done. apply elem_of_app. left. by apply Hl.
    + unfold recorded. simpl. rewrite lookup_insert_eq. simpl. set_solver.
Qed.

Lemma hoare_resume init fuel sc saved intent key act :
  hoare (Has init (owns key saved act)) (resume (E := E) fuel sc saved intent key)
    (fun r w => status r = true /\ Has init (frames key act) w) (Safe init).
Proof.
  unfold resume. destruct saved as [i raw h sender nonce g|]; [|hthrow].
  set (saved := EvmTx i raw h sender nonce g). hstep as u Hok.
  eapply hoare_bind.
  { apply hoare_competing; [typeclasses eauto|]. intros j Hj. by eapply owns_recorded. }
  intros attempts. apply hoare_pure. intros Hgroup.
  set (φ := fun j => owns key saved act j /\ all_recorded key attempts j).
  assert (confirm_stable φ) as Hstable.
  { intros hh c j [[? ?] ?]. repeat split; try done. }
  eapply (hoare_bind _ _ (fun _ => Has init φ)).
  { destruct (active sc); [hstep as s Hs|]; by hret. }
  intros wait. hstep. intros t.
  eapply (hoare_bind _ _ (fun _ => Has init φ)).
  { destruct (active sc); [|by hret]. hstep as j Hj. hret.
    eapply Has_weaken; [|done]. naive_solver. }
  intros policy. eapply hoare_bind; [apply hoare_included; typeclasses eauto|].
  intros [receipt|].
  { apply hoare_pure. intros _.
    eapply hoare_post; [apply hoare_wait_confirmed; [typeclasses eauto|done]|].
    intros r w (Hs & _ & Hw). split; [done|]. eapply Has_weaken; [|done].
    by intros j [[[_ ?] _] _]. }
  hstep. intros count. hstep as u' Hcount.
  eapply (hoare_bind _ _ (fun l => Has init (fun j => frames key act j /\ all_recorded key l j))).
  { assert (hoare (Has (E := E) init φ) (mret attempts)
      (fun l => Has init (fun j => frames key act j /\ all_recorded key l j)) (Safe init)) as Hsame.
    { hret. eapply Has_weaken; [|done]. by intros j [[_ ?] ?]. }
    destruct (active sc); [|done]. hstep as s Hs. case_bool_decide; [|done].
    eapply hoare_bind; [apply hoare_bump|]. intros replacement. by hret. }
  intros l. hstep as latest Hlast. apply ok_or_ok, last_Some in Hlast as [l' ->].
  eapply hoare_bind.
  { apply (hoare_broadcast _ _ key); [typeclasses eauto|]. intros j [_ Hl]. apply Hl. set_solver. }
  intros []. eapply hoare_post; [apply hoare_poll_included; [typeclasses eauto|]|].
  - intros hh c j [Hf Hl]. split; [by apply frames_confirm_stable|by apply all_recorded_confirm_stable].
  - intros r w (Hs & _ & Hw). split; [done|]. eapply Has_weaken; [|done]. by intros j [? _].
Qed.

Lemma hoare_validate_retry init φ sc key new F `{!Tolerates init F} :
  hoare (Has init φ) (validate_retry (E := E) sc key new) (fun _ => Has init φ) F.
Proof.
  unfold validate_retry. hstep as s Hs. hstep as j Hj.
  apply (hoare_pre _ (Has init φ)); [|intros w Hw; eapply Has_weaken; [|done]; naive_solver].
  destruct (list.last (attempts_of j key)) as [[]|]; [|by hret..].
  hstep as old Hold. hstep as u Hv. hstep as signer Hsigner.
  eapply hoare_post; [hop|]. by intros u' w [_ ?].
Qed.

Lemma hoare_send init fuel required sc request label act :
  let key := action_key sc label in
  hoare (Has init (frames key act)) (send (E := E) fuel required sc request label)
    (fun r w => status r = true /\ Has init (frames key act) w) (Safe init).
Proof.
  intros key. unfold send. hstep as u Hu. hstep as s Hs. hstep as signer Hsigner.
  hstep. intros chain. hstep as u' Hchain. hstep as j0 Hj0.
  apply (hoare_pre _ (Has init (frames key act)));
    [|intros w Hw; eapply Has_weaken; [|done]; naive_solver].
  set (request' := prepare_request _ _ _ _). hstep as intent Hintent. hstep. intros [saved|].
  { apply (hoare_pre _ (Has init (owns key saved act))); [apply hoare_resume|].
    intros w Hw. eapply Has_weaken; [|done]. by intros j [? ?]. }
  apply (hoare_pre _ (Has init (frames key act)));
    [|intros w Hw; eapply Has_weaken; [|done]; naive_solver].
  eapply (hoare_bind _ _ (fun _ => Has init (frames key act))).
  { destruct (rq_nonce request') as [n|]; [|by hret]. hstep. intros count.
    eapply hoare_post; [hop|]. by intros u1 w [_ ?]. }
  intros []. eapply hoare_bind; [apply hoare_map_err; hop|]. intros []. cbv beta.
  hstep. intros envelope.
  eapply hoare_bind; [apply hoare_validate_retry; typeclasses eauto|]. intros [].
  eapply hoare_bind; [apply hoare_check_budget; typeclasses eauto|]. intros [].
  hstep. intros [|]; cbn [negb]; [|hthrow].
  set (saved := EvmTx intent _ _ _ _ _).
  eapply (hoare_bind _ _ (fun _ => Has init (owns key saved act)));
    [|intros u2; apply hoare_resume].
  apply hoare_record. intros j Hf Hnone. split; [apply lookup_insert_eq|].
  intros k Hk. simpl. by rewrite lookup_insert_ne by done; apply Hf.
Qed.

Lemma hoare_reconcile init fuel sc key saved act :
  hoare (Has init (owns key saved act)) (reconcile (E := E) fuel sc key saved)
    (fun _ => Has init (frames key act)) (Safe init).
Proof.
  unfold reconcile. destruct saved.
  - eapply hoare_bind; [apply hoare_resume|]. intros r. apply hoare_pure. intros _. by hret.
  - hret. eapply Has_weaken; [|done]. by intros j [_ ?].
Qed.

Lemma hoare_prove_with_provider init fuel sc key saved act :
  hoare (Has init (owns key saved act)) (prove_with_provider (E := E) fuel sc key saved)
    (fun _ => Has init (failure_on_record key saved)) (Safe init).
Proof.
  unfold prove_with_provider. hstep as u Hu. hstep as s Hs.
  assert (active sc = true) as Hactive.
  { apply bool_decide_eq_true. by exists s. }
  eapply hoare_bind.
  { apply hoare_competing; [typeclasses eauto|]. intros j Hj. by eapply owns_recorded. }
  intros attempts. apply hoare_pure. intros Hgroup.
  set (φ := fun j => owns key saved act j /\ all_recorded key attempts j).
  assert (confirm_stable φ) as Hstable by (intros hh c j [[? ?] ?]; by repeat split).
  eapply (hoare_bind _ _ (fun _ => Has init φ)).
  { apply hoare_for_each. intros a _. eapply hoare_post; [hop|]. by intros u' w [_ ?]. }
  intros []. eapply (hoare_bind _ _ (fun _ => Has init φ)).
  { destruct saved; [|by hret]. hstep as tx Htx. destruct (tx_to tx); [by hret|].
    hstep as j Hj. eapply hoare_post; [hop|]. intros u' w [_ Hw].
    eapply Has_weaken; [|done]. naive_solver. }
  intros []. eapply hoare_bind; [apply hoare_included; typeclasses eauto|].
  intros [receipt|]; [|hstep as r Hr; done].
  apply hoare_pure. intros (i & raw & sd & n & g & Hin). simpl.
  pose proof (vouched_persistent receipt) as Hp.
  eapply hoare_bind; [apply hoare_keeps; [done|apply steady_lift|hop]|]. intros r. cbv beta.
  apply hoare_pure. intros [= <-].
  eapply hoare_bind; [apply hoare_keeps; [done|apply steady_ensure|hop]|]. intros u'. cbv beta.
  apply hoare_pure. intros Hst.
  eapply hoare_bind; [apply (hoare_keep (vouched receipt)); [done|apply steady_now|apply hoare_now]|].
  intros t. eapply hoare_bind; [apply hoare_wait_receipt; [typeclasses eauto|done|done]|].
  intros r. apply hoare_pure. intros Hh. hstep as u'' Hst'. hret.
  eapply Has_weaken; [|done]. intros j [[[Ho _] Hall] Hsaved].
  exists (EvmTx i raw (transaction_hash receipt) sd n g), (EvmConfirmed r).
  split; [done|]. split; [by apply Hall|]. split; [by apply Hgroup|]. simpl.
  rewrite <- Hh. split; [by apply Hsaved|done].
Qed.

Lemma hoare_prove init fuel sc key saved act :
  hoare (Has init (owns key saved act)) (prove (E := E) fuel sc key saved)
    (fun _ => Has init (failure_on_record key saved)) (Safe init).
Proof.
  unfold prove. hstep as s Hs. hstep. intros chain. hstep as u Hc.
  apply hoare_prove_with_provider.
Qed.
End Keeps.
