(* ===== verification/State.v ===== *)
(** * Deployment state (src/state.rs, state/loading.rs, hardened/plan.rs)

    The ordered steps of a deployment, their outputs, the saved state with its
    selection among candidate files, and the approved plan with its checks. *)

From S2P Require Import Prelude Types Journal.

(** ** Steps *)

Inductive StepStatus : Type := Pending | Completed.

#[export] Instance StepStatus_eq_dec : EqDecision StepStatus.
Proof. solve_decision. Defined.

Record ItsAddresses : Type := mkIts {
  its_deployer_address : option Address;
  token_manager_deployer_address : option Address;
  interchain_token_address : option Address;
  interchain_token_deployer_address : option Address;
  token_manager_address : option Address;
  token_handler_address : option Address;
  interchain_token_service_impl_address : option Address;
  interchain_token_factory_impl_address : option Address
}.

#[export] Instance ItsAddresses_eq_dec : EqDecision ItsAddresses.
Proof. solve_decision. Defined.

Inductive StepKind : Type :=
  | EvmCompat
  | DeployCreate
  | DeployCreate2
  | PredictAddress
  | ConfigEdit
  | CosmosTxStep (proposal_key : string)
  | CosmosPoll (proposal_key : string)
  | CosmosQuery
  | WaitVerifierSet
  | DeployGateway (implementation_address : option Address)
  | RegisterOperators
  | DeployUpgradable (implementation_address proxy_address : option Address)
  | DeployIts (addresses : ItsAddresses)
  | TransferOwnership (contract : string) (new_owner : Address).

#[export] Instance StepKind_eq_dec : EqDecision StepKind.
Proof. solve_decision. Defined.

Record Step : Type := mkStep {
  step_name : string;
  step_status : StepStatus;
  step_kind : StepKind
}.

#[export] Instance Step_eq_dec : EqDecision Step.
Proof. solve_decision. Defined.

Definition set_status (st : StepStatus) (s : Step) : Step := mkStep (step_name s) st (step_kind s).
Definition set_kind (k : StepKind) (s : Step) : Step := mkStep (step_name s) (step_status s) k.

Definition pending_step (name : string) (kind : StepKind) : Step := mkStep name Pending kind.

Definition ownership_step (name contract : string) (new_owner : Address) : Step :=
  pending_step name (TransferOwnership contract new_owner).

Definition no_its : ItsAddresses := mkIts None None None None None None None None.

Definition deploy_its_step : Step :=
  pending_step "DeployInterchainTokenService" (DeployIts no_its).

(** The placeholder owner that [plan::steps] overwrites. *)
Definition DEFAULT_OWNER : Address := 0x49845e5d9985d8dc941462293ed38EEfF18B0eAE.

Definition default_steps : list Step :=
  [ pending_step "EvmCompatibilityCheck" EvmCompat;
    pending_step "ConstAddressDeployer" DeployCreate;
    pending_step "Create3Deployer" DeployCreate2;
    pending_step "PredictGatewayAddress" PredictAddress;
    pending_step "AddCosmWasmConfig" ConfigEdit;
    pending_step "InstantiateChainContracts" (CosmosTxStep "instantiate");
    pending_step "WaitInstantiateProposal" (CosmosPoll "instantiate");
    pending_step "SaveDeployedContracts" CosmosQuery;
    pending_step "AddRewards" (CosmosTxStep "addRewards");
    pending_step "WaitForVerifierSet" WaitVerifierSet;
    pending_step "AxelarGateway" (DeployGateway None);
    pending_step "Operators" DeployCreate2;
    pending_step "RegisterOperators" RegisterOperators;
    pending_step "AxelarGasService" (DeployUpgradable None None) ] ++
  [ ownership_step "TransferOperatorsOwnership" "Operators" DEFAULT_OWNER;
    ownership_step "TransferGatewayOwnership" "AxelarGateway" DEFAULT_OWNER;
    ownership_step "TransferGasServiceOwnership" "AxelarGasService" DEFAULT_OWNER;
    deploy_its_step;
    pending_step "RegisterItsOnHub" (CosmosTxStep "itsHubRegister");
    pending_step "WaitItsHubRegistration" (CosmosPoll "itsHubRegister") ].

(** ** Step accessors *)

Definition proposal_key (s : Step) : option string :=
  match step_kind s with
  | CosmosTxStep k | CosmosPoll k => Some k
  | _ => None
  end.

Definition set_implementation_address (addr : Address) (s : Step) : result Step :=
  match step_kind s with
  | DeployGateway _ => Ok (set_kind (DeployGateway (Some addr)) s)
  | DeployUpgradable _ p => Ok (set_kind (DeployUpgradable (Some addr) p) s)
  | _ => Err (Failed "cannot set an implementation address on this step kind")
  end.

Definition set_proxy_address (addr : Address) (s : Step) : result Step :=
  match step_kind s with
  | DeployUpgradable i _ => Ok (set_kind (DeployUpgradable i (Some addr)) s)
  | _ => Err (Failed "cannot set a proxy address on this step kind")
  end.

Definition its_slot (name : string) (a : ItsAddresses) : option Address :=
  if decide (name = "itsDeployer") then its_deployer_address a
  else if decide (name = "TokenManagerDeployer") then token_manager_deployer_address a
  else if decide (name = "InterchainToken") then interchain_token_address a
  else if decide (name = "InterchainTokenDeployer") then interchain_token_deployer_address a
  else if decide (name = "TokenManager") then token_manager_address a
  else if decide (name = "TokenHandler") then token_handler_address a
  else if decide (name = "InterchainTokenServiceImpl") then interchain_token_service_impl_address a
  else if decide (name = "InterchainTokenFactoryImpl") then interchain_token_factory_impl_address a
  else None.

(** [Step::its_address]. *)
Definition its_address (name : string) (s : Step) : option Address :=
  match step_kind s with
  | DeployIts a => its_slot name a
  | _ => None
  end.

Definition set_its_slot (name : string) (addr : Address) (a : ItsAddresses) : option ItsAddresses :=
  let '(mkIts d tmd it itd tm th si fi) := a in
  let v := Some addr in
  if decide (name = "itsDeployer") then Some (mkIts v tmd it itd tm th si fi)
  else if decide (name = "TokenManagerDeployer") then Some (mkIts d v it itd tm th si fi)
  else if decide (name = "InterchainToken") then Some (mkIts d tmd v itd tm th si fi)
  else if decide (name = "InterchainTokenDeployer") then Some (mkIts d tmd it v tm th si fi)
  else if decide (name = "TokenManager") then Some (mkIts d tmd it itd v th si fi)
  else if decide (name = "TokenHandler") then Some (mkIts d tmd it itd tm v si fi)
  else if decide (name = "InterchainTokenServiceImpl") then Some (mkIts d tmd it itd tm th v fi)
  else if decide (name = "InterchainTokenFactoryImpl") then Some (mkIts d tmd it itd tm th si v)
  else None.

(** [Step::set_its_address]. *)
Definition set_its_address (name : string) (addr : Address) (s : Step) : result Step :=
  match step_kind s with
  | DeployIts a =>
      match set_its_slot name addr a with
      | Some a => Ok (set_kind (DeployIts a) s)
      | None => Err (Failed "unknown ITS sub-deploy name")
      end
  | _ => Err (Failed "cannot set ITS address on a non-DeployIts step")
  end.

(** [Step::clear_its_helper_addresses]. *)
Definition clear_its_helper_addresses (s : Step) : result Step :=
  match step_kind s with
  | DeployIts a =>
      Ok (set_kind (DeployIts (mkIts (its_deployer_address a) None None None None None None None)) s)
  | _ => Err (Failed "cannot clear ITS helper addresses on a non-DeployIts step")
  end.

(** ** State *)

Record State : Type := mkState {
  axelar_id : string;
  rpc_url : string;
  target_json : string;
  mnemonic : string;
  hardened_plan : option Plan;
  hardened_fingerprint : option B256;
  st_env : Network;
  cosm_salt : string;
  admin_mnemonic : option string;
  rewards_funder_mnemonic : option string;
  deployer_private_key : option string;
  gateway_deployer_private_key : option string;
  gateway_deployer : option Address;
  gas_service_deployer_private_key : option string;
  its_deployer_private_key : option string;
  its_salt : option string;
  its_proxy_salt : option string;
  predicted_gateway_address : option Address;
  sender_receiver_address : option Address;
  proposals : gmap string Z;
  steps : list Step
}.

Definition set_steps (l : list Step) (s : State) : State :=
  mkState (axelar_id s) (rpc_url s) (target_json s) (mnemonic s) (hardened_plan s)
    (hardened_fingerprint s) (st_env s) (cosm_salt s) (admin_mnemonic s)
    (rewards_funder_mnemonic s) (deployer_private_key s) (gateway_deployer_private_key s)
    (gateway_deployer s) (gas_service_deployer_private_key s) (its_deployer_private_key s)
    (its_salt s) (its_proxy_salt s) (predicted_gateway_address s) (sender_receiver_address s)
    (proposals s) l.

(** The first pending step from index [i] on. *)
Fixpoint find_pending (i : nat) (l : list Step) : option (nat * Step) :=
  match l with
  | [] => None
  | s :: l => if decide (step_status s = Pending) then Some (i, s) else find_pending (S i) l
  end.

(** [next_pending_step]. *)
Definition next_pending_step (s : State) : option (nat * Step) := find_pending 0 (steps s).

(** [mark_step_completed]: [None] is the index panic. *)
Definition mark_step_completed (s : State) (idx : nat) : option State :=
  step ← steps s !! idx;
  Some (set_steps (<[idx := set_status Completed step]> (steps s)) s).

(** ** Persistence

    [save_state_at] removes the secrets from the serialized state; reading the
    file back fills the missing fields with their serde defaults.  The JSON
    text itself is not modelled: [persisted] is what a save followed by
    [read_state_at] gives. *)
Definition persisted (s : State) : State :=
  mkState (axelar_id s) (rpc_url s) (target_json s) "" (hardened_plan s)
    (hardened_fingerprint s) (st_env s) (cosm_salt s) None None None None
    (gateway_deployer s) None None (its_salt s) (its_proxy_salt s)
    (predicted_gateway_address s) (sender_receiver_address s) (proposals s) (steps s).

(** The secrets of a state, in the order the source lists the fields. *)
Definition secrets (s : State) : list string :=
  mnemonic s ::
  omap id [admin_mnemonic s; rewards_funder_mnemonic s; deployer_private_key s;
           gateway_deployer_private_key s; gas_service_deployer_private_key s;
           its_deployer_private_key s].

(** ** Choosing among candidate state files (state/loading.rs) *)

(** A candidate: its path, whether the file is named [state.json], and whether
    a [journal.json] lies beside it. *)
Record candidate : Type := mkCandidate {
  cand_path : string;
  cand_is_state_json : bool;
  cand_has_journal : bool;
  cand_state : State
}.

Definition all_pending (l : list Step) : bool :=
  forallb (fun s => bool_decide (step_status s = Pending)) l.

Definition all_completed (l : list Step) : bool :=
  forallb (fun s => bool_decide (step_status s = Completed)) l.

Definition unused_legacy (legacy current : State) : bool :=
  bool_decide (hardened_plan legacy = None) &&
  bool_decide (hardened_fingerprint legacy = None) &&
  bool_decide (st_env legacy = st_env current) &&
  bool_decide (axelar_id legacy = axelar_id current) &&
  bool_decide (target_json legacy = target_json current) &&
  bool_decide (cosm_salt legacy = cosm_salt current) &&
  bool_decide (proposals legacy = ∅) &&
  all_pending (steps legacy) &&
  bool_decide (predicted_gateway_address legacy = None) &&
  bool_decide (sender_receiver_address legacy = None).

(** The candidate is a journaled deployment that supersedes [legacy]. *)
Definition supersedes (legacy : State) (c : candidate) : bool :=
  cand_is_state_json c && cand_has_journal c &&
  bool_decide (is_Some (hardened_plan (cand_state c))) &&
  bool_decide (is_Some (hardened_fingerprint (cand_state c))) &&
  unused_legacy legacy (cand_state c).

Definition on_network (network : option Network) (c : candidate) : bool :=
  match network with
  | None => true
  | Some env => bool_decide (env = st_env (cand_state c))
  end.

(** [read_paths] once every file has been read. *)
Definition read_paths (network : option Network) (files : list candidate) : result (option State) :=
  let states := List.filter (on_network network) files in
  let kept := List.filter (fun c => negb (existsb (supersedes (cand_state c)) states)) states in
  _ ← ensure_ok (Nat.leb (length kept) 1) "multiple deployments match";
  Ok (cand_state <$> list.last kept).

(** ** Progress *)

(** Completed steps form a prefix of the list. *)
Fixpoint sequential (l : list Step) : bool :=
  match l with
  | [] => true
  | s :: l =>
      match step_status s with
      | Completed => sequential l
      | Pending => all_pending l
      end
  end.

Definition pending_count (l : list Step) : nat :=
  length (List.filter (fun s => bool_decide (step_status s = Pending)) l).

Lemma find_pending_spec l i n s :
  find_pending i l = Some (n, s) ->
  exists k, n = (i + k)%nat /\ l !! k = Some s /\ step_status s = Pending /\
    all_completed (take k l) = true.
Proof.
  revert i. induction l as [|x l IH]; intros i; simpl; [done|]. case_decide as Hx.
  - intros [= <- <-]. exists 0%nat. rewrite Nat.add_0_r. done.
  - intros (k & -> & Hk & Hs & Ht)%IH. exists (S k). split; [lia|]. split; [done|].
    split; [done|]. simpl. rewrite bool_decide_true; [done|]. by destruct (step_status x).
Qed.

Lemma find_pending_none l i : find_pending i l = None <-> all_completed l = true.
Proof.
  revert i. induction l as [|x l IH]; intros i; simpl; [done|]. case_decide as Hx.
  - rewrite Hx. split; [done|]. by rewrite bool_decide_false.
  - rewrite IH. destruct (step_status x) eqn:E; [done|]. by rewrite bool_decide_true.
Qed.

Lemma all_pending_sequential l : all_pending l = true -> sequential l = true.
Proof.
  destruct l as [|x l]; simpl; [done|]. intros [Hx Hl]%andb_true_iff.
  apply bool_decide_eq_true in Hx. by rewrite Hx.
Qed.

(** Completing the next pending step extends the completed prefix by one. *)
Lemma complete_next l k s :
  l !! k = Some s -> step_status s = Pending -> all_completed (take k l) = true ->
  (sequential l = true -> sequential (<[k := set_status Completed s]> l) = true) /\
  pending_count l = S (pending_count (<[k := set_status Completed s]> l)).
Proof.
  revert k. induction l as [|x l IH]; intros [|k]; simpl; [done..| |].
  - intros [= ->] Hs _. rewrite Hs. split; [apply all_pending_sequential|].
    unfold pending_count. simpl. rewrite Hs. done.
  - intros Hk Hs [Hx Ht]%andb_true_iff. apply bool_decide_eq_true in Hx.
    destruct (IH k Hk Hs Ht) as [Hseq Hcnt]. rewrite Hx. split; [done|].
    unfold pending_count in *. simpl. rewrite Hx. exact Hcnt.
Qed.

(** Setting one step's status leaves the rest of the state alone. *)
Lemma mark_step_completed_at s i st :
  steps s !! i = Some st ->
  mark_step_completed s i = Some (set_steps (<[i := set_status Completed st]> (steps s)) s).
Proof. intros Hi. unfold mark_step_completed. by rewrite Hi. Qed.

(** The deployment loop makes progress.  The step [next_pending_step]
    returns is pending with everything before it completed; completing it
    never panics, keeps completed steps a prefix, and leaves one step fewer to
    do.  When it returns nothing, every step is completed. *)
Theorem next_pending_progress s :
  match next_pending_step s with
  | Some (i, st) =>
      steps s !! i = Some st /\ step_status st = Pending /\
      all_completed (take i (steps s)) = true /\
      exists s', mark_step_completed s i = Some s' /\
        (sequential (steps s) = true -> sequential (steps s') = true) /\
        pending_count (steps s) = S (pending_count (steps s'))
  | None => all_completed (steps s) = true
  end.
Proof.
  unfold next_pending_step. destruct (find_pending 0 (steps s)) as [[i st]|] eqn:Hf.
  - apply find_pending_spec in Hf as (k & -> & Hk & Hs & Ht). simpl.
    destruct (complete_next _ _ _ Hk Hs Ht) as [Hseq Hcnt].
    do 3 (split; [done|]). eexists. split; [by apply mark_step_completed_at|]. done.
  - by apply find_pending_none in Hf.
Qed.

(** ** ITS sub-deploy addresses *)

Definition its_names : list string :=
  ["itsDeployer"; "TokenManagerDeployer"; "InterchainToken"; "InterchainTokenDeployer";
   "TokenManager"; "TokenHandler"; "InterchainTokenServiceImpl"; "InterchainTokenFactoryImpl"].

Lemma set_its_slot_spec name addr a :
  match set_its_slot name addr a with
  | Some a' =>
      name ∈ its_names /\
      forall other, its_slot other a' = if decide (other = name) then Some addr else its_slot other a
  | None => name ∉ its_names
  end.
Proof.
  destruct a. unfold set_its_slot.
  repeat (case_decide; [subst; split; [set_solver|]; intros other; unfold its_slot;
    repeat case_decide; simplify_eq; done|]).
  set_solver.
Qed.

(** The ITS sub-deploy addresses of a step behave as a map from the eight
    sub-deploy names.  Setting a known name on an ITS step succeeds, reads
    back, and touches no other name, the step's name or its status; an unknown
    name or another kind of step is an error. *)
Theorem set_its_address_spec name addr s :
  match set_its_address name addr s with
  | Ok s' =>
      name ∈ its_names /\ step_name s' = step_name s /\ step_status s' = step_status s /\
      forall other,
        its_address other s' = if decide (other = name) then Some addr else its_address other s
  | Err _ => name ∉ its_names \/ forall a, step_kind s <> DeployIts a
  end.
Proof.
  unfold set_its_address, its_address. destruct (step_kind s) as [| | | | | | | | | | | |a|] eqn:Hk;
    try by right.
  pose proof (set_its_slot_spec name addr a) as Hs.
  destruct (set_its_slot name addr a) as [a'|]; [|by left].
  destruct Hs as [Hin Hother]. done.
Qed.

(** Clearing the helper addresses forgets seven of the eight sub-deploys;
    the address of the ITS deployer itself is kept. *)
Theorem clear_its_helper_addresses_spec s :
  match clear_its_helper_addresses s with
  | Ok s' => forall name,
      its_address name s' =
        if decide (name = "itsDeployer") then its_address name s else None
  | Err _ => forall a, step_kind s <> DeployIts a
  end.
Proof.
  unfold clear_its_helper_addresses, its_address.
  destruct (step_kind s) as [| | | | | | | | | | | |a|] eqn:Hk; try done.
  intros name. simpl. unfold its_slot. by repeat case_decide.
Qed.

(** ** Candidate selection *)

(** A state that carries a plan, a fingerprint or any progress. *)
Definition has_history (s : State) : bool :=
  bool_decide (is_Some (hardened_plan s)) || bool_decide (is_Some (hardened_fingerprint s)) ||
  negb (all_pending (steps s)) || negb (bool_decide (proposals s = ∅)) ||
  bool_decide (is_Some (predicted_gateway_address s)) ||
  bool_decide (is_Some (sender_receiver_address s)).

Lemma has_history_kept s c : has_history s = true -> supersedes s c = false.
Proof.
  intros Hh. destruct (supersedes s c) eqn:Hs; [|done]. exfalso. revert Hh.
  unfold supersedes, unused_legacy in Hs. unfold has_history.
  repeat (apply andb_true_iff in Hs as [Hs ?]). rewrite ?andb_true_iff in *.
  destruct_and?. repeat match goal with
  | H : bool_decide _ = true |- _ => apply bool_decide_eq_true in H
  end.
  repeat match goal with H : _ = None |- _ => rewrite H; clear H end.
  match goal with H : all_pending _ = true |- _ => rewrite H end.
  match goal with H : proposals _ = ∅ |- _ => rewrite H end.
  done.
Qed.

Lemma last_elem_of {A} (l : list A) x : list.last l = Some x -> x ∈ l.
Proof. intros [l' ->]%last_Some. set_solver. Qed.

Lemma elem_of_filter_In {A} (f : A -> bool) l x : x ∈ List.filter f l <-> x ∈ l /\ f x = true.
Proof. by rewrite !list_elem_of_In, filter_In. Qed.

(** Selecting a deployment never loses one.  A selected state is one of
    the files, on the requested network; and a file on that network whose
    state has a plan, a fingerprint or any progress is the one selected, or
    the selection refuses to choose. *)
Theorem read_paths_keeps_history network files r :
  read_paths network files = Ok r ->
  (forall s, r = Some s -> exists c, c ∈ files /\ cand_state c = s /\ on_network network c = true) /\
  (forall c, c ∈ files -> on_network network c = true -> has_history (cand_state c) = true ->
     r = Some (cand_state c)).
Proof.
  unfold read_paths. set (states := List.filter (on_network network) files).
  set (kept := List.filter _ states). intros (u & Hlen & Hr)%result_bind_ok.
  apply ensure_ok_ok, Nat.leb_le in Hlen. apply Ok_inj in Hr as <-. split.
  - intros s Hs. destruct (list.last kept) as [c|] eqn:Hl; [|done].
    injection Hs as <-. apply last_elem_of, elem_of_filter_In in Hl as [Hl _].
    apply elem_of_filter_In in Hl as [Hin Hnet]. by exists c.
  - intros c Hin Hnet Hh.
    assert (c ∈ kept) as Hk.
    { apply elem_of_filter_In. split; [by apply elem_of_filter_In|].
      apply negb_true_iff, not_true_is_false. intros (c' & _ & Hs)%existsb_exists.
      by rewrite has_history_kept in Hs. }
    destruct kept as [|x [|y l]]; simpl in *; [set_solver| |lia].
    apply list_elem_of_singleton in Hk as ->. done.
Qed.
