(* ===== verification/Plan.v ===== *)
(** * The approved plan (hardened/plan.rs, runner.rs guards, deploy.rs roles)

    The public deployment settings with their validation, the check that a
    saved step list is still the approved one, and the guards and signing
    roles of the runner. *)

From S2P Require Import Prelude Types Journal State.

(** Text of account addresses and wallets: cosmrs and bip39. *)
Class CosmosAccounts : Type := {
  (** [value.parse::<cosmrs::AccountId>()], by its prefix. *)
  account_prefix : string -> option string;
  (** [derive_axelar_wallet(mnemonic)], by the address it derives. *)
  wallet_address : string -> option string;
  (** [value.parse::<alloy::primitives::Address>()]. *)
  parse_address : string -> option Address
}.

(** ** [plan.rs] *)

Definition validate_network_thresholds (p : Plan) (network : Network) : result () :=
  let expected := verifier_threshold network in
  ensure_ok (bool_decide (voting_threshold p = expected) &&
             bool_decide (signing_threshold p = expected))
    "new deployments require the network's voting and signing thresholds".

(** The owner [plan::steps] writes into an ownership step. *)
Definition owned_step (p : Plan) (s : Step) : result Step :=
  match step_kind s with
  | TransferOwnership contract _ =>
      if decide (contract = "Operators") then
        Ok (set_kind (TransferOwnership contract (operators_owner p)) s)
      else if decide (contract = "AxelarGateway") then
        Ok (set_kind (TransferOwnership contract (gateway_owner p)) s)
      else if decide (contract = "AxelarGasService") then
        Ok (set_kind (TransferOwnership contract (gas_service_owner p)) s)
      else bail "unexpected ownership step"
  | _ => Ok s
  end.

(** [plan::steps]. *)
Definition plan_steps (p : Plan) : result (list Step) :=
  foldr (fun s acc => s ← owned_step p s; l ← acc; Ok (s :: l)) (Ok []) default_steps.

Definition valid_threshold (t : Z * Z) : bool :=
  (0 <? t.1) && (t.1 <=? t.2) && (t.2 <? t.1 * 2).

Definition positive_amount (amount : string) : result () :=
  n ← ok_or (parse_uint 128 amount) "invalid amount";
  ensure_ok (0 <? n) "budgets and reward amount must be positive integers".

(** A [for] loop over a list of checks. *)
Fixpoint check_all {A} (f : A -> result ()) (l : list A) : result () :=
  match l with
  | [] => Ok ()
  | x :: l => _ ← f x; check_all f l
  end.

Lemma check_all_ok {A} (f : A -> result ()) l :
  check_all f l = Ok () <-> Forall (fun x => f x = Ok ()) l.
Proof.
  induction l as [|x l IH]; simpl; [by split|].
  rewrite list.Forall_cons, <- IH. destruct (f x) as [[]|e]; simpl; naive_solver.
Qed.

(** [plan::validate]. *)
Definition validate `{CosmosAccounts} (p : Plan) : result () :=
  _ ← ensure_ok (negb (evm_chain_id p =? 0) && negb (bool_decide (axelar_chain_id p = "")))
    "network identities required";
  admin ← ok_or (account_prefix (plan_prover_admin p)) "invalid account";
  _ ← ensure_ok (bool_decide (admin = "axelar")) "expected an Axelar prover admin address";
  _ ← check_all (fun owner => ensure_ok (negb (owner =? 0)) "zero owner/operator is not allowed")
    [gateway_owner p; operators_owner p; gas_service_owner p; its_owner p; factory_owner p;
     gateway_operator p];
  _ ← check_all (fun t => ensure_ok (valid_threshold t) "invalid threshold")
    [voting_threshold p; signing_threshold p];
  _ ← check_all positive_amount [evm_gas_budget p; cosmos_fee_budget p; reward_amount p];
  ensure_ok ((0 <? block_expiry p) && (0 <? confirmation_height p))
    "invalid confirmation/poll settings".

(** *** The serialized fields of a step

    [validate_steps] compares the JSON objects of two steps; the values are
    strings, or addresses by their (injective) text. *)

Inductive field : Type := FStr (s : string) | FAddr (a : Address).

#[export] Instance field_eq_dec : EqDecision field.
Proof. solve_decision. Defined.

(** The [kind] tag, in the enum's kebab case. *)
Definition kind_tag (k : StepKind) : string :=
  match k with
  | EvmCompat => "evm-compat"
  | DeployCreate => "deploy-create"
  | DeployCreate2 => "deploy-create2"
  | PredictAddress => "predict-address"
  | ConfigEdit => "config-edit"
  | CosmosTxStep _ => "cosmos-tx"
  | CosmosPoll _ => "cosmos-poll"
  | CosmosQuery => "cosmos-query"
  | WaitVerifierSet => "wait-verifier-set"
  | DeployGateway _ => "deploy-gateway"
  | RegisterOperators => "register-operators"
  | DeployUpgradable _ _ => "deploy-upgradable"
  | DeployIts _ => "deploy-its"
  | TransferOwnership _ _ => "transfer-ownership"
  end.

(** A field that is skipped when it is [None]. *)
Definition opt_field (name : string) (v : option Address) : list (string * field) :=
  match v with Some a => [(name, FAddr a)] | None => [] end.

Definition kind_fields (k : StepKind) : list (string * field) :=
  match k with
  | CosmosTxStep key | CosmosPoll key => [("proposalKey", FStr key)]
  | DeployGateway i => opt_field "implementationAddress" i
  | DeployUpgradable i p =>
      opt_field "implementationAddress" i ++ opt_field "proxyAddress" p
  | DeployIts a =>
      opt_field "itsDeployerAddress" (its_deployer_address a) ++
      opt_field "TokenManagerDeployerAddress" (token_manager_deployer_address a) ++
      opt_field "InterchainTokenAddress" (interchain_token_address a) ++
      opt_field "InterchainTokenDeployerAddress" (interchain_token_deployer_address a) ++
      opt_field "TokenManagerAddress" (token_manager_address a) ++
      opt_field "TokenHandlerAddress" (token_handler_address a) ++
      opt_field "InterchainTokenServiceImplAddress" (interchain_token_service_impl_address a) ++
      opt_field "InterchainTokenFactoryImplAddress" (interchain_token_factory_impl_address a)
  | TransferOwnership contract owner =>
      [("contract", FStr contract); ("newOwner", FAddr owner)]
  | _ => []
  end.

Definition status_tag (s : StepStatus) : string :=
  match s with Pending => "pending" | Completed => "completed" end.

(** [serde_json::to_value(step)]. *)
Definition step_fields (s : Step) : list (string * field) :=
  ("name", FStr (step_name s)) :: ("status", FStr (status_tag (step_status s))) ::
  ("kind", FStr (kind_tag (step_kind s))) :: kind_fields (step_kind s).

Definition get_field (name : string) (l : list (string * field)) : option field :=
  snd <$> List.find (fun kv => bool_decide (kv.1 = name)) l.

(** The inner loop of [validate_steps]. *)
Definition same_fields (expected actual : Step) : bool :=
  forallb (fun kv => bool_decide (kv.1 = "status") ||
                     bool_decide (get_field kv.1 (step_fields actual) = Some kv.2))
    (step_fields expected).

(** The outer loop of [validate_steps], over the zipped lists. *)
Fixpoint check_steps (pending : bool) (l : list (Step * Step)) : result () :=
  match l with
  | [] => Ok ()
  | (expected, actual) :: l =>
      _ ← ensure_ok (same_fields expected actual) "step definition differs from approved plan";
      match step_status actual with
      | Pending => check_steps true l
      | Completed =>
          _ ← ensure_ok (negb pending) "non-sequential deployment progress";
          check_steps pending l
      end
  end.

(** [plan::validate_steps]. *)
Definition validate_steps (s : State) : result () :=
  p ← ok_or (hardened_plan s) "missing plan";
  expected ← plan_steps p;
  _ ← ensure_ok (Nat.eqb (length expected) (length (steps s))) "deployment step list changed";
  check_steps false (zip expected (steps s)).

(** ** [runner.rs] guards *)

Definition validate_journal_presence (s : State) (journal_exists : bool) : result () :=
  ensure_ok (journal_exists ||
             (bool_decide (hardened_fingerprint s = None) && all_pending (steps s)))
    "deployment journal is missing; restore it from backup before continuing".

(** [Iterator::position]. *)
Fixpoint position {A} (f : A -> bool) (l : list A) : option nat :=
  match l with
  | [] => None
  | x :: l => if f x then Some 0%nat else S <$> position f l
  end.

Definition validate_activation (s : State) : result () :=
  checkpoint ← ok_or (position (fun st => bool_decide (step_name st = "WaitForVerifierSet")) (steps s))
    "missing verifier checkpoint";
  ensure_ok (all_completed (take checkpoint (steps s)))
    "--activate is only valid at or after the verifier checkpoint; first run without it".

(** [deploy::resolve_evm_key]. *)
Definition resolve_evm_key (s : State) (name : string) : result string :=
  if bool_decide (st_env s = Mainnet) && bool_decide
       (name ∈ ["Operators"; "RegisterOperators"; "TransferOperatorsOwnership"]) then
    ok_or (deployer_private_key s) "missing DEPLOYER_PRIVATE_KEY for mainnet Operators"
  else if bool_decide (name ∈ ["EvmCompatibilityCheck"; "ConstAddressDeployer"; "Create3Deployer"]) then
    ok_or (deployer_private_key s) "missing deployerPrivateKey"
  else if bool_decide (name = "DeployInterchainTokenService") then
    ok_or (its_deployer_private_key s) "missing itsDeployerPrivateKey"
  else if bool_decide (name ∈ ["AxelarGateway"; "Operators"; "RegisterOperators";
                               "TransferOperatorsOwnership"; "TransferGatewayOwnership"]) then
    ok_or (gateway_deployer_private_key s) "missing gatewayDeployerPrivateKey"
  else if bool_decide (name ∈ ["TransferGasServiceOwnership"; "AxelarGasService"]) then
    ok_or (gas_service_deployer_private_key s) "missing gasServiceDeployerPrivateKey"
  else bail "unknown EVM signing role".

(** Steps that sign no EVM transaction. *)
Definition unsigned_steps : list string :=
  ["AddCosmWasmConfig"; "PredictGatewayAddress"; "InstantiateChainContracts";
   "WaitInstantiateProposal"; "SaveDeployedContracts"; "AddRewards"; "RegisterItsOnHub";
   "WaitItsHubRegistration"; "WaitForVerifierSet"].

(** [runner::signer_for]. *)
Definition signer_for (s : State) (name : string) : result string :=
  if bool_decide (name ∈ unsigned_steps) then Ok "" else resolve_evm_key s name.

(** ** [evm_policy.rs] and [hardened/loading.rs] *)

Definition salt (network : Network) (name configured : string) : string :=
  if decide (network = Mainnet) then name else configured.

Definition validate_salts (s : State) : result () :=
  if decide (st_env s = Mainnet) then
    ensure_ok (bool_decide (its_salt s = Some "v2.2.0") &&
               bool_decide (its_proxy_salt s = Some "v1.0.0"))
      "mainnet requires ITS_SALT=v2.2.0 and ITS_PROXY_SALT=v1.0.0 for this release"
  else Ok ().

Definition same_deployment (a b : State) : bool :=
  bool_decide (st_env a = st_env b) && bool_decide (axelar_id a = axelar_id b) &&
  bool_decide (target_json a = target_json b) && bool_decide (rpc_url a = rpc_url b) &&
  bool_decide (cosm_salt a = cosm_salt b) && bool_decide (its_salt a = its_salt b) &&
  bool_decide (its_proxy_salt a = its_proxy_salt b).

Definition validate_supported_state (s : State) : result () :=
  ensure_ok (bool_decide (is_Some (hardened_plan s)))
    "unsupported pre-journal deployment state".

(** [runner::reload_committed_state]: the state on disk, if there is one. *)
Definition reload_committed_state (ctx : State) (on_disk : option State) : result State :=
  match on_disk with
  | None => Ok ctx
  | Some current =>
      _ ← ensure_ok (same_deployment current ctx &&
                     bool_decide (hardened_plan current = hardened_plan ctx))
        "deployment changed while acquiring its lock";
      Ok current
  end.

(** ** What the step check accepts *)

(** Two kinds that differ at most in outputs recorded by running the step:
    the first has none, so it is a kind of an approved plan. *)
Definition same_kind (expected actual : StepKind) : Prop :=
  match expected, actual with
  | DeployGateway _, DeployGateway _ | DeployUpgradable _ _, DeployUpgradable _ _
  | DeployIts _, DeployIts _ => True
  | _, _ => expected = actual
  end.

Definition no_outputs (k : StepKind) : Prop :=
  match k with
  | DeployGateway i => i = None
  | DeployUpgradable i p => i = None /\ p = None
  | DeployIts a => a = no_its
  | _ => True
  end.

(** Comparing serialized fields is comparing names and kinds up to outputs. *)
Lemma same_fields_iff expected actual :
  no_outputs (step_kind expected) ->
  same_fields expected actual = true <->
  step_name expected = step_name actual /\ same_kind (step_kind expected) (step_kind actual).
Proof.
  destruct expected as [n st k], actual as [n' st' k']. intros Hout.
  unfold same_fields. rewrite forallb_forall. unfold step_fields.
  cbn [step_name step_status step_kind]. split.
  - intros Hf.
    pose proof (Hf ("name", FStr n) ltac:(left; done)) as Hn.
    pose proof (Hf ("kind", FStr (kind_tag k)) ltac:(do 2 right; left; done)) as Hk.
    apply bool_decide_eq_true in Hn, Hk. injection Hn as Hn. injection Hk as Hk.
    split; [done|].
    destruct k, k'; try discriminate Hk; try done.
    + pose proof (Hf ("proposalKey", _) ltac:(do 3 right; left; reflexivity)) as Hx.
      apply bool_decide_eq_true in Hx. by injection Hx as ->.
    + pose proof (Hf ("proposalKey", _) ltac:(do 3 right; left; reflexivity)) as Hx.
      apply bool_decide_eq_true in Hx. by injection Hx as ->.
    + pose proof (Hf ("contract", _) ltac:(do 3 right; left; reflexivity)) as Hx.
      pose proof (Hf ("newOwner", _) ltac:(do 4 right; left; reflexivity)) as Hy.
      apply bool_decide_eq_true in Hx, Hy. injection Hx as ->. by injection Hy as ->.
  - intros [Hn Hk] [key v] Hin. subst n'.
    destruct Hin as [[= <- <-]|[[= <- <-]|[[= <- <-]|Hin]]].
    all: apply orb_true_iff.
    + right. by apply bool_decide_eq_true.
    + by left.
    + right. apply bool_decide_eq_true. cbn. f_equal. destruct k, k'; naive_solver.
    + right. apply bool_decide_eq_true.
      destruct k, k'; try done; simpl in Hk, Hout; destruct_and?; simplify_eq; simpl in Hin;
        destruct_or?; simplify_eq; done.
Qed.

Lemma default_steps_no_outputs : Forall (fun s => no_outputs (step_kind s)) default_steps.
Proof. unfold default_steps. repeat constructor. Qed.

(** The approved step list: the default one with the plan's owners. *)
Definition approved_steps (p : Plan) : list Step :=
  map (fun s => match owned_step p s with Ok s => s | Err _ => s end) default_steps.

Lemma plan_steps_ok p : plan_steps p = Ok (approved_steps p).
Proof. reflexivity. Qed.

Lemma approved_no_outputs p : Forall (fun s => no_outputs (step_kind s)) (approved_steps p).
Proof. unfold approved_steps. repeat constructor. Qed.

(** The declarative reading of [validate_steps]. *)
Definition follows_plan (p : Plan) (l : list Step) : Prop :=
  Forall2 (fun e a => step_name e = step_name a /\ same_kind (step_kind e) (step_kind a))
    (approved_steps p) l /\
  sequential l = true.

Lemma check_steps_spec expected actual pending :
  Forall (fun s => no_outputs (step_kind s)) expected -> length expected = length actual ->
  check_steps pending (zip expected actual) = Ok () <->
  Forall2 (fun e a => step_name e = step_name a /\ same_kind (step_kind e) (step_kind a))
    expected actual /\
  (if pending then all_pending actual else sequential actual) = true.
Proof.
  intros Hout. revert pending actual. induction Hout as [|e expected He Hout IH];
    intros pending [|a actual] Hlen; simpl in *; try done.
  - split; [|done]. intros _. split; [constructor|by destruct pending].
  - injection Hlen as Hlen. rewrite result_bind_ok, list.Forall2_cons.
    rewrite <- (same_fields_iff e a He).
    split.
    + intros (u & Hs%ensure_ok_ok & Hrest). destruct (step_status a) eqn:Ha.
      * apply IH in Hrest as [Hf Hp]; [|done]. simpl in Hp. rewrite Hp.
        split; [done|]. by destruct pending.
      * apply result_bind_ok in Hrest as (u' & Hp%ensure_ok_ok & Hrest).
        destruct pending; [done|]. apply IH in Hrest as [Hf Hp']; [|done]. done.
    + intros [[Hs Hf] Hp]. exists (). split; [by apply ensure_ok_ok|].
      destruct (step_status a) eqn:Ha.
      * apply IH; [done|]. split; [done|]. destruct pending; [|done].
        by apply andb_true_iff in Hp as [_ Hp].
      * destruct pending; [done|]. simpl. apply IH; done.
Qed.

Lemma validate_steps_iff s :
  validate_steps s = Ok () <-> exists p, hardened_plan s = Some p /\ follows_plan p (steps s).
Proof.
  unfold validate_steps. rewrite result_bind_ok. setoid_rewrite ok_or_ok.
  split; intros (p & Hp & Hs); exists p; (split; [done|]).
  - apply result_bind_ok in Hs as (l & Hl' & Hs). rewrite plan_steps_ok in Hl'.
    apply Ok_inj in Hl' as <-. apply result_bind_ok in Hs as (u & Hl & Hs).
    apply ensure_ok_ok, Nat.eqb_eq in Hl.
    by apply (check_steps_spec _ _ false) in Hs; [|apply approved_no_outputs|].
  - apply result_bind_ok. exists (approved_steps p). split; [apply plan_steps_ok|].
    destruct Hs as [Hf Hseq].
    pose proof (Forall2_length Hf) as Hl.
    apply result_bind_ok. exists (). split; [by apply ensure_ok_ok, Nat.eqb_eq|].
    apply (check_steps_spec _ _ false); [apply approved_no_outputs|done|done].
Qed.

(** The step check of a resumed deployment accepts exactly the approved
    steps with completed ones first.  It compares serialized fields, so the
    outputs a run records never matter, while a changed name, kind, proposal
    key or owner, a missing step, or a gap in the progress is refused. *)
Theorem validate_steps_spec s :
  validate_steps s = Ok () <->
  exists p, hardened_plan s = Some p /\
    Forall2 (fun e a => step_name e = step_name a /\ same_kind (step_kind e) (step_kind a))
      (approved_steps p) (steps s) /\
    sequential (steps s) = true.
Proof. apply validate_steps_iff. Qed.

(** *** Progress keeps the plan *)

(** The operations that record an output on a step. *)
Definition records_output (s s' : Step) : Prop :=
  (exists a, set_implementation_address a s = Ok s') \/
  (exists a, set_proxy_address a s = Ok s') \/
  (exists name a, set_its_address name a s = Ok s') \/
  clear_its_helper_addresses s = Ok s'.

(** What a run does to the steps: record outputs, complete the next step. *)
Inductive progress : State -> State -> Prop :=
  | pg_output s i st st' :
      steps s !! i = Some st -> records_output st st' ->
      progress s (set_steps (<[i := st']> (steps s)) s)
  | pg_complete s i st s' :
      next_pending_step s = Some (i, st) -> mark_step_completed s i = Some s' -> progress s s'.

Lemma records_output_keeps s s' :
  records_output s s' ->
  step_name s' = step_name s /\ step_status s' = step_status s /\
  forall e, same_kind e (step_kind s) -> same_kind e (step_kind s').
Proof.
  destruct s as [n st k]. unfold records_output, set_implementation_address, set_proxy_address,
    set_its_address, clear_its_helper_addresses. cbn [step_kind].
  intros [[a H]|[[a H]|[(name & a & H)|H]]]; destruct k; try discriminate H;
    try destruct (set_its_slot name a addresses); try discriminate H;
    apply Ok_inj in H as <-; (do 2 (split; [done|])); intros [] Hk; done.
Qed.

Lemma sequential_status l l' :
  step_status <$> l = step_status <$> l' -> sequential l = sequential l'.
Proof.
  revert l'. induction l as [|x l IH]; intros [|y l']; simpl; try done.
  intros [= Hs Hl]. rewrite Hs, (IH _ Hl). destruct (step_status y); [|done].
  clear IH Hs x y. revert l' Hl. induction l as [|x l IH]; intros [|y l']; simpl; try done.
  intros [= Hs Hl]. rewrite Hs. by rewrite (IH l').
Qed.

Lemma Forall2_insert_r' {A B} (P : A -> B -> Prop) l k i y y' :
  Forall2 P l k -> k !! i = Some y -> (forall x, P x y -> P x y') ->
  Forall2 P l (<[i := y']> k).
Proof.
  intros Hf. revert i. induction Hf as [|x z l k Hxz Hf IH]; intros [|i] Hi Hy; simpl; try done.
  - injection Hi as ->. constructor; auto.
  - constructor; [done|]. by apply IH.
Qed.

Lemma progress_keeps s s' :
  progress s s' -> validate_steps s = Ok () -> validate_steps s' = Ok ().
Proof.
  rewrite !validate_steps_iff. intros Hp (p & Hplan & Hf & Hseq). exists p. destruct Hp as
    [s i st st' Hi Hr|s i st s' Hn Hm].
  - split; [done|]. apply records_output_keeps in Hr as (Hn & Hs & Hk). split; simpl.
    + eapply Forall2_insert_r'; [done|done|]. intros e [He1 He2]. rewrite Hn. auto.
    + rewrite <- Hseq. apply sequential_status. rewrite list_fmap_insert, Hs.
      apply list_insert_id. by rewrite list_lookup_fmap, Hi.
  - unfold next_pending_step in Hn. apply find_pending_spec in Hn as (k & -> & Hk & Hs & Ht).
    simpl in *. rewrite (mark_step_completed_at _ _ _ Hk) in Hm. injection Hm as <-.
    split; [done|]. split; simpl; [|by apply (complete_next _ _ _ Hk Hs Ht)].
    eapply Forall2_insert_r'; [done|done|]. done.
Qed.

(** Nothing a run does to its steps makes the next resume refuse them:
    recording outputs and completing next steps keep the check satisfied, from
    the first state on. *)
Theorem progress_keeps_plan s s' :
  rtc progress s s' -> validate_steps s = Ok () -> validate_steps s' = Ok ().
Proof. induction 1 as [|s s1 s2 H1 H2 IH]; [done|]. intros H. by eapply IH, progress_keeps. Qed.

Lemma fresh_steps_valid s p :
  hardened_plan s = Some p -> steps s = approved_steps p -> validate_steps s = Ok ().
Proof.
  intros Hp Hs. apply validate_steps_iff. exists p. split; [done|]. rewrite Hs. split.
  - apply list.Forall_Forall2_diag, list.Forall_forall. intros e _. split; [done|].
    by destruct (step_kind e).
  - reflexivity.
Qed.

(** ** Guards *)

Lemma position_spec {A} (f : A -> bool) l n :
  position f l = Some n ->
  exists x, l !! n = Some x /\ f x = true /\ Forall (fun y => f y = false) (take n l).
Proof.
  revert n. induction l as [|x l IH]; intros n; simpl; [done|]. destruct (f x) eqn:Hx.
  - intros [= <-]. exists x. by repeat split.
  - destruct (position f l) as [m|] eqn:Hm; [|done]. intros [= <-].
    destruct (IH m eq_refl) as (y & Hy & Hfy & Hall). exists y. simpl. repeat split; try done.
    by constructor.
Qed.

(** The four keys of the EVM roles are present. *)
Definition has_role_keys (s : State) : Prop :=
  is_Some (deployer_private_key s) /\ is_Some (gateway_deployer_private_key s) /\
  is_Some (gas_service_deployer_private_key s) /\ is_Some (its_deployer_private_key s).

(** Every step of an approved plan has a signing role: once the four role
    keys are supplied, no step fails for want of a signer, and the steps that
    only act on Cosmos are given no EVM key. *)
Theorem signer_for_total s p st :
  has_role_keys s -> st ∈ approved_steps p ->
  exists key, signer_for s (step_name st) = Ok key /\
    (step_name st ∈ unsigned_steps -> key = "").
Proof.
  intros ([k1 H1] & [k2 H2] & [k3 H3] & [k4 H4]) Hin.
  unfold signer_for, resolve_evm_key. rewrite H1, H2, H3, H4.
  destruct (st_env s) eqn:He; unfold approved_steps in Hin; simpl in Hin;
    repeat (apply elem_of_cons in Hin as [->|Hin]; [cbn; eexists; split; [reflexivity|set_solver]|]);
    set_solver.
Qed.
