(* ===== verification/Config.v ===== *)
(** * Deployment configuration (hardened/environment.rs, deploy/configuration.rs,
    deploy/cosmos_signer.rs)

    Public settings and role keys from the environment.  [lookup] stands for
    the process environment, as in the source.  Text is ASCII: [trim] removes
    ASCII white space. *)

From S2P Require Import Prelude Types Journal Chain State Plan.
From Stdlib Require Ascii String.

(** ** [str::trim] *)

Definition is_space (c : Ascii.ascii) : bool :=
  let n := Ascii.N_of_ascii c in
  ((9 <=? n) && (n <=? 13) || (n =? 32))%N.

Fixpoint trim_start (s : string) : string :=
  match s with
  | String.String c r => if is_space c then trim_start r else s
  | String.EmptyString => s
  end.

Fixpoint string_rev (s acc : string) : string :=
  match s with
  | String.String c r => string_rev r (String.String c acc)
  | String.EmptyString => acc
  end.

Definition trim (s : string) : string :=
  string_rev (trim_start (string_rev (trim_start s) "")) "".

Definition blank (s : string) : bool := bool_decide (trim s = "").

(** [filter(|value| !value.trim().is_empty())]. *)
Definition non_blank (v : option string) : option string :=
  v ≫= fun s => if blank s then None else Some s.

(** ** [environment.rs] *)

Definition FIELDS : list string :=
  ["CHAIN_ID"; "AXELAR_CHAIN_ID"; "GATEWAY_OWNER"; "OPERATORS_OWNER"; "GAS_SERVICE_OWNER";
   "ITS_OWNER"; "FACTORY_OWNER"; "GATEWAY_OPERATOR"; "EVM_GAS_BUDGET"; "COSMOS_FEE_BUDGET";
   "REWARD_AMOUNT"; "BLOCK_EXPIRY"; "CONFIRMATION_HEIGHT"].

Section Environment.
Context `{CosmosAccounts}.
Variable lookup : string -> option string.

Definition derive_prover_admin : result string :=
  mnemonic ← ok_or (non_blank (lookup "MULTISIG_PROVER_MNEMONIC"))
    "missing MULTISIG_PROVER_MNEMONIC";
  ok_or (wallet_address mnemonic) "invalid MULTISIG_PROVER_MNEMONIC".

(** [values]: the fields present in the environment, trimmed. *)
Definition value_of (name : string) : option string := trim <$> lookup name.

Definition value (name : string) : string := default "" (value_of name).

(** [parse::<u64>] and [parse::<Address>] of a setting. *)
Definition parse_u64 (v : string) : result Z := ok_or (parse_uint 64 v) "invalid setting".
Definition parse_addr (v : string) : result Address := ok_or (parse_address v) "invalid setting".

(** The plan written out in the environment. *)
Definition read_plan (network : Network) (saved : option Plan) : result Plan :=
  chain ← parse_u64 (value "CHAIN_ID");
  gateway ← parse_addr (value "GATEWAY_OWNER");
  operators ← parse_addr (value "OPERATORS_OWNER");
  gas ← parse_addr (value "GAS_SERVICE_OWNER");
  its ← parse_addr (value "ITS_OWNER");
  factory ← parse_addr (value "FACTORY_OWNER");
  operator ← parse_addr (value "GATEWAY_OPERATOR");
  admin ← derive_prover_admin;
  expiry ← parse_u64 (value "BLOCK_EXPIRY");
  height ← parse_u64 (value "CONFIRMATION_HEIGHT");
  Ok (mkPlan chain (value "AXELAR_CHAIN_ID") gateway operators gas its factory operator admin
        (default [] (approved_verifiers <$> saved))
        (value "EVM_GAS_BUDGET") (value "COSMOS_FEE_BUDGET") (value "REWARD_AMOUNT")
        (default (verifier_threshold network) (voting_threshold <$> saved))
        (default (verifier_threshold network) (signing_threshold <$> saved))
        expiry height).

(** Only [CHAIN_ID] of the settings is present, if any. *)
Definition chain_id_only : bool :=
  forallb (fun name => bool_decide (name = "CHAIN_ID") || bool_decide (lookup name = None)) FIELDS.

(** [environment::load]. *)
Definition load (network : Network) (saved : option Plan) : result Plan :=
  match saved, chain_id_only with
  | Some p, true =>
      _ ← match value_of "CHAIN_ID" with
          | Some v =>
              id ← parse_u64 v;
              ensure_ok (id =? evm_chain_id p) "CHAIN_ID differs from the saved deployment"
          | None => Ok ()
          end;
      Ok p
  | _, _ =>
      _ ← ensure_ok (forallb (fun name => negb (bool_decide (value name = ""))) FIELDS)
        "missing deployment variables in .env";
      p ← read_plan network saved;
      _ ← validate p;
      _ ← match saved with
          | Some q => ensure_ok (bool_decide (p = q))
              "deployment settings in .env differ from the saved plan"
          | None => Ok ()
          end;
      Ok p
  end.
End Environment.

(** ** [cosmos_signer.rs] *)

Definition MAINNET_REWARDS_FUNDER : string := "axelar1rhhzwt6nwuzgezelv987hz602rlyz9ej6psqa9".
Definition MAINNET_PROPOSER : string := "axelar1ykl3n6xjh00nyynknr4yzxvhtwwkd5vhcwrxye".
Definition MAINNET_PROVER_ADMIN : string := "axelar1w2ey0ek9e8q2dfmeznz6ah49zdywpdme0z0kly".

(** [cosmos_signer::mnemonic]: the account that signs a Cosmos step. *)
Definition step_mnemonic (s : State) (step : string) : result string :=
  v ← (if decide (step = "AddRewards") then Ok (rewards_funder_mnemonic s)
       else if decide (step = "WaitForVerifierSet") then Ok (admin_mnemonic s)
       else if decide (step = "InstantiateChainContracts" \/ step = "RegisterItsOnHub") then
         Ok (Some (mnemonic s))
       else bail "unknown Cosmos signing role");
  ok_or (non_blank v) "missing mnemonic: explicitly supply the signer".

Section Signers.
Context `{CosmosAccounts}.

Definition validate_address (address expected : string) : result () :=
  ensure_ok (bool_decide (address = expected)) "mainnet requires another account".

(** The accounts mainnet pins, by the step whose signer they are. *)
Definition mainnet_roles : list (string * string) :=
  [("InstantiateChainContracts", MAINNET_PROPOSER);
   ("WaitForVerifierSet", MAINNET_PROVER_ADMIN);
   ("AddRewards", MAINNET_REWARDS_FUNDER)].

Definition validate_mainnet (s : State) : result () :=
  if decide (st_env s = Mainnet) then
    check_all (fun '(step, expected) =>
      m ← step_mnemonic s step;
      address ← ok_or (wallet_address m) "invalid mnemonic";
      validate_address address expected) mainnet_roles
  else Ok ().

Definition validate_rewards_funder (network : Network) (address : string) : result () :=
  if decide (network = Mainnet) then validate_address address MAINNET_REWARDS_FUNDER else Ok ().

Definition rewards_funder_address (s : State) : result string :=
  m ← step_mnemonic s "AddRewards";
  address ← ok_or (wallet_address m) "invalid REWARDS_FUNDER_MNEMONIC";
  _ ← validate_rewards_funder (st_env s) address;
  Ok address.
End Signers.

(** ** [configuration.rs] *)

Definition init_variables : list string :=
  ["CHAIN"; "CHAIN_NAME"; "CHAIN_ID"; "RPC_URL"; "TOKEN_SYMBOL"; "DECIMALS"; "MNEMONIC";
   "REWARDS_FUNDER_MNEMONIC"; "ENV"; "SALT"; "DEPLOYER_PRIVATE_KEY";
   "GATEWAY_DEPLOYER_PRIVATE_KEY"; "GAS_SERVICE_DEPLOYER_PRIVATE_KEY";
   "ITS_DEPLOYER_PRIVATE_KEY"; "ITS_SALT"; "ITS_PROXY_SALT"].

Definition validate_init_environment (lookup : string -> option string) : result () :=
  ensure_ok (forallb (fun name => bool_decide (is_Some (non_blank (lookup name)))) init_variables)
    "missing required deployment environment variables".

(** A saved value wins unless it is blank. *)
Definition fill (saved : option string) (supplied : option string) : option string :=
  match non_blank saved with Some _ => saved | None => supplied end.

Definition load_missing_environment (lookup : string -> option string) (s : State) : State :=
  mkState (axelar_id s) (rpc_url s) (target_json s)
    (if decide (mnemonic s = "") then default "" (lookup "MNEMONIC") else mnemonic s)
    (hardened_plan s) (hardened_fingerprint s) (st_env s) (cosm_salt s)
    (match non_blank (lookup "MULTISIG_PROVER_MNEMONIC") with
     | Some m => Some m | None => admin_mnemonic s end)
    (non_blank (lookup "REWARDS_FUNDER_MNEMONIC"))
    (fill (deployer_private_key s) (lookup "DEPLOYER_PRIVATE_KEY"))
    (fill (gateway_deployer_private_key s) (lookup "GATEWAY_DEPLOYER_PRIVATE_KEY"))
    (gateway_deployer s)
    (fill (gas_service_deployer_private_key s) (lookup "GAS_SERVICE_DEPLOYER_PRIVATE_KEY"))
    (fill (its_deployer_private_key s) (lookup "ITS_DEPLOYER_PRIVATE_KEY"))
    (fill (its_salt s) (lookup "ITS_SALT")) (fill (its_proxy_salt s) (lookup "ITS_PROXY_SALT"))
    (predicted_gateway_address s) (sender_receiver_address s) (proposals s) (steps s).

Definition set_gateway_deployer (a : option Address) (s : State) : State :=
  mkState (axelar_id s) (rpc_url s) (target_json s) (mnemonic s) (hardened_plan s)
    (hardened_fingerprint s) (st_env s) (cosm_salt s) (admin_mnemonic s)
    (rewards_funder_mnemonic s) (deployer_private_key s) (gateway_deployer_private_key s)
    a (gas_service_deployer_private_key s) (its_deployer_private_key s)
    (its_salt s) (its_proxy_salt s) (predicted_gateway_address s) (sender_receiver_address s)
    (proposals s) (steps s).

Section Configuration.
Context `{CosmosAccounts, EvmLib}.
(** [reqwest::Url::parse], by the scheme. *)
Variable url_scheme : string -> option string.

(** The errors a key adds to the list, and its address. *)
Definition validate_key (name : string) (key : option string) : list string * option Address :=
  match non_blank key with
  | None => ([("missing " +:+ name)%string], None)
  | Some key =>
      match signer_address key with
      | Some a => ([], Some a)
      | None => ([("invalid " +:+ name)%string], None)
      end
  end.

Definition err_if (b : bool) (msg : string) : list string := if b then [msg] else [].

Definition is_err {A} (r : result A) : bool := negb (is_ok r).

(** The errors [validate_state] collects before the mainnet check. *)
Definition config_errors (s : State) : list string :=
  err_if (negb (bool_decide (url_scheme (rpc_url s) = Some "http" \/
                             url_scheme (rpc_url s) = Some "https")))
    "RPC_URL must be an HTTP or HTTPS URL" ++
  concat (map (fun '(name, v) => err_if (bool_decide (non_blank v = None))
                                   ("missing " +:+ name)%string)
    [("MNEMONIC", Some (mnemonic s)); ("REWARDS_FUNDER_MNEMONIC", rewards_funder_mnemonic s);
     ("SALT", Some (cosm_salt s)); ("ITS_SALT", its_salt s); ("ITS_PROXY_SALT", its_proxy_salt s)]) ++
  err_if (negb (blank (mnemonic s)) && bool_decide (wallet_address (mnemonic s) = None))
    "invalid MNEMONIC" ++
  err_if (bool_decide (is_Some (non_blank (rewards_funder_mnemonic s))) &&
          is_err (rewards_funder_address s)) "invalid REWARDS_FUNDER_MNEMONIC" ++
  match admin_mnemonic s with
  | Some m => err_if (bool_decide (wallet_address m = None)) "invalid MULTISIG_PROVER_MNEMONIC"
  | None => []
  end ++
  (validate_key "DEPLOYER_PRIVATE_KEY" (deployer_private_key s)).1 ++
  (validate_key "GAS_SERVICE_DEPLOYER_PRIVATE_KEY" (gas_service_deployer_private_key s)).1 ++
  (validate_key "ITS_DEPLOYER_PRIVATE_KEY" (its_deployer_private_key s)).1 ++
  (validate_key "GATEWAY_DEPLOYER_PRIVATE_KEY" (gateway_deployer_private_key s)).1 ++
  match gateway_deployer s,
        (validate_key "GATEWAY_DEPLOYER_PRIVATE_KEY" (gateway_deployer_private_key s)).2 with
  | Some saved, Some derived => err_if (negb (saved =? derived))
      "gateway deployer key does not match the saved gatewayDeployer address"
  | _, _ => []
  end.

(** [configuration::validate_state]. *)
Definition validate_state (s : State) : result State :=
  let errors := config_errors s in
  let errors := if decide (errors = []) then
                  err_if (is_err (validate_mainnet s)) "mainnet requires another account"
                else errors in
  _ ← ensure_ok (bool_decide (errors = []))
    "deployment configuration is incomplete or invalid";
  Ok (set_gateway_deployer
        (validate_key "GATEWAY_DEPLOYER_PRIVATE_KEY" (gateway_deployer_private_key s)).2 s).
End Configuration.

(** ** Properties *)

Lemma app_nil_2 {A} (a b : list A) : a ++ b = [] -> a = [] /\ b = [].
Proof. by destruct a. Qed.

Lemma err_if_nil b msg : err_if b msg = [] <-> b = false.
Proof. by destruct b. Qed.

Lemma validate_key_nil `{EvmLib} name key :
  (validate_key name key).1 = [] ->
  exists k a, key = Some k /\ signer_address k = Some a /\ (validate_key name key).2 = Some a.
Proof.
  unfold validate_key. destruct key as [k|]; simpl; [|done].
  destruct (blank k); simpl; [done|]. destruct (signer_address k) as [a|] eqn:Ha; simpl; [|done].
  intros _. by exists k, a.
Qed.

Lemma read_plan_thresholds `{CosmosAccounts} lookup network p :
  read_plan lookup network None = Ok p ->
  voting_threshold p = verifier_threshold network /\
  signing_threshold p = verifier_threshold network.
Proof.
  unfold read_plan. intros Hp.
  repeat match type of Hp with
  | (_ ≫= _) = Ok _ => apply result_bind_ok in Hp as (? & _ & Hp)
  end.
  apply Ok_inj in Hp as <-. done.
Qed.

(** The plan of a run is the saved one or a complete new one.  A resumed
    deployment gets exactly its saved plan; a new one gets a plan that passes
    validation, carries the network's thresholds, and was written out in full:
    a partly filled environment is refused, not completed silently. *)
Theorem load_spec `{CosmosAccounts} lookup network saved p :
  load lookup network saved = Ok p ->
  match saved with
  | Some q => p = q
  | None =>
      validate p = Ok () /\ validate_network_thresholds p network = Ok () /\
      Forall (fun name => value lookup name <> "") FIELDS
  end.
Proof.
  unfold load. intros Hl. destruct saved as [q|].
  - destruct (chain_id_only lookup).
    + apply result_bind_ok in Hl as (u & _ & Hl). by apply Ok_inj in Hl.
    + apply result_bind_ok in Hl as (u & _ & Hl). apply result_bind_ok in Hl as (p' & _ & Hl).
      apply result_bind_ok in Hl as (u' & _ & Hl). apply result_bind_ok in Hl as (u'' & Heq & Hl).
      apply Ok_inj in Hl as <-. apply ensure_ok_ok, bool_decide_eq_true in Heq. done.
  - apply result_bind_ok in Hl as (u & Hall & Hl). apply result_bind_ok in Hl as (p' & Hp & Hl).
    apply result_bind_ok in Hl as ([] & Hv & Hl). apply result_bind_ok in Hl as (u'' & _ & Hl).
    apply Ok_inj in Hl as <-. split; [done|]. split.
    + apply read_plan_thresholds in Hp as [Hvt Hst]. apply ensure_ok_ok.
      rewrite Hvt, Hst. by rewrite !bool_decide_true.
    + apply ensure_ok_ok in Hall. rewrite forallb_forall in Hall.
      apply list.Forall_forall. intros name Hin%list_elem_of_In Heq.
      specialize (Hall _ Hin). by rewrite bool_decide_true in Hall.
Qed.

Lemma config_errors_keys `{CosmosAccounts, EvmLib} url_scheme s :
  config_errors url_scheme s = [] ->
  (validate_key "DEPLOYER_PRIVATE_KEY" (deployer_private_key s)).1 = [] /\
  (validate_key "GAS_SERVICE_DEPLOYER_PRIVATE_KEY" (gas_service_deployer_private_key s)).1 = [] /\
  (validate_key "ITS_DEPLOYER_PRIVATE_KEY" (its_deployer_private_key s)).1 = [] /\
  (validate_key "GATEWAY_DEPLOYER_PRIVATE_KEY" (gateway_deployer_private_key s)).1 = [] /\
  (forall saved derived, gateway_deployer s = Some saved ->
     (validate_key "GATEWAY_DEPLOYER_PRIVATE_KEY" (gateway_deployer_private_key s)).2 = Some derived ->
     saved = derived).
Proof.
  unfold config_errors. intros Hn.
  apply app_nil_2 in Hn as [_ Hn]. apply app_nil_2 in Hn as [_ Hn].
  apply app_nil_2 in Hn as [_ Hn]. apply app_nil_2 in Hn as [_ Hn].
  apply app_nil_2 in Hn as [_ Hn]. apply app_nil_2 in Hn as [H1 Hn].
  apply app_nil_2 in Hn as [H2 Hn]. apply app_nil_2 in Hn as [H3 Hn].
  apply app_nil_2 in Hn as [H4 Hn]. do 4 (split; [done|]).
  intros saved derived Hs Hd. rewrite Hs, Hd in Hn. apply err_if_nil in Hn.
  apply negb_false_iff, Z.eqb_eq in Hn. done.
Qed.

Lemma validate_mainnet_roles `{CosmosAccounts} s :
  validate_mainnet s = Ok () -> st_env s = Mainnet ->
  Forall (fun '(step, expected) =>
    exists m, step_mnemonic s step = Ok m /\ wallet_address m = Some expected) mainnet_roles.
Proof.
  unfold validate_mainnet. intros Hv Henv. rewrite decide_True in Hv by done.
  apply check_all_ok in Hv. eapply Forall_impl; [|exact Hv]. intros [step expected] Hs. simpl in Hs.
  apply result_bind_ok in Hs as (m & Hm & Hs). apply result_bind_ok in Hs as (a & Ha & Hs).
  apply ok_or_ok in Ha. apply ensure_ok_ok, bool_decide_eq_true in Hs as ->. by exists m.
Qed.

(** A run that passes configuration has every signer it needs.  The four
    EVM role keys are valid, the gateway deployer address saved for the rest
    of the run is the one its key derives and never contradicts an earlier
    one, and on mainnet the proposer, prover admin and rewards funder are the
    pinned accounts. *)
Theorem validate_state_spec `{CosmosAccounts, EvmLib} url_scheme s s' :
  validate_state url_scheme s = Ok s' ->
  has_role_keys s' /\
  (exists key a, gateway_deployer_private_key s' = Some key /\ signer_address key = Some a /\
     gateway_deployer s' = Some a /\
     (forall saved, gateway_deployer s = Some saved -> saved = a)) /\
  (st_env s' = Mainnet ->
   Forall (fun '(step, expected) =>
     exists m, step_mnemonic s' step = Ok m /\ wallet_address m = Some expected) mainnet_roles).
Proof.
  unfold validate_state. intros Hv. apply result_bind_ok in Hv as (u & He & Hv).
  apply Ok_inj in Hv as <-. apply ensure_ok_ok, bool_decide_eq_true in He.
  case_decide as Hnil; [|done]. apply err_if_nil in He.
  apply config_errors_keys in Hnil as (H1 & H2 & H3 & H4 & Hsame).
  apply validate_key_nil in H1 as (k1 & a1 & E1 & _), H2 as (k2 & a2 & E2 & _),
    H3 as (k3 & a3 & E3 & _), H4 as (k4 & a4 & E4 & Ha4 & Hv4).
  split; [|split].
  - unfold has_role_keys. simpl. rewrite E1, E2, E3, E4. eauto.
  - exists k4, a4. simpl. repeat split; try done. intros saved Hs. by eapply Hsame.
  - simpl. intros Henv. apply (validate_mainnet_roles s) in Henv; [done|].
    unfold is_err in He. by destruct (validate_mainnet s) as [[]|].
Qed.

(** Secrets live in the environment only.  A saved state reads back with
    no mnemonic and no private key, and a resume under the same environment
    restores exactly the state the previous run worked with. *)
Theorem persisted_roundtrip lookup s :
  secrets (persisted s) = [""] /\
  load_missing_environment lookup (persisted (load_missing_environment lookup (persisted s))) =
    load_missing_environment lookup (persisted s).
Proof.
  split; [done|]. unfold load_missing_environment, persisted. simpl.
  assert (forall v w, fill (fill v w) w = fill v w) as Hfill.
  { intros v w. unfold fill. destruct (non_blank v) eqn:Hv; [by rewrite Hv|].
    by destruct (non_blank w). }
  by rewrite !Hfill.
Qed.
