(* ===== verification/Cosmos.v ===== *)
(** * Sending and recovering Cosmos transactions
    (hardened/cosmos.rs, cosmos_recovery.rs, cosmos_fees.rs, cosmos_funding.rs,
    direct.rs; src/cosmos/rpc.rs and tx.rs)

    The Cosmos side of the journaled deployment: a submission is signed and
    recorded before it is broadcast, is looked up by hash on resume, and can be
    replaced by one that changes its fee only. *)

From Stdlib Require Ascii String.
From S2P Require Import Prelude Types Journal Chain Machine Session Funding State Plan Config.

(** ** Text helpers of the standard library *)

(** [str::strip_suffix]. *)
Definition strip_suffix (suffix s : string) : option string :=
  let n := (String.length s - String.length suffix)%nat in
  if Nat.leb (String.length suffix) (String.length s) &&
     String.eqb (String.substring n (String.length suffix) s) suffix
  then Some (String.substring 0 n s) else None.

(** [hex::encode]. *)
Definition hex_digit (n : Z) : Ascii.ascii :=
  Ascii.ascii_of_N (Z.to_N (if n <? 10 then 48 + n else 87 + n)).

Fixpoint hex_encode (b : bytes) : string :=
  match b with
  | [] => ""
  | x :: b => String.String (hex_digit (x / 16)) (String.String (hex_digit (x mod 16)) (hex_encode b))
  end.

(** ** Pure parts *)

(** A gas price as the code uses the [f64]: whether it is finite and positive,
    and [(gas as f64 * price).ceil() as u128]. *)
Record GasPrice : Type := mkGasPrice {
  gp_valid : bool;
  gp_fee : Z -> Z
}.

Record CosmosTxSignInput : Type := mkSignInput {
  in_chain_id : string;
  in_account_number : Z;
  in_sequence : Z;
  in_gas_limit : Z;
  in_fee_amount : Z;
  in_fee_denom : string;
  in_messages : list Any
}.

Section Pure.
Context `{CosmosLib}.

(** [tx::build_and_sign_cosmos_tx]. *)
Definition build_and_sign_cosmos_tx (key : SigningKey) (i : CosmosTxSignInput) : result bytes :=
  _ ← ensure_ok (valid_denom (in_fee_denom i)) "invalid denom";
  _ ← ensure_ok (valid_chain_id (in_chain_id i)) "invalid chain id";
  any ← ok_or (key_any key) "sign doc error";
  let body := encode_body (in_messages i) in
  let fee := mkFee [mkCoin (in_fee_denom i) (to_dec (in_fee_amount i))] (in_gas_limit i) "" "" in
  let auth := encode_auth_info
    (mkAuthInfo [mkSignerInfo (Some any) mode_direct (in_sequence i)] (Some fee) None) in
  signature ← ok_or (sign_bytes key (encode_sign_doc
    (mkSignDoc body auth (in_chain_id i) (in_account_number i)))) "signing error";
  Ok (encode_tx_raw (mkTxRaw body auth [signature])).

(** [cosmos::unsigned_simulation]. *)
Definition unsigned_simulation (raw : bytes) : result bytes :=
  tx ← ok_or (decode_tx_raw raw) "invalid transaction";
  Ok (encode_tx_raw (mkTxRaw (body_bytes tx) (auth_info_bytes tx)
        (map (fun sig => map (fun _ => 0) sig) (signatures tx)))).

(** [cosmos_recovery::validate_sequence]. *)
Definition validate_sequence (raw : bytes) (expected : Z) : result () :=
  tx ← ok_or (decode_tx_raw raw) "invalid transaction";
  auth ← ok_or (decode_auth_info (auth_info_bytes tx)) "invalid auth info";
  ensure_ok (match signer_infos auth with
             | [info] => si_sequence info =? expected
             | _ => false
             end) "recorded Cosmos sequence differs from signed bytes".

(** [cosmos_recovery::checked]. *)
Definition checked_response (response : TxResponse) : result TxResponse :=
  _ ← ensure_ok (bool_decide (code response = Some 0)) "recorded Cosmos transaction failed";
  Ok response.

(** [cosmos::preview]. *)
Definition preview (m : Any) : result () :=
  if bool_decide (type_url m = "/cosmos.gov.v1.MsgSubmitProposal" \/
                  type_url m = "/cosmwasm.wasm.v1.MsgExecuteContract") then
    ensure_ok (previewable m) "invalid message"
  else bail "unsupported deployment message".

Definition is_proposal (m : Any) : bool :=
  bool_decide (type_url m = "/cosmos.gov.v1.MsgSubmitProposal").

(** [direct::validate_authority]. *)
Definition validate_authority (signer governor : string) : result () :=
  ensure_ok (bool_decide (signer = governor))
    "devnet direct execution requires MNEMONIC for the on-chain governance authority".

(** [direct::validate_submission]. *)
Definition validate_submission (saved : Transaction) : result () :=
  match saved with
  | EvmTx _ _ _ _ _ _ => bail "expected Cosmos transaction"
  | CosmosTx _ raw _ _ _ _ =>
      tx ← ok_or (decode_tx_raw raw) "invalid transaction";
      messages ← ok_or (decode_body (body_bytes tx)) "invalid body";
      ensure_ok (negb (bool_decide (messages = [])) &&
                 forallb (fun m => bool_decide
                   (type_url m = "/cosmwasm.wasm.v1.MsgExecuteContract")) messages)
        "this devnet journal contains governance submissions"
  end.

(** [cosmos_fees::resign]. *)
Definition resign (saved : Transaction) (signer : SigningKey) (chain : string)
    (account amount : Z) : result Transaction :=
  match saved with
  | EvmTx _ _ _ _ _ _ => bail "expected Cosmos action"
  | CosmosTx intent raw hash sender old_fee sequence =>
      _ ← ensure_ok (bool_decide (cosmos_tx_hash raw = hash)) "signed bytes mismatch";
      tx ← ok_or (decode_tx_raw raw) "invalid transaction";
      auth ← ok_or (decode_auth_info (auth_info_bytes tx)) "invalid auth info";
      _ ← validate_sequence raw sequence;
      id ← ok_or (key_account signer) "invalid signer";
      any ← ok_or (key_any signer) "invalid public key";
      _ ← ensure_ok (bool_decide (id = sender) &&
                     bool_decide (si_public_key <$> head (signer_infos auth) = Some (Some any)) &&
                     Nat.eqb (length (signatures tx)) 1)
        "Cosmos replacement signer mismatch";
      let doc := mkSignDoc (body_bytes tx) (auth_info_bytes tx) chain account in
      _ ← ensure_ok (verify_bytes signer (encode_sign_doc doc) (default [] (head (signatures tx))))
        "original Cosmos signature does not match chain, account number or signer";
      _ ← ensure_ok (bool_decide (encode_auth_info auth = auth_info_bytes tx))
        "unsupported noncanonical Cosmos auth info";
      fee ← ok_or (auth_fee auth) "missing fee";
      denom ← match fee_amount fee with
              | [coin] =>
                  _ ← ensure_ok (bool_decide (coin_amount coin = old_fee))
                    "replacement must increase the original single-denomination fee";
                  old ← ok_or (parse_uint 128 old_fee) "invalid fee";
                  _ ← ensure_ok (old <? amount)
                    "replacement must increase the original single-denomination fee";
                  Ok (coin_denom coin)
              | _ => bail "replacement must increase the original single-denomination fee"
              end;
      let fee' := mkFee [mkCoin denom (to_dec amount)] (fee_gas_limit fee) (fee_payer fee)
                    (fee_granter fee) in
      let auth' := encode_auth_info (mkAuthInfo (signer_infos auth) (Some fee') (auth_tip auth)) in
      signature ← ok_or (sign_bytes signer (encode_sign_doc
        (mkSignDoc (body_bytes tx) auth' chain account))) "replacement signing failed";
      let raw' := encode_tx_raw (mkTxRaw (body_bytes tx) auth' [signature]) in
      Ok (CosmosTx intent raw' (cosmos_tx_hash raw') sender (to_dec amount) sequence)
  end.

(** [events::extract_proposal_id]: [None] once no event matches. *)
Fixpoint proposal_attr (attrs : list (option string * option string)) : option (result Z) :=
  match attrs with
  | [] => None
  | (k, v) :: attrs =>
      if decide (k = Some "proposal_id") then
        Some (ok_or (parse_uint 64 (default "0" v)) "invalid proposal id")
      else proposal_attr attrs
  end.

Fixpoint proposal_in (events : list (string * list (option string * option string))) : result Z :=
  match events with
  | [] => bail "proposal_id not found in tx events"
  | (ty, attrs) :: events =>
      if decide (ty = "submit_proposal" \/ ty = "proposal_submitted") then
        match proposal_attr attrs with
        | Some r => r
        | None => proposal_in events
        end
      else proposal_in events
  end.

Definition extract_proposal_id (response : TxResponse) : result Z :=
  events ← ok_or (tx_events response) "no events in tx response";
  proposal_in events.
End Pure.

(** ** Programs *)

Section Programs.
Context {E : Type} `{Host E, LcdNode E, EvmLib, CosmosLib, CosmosAccounts}.
Abbreviation W := (World E).
Implicit Types (sc : Scope) (key lcd : string).

Definition lcd_query_account lcd (address : string) : M W (Z * Z) :=
  found ← call (lcd_get_account lcd address);
  lift (ok_or found "no account in response").

(** [rpc::lcd_broadcast_tx]. *)
Definition lcd_broadcast_tx lcd (raw : bytes) : M W () :=
  emit (SentCosmos raw);;
  answer ← call (lcd_post_tx lcd raw);
  result ← lift (ok_or answer "broadcast response missing tx_response.code");
  ensure (result =? 0) "broadcast failed".

(** [rpc::lcd_simulate_tx]. *)
Definition lcd_simulate_tx lcd (raw : bytes) : M W Z :=
  emit (Simulated raw);;
  answer ← call (lcd_post_simulate lcd raw);
  ensure (bool_decide (default "" answer.1 = "")) "simulation failed";;
  text ← lift (ok_or answer.2 "simulation response missing gas_info");
  gas ← lift (ok_or (parse_uint 64 text) "invalid gas_info.gas_used");
  ensure (negb (gas =? 0)) "simulation returned 0 gas";;
  mret gas.

(** [rpc::check_axelar_balance]. *)
Definition check_axelar_balance lcd (address denom : string) (min_amount : Z) : M W () :=
  account ← call (lcd_get_account lcd address);
  balance ← match account with
            | Some _ => call (lcd_get_balance lcd address denom)
            | None => mret 0
            end;
  ensure (bool_decide (is_Some account) && (min_amount <=? balance)) "axelar wallet underfunded".

(** The LCD's answer on a transaction, kept in the trace. *)
Definition get_tx lcd (hash : string) : M W (Z * option TxResponse) :=
  call_noting (fun answer => GotTx lcd hash answer.1 <$> answer.2) (lcd_get_tx lcd hash).

(** [cosmos_recovery::lookup]. *)
Definition lookup_tx lcd (hash : string) : M W (option TxResponse) :=
  answer ← get_tx lcd hash;
  if answer.1 =? 404 then mret None
  else
    ensure ((200 <=? answer.1) && (answer.1 <? 300)) "cannot establish Cosmos transaction status";;
    response ← lift (ok_or answer.2 "invalid response");
    mret (Some response).

(** [cosmos_recovery::record]. *)
Definition record_response sc (hash : string) (response : TxResponse) : M W TxResponse :=
  ensure (match txhash response with
          | Some actual => eq_ignore_ascii_case actual hash
          | None => false
          end) "Cosmos receipt hash mismatch";;
  text ← lift (ok_or (height response) "missing confirmed Cosmos height");
  included_at ← lift (ok_or (parse_uint 64 text) "invalid height");
  ensure (0 <? included_at) "Cosmos transaction is not included";;
  raw_code ← lift (ok_or (code response) "missing Cosmos result code");
  tx_code ← lift (ok_or (checked 32 raw_code) "invalid code");
  confirm sc hash (CosmosConfirmed included_at tx_code response);;
  lift (checked_response response).

(** [cosmos_recovery::recovery_lcd]. *)
Definition archive_lcd sc : M W (option string) :=
  if active sc then
    s ← current sc;
    match recovery_lcd (options s) with
    | None => mret None
    | Some lcd =>
        network ← call (lcd_node_network lcd);
        ensure (bool_decide (network = Some (axelar_chain_id (plan s))))
          "recovery LCD is on a different network";;
        mret (Some lcd)
    end
  else mret None.

(** The first loop of [confirmed]: a saved confirmation of a competing
    attempt, or the hashes still to look up. *)
Fixpoint scan_attempts sc (sender : string) (sequence : Z) (attempts : list Transaction)
    (pending : list string) : M W (TxResponse + list string) :=
  match attempts with
  | [] => mret (inr pending)
  | CosmosTx _ raw hash from _ seq :: attempts =>
      if bool_decide (from = sender) && (seq =? sequence) then
        ensure (bool_decide (cosmos_tx_hash raw = hash)) "Cosmos signed bytes do not match hash";;
        saved ← confirmation sc hash;
        match saved with
        | Some (CosmosConfirmed _ _ response) =>
            response ← lift (checked_response response);
            mret (inl response)
        | _ => scan_attempts sc sender sequence attempts (pending ++ [hash])
        end
      else scan_attempts sc sender sequence attempts pending
  | EvmTx _ _ _ _ _ _ :: attempts => scan_attempts sc sender sequence attempts pending
  end.

Definition lookup_one sc lcd (hash : string) : M W (option TxResponse) :=
  found ← lookup_tx lcd hash;
  match found with
  | Some response => response ← record_response sc hash response; mret (Some response)
  | None => mret None
  end.

(** [cosmos_recovery::confirmed]. *)
Definition confirmed sc lcd (saved : Transaction) key : M W (option TxResponse) :=
  match saved with
  | EvmTx _ _ _ _ _ _ => throw (Failed "expected Cosmos action")
  | CosmosTx _ _ _ sender _ sequence =>
      attempts ← journal_attempts sc key saved;
      scanned ← scan_attempts sc sender sequence attempts [];
      match scanned with
      | inl response => mret (Some response)
      | inr pending =>
          found ← first_some (lookup_one sc lcd) pending;
          match found with
          | Some response => mret (Some response)
          | None =>
              archive ← archive_lcd sc;
              match archive with
              | Some archive => first_some (lookup_one sc archive) pending
              | None => mret None
              end
          end
      end
  end.

(** The confirmation loop of [cosmos_recovery::resume]. *)
Fixpoint poll_confirmed (polls : nat) sc lcd (saved : Transaction) key : M W TxResponse :=
  match polls with
  | O => throw (Paused "Waiting for confirmation of the Cosmos transaction")
  | S polls =>
      found ← confirmed sc lcd saved key;
      match found with
      | Some response => mret response
      | None => sleep_for 2;; poll_confirmed polls sc lcd saved key
      end
  end.

(** [cosmos_recovery::resume]. *)
Definition cosmos_resume sc lcd (saved : Transaction) key : M W TxResponse :=
  found ← confirmed sc lcd saved key;
  match found with
  | Some response => mret response
  | None =>
      match saved with
      | EvmTx _ _ _ _ _ _ => throw (Failed "expected Cosmos transaction")
      | CosmosTx _ raw _ sender _ sequence =>
          lift (validate_sequence raw sequence);;
          account ← lcd_query_account lcd sender;
          ensure (account.2 =? sequence)
            "Cosmos transaction is missing and the account sequence differs; no transaction was resent";;
          map_err (Paused "recorded Cosmos transaction is unresolved") (lcd_broadcast_tx lcd raw);;
          poll_confirmed 10 sc lcd saved key
      end
  end.

(** [cosmos_funding::check_fee_budget]. *)
Definition check_fee_budget sc (sender : string) (sequence fee : Z) : M W () :=
  s ← current sc;
  j ← read_journal;
  lift (check_fee_budget_with (plan s) j sender sequence fee).

(** [cosmos_funding::approve]. *)
Definition approve lcd (denom address : string) (messages : list Any) (fee : Z) : M W bool :=
  pays ← lift (required messages denom);
  amount ← lift (ok_or (checked_add 128 pays fee) "submission funding overflow");
  ensure (bool_decide (is_Some (account_prefix address)) && valid_denom denom) "invalid account";;
  check_axelar_balance lcd address denom amount;;
  (if existsb is_proposal messages then call (lcd_voting_period lcd);; mret () else mret ());;
  lift (check_all preview messages);;
  confirm_prompt (if existsb is_proposal messages
                  then "Approve this title, description, and payload and submit the governance proposal?"
                  else "Submit this transaction?").

(** [recovery::validate_cosmos_retry]. *)
Definition validate_cosmos_retry sc key (intent : B256) (sequence : Z) : M W () :=
  current sc;;
  j ← read_journal;
  match list.last (attempts_of j key) with
  | Some (CosmosTx expected _ _ _ _ previous) =>
      ensure (intent =? expected) "retried Cosmos execution differs from the retired attempt";;
      ensure (previous <? sequence) "retired Cosmos transaction did not consume its sequence"
  | _ => mret ()
  end.

(** The intent of a submission. *)
Definition cosmos_intent (address chain_id denom : string) (messages : list Any) : B256 :=
  keccak256 (intent_json address chain_id denom
    (map (fun m => (type_url m, hex_encode (any_value m))) messages)).

(** [cosmos::send]. *)
Definition cosmos_send sc (signing_key : SigningKey) (address : string) lcd
    (chain_id fee_denom : string) (gas_price : GasPrice) (messages : list Any) : M W TxResponse :=
  ensure (gp_valid gas_price) "invalid gas price";;
  s ← current sc;
  ensure (bool_decide (chain_id = axelar_chain_id (plan s))) "Axelar network mismatch";;
  let intent := cosmos_intent address chain_id fee_denom messages in
  let key := action_key sc "cosmos" in
  found ← get_action key;
  match found with
  | Some (EvmTx _ _ _ _ _ _) => throw (Failed "wrong journal transaction type")
  | Some (CosmosTx expected a b c d e as saved) =>
      ensure (expected =? intent) "Cosmos transaction intent changed; refusing replacement";;
      cosmos_resume sc lcd saved key
  | None =>
      account ← lcd_query_account lcd address;
      let '(account_number, sequence) := account in
      validate_cosmos_retry sc key intent sequence;;
      simulation ← lift (build_and_sign_cosmos_tx signing_key
        (mkSignInput chain_id account_number sequence 10000000 0 fee_denom messages));
      unsigned ← lift (unsigned_simulation simulation);
      used ← lcd_simulate_tx lcd unsigned;
      gas_limit ← lift (ok_or (checked_mul 64 used 3) "gas overflow");
      let fee := gp_fee gas_price gas_limit in
      check_fee_budget sc address sequence fee;;
      approved ← approve lcd fee_denom address messages fee;
      if negb approved then throw (Paused "Transaction declined; it was not submitted")
      else
        raw ← lift (build_and_sign_cosmos_tx signing_key
          (mkSignInput chain_id account_number sequence gas_limit fee fee_denom messages));
        let saved := CosmosTx intent raw (cosmos_tx_hash raw) address (to_dec fee) sequence in
        record key saved;;
        cosmos_resume sc lcd saved key
  end.

(** [cosmos_fees::bump]; [st] is the deployment state. *)
Definition cosmos_bump sc (st : State) lcd key (saved : Transaction) : M W () :=
  found ← confirmed sc lcd saved key;
  match found with
  | Some _ => mret ()
  | None =>
      match saved with
      | EvmTx _ _ _ _ _ _ => throw (Failed "expected Cosmos action")
      | CosmosTx _ _ _ sender _ sequence =>
          account ← lcd_query_account lcd sender;
          ensure (account.2 =? sequence) "sequence consumed or unavailable";;
          step ← lift (ok_or (strip_suffix "/cosmos" key) "invalid Cosmos action key");
          signing_key ← lift (step_mnemonic st step);
          lift (ok_or (wallet_address signing_key) "invalid mnemonic");;
          s ← current sc;
          amount ← lift (ok_or (cosmos_fee (options s)) "supply --cosmos-fee in total base units");
          replacement ← lift (resign saved signing_key (axelar_chain_id (plan s)) account.1 amount);
          tx ← lift (ok_or (decode_tx_raw (raw_of replacement)) "invalid transaction");
          auth ← lift (ok_or (decode_auth_info (auth_info_bytes tx)) "invalid auth info");
          fee ← lift (ok_or (auth_fee auth) "missing fee");
          coin ← lift (ok_or (head (fee_amount fee)) "missing fee");
          messages ← lift (ok_or (decode_body (body_bytes tx)) "invalid body");
          check_fee_budget sc sender sequence amount;;
          pays ← lift (required messages (coin_denom coin));
          total ← lift (ok_or (checked_add 128 pays amount) "funding overflow");
          ensure (bool_decide (is_Some (account_prefix sender)) && valid_denom (coin_denom coin))
            "invalid account";;
          check_axelar_balance lcd sender (coin_denom coin) total;;
          lift (check_all preview messages);;
          approved ← confirm_prompt "Approve this same-sequence, fee-only replacement?";
          if negb approved then throw (Paused "Cosmos fee replacement declined")
          else
            replace sc key replacement;;
            cosmos_resume sc lcd replacement key;;
            mret ()
      end
  end.

(** [cosmos::reconcile]. *)
Definition cosmos_reconcile sc (st : State) lcd key (saved : Transaction) : M W () :=
  match saved with
  | EvmTx _ _ _ _ _ _ => mret ()
  | CosmosTx _ _ _ _ _ _ =>
      s ← current sc;
      if bool_decide (bump_fees (options s) = Some key) then cosmos_bump sc st lcd key saved
      else cosmos_resume sc lcd saved key;; mret ()
  end.
End Programs.

(** ** The programs keep the session invariant *)

Lemma unsigned_simulation_unsigned `{CosmosLib} raw raw' :
  unsigned_simulation raw = Ok raw' -> unsigned raw'.
Proof.
  unfold unsigned_simulation. intros (tx & _ & Ht)%result_bind_ok. apply Ok_inj in Ht as <-.
  eexists. split; [done|]. simpl. apply list.Forall_forall. intros sig Hsig%list_elem_of_fmap.
  destruct Hsig as (sig' & -> & _). apply list.Forall_forall. intros b Hb%list_elem_of_fmap.
  by destruct Hb as (? & -> & _).
Qed.

Section Keeps.
Context {E : Type} `{Host E, LcdNode E, EvmLib, CosmosLib, CosmosAccounts}.
Abbreviation W := (World E).
Implicit Types (sc : Scope) (key lcd : string) (φ : Journal -> Prop).

Lemma hoare_lcd_query_account init φ lcd a F `{!Tolerates init F} :
  hoare (Has init φ) (lcd_query_account (E := E) lcd a) (fun _ => Has init φ) F.
Proof.
  unfold lcd_query_account. hstep. intros found.
  eapply hoare_post; [hop|]. by intros r w [_ ?].
Qed.

Lemma hoare_lcd_broadcast init φ lcd key saved F `{!Tolerates init F} :
  (forall j, φ j -> saved ∈ recorded j key) ->
  hoare (Has init φ) (lcd_broadcast_tx (E := E) lcd (raw_of saved)) (fun _ => Has init φ) F.
Proof.
  intros Hrec. unfold lcd_broadcast_tx. eapply hoare_bind.
  { apply hoare_emit. intros w Hw. by apply (Has_on_record init φ w key _ Hrec) in Hw. }
  intros []. hstep. intros answer. hstep as r Hr.
  eapply hoare_post; [hop|]. by intros u w [_ ?].
Qed.

Lemma hoare_lcd_simulate init φ lcd raw F `{!Tolerates init F} :
  unsigned raw ->
  hoare (Has init φ) (lcd_simulate_tx (E := E) lcd raw) (fun _ => Has init φ) F.
Proof.
  intros Hu. unfold lcd_simulate_tx. eapply hoare_bind; [by apply hoare_emit|].
  intros []. hstep. intros answer. hstep as u1 Hm. hstep as text Ht. hstep as gas Hg.
  hstep as u2 Hz. by hret.
Qed.

Lemma hoare_check_axelar_balance init φ lcd a d n F `{!Tolerates init F} :
  hoare (Has init φ) (check_axelar_balance (E := E) lcd a d n) (fun _ => Has init φ) F.
Proof.
  unfold check_axelar_balance. hstep. intros account.
  eapply (hoare_bind _ _ (fun _ => Has init φ)); [destruct account; [hop|by hret]|].
  intros balance. eapply hoare_post; [hop|]. by intros u w [_ ?].
Qed.

(** An LCD answered this response for the hash. *)
Definition lcd_answered (hash : string) (r : TxResponse) (_ : Journal) (t : list event) : Prop :=
  exists lcd http, GotTx lcd hash http r ∈ t /\ 200 <= http < 300.

Lemma lcd_answered_persistent hash r : persistent (lcd_answered hash r).
Proof. intros j t t' Ht (lcd & http & ? & ?). exists lcd, http. auto. Qed.

Lemma hoare_get_tx init φ lcd hash F `{!Tolerates init F} :
  hoare (Has init φ) (get_tx (E := E) lcd hash)
    (fun answer w => (forall r, answer.2 = Some r -> GotTx lcd hash answer.1 r ∈ trace w) /\
       Has init φ w) F.
Proof.
  eapply hoare_post; [apply hoare_call_noting; [done|]; intros [http [r|]] ev Hev;
    [by injection Hev as <-|discriminate]|].
  intros [http r] w [Hw Hn]. split; [|done]. intros r' Hr. simpl in *. subst. by apply Hn.
Qed.

Lemma hoare_lookup_tx init φ lcd hash F `{!Tolerates init F} :
  hoare (Has init φ) (lookup_tx (E := E) lcd hash)
    (fun r w => match r with
                | Some r => Has init φ w /\ lcd_answered hash r (journal w) (trace w)
                | None => Has init φ w
                end) F.
Proof.
  unfold lookup_tx. eapply hoare_bind; [by apply hoare_get_tx|]. intros [http r]. simpl.
  destruct (http =? 404); [by intros w [_ ?]|].
  eapply hoare_bind; [apply hoare_ensure; intros w [_ [Hw _]]; by apply tolerates|].
  intros u. apply hoare_pure. intros Hok. eapply hoare_bind;
    [apply hoare_lift; intros w [_ [Hw _]]; by apply tolerates|].
  intros response. apply hoare_pure. intros ->%ok_or_ok w [Hg Hw]. split; [done|].
  exists lcd, http. split; [by apply Hg|]. lia.
Qed.

Lemma checked_response_ok r r' : checked_response r = Ok r' -> r' = r /\ code r = Some 0.
Proof.
  unfold checked_response. intros (u & Hc & Hr)%result_bind_ok.
  apply ensure_ok_ok, bool_decide_eq_true in Hc. by apply Ok_inj in Hr as <-.
Qed.

(** The response is saved under the hash, if a session is active. *)
Definition saved_response sc (hash : string) (r : TxResponse) (j : Journal) : Prop :=
  active sc = true -> exists n k, confirmations j !! hash = Some (CosmosConfirmed n k r).

(** The response is saved for an attempt of the action, at the nonce of the
    transaction asked about. *)
Definition evidenced sc key (saved : Transaction) (r : TxResponse) (j : Journal) : Prop :=
  active sc = true ->
  exists attempt n k, attempt ∈ attempts_of j key ++ [saved] /\ group_of attempt = group_of saved /\
    confirmations j !! hash_key attempt = Some (CosmosConfirmed n k r).

(** Hashes of such attempts. *)
Definition of_attempts sc key (saved : Transaction) (hashes : list string) (j : Journal) : Prop :=
  active sc = true -> forall h, h ∈ hashes ->
  exists attempt, attempt ∈ attempts_of j key ++ [saved] /\ group_of attempt = group_of saved /\
    hash_key attempt = h.

Lemma of_attempts_evidenced sc key saved hashes h r j :
  h ∈ hashes -> of_attempts sc key saved hashes j -> saved_response sc h r j ->
  evidenced sc key saved r j.
Proof.
  intros Hin Ho Hs Ha. destruct (Ho Ha h Hin) as (attempt & Hat & Hg & <-).
  destruct (Hs Ha) as (n & k & Hc). by exists attempt, n, k.
Qed.

Lemma hoare_record_response init φ sc hash response F `{!Tolerates init F} :
  confirm_stable φ ->
  hoare (fun w => Has init φ w /\ lcd_answered hash response (journal w) (trace w))
    (record_response (E := E) sc hash response)
    (fun r w => code r = Some 0 /\ Has init (fun j => φ j /\ saved_response sc hash r j) w) F.
Proof.
  intros Hφ. unfold record_response.
  do 6 (eapply hoare_bind; [first
      [apply hoare_ensure; intros w [[Hw _] _]; by apply tolerates
      |apply hoare_lift; intros w [[Hw _] _]; by apply tolerates]|];
    intros ?; apply hoare_pure; intros ?).
  repeat match goal with Hr : ok_or _ _ = Ok _ |- _ => apply ok_or_ok in Hr end.
  match goal with Hr : checked 32 _ = Some _ |- _ => apply checked_Some in Hr as [-> _] end.
  eapply hoare_bind.
  - eapply hoare_pre; [apply (hoare_confirm init φ (fun j => φ j /\ saved_response sc hash response j));
        [typeclasses eauto|]|].
    + intros j Hj. unfold saved_response. destruct (active sc); [|done].
      split; [by apply Hφ|]. intros _. simpl. rewrite lookup_insert_eq. eauto.
    + intros w [Hw (lcd & http & Hin & Hhttp)]. split; [done|]. left.
      destruct (txhash response) as [actual|] eqn:Hactual; [|done].
      exists lcd, http, actual. eexists. do 5 (split; [done|]). split; [done|].
      split; [by apply Z.ltb_lt|done].
  - intros []. eapply hoare_post; [hop|]. intros r w [Hr Hw].
    by apply checked_response_ok in Hr as [-> ?].
Qed.

Lemma hoare_archive_lcd init φ sc F `{!Tolerates init F} :
  hoare (Has init φ) (archive_lcd (E := E) sc) (fun _ => Has init φ) F.
Proof.
  unfold archive_lcd. destruct (active sc); [|by hret]. hstep as s Hs.
  destruct (recovery_lcd (options s)); [|by hret]. hstep. intros network. hstep as u Hn.
  by hret.
Qed.

Lemma hoare_scan_attempts init φ sc key saved sender sequence attempts pending F `{!Tolerates init F} :
  group_of saved = CosmosSlot sender sequence ->
  hoare (Has init (fun j => φ j /\ (active sc = true -> attempts ⊆ attempts_of j key ++ [saved]) /\
           of_attempts sc key saved pending j))
    (scan_attempts (E := E) sc sender sequence attempts pending)
    (fun r w => match r with
                | inl r => code r = Some 0 /\ Has init (fun j => φ j /\ evidenced sc key saved r j) w
                | inr hashes => Has init (fun j => φ j /\ of_attempts sc key saved hashes j) w
                end) F.
Proof.
  intros Hg. revert pending. induction attempts as [|a attempts IH]; intros pending; cbn [scan_attempts].
  { hret. eapply Has_weaken; [|done]. naive_solver. }
  assert (forall w pending', Has (E := E) init (fun j => φ j /\
      (active sc = true -> a :: attempts ⊆ attempts_of j key ++ [saved]) /\ of_attempts sc key saved pending' j) w ->
    Has init (fun j => φ j /\ (active sc = true -> attempts ⊆ attempts_of j key ++ [saved]) /\
      of_attempts sc key saved pending' j) w) as Hskip.
  { intros w pending'. apply Has_weaken. intros j (? & Hsub & ?). split; [done|]. split; [|done].
    intros Ha x Hx. apply Hsub; [done|]. by right. }
  destruct a as [|i raw hash from fee seq]; [eapply hoare_pre; [apply IH|]; eauto|].
  destruct (bool_decide (from = sender) && (seq =? sequence)) eqn:Hc; [|eapply hoare_pre; [apply IH|]; eauto].
  apply andb_true_iff in Hc as [->%bool_decide_eq_true ->%Z.eqb_eq].
  hstep as u Hh. hstep. intros conf.
  destruct conf as [[|hh cc response]|].
  2: { hstep as r Hr. apply checked_response_ok in Hr as [-> Hc]. hret. split; [done|].
    eapply Has_weaken; [|done]. intros j ((Hj & Hsub & _) & Hconf). split; [done|]. intros Ha.
    exists (CosmosTx i raw hash sender fee sequence), hh, cc. split; [apply Hsub; [done|by left]|].
    split; [done|]. by apply Hconf. }
  all: eapply hoare_pre; [apply IH|]; intros w Hw; apply Hskip; eapply Has_weaken; [|done];
    intros j ((Hj & Hsub & Hof) & _); split; [done|]; split; [done|]; intros Ha h;
    rewrite elem_of_app, list_elem_of_singleton; intros [Hin| ->]; [by apply Hof|];
    exists (CosmosTx i raw hash sender fee sequence); split; [apply Hsub; [done|by left]|done].
Qed.

Lemma hoare_lookup_one init φ sc lcd hash F `{!Tolerates init F} :
  confirm_stable φ ->
  hoare (Has init φ) (lookup_one (E := E) sc lcd hash)
    (fun r w => match r with
                | Some r => code r = Some 0 /\ Has init (fun j => φ j /\ saved_response sc hash r j) w
                | None => Has init φ w
                end) F.
Proof.
  intros Hφ. unfold lookup_one.
  eapply hoare_bind; [apply hoare_lookup_tx; typeclasses eauto|]. intros [response|]; [|by hret].
  eapply hoare_bind; [by apply hoare_record_response|]. intros r. apply hoare_pure. intros Hc.
  by hret.
Qed.

(** Looking a transaction up never touches the journal's transactions. *)
Lemma quiet_scan_attempts sc sender sequence l pending :
  quiet (scan_attempts (E := E) sc sender sequence l pending).
Proof. revert pending. induction l as [|[] l IH]; intros pending; cbn [scan_attempts]; squiet. Qed.

Lemma quiet_lookup_one sc lcd hash : quiet (lookup_one (E := E) sc lcd hash).
Proof. unfold lookup_one, lookup_tx, record_response. squiet. Qed.

Lemma quiet_confirmed sc lcd saved key : quiet (confirmed (E := E) sc lcd saved key).
Proof.
  unfold confirmed, archive_lcd. pose proof quiet_scan_attempts. pose proof quiet_lookup_one. squiet.
Qed.

Lemma of_attempts_confirm_stable sc key saved hashes : confirm_stable (of_attempts sc key saved hashes).
Proof. by intros h c j Hj. Qed.

Lemma hoare_lookup_all init φ sc lcd key saved hashes F `{!Tolerates init F} :
  confirm_stable φ ->
  hoare (Has init (fun j => φ j /\ of_attempts sc key saved hashes j))
    (first_some (lookup_one (E := E) sc lcd) hashes)
    (fun r w => match r with
                | Some r => code r = Some 0 /\ Has init (fun j => φ j /\ evidenced sc key saved r j) w
                | None => Has init (fun j => φ j /\ of_attempts sc key saved hashes j) w
                end) F.
Proof.
  intros Hφ. apply (hoare_first_some _ _ _ (fun r w => code r = Some 0 /\
    Has init (fun j => φ j /\ evidenced sc key saved r j) w)).
  intros h Hin. eapply hoare_post; [apply hoare_lookup_one; [typeclasses eauto|]|].
  - intros h' c j [? ?]. split; [by apply Hφ|by apply of_attempts_confirm_stable].
  - intros [r|] w; [|done]. intros [Hc Hw]. split; [done|]. eapply Has_weaken; [|done].
    intros j [[Hj Ho] Hs]. split; [done|]. by eapply of_attempts_evidenced.
Qed.

(** Whatever [confirmed] finds succeeded on chain, and is saved for an attempt
    of the action. *)
Lemma hoare_confirmed init φ sc lcd saved key F `{!Tolerates init F} :
  confirm_stable φ ->
  hoare (Has init φ) (confirmed (E := E) sc lcd saved key)
    (fun r w => match r with
                | Some r => code r = Some 0 /\ Has init (fun j => φ j /\ evidenced sc key saved r j) w
                | None => Has init φ w
                end) F.
Proof.
  intros Hφ. unfold confirmed. destruct saved as [|i raw hash sender fee sequence] eqn:Hs; [hthrow|].
  rewrite <- Hs. hstep. intros l.
  eapply hoare_bind.
  { eapply hoare_pre; [apply (hoare_scan_attempts init φ sc key saved); [typeclasses eauto|by rewrite Hs]|].
    intros w Hw. eapply Has_weaken; [|done]. intros j [Hj Hl]. split; [done|]. split.
    - intros Ha. rewrite Ha in Hl. by subst l.
    - intros Ha h Hin. set_solver. }
  intros [r|pending]; [by intros w Hw|].
  eapply hoare_bind; [by apply hoare_lookup_all|].
  intros [r|]; [by intros w Hw|].
  eapply hoare_bind; [apply hoare_archive_lcd; typeclasses eauto|].
  intros [archive|]; [|hret; eapply Has_weaken; [|done]; naive_solver].
  eapply hoare_post; [by apply hoare_lookup_all|]. intros [r|] w; [done|].
  apply Has_weaken. naive_solver.
Qed.

Lemma hoare_poll_confirmed init φ polls sc lcd saved key F `{!Tolerates init F} :
  confirm_stable φ ->
  hoare (Has init φ) (poll_confirmed (E := E) polls sc lcd saved key)
    (fun r w => code r = Some 0 /\ Has init (fun j => φ j /\ evidenced sc key saved r j) w) F.
Proof.
  intros Hφ. induction polls as [|polls IH]; cbn [poll_confirmed]; [hthrow|].
  eapply hoare_bind; [by apply hoare_confirmed|]. intros [r|].
  - by intros w Hw.
  - hstep. intros []. apply IH.
Qed.

Lemma hoare_cosmos_resume init φ sc lcd saved key F `{!Tolerates init F} :
  confirm_stable φ -> (forall j, φ j -> saved ∈ recorded j key) ->
  hoare (Has init φ) (cosmos_resume (E := E) sc lcd saved key)
    (fun r w => code r = Some 0 /\ Has init (fun j => φ j /\ evidenced sc key saved r j) w) F.
Proof.
  intros Hφ Hrec. unfold cosmos_resume.
  eapply hoare_bind; [by apply hoare_confirmed|]. intros [r|].
  { by intros w Hw. }
  destruct saved as [|i raw hash sender fee sequence] eqn:Hs; [hthrow|]. rewrite <- Hs in *.
  hstep as u Hv. eapply hoare_bind; [apply hoare_lcd_query_account; typeclasses eauto|].
  intros account. hstep as u2 Ha.
  eapply hoare_bind.
  { apply hoare_map_err. replace raw with (raw_of saved) by (by rewrite Hs).
    by apply (hoare_lcd_broadcast _ _ _ key). }
  intros []. by apply hoare_poll_confirmed.
Qed.

Lemma hoare_check_fee_budget init φ sc sender sequence fee F `{!Tolerates init F} :
  hoare (Has init φ) (check_fee_budget (E := E) sc sender sequence fee) (fun _ => Has init φ) F.
Proof.
  unfold check_fee_budget. hstep as s Hs. hstep as j Hj.
  eapply hoare_post; [hop|]. intros u w [_ Hw]. eapply Has_weaken; [|done]. naive_solver.
Qed.

Lemma hoare_approve init φ lcd denom address messages fee F `{!Tolerates init F} :
  hoare (Has init φ) (approve (E := E) lcd denom address messages fee) (fun _ => Has init φ) F.
Proof.
  unfold approve. hstep as pays Hp. hstep as amount Ha. hstep as u Hv.
  eapply hoare_bind; [apply hoare_check_axelar_balance; typeclasses eauto|]. intros [].
  eapply (hoare_bind _ _ (fun _ => Has init φ)).
  { destruct (existsb is_proposal messages); [|by hret]. hstep. intros p. by hret. }
  intros []. hstep as u2 Hc. apply hoare_confirm_prompt.
Qed.

Lemma hoare_validate_cosmos_retry init φ sc key intent sequence F `{!Tolerates init F} :
  hoare (Has init φ) (validate_cosmos_retry (E := E) sc key intent sequence)
    (fun _ => Has init φ) F.
Proof.
  unfold validate_cosmos_retry. hstep as s Hs. hstep as j Hj.
  apply (hoare_pre _ (Has init φ)); [|intros w Hw; eapply Has_weaken; [|done]; naive_solver].
  destruct (list.last (attempts_of j key)) as [[]|]; [by hret| |by hret].
  hstep as u Hi. eapply hoare_post; [hop|]. by intros u' w [_ ?].
Qed.
End Keeps.

(** *** What a fee replacement changes *)

(** Decoding what was encoded: the documented contract of prost messages. *)
Class CosmosCodec `{CosmosLib} : Prop := {
  tx_raw_roundtrip tx : decode_tx_raw (encode_tx_raw tx) = Some tx;
  auth_info_roundtrip a : decode_auth_info (encode_auth_info a) = Some a
}.

(** A transaction with one signer, one signature and one fee coin, taken
    apart. *)
Definition signed_as `{CosmosLib} (raw body : bytes) (info : SignerInfo) (tip : option bytes)
    (denom amount : string) (gas : Z) (payer granter : string) : Prop :=
  exists tx signature,
    decode_tx_raw raw = Some tx /\ body_bytes tx = body /\ signatures tx = [signature] /\
    decode_auth_info (auth_info_bytes tx) =
      Some (mkAuthInfo [info] (Some (mkFee [mkCoin denom amount] gas payer granter)) tip).

Lemma resign_inv `{CosmosLib} saved signer chain account amount new :
  resign saved signer chain account amount = Ok new ->
  exists intent raw hash sender old_fee sequence tx auth info sig denom gas payer granter tip old auth',
    saved = CosmosTx intent raw hash sender old_fee sequence /\
    decode_tx_raw raw = Some tx /\ decode_auth_info (auth_info_bytes tx) = Some auth /\
    auth = mkAuthInfo [info] (Some (mkFee [mkCoin denom old_fee] gas payer granter)) tip /\
    (exists s0, signatures tx = [s0]) /\
    si_sequence info = sequence /\ parse_uint 128 old_fee = Some old /\ old < amount /\
    auth' = mkAuthInfo [info] (Some (mkFee [mkCoin denom (to_dec amount)] gas payer granter)) tip /\
    let raw' := encode_tx_raw (mkTxRaw (body_bytes tx) (encode_auth_info auth') [sig]) in
    new = CosmosTx intent raw' (cosmos_tx_hash raw') sender (to_dec amount) sequence.
Proof.
  unfold resign. destruct saved as [|intent raw hash sender old_fee sequence]; [done|].
  intros (u1 & _ & Hr)%result_bind_ok.
  apply result_bind_ok in Hr as (tx & Htx%ok_or_ok & Hr).
  apply result_bind_ok in Hr as (auth & Hauth%ok_or_ok & Hr).
  apply result_bind_ok in Hr as (u2 & Hseq & Hr).
  apply result_bind_ok in Hr as (id & _ & Hr).
  apply result_bind_ok in Hr as (any & _ & Hr).
  apply result_bind_ok in Hr as (u3 & Hs3%ensure_ok_ok & Hr).
  apply andb_true_iff in Hs3 as [_ Hlen%Nat.eqb_eq].
  apply result_bind_ok in Hr as (u4 & _ & Hr).
  apply result_bind_ok in Hr as (u5 & _ & Hr).
  apply result_bind_ok in Hr as (fee & Hfee%ok_or_ok & Hr).
  apply result_bind_ok in Hr as (denom & Hd & Hr).
  apply result_bind_ok in Hr as (sig & _ & Hr). apply Ok_inj in Hr.
  destruct fee as [[|[cd ca] [|]] gas payer granter]; try done. simpl in Hd.
  apply result_bind_ok in Hd as (u6 & Hca%ensure_ok_ok%bool_decide_eq_true & Hd). simpl in Hca. subst ca.
  apply result_bind_ok in Hd as (old & Hold%ok_or_ok & Hd).
  apply result_bind_ok in Hd as (u7 & Hlt%ensure_ok_ok%Z.ltb_lt & Hd). apply Ok_inj in Hd as <-.
  unfold validate_sequence in Hseq. rewrite Htx in Hseq. simpl in Hseq. rewrite Hauth in Hseq.
  apply ensure_ok_ok in Hseq. destruct auth as [infos af tip]. simpl in *. subst af.
  destruct infos as [|info [|]]; try done. apply Z.eqb_eq in Hseq.
  assert (exists s0, signatures tx = [s0]) as Hsig.
  { destruct (signatures tx) as [|s0 [|]]; try done. by exists s0. }
  symmetry in Hr. eexists intent, raw, hash, sender, old_fee, sequence, tx, _, info, sig, cd, gas,
    payer, granter, tip, old, _. repeat split; try done.
Qed.

Lemma resign_same `{CosmosLib} saved signer chain account amount new :
  resign saved signer chain account amount = Ok new ->
  group_of new = group_of saved /\ intent_of new = intent_of saved.
Proof.
  intros Hr. apply resign_inv in Hr. naive_solver.
Qed.

(** A Cosmos fee replacement is fee-only.  The replacement is signed for
    the same body (messages, memo, timeout), the same signer and sequence, the
    same gas limit, payer and denomination; the one thing that changes is the
    fee amount, which strictly grows, and its journal entry describes exactly
    the bytes that will be broadcast. *)
Theorem resign_fee_only `{CosmosCodec} saved signer chain account amount new :
  resign saved signer chain account amount = Ok new -> 0 <= amount < 2 ^ 128 ->
  exists intent raw hash sender old_fee sequence raw' body info tip denom gas payer granter old,
    saved = CosmosTx intent raw hash sender old_fee sequence /\
    new = CosmosTx intent raw' (cosmos_tx_hash raw') sender (to_dec amount) sequence /\
    signed_as raw body info tip denom old_fee gas payer granter /\
    signed_as raw' body info tip denom (to_dec amount) gas payer granter /\
    si_sequence info = sequence /\
    parse_uint 128 old_fee = Some old /\ parse_uint 128 (to_dec amount) = Some amount /\
    old < amount.
Proof.
  intros Hr Hamt. apply resign_inv in Hr as (intent & raw & hash & sender & old_fee & sequence & tx &
    auth & info & sig & denom & gas & payer & granter & tip & old & auth' & -> & Htx & Hauth & -> &
    [s0 Hs0] & Hseq & Hold & Hlt & -> & ->).
  exists intent, raw, hash, sender, old_fee, sequence. eexists.
  exists (body_bytes tx), info, tip, denom, gas, payer, granter, old.
  split; [done|]. split; [done|]. split; [by exists tx, s0|]. split.
  - eexists _, sig. split; [apply tx_raw_roundtrip|]. simpl. split; [done|]. split; [done|].
    apply auth_info_roundtrip.
  - repeat split; try done. by apply parse_to_dec.
Qed.

Section Sends.
Context {E : Type} `{Host E, LcdNode E, EvmLib, CosmosLib, CosmosAccounts}.
Abbreviation W := (World E).
Implicit Types (sc : Scope) (key lcd : string) (φ : Journal -> Prop).

Lemma owns_confirm_stable key saved act : confirm_stable (owns key saved act).
Proof. intros h c j [Ho Hf]. split; [done|]. by apply frames_confirm_stable. Qed.

Lemma hoare_cosmos_resume_owned init sc lcd saved key act :
  hoare (Has init (owns key saved act)) (cosmos_resume (E := E) sc lcd saved key)
    (fun r w => code r = Some 0 /\ Has init (frames key act) w) (Safe init).
Proof.
  eapply hoare_post.
  - apply hoare_cosmos_resume; [typeclasses eauto|apply owns_confirm_stable|].
    intros j Hj. by eapply owns_recorded.
  - intros r w [Hc Hw]. split; [done|]. eapply Has_weaken; [|done]. by intros j [[_ ?] _].
Qed.

Lemma hoare_cosmos_send init sc k address lcd chain denom price messages act :
  let key := action_key sc "cosmos" in
  hoare (Has init (frames key act))
    (cosmos_send (E := E) sc k address lcd chain denom price messages)
    (fun r w => code r = Some 0 /\ Has init (frames key act) w) (Safe init).
Proof.
  intros key. unfold cosmos_send. hstep as u1 Hp. hstep as s Hs. hstep as u2 Hc.
  hstep. intros [[|i raw h sd f q]|]; [hthrow| |].
  { hstep as u3 Hi.
    apply (hoare_pre _ (Has init (owns key (CosmosTx i raw h sd f q) act)));
      [apply hoare_cosmos_resume_owned|].
    intros w Hw. eapply Has_weaken; [|done]. by intros j [? ?]. }
  apply (hoare_pre _ (Has init (frames key act)));
    [|intros w Hw; eapply Has_weaken; [|done]; naive_solver].
  eapply hoare_bind; [apply hoare_lcd_query_account; typeclasses eauto|].
  intros [account_number sequence].
  eapply hoare_bind; [apply hoare_validate_cosmos_retry; typeclasses eauto|]. intros [].
  hstep as simulation Hsim. hstep as uns Huns. apply unsigned_simulation_unsigned in Huns.
  eapply hoare_bind; [by apply hoare_lcd_simulate; [typeclasses eauto|]|]. intros used.
  hstep as gas_limit Hgas.
  eapply hoare_bind; [apply hoare_check_fee_budget; typeclasses eauto|]. intros [].
  eapply hoare_bind; [apply hoare_approve; typeclasses eauto|].
  intros [|]; cbn [negb]; [|hthrow]. hstep as raw Hraw.
  eapply (hoare_bind _ _ (fun _ => Has init (owns key (CosmosTx _ raw _ address _ sequence) act)));
    [|intros u4; apply hoare_cosmos_resume_owned].
  apply hoare_record. intros j Hf Hnone. split; [apply lookup_insert_eq|].
  intros k' Hk. simpl. by rewrite lookup_insert_ne by done; apply Hf.
Qed.

Lemma hoare_cosmos_bump init sc st lcd key saved act :
  hoare (Has init (owns key saved act)) (cosmos_bump (E := E) sc st lcd key saved)
    (fun _ => Has init (frames key act)) (Safe init).
Proof.
  unfold cosmos_bump.
  eapply hoare_bind; [apply hoare_confirmed; [typeclasses eauto|apply owns_confirm_stable]|].
  intros [r|].
  { apply hoare_pure. intros _. hret. eapply Has_weaken; [|done]. by intros j [[_ ?] _]. }
  destruct saved as [|i raw h sender f sequence] eqn:Hsaved; [hthrow|]. rewrite <- Hsaved in *.
  eapply hoare_bind; [apply hoare_lcd_query_account; typeclasses eauto|]. intros account.
  hstep as u1 Hseq. hstep as step Hstep. hstep as k Hk. hstep as wa Hwa. hstep as s Hs.
  hstep as amount Hamt. hstep as new Hnew. apply resign_same in Hnew as [Hg Hi].
  hstep as tx Htx. hstep as auth Hauth. hstep as fee Hfee. hstep as coin Hcoin.
  hstep as messages Hmsgs.
  eapply hoare_bind; [apply hoare_check_fee_budget; typeclasses eauto|]. intros [].
  hstep as pays Hpays. hstep as tot Htot. hstep as u2 Hv.
  eapply hoare_bind; [apply hoare_check_axelar_balance; typeclasses eauto|]. intros [].
  hstep as u3 Hprev. hstep. intros [|]; cbn [negb]; [|hthrow].
  eapply (hoare_bind _ _ (fun _ => Has init (owns key new act))).
  - apply hoare_replace. intros j [Ho Hf]. exists saved. repeat split; try done.
    + simpl. apply lookup_insert_eq.
    + intros k' Hk'. simpl. by rewrite lookup_insert_ne by done; apply Hf.
  - intros u4. eapply hoare_bind; [apply hoare_cosmos_resume_owned|].
    intros r. apply hoare_pure. intros _. by hret.
Qed.

Lemma hoare_cosmos_reconcile init sc st lcd key saved act :
  hoare (Has init (owns key saved act)) (cosmos_reconcile (E := E) sc st lcd key saved)
    (fun _ => Has init (frames key act)) (Safe init).
Proof.
  unfold cosmos_reconcile. destruct saved as [|i raw h sd f q] eqn:Hsaved.
  { hret. eapply Has_weaken; [|done]. by intros j [_ ?]. }
  rewrite <- Hsaved. hstep as s Hs. destruct (bool_decide _); [apply hoare_cosmos_bump|].
  eapply hoare_bind; [apply hoare_cosmos_resume_owned|]. intros r. apply hoare_pure. intros _.
  by hret.
Qed.
End Sends.
