(* ===== verification/Json.v ===== *)
(** * JSON values (serde_json with [preserve_order])

    The part of [serde_json::Value] the deployment uses: objects keep the
    order of insertion, numbers are integers, a JSON pointer walks objects
    and arrays.  Text and parsing stay outside. *)

From Stdlib Require Import Ascii.
From Stdlib Require String.
From S2P Require Import Prelude.

Inductive Json : Type :=
  | JNull
  | JBool (b : bool)
  | JNum (n : Z)
  | JStr (s : string)
  | JArr (l : list Json)
  | JObj (fields : list (string * Json)).

Abbreviation Fields := (list (string * Json)).

(** ** Objects *)

Fixpoint field (k : string) (o : Fields) : option Json :=
  match o with
  | [] => None
  | (k', v) :: o => if decide (k = k') then Some v else field k o
  end.

(** [Map::insert]: replace in place or append. *)
Fixpoint set_field (k : string) (v : Json) (o : Fields) : Fields :=
  match o with
  | [] => [(k, v)]
  | (k', v') :: o => if decide (k = k') then (k', v) :: o else (k', v') :: set_field k v o
  end.

(** [Value::get] of a key. *)
Definition get_key (k : string) (v : Json) : option Json :=
  match v with JObj o => field k o | _ => None end.

(** [value[key]]: [Null] when there is nothing. *)
Definition index (v : Json) (k : string) : Json := default JNull (get_key k v).

Definition as_str (v : Json) : option string := match v with JStr s => Some s | _ => None end.
Definition as_bool (v : Json) : option bool := match v with JBool b => Some b | _ => None end.
Definition as_object (v : Json) : option Fields := match v with JObj o => Some o | _ => None end.
Definition as_array (v : Json) : option (list Json) := match v with JArr l => Some l | _ => None end.
Definition as_u64 (v : Json) : option Z :=
  match v with JNum n => if in_width 64 n then Some n else None | _ => None end.

(** [value[key] = v], which turns [Null] into an object and panics on any
    other value that is not one ([None]). *)
Definition set_index (k : string) (v : Json) (target : Json) : option Json :=
  match target with
  | JObj o => Some (JObj (set_field k v o))
  | JNull => Some (JObj [(k, v)])
  | _ => None
  end.

(** Equality of values; the order of an object's fields does not matter. *)
Fixpoint json_eqb (a b : Json) {struct a} : bool :=
  match a, b with
  | JNull, JNull => true
  | JBool x, JBool y => Bool.eqb x y
  | JNum x, JNum y => x =? y
  | JStr x, JStr y => bool_decide (x = y)
  | JArr l, JArr r =>
      (fix go (l r : list Json) : bool :=
         match l, r with
         | [], [] => true
         | x :: l, y :: r => json_eqb x y && go l r
         | _, _ => false
         end) l r
  | JObj l, JObj r =>
      Nat.eqb (length l) (length r) &&
      (fix go (l : Fields) : bool :=
         match l with
         | [] => true
         | (k, x) :: l =>
             match field k r with Some y => json_eqb x y | None => false end && go l
         end) l
  | _, _ => false
  end.

(** ** Pointers *)

(** [text.split(sep)]. *)
Fixpoint split_on (sep : ascii) (s : string) : list string :=
  match s with
  | String.EmptyString => [""]
  | String.String c s =>
      if Ascii.eqb c sep then "" :: split_on sep s
      else match split_on sep s with
           | [] => [String.String c ""]
           | t :: ts => String.String c t :: ts
           end
  end.

(** [token.replace("~1", "/").replace("~0", "~")]. *)
Fixpoint replace_tilde (digit by_ : ascii) (s : string) : string :=
  match s with
  | String.EmptyString => ""
  | String.String c rest =>
      match rest with
      | String.String d rest' =>
          if Ascii.eqb c "~"%char && Ascii.eqb d digit then
            String.String by_ (replace_tilde digit by_ rest')
          else String.String c (replace_tilde digit by_ rest)
      | String.EmptyString => String.String c ""
      end
  end.
Definition unescape (token : string) : string :=
  replace_tilde "0"%char "~"%char (replace_tilde "1"%char "/"%char token).

(** An array index: decimal digits without a sign or a leading zero. *)
Definition parse_index (s : string) : option nat :=
  match s with
  | String.String c (String.String _ _) =>
      if Ascii.eqb c "0"%char || Ascii.eqb c "+"%char then None
      else Z.to_nat <$> parse_uint 64 s
  | String.String c String.EmptyString =>
      if Ascii.eqb c "+"%char then None else Z.to_nat <$> parse_uint 64 s
  | String.EmptyString => None
  end.

Fixpoint walk (tokens : list string) (v : Json) : option Json :=
  match tokens with
  | [] => Some v
  | t :: ts =>
      match v with
      | JObj o => field t o ≫= walk ts
      | JArr l => (parse_index t ≫= fun i => l !! i) ≫= walk ts
      | _ => None
      end
  end.

(** Change the value a path leads to, where it leads to one. *)
Fixpoint walk_mut (tokens : list string) (f : Json -> option Json) (v : Json) : option Json :=
  match tokens with
  | [] => f v
  | t :: ts =>
      match v with
      | JObj o => x ← field t o; x ← walk_mut ts f x; Some (JObj (set_field t x o))
      | JArr l => i ← parse_index t; x ← l !! i; x ← walk_mut ts f x; Some (JArr (<[i := x]> l))
      | _ => None
      end
  end.

(** The tokens of a pointer; [None] for text that is not one. *)
Definition pointer_tokens (path : string) : option (list string) :=
  match path with
  | String.EmptyString => Some []
  | String.String c _ =>
      if Ascii.eqb c "/"%char then Some (unescape <$> tail (split_on "/"%char path)) else None
  end.

(** [Value::pointer], and [Value::pointer_mut] with the change applied. *)
Definition pointer (path : string) (v : Json) : option Json :=
  ts ← pointer_tokens path; walk ts v.
Definition pointer_mut (path : string) (f : Json -> option Json) (v : Json) : option Json :=
  ts ← pointer_tokens path; walk_mut ts f v.

(** ** What an update changes *)

Lemma field_set_field k v o k' :
  field k' (set_field k v o) = if decide (k' = k) then Some v else field k' o.
Proof.
  induction o as [|[k0 v0] o IH]; simpl; [by case_decide|].
  destruct (decide (k = k0)) as [->|Hk]; simpl.
  - by repeat case_decide.
  - destruct (decide (k' = k0)) as [->|H0]; [|apply IH]. by rewrite decide_False by congruence.
Qed.

Lemma walk_app ts us v : walk (ts ++ us) v = walk ts v ≫= walk us.
Proof.
  revert v. induction ts as [|t ts IH]; intros v; [done|]. simpl.
  destruct v as [| | | |l|o]; try done.
  - destruct (parse_index t ≫= _) as [x|]; [apply IH|done].
  - destruct (field t o) as [x|]; [apply IH|done].
Qed.

Lemma walk_mut_here ts f v v' : walk_mut ts f v = Some v' -> walk ts v' = walk ts v ≫= f.
Proof.
  revert v v'. induction ts as [|t ts IH]; intros v v'; simpl; [done|].
  destruct v as [| | | |l|o]; try done.
  - destruct (parse_index t) as [i|] eqn:Hi; [|done]. simpl.
    destruct (l !! i) as [x|] eqn:Hx; [|done]. simpl.
    destruct (walk_mut ts f x) as [x'|] eqn:Hw; [|done]. intros [= <-]. simpl.
    rewrite list_lookup_insert_eq; [|by eapply lookup_lt_Some]. simpl. by apply IH.
  - destruct (field t o) as [x|] eqn:Hx; [|done]. simpl.
    destruct (walk_mut ts f x) as [x'|] eqn:Hw; [|done]. intros [= <-]. simpl.
    rewrite field_set_field, decide_True by done. simpl. by apply IH.
Qed.

(** Object paths: neither is a prefix of the other. *)
Fixpoint disjoint_paths (a b : list string) : Prop :=
  match a, b with
  | x :: a, y :: b => x <> y \/ x = y /\ disjoint_paths a b
  | _, _ => False
  end.

(** A value without arrays on the way down [ts]. *)
Fixpoint objects_along (ts : list string) (v : Json) : Prop :=
  match ts, v with
  | [], _ => True
  | t :: ts, JObj o => match field t o with Some x => objects_along ts x | None => True end
  | _ :: _, JArr _ => False
  | _ :: _, _ => True
  end.

Lemma walk_mut_elsewhere ts us f v v' :
  disjoint_paths ts us -> objects_along ts v -> walk_mut ts f v = Some v' ->
  walk us v' = walk us v.
Proof.
  revert us v v'. induction ts as [|t ts IH]; intros [|u us] v v'; simpl; try done.
  intros Hd Ho. destruct v as [| | | |l|o]; try done.
  destruct (field t o) as [x|] eqn:Hx; [|done]. simpl.
  destruct (walk_mut ts f x) as [x'|] eqn:Hw; [|done]. intros [= <-]. simpl.
  rewrite field_set_field. destruct (decide (u = t)) as [->|Hne]; [|done].
  rewrite Hx. simpl. destruct Hd as [?|[_ Hd]]; [done|]. by eapply IH.
Qed.
