(* ===== verification/Target.v ===== *)
(** * The deployments configuration (src/config.rs, src/utils.rs, and the
    configuration readers of src/cosmos/rpc.rs)

    One JSON file holds the chain and Axelar settings; steps read it, and
    write back the contracts they deploy. *)

From Stdlib Require Import Ascii.
From Stdlib Require String.
From S2P Require Import Prelude Types Journal Chain Machine Session Funding State Plan Config Intent Json Cosmos.

(** ** Typed view (config.rs) *)

(** [extra]: the fields that have no name of their own. *)
Record ContractEntry : Type := mkEntry {
  entry_address : option string;
  entry_extra : gmap string Json
}.

Record ChainConfig : Type := mkChainConfig {
  cc_axelar_id : option string;
  cc_name : option string;
  cc_evm_chain_id : option Z;
  cc_rpc : option string;
  cc_chain_type : option string;
  cc_contracts : option (gmap string ContractEntry)
}.

Record AxelarConfig : Type := mkAxelarConfig {
  ax_chain_id : option string;
  ax_lcd : option string;
  ax_rpc : option string;
  ax_gas_price : option string;
  ax_governance_address : option string;
  ax_gov_proposal_deposit_amount : option string;
  ax_gov_proposal_expedited_deposit_amount : option string;
  ax_contracts : option (gmap string (gmap string Json))
}.

Record ChainsConfig : Type := mkChainsConfig {
  cfg_chains : gmap string ChainConfig;
  cfg_axelar : AxelarConfig
}.

(** serde's derived reader of the file, [f64::from_str], and the text of
    addresses and hashes (alloy). *)
Class ConfigLib : Type := {
  chains_config : Json -> option ChainsConfig;
  parse_price : string -> option GasPrice;
  address_to_string : Address -> string;
  (** serde's text of an address. *)
  address_json : Address -> string
}.

(** The file, at the path of [ctx.target_json]; a write goes through
    [storage::atomic_config_write]. *)
Class TargetFile (E : Type) : Type := {
  read_target_file : E -> result Json * E;
  write_target_file : Json -> E -> result () * E
}.

Definition is_alphabetic (c : ascii) : bool :=
  let n := N_of_ascii c in
  (((65 <=? n) && (n <=? 90)) || ((97 <=? n) && (n <=? 122)))%N.

(** [raw.find(char::is_alphabetic)], with the text before and from it. *)
Fixpoint split_alphabetic (s : string) : option (string * string) :=
  match s with
  | String.EmptyString => None
  | String.String c rest =>
      if is_alphabetic c then Some ("", s)
      else '(a, b) ← split_alphabetic rest; Some (String.String c a, b)
  end.

Section Readers.
Context `{ConfigLib, CosmosAccounts, EvmLib}.

(** [AxelarConfig::parse_gas_price]. *)
Definition parse_gas_price (a : AxelarConfig) : result (GasPrice * string) :=
  raw ← ok_or (ax_gas_price a) "no axelar.gasPrice in target json";
  '(number, denom) ← ok_or (split_alphabetic raw) "axelar.gasPrice has no denom suffix";
  price ← ok_or (parse_price number) "axelar.gasPrice numeric prefix invalid";
  Ok (price, denom).

Record TxParams : Type := mkTxParams {
  tp_lcd : string;
  tp_chain_id : string;
  tp_denom : string;
  tp_price : GasPrice
}.

(** [AxelarConfig::cosmos_tx_params]. *)
Definition cosmos_tx_params (a : AxelarConfig) : result TxParams :=
  '(price, denom) ← parse_gas_price a;
  lcd ← ok_or (ax_lcd a) "no axelar.lcd in target json";
  chain_id ← ok_or (ax_chain_id a) "no axelar.chainId in target json";
  Ok (mkTxParams lcd chain_id denom price).

(** [ChainsConfig::chain]. *)
Definition config_chain (c : ChainsConfig) (id : string) : result ChainConfig :=
  ok_or (cfg_chains c !! id) "chain not found in config".

(** [ChainConfig::contract_address_by_name]. *)
Definition contract_address_by_name (c : ChainConfig) (contract : string) : result string :=
  ok_or (m ← cc_contracts c; e ← m !! contract; entry_address e) "not deployed yet".

(** [AxelarConfig::global_contract_address_by_name]: the field is read as
    JSON below the contract's entry. *)
Definition global_contract_address (a : AxelarConfig) (contract : string) : result string :=
  ok_or (m ← ax_contracts a; e ← m !! contract; v ← e !! "address"; as_str v)
    "no axelar contract address in target json".

(** The text whose hash is the domain separator. *)
Definition domain_separator_input (c : ChainsConfig) (id : string) : result string :=
  chain_id ← ok_or (x ← cfg_chains c !! id; cc_axelar_id x) "no axelarId for chain";
  router ← global_contract_address (cfg_axelar c) "Router";
  axelar ← ok_or (ax_chain_id (cfg_axelar c)) "no axelar.chainId in target json";
  Ok (chain_id +:+ router +:+ axelar)%string.

(** ** Edits (utils.rs) *)

Definition contracts_path (id : string) : string := ("/chains/" +:+ id +:+ "/contracts")%string.

(** [contracts.insert(contract_name, contract_data)]. *)
Definition insert_contract (id name : string) (data root : Json) : result Json :=
  ok_or (pointer_mut (contracts_path id)
           (fun v => o ← as_object v; Some (JObj (set_field name data o))) root)
    "no contracts object in target json".

(** The patches of [patch_target_json], in order. *)
Definition patch_contract (id name : string) (patches : Fields) (root : Json) : result Json :=
  ok_or (pointer_mut (contracts_path id +:+ "/" +:+ name)%string
           (fun v => o ← as_object v;
              Some (JObj (foldl (fun o '(k, v) => set_field k v o) o patches))) root)
    "no contract in target json".

(** The Axelar name of a chain, by default its key. *)
Definition chain_name (id : string) (root : Json) : string :=
  default id (pointer ("/chains/" +:+ id +:+ "/axelarId")%string root ≫= as_str).
End Readers.

(** ** Programs *)

(** A call whose failure is an answer the program inspects. *)
Definition attempt {E A} `{Host E} (f : E -> result A * E) : M (World E) (result A) :=
  call (fun e => let '(r, e') := f e in (Ok r, e')).

(** ** Read-only programs *)

(** The program leaves the journal, its file and the trace alone. *)
Definition readonly {E A} (m : M (World E) A) : Prop :=
  forall w, journal (m w).2 = journal w /\ disk (m w).2 = disk w /\ trace (m w).2 = trace w.

Section ReadOnly.
Context {E : Type} `{Host E}.

Lemma readonly_ret {A} (a : A) : readonly (E := E) (mret a).
Proof. done. Qed.
Lemma readonly_lift {A} (r : result A) : readonly (E := E) (lift r).
Proof. done. Qed.
Lemma readonly_ensure b msg : readonly (E := E) (ensure b msg).
Proof. done. Qed.
Lemma readonly_throw {A} e : readonly (E := E) (A := A) (throw e).
Proof. done. Qed.
Lemma readonly_call {A} (f : E -> result A * E) : readonly (call f).
Proof. intros w. unfold call. by destruct (f (env w)). Qed.
Lemma readonly_attempt {A} (f : E -> result A * E) : readonly (attempt f).
Proof. apply readonly_call. Qed.
Lemma readonly_current sc : readonly (E := E) (current sc).
Proof. done. Qed.
Lemma readonly_read : readonly (E := E) read_journal.
Proof. done. Qed.
Lemma readonly_get key : readonly (E := E) (get_action key).
Proof. done. Qed.
Lemma readonly_now : readonly (E := E) now.
Proof. done. Qed.
Lemma readonly_sleep d : readonly (E := E) (sleep_for d).
Proof. done. Qed.

Lemma readonly_bind {A B} (m : M (World E) A) (f : A -> M (World E) B) :
  readonly m -> (forall a, readonly (f a)) -> readonly (m ≫= f).
Proof.
  intros Hm Hf w. destruct (Hm w) as (Hj & Hd & Ht). unfold mbind, M_bind.
  destruct (m w) as [[a|e] w']; simpl in *; [|done].
  destruct (Hf a w') as (Hj' & Hd' & Ht'). by rewrite Hj', Hd', Ht'.
Qed.

Lemma readonly_for_each {A} (f : A -> M (World E) ()) l :
  (forall x, readonly (f x)) -> readonly (for_each f l).
Proof.
  intros Hf. induction l as [|x l IH]; simpl; [apply readonly_ret|]. by apply readonly_bind.
Qed.

(** What is known of the session survives a read-only program. *)
Lemma hoare_readonly `{EvmLib, CosmosLib} {A} init φ (m : M (World E) A) F `{!Tolerates init F} :
  readonly m -> hoare (Has init φ) m (fun _ => Has init φ) F.
Proof.
  intros Hm w Hw. destruct (Hm w) as (Hj & Hd & Ht).
  assert (Has init φ (m w).2) as Hw'.
  { destruct (m w) as [r [e j d t]], w as [e0 j0 d0 t0]. simpl in *. by subst. }
  destruct (m w) as [[a|e] w']; [done|]. destruct Hw' as [Hw' _]. by apply tolerates.
Qed.
End ReadOnly.

Create HintDb reads.
#[export] Hint Resolve readonly_ret readonly_lift readonly_ensure readonly_throw readonly_call
  readonly_attempt readonly_current readonly_read readonly_get readonly_now readonly_sleep : reads.

(** Read-only composites: split binds and loops, destruct matches. *)
Ltac sread :=
  repeat first
    [ progress intros
    | solve [eauto with reads]
    | apply readonly_bind
    | apply readonly_for_each
    | match goal with |- readonly (match ?x with _ => _ end) => destruct x end ].

Section Programs.
Context {E : Type} `{Host E, TargetFile E, ConfigLib, CosmosAccounts, EvmLib}.
Abbreviation W := (World E).

(** [ChainsConfig::load]. *)
Definition load_config : M W ChainsConfig :=
  root ← call read_target_file;
  lift (ok_or (chains_config root) "failed to parse chains config").

(** [cosmos::read_axelar_config]. *)
Definition read_axelar_config : M W TxParams :=
  c ← load_config; lift (cosmos_tx_params (cfg_axelar c)).

(** [cosmos::read_axelar_contract_field]. *)
Definition read_axelar_contract_field (path : string) : M W string :=
  root ← call read_target_file;
  lift (ok_or (pointer path root ≫= as_str) "field not found").

(** [utils::read_contract_address_by_name]; [read_contract_address] passes the
    key of a [ChainContract]. *)
Definition read_contract_address_by_name (id name : string) : M W Address :=
  c ← load_config;
  chain ← lift (config_chain c id);
  text ← lift (contract_address_by_name chain name);
  lift (ok_or (parse_address text) "invalid address").

(** [utils::update_target_json]. *)
Definition update_target_json (id name : string) (data : Json) : M W () :=
  root ← call read_target_file;
  root ← lift (insert_contract id name data root);
  call (write_target_file root).

(** [utils::patch_target_json]. *)
Definition patch_target_json (id name : string) (patches : Fields) : M W () :=
  root ← call read_target_file;
  root ← lift (patch_contract id name patches root);
  call (write_target_file root).

(** [utils::compute_domain_separator]. *)
Definition compute_domain_separator (id : string) : M W B256 :=
  c ← load_config;
  text ← lift (domain_separator_input c id);
  mret (keccak256 (string_bytes text)).

(** The block of the steps that reads a chain's Axelar name. *)
Definition read_chain_name (id : string) : M W string :=
  root ← call read_target_file; mret (chain_name id root).

Lemma readonly_load_config : readonly load_config.
Proof. unfold load_config. sread. Qed.
Lemma readonly_axelar_config : readonly read_axelar_config.
Proof. pose proof readonly_load_config. unfold read_axelar_config. sread. Qed.
Lemma readonly_contract_field path : readonly (read_axelar_contract_field path).
Proof. unfold read_axelar_contract_field. sread. Qed.
Lemma readonly_contract_address id name : readonly (read_contract_address_by_name id name).
Proof. pose proof readonly_load_config. unfold read_contract_address_by_name. sread. Qed.
Lemma readonly_update id name data : readonly (update_target_json id name data).
Proof. unfold update_target_json. sread. Qed.
Lemma readonly_patch id name patches : readonly (patch_target_json id name patches).
Proof. unfold patch_target_json. sread. Qed.
Lemma readonly_domain_separator id : readonly (compute_domain_separator id).
Proof. pose proof readonly_load_config. unfold compute_domain_separator. sread. Qed.
Lemma readonly_chain_name id : readonly (read_chain_name id).
Proof. unfold read_chain_name. sread. Qed.
End Programs.

#[export] Hint Resolve readonly_load_config readonly_axelar_config readonly_contract_field
  readonly_contract_address readonly_update readonly_patch readonly_domain_separator
  readonly_chain_name : reads.

(** ** What an edit of the file changes *)

Definition plain_token (s : string) : Prop := split_on "/"%char s = [s] /\ unescape s = s.

Lemma split_on_app sep a b :
  split_on sep a = [a] ->
  split_on sep (a +:+ String.String sep b)%string = a :: split_on sep b.
Proof.
  induction a as [|c a IH]; simpl.
  - intros _. by rewrite Ascii.eqb_refl.
  - destruct (Ascii.eqb c sep) eqn:Hc; [done|].
    destruct (split_on sep a) as [|t ts] eqn:Ha; [intros [= <-]; done|]. intros [= Ht Hts]. subst t ts.
    by rewrite IH.
Qed.

Lemma contracts_tokens id :
  plain_token id -> pointer_tokens (contracts_path id) = Some ["chains"; id; "contracts"].
Proof.
  intros [Hid Hun]. pose proof (split_on_app "/"%char id "contracts" Hid) as Hs.
  unfold contracts_path, pointer_tokens. simpl in Hs |- *.
  change ("" +:+ id +:+ "/contracts")%string with (id +:+ "/contracts")%string.
  rewrite Hs. simpl. by rewrite Hun.
Qed.

(** Recording a deployed contract changes that entry and nothing else.
    After a successful edit the contract's entry is the recorded data, every
    other contract of the chain, and everything outside the chain's contracts,
    reads as before. *)
Theorem insert_contract_spec id name data root root' :
  plain_token id -> objects_along ["chains"; id; "contracts"] root ->
  insert_contract id name data root = Ok root' ->
  walk ["chains"; id; "contracts"; name] root' = Some data /\
  (forall other, other <> name ->
     walk ["chains"; id; "contracts"; other] root' = walk ["chains"; id; "contracts"; other] root) /\
  (forall path, disjoint_paths ["chains"; id; "contracts"] path -> walk path root' = walk path root).
Proof.
  intros Hid Hobj Hi. apply ok_or_ok in Hi. unfold pointer_mut in Hi.
  rewrite contracts_tokens in Hi by done.
  change (walk_mut ["chains"; id; "contracts"]
    (fun v => o ← as_object v; Some (JObj (set_field name data o))) root = Some root') in Hi.
  pose proof (walk_mut_here _ _ _ _ Hi) as Hhere.
  assert (exists o, walk ["chains"; id; "contracts"] root = Some (JObj o) /\
    walk ["chains"; id; "contracts"] root' = Some (JObj (set_field name data o))) as (o & Ho & Ho').
  { rewrite Hhere. clear Hhere. revert Hobj Hi. cbn [walk walk_mut objects_along].
    destruct root as [| | | |l|o]; try done.
    destruct (field "chains" o) as [[| | | |l1|o1]|]; simpl; try done.
    destruct (field id o1) as [[| | | |l2|o2]|]; simpl; try done.
    destruct (field "contracts" o2) as [[| | | |l3|o3]|]; simpl; try done. intros _ _. eauto. }
  assert (forall k v, walk ["chains"; id; "contracts"; k] v =
    walk ["chains"; id; "contracts"] v ≫= walk [k]) as Happ by (intros; apply (walk_app [_; _; _] [_])).
  split; [|split].
  - rewrite Happ, Ho'. simpl. by rewrite field_set_field, decide_True.
  - intros other Hne. rewrite !Happ, Ho, Ho'. simpl. by rewrite field_set_field, decide_False.
  - intros path Hd. by eapply walk_mut_elsewhere.
Qed.
