(* ===== verification/Recovery.v ===== *)
(** * Retiring failed attempts (hardened/recovery.rs)

    The [--retry-failed] path: an attempt leaves the journal's actions only
    when the chain has proved that it was included and failed. *)

From Stdlib Require Import Ascii.
From Stdlib Require String.
From S2P Require Import Prelude Types Journal Chain Machine Session Funding State Plan Config Intent EvmRecovery Cosmos.

(** [key.split('/').next()]: the text before the first slash, or all of it. *)
Fixpoint step_of_key (key : string) : string :=
  match key with
  | String.EmptyString => ""
  | String.String c rest => if Ascii.eqb c "/"%char then "" else String.String c (step_of_key rest)
  end.

Fixpoint has_slash (key : string) : bool :=
  match key with
  | String.EmptyString => false
  | String.String c rest => Ascii.eqb c "/"%char || has_slash rest
  end.

(** [key.split_once('/')], by its first half. *)
Definition split_step (key : string) : option string :=
  if has_slash key then Some (step_of_key key) else None.

Definition is_cosmos (tx : Transaction) : bool := negb (is_evm tx).

(** The check of one recovery flag in [recovery::validate_options]. *)
Definition validate_flag (o : Options) (actions : list (string * Transaction)) (key : string)
    : result () :=
  saved ← ok_or (snd <$> List.find (fun kv => bool_decide (kv.1 = key)) actions)
    "unknown recovery action";
  _ ← (if bool_decide (opt_retry_failed o = Some key) && bool_decide (is_Some (retry_gas_limit o))
       then ensure_ok (is_evm saved) "--retry-gas-limit only applies to EVM actions"
       else Ok ());
  if bool_decide (bump_fees o = Some key) then
    ensure_ok (Bool.eqb (is_cosmos saved) (bool_decide (is_Some (cosmos_fee o))))
      "Cosmos fee replacement requires --cosmos-fee; EVM replacements must omit it"
  else Ok ().

(** [recovery::validate_options]. *)
Definition validate_options (o : Options) (actions : list (string * Transaction)) : result () :=
  check_all (validate_flag o actions) (omap id [bump_fees o; opt_retry_failed o]).

(** The proposal a step would create. *)
Definition step_proposal (step : string) : option string :=
  if decide (step = "InstantiateChainContracts") then Some "instantiate"
  else if decide (step = "RegisterItsOnHub") then Some "itsHubRegister"
  else None.

(** [recovery::validate_progress]. *)
Definition validate_progress (st : State) (key : string) : result () :=
  step ← ok_or (split_step key) "invalid action key";
  _ ← ensure_ok
    (match next_pending_step st with
     | Some (_, next) => bool_decide (step_name next = step)
     | None => false
     end &&
     existsb (fun s => bool_decide (step_name s = step) && bool_decide (step_status s = Pending))
       (steps st))
    "only the next pending step can be retried";
  ensure_ok (match step_proposal step with
             | Some proposal => bool_decide (proposals st !! proposal = None)
             | None => true
             end)
    "a proposal already exists; a rejected/failed proposal cannot use transaction retry".

(** The Cosmos actions that may be retried. *)
Definition cosmos_retry_keys : list string :=
  ["WaitForVerifierSet/cosmos"; "AddRewards/cosmos"; "InstantiateChainContracts/cosmos";
   "RegisterItsOnHub/cosmos"].

Section Programs.
Context {E : Type} `{Host E, EvmNode E, LcdNode E, EvmLib, CosmosLib, CosmosAccounts}.
Abbreviation W := (World E).
Implicit Types (sc : Scope) (key lcd : string).

(** The loop of [recovery::failed_attempt]. *)
Fixpoint failed_scan sc (sender : string) (sequence : Z) (attempts : list Transaction)
    : M W string :=
  match attempts with
  | [] => throw (Failed "no confirmed failure; unknown or successful transactions cannot be retried")
  | EvmTx _ _ _ _ _ _ :: attempts => failed_scan sc sender sequence attempts
  | CosmosTx _ raw hash from _ seq :: attempts =>
      if bool_decide (from = sender) && (seq =? sequence) then
        saved ← confirmation sc hash;
        match saved with
        | Some (CosmosConfirmed height code _) =>
            if (0 <? height) && negb (code =? 0) then
              lift (validate_sequence raw sequence);;
              ensure (bool_decide (cosmos_tx_hash raw = hash)) "failed transaction hash mismatch";;
              mret hash
            else failed_scan sc sender sequence attempts
        | _ => failed_scan sc sender sequence attempts
        end
      else failed_scan sc sender sequence attempts
  end.

(** [recovery::failed_attempt]. *)
Definition failed_attempt sc key (saved : Transaction) : M W string :=
  match saved with
  | EvmTx _ _ _ _ _ _ => throw (Failed "expected Cosmos action")
  | CosmosTx _ _ _ sender _ sequence =>
      attempts ← journal_attempts sc key saved;
      failed_scan sc sender sequence attempts
  end.

(** The proof of failure [recovery::retry_failed] demands. *)
Definition prove_failed (fuel : nat) sc key (saved : Transaction) lcd : M W string :=
  match saved with
  | EvmTx _ _ _ _ _ _ => prove fuel sc key saved
  | CosmosTx _ _ _ sender _ sequence =>
      ensure (bool_decide (key ∈ cosmos_retry_keys)) "unsupported Cosmos retry action";;
      ignore (confirmed sc lcd saved key);;
      hash ← failed_attempt sc key saved;
      account ← lcd_query_account lcd sender;
      ensure (sequence <? account.2) "failed Cosmos transaction did not consume its sequence";;
      mret hash
  end.

(** [recovery::retry_failed]: [true] is never returned; a retirement ends
    the run. *)
Definition retry_failed (fuel : nat) sc (st : State) key (saved : Transaction) lcd : M W bool :=
  s ← current sc;
  if negb (bool_decide (opt_retry_failed (options s) = Some key)) then mret false
  else
    lift (validate_progress st key);;
    prove_failed fuel sc key saved lcd;;
    approved ← confirm_prompt "Retire the failed attempt?";
    if negb approved then throw (Paused "retry declined")
    else
      retire sc key (retry_gas_limit (options s));;
      throw (Paused "Failed attempt retired. Resume without --retry-failed").
End Programs.

(** ** Retirement keeps the invariant *)

Section Keeps.
Context {E : Type} `{Host E, EvmNode E, LcdNode E, EvmLib, CosmosLib, CosmosAccounts}.
Implicit Types (sc : Scope) (key lcd : string) (φ : Journal -> Prop).

Lemma hoare_failed_scan init sc key saved sender sequence attempts F `{!Tolerates init F} :
  group_of saved = CosmosSlot sender sequence ->
  hoare (Has init (fun j => actions j !! key = Some saved /\ all_recorded key attempts j))
    (failed_scan (E := E) sc sender sequence attempts)
    (fun _ => Has init (failure_on_record key saved)) F.
Proof.
  intros Hg. induction attempts as [|a attempts IH]; cbn [failed_scan]; [hthrow|].
  assert (forall a', hoare (Has (E := E) init (fun j => (actions j !! key = Some saved /\
      all_recorded key (a' :: attempts) j))) (failed_scan sc sender sequence attempts)
    (fun _ => Has init (failure_on_record key saved)) F) as IH'.
  { intros a'. eapply hoare_pre; [apply IH|]. intros w Hw. eapply Has_weaken; [|done].
    intros j [? Hall]. split; [done|]. intros x Hx. apply Hall. set_solver. }
  destruct a as [|i raw hash from fee seq]; [apply IH'|].
  destruct (bool_decide (from = sender) && (seq =? sequence)) eqn:Hc; [|apply IH'].
  apply andb_true_iff in Hc as [->%bool_decide_eq_true ->%Z.eqb_eq].
  hstep. intros r. destruct r as [[|hh cc resp]|].
  - eapply hoare_pre; [apply IH'|]. intros w Hw. eapply Has_weaken; [|done]. naive_solver.
  - destruct ((0 <? hh) && negb (cc =? 0)) eqn:Hp.
    + hstep as u Hv. hstep as u2 Hh. hret. eapply Has_weaken; [|done].
      intros j [[Ho Hall] Hconf]. destruct (Hconf _ eq_refl) as [_ Hconf'].
      exists (CosmosTx i raw hash sender fee sequence), (CosmosConfirmed hh cc resp).
      split; [done|]. split; [apply Hall; set_solver|]. done.
    + eapply hoare_pre; [apply IH'|]. intros w Hw. eapply Has_weaken; [|done]. naive_solver.
  - eapply hoare_pre; [apply IH'|]. intros w Hw. eapply Has_weaken; [|done]. naive_solver.
Qed.

Lemma hoare_failed_attempt init sc key saved act F `{!Tolerates init F} :
  hoare (Has init (owns key saved act)) (failed_attempt (E := E) sc key saved)
    (fun _ => Has init (failure_on_record key saved)) F.
Proof.
  unfold failed_attempt. destruct saved as [|i raw h sender fee sequence] eqn:Hs; [hthrow|].
  rewrite <- Hs. hstep. intros l.
  eapply hoare_pre; [apply hoare_failed_scan; [typeclasses eauto|by rewrite Hs]|].
  intros w Hw. eapply Has_weaken; [|done]. intros j [[Ho Hf] Hl]. split; [done|].
  intros a Ha. subst l. unfold recorded. rewrite Ho. simpl.
  destruct (active sc); set_solver.
Qed.

Lemma hoare_prove_failed init fuel sc key saved lcd act :
  hoare (Has init (owns key saved act)) (prove_failed (E := E) fuel sc key saved lcd)
    (fun _ => Has init (failure_on_record key saved)) (Safe init).
Proof.
  unfold prove_failed. destruct saved as [i raw h s n g|i raw h sender fee sequence] eqn:Hs.
  { rewrite <- Hs. eapply hoare_prove. }
  rewrite <- Hs. hstep as u Hk.
  eapply (hoare_bind _ _ (fun _ => Has init (owns key saved act))).
  { apply hoare_ignore_quiet; [apply quiet_confirmed| |].
    - eapply hoare_post; [apply hoare_confirmed; [typeclasses eauto|apply owns_confirm_stable]|].
      intros [r|] w Hw; [by destruct Hw as [_ [? _]]|by destruct Hw].
    - intros j j' [Ho Hf] Ha _. split; [by rewrite Ha|]. intros k Hk'. rewrite Ha. by apply Hf. }
  intros []. eapply hoare_bind; [apply hoare_failed_attempt; typeclasses eauto|]. intros hash.
  eapply hoare_bind; [apply hoare_lcd_query_account; typeclasses eauto|]. intros account.
  hstep as u2 Hseq. by hret.
Qed.

(** A run that retires an attempt has its failure on record. *)
Lemma hoare_retry_failed init fuel sc st key saved lcd act :
  hoare (Has init (owns key saved act)) (retry_failed (E := E) fuel sc st key saved lcd)
    (fun r w => r = false /\ Has init (owns key saved act) w) (Safe init).
Proof.
  unfold retry_failed. hstep as s Hs. destruct (negb _); [by hret|].
  hstep as u Hv. eapply hoare_bind; [apply hoare_prove_failed|]. intros hash.
  hstep. intros [|]; cbn [negb]; [|hthrow].
  eapply hoare_bind.
  - apply hoare_retire. intros j (failed & c & Hrest). exists saved, failed, c. naive_solver.
  - intros u2. hthrow.
Qed.
End Keeps.
