(* ===== verification/Verifiers.v ===== *)
(** * The initial verifier set (hardened/verifier_set.rs, verifier_types.rs,
    verification.rs; evm.rs CREATE addresses)

    The prover's signer set that the gateway is constructed with, and the
    address the gateway must be created at. *)

From Stdlib Require Ascii String.
From S2P Require Import Prelude Types Journal Chain Machine Session Funding State Plan Intent.

(** ** CREATE addresses *)

(** [while b.first() == Some(&0) { b.remove(0); }]. *)
Fixpoint strip_zeros (b : bytes) : bytes :=
  match b with
  | 0 :: rest => strip_zeros rest
  | _ => b
  end.

(** The bytes [evm::compute_create_address] hashes. *)
Definition create_preimage (sender : Address) (nonce : Z) : bytes :=
  let nonce_item :=
    if nonce =? 0 then [0x80]
    else if nonce <? 0x80 then [nonce]
    else let b := strip_zeros (be_bytes 8 nonce) in (0x80 + Z.of_nat (length b)) :: b in
  let items := 0x94 :: be_bytes 20 sender ++ nonce_item in
  let len := Z.of_nat (length items) in
  (if len <? 56 then [0xc0 + len]
   else let b := strip_zeros (be_bytes 8 len) in (0xf7 + Z.of_nat (length b)) :: b) ++ items.

(** [evm::compute_create_address]: the low twenty bytes of the hash. *)
Definition compute_create_address `{EvmLib} (sender : Address) (nonce : Z) : Address :=
  keccak256 (create_preimage sender nonce) mod 2 ^ 160.

(** [verification::validate_gateway_prediction]. *)
Definition validate_gateway_prediction `{EvmLib} (sender : Address) (nonce : Z) (expected : Address)
    : result () :=
  proxy_nonce ← ok_or (checked_add 64 nonce 1) "gateway nonce overflow";
  ensure_ok (compute_create_address sender proxy_nonce =? expected)
    "gateway deployer nonce changed since address prediction".

(** ** The prover's set *)

Inductive Amount : Type := AText (value : string) | ANumber (value : Z).

(** [Amount::value]. *)
Definition amount_value (a : Amount) : result Z :=
  match a with
  | AText value => ok_or (parse_uint 128 value) "invalid amount"
  | ANumber value => Ok value
  end.

Record Signer : Type := mkSigner {
  sg_address : string;
  sg_ecdsa : string;
  sg_weight : Amount
}.

Record ProverSet : Type := mkProverSet {
  ps_id : string;
  ps_signers : gmap string Signer;
  ps_threshold : Amount;
  ps_created_at : Z
}.

Record Service : Type := mkService {
  min_num_verifiers : Z;
  max_num_verifiers : option Z
}.

Definition validate_limits (s : Service) : result () :=
  _ ← ensure_ok (0 <? min_num_verifiers s) "service minimum must be positive";
  ensure_ok (match max_num_verifiers s with
             | Some max => min_num_verifiers s <=? max
             | None => true
             end) "invalid service verifier limits".

Definition validate_count (count : Z) (s : Service) : result () :=
  _ ← validate_limits s;
  ensure_ok ((min_num_verifiers s <=? count) &&
             match max_num_verifiers s with Some max => count <=? max | None => true end)
    "verifier count is outside service limits".

(** Keys of signers: hex text to an EVM address (hex and k256). *)
Class SignerLib : Type := {
  (** [pubkey_to_address(&hex::decode(key.trim_start_matches("0x"))?)]. *)
  pubkey_address : string -> option Address;
  (** [WeightedSigners { signers, threshold, nonce }.abi_encode()]. *)
  signers_abi : list (Address * Z) -> Z -> B256 -> bytes
}.

Definition member : Type := Address * string * Z.

Definition member_le (a b : member) : Prop := a.1.1 <= b.1.1.
#[export] Instance member_le_dec a b : Decision (member_le a b) := decide (a.1.1 <= b.1.1).

(** [windows(2).all(|pair| pair[0].0 < pair[1].0)]. *)
Fixpoint strictly_ascending (l : list member) : bool :=
  match l with
  | a :: (b :: _) as rest => (a.1.1 <? b.1.1) && strictly_ascending rest
  | _ => true
  end.

Section SignerSet.
Context `{EvmLib, CosmosAccounts, SignerLib}.

(** [verification::signer_hash]. *)
Definition signer_hash (signers : list (Address * Z)) (threshold : Z) (nonce : B256) : B256 :=
  keccak256 (signers_abi signers threshold nonce).

(** [verification::snapshot]. *)
Definition snapshot (identities : list string) (signers : list (Address * Z)) (threshold : Z)
    (nonce : B256) (id : string) : InitialSigners :=
  mkInitialSigners identities signers threshold nonce id (signer_hash signers threshold nonce).

(** The loop of [verifier_set::validate] over the signers. *)
Fixpoint collect_members (l : list (string * Signer)) (total : Z) : result (list member * Z) :=
  match l with
  | [] => Ok ([], total)
  | (identity, signer) :: l =>
      prefix ← ok_or (account_prefix identity) "invalid account";
      _ ← ensure_ok (bool_decide (prefix = "axelar") && bool_decide (sg_address signer = identity))
        "prover signer identity mismatch";
      weight ← amount_value (sg_weight signer);
      _ ← ensure_ok (0 <? weight) "zero signer weight";
      total ← ok_or (checked_add 128 total weight) "signer weight overflow";
      key ← ok_or (pubkey_address (sg_ecdsa signer)) "invalid pubkey";
      rest ← collect_members l total;
      Ok ((key, identity, weight) :: rest.1, rest.2)
  end.

(** [verifier_set::validate]. *)
Definition validate_set (s : ProverSet) (service : Service) (fraction : Z * Z)
    : result InitialSigners :=
  _ ← validate_count (Z.of_nat (size (ps_signers s))) service;
  _ ← ensure_ok (negb (bool_decide (ps_id s = ""))) "missing prover verifier set ID";
  collected ← collect_members (btree_list (ps_signers s)) 0;
  let '(members, total) := collected in
  let members := merge_sort member_le members in
  _ ← ensure_ok (strictly_ascending members) "duplicate signer keys";
  _ ← ensure_ok ((0 <? fraction.1) && (fraction.1 <=? fraction.2)) "invalid signing threshold";
  scaled ← ok_or (checked_mul 128 total fraction.1) "threshold overflow";
  let expected := div_ceil scaled fraction.2 in
  threshold ← amount_value (ps_threshold s);
  _ ← ensure_ok ((0 <? threshold) && (threshold =? expected))
    "prover signing threshold differs from deployment plan";
  Ok (snapshot (map (fun m => m.1.2) members) (map (fun m => (m.1.1, m.2)) members)
        threshold (ps_created_at s) (ps_id s)).

(** [verifier_set::same_set]: identities are compared as sets. *)
Definition same_set (a b : InitialSigners) : bool :=
  bool_decide (set_hash a = set_hash b) && bool_decide (set_id a = set_id b) &&
  bool_decide ((list_to_set (identities a) : gset string) = list_to_set (identities b)).
End SignerSet.

(** [verifier_set::insufficient_verifiers]: [None] is a query error other than
    an HTTP answer; the body is the contract's failure when it parses. *)
Definition insufficient_verifiers (error : option (Z * option (Z * string))) : bool :=
  match error with
  | Some (status, Some (code, message)) =>
      (status =? 500) && (code =? 2) &&
      bool_decide (message = "not enough verifiers: query wasm contract failed")
  | _ => false
  end.

(** ** CREATE addresses follow RLP *)

(** Reference definition: the recursive length prefix encoding of short byte
    strings and of lists of them, with integers as minimal big-endian strings. *)
Module Rlp.
Inductive item : Type := Str (b : bytes) | Lst (l : list bytes).

Definition str (b : bytes) : bytes :=
  match b with
  | [x] => if x <? 0x80 then [x] else [0x81; x]
  | _ => (0x80 + Z.of_nat (length b)) :: b
  end.

Definition uint (z : Z) : bytes := strip_zeros (be_bytes 8 z).

Definition encode (i : item) : bytes :=
  match i with
  | Str b => str b
  | Lst l => let payload := concat (map str l) in (0xc0 + Z.of_nat (length payload)) :: payload
  end.
End Rlp.

Lemma strip_zeros_length b : (length (strip_zeros b) <= length b)%nat.
Proof. induction b as [|[] b IH]; simpl; lia. Qed.

Fixpoint be_value (b : bytes) (acc : Z) : Z :=
  match b with
  | [] => acc
  | x :: b => be_value b (acc * 256 + x)
  end.

Lemma be_value_app a b acc : be_value (a ++ b) acc = be_value b (be_value a acc).
Proof. revert acc. induction a; intros acc; simpl; auto. Qed.

Lemma be_value_bytes n z acc :
  0 <= z < 256 ^ Z.of_nat n -> be_value (be_bytes n z) acc = acc * 256 ^ Z.of_nat n + z.
Proof.
  revert z acc. induction n as [|n IH]; intros z acc Hz; [simpl in *; lia|].
  rewrite Nat2Z.inj_succ, Z.pow_succ_r in * by lia. simpl. rewrite be_value_app. simpl.
  pose proof (Z.div_mod z 256 ltac:(lia)). pose proof (Z.mod_pos_bound z 256 ltac:(lia)).
  rewrite IH; [lia|]. split; [apply Z.div_pos; lia|]. apply Z.div_lt_upper_bound; lia.
Qed.

Lemma be_value_strip b : be_value (strip_zeros b) 0 = be_value b 0.
Proof. induction b as [|[] b IH]; simpl; auto. Qed.

Lemma strip_zeros_value n z :
  0 <= z < 256 ^ Z.of_nat n -> be_value (strip_zeros (be_bytes n z)) 0 = z.
Proof. intros Hz. rewrite be_value_strip, be_value_bytes by done. lia. Qed.

Lemma be_bytes_range n z : Forall (fun b => 0 <= b < 256) (be_bytes n z).
Proof.
  revert z. induction n as [|n IH]; intros z; simpl; [constructor|]. apply Forall_app. split; [done|].
  constructor; [apply Z.mod_pos_bound; lia|constructor].
Qed.

Lemma strip_zeros_range b : Forall (fun b => 0 <= b < 256) b ->
  Forall (fun b => 0 <= b < 256) (strip_zeros b).
Proof. induction 1 as [|[] b Hx Hb IH]; simpl; auto. Qed.

(** A nonce of more than seven bits is not a single small byte. *)
Lemma uint_large z x : 0x80 <= z < 2 ^ 64 -> Rlp.uint z = [x] -> 0x80 <= x.
Proof.
  intros Hz Hx. assert (be_value (Rlp.uint z) 0 = z) as Hv by (apply strip_zeros_value; exact (conj (Z.le_trans 0 128 z ltac:(lia) (proj1 Hz)) (proj2 Hz))).
  rewrite Hx in Hv. simpl in Hv. lia.
Qed.

Lemma uint_small z : 0 < z < 0x80 -> Rlp.uint z = [z].
Proof.
  intros Hz. unfold Rlp.uint. change 8%nat with (S 7). cbn [be_bytes].
  rewrite (Z.div_small z 256), (Z.mod_small z 256) by lia. simpl. by destruct z; [lia|..].
Qed.

Lemma nonce_item_rlp nonce :
  0 <= nonce < 2 ^ 64 ->
  (if nonce =? 0 then [0x80]
   else if nonce <? 0x80 then [nonce]
   else (0x80 + Z.of_nat (length (Rlp.uint nonce))) :: Rlp.uint nonce) = Rlp.str (Rlp.uint nonce).
Proof.
  intros Hn. destruct (Z.eqb_spec nonce 0) as [->|Hz]; [done|].
  destruct (Z.ltb_spec nonce 0x80).
  - rewrite uint_small by lia. simpl. by destruct (Z.ltb_spec nonce 128); [|lia].
  - destruct (Rlp.uint nonce) as [|x [|y l]] eqn:Hu; simpl; [done| |done].
    apply uint_large in Hu; [|lia]. by destruct (Z.ltb_spec x 128); [lia|].
Qed.

Lemma str_length b : (length (Rlp.str b) <= S (length b))%nat.
Proof. destruct b as [|x [|y l]]; simpl; [lia|destruct (x <? 128); simpl; lia|lia]. Qed.

Lemma create_preimage_rlp sender nonce :
  0 <= nonce < 2 ^ 64 ->
  create_preimage sender nonce = Rlp.encode (Rlp.Lst [be_bytes 20 sender; Rlp.uint nonce]).
Proof.
  intros Hn. unfold create_preimage. cbv zeta. fold (Rlp.uint nonce). rewrite nonce_item_rlp by done.
  assert (Rlp.str (be_bytes 20 sender) = 0x94 :: be_bytes 20 sender) as Hs.
  { unfold Rlp.str. rewrite be_bytes_length. pose proof (be_bytes_length 20 sender) as Hl.
    by destruct (be_bytes 20 sender) as [|x [|y l]]. }
  unfold Rlp.encode. cbn [map concat]. rewrite Hs, app_nil_r.
  set (items := (0x94 :: be_bytes 20 sender) ++ Rlp.str (Rlp.uint nonce)).
  change (148 :: be_bytes 20 sender ++ Rlp.str (Rlp.uint nonce)) with items.
  assert (length items <= 30)%nat as Hlen.
  { unfold items. rewrite length_app. change (length (148 :: be_bytes 20 sender)) with (S (length (be_bytes 20 sender))). rewrite be_bytes_length.
    pose proof (str_length (Rlp.uint nonce)). pose proof (strip_zeros_length (be_bytes 8 nonce)) as Hz.
    rewrite be_bytes_length in Hz. unfold Rlp.uint in *. lia. }
  destruct (Z.ltb_spec (Z.of_nat (length items)) 56); [done|lia].
Qed.

(** The CREATE address of a deployer is computed from the canonical RLP
    encoding of the pair (address, nonce), for every account nonce. *)
Theorem compute_create_address_rlp `{EvmLib} sender nonce :
  0 <= nonce < 2 ^ 64 ->
  compute_create_address sender nonce =
    keccak256 (Rlp.encode (Rlp.Lst [be_bytes 20 sender; Rlp.uint nonce])) mod 2 ^ 160.
Proof. intros Hn. unfold compute_create_address. by rewrite create_preimage_rlp. Qed.

(** *** The encoding is injective, so a prediction pins one account nonce *)

Lemma uint_inj a b : 0 <= a < 2 ^ 64 -> 0 <= b < 2 ^ 64 -> Rlp.uint a = Rlp.uint b -> a = b.
Proof.
  intros Ha Hb Heq. pose proof (strip_zeros_value 8 a Ha) as H1.
  pose proof (strip_zeros_value 8 b Hb) as H2. unfold Rlp.uint in Heq. congruence.
Qed.

Lemma str_inj a b :
  (length a <= 55)%nat -> (length b <= 55)%nat -> Rlp.str a = Rlp.str b -> a = b.
Proof.
  intros Ha Hb.
  destruct a as [|x [|y a]], b as [|x' [|y' b]]; simpl in *;
    repeat match goal with |- context [if ?c then _ else _] => destruct c eqn:? end;
    rewrite ?Z.ltb_lt, ?Z.ltb_ge in *; try done; intros [=]; subst; try lia; try congruence.
Qed.

Lemma create_preimage_inj s n s' n' :
  0 <= s < 2 ^ 160 -> 0 <= s' < 2 ^ 160 -> 0 <= n < 2 ^ 64 -> 0 <= n' < 2 ^ 64 ->
  create_preimage s n = create_preimage s' n' -> s = s' /\ n = n'.
Proof.
  intros Hs Hs' Hn Hn'. rewrite !create_preimage_rlp by done. unfold Rlp.encode. cbn [map concat].
  rewrite !app_nil_r. intros [_ Heq]%cons_eq_inj.
  assert (forall z, length (Rlp.str (be_bytes 20 z)) = 21%nat) as Hl.
  { intros z. pose proof (be_bytes_length 20 z) as Hl. unfold Rlp.str.
    destruct (be_bytes 20 z) as [|x [|y l]]; simpl in *; lia. }
  apply app_inj_1 in Heq as [H1 H2]; [|by rewrite !Hl]. split.
  - apply str_inj in H1; [|rewrite be_bytes_length; lia..]. by apply (be_bytes_inj 20) in H1.
  - apply str_inj in H2.
    + by apply uint_inj in H2.
    + pose proof (strip_zeros_length (be_bytes 8 n)) as Hz. rewrite be_bytes_length in Hz.
      unfold Rlp.uint. lia.
    + pose proof (strip_zeros_length (be_bytes 8 n')) as Hz. rewrite be_bytes_length in Hz.
      unfold Rlp.uint. lia.
Qed.

(** The two pairs do not collide under keccak: what an address prediction
    relies on. *)
Definition no_create_collision `{EvmLib} (a n b m : Z) : Prop :=
  compute_create_address a n = compute_create_address b m ->
  create_preimage a n = create_preimage b m.

(** The gateway address registered on Cosmos pins the deployer and its
    nonce.  If two (deployer, nonce) pairs pass the check against one expected
    address, and their proxy addresses do not collide under keccak, they are
    the same pair; in particular a consumed nonce is always noticed. *)
Theorem gateway_prediction_pins `{EvmLib} a n b m expected :
  no_create_collision a (n + 1) b (m + 1) ->
  0 <= a < 2 ^ 160 -> 0 <= b < 2 ^ 160 -> 0 <= n < 2 ^ 64 -> 0 <= m < 2 ^ 64 ->
  validate_gateway_prediction a n expected = Ok () ->
  validate_gateway_prediction b m expected = Ok () -> a = b /\ n = m.
Proof.
  intros Hcf Ha Hb Hn Hm H1 H2. unfold validate_gateway_prediction in *.
  apply result_bind_ok in H1 as (pn & Hp1%ok_or_ok & H1%ensure_ok_ok%Z.eqb_eq).
  apply result_bind_ok in H2 as (pm & Hp2%ok_or_ok & H2%ensure_ok_ok%Z.eqb_eq).
  unfold checked_add in *. apply checked_Some in Hp1 as [<- ?], Hp2 as [<- ?].
  rewrite <- H2 in H1. apply Hcf, create_preimage_inj in H1; lia.
Qed.

(** ** The accepted set *)

(** A member was read from a signer of the prover's answer. *)
Definition member_of `{SignerLib} (s : ProverSet) (m : member) : Prop :=
  exists signer, ps_signers s !! m.1.2 = Some signer /\ sg_address signer = m.1.2 /\
    pubkey_address (sg_ecdsa signer) = Some m.1.1 /\ amount_value (sg_weight signer) = Ok m.2.

Lemma collect_members_spec `{CosmosAccounts, SignerLib} l total members total' :
  0 <= total ->
  collect_members l total = Ok (members, total') ->
  total' = total + zsum (map snd members) /\ Forall (fun m => 0 < m.2) members /\
  map (fun m => m.1.2) members = l.*1 /\ (l <> [] -> 0 <= total' < 2 ^ 128) /\
  Forall2 (fun kv m => kv.1 = m.1.2 /\ sg_address kv.2 = m.1.2 /\
    pubkey_address (sg_ecdsa kv.2) = Some m.1.1 /\ amount_value (sg_weight kv.2) = Ok m.2) l members.
Proof.
  revert total members total'. induction l as [|[identity signer] l IH]; intros total members total' Ht.
  - simpl. intros [= <- <-]. simpl. split; [lia|]. repeat split; try done; constructor.
  - cbn [collect_members]. intros (prefix & _ & Hr)%result_bind_ok.
    apply result_bind_ok in Hr as (u & Hid%ensure_ok_ok & Hr).
    apply andb_true_iff in Hid as [_ Hid%bool_decide_eq_true].
    apply result_bind_ok in Hr as (weight & Hw & Hr).
    apply result_bind_ok in Hr as (u2 & Hpos%ensure_ok_ok%Z.ltb_lt & Hr).
    apply result_bind_ok in Hr as (t1 & Ht1%ok_or_ok & Hr).
    apply checked_Some in Ht1 as [<- Hb].
    apply result_bind_ok in Hr as (key & Hkey%ok_or_ok & Hr).
    apply result_bind_ok in Hr as ([rest t2] & Hrest & Hr). apply Ok_inj in Hr. simplify_eq/=.
    apply IH in Hrest as (-> & Hall & Hids & Hbound & Hf2); [|lia].
    split; [lia|]. split; [by constructor|]. split; [by f_equal|]. split.
    + intros _. destruct l; [|by apply Hbound]. destruct rest; [simpl; lia|done].
    + by constructor.
Qed.

Lemma strictly_ascending_lt l :
  strictly_ascending l = true -> StronglySorted Z.lt (map (fun m => m.1.1) l).
Proof.
  intros Ha. apply Sorted_StronglySorted; [intros ?; lia|].
  induction l as [|a [|b l] IH]; simpl in *; [constructor|by repeat constructor|].
  apply andb_true_iff in Ha as [Hab%Z.ltb_lt Ha]. constructor; [by apply IH|by constructor].
Qed.

#[export] Instance zsum_map_perm {A} (f : A -> Z) : Proper ((≡ₚ) ==> (=)) (fun l => zsum (map f l)).
Proof. intros l1 l2 Hp. by rewrite Hp. Qed.

(** The signer set a gateway is constructed with.  When the prover's
    answer is accepted under a majority threshold fraction, its size is within
    the service limits; its signers are listed in strictly ascending address
    order, hence without duplicates; every weight is positive; the threshold
    is the exact ceiling of the fraction of the total weight, is attainable,
    and exceeds half of it, so two quorums always share a signer; identities
    line up with signers and come from the prover's answer; and the snapshot
    carries the hash of exactly these signers. *)
Theorem validate_set_spec `{EvmLib, CosmosAccounts, SignerLib} s service num den r :
  validate_set s service (num, den) = Ok r -> valid_threshold (num, den) = true ->
  let total := zsum (map snd (signers r)) in
  let count := Z.of_nat (length (signers r)) in
  min_num_verifiers service <= count /\
  (forall max, max_num_verifiers service = Some max -> count <= max) /\
  StronglySorted Z.lt (map fst (signers r)) /\
  Forall (fun m => 0 < m.2) (signers r) /\
  den * (threshold r - 1) < total * num <= den * threshold r /\
  threshold r <= total < 2 * threshold r /\
  Forall2 (fun id m => member_of s (m.1, id, m.2)) (identities r) (signers r) /\
  set_hash r = signer_hash (signers r) (threshold r) (set_nonce r).
Proof.
  unfold validate_set. intros Hv Hfrac.
  apply result_bind_ok in Hv as (u1 & Hcount & Hv).
  apply result_bind_ok in Hv as (u2 & _ & Hv).
  apply result_bind_ok in Hv as ([members total] & Hc & Hv).
  apply collect_members_spec in Hc as (-> & Hpos & Hids & _ & Hf2); [|lia].
  apply result_bind_ok in Hv as (u3 & Hasc%ensure_ok_ok & Hv).
  apply result_bind_ok in Hv as (u4 & _ & Hv).
  apply result_bind_ok in Hv as (scaled & Hsc%ok_or_ok%checked_Some & Hv).
  destruct Hsc as [<- Hsc]. simpl in Hsc.
  apply result_bind_ok in Hv as (t & _ & Hv).
  apply result_bind_ok in Hv as (u5 & Ht%ensure_ok_ok & Hv). apply Ok_inj in Hv as <-.
  apply andb_true_iff in Ht as [Htpos%Z.ltb_lt Ht%Z.eqb_eq]. simpl in Ht. symmetry in Ht.
  unfold valid_threshold in Hfrac. simpl in Hfrac.
  apply andb_true_iff in Hfrac as [Hfrac Hmaj%Z.ltb_lt].
  apply andb_true_iff in Hfrac as [Hnum%Z.ltb_lt Hle%Z.leb_le].
  set (sorted := merge_sort member_le members) in *.
  assert (sorted ≡ₚ members) as Hperm by apply merge_sort_Permutation.
  assert (zsum (map snd members) = zsum (map snd sorted)) as Hsum by (by rewrite Hperm).
  apply div_ceil_spec in Ht; [|lia]. rewrite Hsum in *.
  cbn [signers identities threshold set_hash set_nonce snapshot].
  rewrite !map_map, !length_map. cbn [fst snd].
  assert (length sorted = size (ps_signers s)) as Hlen.
  { rewrite (Permutation_length Hperm).
    transitivity (length (btree_list (ps_signers s)).*1); [rewrite <- Hids; by rewrite length_map|].
    rewrite length_fmap. unfold btree_list.
    by rewrite (Permutation_length (merge_sort_Permutation _ _)), length_map_to_list. }
  unfold validate_count in Hcount. apply result_bind_ok in Hcount as (u6 & _ & Hcount).
  apply ensure_ok_ok, andb_true_iff in Hcount as [Hmin%Z.leb_le Hmax].
  unfold member in *. rewrite Hlen.
  change (map (fun x : Z * string * Z => x.2) sorted) with (map snd sorted).
  split; [done|]. split; [by intros mx Hmx; rewrite Hmx in Hmax; apply Z.leb_le|].
  split; [by apply strictly_ascending_lt|].
  split; [by apply Forall_map; rewrite Hperm|]. split; [lia|]. split; [nia|]. split; [|done].
  apply Forall2_fmap_2. assert (Forall (member_of s) sorted) as Hm.
  { rewrite Hperm. apply list.Forall_forall. intros m Hm.
    apply list_elem_of_lookup in Hm as [i Hi].
    destruct (Forall2_lookup_r _ _ _ _ _ Hf2 Hi) as ([k sg] & Hk & Heq & Hrest).
    exists sg. simpl in *. split; [|done]. rewrite <- Heq.
    apply elem_of_btree_list. by eapply list_elem_of_lookup_2. }
  clear -Hm. induction Hm as [|[[k id] wt] l Hx Hl IH]; constructor; [|done]. exact Hx.
Qed.
