(* ===== verification/Checkpoints.v ===== *)
(** * Checkpoints of a deployment (hardened/evidence.rs, protocols.rs,
    confirmations.rs, verification.rs, verifier_set.rs, session.rs load)

    What a run verifies and saves between transactions: the evidence of the
    deployed contracts, the protocol contracts it relies on, the confirmation
    policy, the initial signer set and the gateway's rotations.  All of these
    live in the journal beside the transactions and never touch them. *)

From S2P Require Import Prelude Types Journal Chain Machine Session Funding State Plan Config Intent Json Cosmos Target Verifiers.

(** ** Evidence *)

Definition affected_contract (step : string) : option string :=
  if decide (step = "TransferGatewayOwnership") then Some "AxelarGateway"
  else if decide (step = "TransferOperatorsOwnership") then Some "Operators"
  else if decide (step = "TransferGasServiceOwnership") then Some "AxelarGasService"
  else None.

Definition ownership_steps : list string :=
  ["TransferOperatorsOwnership"; "TransferGatewayOwnership"; "TransferGasServiceOwnership"].

Definition set_owner (o : option Address) (e : ContractEvidence) : ContractEvidence :=
  mkEvidence (ev_address e) (ev_code_hash e) o (ev_implementation e) (ev_operator e)
    (ev_signer_hash e).

Definition compatible (saved observed : ContractEvidence) (action : option string) : bool :=
  let expected := match action with
                  | Some step => if decide (step ∈ ownership_steps)
                                 then set_owner (ev_owner observed) saved else saved
                  | None => saved
                  end in
  bool_decide (expected = observed).

(** The comparison loop of [evidence::check] and [evidence::capture]. *)
Definition compare_evidence (saved : gmap string ContractEvidence)
    (observed : gmap string ContractEvidence) (action : option string) : result () :=
  check_all (fun '(name, previous) =>
    now ← ok_or (observed !! name) "missing from deployment configuration";
    ensure_ok (compatible previous now
        (action ≫= fun step => if decide (affected_contract step = Some name) then Some step else None))
      "on-chain state differs from the verified checkpoint") (btree_list saved).

(** Some action of the step is journaled. *)
Definition step_journaled (j : Journal) (step : string) : bool :=
  existsb (fun kv => String.prefix (step +:+ "/")%string kv.1) (btree_list (actions j)).

(** ** Protocol contracts *)

Definition validate_change (old new : gmap string ProtocolIdentity) : result () :=
  _ ← ensure_ok (Nat.eqb (size old) (size new)) "protocol contract set changed";
  check_all (fun '(name, a) =>
    b ← ok_or (new !! name) "protocol contract missing";
    _ ← ensure_ok (negb (bool_decide (pi_code_id a = pi_code_id b)) ||
                   bool_decide (pi_checksum a = pi_checksum b))
      "immutable code checksum changed without a new code ID";
    ensure_ok (bool_decide (pi_address a = pi_address b) && bool_decide (pi_creator a = pi_creator b) &&
               bool_decide (pi_admin a = pi_admin b))
      "protocol address or authority changed") (btree_list old).

(** ** Contract reads and configuration, behind the RPC and the LCD *)

Class DeployNode (E : Type) : Type := {
  eth_get_code : Address -> E -> result bytes * E;
  (** Views of a managed contract, at a block hash or at the latest block. *)
  mc_owner : option B256 -> Address -> E -> result Address * E;
  mc_implementation : option B256 -> Address -> E -> result Address * E;
  mc_operator : option B256 -> Address -> E -> result Address * E;
  mc_epoch : option B256 -> Address -> E -> result Z * E;
  mc_signers_hash : option B256 -> Address -> Z -> E -> result B256 * E;
  mc_rotation_delay : option B256 -> Address -> E -> result Z * E;
  (** The [current_verifier_set] of a prover, and a service of a registry (by
      its name and the chain), through an LCD. *)
  prover_set : string -> string -> E -> result (option ProverSet) * E;
  registry_service : string -> string -> string -> string -> E -> result Service * E
}.

Section Programs.
Context {E : Type} `{Host E, EvmNode E, DeployNode E, TargetFile E, ConfigLib, EvmLib,
                     CosmosAccounts, SignerLib}.
Abbreviation W := (World E).
Implicit Types (sc : Scope) (st : State).

(** [evidence::observe]. *)
Definition observe (name : string) (address : Address) : M W ContractEvidence :=
  bytecode ← call (eth_get_code address);
  ensure (negb (bool_decide (bytecode = []))) "no code";;
  let owned := bool_decide (name ∈ ["Operators"; "AxelarGateway"; "AxelarGasService";
                                    "InterchainTokenService"; "InterchainTokenFactory"]) in
  let proxy := owned && negb (bool_decide (name = "Operators")) in
  let gateway := bool_decide (name = "AxelarGateway") in
  owner ← (if owned then a ← call (mc_owner None address); mret (Some a) else mret None);
  implementation ← (if proxy then a ← call (mc_implementation None address); mret (Some a)
                    else mret None);
  operator ← (if gateway then a ← call (mc_operator None address); mret (Some a) else mret None);
  signer_hash ← (if gateway then h ← call (mc_signers_hash None address 1); mret (Some h)
                 else mret None);
  mret (mkEvidence address (keccak256 bytecode) owner implementation operator signer_hash).

Definition parse_text (v : string) : M W Address := lift (ok_or (parse_address v) "invalid address").

(** One configuration entry of [evidence::snapshot]. *)
Definition observe_entry (name : string) (config : Json)
    (m : gmap string ContractEvidence) : M W (gmap string ContractEvidence) :=
  m ← match as_str (index config "address") with
      | Some text => a ← parse_text text; e ← observe name a; mret (<[name := e]> m)
      | None => mret m
      end;
  match as_str (index config "implementation") with
  | Some text =>
      a ← parse_text text; e ← observe "implementation" a;
      mret (<[(name +:+ "Implementation")%string := e]> m)
  | None => mret m
  end.

Fixpoint observe_entries (l : Fields) (m : gmap string ContractEvidence)
    : M W (gmap string ContractEvidence) :=
  match l with
  | [] => mret m
  | (name, config) :: l => m ← observe_entry name config m; observe_entries l m
  end.

Fixpoint observe_helpers (s : Step) (names : list string) (m : gmap string ContractEvidence)
    : M W (gmap string ContractEvidence) :=
  match names with
  | [] => mret m
  | helper :: names =>
      m ← match its_address helper s with
          | Some a => e ← observe helper a; mret (<[helper := e]> m)
          | None => mret m
          end;
      observe_helpers s names m
  end.

Fixpoint observe_steps (l : list Step) (m : gmap string ContractEvidence)
    : M W (gmap string ContractEvidence) :=
  match l with
  | [] => mret m
  | s :: l =>
      m ← observe_helpers s ["TokenManagerDeployer"; "InterchainToken"; "InterchainTokenDeployer";
                             "TokenManager"; "TokenHandler"] m;
      observe_steps l m
  end.

(** [evidence::snapshot]. *)
Definition evidence_snapshot st : M W (gmap string ContractEvidence) :=
  root ← call read_target_file;
  m ← match as_object (index (index (index root "chains") (axelar_id st)) "contracts") with
      | Some contracts => observe_entries contracts ∅
      | None => mret ∅
      end;
  observe_steps (steps st) m.

Definition pending_name st : option string := step_name ∘ snd <$> next_pending_step st.

(** [evidence::check]. *)
Definition evidence_check sc st : M W () :=
  current sc;;
  j ← read_journal;
  let pending := pending_name st in
  let journaled := match pending with Some step => step_journaled j step | None => false end in
  observed ← evidence_snapshot st;
  lift (compare_evidence (evidence j) observed (if journaled : bool then pending else None)).

(** [evidence::capture]. *)
Definition evidence_capture sc st : M W () :=
  observed ← evidence_snapshot st;
  current sc;;
  j ← read_journal;
  lift (compare_evidence (evidence j) observed (pending_name st));;
  commit (set_evidence observed).

(** [protocols::approve]. *)
Definition approve_protocols sc (observed : gmap string ProtocolIdentity) : M W () :=
  current sc;;
  j ← read_journal;
  let previous := protocols j in
  if bool_decide (previous = observed) then mret ()
  else
    (if bool_decide (previous = ∅) then mret ()
     else
       lift (validate_change previous observed);;
       ok ← confirm_prompt "Accept these protocol code changes for this deployment?";
       if ok : bool then mret () else throw (Paused "protocol changes not approved"));;
    commit (fun j =>
      set_protocols observed
        (if bool_decide (previous = ∅) then j
         else set_protocol_history (protocol_history j ++ [previous]) j)).

(** [confirmations::persist]. *)
Definition persist_policy (policy : EvmConfirmationPolicy) : M W () :=
  commit (set_evm_confirmations policy).

(** [confirmations::observation_block]. *)
Definition observation_block sc : M W Block :=
  current sc;;
  j ← read_journal;
  let policy := evm_confirmations j in
  found ← call (eth_get_block (Policy.block_tag policy));
  head ← lift (ok_or found "EVM confirmation block unavailable");
  height ← lift (match policy with
                 | Confirmations count => ok_or (checked_sub 64 (bk_number head) (count - 1))
                     "chain has not reached the requested confirmation depth"
                 | Finalized => Ok (bk_number head)
                 end);
  if height =? bk_number head then mret head
  else
    found ← call (eth_get_block (TagNumber height));
    lift (ok_or found "EVM confirmation block unavailable").

(** [verification::initial_set]. *)
Definition initial_set sc : M W InitialSigners :=
  current sc;;
  j ← read_journal;
  match initial_signers j with
  | Some initial =>
      ensure (set_hash initial =? signer_hash (signers initial) (threshold initial) (set_nonce initial))
        "initial signer snapshot hash mismatch";;
      mret initial
  | None => throw (Paused "initial verifier set has not been approved")
  end.

Definition gateway_proxy_key : string := "AxelarGateway/gateway proxy".

(** [verifier_set::save_decision]. *)
Definition save_decision sc (initial : InitialSigners) (approved : bool) : M W () :=
  if negb approved then throw (Paused "Initial verifier set declined")
  else
    current sc;;
    j ← read_journal;
    ensure (bool_decide (actions j !! gateway_proxy_key = None))
      "gateway proxy already journaled; its initial signer set cannot be replaced";;
    commit (set_initial_signers (Some initial)).

(** [verifier_set::approve]. *)
Definition approve_set sc (initial : InitialSigners) : M W () :=
  current sc;;
  found ← get_action gateway_proxy_key;
  ensure (bool_decide (found = None))
    "gateway proxy already journaled; its initial signer set cannot be replaced";;
  approved ← confirm_prompt "Approve this initial verifier set for gateway deployment?";
  save_decision sc initial approved.

(** [verifiers::contract]. *)
Definition verifier_contract st (name : string) (per_chain : bool) : M W string :=
  read_axelar_contract_field
    (if per_chain then "/axelar/contracts/" +:+ name +:+ "/" +:+ axelar_id st +:+ "/address"
     else "/axelar/contracts/" +:+ name +:+ "/address")%string.

(** [verifiers::service]. *)
Definition verifier_service st (lcd registry : string) : M W Service :=
  call (registry_service lcd registry (verifier_service_name (st_env st)) (axelar_id st)).

(** [verifier_set::query]. *)
Definition query_set st : M W (option InitialSigners) :=
  c ← read_axelar_config;
  prover ← verifier_contract st "MultisigProver" true;
  found ← call (prover_set (tp_lcd c) prover);
  match found with
  | None => mret None
  | Some s =>
      registry ← verifier_contract st "ServiceRegistry" false;
      service ← verifier_service st (tp_lcd c) registry;
      p ← lift (ok_or (hardened_plan st) "missing deployment plan");
      initial ← lift (validate_set s service (signing_threshold p));
      mret (Some initial)
  end.

(** [verification::refresh_before_gateway]. *)
Definition refresh_before_gateway sc st : M W () :=
  current sc;;
  found ← get_action gateway_proxy_key;
  match found with
  | Some _ => mret ()
  | None =>
      pinned ← initial_set sc;
      found ← query_set st;
      match found with
      | None => throw (Paused "prover set disappeared before gateway creation")
      | Some now => if same_set pinned now then mret () else approve_set sc now
      end
  end.

(** [verification::gateway_nonce]. *)
Definition gateway_nonce sc st (sender : Address) : M W Z :=
  initial_set sc;;
  current sc;;
  found ← get_action (action_key sc "gateway implementation");
  nonce ← match found with
          | Some (EvmTx _ _ _ recorded nonce _) =>
              ensure (sender =? recorded) "gateway deployer differs from journal";;
              mret nonce
          | Some _ => throw (Failed "gateway implementation journal type mismatch")
          | None => call (eth_get_transaction_count sender)
          end;
  expected ← lift (ok_or (predicted_gateway_address st) "missing pinned gateway address");
  lift (validate_gateway_prediction sender nonce expected);;
  mret nonce.

(** The last entry of a [BTreeMap] keyed by epoch. *)
Definition last_rotation (m : gmap Z B256) : option (Z * B256) := list.last (btree_zlist m).

(** [verification::gateway]. *)
Definition gateway_check sc st : M W () :=
  address ← read_contract_address_by_name (axelar_id st) "AxelarGateway";
  ensure (bool_decide (Some address = predicted_gateway_address st)) "gateway address mismatch";;
  block ← observation_block sc;
  let at_block := Some (bk_hash block) in
  delay ← call (mc_rotation_delay at_block address);
  ensure (delay =? gateway_rotation_delay_seconds (st_env st))
    "gateway minimum signer rotation delay differs from the network preset";;
  initial ← initial_set sc;
  epoch ← call (mc_epoch at_block address);
  first ← (if 1 <=? epoch then h ← call (mc_signers_hash at_block address 1); mret (Some h)
           else mret None);
  ensure (bool_decide (first = Some (set_hash initial)))
    "gateway initial signer hash differs from the recorded deployment";;
  (if 1 <? epoch then
     now ← call (mc_signers_hash at_block address epoch);
     current sc;;
     j ← read_journal;
     match last_rotation (rotations j) with
     | Some (previous_epoch, previous_hash) =>
         same ← (if previous_epoch <=? epoch then
                   h ← call (mc_signers_hash at_block address previous_epoch);
                   mret (h =? previous_hash)
                 else mret false);
         ensure same "gateway rotation history changed"
     | None => mret ()
     end;;
     ensure (in_width 64 epoch) "epoch overflow";;
     if bool_decide (rotations j !! epoch = Some now) then mret ()
     else
       ok ← confirm_prompt "Accept this gateway rotation for subsequent deployment checks?";
       if negb ok then throw (Paused "gateway rotation not approved")
       else commit (fun j => set_rotations (<[epoch := now]> (rotations j)) j)
   else mret ());;
  operator ← call (mc_operator at_block address);
  s ← current sc;
  ensure (operator =? gateway_operator (plan s)) "gateway operator mismatch".

(** [verification::completed]. *)
Definition completed_check sc st : M W () :=
  gateway_check sc st;;
  s ← current sc;
  for_each (fun '(name, owner) =>
    address ← read_contract_address_by_name (axelar_id st) name;
    actual ← call (mc_owner None address);
    ensure (actual =? owner) "final owner mismatch")
    [("AxelarGateway", gateway_owner (plan s)); ("Operators", operators_owner (plan s));
     ("AxelarGasService", gas_service_owner (plan s));
     ("InterchainTokenService", its_owner (plan s));
     ("InterchainTokenFactory", factory_owner (plan s))].

(** [Session::load]: the journal read back, or a fresh one, written again. *)
Definition load_session (on_disk : option Journal) (fp : B256) : M W () :=
  j ← match on_disk with
      | Some j =>
          ensure (version j =? 2) "unsupported deployment journal version";;
          ensure (fingerprint j =? fp) "deployment inputs changed";;
          mret j
      | None => mret (fresh_journal fp)
      end;
  set_journal j;;
  atomic_write j.
End Programs.

(** ** Checkpoints keep the session invariant *)

(** A fact about the journal's transactions only. *)
Definition meta_stable (φ : Journal -> Prop) : Prop :=
  forall j j', same_transactions j j' -> φ j -> φ j'.

Lemma meta_stable_frames key act : meta_stable (frames key act).
Proof. intros j j' (Ha & _) Hf k Hk. rewrite Ha. by apply Hf. Qed.

Lemma meta_stable_true : meta_stable (fun _ => True).
Proof. done. Qed.

#[export] Hint Resolve meta_stable_frames meta_stable_true : hoare.

Section Keeps.
Context {E : Type} `{Host E, EvmNode E, DeployNode E, TargetFile E, ConfigLib, EvmLib, CosmosLib,
                     CosmosAccounts, SignerLib}.
Implicit Types (sc : Scope) (st : State) (φ : Journal -> Prop).

Lemma hoare_commit_meta init φ f :
  meta_stable φ -> (forall j, same_transactions j (f j)) ->
  hoare (Has (E := E) init φ) (commit f) (fun _ => Has init φ) (Safe init).
Proof.
  intros Hφ Hf. apply hoare_commit. intros V j Hj. split.
  - by apply js_meta.
  - by eapply Hφ.
Qed.

Lemma Has_read init φ (j : Journal) (w : World E) :
  Has init (fun j' => φ j' /\ j' = j) w -> Has init φ w.
Proof. apply Has_weaken. naive_solver. Qed.

(** A read whose value is only compared keeps what is known. *)
Lemma hoare_read_plain init φ F :
  hoare (Has (E := E) init φ) read_journal (fun _ => Has init φ) F.
Proof. by intros w Hw. Qed.

Lemma readonly_observe name address : readonly (observe (E := E) name address).
Proof. unfold observe. sread. Qed.

Lemma readonly_observe_entries l m : readonly (observe_entries (E := E) l m).
Proof.
  pose proof readonly_observe. revert m. induction l as [|[name config] l IH]; intros m; simpl; [done|].
  apply readonly_bind; [|done]. unfold observe_entry, parse_text. sread.
Qed.

Lemma readonly_observe_steps l m : readonly (observe_steps (E := E) l m).
Proof.
  pose proof readonly_observe. revert m. induction l as [|s l IH]; intros m; [done|].
  cbn [observe_steps]. apply readonly_bind; [|done]. generalize (["TokenManagerDeployer"; "InterchainToken";
    "InterchainTokenDeployer"; "TokenManager"; "TokenHandler"] : list string). intros names. revert m.
  induction names as [|n names IHn]; intros m; [done|]. cbn [observe_helpers].
  apply readonly_bind; [sread|done].
Qed.

Lemma readonly_evidence_snapshot st : readonly (evidence_snapshot (E := E) st).
Proof.
  pose proof readonly_observe_entries. pose proof readonly_observe_steps.
  unfold evidence_snapshot. sread.
Qed.

Lemma hoare_evidence_snapshot init φ st F `{!Tolerates init F} :
  hoare (Has init φ) (evidence_snapshot (E := E) st) (fun _ => Has init φ) F.
Proof. apply hoare_readonly; [done|apply readonly_evidence_snapshot]. Qed.

Lemma hoare_evidence_check init φ sc st F `{!Tolerates init F} :
  hoare (Has init φ) (evidence_check (E := E) sc st) (fun _ => Has init φ) F.
Proof.
  unfold evidence_check. hstep as s Hs. eapply hoare_bind; [apply hoare_read_plain|]. intros j.
  eapply hoare_bind; [apply hoare_evidence_snapshot; typeclasses eauto|]. intros observed.
  eapply hoare_post; [hop|]. by intros u w [_ ?].
Qed.

Lemma hoare_evidence_capture init φ sc st :
  meta_stable φ ->
  hoare (Has init φ) (evidence_capture (E := E) sc st) (fun _ => Has init φ) (Safe init).
Proof.
  intros Hφ. unfold evidence_capture.
  eapply hoare_bind; [apply hoare_evidence_snapshot; typeclasses eauto|]. intros observed.
  hstep as s Hs. eapply hoare_bind; [apply hoare_read_plain|]. intros j. hstep as u Hu.
  by apply hoare_commit_meta.
Qed.

Lemma hoare_approve_protocols init φ sc observed :
  meta_stable φ ->
  hoare (Has init φ) (approve_protocols (E := E) sc observed) (fun _ => Has init φ) (Safe init).
Proof.
  intros Hφ. unfold approve_protocols. hstep as s Hs.
  eapply hoare_bind; [apply hoare_read_plain|]. intros j. case_bool_decide; [by hret|].
  eapply (hoare_bind _ _ (fun _ => Has init φ)).
  { case_bool_decide; [by hret|]. hstep as u Hu. hstep. intros []; [by hret|hthrow]. }
  intros []. apply hoare_commit_meta; [done|]. intros j'. by case_bool_decide.
Qed.

Lemma hoare_observation_block init φ sc F `{!Tolerates init F} :
  hoare (Has init φ) (observation_block (E := E) sc) (fun _ => Has init φ) F.
Proof.
  unfold observation_block. hstep as s Hs. eapply hoare_bind; [apply hoare_read_plain|]. intros j.
  hstep. intros found. hstep as hd Hh. hstep as height Hht.
  destruct (height =? bk_number hd); [by hret|]. hstep. intros f2.
  eapply hoare_post; [hop|]. by intros b w [_ ?].
Qed.

Lemma hoare_initial_set init φ sc F `{!Tolerates init F} :
  hoare (Has init φ) (initial_set (E := E) sc) (fun _ => Has init φ) F.
Proof.
  unfold initial_set. hstep as s Hs. eapply hoare_bind; [apply hoare_read_plain|]. intros j.
  destruct (initial_signers j); [|hthrow]. hstep as u Hu. by hret.
Qed.

Lemma hoare_save_decision init φ sc initial approved :
  meta_stable φ ->
  hoare (Has init φ) (save_decision (E := E) sc initial approved) (fun _ => Has init φ) (Safe init).
Proof.
  intros Hφ. unfold save_decision. destruct approved; simpl; [|hthrow]. hstep as s Hs.
  eapply hoare_bind; [apply hoare_read_plain|]. intros j. hstep as u Hu.
  by apply hoare_commit_meta.
Qed.

Lemma hoare_get_plain init φ key F :
  hoare (Has (E := E) init φ) (get_action key) (fun _ => Has init φ) F.
Proof. by intros w Hw. Qed.

Lemma hoare_approve_set init φ sc initial :
  meta_stable φ ->
  hoare (Has init φ) (approve_set (E := E) sc initial) (fun _ => Has init φ) (Safe init).
Proof.
  intros Hφ. unfold approve_set. hstep as s Hs. eapply hoare_bind; [apply hoare_get_plain|].
  intros found. hstep as u Hu. hstep. intros approved. by apply hoare_save_decision.
Qed.

Lemma readonly_query_set st : readonly (query_set (E := E) st).
Proof. unfold query_set, verifier_contract, verifier_service. sread. Qed.

Lemma hoare_refresh init φ sc st :
  meta_stable φ ->
  hoare (Has init φ) (refresh_before_gateway (E := E) sc st) (fun _ => Has init φ) (Safe init).
Proof.
  intros Hφ. unfold refresh_before_gateway. hstep as s Hs.
  eapply hoare_bind; [apply hoare_get_plain|]. intros [tx|]; [by hret|].
  eapply hoare_bind; [apply hoare_initial_set; typeclasses eauto|]. intros pinned.
  eapply hoare_bind; [apply hoare_readonly, readonly_query_set; typeclasses eauto|].
  intros [now|]; [|hthrow]. destruct (same_set pinned now); [by hret|]. by apply hoare_approve_set.
Qed.

Lemma hoare_gateway_nonce init φ sc st sender F `{!Tolerates init F} :
  hoare (Has init φ) (gateway_nonce (E := E) sc st sender) (fun _ => Has init φ) F.
Proof.
  unfold gateway_nonce. eapply hoare_bind; [apply hoare_initial_set; typeclasses eauto|].
  intros i. hstep as s Hs. eapply hoare_bind; [apply hoare_get_plain|]. intros found.
  eapply (hoare_bind _ _ (fun _ => Has init φ)).
  { destruct found as [[]|]; [|hthrow|hop]. hstep as u Hu. by hret. }
  intros nonce. hstep as expected He. hstep as u Hu. by hret.
Qed.

Lemma hoare_gateway_check init φ sc st :
  meta_stable φ ->
  hoare (Has init φ) (gateway_check (E := E) sc st) (fun _ => Has init φ) (Safe init).
Proof.
  intros Hφ. unfold gateway_check.
  eapply hoare_bind; [apply hoare_readonly; [typeclasses eauto|auto with reads]|].
  intros address. hstep as u1 Ha.
  eapply hoare_bind; [apply hoare_observation_block; typeclasses eauto|]. intros block.
  hstep. intros delay. hstep as u2 Hd.
  eapply hoare_bind; [apply hoare_initial_set; typeclasses eauto|]. intros initial.
  hstep. intros epoch. eapply (hoare_bind _ _ (fun _ => Has init φ)).
  { destruct (1 <=? epoch); [hstep; intros h|]; by hret. }
  intros first. hstep as u3 Hf. eapply (hoare_bind _ _ (fun _ => Has init φ)).
  - destruct (1 <? epoch); [|by hret]. hstep. intros now. hstep as s Hs.
    eapply hoare_bind; [apply hoare_read_plain|]. intros j.
    eapply (hoare_bind _ _ (fun _ => Has init φ)).
    { destruct (last_rotation (rotations j)) as [[pe ph]|]; [|by hret].
      eapply (hoare_bind _ _ (fun _ => Has init φ)).
      - destruct (pe <=? epoch); [hstep; intros h|]; by hret.
      - intros same. eapply hoare_post; [hop|]. by intros u w [_ ?]. }
    intros []. hstep as u4 Hw. destruct (bool_decide (rotations j !! epoch = _)); [by hret|]. hstep. intros []; simpl; [|hthrow].
    by apply hoare_commit_meta.
  - intros []. hstep. intros operator. hstep as s Hs.
    eapply hoare_post; [hop|]. by intros u w [_ ?].
Qed.

Lemma hoare_completed_check init φ sc st :
  meta_stable φ ->
  hoare (Has init φ) (completed_check (E := E) sc st) (fun _ => Has init φ) (Safe init).
Proof.
  intros Hφ. unfold completed_check. eapply hoare_bind; [by apply hoare_gateway_check|]. intros [].
  hstep as s Hs. apply hoare_for_each. intros [name owner] _.
  eapply hoare_bind; [apply hoare_readonly; [typeclasses eauto|auto with reads]|].
  intros address. hstep. intros actual. eapply hoare_post; [hop|]. by intros u w [_ ?].
Qed.
End Keeps.

(** ** What the checkpoints establish *)

Lemma compatible_iff saved observed action :
  compatible saved observed action = true <->
  observed = saved \/
  exists step, action = Some step /\ step ∈ ownership_steps /\
    observed = set_owner (ev_owner observed) saved.
Proof.
  unfold compatible. rewrite bool_decide_eq_true. destruct action as [step|]; [case_decide|].
  - split; [intros Heq; right; by exists step|]. intros [->|(s & [= <-] & _ & Heq)]; [by destruct saved|done].
  - split; [intros <-; by left|]. intros [->|(s & [= <-] & Hin & _)]; done.
  - split; [intros <-; by left|]. intros [->|(s & Hs & _)]; done.
Qed.

Lemma affected_ownership step name : affected_contract step = Some name -> step ∈ ownership_steps.
Proof. unfold affected_contract. repeat case_decide; intros [=]; subst; set_solver. Qed.

(** Contract evidence allows no silent drift.  The comparison of a
    checkpoint with the chain succeeds exactly when every recorded contract is
    still configured and every recorded field is unchanged, the one exception
    being the owner of the contract whose ownership the current step
    transfers. *)
Theorem compare_evidence_spec saved observed action :
  compare_evidence saved observed action = Ok () <->
  forall name e, saved !! name = Some e ->
    exists o, observed !! name = Some o /\
      (o = e \/ exists step, action = Some step /\ affected_contract step = Some name /\
                 o = set_owner (ev_owner o) e).
Proof.
  unfold compare_evidence. rewrite check_all_ok, list.Forall_forall. split.
  - intros Hall name e He. specialize (Hall (name, e) (proj2 (elem_of_btree_list _ _ _) He)).
    simpl in Hall. apply result_bind_ok in Hall as (o & Ho%ok_or_ok & Hc%ensure_ok_ok).
    exists o. split; [done|]. apply compatible_iff in Hc as [->|(step & Hs & _ & Heq)]; [by left|].
    right. exists step. destruct action as [st|]; [|done]. simpl in Hs. case_decide; [|done].
    by injection Hs as ->.
  - intros Hall [name e] Hin%elem_of_btree_list. destruct (Hall name e Hin) as (o & Ho & Hc).
    apply result_bind_ok. exists o. split; [by apply ok_or_ok|]. apply ensure_ok_ok, compatible_iff.
    destruct Hc as [->|(step & -> & Haff & Heq)]; [by left|]. right. exists step. simpl.
    rewrite decide_True by done. split; [done|]. split; [by eapply affected_ownership|done].
Qed.

Lemma same_size_dom (old new : gmap string ProtocolIdentity) :
  size old = size new -> (forall name a, old !! name = Some a -> is_Some (new !! name)) ->
  dom old = dom new.
Proof.
  intros Hs Hsub. assert (dom old ⊆ dom new) as Hd.
  { intros name [a Ha]%elem_of_dom. apply elem_of_dom. by eapply Hsub. }
  apply (set_subseteq_size_eq (C := gset string)); [done|]. rewrite !size_dom. lia.
Qed.

(** A code upgrade of the protocol contracts can be approved, a change of
    identity cannot.  [validate_change] accepts exactly when both snapshots
    name the same contracts and each keeps its address, creator and admin, and
    its checksum unless it has a new code ID. *)
Theorem validate_change_spec old new :
  validate_change old new = Ok () <->
  dom old = dom new /\
  forall name a b, old !! name = Some a -> new !! name = Some b ->
    pi_address a = pi_address b /\ pi_creator a = pi_creator b /\ pi_admin a = pi_admin b /\
    (pi_code_id a = pi_code_id b -> pi_checksum a = pi_checksum b).
Proof.
  unfold validate_change. rewrite result_bind_ok. setoid_rewrite ensure_ok_ok.
  setoid_rewrite Nat.eqb_eq. split.
  - intros (u & Hsize & Hall). apply check_all_ok in Hall. rewrite list.Forall_forall in Hall.
    assert (forall name a, old !! name = Some a -> exists b, new !! name = Some b /\
      pi_address a = pi_address b /\ pi_creator a = pi_creator b /\ pi_admin a = pi_admin b /\
      (pi_code_id a = pi_code_id b -> pi_checksum a = pi_checksum b)) as Hcheck.
    { intros name a Ha. specialize (Hall (name, a) (proj2 (elem_of_btree_list _ _ _) Ha)).
      simpl in Hall. apply result_bind_ok in Hall as (b & Hb%ok_or_ok & Hall).
      apply result_bind_ok in Hall as (u1 & Hcode%ensure_ok_ok & Hid%ensure_ok_ok).
      rewrite !andb_true_iff, !bool_decide_eq_true in Hid. exists b. destruct Hid as [[? ?] ?].
      repeat split; try done. intros Heq. rewrite bool_decide_true in Hcode by done.
      by apply bool_decide_eq_true in Hcode. }
    split.
    + apply same_size_dom; [done|]. intros name a Ha. destruct (Hcheck _ _ Ha) as (b & Hb & _). by exists b.
    + intros name a b Ha Hb. destruct (Hcheck _ _ Ha) as (b' & Hb' & Hrest). by simplify_eq.
  - intros [Hdom Hsame]. exists (). split.
    { rewrite <- !(size_dom (D := gset string)). by rewrite Hdom. }
    apply check_all_ok, list.Forall_forall. intros [name a] Ha%elem_of_btree_list.
    assert (is_Some (new !! name)) as [b Hb].
    { apply elem_of_dom. rewrite <- Hdom. apply elem_of_dom. by exists a. }
    destruct (Hsame _ _ _ Ha Hb) as (H1 & H2 & H3 & H4). rewrite Hb. simpl.
    rewrite H1, H2, H3, !(bool_decide_true (_ = _)) by done.
    case_bool_decide; simpl; [|done]. by rewrite bool_decide_true by auto.
Qed.

(** The approved signer set is final once the gateway proxy is signed,
    and until then it is what construction uses.  A decision to save a set is
    refused, with nothing changed, when the proxy is journaled; otherwise a
    successful save makes [initial_set] return exactly that set. *)
Theorem save_decision_spec {E} `{Host E, EvmLib, SignerLib} sc initial (w : World E) :
  set_hash initial = signer_hash (signers initial) (threshold initial) (set_nonce initial) ->
  match save_decision sc initial true w with
  | (Ok _, w') =>
      actions (journal w) !! gateway_proxy_key = None /\
      actions (journal w') = actions (journal w) /\
      initial_signers (disk w') = Some initial /\ initial_set sc w' = (Ok initial, w')
  | (Err _, w') =>
      is_Some (actions (journal w) !! gateway_proxy_key) -> w' = w
  end.
Proof.
  intros Hhash. unfold save_decision, current, commit, mbind, M_bind, lift. simpl.
  destruct (session sc) as [s|] eqn:Hs; simpl; [|done].
  case_bool_decide as Hk; simpl.
  - unfold atomic_write, set_journal. simpl.
    destruct (disk_write (env w)) as [[] e]; simpl; try by (intros [? Hx]; congruence).
    repeat split; try done. unfold initial_set, current, mbind, M_bind, lift. rewrite Hs. simpl.
    rewrite (proj2 (Z.eqb_eq _ _) Hhash). done.
  - by destruct w.
Qed.
