(* ===== verification/Context.v ===== *)
(** * The context of a run (commands/deploy.rs [DeployContext], state.rs
    [save_state])

    A step works on two things: the session (journal, chains, operator) and
    [ctx.state], which it changes in place and saves to state.json.  This file
    has the state of a run, its primitive operations, and two properties of
    programs over it: [safe], it keeps the promises of the journal, and
    [tame], all it does to the deployment's steps is record their outputs. *)

From S2P Require Import Prelude Types Journal Chain Machine Session Funding State Plan Config Intent EvmRecovery Json Cosmos Target Recovery Verifiers Checkpoints.

Record Run (E : Type) : Type := mkRun {
  rw : World E;
  rs : State;
  state_file : option State
}.
Arguments mkRun {E}.
Arguments rw {E}.
Arguments rs {E}.
Arguments state_file {E}.

(** ** In-place changes of [ctx.state] *)

Definition set_proposal (key : string) (id : Z) (s : State) : State :=
  mkState (axelar_id s) (rpc_url s) (target_json s) (mnemonic s) (hardened_plan s)
    (hardened_fingerprint s) (st_env s) (cosm_salt s) (admin_mnemonic s)
    (rewards_funder_mnemonic s) (deployer_private_key s) (gateway_deployer_private_key s)
    (gateway_deployer s) (gas_service_deployer_private_key s) (its_deployer_private_key s)
    (its_salt s) (its_proxy_salt s) (predicted_gateway_address s) (sender_receiver_address s)
    (<[key := id]> (proposals s)) (steps s).

Definition set_fingerprint (fp : option B256) (s : State) : State :=
  mkState (axelar_id s) (rpc_url s) (target_json s) (mnemonic s) (hardened_plan s)
    fp (st_env s) (cosm_salt s) (admin_mnemonic s)
    (rewards_funder_mnemonic s) (deployer_private_key s) (gateway_deployer_private_key s)
    (gateway_deployer s) (gas_service_deployer_private_key s) (its_deployer_private_key s)
    (its_salt s) (its_proxy_salt s) (predicted_gateway_address s) (sender_receiver_address s)
    (proposals s) (steps s).

Definition set_predicted_gateway (a : Address) (s : State) : State :=
  mkState (axelar_id s) (rpc_url s) (target_json s) (mnemonic s) (hardened_plan s)
    (hardened_fingerprint s) (st_env s) (cosm_salt s) (admin_mnemonic s)
    (rewards_funder_mnemonic s) (deployer_private_key s) (gateway_deployer_private_key s)
    (gateway_deployer s) (gas_service_deployer_private_key s) (its_deployer_private_key s)
    (its_salt s) (its_proxy_salt s) (Some a) (sender_receiver_address s)
    (proposals s) (steps s).

Definition set_admin_mnemonic (m : string) (s : State) : State :=
  mkState (axelar_id s) (rpc_url s) (target_json s) (mnemonic s) (hardened_plan s)
    (hardened_fingerprint s) (st_env s) (cosm_salt s) (Some m)
    (rewards_funder_mnemonic s) (deployer_private_key s) (gateway_deployer_private_key s)
    (gateway_deployer s) (gas_service_deployer_private_key s) (its_deployer_private_key s)
    (its_salt s) (its_proxy_salt s) (predicted_gateway_address s) (sender_receiver_address s)
    (proposals s) (steps s).

(** ** Operations *)

Definition when {S} (b : bool) (m : M S ()) : M S () := if b then m else mret ().

Section Operations.
Context {E : Type} `{Host E}.
Abbreviation R := (Run E).

(** A session program inside a run. *)
Definition zoom {A} (m : M (World E) A) : M R A := fun r =>
  let '(a, w) := m (rw r) in (a, mkRun w (rs r) (state_file r)).

Definition get_state : M R State := fun r => (Ok (rs r), r).
Definition modify_state (f : State -> State) : M R () := fun r =>
  (Ok (), mkRun (rw r) (f (rs r)) (state_file r)).

(** An operation on [ctx.state] that may fail. *)
Definition try_modify (f : State -> result State) : M R () := fun r =>
  match f (rs r) with
  | Err e => (Err e, r)
  | Ok s => (Ok (), mkRun (rw r) s (state_file r))
  end.

(** [ctx.state.steps[index]], which panics out of range. *)
Definition get_step (index : nat) : M R Step := fun r =>
  (ok_or (steps (rs r) !! index) "index out of bounds", r).

(** An operation on [ctx.state.steps[index]] in place. *)
Definition update_step (index : nat) (f : Step -> result Step) : M R () := fun r =>
  match steps (rs r) !! index with
  | None => (Err (Failed "index out of bounds"), r)
  | Some s =>
      match f s with
      | Err e => (Err e, r)
      | Ok s' => (Ok (), mkRun (rw r) (set_steps (<[index := s']> (steps (rs r))) (rs r)) (state_file r))
      end
  end.

(** [mark_step_completed(&mut ctx.state, index)]. *)
Definition complete_step (index : nat) : M R () := fun r =>
  match mark_step_completed (rs r) index with
  | None => (Err (Failed "index out of bounds"), r)
  | Some s => (Ok (), mkRun (rw r) s (state_file r))
  end.

(** [save_state]. *)
Definition save_state : M R () := fun r =>
  let '(o, e) := disk_write (env (rw r)) in
  let w := mkWorld e (journal (rw r)) (disk (rw r)) (trace (rw r)) in
  match o with
  | Committed => (Ok (), mkRun w (rs r) (Some (persisted (rs r))))
  | FailedBefore => (Err (Failed "state write failed"), mkRun w (rs r) (state_file r))
  | FailedAfter => (Err (Failed "state write failed"), mkRun w (rs r) (Some (persisted (rs r))))
  end.
End Operations.

Lemma hoare_zoom {E A} (m : M (World E) A) P Q F :
  hoare P m Q F ->
  hoare (fun r : Run E => P (rw r)) (zoom m) (fun a r => Q a (rw r)) (fun r => F (rw r)).
Proof.
  intros Hm r HP. specialize (Hm (rw r) HP). unfold zoom.
  by destruct (m (rw r)) as [[a|e] w].
Qed.

(** ** Safe programs *)

Section Safe.
Context {E : Type} `{Host E, EvmLib, CosmosLib}.
Abbreviation R := (Run E).
Implicit Types (φ : Journal -> Prop).

Definition HasR (init : Journal) φ (r : R) : Prop := Has init φ (rw r).
Definition SafeR (init : Journal) (r : R) : Prop := Safe init (rw r).
Definition any : Journal -> Prop := fun _ => True.

Definition safe {A} (m : M R A) : Prop :=
  forall init, hoare (HasR init any) m (fun _ => HasR init any) (SafeR init).

Lemma Has_any init (w : World E) : Inv init w -> Has init any w.
Proof. by split. Qed.

Lemma HasR_safe init φ (r : R) : HasR init φ r -> SafeR init r.
Proof. by intros [[? _] _]. Qed.

Lemma hoareR_lift {A} init φ (x : result A) :
  hoare (HasR init φ) (lift x) (fun a r => x = Ok a /\ HasR init φ r) (SafeR init).
Proof. apply hoare_lift. apply HasR_safe. Qed.

Lemma hoareR_zoom {A} init φ ψ (m : M (World E) A) :
  hoare (Has init φ) m (fun _ => Has init ψ) (Safe init) ->
  hoare (HasR init φ) (zoom m) (fun _ => HasR init ψ) (SafeR init).
Proof. intros Hm. exact (hoare_zoom m _ _ _ Hm). Qed.

Lemma hoareR_read {A} init φ (m : M (World E) A) :
  readonly m -> hoare (HasR init φ) (zoom m) (fun _ => HasR init φ) (SafeR init).
Proof. intros Hm. apply hoareR_zoom, hoare_readonly; [typeclasses eauto|done]. Qed.

Lemma hoareR_call {A} init φ (f : E -> result A * E) :
  hoare (HasR init φ) (zoom (call f)) (fun _ => HasR init φ) (SafeR init).
Proof. apply hoareR_read, readonly_call. Qed.

Lemma hoareR_get_state init φ :
  hoare (HasR init φ) get_state (fun _ => HasR init φ) (SafeR init).
Proof. by intros r Hr. Qed.

Lemma hoareR_modify_state init φ f :
  hoare (HasR init φ) (modify_state f) (fun _ => HasR init φ) (SafeR init).
Proof. by intros r Hr. Qed.

Lemma hoareR_try_modify init φ f :
  hoare (HasR init φ) (try_modify f) (fun _ => HasR init φ) (SafeR init).
Proof. intros r Hr. unfold try_modify. destruct (f (rs r)); [done|by apply HasR_safe in Hr]. Qed.

Lemma hoareR_get_step init φ i :
  hoare (HasR init φ) (get_step i) (fun _ => HasR init φ) (SafeR init).
Proof. intros r Hr. unfold get_step, ok_or. destruct (_ !! _); [done|by apply HasR_safe in Hr]. Qed.

Lemma hoareR_update_step init φ i f :
  hoare (HasR init φ) (update_step i f) (fun _ => HasR init φ) (SafeR init).
Proof.
  intros r Hr. unfold update_step. destruct (_ !! _) as [s|]; [|by apply HasR_safe in Hr].
  destruct (f s); [done|by apply HasR_safe in Hr].
Qed.

Lemma hoareR_complete_step init φ i :
  hoare (HasR init φ) (complete_step i) (fun _ => HasR init φ) (SafeR init).
Proof.
  intros r Hr. unfold complete_step. destruct (mark_step_completed _ _); [done|by apply HasR_safe in Hr].
Qed.

Lemma hoareR_throw {A} init φ e (Q : A -> R -> Prop) :
  hoare (HasR init φ) (throw e) Q (SafeR init).
Proof. apply hoare_throw, HasR_safe. Qed.

Lemma hoareR_ret {A} init φ (a : A) :
  hoare (HasR init φ) (mret a) (fun _ => HasR init φ) (SafeR init).
Proof. by intros r Hr. Qed.

Lemma hoareR_save_state init φ :
  hoare (HasR init φ) save_state (fun _ => HasR init φ) (SafeR init).
Proof.
  intros r Hr. unfold save_state. destruct (disk_write (env (rw r))) as [[] e]; [done|..].
  all: apply HasR_safe in Hr; done.
Qed.

Lemma hoareR_when init φ b (m : M R ()) :
  hoare (HasR init φ) m (fun _ => HasR init φ) (SafeR init) ->
  hoare (HasR init φ) (when b m) (fun _ => HasR init φ) (SafeR init).
Proof. destruct b; [done|]. intros _. apply hoareR_ret. Qed.

Lemma safe_ret {A} (a : A) : safe (mret a).
Proof. intros init. apply hoareR_ret. Qed.
Lemma safe_throw {A} e : safe (A := A) (throw e).
Proof. intros init. apply hoareR_throw. Qed.
Lemma safe_lift {A} (x : result A) : safe (lift x).
Proof. intros init. eapply hoare_post; [apply hoareR_lift|]. by intros a r [_ ?]. Qed.
Lemma safe_ensure b msg : safe (ensure b msg).
Proof. apply safe_lift. Qed.
Lemma safe_bind {A B} (m : M R A) (f : A -> M R B) :
  safe m -> (forall a, safe (f a)) -> safe (m ≫= f).
Proof. intros Hm Hf init. eapply hoare_bind; [apply Hm|]. intros a. apply Hf. Qed.
Lemma safe_get_state : safe get_state.
Proof. intros init. apply hoareR_get_state. Qed.
Lemma safe_modify_state f : safe (modify_state f).
Proof. intros init. apply hoareR_modify_state. Qed.
Lemma safe_get_step i : safe (get_step i).
Proof. intros init. apply hoareR_get_step. Qed.
Lemma safe_update_step i f : safe (update_step i f).
Proof. intros init. apply hoareR_update_step. Qed.
Lemma safe_complete_step i : safe (complete_step i).
Proof. intros init. apply hoareR_complete_step. Qed.
Lemma safe_save_state : safe save_state.
Proof. intros init. apply hoareR_save_state. Qed.
Lemma safe_when b (m : M R ()) : safe m -> safe (when b m).
Proof. intros Hm init. apply hoareR_when, Hm. Qed.
Lemma safe_read {A} (m : M (World E) A) : readonly m -> safe (zoom m).
Proof. intros Hm init. by apply hoareR_read. Qed.
Lemma safe_zoom {A} (m : M (World E) A) :
  (forall init, hoare (Has init any) m (fun _ => Has init any) (Safe init)) -> safe (zoom m).
Proof. intros Hm init. apply hoareR_zoom, Hm. Qed.
Lemma safe_map_err {A} e (m : M R A) : safe m -> safe (map_err e m).
Proof. intros Hm init. apply hoare_map_err, Hm. Qed.
Lemma safe_for_each {A} (f : A -> M R ()) l : (forall x, safe (f x)) -> safe (for_each f l).
Proof. intros Hf init. apply hoare_for_each. intros x _. apply Hf. Qed.
Lemma safe_ask p : safe (zoom (confirm_prompt p)).
Proof. apply safe_zoom. intros init. apply hoare_confirm_prompt. Qed.
Lemma safe_meta f : (forall j, same_transactions j (f j)) -> safe (zoom (commit f)).
Proof. intros Hf. apply safe_zoom. intros init. by apply hoare_commit_meta. Qed.
End Safe.

Section SafeSends.
Context {E : Type} `{Host E, EvmNode E, LcdNode E, EvmLib, CosmosLib, CosmosAccounts}.

Lemma hoare_send_any init fuel required sc request label :
  hoare (Has init any) (send (E := E) fuel required sc request label)
    (fun _ => Has init any) (Safe init).
Proof.
  intros w [Hw _].
  pose proof (hoare_send init fuel required sc request label (actions (journal w)) w) as Hs.
  specialize (Hs (conj Hw (fun k _ => eq_refl))).
  destruct (send fuel required sc request label w) as [[r|e] w']; [|done].
  by destruct Hs as [_ [? _]].
Qed.

Lemma safe_send fuel required sc request label :
  safe (zoom (send (E := E) fuel required sc request label)).
Proof. apply safe_zoom. intros init. apply hoare_send_any. Qed.

Lemma hoare_cosmos_send_any init sc k address lcd chain denom price messages :
  hoare (Has init any) (cosmos_send (E := E) sc k address lcd chain denom price messages)
    (fun _ => Has init any) (Safe init).
Proof.
  intros w [Hw _].
  pose proof (hoare_cosmos_send init sc k address lcd chain denom price messages
    (actions (journal w)) w) as Hs.
  specialize (Hs (conj Hw (fun k _ => eq_refl))).
  destruct (cosmos_send sc k address lcd chain denom price messages w) as [[r|e] w']; [|done].
  by destruct Hs as [_ [? _]].
Qed.

(** Following up a transaction that is the current one of its action. *)
Lemma hoareR_resume_recorded init sc lcd saved key :
  hoare (HasR init (fun j => actions j !! key = Some saved))
    (zoom (cosmos_resume (E := E) sc lcd saved key)) (fun _ => HasR init any) (SafeR init).
Proof.
  apply hoareR_zoom. intros w [Hw Ha].
  pose proof (hoare_cosmos_resume_owned init sc lcd saved key (actions (journal w)) w) as Hs.
  specialize (Hs (conj Hw (conj Ha (fun k _ => eq_refl)))).
  destruct (cosmos_resume sc lcd saved key w) as [[r|e] w']; [|done].
  by destruct Hs as [_ [? _]].
Qed.

Lemma hoareR_get_action init key :
  hoare (HasR init any) (zoom (get_action (E := E) key))
    (fun found => HasR init (fun j => actions j !! key = found)) (SafeR init).
Proof. intros r [Hw _]. split; [done|]. done. Qed.

Lemma hoareR_forget {A} init φ (m : M (Run E) A) Q F :
  hoare (HasR init any) m Q F -> hoare (HasR init φ) m Q F.
Proof. intros Hm r [Hw _]. by apply Hm. Qed.
End SafeSends.

(** ** Tame programs *)

(** A step with the same name and status, whose kind matches whatever the
    earlier one matched. *)
Definition step_kept (s s' : Step) : Prop :=
  step_name s' = step_name s /\ step_status s' = step_status s /\
  forall e, same_kind e (step_kind s) -> same_kind e (step_kind s').

Definition outputs_only (s s' : State) : Prop :=
  hardened_plan s' = hardened_plan s /\ Forall2 step_kept (steps s) (steps s').

#[export] Instance step_kept_preorder : PreOrder step_kept.
Proof. split; [by intros s|]. intros a b c (H1 & H2 & H3) (H4 & H5 & H6). repeat split; auto; congruence. Qed.

#[export] Instance outputs_only_preorder : PreOrder outputs_only.
Proof.
  split.
  - intros s. split; [done|]. by apply list.Forall_Forall2_diag, list.Forall_forall.
  - intros a b c [H1 H2] [H3 H4]. split; [congruence|]. by etrans.
Qed.

(** What a program does to [ctx.state], and to what it saves of it, is within
    a relation. *)
Definition moves_at {E A} (rel : relation State) (m : M (Run E) A) (r : Run E) : Prop :=
  rel (rs r) (rs (m r).2) /\
  (state_file (m r).2 = state_file r \/
   exists s, state_file (m r).2 = Some (persisted s) /\ rel (rs r) s).

Definition moves {E A} (rel : relation State) (m : M (Run E) A) : Prop := forall r, moves_at rel m r.

Definition tame {E A} (m : M (Run E) A) : Prop := moves outputs_only m.

Section Moves.
Context {E : Type} `{Host E} (rel : relation State) `{!PreOrder rel}.
Abbreviation R := (Run E).

Lemma moves_same {A} (m : M R A) :
  (forall r, rs (m r).2 = rs r /\ state_file (m r).2 = state_file r) -> moves rel m.
Proof. intros Hm r. unfold moves_at. destruct (Hm r) as [-> ->]. split; [done|by left]. Qed.

Lemma moves_at_bind {A B} (m : M R A) (f : A -> M R B) r :
  moves_at rel m r -> (forall a, (m r).1 = Ok a -> moves_at rel (f a) (m r).2) ->
  moves_at rel (m ≫= f) r.
Proof.
  intros [Ho Hfile] Hf. unfold moves_at, mbind, M_bind.
  destruct (m r) as [[a|e] r']; simpl in *; [|done].
  destruct (Hf a eq_refl) as [Ho' Hfile']. split; [by etrans|].
  destruct Hfile' as [->|(s & Hs & Hos)]; [done|]. right. exists s. split; [done|]. by etrans.
Qed.

Lemma moves_bind {A B} (m : M R A) (f : A -> M R B) :
  moves rel m -> (forall a, moves rel (f a)) -> moves rel (m ≫= f).
Proof. intros Hm Hf r. apply moves_at_bind; [done|]. intros a _. apply Hf. Qed.

Lemma moves_zoom {A} (m : M (World E) A) : moves rel (zoom m).
Proof. apply moves_same. intros r. unfold zoom. by destruct (m (rw r)). Qed.

Lemma moves_save_state : moves rel (save_state (E := E)).
Proof.
  intros r. unfold moves_at, save_state. destruct (disk_write (env (rw r))) as [[] e]; simpl;
    (split; [done|]); first [by left|by right; exists (rs r)].
Qed.

Lemma moves_when b (m : M R ()) : moves rel m -> moves rel (when b m).
Proof. destruct b; [done|]. intros _. by apply moves_same. Qed.

Lemma moves_for_each {A} (f : A -> M R ()) l : (forall x, moves rel (f x)) -> moves rel (for_each f l).
Proof. intros Hf. induction l as [|x l IH]; simpl; [by apply moves_same|]. by apply moves_bind. Qed.

Lemma moves_modify (f : State -> State) : (forall s, rel s (f s)) -> moves rel (modify_state (E := E) f).
Proof. intros Hf r. split; [apply Hf|by left]. Qed.

Lemma moves_try_modify (f : State -> result State) :
  (forall s s', f s = Ok s' -> rel s s') -> moves rel (try_modify (E := E) f).
Proof.
  intros Hf r. unfold moves_at, try_modify. destruct (f (rs r)) as [s'|e] eqn:Hs; simpl; (split; [|by left]); [by apply Hf|done].
Qed.
End Moves.

Lemma moves_weaken {E A} (rel rel' : relation State) (m : M (Run E) A) :
  (forall s s', rel s s' -> rel' s s') -> moves rel m -> moves rel' m.
Proof.
  intros Hsub Hm r. destruct (Hm r) as [Ho Hfile]. split; [auto|].
  destruct Hfile as [?|(s & Hs & Hr)]; [by left|]. right. eauto.
Qed.

Section Tame.
Context {E : Type} `{Host E}.
Abbreviation R := (Run E).

Lemma tame_state_same {A} (m : M R A) :
  (forall r, rs (m r).2 = rs r /\ state_file (m r).2 = state_file r) -> tame m.
Proof. apply moves_same, _. Qed.

Lemma tame_ret {A} (a : A) : tame (E := E) (mret a).
Proof. by apply tame_state_same. Qed.
Lemma tame_throw {A} e : tame (E := E) (A := A) (throw e).
Proof. by apply tame_state_same. Qed.
Lemma tame_lift {A} (x : result A) : tame (E := E) (lift x).
Proof. by apply tame_state_same. Qed.
Lemma tame_ensure b msg : tame (E := E) (ensure b msg).
Proof. by apply tame_state_same. Qed.
Lemma tame_get_state : tame (E := E) get_state.
Proof. by apply tame_state_same. Qed.
Lemma tame_get_step i : tame (E := E) (get_step i).
Proof. by apply tame_state_same. Qed.
Lemma tame_zoom {A} (m : M (World E) A) : tame (zoom m).
Proof. apply moves_zoom, _. Qed.
Lemma tame_bind {A B} (m : M R A) (f : A -> M R B) :
  tame m -> (forall a, tame (f a)) -> tame (m ≫= f).
Proof. apply moves_bind, _. Qed.

Lemma outputs_only_same s s' :
  hardened_plan s' = hardened_plan s -> steps s' = steps s -> outputs_only s s'.
Proof.
  intros Hp Hs. split; [done|]. rewrite Hs. by apply list.Forall_Forall2_diag, list.Forall_forall.
Qed.

Lemma tame_modify_state (f : State -> State) :
  (forall s, hardened_plan (f s) = hardened_plan s /\ steps (f s) = steps s) ->
  tame (E := E) (modify_state f).
Proof. intros Hf. apply moves_modify. intros s. destruct (Hf s). by apply outputs_only_same. Qed.

Lemma tame_update_step i f :
  (forall s s', f s = Ok s' -> records_output s s') -> tame (E := E) (update_step i f).
Proof.
  intros Hf r. unfold moves_at, update_step. destruct (steps (rs r) !! i) as [s|] eqn:Hi; [|by split; [|left]].
  destruct (f s) as [s'|e] eqn:Hs; [|by split; [|left]]. simpl. split; [|by left]. split; [done|]. simpl.
  apply Hf, records_output_keeps in Hs.
  assert (Forall2 step_kept (steps (rs r)) (steps (rs r))) as Hrefl
    by (by apply list.Forall_Forall2_diag, list.Forall_forall).
  eapply Forall2_insert_r'; [exact Hrefl|exact Hi|]. intros x Hx. by etrans.
Qed.

Lemma tame_save_state : tame (E := E) save_state.
Proof. apply moves_save_state, _. Qed.
Lemma tame_when b (m : M R ()) : tame m -> tame (when b m).
Proof. apply moves_when, _. Qed.
Lemma tame_map_err {A} e (m : M R A) : tame m -> tame (map_err e m).
Proof. intros Hm r. specialize (Hm r). unfold moves_at, map_err in *. by destruct (m r) as [[]]. Qed.
Lemma tame_for_each {A} (f : A -> M R ()) l : (forall x, tame (f x)) -> tame (for_each f l).
Proof. apply moves_for_each, _. Qed.
End Tame.

Create HintDb steps.
#[export] Hint Resolve safe_ret safe_throw safe_lift safe_ensure safe_get_state safe_modify_state
  safe_get_step safe_update_step safe_save_state safe_ask safe_send : steps.
#[export] Hint Resolve tame_ret tame_throw tame_lift tame_ensure tame_get_state tame_get_step
  tame_zoom tame_save_state : steps.

(** Composite programs of a step: split binds, loops and matches. *)
Ltac ssafe :=
  repeat first
    [ progress intros
    | solve [eauto with steps]
    | apply safe_bind | apply safe_when | apply safe_for_each | apply safe_map_err
    | solve [apply safe_read; sread]
    | match goal with |- safe (match ?x with _ => _ end) => destruct x end ].
Ltac stame :=
  repeat first
    [ progress intros
    | solve [eauto with steps]
    | apply tame_bind | apply tame_when | apply tame_for_each | apply tame_map_err
    | solve [apply tame_modify_state; done]
    | match goal with |- tame (match ?x with _ => _ end) => destruct x end ].
