(* ===== verification/EvmSteps.v ===== *)
(** * EVM step bodies (src/steps/evm_compat.rs, evm_deploy.rs,
    register_operators.rs, transfer_ownership.rs, deploy_upgradable.rs,
    deploy_gateway.rs, deploy_its.rs, predict_address.rs)

    Every transaction of a step goes through the journaled [send], and its
    receipt decides how the step goes on; what a step deployed is written to
    the state and to the target file. *)

From Stdlib Require Import Ascii.
From Stdlib Require String.
From S2P Require Import Prelude Types Journal Chain Machine Session Funding State Plan Config Intent EvmRecovery Json Cosmos Target Recovery Verifiers Checkpoints Context.

(** ** Interfaces *)

(** ABI encodings that [sol!] and [SolValue] generate, and where axe keeps its
    files. *)
Class StepLib : Type := {
  abi_address : Address -> bytes;
  abi_string : string -> bytes;
  abi_gateway_constructor : Z -> B256 -> Z -> bytes;
  abi_proxy_constructor : Address -> Address -> bytes -> bytes;
  (** [InterchainTokenService]: token manager deployer, token deployer,
      gateway, gas service, factory, chain, hub, token manager, handler. *)
  abi_its_constructor : Address -> Address -> Address -> Address -> Address -> string -> string ->
    Address -> Address -> bytes;
  abi_its_setup : Address -> string -> list string -> bytes;
  (** [setupParamsCall], with its selector. *)
  abi_setup_params : Address -> list (Address * Z) -> Z -> B256 -> bytes;
  deploy_calldata : bytes -> B256 -> bytes;
  deploy_and_init_calldata : bytes -> B256 -> bytes -> bytes;
  create3_calldata : bytes -> B256 -> bytes;
  init_calldata : Address -> Address -> bytes -> bytes;
  add_operator_calldata : Address -> bytes;
  transfer_ownership_calldata : Address -> bytes;
  update_value_calldata : Z -> bytes;
  data_dir : string
}.

(** How an RPC call failed, by what the code inspects: a JSON-RPC error code,
    or an HTTP status with the error code of a JSON-RPC body. *)
Inductive TransportError : Type :=
  | ErrorResponse (code : Z)
  | HttpError (status : Z) (body_code : option Z)
  | OtherError.

Inductive BlockId : Type := AtLatest | AtSafe | AtNumber (n : Z) | AtHash (h : B256).

Record Header : Type := mkHeader {
  hd_number : Z;
  hd_timestamp : Z;
  hd_hash : B256;
  hd_parent_hash : B256
}.

(** Artifacts on disk, contract views and the node methods the compatibility
    check probes. *)
Class StepNode (E : Type) : Type := {
  read_artifact_bytecode : string -> E -> result bytes * E;
  read_artifact_runtime_hash : string -> E -> result B256 * E;
  (** [deployedAddress(bytecode, sender, salt)] of a factory. *)
  deployed_address : Address -> bytes -> Address -> B256 -> E -> result Address * E;
  is_operator : Address -> Address -> E -> result bool * E;
  eth_get_storage_at : Address -> Z -> E -> result Z * E;
  (** [eth_call] of a CREATE from an address: the runtime code. *)
  eth_call_create : Address -> bytes -> E -> result bytes * E;
  eth_pending_count : Address -> E -> result Z * E;
  (** Seconds since the epoch, 0 when the clock is before it. *)
  system_time : E -> Z * E;
  eth_syncing : E -> (TransportError + Json) * E;
  eth_block_number : E -> result Z * E;
  eth_header : BlockId -> E -> result (option Header) * E;
  (** [eth_feeHistory], by the number of base fees. *)
  eth_fee_history : E -> result Z * E;
  eth_estimate_gas : TransactionRequest -> E -> result Z * E;
  probe_value : Address -> E -> result Z * E;
  (** A transaction by hash, by its recipient. *)
  eth_transaction_to : B256 -> E -> result (option (option Address)) * E;
  (** Logs of an address in one block, with a topic or without. *)
  eth_get_logs : Address -> option B256 -> Z -> E -> result (list Log) * E
}.

(** ** Requests *)

Definition empty_request : TransactionRequest :=
  mkRequest None None None None None None None None None None None None None.

Definition with_input (to : TxKind) (input : bytes) : TransactionRequest :=
  mkRequest None (Some to) None None None None None (Some input) None None None None None.

(** [TransactionRequest::default().with_deploy_code(code)]. *)
Definition with_deploy_code (code : bytes) : TransactionRequest := with_input Create code.

(** [into_transaction_request] of a contract call. *)
Definition contract_call (to : Address) (calldata : bytes) : TransactionRequest :=
  with_input (CallTo to) calldata.

Definition with_nonce_gas (nonce gas : option Z) (r : TransactionRequest) : TransactionRequest :=
  mkRequest (rq_from r) (rq_to r) (rq_gas_price r) (rq_max_fee_per_gas r)
    (rq_max_priority_fee_per_gas r) gas (rq_value r) (rq_input r) nonce (rq_chain_id r)
    (rq_access_list r) (rq_authorization_list r) (rq_blob_versioned_hashes r).

(** ** Paths of artifacts (utils.rs, hardened/inputs.rs) *)

Definition TEST_CONTRACT_BYTECODE : string :=
  ("608060405234801561001057600080fd5b50610127806100206000396000f3fe6080604052348015600f5760" +:+
   "0080fd5b5060043610603c5760003560e01c80632096525514604157806326a6ae51146056578063573c0bd3" +:+
   "146067575b600080fd5b60005460405190815260200160405180910390f35b6065606136600460d9565b6076" +:+
   "565b005b6065607236600460d9565b60a9565b600181905560405181907f468963a1d9dd9327ac085bcd5fa8" +:+
   "0a5a43a35360584c14d49aa7d24d33acc40390600090a250565b600081815560405182917f4273d0736f60e0" +:+
   "dedfe745e86718093d8ec8646ebd2a60cd60643eeced56581191a250565b60006020828403121560ea576000" +:+
   "80fd5b503591905056fea2646970667358221220af9c6356d5b307b8d254eca52bc45a435d9ba3d002de69c1" +:+
   "401d89b156517f7f64736f6c63430008090033")%string.

Definition COMPAT_TEST_VALUE : Z := 42.

Definition gmp_sdk : string := "node_modules/@axelar-network/axelar-gmp-sdk-solidity/artifacts/contracts/".
Definition cgp : string := "node_modules/@axelar-network/axelar-cgp-solidity/artifacts/contracts/".

(** [artifact_paths_for_step]. *)
Definition artifact_paths_for_step (name root : string) : option (string * option string) :=
  let r p := (root +:+ "/" +:+ p)%string in
  if decide (name = "ConstAddressDeployer") then
    Some (r "evm/legacy/ConstAddressDeployer.json", None)
  else if decide (name = "Create3Deployer") then
    Some (r (gmp_sdk +:+ "deploy/Create3Deployer.sol/Create3Deployer.json")%string, None)
  else if decide (name = "AxelarGateway") then
    Some (r (gmp_sdk +:+ "gateway/AxelarAmplifierGateway.sol/AxelarAmplifierGateway.json")%string,
          Some (r (gmp_sdk +:+ "gateway/AxelarAmplifierGatewayProxy.sol/AxelarAmplifierGatewayProxy.json")%string))
  else if decide (name = "Operators") then
    Some (r (gmp_sdk +:+ "utils/Operators.sol/Operators.json")%string, None)
  else if decide (name = "AxelarGasService") then
    Some (r (cgp +:+ "gas-service/AxelarGasService.sol/AxelarGasService.json")%string,
          Some (r (cgp +:+ "gas-service/AxelarGasServiceProxy.sol/AxelarGasServiceProxy.json")%string))
  else None.

Section Paths.
Context `{StepLib}.

(** [inputs::root] within the scope of a run: the materialized artifacts. *)
Definition inputs_root (st : State) : string :=
  (data_dir +:+ "/deployments/" +:+ NetworkStr.as_str (st_env st) +:+ "/" +:+ axelar_id st
     +:+ "/artifacts")%string.

Definition its_artifacts (st : State) : string :=
  (inputs_root st +:+ "/node_modules/@axelar-network/interchain-token-service/artifacts/contracts")%string.

(** [evm::get_salt_from_key]. *)
Definition get_salt_from_key `{EvmLib} (key : string) : B256 := keccak256 (abi_string key).

(** [evm::encode_gateway_setup_params]: the parameters without the selector. *)
Definition encode_gateway_setup_params (operator : Address) (signers : list (Address * Z))
    (threshold : Z) (nonce : B256) : bytes :=
  drop 4 (abi_setup_params operator signers threshold nonce).
End Paths.

(** ** Compatibility check (evm_compat.rs) *)

Inductive CheckOutcome : Type := CPass | CFail | CWarn.

#[export] Instance CheckOutcome_eq_dec : EqDecision CheckOutcome.
Proof. solve_decision. Defined.

Record Check : Type := mkCheck {
  ck_name : string;
  ck_critical : bool;
  ck_outcome : CheckOutcome
}.

Definition check_if (name : string) (ok : bool) : Check :=
  mkCheck name true (if ok then CPass else CFail).
Definition check_warn (name : string) : Check := mkCheck name false CWarn.

(** A critical check of an RPC answer: it fails on an error. *)
Definition check_answer {A} (name : string) (r : result A) (ok : A -> bool) : Check :=
  match r with
  | Ok a => check_if name (ok a)
  | Err _ => mkCheck name true CFail
  end.

Definition critical_failure (c : Check) : bool :=
  ck_critical c && bool_decide (ck_outcome c = CFail).

(** [summarise]: an error when a critical check failed. *)
Definition summarise (checks : list Check) : result () :=
  ensure_ok (negb (existsb critical_failure checks)) "EVM compatibility check failed".

Definition sync_method_unavailable (e : TransportError) : bool :=
  match e with
  | ErrorResponse code => code =? -32601
  | HttpError status body => (status =? 403) && bool_decide (body = Some (-32601))
  | OtherError => false
  end.

Definition check_sync_status (r : TransportError + Json) : Check :=
  match r with
  | inr (JBool false) => check_if "eth_syncing" true
  | inr _ => check_if "eth_syncing" false
  | inl e => if sync_method_unavailable e then check_warn "eth_syncing"
             else check_if "eth_syncing" false
  end.

(** The outcome of a program as a value. *)
Definition try_program {S A} (m : M S A) : M S (result A) := fun s =>
  let '(r, s') := m s in (Ok r, s').

Section Compat.
Context {E : Type} `{Host E, EvmNode E, LcdNode E, DeployNode E, StepNode E, TargetFile E, StepLib,
                     ConfigLib, EvmLib, CosmosLib, CosmosAccounts, SignerLib}.
Abbreviation W := (World E).
Implicit Types (sc : Scope).

Definition run_chain_identity_checks sc : M W (list Check * option Z) :=
  let expected := evm_chain_id ∘ plan <$> session sc in
  id ← attempt eth_chain_id;
  sync ← call (fun e => let '(r, e') := eth_syncing e in (Ok r, e'));
  number ← attempt eth_block_number;
  let block := match number with Ok n => if 0 <? n then Some n else None | Err _ => None end in
  mret ([ check_answer "eth_chainId" id
            (fun id => match expected with Some e => id =? e | None => true end);
          check_sync_status sync;
          check_answer "eth_blockNumber" number (fun n => 0 <? n) ], block).

Definition run_block_health_checks sc : M W (list Check) :=
  latest ← attempt (eth_header AtLatest);
  checked ← match latest with
            | Ok (Some header) =>
                t ← call (fun e => let '(t, e') := system_time e in (Ok t, e'));
                mret (check_if "eth_getBlockByNumber(latest)" (Z.abs (t - hd_timestamp header) <=? 120))
            | _ => mret (check_if "eth_getBlockByNumber(latest)" false)
            end;
  block ← try_program (observation_block sc);
  mret [checked; check_answer "deployment confirmation block" block (fun _ => true)].

Definition run_account_health_checks (deployer : Address) : M W (list Check) :=
  price ← attempt eth_gas_price;
  balance ← attempt (eth_get_balance deployer);
  count ← attempt (eth_get_transaction_count deployer);
  fees ← attempt eth_fee_history;
  mret [ check_answer "eth_gasPrice" price (fun p => 0 <? p);
         check_answer "eth_getBalance" balance (fun _ => true);
         check_answer "eth_getTransactionCount" count (fun _ => true);
         check_answer "eth_feeHistory" fees (fun n => negb (n =? 0)) ].

Definition run_phase_1_health sc (deployer : Address) : M W (list Check * option Z) :=
  '(a, block) ← run_chain_identity_checks sc;
  b ← run_block_health_checks sc;
  c ← run_account_health_checks deployer;
  mret (a ++ b ++ c, block).

Definition run_phase_2_contract (fuel : nat) sc
    : M W (list Check * Address * option Z * list Log) :=
  code ← lift (ok_or (hex_decode TEST_CONTRACT_BYTECODE) "invalid bytecode");
  deployed ← send fuel true sc (with_deploy_code code) "deploy compatibility probe";
  address ← lift (ok_or (contract_address deployed) "probe receipt has no contract address");
  found ← attempt (eth_get_code address);
  let request := contract_call address (update_value_calldata COMPAT_TEST_VALUE) in
  gas ← attempt (eth_estimate_gas request);
  updated ← send fuel true sc request "update compatibility probe";
  value ← attempt (probe_value address);
  to ← attempt (eth_transaction_to (transaction_hash updated));
  mret ([ check_answer "eth_getCode" found (fun c => negb (bool_decide (c = [])));
          check_answer "eth_estimateGas" gas (fun g => (0 <? g) && (g <? 100000));
          check_answer "eth_call(getValue=42)" value (fun v => v =? COMPAT_TEST_VALUE);
          check_answer "eth_getTransactionByHash" to
            (fun t => bool_decide (t = Some (Some address))) ],
        address, block_number updated, receipt_logs updated).

Definition event_sig : B256 := keccak256 (string_bytes "ValueUpdated(uint256)").

(** A log with the event's topic, and one that carries the probe value. *)
Definition has_event (l : Log) : bool := bool_decide (head (log_topics l) = Some event_sig).
Definition has_value (l : Log) : bool :=
  match log_topics l with
  | a :: b :: _ => (a =? event_sig) && (b =? COMPAT_TEST_VALUE)
  | _ => false
  end.

Definition run_phase_3_events (address : Address) (block : Z) (logs : list Log) : M W (list Check) :=
  by_topic ← attempt (eth_get_logs address (Some event_sig) block);
  by_range ← attempt (eth_get_logs address None block);
  let found := match by_topic with Ok l => existsb has_value l | Err _ => false end in
  let index_got := match by_topic with
                   | Ok l => if existsb has_value l then head l ≫= log_index else None
                   | Err _ => None
                   end in
  let index_receipt := List.find has_event logs ≫= log_index in
  mret [ check_if "eth_getLogs(topic+block)" found;
         check_answer "eth_getLogs(addr+range)" by_range (existsb has_event);
         match index_receipt, index_got with
         | Some r, Some g => check_if "logIndex consistency" (r =? g)
         | _, _ => check_warn "logIndex consistency"
         end ].

Definition run_optional_checks (block : option Z) : M W (list Check) :=
  safe ← attempt (eth_header AtSafe);
  let first := mkCheck "eth_getBlockByNumber(safe)" false
    (match safe with Ok (Some _) => CPass | _ => CWarn end) in
  match block with
  | Some bn =>
      if 2 <=? bn then
        found ← attempt (eth_header (AtNumber bn));
        match found with
        | Ok (Some header) =>
            parent ← attempt (eth_header (AtHash (hd_parent_hash header)));
            let ok := match parent with
                      | Ok (Some p) => hd_hash p =? hd_parent_hash header
                      | _ => false
                      end in
            mret [first; mkCheck "parent hash validation" false (if ok then CPass else CWarn)]
        | _ => mret [first; check_warn "parent hash validation"]
        end
      else mret [first]
  | None => mret [first]
  end.

(** [evm_compat::run]. *)
Definition evm_compat (fuel : nat) sc (private_key : string) : M W () :=
  deployer ← lift (ok_or (signer_address private_key) "invalid private key");
  '(phase1, block) ← run_phase_1_health sc deployer;
  if existsb critical_failure phase1 then lift (summarise phase1)
  else
    '(phase2, address, update_block, logs) ← run_phase_2_contract fuel sc;
    phase3 ← match update_block with
             | Some n => run_phase_3_events address n logs
             | None => mret []
             end;
    optional ← run_optional_checks block;
    lift (summarise (phase1 ++ phase2 ++ phase3 ++ optional)).
End Compat.

(** ** Contract deployments *)

Definition text_field (k v : string) : string * Json := (k, JStr v).

Definition IMPLEMENTATION_SLOT : Z :=
  0x360894a13ba1a3210667c828492db98dca3e2076cc3735a920a3ca505d382bbc.

(** [Address::from_word]: the low 20 bytes. *)
Definition address_from_word (w : Z) : Address := w mod 2 ^ 160.

Section Deploy.
Context {E : Type} `{Host E, EvmNode E, LcdNode E, DeployNode E, StepNode E, TargetFile E, StepLib,
                     ConfigLib, EvmLib, CosmosLib, CosmosAccounts, SignerLib}.
Abbreviation R := (Run E).
Implicit Types (sc : Scope) (private_key artifact : string).

Definition address_field (k : string) (a : Address) : string * Json :=
  text_field k (address_to_string a).
Definition hash_field (k : string) (h : B256) : string * Json := text_field k (b256_to_string h).

Definition signer_of private_key : M R Address :=
  lift (ok_or (signer_address private_key) "invalid private key").

Definition read_address (name : string) : M R Address :=
  st ← get_state; zoom (read_contract_address_by_name (axelar_id st) name).

Definition update_target (name : string) (data : Fields) : M R () :=
  st ← get_state; zoom (update_target_json (axelar_id st) name (JObj data)).

Definition contract_of (r : Receipt) (msg : string) : M R Address :=
  lift (ok_or (contract_address r) msg).

(** [evm_deploy::run]. *)
Definition evm_deploy (fuel : nat) sc (step_name kind : string) private_key artifact : M R () :=
  bytecode ← zoom (call (read_artifact_bytecode artifact));
  predeploy ← zoom (call (read_artifact_runtime_hash artifact));
  deployer ← signer_of private_key;
  st ← get_state;
  deployed ← (if decide (kind = "deploy-create") then
      receipt ← zoom (send fuel true sc (with_deploy_code bytecode) step_name);
      addr ← contract_of receipt "no contract address in receipt";
      mret (addr, "create", None)
    else
      factory ← read_address "ConstAddressDeployer";
      let salt_string := salt (st_env st) step_name (cosm_salt st) in
      let salt_bytes := get_salt_from_key salt_string in
      let code := if decide (step_name = "Operators") then bytecode ++ abi_address deployer
                  else bytecode in
      addr ← zoom (call (deployed_address factory code deployer salt_bytes));
      zoom (send fuel true sc (contract_call factory (deploy_calldata code salt_bytes)) step_name);;
      mret (addr, "create2", Some salt_string));
  let '(addr, method, salt_used) := deployed in
  code ← zoom (call (eth_get_code addr));
  when (bool_decide (step_name ∈ ["ConstAddressDeployer"; "Create3Deployer"]))
    (expected ← zoom (call (eth_call_create deployer bytecode));
     ensure (negb (bool_decide (code = [])) && bool_decide (code = expected))
       "deployed factory runtime differs from the pinned artifact");;
  update_target step_name
    ([ address_field "address" addr; address_field "deployer" deployer;
       text_field "deploymentMethod" method; hash_field "codehash" (keccak256 code);
       hash_field "predeployCodehash" predeploy ]
     ++ match salt_used with Some s => [text_field "salt" s] | None => [] end).

(** [register_operators::run]. *)
Definition register_operators (fuel : nat) sc private_key : M R () :=
  signer_of private_key;;
  operators ← read_address "Operators";
  st ← get_state;
  for_each (fun op =>
    already ← zoom (call (is_operator operators op));
    if already : bool then mret ()
    else
      zoom (send fuel true sc (contract_call operators (add_operator_calldata op))
        ("register operator " +:+ address_to_string op)%string);;
      now ← zoom (call (is_operator operators op));
      ensure now "operator registration did not take effect")
    (axelar_operators (st_env st)).

(** [transfer_ownership::run]. *)
Definition transfer_ownership (fuel : nat) sc (step : Step) private_key : M R () :=
  signer ← signer_of private_key;
  match step_kind step with
  | TransferOwnership contract new_owner =>
      address ← read_address contract;
      owner ← zoom (call (mc_owner None address));
      when (negb (owner =? new_owner))
        (ensure (owner =? signer) "unexpected current owner";;
         zoom (send fuel true sc (contract_call address (transfer_ownership_calldata new_owner))
           "transfer ownership");;
         mret ());;
      now ← zoom (call (mc_owner None address));
      ensure (now =? new_owner) "ownership transfer postcondition failed";;
      st ← get_state;
      zoom (patch_target_json (axelar_id st) contract [address_field "owner" new_owner])
  | _ => throw (Failed "transfer_ownership::run called on wrong kind")
  end.

(** [deploy_upgradable::initialize_proxy]. *)
Definition initialize_proxy (fuel : nat) sc (proxy implementation owner : Address) : M R () :=
  stored ← zoom (call (eth_get_storage_at proxy IMPLEMENTATION_SLOT));
  if negb (stored =? 0) then
    ensure (address_from_word stored =? implementation) "proxy has a conflicting implementation"
  else
    receipt ← zoom (send fuel true sc (contract_call proxy (init_calldata implementation owner []))
      "gas proxy initialization");
    ensure (status receipt) "proxy init reverted on-chain".

(** [deploy_upgradable::deploy_proxy]. *)
Definition deploy_proxy (fuel : nat) sc artifact (implementation deployer : Address) : M R Address :=
  bytecode ← zoom (call (read_artifact_bytecode artifact));
  st ← get_state;
  if decide (st_env st = Mainnet) then
    factory ← read_address "ConstAddressDeployer";
    let salt := get_salt_from_key "AxelarGasService" in
    address ← zoom (call (deployed_address factory bytecode deployer salt));
    receipt ← zoom (send fuel true sc
      (contract_call factory
        (deploy_and_init_calldata bytecode salt (init_calldata implementation deployer [])))
      "gas proxy");
    block ← lift (ok_or (block_hash receipt) "gas proxy receipt has no block hash");
    found ← zoom (call (mc_implementation (Some block) address));
    ok ← (if found =? implementation then
            owner ← zoom (call (mc_owner (Some block) address)); mret (owner =? deployer)
          else mret false);
    ensure ok "atomic Gas Service initialization could not be verified at its receipt block";;
    mret address
  else
    receipt ← zoom (send fuel true sc (with_deploy_code bytecode) "gas proxy");
    address ← contract_of receipt "no contract address in proxy receipt";
    initialize_proxy fuel sc address implementation deployer;;
    mret address.

(** [deploy_upgradable::write_contract_config]. *)
Definition write_contract_config (step_name : string) (proxy implementation deployer collector : Address)
    : M R () :=
  st ← get_state;
  let mainnet := bool_decide (st_env st = Mainnet) in
  update_target step_name
    ([ address_field "address" proxy; address_field "implementation" implementation;
       address_field "deployer" deployer;
       text_field "deploymentMethod" (if mainnet then "create2" else "create") ]
     ++ (if mainnet then [text_field "salt" "AxelarGasService"] else [])
     ++ [address_field "collector" collector]).

(** [deploy_upgradable::run]. *)
Definition deploy_upgradable (fuel : nat) sc (index : nat) (step_name : string) private_key
    (impl_artifact proxy_artifact : string) : M R () :=
  deployer ← signer_of private_key;
  collector ← read_address "Operators";
  bytecode ← zoom (call (read_artifact_bytecode impl_artifact));
  receipt ← zoom (send fuel true sc (with_deploy_code (bytecode ++ abi_address collector))
    "gas implementation");
  ensure (status receipt) "implementation deployment reverted on-chain";;
  implementation ← contract_of receipt "no contract address in implementation receipt";
  update_step index (set_implementation_address implementation);;
  save_state;;
  proxy ← deploy_proxy fuel sc proxy_artifact implementation deployer;
  update_step index (set_proxy_address proxy);;
  save_state;;
  write_contract_config step_name proxy implementation deployer collector.

(** ** Gateway (deploy_gateway.rs, predict_address.rs) *)

(** [predict_address::run]. *)
Definition predict_address : M R () :=
  st ← get_state;
  deployer ← lift (ok_or (gateway_deployer st) "no gatewayDeployer in state. Run init first");
  nonce ← zoom (call (eth_get_transaction_count deployer));
  pending ← zoom (call (eth_pending_count deployer));
  ensure (nonce =? pending) "gateway deployer has pending transactions";;
  proxy_nonce ← lift (ok_or (checked_add 64 nonce 1) "gateway nonce overflow");
  modify_state (set_predicted_gateway (compute_create_address deployer proxy_nonce)).

(** [deploy_gateway::gateway_implementation_code]. *)
Definition gateway_implementation_code artifact (domain_separator : B256) (network : Network)
    : M R bytes :=
  code ← zoom (call (read_artifact_bytecode artifact));
  mret (code ++ abi_gateway_constructor 15 domain_separator (gateway_rotation_delay_seconds network)).

(** [deploy_gateway::deploy_gateway_proxy]. *)
Definition deploy_gateway_proxy (fuel : nat) sc (implementation owner : Address) (setup : bytes)
    artifact (nonce : option Z) : M R Address :=
  code ← zoom (call (read_artifact_bytecode artifact));
  let request := with_nonce_gas nonce (Some 5000000)
    (with_deploy_code (code ++ abi_proxy_constructor implementation owner setup)) in
  receipt ← zoom (send fuel true sc request "gateway proxy");
  ensure (status receipt) "proxy deployment reverted on-chain (status=0)";;
  contract_of receipt "no contract address in proxy receipt".

(** [deploy_gateway::write_gateway_config]. *)
Definition write_gateway_config (proxy implementation deployer : Address)
    (implementation_codehash domain_separator : B256) (verifier_set_id : string) : M R () :=
  st ← get_state;
  p ← lift (ok_or (hardened_plan st) "missing deployment plan");
  update_target "AxelarGateway"
    [ address_field "address" proxy; address_field "implementation" implementation;
      address_field "deployer" deployer; text_field "deploymentMethod" "create";
      hash_field "implementationCodehash" implementation_codehash;
      ("previousSignersRetention", JNum 15);
      hash_field "domainSeparator" domain_separator;
      ("minimumRotationDelay", JNum (gateway_rotation_delay_seconds (st_env st)));
      text_field "operator" (address_json (gateway_operator p));
      address_field "owner" deployer; text_field "connectionType" "amplifier";
      text_field "initialVerifierSetId" verifier_set_id ].

(** [deploy_gateway::run]. *)
Definition deploy_gateway (fuel : nat) sc (index : nat) private_key
    (impl_artifact proxy_artifact : string) : M R () :=
  deployer ← signer_of private_key;
  st ← get_state;
  domain_separator ← zoom (compute_domain_separator (axelar_id st));
  nonce ← zoom (gateway_nonce sc st deployer);
  code ← gateway_implementation_code impl_artifact domain_separator (st_env st);
  receipt ← zoom (send fuel true sc (with_nonce_gas (Some nonce) None (with_deploy_code code))
    "gateway implementation");
  implementation ← contract_of receipt "no contract address in implementation receipt";
  runtime ← zoom (call (eth_get_code implementation));
  update_step index (set_implementation_address implementation);;
  save_state;;
  st ← get_state;
  zoom (refresh_before_gateway sc st);;
  initial ← zoom (initial_set sc);
  p ← lift (ok_or (hardened_plan st) "missing deployment plan");
  let setup := encode_gateway_setup_params (gateway_operator p) (signers initial) (threshold initial)
                 (set_nonce initial) in
  proxy ← deploy_gateway_proxy fuel sc implementation deployer setup proxy_artifact (Some (nonce + 1));
  ensure (bool_decide (Some proxy = predicted_gateway_address st))
    "gateway address differs from the pinned Cosmos configuration";;
  write_gateway_config proxy implementation deployer (keccak256 runtime) domain_separator (set_id initial).

(** ** Interchain Token Service (deploy_its.rs) *)

Record ItsDeploymentPlan : Type := mkItsPlan {
  ip_step : Step;
  ip_deployer : Address;
  ip_service_owner : Address;
  ip_factory_owner : Address;
  ip_const_deployer : Address;
  ip_create3_deployer : Address;
  ip_gateway : Address;
  ip_gas_service : Address;
  ip_chain : string;
  ip_hub : string;
  ip_its_salt_key : string;
  ip_proxy_salt_key : string;
  ip_helper_salt : B256;
  ip_implementation_salt : B256;
  ip_proxy_salt : B256;
  ip_factory_salt : B256;
  ip_artifacts : string;
  ip_predeploy_codehash : B256;
  ip_its_proxy : Address;
  ip_factory_proxy : Address
}.

Definition INTERCHAIN_PROXY_ARTIFACT : string := "proxies/InterchainProxy.sol/InterchainProxy.json".

(** [ItsDeploymentPlan::artifact]. *)
Definition its_artifact (p : ItsDeploymentPlan) (relative : string) : string :=
  (ip_artifacts p +:+ "/" +:+ relative)%string.

(** [record_its_deployer]. *)
Definition record_its_deployer (index : nat) (step : Step) (deployer : Address) : M R Step :=
  match its_address "itsDeployer" step with
  | Some previous =>
      when (negb (previous =? deployer))
        (update_step index clear_its_helper_addresses;;
         update_step index (set_its_address "itsDeployer" deployer);;
         save_state)
  | None =>
      update_step index (set_its_address "itsDeployer" deployer);;
      save_state
  end;;
  get_step index.

(** [prepare_its_plan]. *)
Definition prepare_its_plan (index : nat) (step : Step) (deployer : Address) : M R ItsDeploymentPlan :=
  step ← record_its_deployer index step deployer;
  const_deployer ← read_address "ConstAddressDeployer";
  create3 ← read_address "Create3Deployer";
  gateway ← read_address "AxelarGateway";
  gas_service ← read_address "AxelarGasService";
  root ← zoom (call read_target_file);
  st ← get_state;
  hub ← lift (ok_or (pointer "/axelar/contracts/InterchainTokenService/address" root ≫= as_str)
    "no axelar.contracts.InterchainTokenService.address in target JSON");
  its_key ← lift (ok_or (its_salt st) "no itsSalt in state");
  proxy_key ← lift (ok_or (its_proxy_salt st) "no itsProxySalt in state");
  let proxy_salt := get_salt_from_key ("ITS " +:+ proxy_key)%string in
  let factory_salt := get_salt_from_key ("ITS Factory " +:+ proxy_key)%string in
  codehash ← zoom (call (read_artifact_runtime_hash
    (its_artifacts st +:+ "/" +:+ INTERCHAIN_PROXY_ARTIFACT)%string));
  its_proxy ← zoom (call (deployed_address create3 [] deployer proxy_salt));
  factory_proxy ← zoom (call (deployed_address create3 [] deployer factory_salt));
  p ← lift (ok_or (hardened_plan st) "missing deployment plan");
  mret (mkItsPlan step deployer (its_owner p) (factory_owner p) const_deployer create3 gateway
    gas_service (chain_name (axelar_id st) root) hub its_key proxy_key
    (get_salt_from_key ("ITS " +:+ its_key)%string)
    (get_salt_from_key ("ITS " +:+ its_key +:+ " Implementation")%string)
    proxy_salt factory_salt (its_artifacts st) codehash its_proxy factory_proxy).

(** [deploy_via_create2]; the two reworded errors stay errors. *)
Definition deploy_via_create2 (fuel : nat) sc (factory deployer : Address) (name : string)
    (bytecode : bytes) (args : option bytes) (salt : B256) : M R Address :=
  let code := bytecode ++ default [] args in
  predicted ← zoom (call (deployed_address factory code deployer salt));
  zoom (send fuel true sc (contract_call factory (deploy_calldata code salt)) name);;
  mret predicted.

(** [deploy_via_create3]. *)
Definition deploy_via_create3 (fuel : nat) sc (factory : Address) (name : string)
    (bytecode args : bytes) (salt : B256) (predicted : Address) : M R Address :=
  zoom (send fuel true sc (contract_call factory (create3_calldata (bytecode ++ args) salt)) name);;
  mret predicted.

(** [save_its_address]. *)
Definition save_its_address (index : nat) (name : string) (a : Address) : M R () :=
  update_step index (set_its_address name a);;
  save_state.

(** [deploy_named_helper]. *)
Definition deploy_named_helper (fuel : nat) sc (index : nat) (p : ItsDeploymentPlan)
    (name artifact : string) (args : option bytes) : M R Address :=
  bytecode ← zoom (call (read_artifact_bytecode (its_artifact p artifact)));
  address ← deploy_via_create2 fuel sc (ip_const_deployer p) (ip_deployer p) name bytecode args
    (ip_helper_salt p);
  save_its_address index name address;;
  mret address.

Record ItsHelpers : Type := mkItsHelpers {
  ih_token_manager_deployer : Address;
  ih_interchain_token : Address;
  ih_interchain_token_deployer : Address;
  ih_token_manager : Address;
  ih_token_handler : Address
}.

(** [deploy_its_helpers]. *)
Definition deploy_its_helpers (fuel : nat) sc (index : nat) (p : ItsDeploymentPlan) : M R ItsHelpers :=
  tmd ← deploy_named_helper fuel sc index p "TokenManagerDeployer"
    "utils/TokenManagerDeployer.sol/TokenManagerDeployer.json" None;
  token ← deploy_named_helper fuel sc index p "InterchainToken"
    "interchain-token/InterchainToken.sol/InterchainToken.json" (Some (abi_address (ip_its_proxy p)));
  itd ← deploy_named_helper fuel sc index p "InterchainTokenDeployer"
    "utils/InterchainTokenDeployer.sol/InterchainTokenDeployer.json" (Some (abi_address token));
  tm ← deploy_named_helper fuel sc index p "TokenManager"
    "token-manager/TokenManager.sol/TokenManager.json" (Some (abi_address (ip_its_proxy p)));
  th ← deploy_named_helper fuel sc index p "TokenHandler"
    "TokenHandler.sol/TokenHandler.json" None;
  mret (mkItsHelpers tmd token itd tm th).

(** [deploy_service_implementation]. *)
Definition deploy_service_implementation (fuel : nat) sc (p : ItsDeploymentPlan) (args : bytes)
    : M R Address :=
  predicted ← zoom (call (deployed_address (ip_create3_deployer p) [] (ip_deployer p)
    (ip_implementation_salt p)));
  bytecode ← zoom (call (read_artifact_bytecode
    (its_artifact p "InterchainTokenService.sol/InterchainTokenService.json")));
  deploy_via_create3 fuel sc (ip_create3_deployer p) "InterchainTokenServiceImpl" bytecode args
    (ip_implementation_salt p) predicted.

(** [deploy_its_service]: the implementation and the proxy. *)
Definition deploy_its_service (fuel : nat) sc (index : nat) (p : ItsDeploymentPlan) (h : ItsHelpers)
    : M R (Address * Address) :=
  implementation ← deploy_service_implementation fuel sc p
    (abi_its_constructor (ih_token_manager_deployer h) (ih_interchain_token_deployer h)
       (ip_gateway p) (ip_gas_service p) (ip_factory_proxy p) (ip_chain p) (ip_hub p)
       (ih_token_manager h) (ih_token_handler h));
  save_its_address index "InterchainTokenServiceImpl" implementation;;
  bytecode ← zoom (call (read_artifact_bytecode (its_artifact p INTERCHAIN_PROXY_ARTIFACT)));
  let setup := abi_its_setup (ip_deployer p) (ip_chain p) [] in
  proxy ← deploy_via_create3 fuel sc (ip_create3_deployer p) "InterchainTokenServiceProxy" bytecode
    (abi_proxy_constructor implementation (ip_service_owner p) setup) (ip_proxy_salt p) (ip_its_proxy p);
  ensure (proxy =? ip_its_proxy p) "ITS proxy address mismatch";;
  mret (implementation, proxy).

(** [deploy_its_factory]. *)
Definition deploy_its_factory (fuel : nat) sc (index : nat) (p : ItsDeploymentPlan)
    : M R (Address * Address) :=
  bytecode ← zoom (call (read_artifact_bytecode
    (its_artifact p "InterchainTokenFactory.sol/InterchainTokenFactory.json")));
  implementation ← deploy_via_create2 fuel sc (ip_const_deployer p) (ip_deployer p)
    "InterchainTokenFactoryImpl" bytecode (Some (abi_address (ip_its_proxy p))) (ip_helper_salt p);
  save_its_address index "InterchainTokenFactoryImpl" implementation;;
  bytecode ← zoom (call (read_artifact_bytecode (its_artifact p INTERCHAIN_PROXY_ARTIFACT)));
  proxy ← deploy_via_create3 fuel sc (ip_create3_deployer p) "InterchainTokenFactoryProxy" bytecode
    (abi_proxy_constructor implementation (ip_factory_owner p) []) (ip_factory_salt p)
    (ip_factory_proxy p);
  ensure (proxy =? ip_factory_proxy p) "factory proxy address mismatch";;
  mret (implementation, proxy).

(** [save_its_deployment]. *)
Definition save_its_deployment (p : ItsDeploymentPlan) (h : ItsHelpers) (service factory : Address * Address)
    : M R () :=
  update_target "InterchainTokenService"
    [ text_field "salt" ("ITS " +:+ ip_its_salt_key p)%string;
      text_field "proxySalt" ("ITS " +:+ ip_proxy_salt_key p)%string;
      address_field "deployer" (ip_deployer p);
      address_field "tokenManagerDeployer" (ih_token_manager_deployer h);
      address_field "interchainToken" (ih_interchain_token h);
      address_field "interchainTokenDeployer" (ih_interchain_token_deployer h);
      address_field "tokenManager" (ih_token_manager h);
      address_field "tokenHandler" (ih_token_handler h);
      address_field "implementation" service.1; address_field "address" service.2;
      hash_field "predeployCodehash" (ip_predeploy_codehash p);
      address_field "owner" (ip_service_owner p) ];;
  update_target "InterchainTokenFactory"
    [ text_field "salt" ("ITS Factory " +:+ ip_proxy_salt_key p)%string;
      address_field "deployer" (ip_deployer p);
      address_field "implementation" factory.1; address_field "address" factory.2;
      address_field "owner" (ip_factory_owner p) ].

(** [deploy_its::run]. *)
Definition deploy_its (fuel : nat) sc (index : nat) (step : Step) private_key : M R () :=
  deployer ← signer_of private_key;
  p ← prepare_its_plan index step deployer;
  helpers ← deploy_its_helpers fuel sc index p;
  service ← deploy_its_service fuel sc index p helpers;
  factory ← deploy_its_factory fuel sc index p;
  save_its_deployment p helpers service factory.
End Deploy.

(** ** The EVM steps are safe and tame *)

Lemma readonly_try {E A} (m : M (World E) A) : readonly m -> readonly (try_program m).
Proof. intros Hm w. specialize (Hm w). unfold try_program. by destruct (m w). Qed.

Section Facts.
Context {E : Type} `{Host E, EvmNode E, LcdNode E, DeployNode E, StepNode E, TargetFile E, StepLib,
                     ConfigLib, EvmLib, CosmosLib, CosmosAccounts, SignerLib}.
Implicit Types (sc : Scope).

Lemma readonly_observation_block sc : readonly (observation_block (E := E) sc).
Proof. unfold observation_block. sread. Qed.
Lemma readonly_initial_set sc : readonly (initial_set (E := E) sc).
Proof. unfold initial_set. sread. Qed.
Lemma readonly_gateway_nonce sc st a : readonly (gateway_nonce (E := E) sc st a).
Proof. pose proof readonly_initial_set. unfold gateway_nonce. sread. Qed.

Lemma safe_evm_compat fuel sc key : safe (zoom (evm_compat (E := E) fuel sc key)).
Proof.
  apply safe_zoom. intros init. unfold evm_compat.
  assert (forall A (m : M (World E) A), readonly m ->
    hoare (Has init any) m (fun _ => Has init any) (Safe init)) as Hread
    by (intros; apply hoare_readonly; [typeclasses eauto|done]).
  eapply hoare_bind; [apply Hread; sread|]. intros deployer.
  eapply hoare_bind.
  { apply Hread. pose proof (readonly_try _ (readonly_observation_block sc)).
    unfold run_phase_1_health, run_chain_identity_checks, run_block_health_checks,
      run_account_health_checks. sread. }
  intros [phase1 block]. destruct (existsb _ _); [apply Hread; sread|].
  eapply (hoare_bind _ _ (fun _ => Has init any)).
  { unfold run_phase_2_contract. eapply hoare_bind; [apply Hread; sread|]. intros code.
    eapply hoare_bind; [apply hoare_send_any|]. intros deployed.
    eapply hoare_bind; [apply Hread; sread|]. intros address.
    eapply hoare_bind; [apply Hread; sread|]. intros found.
    eapply hoare_bind; [apply Hread; sread|]. intros gas.
    eapply hoare_bind; [apply hoare_send_any|]. intros updated. apply Hread. sread. }
  intros [[[phase2 address] update_block] logs].
  apply Hread. unfold run_phase_3_events, run_optional_checks. sread.
Qed.

Lemma records_implementation a s s' : set_implementation_address a s = Ok s' -> records_output s s'.
Proof. intros Hs. left. by exists a. Qed.
Lemma records_proxy a s s' : set_proxy_address a s = Ok s' -> records_output s s'.
Proof. intros Hs. right. left. by exists a. Qed.
Lemma records_its n a s s' : set_its_address n a s = Ok s' -> records_output s s'.
Proof. intros Hs. do 2 right. left. by exists n, a. Qed.
Lemma records_clear s s' : clear_its_helper_addresses s = Ok s' -> records_output s s'.
Proof. intros Hs. by do 3 right. Qed.
Lemma tame_record_implementation i a : tame (E := E) (update_step i (set_implementation_address a)).
Proof. apply tame_update_step, records_implementation. Qed.
Lemma tame_record_proxy i a : tame (E := E) (update_step i (set_proxy_address a)).
Proof. apply tame_update_step, records_proxy. Qed.
Lemma tame_record_its i n a : tame (E := E) (update_step i (set_its_address n a)).
Proof. apply tame_update_step, records_its. Qed.
Lemma tame_clear i : tame (E := E) (update_step i clear_its_helper_addresses).
Proof. apply tame_update_step, records_clear. Qed.

Hint Resolve tame_record_implementation tame_record_proxy tame_record_its tame_clear : steps.

Lemma safe_signer_of key : safe (signer_of (E := E) key).
Proof. apply safe_lift. Qed.
Lemma safe_read_address name : safe (read_address (E := E) name).
Proof. unfold read_address. ssafe. Qed.
Lemma safe_update_target name data : safe (update_target (E := E) name data).
Proof. unfold update_target. ssafe. Qed.
Lemma safe_contract_of r msg : safe (contract_of (E := E) r msg).
Proof. apply safe_lift. Qed.
Lemma tame_signer_of key : tame (signer_of (E := E) key).
Proof. apply tame_lift. Qed.
Lemma tame_read_address name : tame (read_address (E := E) name).
Proof. unfold read_address. stame. Qed.
Lemma tame_update_target name data : tame (update_target (E := E) name data).
Proof. unfold update_target. stame. Qed.
Lemma tame_contract_of r msg : tame (contract_of (E := E) r msg).
Proof. apply tame_lift. Qed.
Hint Resolve safe_signer_of safe_read_address safe_update_target safe_contract_of
  tame_signer_of tame_read_address tame_update_target tame_contract_of : steps.

Lemma safe_evm_deploy fuel sc name kind key artifact :
  safe (evm_deploy (E := E) fuel sc name kind key artifact).
Proof. unfold evm_deploy. ssafe. Qed.
Lemma tame_evm_deploy fuel sc name kind key artifact :
  tame (evm_deploy (E := E) fuel sc name kind key artifact).
Proof. unfold evm_deploy. stame. Qed.

Lemma safe_register_operators fuel sc key : safe (register_operators (E := E) fuel sc key).
Proof. unfold register_operators. ssafe. Qed.
Lemma tame_register_operators fuel sc key : tame (register_operators (E := E) fuel sc key).
Proof. unfold register_operators. stame. Qed.

Lemma safe_transfer_ownership fuel sc step key :
  safe (transfer_ownership (E := E) fuel sc step key).
Proof. unfold transfer_ownership. ssafe. Qed.
Lemma tame_transfer_ownership fuel sc step key :
  tame (transfer_ownership (E := E) fuel sc step key).
Proof. unfold transfer_ownership. stame. Qed.

Lemma safe_deploy_proxy fuel sc artifact impl deployer :
  safe (deploy_proxy (E := E) fuel sc artifact impl deployer).
Proof. unfold deploy_proxy, initialize_proxy. ssafe. Qed.
Lemma tame_deploy_proxy fuel sc artifact impl deployer :
  tame (deploy_proxy (E := E) fuel sc artifact impl deployer).
Proof. unfold deploy_proxy, initialize_proxy. stame. Qed.
Hint Resolve safe_deploy_proxy tame_deploy_proxy : steps.

Lemma safe_deploy_upgradable fuel sc i name key a b :
  safe (deploy_upgradable (E := E) fuel sc i name key a b).
Proof. unfold deploy_upgradable, write_contract_config. ssafe. Qed.
Lemma tame_deploy_upgradable fuel sc i name key a b :
  tame (deploy_upgradable (E := E) fuel sc i name key a b).
Proof. unfold deploy_upgradable, write_contract_config. stame. Qed.

Lemma safe_predict_address : safe (predict_address (E := E)).
Proof. unfold predict_address. ssafe. Qed.
Lemma tame_predict_address : tame (predict_address (E := E)).
Proof. unfold predict_address. stame. Qed.

Lemma safe_refresh sc st : safe (zoom (refresh_before_gateway (E := E) sc st)).
Proof. apply safe_zoom. intros init. by apply hoare_refresh. Qed.
Hint Resolve safe_refresh readonly_gateway_nonce readonly_initial_set : steps reads.

Lemma safe_deploy_gateway fuel sc i key a b : safe (deploy_gateway (E := E) fuel sc i key a b).
Proof.
  unfold deploy_gateway, gateway_implementation_code, deploy_gateway_proxy, write_gateway_config. ssafe.
Qed.
Lemma tame_deploy_gateway fuel sc i key a b : tame (deploy_gateway (E := E) fuel sc i key a b).
Proof.
  unfold deploy_gateway, gateway_implementation_code, deploy_gateway_proxy, write_gateway_config. stame.
Qed.

Lemma safe_named_helper fuel sc i p name artifact args :
  safe (deploy_named_helper (E := E) fuel sc i p name artifact args).
Proof. unfold deploy_named_helper, deploy_via_create2, save_its_address. ssafe. Qed.
Lemma tame_named_helper fuel sc i p name artifact args :
  tame (deploy_named_helper (E := E) fuel sc i p name artifact args).
Proof. unfold deploy_named_helper, deploy_via_create2, save_its_address. stame. Qed.
Hint Resolve safe_named_helper tame_named_helper : steps.

Lemma safe_prepare_its i step deployer : safe (prepare_its_plan (E := E) i step deployer).
Proof. unfold prepare_its_plan, record_its_deployer. ssafe. Qed.
Lemma tame_prepare_its i step deployer : tame (prepare_its_plan (E := E) i step deployer).
Proof. unfold prepare_its_plan, record_its_deployer. stame. Qed.
Hint Resolve safe_prepare_its tame_prepare_its : steps.

Lemma safe_deploy_its fuel sc i step key : safe (deploy_its (E := E) fuel sc i step key).
Proof.
  unfold deploy_its, deploy_its_helpers, deploy_its_service, deploy_service_implementation,
    deploy_its_factory, deploy_via_create2, deploy_via_create3, save_its_address, save_its_deployment. ssafe.
Qed.
Lemma tame_deploy_its fuel sc i step key : tame (deploy_its (E := E) fuel sc i step key).
Proof.
  unfold deploy_its, deploy_its_helpers, deploy_its_service, deploy_service_implementation,
    deploy_its_factory, deploy_via_create2, deploy_via_create3, save_its_address, save_its_deployment. stame.
Qed.
End Facts.

#[export] Hint Resolve safe_evm_compat safe_evm_deploy safe_register_operators
  safe_transfer_ownership safe_deploy_upgradable safe_predict_address safe_deploy_gateway
  safe_deploy_its : steps.
#[export] Hint Resolve tame_evm_deploy tame_register_operators tame_transfer_ownership
  tame_deploy_upgradable tame_predict_address tame_deploy_gateway tame_deploy_its : steps.
