(* ===== verification/CosmosSteps.v ===== *)
(** * Axelar-side step bodies (src/steps/cosmos_tx, config_edit.rs,
    cosmos_query.rs, cosmos_poll.rs, prover_admin.rs; hardened/governance.rs,
    direct.rs, verifiers.rs, verifier_set.rs)

    Submissions to the Axelar network: the combined instantiation of a chain's
    contracts, reward funding, the ITS hub registration, the watch over a
    governance proposal, and the initialization of the verifier set. *)

From Stdlib Require Import Ascii.
From Stdlib Require String.
From S2P Require Import Prelude Types Journal Chain Machine Session Funding State Plan Config Intent EvmRecovery Json Cosmos Target Recovery Verifiers Checkpoints Context EvmSteps.

(** ** Interfaces *)

Record ExecuteContract : Type := mkExecute {
  ex_sender : string;
  ex_contract : string;
  ex_msg : bytes;
  ex_funds : list Coin
}.

Record SubmitProposal : Type := mkProposal {
  pr_messages : list Any;
  pr_initial_deposit : list Coin;
  pr_proposer : string;
  pr_title : string;
  pr_summary : string;
  pr_expedited : bool
}.

(** JSON and base64 text, and the protobuf messages of a submission (serde,
    base64, prost). *)
Class MessageLib : Type := {
  json_bytes : Json -> bytes;
  json_of_bytes : bytes -> option Json;
  base64_encode : bytes -> string;
  base64_decode : string -> option bytes;
  encode_execute : ExecuteContract -> bytes;
  decode_execute : bytes -> option ExecuteContract;
  encode_proposal : SubmitProposal -> bytes;
  decode_proposal : bytes -> option SubmitProposal;
  (** [serde_json::from_value::<Vec<ActiveVerifier>>], by the addresses. *)
  active_verifiers : Json -> option (list string)
}.

(** Why a contract query failed: [None] is anything but an HTTP error; an HTTP
    error has its status and, when its body parses, the contract's code and
    message. *)
Abbreviation QueryError := (option (Z * option (Z * string))).

Inductive InstantiateAccess : Type := Everybody | AnyOfAddresses | Nobody | Unknown.

(** One page of the list of uploaded codes: the entries' checksums and ids, if
    the answer has entries, and the key of the next page. *)
Record CodePage : Type := mkCodePage {
  cp_codes : option (list (option string * option string));
  cp_next : option string
}.

Class CosmosNode (E : Type) : Type := {
  smart_query : string -> string -> Json -> E -> (QueryError + Json) * E;
  lcd_proposal : string -> Z -> E -> result Json * E;
  (** The expedited minimum deposit of the governance parameters. *)
  lcd_min_deposit : string -> E -> result (list Coin) * E;
  lcd_code_page : string -> option string -> E -> result CodePage * E;
  lcd_code_permissions : string -> Z -> E -> result (InstantiateAccess * list string) * E;
  (** [contract/{address}]: the status, the error of the body when it is one,
      and the label when it is a contract. *)
  lcd_contract_info : string -> string -> E -> result (Z * option (Z * string) * option string) * E;
  (** The prover's admin, from its raw storage. *)
  lcd_prover_admin : string -> string -> E -> result string * E
}.

(** ** Text *)

Definition is_alphanumeric (c : ascii) : bool :=
  let n := N_of_ascii c in is_alphabetic c || ((48 <=? n) && (n <=? 57))%N.

(** [text.split(|c| !c.is_alphanumeric())]. *)
Fixpoint words (s : string) : list string :=
  match s with
  | String.EmptyString => [""]
  | String.String c s =>
      if is_alphanumeric c then
        match words s with [] => [String.String c ""] | w :: ws => String.String c w :: ws end
      else "" :: words s
  end.

(** [str::to_uppercase] on ASCII. *)
Fixpoint to_uppercase (s : string) : string :=
  match s with
  | String.EmptyString => ""
  | String.String c s =>
      let n := N_of_ascii c in
      String.String (if ((97 <=? n) && (n <=? 122))%N then ascii_of_N (n - 32) else c) (to_uppercase s)
  end.

Definition branded (text : string) : bool :=
  existsb (fun w => eq_ignore_ascii_case w "axe") (words text).

(** ** Messages (cosmos/tx.rs, reward_pools.rs, batch.rs) *)

Record RewardPoolSettings : Type := mkRewardPool {
  epoch_blocks : Z;
  participation_threshold : Z * Z;
  rewards_per_epoch_base_units : Z
}.

Definition reward_pool_settings (env : string) : RewardPoolSettings :=
  if decide (env = "devnet-amplifier") then mkRewardPool 100 (7, 10) 100
  else if decide (env = "mainnet") then mkRewardPool 47250 (8, 10) 5553500000
  else mkRewardPool 600 (7, 10) 100.

Definition JPair (p : Z * Z) : Json := JArr [JStr (to_dec p.1); JStr (to_dec p.2)].

Definition pool_id (chain contract : string) : Json :=
  JObj [("chain_name", JStr chain); ("contract", JStr contract)].

Definition reward_pool_messages (env chain voting_verifier multisig : string) : list Json :=
  let s := reward_pool_settings env in
  let create contract :=
    JObj [("create_pool", JObj
      [("params", JObj
         [("epoch_duration", JStr (to_dec (epoch_blocks s)));
          ("participation_threshold", JPair (participation_threshold s));
          ("rewards_per_epoch", JStr (to_dec (rewards_per_epoch_base_units s)))]);
       ("pool_id", pool_id chain contract)])] in
  [create voting_verifier; create multisig].

Definition contract_admin (env : string) : string :=
  if decide (env = "devnet-amplifier") then "axelar1zlr7e5qf3sz7yf890rkh9tcnu87234k6k7ytd9"
  else if decide (env = "testnet") then "axelar1wxej3l9aczsns3harrtdzk7rct29jl47tvu8mp"
  else if decide (env = "mainnet") then "axelar10d07y265gmmuvt4z0w9aw880jnsr700j7v9daj"
  else "axelar12qvsvse32cjyw60ztysd3v655aj5urqeup82ky".

Definition DEFAULT_VV_BLOCK_EXPIRY : Z := 50.

(** [governance::valid_expedited_transition]: a proposal may lose its
    expedited mark, never gain one. *)
Definition valid_expedited_transition (submitted : bool) (current : option bool) : bool :=
  match current with Some actual => submitted || negb actual | None => false end.

Section Messages.
Context `{MessageLib}.

Definition build_execute_msg_any_with_funds (sender contract : string) (msg : Json) (funds : list Coin)
    : Any :=
  mkAny "/cosmwasm.wasm.v1.MsgExecuteContract"
    (encode_execute (mkExecute sender contract (json_bytes msg) funds)).

Definition build_execute_msg_any (sender contract : string) (msg : Json) : Any :=
  build_execute_msg_any_with_funds sender contract msg [].

Definition build_submit_proposal_any (proposer : string) (inner : list Any) (title summary amount denom : string)
    (expedited : bool) : result Any :=
  _ ← ensure_ok (negb (branded title)) "proposal title must not contain tool branding";
  _ ← ensure_ok (negb (branded summary)) "proposal description must not contain tool branding";
  Ok (mkAny "/cosmos.gov.v1.MsgSubmitProposal"
        (encode_proposal (mkProposal inner [mkCoin denom amount] proposer title summary expedited))).

(** One message of a proposal on chain against the submitted one. *)
Definition validate_execution (actual : Json) (message : Any) : result () :=
  _ ← ensure_ok (bool_decide (type_url message = "/cosmwasm.wasm.v1.MsgExecuteContract") &&
                 json_eqb (index actual "@type") (JStr (type_url message)))
    "unsupported governance execution";
  expected ← ok_or (decode_execute (any_value message)) "invalid execution";
  payload ← match as_str (index actual "msg") with
            | Some text =>
                b ← ok_or (base64_decode text) "invalid base64";
                ok_or (json_of_bytes b) "invalid payload"
            | None => Ok (index actual "msg")
            end;
  ensure_ok
    (json_eqb (index actual "sender") (JStr (ex_sender expected)) &&
     json_eqb (index actual "contract") (JStr (ex_contract expected)) &&
     match json_of_bytes (ex_msg expected) with Some m => json_eqb payload m | None => false end &&
     json_eqb (index actual "funds")
       (JArr ((fun c => JObj [("denom", JStr (coin_denom c)); ("amount", JStr (coin_amount c))])
                <$> ex_funds expected)))
    "governance execution differs from approved submission".

(** [governance::validate_payload]. *)
Definition validate_payload `{CosmosLib} (raw : bytes) (proposal : Json) : result () :=
  tx ← ok_or (decode_tx_raw raw) "invalid transaction";
  messages ← ok_or (decode_body (body_bytes tx)) "invalid body";
  message ← match messages with
            | [m] => Ok m
            | _ => bail "unexpected proposal transaction shape"
            end;
  _ ← ensure_ok (bool_decide (type_url message = "/cosmos.gov.v1.MsgSubmitProposal"))
    "unexpected proposal message";
  expected ← ok_or (decode_proposal (any_value message)) "invalid proposal";
  actual ← ok_or (as_array (index proposal "messages")) "missing proposal messages";
  _ ← ensure_ok
    (Nat.eqb (length actual) (length (pr_messages expected)) &&
     json_eqb (index proposal "title") (JStr (pr_title expected)) &&
     valid_expedited_transition (pr_expedited expected) (as_bool (index proposal "expedited")))
    "proposal content differs from approved submission";
  check_all (fun '(a, m) => validate_execution a m) (zip actual (pr_messages expected)).

(** [batch::registration_messages]. *)
Definition registration_messages (sender env chain coordinator rewards multisig : string)
    (predicted : CosmosDeployment) : list Any :=
  build_execute_msg_any sender coordinator
    (JObj [("register_deployment", JObj [("deployment_name", JStr (deployment_name predicted))])]) ::
  (build_execute_msg_any sender rewards <$>
     reward_pool_messages env chain (cd_verifier predicted) multisig).
End Messages.

(** ** Generated configuration (config_edit.rs, instantiate/settings.rs) *)

Definition verifier_fields (network : Network) (p : Plan) (governance : Json) (gateway : string) : Fields :=
  [ ("governanceAddress", governance);
    ("serviceName", JStr (verifier_service_name network));
    ("sourceGatewayAddress", JStr gateway);
    ("votingThreshold", JPair (voting_threshold p));
    ("blockExpiry", JNum (block_expiry p));
    ("confirmationHeight", JNum (confirmation_height p));
    ("msgIdFormat", JStr "hex_tx_hash_and_event_index");
    ("addressFormat", JStr "eip55") ].

(** What [config_edit] writes for the prover. *)
Definition prover_fields (network : Network) (p : Plan) (governance : Json) : Fields :=
  [ ("governanceAddress", governance);
    ("adminAddress", JStr (plan_prover_admin p));
    ("signingThreshold", JPair (signing_threshold p));
    ("serviceName", JStr (verifier_service_name network));
    ("verifierSetDiffThreshold", JNum 0);
    ("encoder", JStr "abi");
    ("keyType", JStr "ecdsa") ].

(** What [settings::validate] expects of it: everything but the encoder. *)
Definition expected_prover_fields (network : Network) (p : Plan) (governor : string) : Fields :=
  [ ("governanceAddress", JStr governor);
    ("adminAddress", JStr (plan_prover_admin p));
    ("signingThreshold", JPair (signing_threshold p));
    ("serviceName", JStr (verifier_service_name network));
    ("verifierSetDiffThreshold", JNum 0);
    ("keyType", JStr "ecdsa") ].

(** Every expected field has its value in [actual]. *)
Definition has_fields (expected : Fields) (actual : Json) : bool :=
  forallb (fun '(k, v) => match get_key k actual with Some w => json_eqb w v | None => false end) expected.

Definition contract_path (name chain : string) : string :=
  ("/axelar/contracts/" +:+ name +:+ "/" +:+ chain)%string.

Section Settings.
Context `{ConfigLib}.

(** [settings::validate]. *)
Definition validate_settings (st : State) (governor : string) (verifier prover : Json) : result () :=
  p ← ok_or (hardened_plan st) "missing deployment plan";
  gateway ← ok_or (predicted_gateway_address st) "missing predicted gateway";
  _ ← ensure_ok (has_fields (verifier_fields (st_env st) p (JStr governor) (address_to_string gateway)) verifier)
    "VotingVerifier differs from the approved deployment plan";
  ensure_ok (has_fields (expected_prover_fields (st_env st) p governor) prover)
    "MultisigProver differs from the approved deployment plan".

Definition insert_axelar (name chain : string) (data root : Json) : result Json :=
  ok_or (pointer_mut ("/axelar/contracts/" +:+ name)%string
           (fun v => o ← as_object v; Some (JObj (set_field chain data o))) root)
    "no contract in target json".

(** The edit of [config_edit::run]. *)
Definition config_edit_root (st : State) (root : Json) : result Json :=
  gateway ← ok_or (predicted_gateway_address st) "no predictedGatewayAddress in state";
  p ← ok_or (hardened_plan st) "missing deployment plan";
  let chain := chain_name (axelar_id st) root in
  let governance := index (index root "axelar") "governanceAddress" in
  root ← insert_axelar "VotingVerifier" chain
    (JObj (verifier_fields (st_env st) p governance (address_to_string gateway))) root;
  insert_axelar "MultisigProver" chain (JObj (prover_fields (st_env st) p governance)) root.
End Settings.

(** [if let Some(v) = root.pointer_mut(path) { v[key] = .. }]: the fields are
    set when the path leads somewhere; assigning into a value that is not an
    object panics. *)
Definition set_at (path : string) (fields : Fields) (root : Json) : result Json :=
  match pointer path root with
  | None => Ok root
  | Some _ =>
      ok_or (pointer_mut path
               (fun v => foldl (fun acc '(k, x) => acc ≫= set_index k x) (Some v) fields) root)
        "cannot access key in JSON value"
  end.

(** The edit of [cosmos_query::run]. *)
Definition save_addresses_root (chain verifier prover gateway : string) (root : Json) : result Json :=
  root ← set_at (contract_path "VotingVerifier" chain) [("address", JStr verifier)] root;
  root ← set_at (contract_path "MultisigProver" chain) [("address", JStr prover)] root;
  set_at (contract_path "Gateway" chain) [("address", JStr gateway)] root.

(** [cosmos_query::validate_prediction]. *)
Definition validate_prediction (predicted : CosmosDeployment) (name chain : string) (actual : Json)
    : result () :=
  ensure_ok
    (bool_decide (deployment_name predicted = name) &&
     json_eqb (index actual "chain_name") (JStr chain) &&
     json_eqb (index actual "gateway_address") (JStr (cd_gateway predicted)) &&
     json_eqb (index actual "verifier_address") (JStr (cd_verifier predicted)) &&
     json_eqb (index actual "prover_address") (JStr (cd_prover predicted)))
    "Coordinator deployment differs from the journaled predictions".

(** ** Reads from the Axelar network (cosmos/rpc.rs, instantiate/reconcile.rs,
    instantiate/permissions.rs, instantiate/batch.rs) *)

Record ChainContractAddresses : Type := mkChainContracts {
  ca_coordinator : string;
  ca_rewards : string;
  ca_multisig : string;
  ca_codec : string;
  ca_governance : string
}.

Record ChainCodeIds : Type := mkCodeIds {
  ci_gateway : Z;
  ci_verifier : Z;
  ci_prover : Z
}.

Definition code_list (c : ChainCodeIds) : list Z := [ci_gateway c; ci_verifier c; ci_prover c].

(** The pinned checksums of the contracts' codes ([InputSnapshot::cosmos_codes]). *)
Abbreviation Pins := (gmap string string).

Definition chain_salt_key (chain salt : string) : string :=
  ("Coordinator:" +:+ chain +:+ ":" +:+ salt)%string.

Definition deployment_title (chain : string) (c : ChainCodeIds) : string :=
  (chain +:+ "-" +:+ to_dec (ci_gateway c) +:+ "-" +:+ to_dec (ci_verifier c) +:+ "-"
     +:+ to_dec (ci_prover c))%string.

(** [error.contract_error_body()], parsed as the contract's error. *)
Definition contract_error (e : QueryError) : option (Z * string) := e ≫= snd.

Definition deployment_not_found (e : QueryError) (name : string) : bool :=
  match contract_error e with
  | Some (code, message) =>
      (code =? 2) && String.prefix ("deployment " +:+ name +:+ " not found:")%string message
  | None => false
  end.

Definition pool_not_found (e : QueryError) : bool :=
  match contract_error e with
  | Some (code, message) =>
      (code =? 2) && bool_decide (message = "rewards pool not found: query wasm contract failed")
  | None => false
  end.

Definition contract_not_found (status : Z) (error : option (Z * string)) (address : string) : bool :=
  match error with
  | Some (code, message) =>
      ((status =? 404) && (code =? 5)) ||
      ((code =? 2) && bool_decide
         (message = "codespace wasm code 22: no such contract: address " +:+ address)%string)
  | None => false
  end.

Definition allows_coordinator (permission : InstantiateAccess * list string) (coordinator : string)
    : bool :=
  match permission.1 with
  | Everybody => true
  | AnyOfAddresses => bool_decide (coordinator ∈ permission.2)
  | Nobody | Unknown => false
  end.

Definition validate_permissions (coordinator : string)
    (permissions : list (InstantiateAccess * list string)) : result () :=
  ensure_ok (forallb (fun p => allows_coordinator p coordinator) permissions)
    "Coordinator is not authorized to instantiate".

Section Reads.
Context {E : Type} `{Host E, CosmosNode E, TargetFile E, ConfigLib, CosmosAccounts, EvmLib}.
Abbreviation W := (World E).

(** [lcd_cosmwasm_smart_query_typed], with its error as a value. *)
Definition query_contract (lcd contract : string) (query : Json) : M W (QueryError + Json) :=
  call (fun e => let '(r, e') := smart_query lcd contract query e in (Ok r, e')).

(** [lcd_cosmwasm_smart_query]. *)
Definition lcd_cosmwasm_smart_query (lcd contract : string) (query : Json) : M W Json :=
  r ← query_contract lcd contract query;
  match r with
  | inr v => mret v
  | inl _ => throw (Failed "Deployment contract query failed")
  end.

(** The pages of [lcd_fetch_code_id]. *)
Fixpoint find_code (fuel : nat) (lcd expected : string) (next : option string) : M W Z :=
  match fuel with
  | O => throw OutOfFuel
  | S fuel =>
      page ← call (lcd_code_page lcd next);
      codes ← lift (ok_or (cp_codes page) "no code_infos in response");
      match List.find (fun c => bool_decide (to_uppercase (default "" c.1) = expected)) codes with
      | Some c =>
          text ← lift (ok_or c.2 "missing numeric LCD field");
          lift (ok_or (parse_uint 64 text) "invalid numeric LCD field")
      | None =>
          let key := default "" (cp_next page) in
          if decide (key = "") then throw (Failed "code not found for checksum")
          else find_code fuel lcd expected (Some key)
      end
  end.

Definition lcd_fetch_code_id (fuel : nat) (lcd checksum : string) : M W Z :=
  find_code fuel lcd (to_uppercase checksum) None.

Definition read_chain_contract_addresses : M W ChainContractAddresses :=
  read_axelar_contract_field "/axelar/contracts/Router/address";;
  coordinator ← read_axelar_contract_field "/axelar/contracts/Coordinator/address";
  rewards ← read_axelar_contract_field "/axelar/contracts/Rewards/address";
  multisig ← read_axelar_contract_field "/axelar/contracts/Multisig/address";
  codec ← read_axelar_contract_field "/axelar/contracts/ChainCodecEvm/address";
  governance ← read_axelar_contract_field "/axelar/governanceAddress";
  mret (mkChainContracts coordinator rewards multisig codec governance).

(** [inputs::cosmos_code_hash] within a run. *)
Definition cosmos_code_hash (pins : Pins) (name : string) : M W string :=
  lift (ok_or (pins !! name) "missing pinned Cosmos code hash").

Definition fetch_chain_code_ids (fuel : nat) (pins : Pins) (lcd : string) : M W ChainCodeIds :=
  gateway_hash ← cosmos_code_hash pins "Gateway";
  verifier_hash ← cosmos_code_hash pins "VotingVerifier";
  prover_hash ← cosmos_code_hash pins "MultisigProver";
  gateway ← lcd_fetch_code_id fuel lcd gateway_hash;
  verifier ← lcd_fetch_code_id fuel lcd verifier_hash;
  prover ← lcd_fetch_code_id fuel lcd prover_hash;
  mret (mkCodeIds gateway verifier prover).

Definition deployment_query (name : string) : Json :=
  JObj [("deployment", JObj [("deployment_name", JStr name)])].

(** [reconcile::find_deployment]: the chain of the deployment. *)
Definition find_deployment (lcd coordinator name : string) : M W (option string) :=
  r ← query_contract lcd coordinator (deployment_query name);
  match r with
  | inr v =>
      chain ← lift (ok_or (as_str (index v "chain_name")) "invalid deployment");
      mret (Some chain)
  | inl e =>
      if deployment_not_found e name then mret None else throw (Failed "contract query failed")
  end.

(** One query of [reconcile::predicted_addresses]. *)
Definition instantiate2_address (lcd coordinator salt : string) (code_id : Z) : M W string :=
  v ← lcd_cosmwasm_smart_query lcd coordinator
    (JObj [("instantiate2_address", JObj [("code_id", JNum code_id); ("salt", JStr salt)])]);
  lift (ok_or (as_str v) "invalid address").

Definition predicted_addresses (lcd coordinator salt : string) (codes : ChainCodeIds)
    : M W (string * string * string) :=
  gateway ← instantiate2_address lcd coordinator salt (ci_gateway codes);
  verifier ← instantiate2_address lcd coordinator salt (ci_verifier codes);
  prover ← instantiate2_address lcd coordinator salt (ci_prover codes);
  mret (gateway, verifier, prover).

(** [reconcile::contract_info], by the label. *)
Definition contract_info (lcd address : string) : M W (option string) :=
  '(status, error, label) ← call (lcd_contract_info lcd address);
  if contract_not_found status error address then mret None
  else
    ensure ((200 <=? status) && (status <? 300)) "contract info query failed";;
    label ← lift (ok_or label "invalid contract response");
    mret (Some label).

Definition check_addresses_available (lcd coordinator salt : string) (codes : ChainCodeIds) : M W () :=
  '(gateway, verifier, prover) ← predicted_addresses lcd coordinator salt codes;
  for_each (fun address =>
    info ← contract_info lcd address;
    ensure (bool_decide (info = None)) "cannot instantiate: address is already occupied")
    [gateway; verifier; prover].

(** [permissions::check]. *)
Definition check_permissions (lcd coordinator : string) (codes : ChainCodeIds) : M W () :=
  gateway ← call (lcd_code_permissions lcd (ci_gateway codes));
  verifier ← call (lcd_code_permissions lcd (ci_verifier codes));
  prover ← call (lcd_code_permissions lcd (ci_prover codes));
  lift (validate_permissions coordinator [gateway; verifier; prover]).

(** [check_instantiate_permissions]; [on_disk] is the content of journal.json. *)
Definition check_instantiate_permissions (fuel : nat) (pins : Pins) (on_disk : option Journal)
    (st : State) : M W () :=
  if existsb (fun s => bool_decide (step_status s = Pending) &&
                bool_decide (step_name s ∈ ["InstantiateChainContracts"; "WaitInstantiateProposal"]))
       (steps st) then
    c ← read_axelar_config;
    coordinator ← read_axelar_contract_field "/axelar/contracts/Coordinator/address";
    codes ← fetch_chain_code_ids fuel pins (tp_lcd c);
    found ← find_deployment (tp_lcd c) coordinator (deployment_title (axelar_id st) codes);
    match found with
    | Some chain =>
        ensure (bool_decide (chain = axelar_id st)) "deployment name is already used by another chain";;
        j ← lift (ok_or on_disk "existing Coordinator deployment has no journal");
        ensure (bool_decide (is_Some (actions j !! "InstantiateChainContracts/cosmos")))
          "existing Coordinator deployment has no recorded hardened submission"
    | None => check_permissions (tp_lcd c) coordinator codes
    end
  else mret ().

(** [batch::check_pool_available]. *)
Definition check_pool_available (lcd rewards chain contract : string) : M W () :=
  r ← query_contract lcd rewards
    (JObj [("rewards_pool", JObj [("pool_id", pool_id chain contract)])]);
  match r with
  | inr _ => throw (Failed "reward pool already exists; combined deployment would fail")
  | inl e => ensure (pool_not_found e) "contract query failed"
  end.

(** [governance::deposit]. *)
Definition governance_deposit (lcd denom : string) : M W string :=
  coins ← call (lcd_min_deposit lcd);
  match coins with
  | [coin] =>
      ensure (bool_decide (coin_denom coin = denom)) "governance deposit denomination mismatch";;
      amount ← lift (ok_or (parse_uint 128 (coin_amount coin)) "invalid deposit");
      ensure (0 <? amount) "invalid governance deposit";;
      mret (coin_amount coin)
  | _ => throw (Failed "unsupported multi-denom governance deposit")
  end.
End Reads.

(** ** The combined instantiation (instantiate.rs, batch.rs) *)

Record InstantiatePlan : Type := mkInstantiate {
  ip_execute_msg : Json;
  ip_deployment_name : string;
  ip_salt_key : string;
  ip_salt : string;
  ip_domain_separator : string;
  ip_contract_admin : string;
  ip_codes : ChainCodeIds
}.

(** [StepTxContext]. *)
Record StepTx : Type := mkStepTx {
  tx_signing_key : SigningKey;
  tx_address : string;
  tx_params : TxParams;
  tx_chain : string;
  tx_env : string;
  tx_proposal_key : string
}.

(** The message to the Coordinator in [build_instantiate_plan]. *)
Definition instantiate_msg (addresses : ChainContractAddresses) (codes : ChainCodeIds)
    (chain name salt admin prover_admin separator : string) (verifier prover : Json) : Json :=
  JObj [("instantiate_chain_contracts", JObj
    [ ("deployment_name", JStr name);
      ("salt", JStr salt);
      ("params", JObj [("manual", JObj
        [ ("gateway", JObj
            [ ("code_id", JNum (ci_gateway codes));
              ("label", JStr ("Gateway-" +:+ chain)%string);
              ("msg", JNull);
              ("contract_admin", JStr admin) ]);
          ("verifier", JObj
            [ ("code_id", JNum (ci_verifier codes));
              ("label", JStr ("VotingVerifier-" +:+ chain)%string);
              ("msg", JObj
                [ ("governance_address", index verifier "governanceAddress");
                  ("service_name", index verifier "serviceName");
                  ("source_gateway_address", index verifier "sourceGatewayAddress");
                  ("voting_threshold", index verifier "votingThreshold");
                  ("block_expiry", JStr (to_dec (default DEFAULT_VV_BLOCK_EXPIRY
                                                   (as_u64 (index verifier "blockExpiry")))));
                  ("confirmation_height", index verifier "confirmationHeight");
                  ("source_chain", JStr chain);
                  ("rewards_address", JStr (ca_rewards addresses));
                  ("msg_id_format", index verifier "msgIdFormat");
                  ("chain_codec_address", JStr (ca_codec addresses)) ]);
              ("contract_admin", JStr admin) ]);
          ("prover", JObj
            [ ("code_id", JNum (ci_prover codes));
              ("label", JStr ("MultisigProver-" +:+ chain)%string);
              ("msg", JObj
                [ ("governance_address", index prover "governanceAddress");
                  ("admin_address", JStr prover_admin);
                  ("multisig_address", JStr (ca_multisig addresses));
                  ("signing_threshold", index prover "signingThreshold");
                  ("service_name", index prover "serviceName");
                  ("chain_name", JStr chain);
                  ("verifier_set_diff_threshold", index prover "verifierSetDiffThreshold");
                  ("key_type", index prover "keyType");
                  ("domain_separator", JStr separator);
                  ("notify_signing_session", JBool false);
                  ("expect_full_message_payloads", JBool false);
                  ("sig_verifier_address", JNull);
                  ("chain_codec_address", JStr (ca_codec addresses)) ]);
              ("contract_admin", JStr admin) ]) ])]) ])].

(** The Coordinator's entry in [save_instantiate_plan]. *)
Definition save_deployment (chain : string) (p : InstantiatePlan) (coordinator : Json) : option Json :=
  o ← as_object coordinator;
  let o := match field "deployments" o with
           | Some _ => o
           | None => set_field "deployments" (JObj []) o
           end in
  deployments ← field "deployments" o ≫= as_object;
  Some (JObj (set_field "deployments"
    (JObj (set_field chain
       (JObj [("deploymentName", JStr (ip_deployment_name p)); ("salt", JStr (ip_salt_key p))])
       deployments)) o)).

(** The edit of [save_instantiate_plan]. *)
Definition save_plan_root (chain : string) (p : InstantiatePlan) (root : Json) : result Json :=
  let admin := ("contractAdmin", JStr (ip_contract_admin p)) in
  root ← ok_or (pointer_mut "/axelar/contracts/Coordinator" (save_deployment chain p) root)
    "no Coordinator config";
  root ← set_at (contract_path "VotingVerifier" chain)
    [("codeId", JNum (ci_verifier (ip_codes p))); admin] root;
  root ← set_at (contract_path "MultisigProver" chain)
    [("codeId", JNum (ci_prover (ip_codes p)));
     ("domainSeparator", JStr ("0x" +:+ ip_domain_separator p)%string); admin] root;
  let gateway := [("codeId", JNum (ci_gateway (ip_codes p))); admin] in
  match pointer (contract_path "Gateway" chain) root with
  | Some _ => set_at (contract_path "Gateway" chain) gateway root
  | None =>
      match pointer "/axelar/contracts/Gateway" root ≫= as_object with
      | Some _ => insert_axelar "Gateway" chain (JObj gateway) root
      | None => Ok root
      end
  end.

(** ** The step bodies *)

#[export] Instance CosmosDeployment_eq_dec : EqDecision CosmosDeployment.
Proof. solve_decision. Defined.

(** [serde_json::from_value::<ProverConfig>]: an object, or the array of the
    struct's fields, with an optional address. *)
Definition prover_config (v : Json) : result (option string) :=
  let address (x : option Json) :=
    match x with
    | None | Some JNull => Ok None
    | Some (JStr s) => Ok (Some s)
    | Some _ => bail "invalid prover config"
    end in
  match v with
  | JObj o => address (field "address" o)
  | JArr [x] => address (Some x)
  | _ => bail "invalid prover config"
  end.

(** The step whose submission a proposal key stands for. *)
Definition submission_step (key : string) : result string :=
  if decide (key = "instantiate") then Ok "InstantiateChainContracts"
  else if decide (key = "itsHubRegister") then Ok "RegisterItsOnHub"
  else bail "unexpected proposal key".

Definition VOTING_PERIOD : Json := JStr "PROPOSAL_STATUS_VOTING_PERIOD".

Definition is_voting (proposal : Json) : bool := json_eqb (index proposal "status") VOTING_PERIOD.

(** [prover_admin::select_mnemonic]. *)
Definition select_mnemonic `{CosmosAccounts} (admin : option string) (expected : string)
    : result string :=
  m ← ok_or (non_blank admin) "prover admin key required before deployment";
  derived ← ok_or (wallet_address m) "invalid MULTISIG_PROVER_MNEMONIC";
  _ ← ensure_ok (bool_decide (derived = expected)) "prover admin key required before deployment";
  Ok m.

(** The identities of [show_candidates]: axelar accounts, no duplicates. *)
Fixpoint check_identities `{CosmosAccounts} (seen : gset string) (l : list string) : result () :=
  match l with
  | [] => Ok ()
  | address :: l =>
      prefix ← ok_or (account_prefix address) "invalid account";
      _ ← ensure_ok (bool_decide (prefix = "axelar") && bool_decide (address ∉ seen))
        "invalid or duplicate eligible identity";
      check_identities ({[address]} ∪ seen) l
  end.

Section Bodies.
Context {E : Type} `{Host E, EvmNode E, LcdNode E, DeployNode E, CosmosNode E, TargetFile E, StepLib,
                     MessageLib, ConfigLib, EvmLib, CosmosLib, CosmosAccounts, SignerLib}.
Abbreviation W := (World E).
Abbreviation R := (Run E).
Implicit Types (sc : Scope) (tx : StepTx).

(** [sign_and_broadcast_cosmos_tx] of a deployment, where hardening is
    required. *)
Definition sign_and_broadcast sc (key : SigningKey) (address : string) (p : TxParams)
    (messages : list Any) : M W TxResponse :=
  lift (validate_context true (active sc));;
  cosmos_send sc key address (tp_lcd p) (tp_chain_id p) (tp_denom p) (tp_price p) messages.

(** [submission::messages]. *)
Definition submission_messages (network : Network) tx (inner : list Any) (title : string)
    : M W (list Any) :=
  if deployment_uses_governance network then
    deposit ← governance_deposit (tp_lcd (tx_params tx)) (tp_denom (tx_params tx));
    m ← lift (build_submit_proposal_any (tx_address tx) inner title title deposit
                (tp_denom (tx_params tx)) true);
    mret [m]
  else mret inner.

(** [submission::submit]. *)
Definition submit sc tx (inner : list Any) (title : string) : M R () :=
  st ← get_state;
  messages ← zoom (submission_messages (st_env st) tx inner title);
  response ← zoom (sign_and_broadcast sc (tx_signing_key tx) (tx_address tx) (tx_params tx) messages);
  when (deployment_uses_governance (st_env st))
    (id ← lift (extract_proposal_id response);
     modify_state (set_proposal (tx_proposal_key tx) id)).

Definition build_instantiate_plan tx (addresses : ChainContractAddresses) (codes : ChainCodeIds)
    : M R InstantiatePlan :=
  root ← zoom (call read_target_file);
  st ← get_state;
  verifier ← lift (ok_or (pointer (contract_path "VotingVerifier" (tx_chain tx)) root)
    "no VotingVerifier config");
  prover ← lift (ok_or (pointer (contract_path "MultisigProver" (tx_chain tx)) root)
    "no MultisigProver config");
  lift (validate_settings st (ca_governance addresses) verifier prover);;
  let salt_key := chain_salt_key (tx_chain tx) (cosm_salt st) in
  let salt := base64_encode (be_bytes 32 (get_salt_from_key salt_key)) in
  separator ← zoom (compute_domain_separator (axelar_id st));
  let separator := hex_encode (be_bytes 32 separator) in
  let admin := contract_admin (tx_env tx) in
  let name := deployment_title (tx_chain tx) codes in
  p ← lift (ok_or (hardened_plan st) "missing deployment plan");
  mret (mkInstantiate
    (instantiate_msg addresses codes (tx_chain tx) name salt admin (plan_prover_admin p) separator
       verifier prover)
    name salt_key salt separator admin codes).

Definition save_instantiate_plan (chain : string) (p : InstantiatePlan) : M W () :=
  root ← call read_target_file;
  root ← lift (save_plan_root chain p root);
  call (write_target_file root).

(** [batch::pin_predictions]. *)
Definition pin_predictions sc (predicted : CosmosDeployment) : M W () :=
  current sc;;
  j ← read_journal;
  match cosmos_deployment j with
  | Some saved => ensure (bool_decide (saved = predicted)) "Cosmos deployment predictions changed"
  | None => commit (set_cosmos_deployment (Some predicted))
  end.

(** [batch::prepare]. *)
Definition prepare_batch sc (chain : string) tx (addresses : ChainContractAddresses)
    (p : InstantiatePlan) : M W CosmosDeployment :=
  let lcd := tp_lcd (tx_params tx) in
  '(gateway, verifier, prover) ← predicted_addresses lcd (ca_coordinator addresses) (ip_salt p) (ip_codes p);
  let predicted := mkCosmosDeployment (ip_deployment_name p) (ca_coordinator addresses) (ip_salt p)
    (ci_gateway (ip_codes p), ci_verifier (ip_codes p), ci_prover (ip_codes p)) gateway verifier prover in
  for_each (check_pool_available lcd (ca_rewards addresses) chain)
    [verifier; ca_multisig addresses];;
  pin_predictions sc predicted;;
  mret predicted.

(** The account a submission executes as. *)
Definition submission_sender (st : State) (governance : string) tx : string :=
  if deployment_uses_governance (st_env st) then governance else tx_address tx.

Definition submit_instantiate sc tx (addresses : ChainContractAddresses) (p : InstantiatePlan) : M R () :=
  st ← get_state;
  let sender := submission_sender st (ca_governance addresses) tx in
  let first := build_execute_msg_any sender (ca_coordinator addresses) (ip_execute_msg p) in
  predicted ← zoom (prepare_batch sc (axelar_id st) tx addresses p);
  submit sc tx
    (first :: registration_messages sender (tx_env tx) (tx_chain tx) (ca_coordinator addresses)
                (ca_rewards addresses) (ca_multisig addresses) predicted)
    ("Instantiate and register " +:+ tx_chain tx +:+ " with reward pools")%string.

Definition run_instantiate (fuel : nat) (pins : Pins) sc tx : M R () :=
  addresses ← zoom read_chain_contract_addresses;
  let lcd := tp_lcd (tx_params tx) in
  codes ← zoom (fetch_chain_code_ids fuel pins lcd);
  p ← build_instantiate_plan tx addresses codes;
  found ← zoom (find_deployment lcd (ca_coordinator addresses) (ip_deployment_name p));
  ensure (bool_decide (found = None)) "an existing Coordinator deployment has no recorded submission";;
  zoom (check_permissions lcd (ca_coordinator addresses) (ip_codes p));;
  zoom (check_addresses_available lcd (ca_coordinator addresses) (ip_salt p) (ip_codes p));;
  zoom (save_instantiate_plan (tx_chain tx) p);;
  submit_instantiate sc tx addresses p.

Definition run_add_rewards sc tx : M R () :=
  rewards ← zoom (read_axelar_contract_field "/axelar/contracts/Rewards/address");
  multisig ← zoom (read_axelar_contract_field "/axelar/contracts/Multisig/address");
  verifier ← zoom (read_axelar_contract_field
    (contract_path "VotingVerifier" (tx_chain tx) +:+ "/address")%string);
  st ← get_state;
  p ← lift (ok_or (hardened_plan st) "missing deployment plan");
  let funds := [mkCoin (tp_denom (tx_params tx)) (reward_amount p)] in
  let add contract := build_execute_msg_any_with_funds (tx_address tx) rewards
    (JObj [("add_rewards", JObj [("pool_id", pool_id (tx_chain tx) contract)])]) funds in
  response ← zoom (sign_and_broadcast sc (tx_signing_key tx) (tx_address tx) (tx_params tx)
    [add multisig; add verifier]);
  ensure (default 0 (code response) =? 0) "add_rewards tx failed".

Record ItsHubRegistration : Type := mkHubRegistration {
  hr_hub_address : string;
  hr_governance_address : string;
  hr_edge_contract : string;
  hr_message_translator : string
}.

Definition read_registration : M R ItsHubRegistration :=
  root ← zoom (call read_target_file);
  st ← get_state;
  edge ← lift (ok_or
    (pointer (contracts_path (axelar_id st) +:+ "/InterchainTokenService/address")%string root ≫= as_str)
    "no InterchainTokenService address");
  translator ← lift (ok_or (pointer "/axelar/contracts/ItsAbiTranslator/address" root ≫= as_str)
    "no axelar.contracts.ItsAbiTranslator.address in target JSON");
  hub ← zoom (read_axelar_contract_field "/axelar/contracts/InterchainTokenService/address");
  governance ← zoom (read_axelar_contract_field "/axelar/governanceAddress");
  mret (mkHubRegistration hub governance edge translator).

Definition register_chains_msg (chain edge translator : string) : Json :=
  JObj [("register_chains", JObj [("chains", JArr [JObj
    [ ("chain", JStr chain); ("its_edge_contract", JStr edge); ("msg_translator", JStr translator);
      ("truncation", JObj [("max_uint_bits", JNum 256);
                           ("max_decimals_when_truncating", JNum 255)]) ]])])].

Definition run_register_its_on_hub sc tx : M R () :=
  r ← read_registration;
  st ← get_state;
  let sender := submission_sender st (hr_governance_address r) tx in
  let message := build_execute_msg_any sender (hr_hub_address r)
    (register_chains_msg (tx_chain tx) (hr_edge_contract r) (hr_message_translator r)) in
  submit sc tx [message] ("Register " +:+ tx_chain tx +:+ " on ITS Hub")%string.

(** [cosmos_tx::run]. *)
Definition cosmos_tx (fuel : nat) (pins : Pins) sc (step : Step) : M R () :=
  st ← get_state;
  key ← lift (step_mnemonic st (step_name step));
  address ← lift (ok_or (wallet_address key) "invalid mnemonic");
  params ← zoom read_axelar_config;
  chain ← zoom (read_chain_name (axelar_id st));
  let tx := mkStepTx key address params chain (NetworkStr.as_str (st_env st))
              (default "" (proposal_key step)) in
  if decide (step_name step = "InstantiateChainContracts") then run_instantiate fuel pins sc tx
  else if decide (step_name step = "AddRewards") then run_add_rewards sc tx
  else if decide (step_name step = "RegisterItsOnHub") then run_register_its_on_hub sc tx
  else throw (Failed "unknown cosmos-tx step").

(** ** Configuration steps (config_edit.rs, cosmos_query.rs) *)

(** [config_edit::run]. *)
Definition config_edit : M R () :=
  st ← get_state;
  lift (ok_or (predicted_gateway_address st) "no predictedGatewayAddress in state");;
  lift (ok_or (hardened_plan st) "missing deployment plan");;
  root ← zoom (call read_target_file);
  root ← lift (config_edit_root st root);
  zoom (call (write_target_file root)).

(** [cosmos_query::run]. *)
Definition cosmos_query sc : M R () :=
  st ← get_state;
  c ← zoom read_axelar_config;
  coordinator ← zoom (read_axelar_contract_field "/axelar/contracts/Coordinator/address");
  chain ← zoom (read_chain_name (axelar_id st));
  name ← zoom (read_axelar_contract_field
    ("/axelar/contracts/Coordinator/deployments/" +:+ chain +:+ "/deploymentName")%string);
  answer ← zoom (lcd_cosmwasm_smart_query (tp_lcd c) coordinator (deployment_query name));
  zoom (current sc);;
  j ← zoom read_journal;
  predicted ← lift (ok_or (cosmos_deployment j) "missing journaled Cosmos predictions");
  lift (validate_prediction predicted name chain answer);;
  verifier ← lift (ok_or (as_str (index answer "verifier_address")) "no verifier_address in response");
  prover ← lift (ok_or (as_str (index answer "prover_address")) "no prover_address in response");
  gateway ← lift (ok_or (as_str (index answer "gateway_address")) "no gateway_address in response");
  root ← zoom (call read_target_file);
  root ← lift (save_addresses_root chain verifier prover gateway root);
  zoom (call (write_target_file root)).

(** ** The watch over a submission (governance.rs, direct.rs) *)

(** [direct::check]. *)
Definition direct_check sc (key : string) : M R () :=
  step ← lift (submission_step key);
  let action := (step +:+ "/cosmos")%string in
  zoom (current sc);;
  found ← zoom (get_action action);
  match found with
  | None => throw (Failed "no journaled direct execution")
  | Some saved =>
      lift (validate_submission saved);;
      c ← zoom read_axelar_config;
      zoom (cosmos_resume sc (tp_lcd c) saved action);;
      mret ()
  end.

(** [governance::validate_identity]. *)
Definition validate_identity sc (key : string) (id : Z) (proposal : Json) (lcd : string) : M R () :=
  name ← lift (submission_step key);
  let action := (name +:+ "/cosmos")%string in
  zoom (current sc);;
  found ← zoom (get_action action);
  match found with
  | Some (CosmosTx a raw c d e f as saved) =>
      response ← zoom (cosmos_resume sc lcd saved action);
      recorded ← lift (extract_proposal_id response);
      ensure (recorded =? id) "proposal ID does not match recorded submission";;
      lift (validate_payload raw proposal);;
      st ← get_state;
      ensure (bool_decide (proposals st !! key = Some id)) "proposal identity mismatch"
  | _ => throw (Failed "proposal has no signed transaction journal")
  end.

(** [governance::wait_until_voting_ends], every 15 seconds. *)
Fixpoint wait_until_voting_ends (fuel : nat) (lcd : string) (id : Z) (proposal : Json) : M W Json :=
  if is_voting proposal then
    match fuel with
    | O => throw OutOfFuel
    | S fuel =>
        sleep_for 15;;
        updated ← call (lcd_proposal lcd id);
        wait_until_voting_ends fuel lcd id updated
    end
  else mret proposal.

(** [governance::check]. *)
Definition governance_check (fuel : nat) sc (key : string) : M R () :=
  st ← get_state;
  if deployment_uses_governance (st_env st) then
    id ← lift (ok_or (proposals st !! key) "missing proposal");
    c ← zoom read_axelar_config;
    proposal ← zoom (call (lcd_proposal (tp_lcd c) id));
    validate_identity sc key id proposal (tp_lcd c);;
    proposal ← (if is_voting proposal then
                  final ← zoom (wait_until_voting_ends fuel (tp_lcd c) id proposal);
                  validate_identity sc key id final (tp_lcd c);;
                  mret final
                else mret proposal);
    if decide (as_str (index proposal "status") = Some "PROPOSAL_STATUS_PASSED") then mret ()
    else if decide (as_str (index proposal "status") = Some "PROPOSAL_STATUS_DEPOSIT_PERIOD") then
      throw (Paused "Proposal is still in its deposit period")
    else throw (Failed "Proposal cannot advance this deployment")
  else direct_check sc key.

(** [cosmos_poll::run]. *)
Definition cosmos_poll (fuel : nat) sc (step : Step) : M R () :=
  key ← lift (ok_or (proposal_key step) "cosmos-poll step has no proposal_key");
  governance_check fuel sc key.

(** ** The verifier set (prover_admin.rs, verifier_set.rs, verifiers.rs) *)

(** [prover_admin::validate]. *)
Definition prover_admin_validate : M R () :=
  st ← get_state;
  p ← lift (ok_or (hardened_plan st) "missing deployment plan");
  config ← zoom load_config;
  let chain := default (axelar_id st) (cfg_chains config !! axelar_id st ≫= cc_axelar_id) in
  address ← lift (match (m ← ax_contracts (cfg_axelar config); ps ← m !! "MultisigProver"; ps !! chain) with
                  | Some v => prover_config v
                  | None => Ok None
                  end);
  expected ← match address with
             | Some prover =>
                 lcd ← lift (ok_or (ax_lcd (cfg_axelar config)) "no axelar.lcd");
                 zoom (call (lcd_prover_admin lcd prover))
             | None => mret (plan_prover_admin p)
             end;
  m ← lift (select_mnemonic (admin_mnemonic st) expected);
  modify_state (set_admin_mnemonic m).

(** [handoff::verifiers], by what it reads. *)
Definition handoff_verifiers (st : State) : M W () :=
  verifier_contract st "Multisig" false;;
  verifier_contract st "MultisigProver" true;;
  verifier_contract st "VotingVerifier" true;;
  mret ().

(** [verifier_set::show_candidates]. *)
Definition show_candidates (st : State) : M W () :=
  c ← read_axelar_config;
  registry ← verifier_contract st "ServiceRegistry" false;
  service ← verifier_service st (tp_lcd c) registry;
  answer ← query_contract (tp_lcd c) registry
    (JObj [("active_verifiers", JObj [("service_name", JStr (verifier_service_name (st_env st)));
                                      ("chain_name", JStr (axelar_id st))])]);
  match answer with
  | inr v =>
      identities ← lift (ok_or (active_verifiers v) "invalid verifiers");
      lift (check_identities ∅ identities);;
      lift (validate_count (Z.of_nat (length identities)) service)
  | inl e =>
      if insufficient_verifiers e then
        handoff_verifiers st;;
        throw (Paused "Waiting for verifier registrations")
      else throw (Failed "Could not read eligible verifiers")
  end.

(** [verifiers::execute]. *)
Definition execute_message sc (mnemonic target : string) (message : Json) : M W () :=
  c ← read_axelar_config;
  address ← lift (ok_or (wallet_address mnemonic) "invalid mnemonic");
  sign_and_broadcast sc mnemonic address c [build_execute_msg_any address target message];;
  mret ().

(** [verifiers::initialize]. *)
Definition initialize sc : M R () :=
  zoom (current sc);;
  j ← zoom read_journal;
  match initial_signers j with
  | Some _ => mret ()
  | None =>
      st ← get_state;
      prover ← zoom (verifier_contract st "MultisigProver" true);
      existing ← zoom (query_set st);
      match existing with
      | Some _ => mret ()
      | None =>
          zoom (show_candidates st);;
          prover_admin_validate;;
          st ← get_state;
          mnemonic ← lift (ok_or (admin_mnemonic st) "missing prover admin credential");
          zoom (execute_message sc mnemonic prover (JStr "update_verifier_set"))
      end;;
      st ← get_state;
      found ← zoom (query_set st);
      match found with
      | None => throw (Paused "prover set is not available yet; resume with --activate")
      | Some now => zoom (approve_set sc now)
      end
  end.
End Bodies.

(** ** The Axelar steps are safe and tame *)

Section Facts.
Context {E : Type} `{Host E, EvmNode E, LcdNode E, DeployNode E, CosmosNode E, TargetFile E, StepLib,
                     MessageLib, ConfigLib, EvmLib, CosmosLib, CosmosAccounts, SignerLib}.
Implicit Types (sc : Scope) (tx : StepTx).

Lemma readonly_query lcd c q : readonly (query_contract (E := E) lcd c q).
Proof. apply readonly_call. Qed.
Lemma readonly_smart_query lcd c q : readonly (lcd_cosmwasm_smart_query (E := E) lcd c q).
Proof. pose proof readonly_query. unfold lcd_cosmwasm_smart_query. sread. Qed.
Lemma readonly_find_code fuel lcd expected next : readonly (find_code (E := E) fuel lcd expected next).
Proof. revert next. induction fuel as [|fuel IH]; intros next; simpl; sread; apply IH. Qed.
Lemma readonly_code_ids fuel pins lcd : readonly (fetch_chain_code_ids (E := E) fuel pins lcd).
Proof.
  pose proof readonly_find_code. unfold fetch_chain_code_ids, cosmos_code_hash, lcd_fetch_code_id. sread.
Qed.
Lemma readonly_chain_contracts : readonly (read_chain_contract_addresses (E := E)).
Proof. unfold read_chain_contract_addresses. sread. Qed.
Lemma readonly_find_deployment lcd c name : readonly (find_deployment (E := E) lcd c name).
Proof. pose proof readonly_query. unfold find_deployment. sread. Qed.
Lemma readonly_predicted lcd c salt codes : readonly (predicted_addresses (E := E) lcd c salt codes).
Proof. pose proof readonly_smart_query. unfold predicted_addresses, instantiate2_address. sread. Qed.
Lemma readonly_available lcd c salt codes :
  readonly (check_addresses_available (E := E) lcd c salt codes).
Proof.
  pose proof readonly_predicted. unfold check_addresses_available, contract_info. sread.
Qed.
Lemma readonly_permissions lcd c codes : readonly (check_permissions (E := E) lcd c codes).
Proof. unfold check_permissions. sread. Qed.
Lemma readonly_pool lcd rewards chain c : readonly (check_pool_available (E := E) lcd rewards chain c).
Proof. pose proof readonly_query. unfold check_pool_available. sread. Qed.
Lemma readonly_deposit lcd denom : readonly (governance_deposit (E := E) lcd denom).
Proof. unfold governance_deposit. sread. Qed.
Hint Resolve readonly_query readonly_smart_query readonly_code_ids readonly_chain_contracts
  readonly_find_deployment readonly_predicted readonly_available readonly_permissions readonly_pool
  readonly_deposit readonly_query_set : reads.

Lemma readonly_instantiate_permissions fuel pins on_disk st :
  readonly (check_instantiate_permissions (E := E) fuel pins on_disk st).
Proof. unfold check_instantiate_permissions. sread. Qed.
Lemma readonly_submission network tx inner title :
  readonly (submission_messages (E := E) network tx inner title).
Proof. unfold submission_messages. sread. Qed.
Lemma readonly_save_plan chain p : readonly (save_instantiate_plan (E := E) chain p).
Proof. unfold save_instantiate_plan. sread. Qed.
Lemma readonly_verifier_contract st name b : readonly (verifier_contract (E := E) st name b).
Proof. unfold verifier_contract. sread. Qed.
Lemma readonly_handoff st : readonly (handoff_verifiers (E := E) st).
Proof. unfold handoff_verifiers, verifier_contract. sread. Qed.
Lemma readonly_candidates st : readonly (show_candidates (E := E) st).
Proof. pose proof readonly_handoff. unfold show_candidates, verifier_contract, verifier_service. sread. Qed.
Lemma readonly_voting fuel lcd id p : readonly (wait_until_voting_ends (E := E) fuel lcd id p).
Proof. revert p. induction fuel as [|fuel IH]; intros p; simpl; sread. Qed.
Hint Resolve readonly_submission readonly_save_plan readonly_verifier_contract readonly_candidates
  readonly_voting : reads.

Lemma hoare_sign_and_broadcast init sc key address p messages :
  hoare (Has init any) (sign_and_broadcast (E := E) sc key address p messages)
    (fun _ => Has init any) (Safe init).
Proof.
  unfold sign_and_broadcast. hstep as u Hu. apply hoare_cosmos_send_any.
Qed.

Lemma safe_sign_and_broadcast sc key address p messages :
  safe (zoom (sign_and_broadcast (E := E) sc key address p messages)).
Proof. apply safe_zoom. intros init. apply hoare_sign_and_broadcast. Qed.

Lemma safe_execute_message sc m target msg : safe (zoom (execute_message (E := E) sc m target msg)).
Proof.
  apply safe_zoom. intros init. unfold execute_message.
  eapply hoare_bind; [apply hoare_readonly; [typeclasses eauto|sread]|]. intros c. hstep as a Ha.
  eapply hoare_bind; [apply hoare_sign_and_broadcast|]. intros r. by hret.
Qed.

Lemma safe_approve_set sc initial : safe (zoom (approve_set (E := E) sc initial)).
Proof. apply safe_zoom. intros init. by apply hoare_approve_set. Qed.

Lemma safe_prepare_batch sc chain tx addresses p :
  safe (zoom (prepare_batch (E := E) sc chain tx addresses p)).
Proof.
  apply safe_zoom. intros init. unfold prepare_batch.
  eapply hoare_bind; [apply hoare_readonly; [typeclasses eauto|sread]|]. intros [[gateway verifier] prover].
  eapply hoare_bind; [apply hoare_readonly; [typeclasses eauto|sread]|]. intros [].
  eapply (hoare_bind _ _ (fun _ => Has init any)); [|intros []; by hret].
  unfold pin_predictions. hstep as s Hs. eapply hoare_bind; [apply hoare_read_plain|]. intros j.
  destruct (cosmos_deployment j) as [saved|].
  - eapply hoare_readonly; [typeclasses eauto|sread].
  - by apply hoare_commit_meta.
Qed.
Hint Resolve safe_sign_and_broadcast safe_execute_message safe_approve_set safe_prepare_batch : steps.

Lemma safe_submit sc tx inner title : safe (submit (E := E) sc tx inner title).
Proof. unfold submit. ssafe. Qed.
Lemma tame_submit sc tx inner title : tame (submit (E := E) sc tx inner title).
Proof. unfold submit. stame. Qed.
Hint Resolve safe_submit tame_submit : steps.

Lemma safe_cosmos_tx fuel pins sc step : safe (cosmos_tx (E := E) fuel pins sc step).
Proof.
  unfold cosmos_tx, run_instantiate, build_instantiate_plan, submit_instantiate, run_add_rewards,
    run_register_its_on_hub, read_registration. ssafe.
Qed.
Lemma tame_cosmos_tx fuel pins sc step : tame (cosmos_tx (E := E) fuel pins sc step).
Proof.
  unfold cosmos_tx, run_instantiate, build_instantiate_plan, submit_instantiate, run_add_rewards,
    run_register_its_on_hub, read_registration. stame.
Qed.

Lemma safe_config_edit : safe (config_edit (E := E)).
Proof. unfold config_edit. ssafe. Qed.
Lemma tame_config_edit : tame (config_edit (E := E)).
Proof. unfold config_edit. stame. Qed.
Lemma safe_cosmos_query sc : safe (cosmos_query (E := E) sc).
Proof. unfold cosmos_query. ssafe. Qed.
Lemma tame_cosmos_query sc : tame (cosmos_query (E := E) sc).
Proof. unfold cosmos_query. stame. Qed.

(** A program that follows up what the journal has for an action: only for the
    transaction found there. *)
Lemma safe_follow {A} action (body : option Transaction -> M (Run E) A) :
  (forall init found, hoare (HasR init (fun j => actions j !! action = found)) (body found)
     (fun _ => HasR init any) (SafeR init)) ->
  safe (found ← zoom (get_action action); body found).
Proof. intros Hb init. eapply hoare_bind; [apply hoareR_get_action|]. intros found. apply Hb. Qed.

Lemma safe_direct_check sc key : safe (direct_check (E := E) sc key).
Proof.
  unfold direct_check. apply safe_bind; [ssafe|]. intros step. apply safe_bind; [ssafe|]. intros s.
  apply safe_follow. intros init [saved|]; [|apply hoareR_throw].
  eapply hoare_bind; [apply hoareR_lift|]. intros u. apply hoare_pure. intros _.
  eapply hoare_bind; [apply hoareR_read; sread|]. intros c.
  eapply hoare_bind; [apply hoareR_resume_recorded|]. intros r. apply hoareR_ret.
Qed.

Lemma safe_validate_identity sc key id proposal lcd :
  safe (validate_identity (E := E) sc key id proposal lcd).
Proof.
  unfold validate_identity. apply safe_bind; [ssafe|]. intros name. apply safe_bind; [ssafe|]. intros s.
  apply safe_follow. intros init [[|a raw c d e f]|]; try apply hoareR_throw.
  eapply hoare_bind; [apply hoareR_resume_recorded|]. intros response.
  revert init. apply safe_bind; [ssafe|]. intros recorded. ssafe.
Qed.

Lemma tame_validate_identity sc key id proposal lcd :
  tame (validate_identity (E := E) sc key id proposal lcd).
Proof. unfold validate_identity. stame. Qed.
Hint Resolve safe_direct_check safe_validate_identity tame_validate_identity : steps.

Lemma safe_cosmos_poll fuel sc step : safe (cosmos_poll (E := E) fuel sc step).
Proof. unfold cosmos_poll, governance_check. ssafe. Qed.
Lemma tame_cosmos_poll fuel sc step : tame (cosmos_poll (E := E) fuel sc step).
Proof. unfold cosmos_poll, governance_check, direct_check. stame. Qed.

Lemma safe_prover_admin : safe (prover_admin_validate (E := E)).
Proof. unfold prover_admin_validate. ssafe. Qed.
Lemma tame_prover_admin : tame (prover_admin_validate (E := E)).
Proof. unfold prover_admin_validate. stame. Qed.
Hint Resolve safe_prover_admin tame_prover_admin : steps.

Lemma safe_initialize sc : safe (initialize (E := E) sc).
Proof. unfold initialize. ssafe. Qed.
Lemma tame_initialize sc : tame (initialize (E := E) sc).
Proof. unfold initialize. stame. Qed.
End Facts.

#[export] Hint Resolve safe_cosmos_tx tame_cosmos_tx safe_config_edit tame_config_edit
  safe_cosmos_query tame_cosmos_query safe_cosmos_poll tame_cosmos_poll safe_prover_admin
  tame_prover_admin safe_initialize tame_initialize : steps.
#[export] Hint Resolve readonly_instantiate_permissions readonly_query_set readonly_handoff
  readonly_smart_query readonly_find_code readonly_deposit readonly_verifier_contract : reads.
