(* ===== verification/Inputs.v ===== *)
(** * Pinned deployment inputs (hardened/inputs.rs, hardened/input_types.rs,
    hardened/storage.rs directory)

    The artifacts and code checksums a deployment is made from are captured
    once, written to inputs.json, and pinned by a hash in the journal; later
    runs read them back from there and refuse any other content. *)

From Stdlib Require Import Ascii.
From Stdlib Require String.
From S2P Require Import Prelude Types Journal Chain Machine Session Funding State Plan Config Intent EvmRecovery Json Cosmos Target Recovery Verifiers Checkpoints Context EvmSteps CosmosSteps.

Record InputSnapshot : Type := mkSnapshot {
  snap_version : Z;
  snap_artifacts : gmap string Json;
  snap_codes : Pins;
  snap_fingerprint : option Json
}.

(** serde's reader and pretty printer of the snapshot. *)
Class InputLib : Type := {
  decode_snapshot : bytes -> option InputSnapshot;
  encode_snapshot : InputSnapshot -> bytes
}.

(** The artifacts of the deployments repository, inputs.json, and the
    materialized artifacts beside it. *)
Class InputFiles (E : Type) : Type := {
  read_source_artifact : string -> E -> result Json * E;
  read_inputs_file : E -> result bytes * E;
  write_inputs_file : bytes -> E -> result () * E;
  write_artifact_file : string -> Json -> E -> result () * E
}.

(** The check of [storage::directory]. *)
Fixpoint directory_name (id : string) : bool :=
  match id with
  | String.EmptyString => true
  | String.String c id => (is_alphanumeric c || Ascii.eqb c "-"%char) && directory_name id
  end.

Definition storage_directory (st : State) : result () :=
  ensure_ok (directory_name (axelar_id st))
    "chain identifier must contain only ASCII letters, digits or hyphens".

Definition its_contracts : list string :=
  ["utils/TokenManagerDeployer.sol/TokenManagerDeployer.json";
   "interchain-token/InterchainToken.sol/InterchainToken.json";
   "utils/InterchainTokenDeployer.sol/InterchainTokenDeployer.json";
   "token-manager/TokenManager.sol/TokenManager.json";
   "TokenHandler.sol/TokenHandler.json";
   "InterchainTokenService.sol/InterchainTokenService.json";
   "InterchainTokenFactory.sol/InterchainTokenFactory.json";
   "proxies/InterchainProxy.sol/InterchainProxy.json"].

(** [artifact_paths], relative to the root. *)
Fixpoint step_artifacts (names : list string) : result (list string) :=
  match names with
  | [] => Ok []
  | name :: names =>
      '(implementation, proxy) ← ok_or (artifact_paths_for_step name "") "missing artifacts";
      rest ← step_artifacts names;
      Ok (implementation :: match proxy with Some p => p :: rest | None => rest end)
  end.

Definition artifact_paths : result (list string) :=
  paths ← step_artifacts
    ["ConstAddressDeployer"; "Create3Deployer"; "Operators"; "AxelarGateway"; "AxelarGasService"];
  Ok ((String.substring 1 1000 <$> paths)
      ++ ((fun c => "node_modules/@axelar-network/interchain-token-service/artifacts/contracts/" +:+ c)%string
            <$> its_contracts)).

(** The part of an artifact that is kept. *)
Definition pick_fields (source : Json) : result Json :=
  abi ← ok_or (get_key "abi" source) "missing abi";
  bytecode ← ok_or (get_key "bytecode" source) "missing bytecode";
  deployed ← ok_or (get_key "deployedBytecode" source) "missing deployedBytecode";
  Ok (JObj [("abi", abi); ("bytecode", bytecode); ("deployedBytecode", deployed)]).

(** Every component of the path is a plain name: not absolute, not [.] in
    front, no [..]. *)
Definition normal_path (name : string) : bool :=
  let tokens := split_on "/"%char name in
  negb (bool_decide (name = "")) &&
  negb (bool_decide (head tokens = Some "")) && negb (bool_decide (head tokens = Some ".")) &&
  negb (bool_decide (".." ∈ tokens)).

(** The fields pinned with another value. *)
Definition changed_fields (expected actual : Json) : list string :=
  fst <$> filter (fun '(k, v) =>
    negb (match get_key k actual with Some w => json_eqb w v | None => false end))
    (default [] (as_object expected)).

Definition check_fingerprint (s : InputSnapshot) (actual : Json) : result () :=
  match snap_fingerprint s with
  | Some expected =>
      ensure_ok (bool_decide (changed_fields expected actual = [])) "pinned deployment inputs differ"
  | None => Ok ()
  end.

Definition set_snap_fingerprint (f : Json) (s : InputSnapshot) : InputSnapshot :=
  mkSnapshot (snap_version s) (snap_artifacts s) (snap_codes s) (Some f).

Definition pinned_contracts : list string := ["Gateway"; "VotingVerifier"; "MultisigProver"].

(** [inputs::decode]. *)
Definition decode_inputs `{EvmLib, InputLib} (b : bytes) (expected : B256) : result InputSnapshot :=
  _ ← ensure_ok (keccak256 b =? expected) "deployment inputs.json changed";
  s ← ok_or (decode_snapshot b) "invalid snapshot";
  _ ← ensure_ok (snap_version s =? 1) "unsupported deployment input snapshot";
  Ok s.

Section Programs.
Context {E : Type} `{Host E, InputFiles E, TargetFile E, InputLib, ConfigLib, CosmosAccounts, EvmLib}.
Abbreviation W := (World E).

Fixpoint capture_artifacts (paths : list string) (m : gmap string Json) : M W (gmap string Json) :=
  match paths with
  | [] => mret m
  | path :: paths =>
      source ← call (read_source_artifact path);
      artifact ← lift (pick_fields source);
      capture_artifacts paths (<[path := artifact]> m)
  end.

Fixpoint capture_codes (names : list string) (m : Pins) : M W Pins :=
  match names with
  | [] => mret m
  | name :: names =>
      hash ← read_axelar_contract_field
        ("/axelar/contracts/" +:+ name +:+ "/storeCodeProposalCodeHash")%string;
      capture_codes names (<[name := hash]> m)
  end.

(** [inputs::capture]. *)
Definition capture_inputs : M W InputSnapshot :=
  paths ← lift artifact_paths;
  artifacts ← capture_artifacts paths ∅;
  codes ← capture_codes pinned_contracts ∅;
  mret (mkSnapshot 1 artifacts codes None).

(** [inputs::materialize]. *)
Definition materialize (s : InputSnapshot) : M W () :=
  for_each (fun '(name, artifact) =>
    ensure (normal_path name) "invalid artifact snapshot path";;
    call (write_artifact_file name artifact)) (btree_list (snap_artifacts s)).

(** [inputs::prepare]; [on_disk] is the content of journal.json. *)
Definition prepare_inputs (on_disk : option Journal) : M W InputSnapshot :=
  s ← match on_disk ≫= inputs_hash with
      | Some hash => b ← call read_inputs_file; lift (decode_inputs b hash)
      | None => capture_inputs
      end;
  materialize s;;
  mret s.

(** [inputs::commit]. *)
Definition commit_inputs (s : InputSnapshot) (fingerprint : Json) : M W () :=
  j ← read_journal;
  match inputs_hash j with
  | Some _ => mret ()
  | None =>
      let b := encode_snapshot (set_snap_fingerprint fingerprint s) in
      call (write_inputs_file b);;
      commit (set_inputs_hash (Some (keccak256 b)))
  end.

Lemma readonly_capture_artifacts paths m : readonly (capture_artifacts paths m).
Proof. revert m. induction paths as [|p paths IH]; intros m; simpl; sread. Qed.
Lemma readonly_capture_codes names m : readonly (capture_codes names m).
Proof. revert m. induction names as [|n names IH]; intros m; simpl; sread. Qed.
Lemma readonly_prepare_inputs on_disk : readonly (prepare_inputs on_disk).
Proof.
  pose proof readonly_capture_artifacts. pose proof readonly_capture_codes.
  unfold prepare_inputs, capture_inputs, materialize. sread.
Qed.
End Programs.

#[export] Hint Resolve readonly_prepare_inputs : reads.
