(* ===== verification/Steps.v ===== *)
(** * Dispatch and preview of a step (commands/deploy.rs [execute_step],
    hardened/preview.rs)

    The preview reads what it prints, so it can fail before the step runs; it
    changes nothing. *)

From S2P Require Import Prelude Types Journal Chain Machine Session Funding State Plan Config Intent EvmRecovery Json Cosmos Target Recovery Verifiers Checkpoints Context EvmSteps CosmosSteps.

(** [preview::reward_amount_label]: micro units with six decimals. *)
Fixpoint pad_zeros (n : nat) (s : string) : string :=
  match n with O => s | S n => pad_zeros n ("0" +:+ s)%string end.
Definition six_digits (n : Z) : string := pad_zeros (6 - String.length (to_dec n)) (to_dec n).
Definition reward_amount_label (amount : Z) (denom : string) : string :=
  if decide (denom = "uaxl") then
    (to_dec (amount / 1000000) +:+ "." +:+ six_digits (amount mod 1000000) +:+ " AXL (" +:+
     to_dec amount +:+ " uaxl)")%string
  else (to_dec amount +:+ " " +:+ denom)%string.

Section Steps.
Context {E : Type} `{Host E, EvmNode E, LcdNode E, DeployNode E, StepNode E, CosmosNode E, TargetFile E,
                     StepLib, MessageLib, ConfigLib, EvmLib, CosmosLib, CosmosAccounts, SignerLib}.
Abbreviation R := (Run E).
Implicit Types (sc : Scope).

(** [execute_step]; the key is resolved where an arm asks for it. *)
Definition execute_step (fuel : nat) (pins : Pins) sc (index : nat) (step : Step)
    (artifact proxy_artifact : option string) : M R () :=
  st ← get_state;
  let name := step_name step in
  let private_key := resolve_evm_key st name in
  let artifact_path := ok_or artifact "deployment artifact path is missing" in
  match step_kind step with
  | EvmCompat => key ← lift private_key; zoom (evm_compat fuel sc key)
  | DeployCreate =>
      key ← lift private_key; path ← lift artifact_path;
      evm_deploy fuel sc name "deploy-create" key path
  | DeployCreate2 =>
      key ← lift private_key; path ← lift artifact_path;
      evm_deploy fuel sc name "deploy-create2" key path
  | RegisterOperators => key ← lift private_key; register_operators fuel sc key
  | TransferOwnership _ _ => key ← lift private_key; transfer_ownership fuel sc step key
  | DeployGateway _ =>
      proxy ← lift (ok_or proxy_artifact "proxy artifact path is missing");
      key ← lift private_key; path ← lift artifact_path;
      deploy_gateway fuel sc index key path proxy
  | PredictAddress => predict_address
  | ConfigEdit => config_edit
  | CosmosTxStep _ => cosmos_tx fuel pins sc step
  | CosmosPoll _ => cosmos_poll fuel sc step
  | CosmosQuery => cosmos_query sc
  | WaitVerifierSet => initialize sc
  | DeployUpgradable _ _ =>
      implementation ← lift (ok_or artifact "implementation artifact path is missing");
      proxy ← lift (ok_or proxy_artifact "proxy artifact path is missing");
      key ← lift private_key;
      deploy_upgradable fuel sc index name key implementation proxy
  | DeployIts _ => key ← lift private_key; deploy_its fuel sc index step key
  end.

(** [preview::show], by what it reads. *)
Definition show_initial_reward_funding (p : Plan) : M R () :=
  st ← get_state;
  zoom read_axelar_config;;
  amount ← lift (ok_or (parse_uint 128 (reward_amount p)) "invalid reward amount");
  lift (ok_or (checked_mul 128 amount 2) "total initial reward funding exceeds the supported amount");;
  lift (rewards_funder_address st);;
  mret ().

Definition preview_show sc (step : Step) : M R () :=
  s ← zoom (current sc);
  when (bool_decide (step_name step ∈ ["AddCosmWasmConfig"; "InstantiateChainContracts"]))
    (zoom (read_axelar_contract_field "/axelar/governanceAddress");; mret ());;
  when (bool_decide (step_name step = "InstantiateChainContracts"))
    (zoom read_axelar_config;; mret ());;
  when (bool_decide (step_name step = "AddRewards")) (show_initial_reward_funding (plan s)).

Lemma safe_execute_step fuel pins sc index step a p :
  safe (execute_step fuel pins sc index step a p).
Proof. unfold execute_step. ssafe. Qed.
Lemma tame_execute_step fuel pins sc index step a p :
  tame (execute_step fuel pins sc index step a p).
Proof. unfold execute_step. stame. Qed.
Lemma safe_preview_show sc step : safe (preview_show sc step).
Proof. unfold preview_show, show_initial_reward_funding. ssafe. Qed.
Lemma tame_preview_show sc step : tame (preview_show sc step).
Proof. unfold preview_show, show_initial_reward_funding. stame. Qed.
End Steps.

#[export] Hint Resolve safe_execute_step tame_execute_step safe_preview_show tame_preview_show : steps.
