(* ===== verification/Checks.v ===== *)
(** * Postconditions of completed steps (hardened/postconditions.rs,
    hardened/contract_checks.rs, hardened/handoff.rs)

    After a step and at the start of every run, what the deployment claims to
    have done is read back from the chains and compared with the plan, the
    configuration and the journal.  All of it only reads. *)

From S2P Require Import Prelude Types Journal Chain Machine Session Funding State Plan Config Intent EvmRecovery Json Cosmos Target Recovery Verifiers Checkpoints Context EvmSteps CosmosSteps.

(** ** Contract storage, as the LCD returns it *)

Record ContractMeta : Type := mkContractMeta {
  cm_code_id : string;
  cm_creator : string;
  cm_admin : string
}.

Record VerifierConfig : Type := mkVerifierConfig {
  vc_source_chain : string;
  vc_source_gateway_address : string;
  vc_voting_threshold : string * string;
  vc_block_expiry : string;
  vc_confirmation_height : Z;
  vc_service_name : string;
  vc_msg_id_format : string;
  vc_service_registry_contract : string;
  vc_rewards_contract : string;
  vc_chain_codec_address : string
}.

Record ProverConfig : Type := mkProverConfig {
  pc_chain_name : string;
  pc_signing_threshold : string * string;
  pc_service_name : string;
  pc_key_type : string;
  pc_domain_separator : bytes;
  pc_verifier_set_diff_threshold : Z;
  pc_notify_signing_session : bool;
  pc_expect_full_message_payloads : bool;
  pc_gateway : string;
  pc_voting_verifier : string;
  pc_multisig : string;
  pc_coordinator : string;
  pc_service_registry : string;
  pc_chain_codec : string
}.

Record ProtocolContracts : Type := mkProtocolContracts {
  pt_router : string;
  pt_multisig : string;
  pt_service_registry : string
}.

(** [contract_checks::raw] at the types it is used at, by the LCD and the
    contract, and the metadata of contracts and codes. *)
Class CheckNode (E : Type) : Type := {
  raw_gateway_config : string -> string -> E -> result (string * string) * E;
  raw_verifier_config : string -> string -> E -> result VerifierConfig * E;
  raw_prover_config : string -> string -> E -> result ProverConfig * E;
  raw_protocol : string -> string -> E -> result ProtocolContracts * E;
  raw_proxy_coordinator : string -> string -> E -> result string * E;
  raw_rewards_denom : string -> string -> E -> result string * E;
  raw_governor : string -> string -> E -> result string * E;
  lcd_contract_meta : string -> string -> E -> result ContractMeta * E;
  (** [code-info/{id}]: the id and the checksum. *)
  lcd_code_meta : string -> string -> E -> result (string * string) * E
}.

Definition dec_pair (p : Z * Z) : string * string := (to_dec p.1, to_dec p.2).

(** ** Pure comparisons *)

Section Compare.
Context `{CosmosAccounts, EvmLib}.

(** The settings half of [contract_checks::verifier]. *)
Definition verifier_settings (st : State) (p : Plan) (gateway : Address) (c : VerifierConfig)
    : result () :=
  _ ← ensure_ok (bool_decide (vc_source_chain c = axelar_id st)) "VotingVerifier settings differ";
  address ← ok_or (parse_address (vc_source_gateway_address c)) "invalid gateway address";
  ensure_ok ((address =? gateway)
    && bool_decide (vc_voting_threshold c = dec_pair (voting_threshold p))
    && bool_decide (vc_block_expiry c = to_dec (block_expiry p))
    && (vc_confirmation_height c =? confirmation_height p)
    && bool_decide (vc_service_name c = verifier_service_name (st_env st))
    && bool_decide (vc_msg_id_format c = "hex_tx_hash_and_event_index"))
    "VotingVerifier settings differ".

(** The settings half of [contract_checks::prover]. *)
Definition prover_settings (st : State) (p : Plan) (domain : B256) (c : ProverConfig) : result () :=
  ensure_ok (bool_decide (pc_chain_name c = axelar_id st)
    && bool_decide (pc_signing_threshold c = dec_pair (signing_threshold p))
    && bool_decide (pc_service_name c = verifier_service_name (st_env st))
    && bool_decide (pc_key_type c = "ecdsa")
    && bool_decide (pc_domain_separator c = be_bytes 32 domain)
    && (pc_verifier_set_diff_threshold c =? 0)
    && negb (pc_notify_signing_session c)
    && negb (pc_expect_full_message_payloads c))
    "MultisigProver settings differ".
End Compare.

(** The parameters of a reward pool on chain against the network's. *)
Definition pool_matches (env chain contract : string) (pool : Json) : bool :=
  let expected := index (index (default JNull (head (reward_pool_messages env chain contract contract)))
                           "create_pool") "params" in
  forallb (fun f => json_eqb (index pool f) (index expected f))
    ["epoch_duration"; "rewards_per_epoch"; "participation_threshold"].

(** Whether a step is done, as [postconditions::check] sees it. *)
Definition step_done (st : State) (completed : option string) (name : string) : bool :=
  bool_decide (completed = Some name) ||
  existsb (fun s => bool_decide (step_name s = name) && bool_decide (step_status s = Completed))
    (steps st).

(** [handoff::resume_command]: whether the continue command carries
    [--activate], and its text. *)
Definition suggests_activation (st : State) : bool :=
  match next_pending_step st with
  | Some (next, _) =>
      match position (fun s => bool_decide (step_name s = "WaitForVerifierSet")) (steps st) with
      | Some checkpoint => Nat.leb checkpoint next
      | None => false
      end
  | None => false
  end.

Definition resume_command (st : State) : string :=
  ("axe --network " +:+ NetworkStr.as_str (st_env st) +:+ " deploy run --axelar-id " +:+ axelar_id st
     +:+ (if suggests_activation st then " --activate" else ""))%string.

Section Programs.
Context {E : Type} `{Host E, EvmNode E, DeployNode E, StepNode E, CosmosNode E, CheckNode E, TargetFile E,
                     ConfigLib, EvmLib, CosmosAccounts, SignerLib}.
Abbreviation W := (World E).
Implicit Types (sc : Scope) (st : State).

(** A chain of comparisons [a == contract(..).await? && ..]: the next address
    is read only if the ones before matched. *)
Fixpoint all_match (l : list (string * M W string)) : M W bool :=
  match l with
  | [] => mret true
  | (actual, m) :: l =>
      expected ← m;
      if decide (actual = expected) then all_match l else mret false
  end.

(** [contract_checks::verifier]. *)
Definition check_verifier sc st (lcd : string) : M W () :=
  s ← current sc;
  address ← verifier_contract st "VotingVerifier" true;
  c ← call (raw_verifier_config lcd address);
  gateway ← lift (ok_or (predicted_gateway_address st) "missing deployed gateway");
  lift (verifier_settings st (plan s) gateway c);;
  ok ← all_match [ (vc_service_registry_contract c, verifier_contract st "ServiceRegistry" false);
                   (vc_rewards_contract c, verifier_contract st "Rewards" false);
                   (vc_chain_codec_address c, verifier_contract st "ChainCodecEvm" false) ];
  ensure ok "VotingVerifier protocol wiring mismatch".

(** [contract_checks::prover]. *)
Definition check_prover sc st (lcd : string) : M W () :=
  s ← current sc;
  address ← verifier_contract st "MultisigProver" true;
  c ← call (raw_prover_config lcd address);
  domain ← compute_domain_separator (axelar_id st);
  lift (prover_settings st (plan s) domain c);;
  ok ← all_match [ (pc_gateway c, verifier_contract st "Gateway" true);
                   (pc_voting_verifier c, verifier_contract st "VotingVerifier" true);
                   (pc_multisig c, verifier_contract st "Multisig" false);
                   (pc_coordinator c, verifier_contract st "Coordinator" false);
                   (pc_service_registry c, verifier_contract st "ServiceRegistry" false);
                   (pc_chain_codec c, verifier_contract st "ChainCodecEvm" false) ];
  ensure ok "MultisigProver protocol wiring mismatch";;
  admin ← call (lcd_prover_admin lcd address);
  ensure (bool_decide (admin = plan_prover_admin (plan s))) "prover admin mismatch".

(** One contract of [contract_checks::instantiated]. *)
Definition check_contract (fuel : nat) (pins : Pins) st (lcd coordinator name : string) : M W () :=
  address ← verifier_contract st name true;
  expected_hash ← cosmos_code_hash pins name;
  expected_code ← lcd_fetch_code_id fuel lcd expected_hash;
  info ← call (lcd_contract_meta lcd address);
  admin ← read_axelar_contract_field
    ("/axelar/contracts/" +:+ name +:+ "/" +:+ axelar_id st +:+ "/contractAdmin")%string;
  ensure (bool_decide (admin = contract_admin (NetworkStr.as_str (st_env st))))
    "configured upgrade admin differs from the network policy";;
  ensure (bool_decide (cm_code_id info = to_dec expected_code)
          && bool_decide (cm_creator info = coordinator) && bool_decide (cm_admin info = admin))
    "code, creator or contract admin mismatch".

(** [contract_checks::instantiated]. *)
Definition check_instantiated (fuel : nat) (pins : Pins) sc st : M W () :=
  c ← read_axelar_config;
  let lcd := tp_lcd c in
  coordinator ← verifier_contract st "Coordinator" false;
  current sc;;
  j ← read_journal;
  predicted ← lift (ok_or (cosmos_deployment j) "missing journaled Cosmos deployment predictions");
  gateway ← verifier_contract st "Gateway" true;
  verifier ← verifier_contract st "VotingVerifier" true;
  prover ← verifier_contract st "MultisigProver" true;
  lift (validate_prediction predicted (deployment_name predicted) (axelar_id st)
    (JObj [ ("chain_name", JStr (axelar_id st)); ("gateway_address", JStr gateway);
            ("verifier_address", JStr verifier); ("prover_address", JStr prover) ]));;
  for_each (check_contract fuel pins st lcd coordinator) ["Gateway"; "VotingVerifier"; "MultisigProver"];;
  check_verifier sc st lcd;;
  check_prover sc st lcd;;
  address ← verifier_contract st "Gateway" true;
  '(router, wired) ← call (raw_gateway_config lcd address);
  ok ← all_match [ (router, verifier_contract st "Router" false);
                   (wired, verifier_contract st "VotingVerifier" true) ];
  ensure ok "Cosmos gateway wiring mismatch".

(** [postconditions::registration]. *)
Definition check_registration st : M W () :=
  c ← read_axelar_config;
  let lcd := tp_lcd c in
  router ← verifier_contract st "Router" false;
  chain ← lcd_cosmwasm_smart_query lcd router (JObj [("chain_info", JStr (axelar_id st))]);
  gateway ← verifier_contract st "Gateway" true;
  ensure (bool_decide (pointer "/gateway/address" chain ≫= as_str = Some gateway))
    "router gateway registration mismatch";;
  ensure (bool_decide (as_u64 (index chain "frozen_status") = Some 0))
    "chain routing is frozen externally";;
  multisig ← verifier_contract st "Multisig" false;
  prover ← verifier_contract st "MultisigProver" true;
  authorized ← lcd_cosmwasm_smart_query lcd multisig
    (JObj [("is_caller_authorized",
            JObj [("contract_address", JStr prover); ("chain_name", JStr (axelar_id st))])]);
  ensure (json_eqb authorized (JBool true)) "prover is not authorized in Multisig";;
  rewards ← verifier_contract st "Rewards" false;
  verifier ← verifier_contract st "VotingVerifier" true;
  for_each (fun contract =>
    pool ← lcd_cosmwasm_smart_query lcd rewards
      (JObj [("rewards_pool", JObj [("pool_id", pool_id (axelar_id st) contract)])]);
    ensure (pool_matches (NetworkStr.as_str (st_env st)) (axelar_id st) contract pool)
      "reward pool parameter mismatch") [multisig; verifier].

(** [postconditions::operators]. *)
Definition check_operators st : M W () :=
  address ← read_contract_address_by_name (axelar_id st) "Operators";
  for_each (fun op => ok ← call (is_operator address op); ensure ok "operator is missing")
    (axelar_operators (st_env st)).

(** [postconditions::its_implementations]. *)
Definition check_its_implementations st : M W () :=
  for_each (fun '(proxy_name, implementation_name) =>
    proxy ← read_contract_address_by_name (axelar_id st) proxy_name;
    implementation ← call (mc_implementation None proxy);
    expected ← lift (ok_or
      (List.find (fun s => bool_decide (step_name s = "DeployInterchainTokenService")) (steps st)
         ≫= its_address implementation_name) "missing saved address");
    ensure (implementation =? expected) "implementation differs from the saved deployment address")
    [("InterchainTokenService", "InterchainTokenServiceImpl");
     ("InterchainTokenFactory", "InterchainTokenFactoryImpl")].

Definition truncation : Json :=
  JObj [("max_uint_bits", JNum 256); ("max_decimals_when_truncating", JNum 255)].

(** [postconditions::its]. *)
Definition check_its st : M W () :=
  c ← read_axelar_config;
  hub ← verifier_contract st "InterchainTokenService" false;
  actual ← lcd_cosmwasm_smart_query (tp_lcd c) hub
    (JObj [("its_chain", JObj [("chain", JStr (axelar_id st))])]);
  edge ← read_contract_address_by_name (axelar_id st) "InterchainTokenService";
  text ← lift (ok_or (as_str (index actual "its_edge_contract")) "ITS Hub registration missing");
  actual_edge ← lift (ok_or (parse_address text) "invalid address");
  ensure (actual_edge =? edge) "ITS Hub edge address mismatch";;
  translator ← verifier_contract st "ItsAbiTranslator" false;
  ensure (bool_decide (as_str (index actual "msg_translator") = Some translator))
    "ITS translator mismatch";;
  ensure (json_eqb (index actual "truncation") truncation) "ITS truncation mismatch".

(** [postconditions::check]. *)
Definition postconditions (fuel : nat) (pins : Pins) sc st (completed : option string) : M W () :=
  let done := step_done st completed in
  when (done "SaveDeployedContracts")
    (check_instantiated fuel pins sc st;; check_registration st);;
  when (done "AxelarGateway") (gateway_check sc st);;
  when (done "RegisterOperators") (check_operators st);;
  when (done "DeployInterchainTokenService") (check_its_implementations st);;
  when (done "WaitItsHubRegistration") (check_its st).

Lemma readonly_all_match l : Forall (fun p => readonly p.2) l -> readonly (all_match l).
Proof.
  induction 1 as [|[a m] l Hm Hl IH]; simpl; [apply readonly_ret|].
  apply readonly_bind; [done|]. intros b. destruct (decide _); [done|apply readonly_ret].
Qed.

Ltac match_reads := apply readonly_all_match; repeat constructor; apply readonly_verifier_contract.

Lemma readonly_check_verifier sc st lcd : readonly (check_verifier sc st lcd).
Proof. unfold check_verifier. repeat first [match_reads | progress sread]. Qed.
Lemma readonly_check_prover sc st lcd : readonly (check_prover sc st lcd).
Proof. unfold check_prover. repeat first [match_reads | progress sread]. Qed.
Lemma readonly_instantiated fuel pins sc st : readonly (check_instantiated fuel pins sc st).
Proof.
  pose proof readonly_check_verifier. pose proof readonly_check_prover.
  unfold check_instantiated, check_contract, cosmos_code_hash, lcd_fetch_code_id.
  repeat first [match_reads | progress sread].
Qed.
Lemma readonly_registration st : readonly (check_registration st).
Proof. unfold check_registration. sread. Qed.
Lemma readonly_operators st : readonly (check_operators st).
Proof. unfold check_operators. sread. Qed.
Lemma readonly_its_implementations st : readonly (check_its_implementations st).
Proof. unfold check_its_implementations. sread. Qed.
Lemma readonly_check_its st : readonly (check_its st).
Proof. unfold check_its. sread. Qed.
End Programs.

#[export] Hint Resolve readonly_instantiated readonly_registration readonly_operators
  readonly_its_implementations readonly_check_its : reads.
