(* ===== verification/Preflight.v ===== *)
(** * Preflight (hardened/preflight.rs, hardened/preflight/funding.rs,
    contract_checks.rs [protocol] and [available_before_start])

    Before a run touches the journal it checks the plan, the configuration,
    the networks, the accounts' funds and the protocol contracts, and hashes
    the deployment's inputs into the fingerprint that identifies it. *)

From Stdlib Require Import Ascii.
From Stdlib Require String.
From S2P Require Import Prelude Types Journal Chain Machine Session Funding State Plan Config Intent EvmRecovery Json Cosmos Target Recovery Verifiers Checkpoints Context EvmSteps CosmosSteps Inputs Checks.

(** ** Configuration and artifacts *)

(** [preflight::required]. *)
Definition required_field (root : Json) (path : string) : result string :=
  ok_or (pointer path root ≫= as_str) "missing field".

Definition validate_chain_configuration (st : State) (chain : Json) (p : Plan) : result () :=
  _ ← (if hardened_fingerprint st is None then
         ensure_ok (match as_object (index chain "contracts") with
                    | Some contracts => bool_decide (length contracts = 0%nat)
                    | None => true
                    end)
           "new hardened deployments require an empty EVM contract configuration"
       else Ok ());
  _ ← ensure_ok (bool_decide (as_u64 (index chain "chainId") = Some (evm_chain_id p)))
    "plan and configuration EVM chain IDs differ";
  ensure_ok (bool_decide (as_str (index chain "axelarId") = Some (axelar_id st)))
    "chain key and axelarId must match".

(** The functions an artifact must have, by its file name. *)
Definition required_functions (name : string) : list string :=
  if decide (name = "AxelarAmplifierGateway.json") then
    ["epoch"; "signersHashByEpoch"; "owner"; "operator"; "transferOwnership"]
  else if decide (name ∈ ["InterchainTokenService.json"; "InterchainTokenFactory.json";
                          "AxelarGasService.json"]) then
    ["owner"; "implementation"; "transferOwnership"]
  else if decide (name = "Operators.json") then
    ["owner"; "isOperator"; "addOperator"; "transferOwnership"]
  else [].

(** [Path::file_name]. *)
Definition file_name (path : string) : string := default "" (list.last (split_on "/"%char path)).

Definition has_function (abi : list Json) (f : string) : bool :=
  existsb (fun entry => json_eqb (index entry "type") (JStr "function") &&
                        json_eqb (index entry "name") (JStr f)) abi.

Definition validate_artifact_capabilities (path : string) (artifact : Json) : result () :=
  check_all (fun f =>
    ensure_ok (match as_array (index artifact "abi") with
               | Some abi => has_function abi f
               | None => false
               end) "artifact lacks required capability")
    (required_functions (file_name path)).

(** [trim_end_matches('/')]. *)
Fixpoint trim_slashes (s : string) : string :=
  match s with
  | String.EmptyString => ""
  | String.String c s =>
      match trim_slashes s with
      | String.EmptyString => if Ascii.eqb c "/"%char then "" else String.String c ""
      | t => String.String c t
      end
  end.

Definition validate_lcd_override (overridden : option string) (lcd : string) : result () :=
  match overridden with
  | Some url => ensure_ok (bool_decide (trim_slashes url = trim_slashes lcd))
                  "AXELAR_LCD_URL differs from the validated deployment LCD"
  | None => Ok ()
  end.

(** ** Funds *)

Definition evm_keys (st : State) : list (string * option string) :=
  [("deployer", deployer_private_key st); ("gateway", gateway_deployer_private_key st);
   ("gasService", gas_service_deployer_private_key st); ("its", its_deployer_private_key st)].

(** [proposal_deposit_status]: is a proposal still to be submitted, and does
    one hold its deposit; [recorded] are the steps with a journaled
    submission. *)
Fixpoint deposit_status (st : State) (recorded : string -> bool) (l : list Step) (acc : bool * bool)
    : bool * bool :=
  match l with
  | [] => acc
  | submit :: l =>
      match step_kind submit with
      | CosmosTxStep key =>
          match List.find (fun s => bool_decide (step_kind s = CosmosPoll key)) (steps st) with
          | Some wait =>
              let submitted := recorded (step_name submit) || bool_decide (is_Some (proposals st !! key)) in
              deposit_status st recorded l
                (acc.1 || negb submitted,
                 acc.2 || (submitted && bool_decide (step_status wait = Pending)))
          | None => deposit_status st recorded l acc
          end
      | _ => deposit_status st recorded l acc
      end
  end.

Definition proposal_deposit_status (st : State) (recorded : string -> bool) : bool * bool :=
  deposit_status st recorded (steps st) (false, false).

Definition sequential_deposit (outstanding escrowed : bool) (deposit : Z) : Z :=
  if outstanding && negb escrowed then deposit else 0.

(** [funding::pending_rewards]. *)
Definition pending_rewards (st : State) (recorded : bool) : result Z :=
  if recorded || negb (existsb (fun s => bool_decide (step_name s = "AddRewards") &&
                                         bool_decide (step_status s = Pending)) (steps st))
  then Ok 0
  else
    p ← ok_or (hardened_plan st) "missing plan";
    amount ← ok_or (parse_uint 128 (reward_amount p)) "invalid amount";
    ok_or (checked_mul 128 amount 2) "reward amount overflow".

(** [funding::payments_by_account]: an account with several roles pays for
    all of them. *)
Fixpoint add_payments (l : list (string * Z)) (m : gmap string Z) : result (gmap string Z) :=
  match l with
  | [] => Ok m
  | (address, amount) :: l =>
      total ← ok_or (checked_add 128 (default 0 (m !! address)) amount) "funding requirement overflow";
      add_payments l (<[address := total]> m)
  end.

Definition payments_by_account (proposer admin funder : string) (deposit rewards : Z)
    : result (gmap string Z) :=
  add_payments [(proposer, deposit); (admin, 0); (funder, rewards)] ∅.

Section Budgets.
Context `{EvmLib}.

Inductive Sender : Type := EvmSender (a : Address) | CosmosSender (a : string).

(** [preflight::remaining_budget]. *)
Definition remaining_budget (st : State) (on_disk : option Journal) (sender : Sender) : result Z :=
  p ← ok_or (hardened_plan st) "missing plan";
  let text := match sender with CosmosSender _ => cosmos_fee_budget p | EvmSender _ => evm_gas_budget p end in
  budget ← ok_or (parse_uint 128 text) "invalid budget";
  match on_disk with
  | None => Ok budget
  | Some j =>
      reserved ← match sender with
                 | CosmosSender a => fee_liability j a None
                 | EvmSender a => x ← liability j a None; ok_or (checked 128 x) "too large"
                 end;
      ok_or (checked_sub 128 budget reserved) "journal exceeds approved fee budget"
  end.
End Budgets.

(** ** The fingerprint *)

Record FingerprintInputs : Type := mkFingerprintInputs {
  fi_plan : Plan;
  fi_network : Network;
  fi_chain : string;
  fi_identities : gmap string string;
  fi_salt : string;
  fi_its_salt : option string;
  fi_its_proxy_salt : option string;
  fi_chain_config : Json;
  fi_addresses : gmap string string;
  fi_wiring : ProtocolContracts;
  fi_rewards_denom : string;
  fi_artifacts : gmap string B256;
  fi_codes : list string;
  fi_governance : Json
}.

Definition JMap (m : gmap string string) : Json := JObj (prod_map id JStr <$> btree_list m).
Definition JOpt (o : option string) : Json := match o with Some s => JStr s | None => JNull end.
Definition JNums (p : Z * Z) : Json := JArr [JNum p.1; JNum p.2].

Section Fingerprint.
Context `{ConfigLib, EvmLib}.

(** serde's text of a plan. *)
Definition plan_json (p : Plan) : Json :=
  JObj ([ ("evmChainId", JNum (evm_chain_id p));
          ("axelarChainId", JStr (axelar_chain_id p));
          ("gatewayOwner", JStr (address_json (gateway_owner p)));
          ("operatorsOwner", JStr (address_json (operators_owner p)));
          ("gasServiceOwner", JStr (address_json (gas_service_owner p)));
          ("itsOwner", JStr (address_json (its_owner p)));
          ("factoryOwner", JStr (address_json (factory_owner p)));
          ("gatewayOperator", JStr (address_json (gateway_operator p)));
          ("proverAdmin", JStr (plan_prover_admin p)) ]
        ++ match approved_verifiers p with
           | [] => []
           | l => [("approvedVerifiers", JArr (JStr <$> l))]
           end
        ++ [ ("evmGasBudget", JStr (evm_gas_budget p));
             ("cosmosFeeBudget", JStr (cosmos_fee_budget p));
             ("rewardAmount", JStr (reward_amount p));
             ("votingThreshold", JNums (voting_threshold p));
             ("signingThreshold", JNums (signing_threshold p));
             ("blockExpiry", JNum (block_expiry p));
             ("confirmationHeight", JNum (confirmation_height p)) ]).

Definition wiring_json (w : ProtocolContracts) (denom : string) : Json :=
  JObj [ ("wiring", JObj [ ("router", JStr (pt_router w)); ("multisig", JStr (pt_multisig w));
                           ("service_registry", JStr (pt_service_registry w)) ]);
         ("rewards", JObj [("rewards_denom", JStr denom)]) ].

Definition fingerprint_json (i : FingerprintInputs) : Json :=
  JObj ([ ("plan", plan_json (fi_plan i));
          ("network", JStr (NetworkStr.as_str (fi_network i)));
          ("chain", JStr (fi_chain i));
          ("identities", JMap (fi_identities i));
          ("salt", JStr (fi_salt i));
          ("itsSalt", JOpt (fi_its_salt i));
          ("itsProxySalt", JOpt (fi_its_proxy_salt i));
          ("chainName", index (fi_chain_config i) "name");
          ("tokenSymbol", index (fi_chain_config i) "tokenSymbol");
          ("decimals", index (fi_chain_config i) "decimals");
          ("operators", JArr (JStr ∘ address_json <$> axelar_operators (fi_network i)));
          ("protocolAddresses", JMap (fi_addresses i));
          ("wiring", wiring_json (fi_wiring i) (fi_rewards_denom i));
          ("artifacts", JMap (b256_to_string <$> fi_artifacts i));
          ("cosmosCodes", JArr (JStr <$> fi_codes i));
          ("governance", fi_governance i) ]
        ++ (if decide (fi_network i = Mainnet) then
              [("mainnetPolicy", JObj [ ("evmAddresses", JStr "configured-signers-v1");
                                        ("upgradeAdmin", JStr (contract_admin "mainnet")) ])]
            else [])
        ++ [("proposalFlow", JStr "instantiate-register-v1")]).
End Fingerprint.

(** ** Programs *)

Record PreflightResult : Type := mkPreflight {
  pf_fingerprint : B256;
  pf_fingerprint_inputs : Json;
  pf_protocols : gmap string ProtocolIdentity
}.

(** What preflight reads besides the other interfaces: an artifact as JSON. *)
Class ArtifactFiles (E : Type) : Type := {
  read_artifact_json : string -> E -> result Json * E
}.

Definition protocol_names : list string :=
  ["Coordinator"; "Router"; "Rewards"; "Multisig"; "ServiceRegistry"; "ChainCodecEvm";
   "ItsAbiTranslator"; "InterchainTokenService"].

(** [hex::decode(text).is_ok_and(|bytes| bytes.len() == 32)]. *)
Definition valid_checksum (text : string) : bool :=
  match hex_decode text with Some b => Nat.eqb (length b) 32 | None => false end.

Section Programs.
Context {E : Type} `{Host E, EvmNode E, LcdNode E, DeployNode E, StepNode E, CosmosNode E, CheckNode E,
                     TargetFile E, ArtifactFiles E, StepLib, MessageLib, ConfigLib, EvmLib, CosmosLib,
                     CosmosAccounts, SignerLib}.
Abbreviation W := (World E).
Implicit Types (st : State).

(** [preflight::protocol_inputs]. *)
Fixpoint protocol_inputs (root : Json) (lcd : string) (names : list string)
    (m : gmap string ProtocolIdentity) : M W (gmap string ProtocolIdentity) :=
  match names with
  | [] => mret m
  | name :: names =>
      address ← lift (required_field root ("/axelar/contracts/" +:+ name +:+ "/address")%string);
      info ← call (lcd_contract_meta lcd address);
      '(code_id, checksum) ← call (lcd_code_meta lcd (cm_code_id info));
      ensure (bool_decide (code_id = cm_code_id info))
        "code metadata ID does not match contract code ID";;
      ensure (valid_checksum checksum) "invalid code checksum in metadata";;
      protocol_inputs root lcd names
        (<[name := mkProtocol address (cm_code_id info) checksum (cm_creator info) (cm_admin info)]> m)
  end.

(** [preflight::artifacts]. *)
Fixpoint hash_artifacts (root : string) (paths : list string) (m : gmap string B256)
    : M W (gmap string B256) :=
  match paths with
  | [] => mret m
  | name :: paths =>
      let path := (root +:+ "/" +:+ name)%string in
      artifact ← call (read_artifact_json path);
      lift (validate_artifact_capabilities path artifact);;
      creation ← call (read_artifact_bytecode path);
      runtime ← call (read_artifact_runtime_hash path);
      hash_artifacts root paths (<[name := keccak256 (creation ++ be_bytes 32 runtime)]> m)
  end.

Definition artifact_hashes st : M W (gmap string B256) :=
  paths ← lift artifact_paths; hash_artifacts (inputs_root st) paths ∅.

(** [preflight::validate_lcd_network]. *)
Definition validate_lcd_network (lcd chain_id : string) : M W () :=
  network ← call (lcd_node_network lcd);
  ensure (bool_decide (network = Some chain_id)) "LCD is on the wrong Axelar network".

(** [preflight::check_verifier_count]. *)
Definition check_verifier_count st (on_disk : option Journal) (root : Json) (lcd : string) : M W () :=
  if bool_decide (is_Some (on_disk ≫= initial_signers)) then mret ()
  else
    registry ← lift (required_field root "/axelar/contracts/ServiceRegistry/address");
    service ← verifier_service st lcd registry;
    lift (validate_limits service).

(** The gas budgets of the EVM roles. *)
Fixpoint check_evm_keys st (on_disk : option Journal) (keys : list (string * option string))
    (m : gmap string string) : M W (gmap string string) :=
  match keys with
  | [] => mret m
  | (name, key) :: keys =>
      key ← lift (ok_or key "missing key");
      signer ← lift (ok_or (signer_address key) "invalid key");
      remaining ← lift (remaining_budget st on_disk (EvmSender signer));
      balance ← call (eth_get_balance signer);
      ensure (remaining <=? balance) "role lacks its remaining approved gas budget";;
      check_evm_keys st on_disk keys (<[name := address_to_string signer]> m)
  end.

(** [funding::proposal_deposit]. *)
Definition proposal_deposit st (lcd denom : string) : M W Z :=
  if deployment_uses_governance (st_env st) then
    text ← governance_deposit lcd denom;
    lift (ok_or (parse_uint 128 text) "invalid deposit")
  else mret 0.

(** [funding::check]: the Cosmos accounts, each with what it has to hold. *)
Definition check_funding st (on_disk : option Journal) (lcd denom : string)
    : M W (gmap string string) :=
  p ← lift (ok_or (hardened_plan st) "missing plan");
  m ← lift (step_mnemonic st "InstantiateChainContracts");
  proposer ← lift (ok_or (wallet_address m) "invalid mnemonic");
  m ← lift (step_mnemonic st "WaitForVerifierSet");
  admin ← lift (ok_or (wallet_address m) "invalid mnemonic");
  ensure (bool_decide (admin = plan_prover_admin p)) "prover admin credential mismatch";;
  funder ← lift (rewards_funder_address st);
  deposit ← proposal_deposit st lcd denom;
  let recorded step :=
    match on_disk with
    | Some j => bool_decide (is_Some (actions j !! (step +:+ "/cosmos")%string))
    | None => false
    end in
  let '(remaining, escrowed) := proposal_deposit_status st recorded in
  rewards ← lift (pending_rewards st (recorded "AddRewards"));
  payments ← lift (payments_by_account proposer admin funder
                     (sequential_deposit remaining escrowed deposit) rewards);
  for_each (fun '(address, amount) =>
    fees ← lift (remaining_budget st on_disk (CosmosSender address));
    required ← lift (ok_or (checked_add 128 amount fees) "funding requirement overflow");
    ensure (bool_decide (is_Some (account_prefix address)) && valid_denom denom) "invalid account";;
    check_axelar_balance lcd address denom required) (btree_list payments);;
  mret (<["proposer" := proposer]> (<["MULTISIG_PROVER_MNEMONIC" := admin]>
        (<["REWARDS_FUNDER_MNEMONIC" := funder]> ∅))).

(** The pages of [available_before_start]: a cursor that has to advance. *)
Fixpoint scan_chains (fuel : nat) st (lcd router : string) (start_after : option string) : M W () :=
  match fuel with
  | O => throw OutOfFuel
  | S fuel =>
      answer ← lcd_cosmwasm_smart_query lcd router
        (JObj [("chains", JObj [("start_after", JOpt start_after); ("limit", JNum 100)])]);
      chains ← lift (ok_or (as_array answer ≫= mapM (fun c => as_str (index c "name"))) "invalid chains");
      ensure (negb (bool_decide (axelar_id st ∈ chains))) "chain is already registered in Router";;
      if decide (length chains < 100)%nat then mret ()
      else
        last ← lift (ok_or (list.last chains) "missing chain pagination cursor");
        ensure (match start_after with
                | Some previous => String.ltb previous last
                | None => true
                end) "Router pagination did not advance";;
        scan_chains fuel st lcd router (Some last)
  end.

(** [contract_checks::available_before_start]. *)
Definition available_before_start (fuel : nat) st (lcd : string) : M W () :=
  match hardened_fingerprint st with
  | Some _ => mret ()
  | None =>
      router ← verifier_contract st "Router" false;
      scan_chains fuel st lcd router None;;
      hub ← verifier_contract st "InterchainTokenService" false;
      chain ← lcd_cosmwasm_smart_query lcd hub
        (JObj [("its_chain", JObj [("chain", JStr (axelar_id st))])]);
      ensure (json_eqb chain JNull) "chain is already registered on the ITS Hub"
  end.

(** [contract_checks::protocol]. *)
Definition check_protocol st (lcd denom : string) : M W (ProtocolContracts * string) :=
  coordinator ← verifier_contract st "Coordinator" false;
  wiring ← call (raw_protocol lcd coordinator);
  ok ← all_match [ (pt_router wiring, verifier_contract st "Router" false);
                   (pt_multisig wiring, verifier_contract st "Multisig" false);
                   (pt_service_registry wiring, verifier_contract st "ServiceRegistry" false) ];
  ensure ok "Coordinator protocol wiring mismatch";;
  for_each (fun name =>
    address ← verifier_contract st name false;
    proxy ← call (raw_proxy_coordinator lcd address);
    ensure (bool_decide (proxy = coordinator)) "Coordinator is not the authorized proxy")
    ["Router"; "Multisig"];;
  rewards ← verifier_contract st "Rewards" false;
  rewards_denom ← call (raw_rewards_denom lcd rewards);
  ensure (bool_decide (rewards_denom = denom)) "Rewards denomination differs from funding denomination";;
  expected ← read_axelar_contract_field "/axelar/governanceAddress";
  for_each (fun name =>
    address ← verifier_contract st name false;
    governor ← call (raw_governor lcd address);
    ensure (bool_decide (governor = expected)) "unexpected governance authority")
    ["Coordinator"; "Router"; "Multisig"; "Rewards"; "InterchainTokenService"];;
  when (negb (deployment_uses_governance (st_env st)))
    (signer ← lift (ok_or (wallet_address (mnemonic st)) "invalid mnemonic");
     lift (validate_authority signer expected));;
  mret (wiring, rewards_denom).

(** [preflight::validate]; [lookup] is the process environment. *)
Definition preflight (fuel : nat) (lookup : string -> option string) (snapshot : InputSnapshot)
    (on_disk : option Journal) st (policy : EvmConfirmationPolicy) : M W PreflightResult :=
  p ← lift (ok_or (hardened_plan st) "missing hardened plan");
  lift (Plan.validate p);;
  lift (validate_steps st);;
  root ← call read_target_file;
  let chain := index (index root "chains") (axelar_id st) in
  lift (validate_chain_configuration st chain p);;
  id ← call eth_chain_id;
  ensure (id =? evm_chain_id p) "RPC is on the wrong EVM network";;
  lift (validate_salts st);;
  head ← call (eth_get_block (Policy.block_tag policy));
  ensure (bool_decide (is_Some head)) "RPC does not support the requested confirmation policy";;
  c ← read_axelar_config;
  ensure (gp_valid (tp_price c)) "invalid Cosmos gas price";;
  ensure (bool_decide (tp_chain_id c = axelar_chain_id p)) "Axelar configuration and plan chain IDs differ";;
  validate_lcd_network (tp_lcd c) (tp_chain_id c);;
  evm ← check_evm_keys st on_disk (evm_keys st) ∅;
  cosmos ← check_funding st on_disk (tp_lcd c) (tp_denom c);
  check_verifier_count st on_disk root (tp_lcd c);;
  lift (validate_lcd_override (lookup "AXELAR_LCD_URL") (tp_lcd c));;
  available_before_start fuel st (tp_lcd c);;
  '(wiring, denom) ← check_protocol st (tp_lcd c) (tp_denom c);
  protocols ← protocol_inputs root (tp_lcd c) protocol_names ∅;
  artifacts ← artifact_hashes st;
  gateway ← cosmos_code_hash (snap_codes snapshot) "Gateway";
  verifier ← cosmos_code_hash (snap_codes snapshot) "VotingVerifier";
  prover ← cosmos_code_hash (snap_codes snapshot) "MultisigProver";
  let fingerprint := fingerprint_json (mkFingerprintInputs p (st_env st) (axelar_id st)
    (cosmos ∪ evm) (cosm_salt st) (its_salt st) (its_proxy_salt st) chain (pi_address <$> protocols)
    wiring denom artifacts [gateway; verifier; prover]
    (index (index root "axelar") "governanceAddress")) in
  lift (check_fingerprint snapshot fingerprint);;
  mret (mkPreflight (keccak256 (json_bytes fingerprint)) fingerprint protocols).

Lemma readonly_protocol_inputs root lcd names m : readonly (protocol_inputs root lcd names m).
Proof. revert m. induction names as [|n names IH]; intros m; simpl; sread; apply IH. Qed.
Lemma readonly_artifact_hashes st : readonly (artifact_hashes st).
Proof.
  unfold artifact_hashes. apply readonly_bind; [sread|]. intros paths. generalize (∅ : gmap string B256).
  induction paths as [|n paths IH]; intros m; simpl; sread; apply IH.
Qed.
Lemma readonly_evm_keys st on_disk keys m : readonly (check_evm_keys st on_disk keys m).
Proof. revert m. induction keys as [|[n k] keys IH]; intros m; simpl; sread; apply IH. Qed.
Lemma readonly_balance lcd a d n : readonly (check_axelar_balance (E := E) lcd a d n).
Proof. unfold check_axelar_balance. sread. Qed.
Lemma readonly_check_funding st on_disk lcd denom : readonly (check_funding st on_disk lcd denom).
Proof.
  pose proof readonly_balance. unfold check_funding, proposal_deposit.
  repeat (apply readonly_bind; [solve [sread]|]; intros ?). sread.
Qed.
Lemma readonly_scan_chains fuel st lcd router after : readonly (scan_chains fuel st lcd router after).
Proof. revert after. induction fuel as [|fuel IH]; intros after; simpl; sread; apply IH. Qed.
Lemma readonly_available_before fuel st lcd : readonly (available_before_start fuel st lcd).
Proof. pose proof readonly_scan_chains. unfold available_before_start. sread. Qed.
Lemma readonly_when b (m : M W ()) : readonly m -> readonly (when b m).
Proof. destruct b; [done|]. intros _. apply readonly_ret. Qed.
Lemma readonly_check_protocol st lcd denom : readonly (check_protocol st lcd denom).
Proof.
  unfold check_protocol.
  repeat first [ apply readonly_all_match; repeat constructor; apply readonly_verifier_contract
               | apply readonly_when | progress sread ].
Qed.
Hint Resolve readonly_protocol_inputs readonly_artifact_hashes readonly_evm_keys readonly_check_funding
  readonly_available_before readonly_check_protocol : reads.

Lemma readonly_preflight fuel lookup snapshot on_disk st policy :
  readonly (preflight fuel lookup snapshot on_disk st policy).
Proof.
  unfold preflight, validate_lcd_network, check_verifier_count, verifier_service, cosmos_code_hash. sread.
Qed.
End Programs.

#[export] Hint Resolve readonly_preflight : reads.
