(* ===== verification/Runner.v ===== *)
(** * The deployment runner (hardened/runner.rs, governance.rs recover,
    confirmations.rs resolve)

    One run of [deploy run]: check the inputs and the environment, reconcile
    what the journal holds, check the checkpoints, then execute the pending
    steps one by one. *)

From S2P Require Import Prelude Types Journal Chain Machine Session Funding State Plan Config Intent EvmRecovery Json Cosmos Target Recovery Verifiers Checkpoints Context EvmSteps CosmosSteps Inputs Steps Checks Preflight.

(** Direct execution on a devnet admits no governance submissions. *)
Definition check_direct `{CosmosLib} (st : State) (transactions : list (string * Transaction))
    : result () :=
  if deployment_uses_governance (st_env st) then Ok ()
  else check_all (fun kv => if is_cosmos kv.2 then validate_submission kv.2 else Ok ()) transactions.

(** [confirmations::resolve]. *)
Definition resolve_policy (o : Options) (on_disk : option Journal) : EvmConfirmationPolicy :=
  match opt_evm_confirmations o with
  | Some policy => policy
  | None => match on_disk with
            | Some j => evm_confirmations j
            | None => Policy.default
            end
  end.

Definition is_paused (e : error) : bool := match e with Paused _ => true | _ => false end.

(** The scope of the runner itself, outside a step. *)
Definition outer (sess : Session) : Scope := mkScope (Some sess) "" "".

Section Programs.
Context {E : Type} `{Host E, EvmNode E, LcdNode E, DeployNode E, StepNode E, CosmosNode E, CheckNode E,
                     TargetFile E, ArtifactFiles E, InputFiles E, StepLib, MessageLib, InputLib, ConfigLib,
                     EvmLib, CosmosLib, CosmosAccounts, SignerLib}.
Abbreviation R := (Run E).
Implicit Types (sc : Scope) (sess : Session) (pins : Pins).

(** [governance::recover]. *)
Definition recover sc (name key : string) : M R bool :=
  zoom (current sc);;
  let action := (name +:+ "/cosmos")%string in
  found ← zoom (get_action action);
  match found with
  | Some (CosmosTx a b c d e f as saved) =>
      c ← zoom read_axelar_config;
      response ← zoom (cosmos_resume sc (tp_lcd c) saved action);
      st ← get_state;
      if deployment_uses_governance (st_env st) then
        id ← lift (extract_proposal_id response);
        modify_state (set_proposal key id);;
        mret true
      else
        lift (validate_submission saved);;
        mret true
  | _ => mret false
  end.

(** One journaled action at the start of [runner::execute]. *)
Definition reconcile_action (fuel : nat) sess lcd (kv : string * Transaction) : M R () :=
  let '(key, tx) := kv in
  st ← get_state;
  let step := step_of_key key in
  signer ← lift (signer_for st step);
  let sc := mkScope (Some sess) step signer in
  retired ← zoom (retry_failed fuel sc st key tx lcd);
  if retired : bool then mret ()
  else
    zoom (reconcile fuel sc key tx);;
    zoom (cosmos_reconcile sc st lcd key tx).

(** Whether a journaled governance submission already did the step's work. *)
Definition try_recover sc (step : Step) : M R bool :=
  match step_kind step with
  | CosmosTxStep key =>
      if bool_decide (key = "addRewards") then mret false else recover sc (step_name step) key
  | _ => mret false
  end.

(** [postconditions::check] of [ctx]. *)
Definition run_postconditions (fuel : nat) pins sc (completed : option string) : M R () :=
  st ← get_state; zoom (postconditions fuel pins sc st completed).

(** What a round of the step loop does before it completes the step. *)
Definition perform_step (fuel : nat) pins sess (index : nat) (step : Step) : M R () :=
  recovered ← try_recover (outer sess) step;
  when (negb recovered) (preview_show (outer sess) step);;
  st ← get_state;
  key ← lift (signer_for st (step_name step));
  let defaults := artifact_paths_for_step (step_name step) (inputs_root st) in
  when (negb recovered)
    (execute_step fuel pins (mkScope (Some sess) (step_name step) key) index step
       (fst <$> defaults) (defaults ≫= snd));;
  run_postconditions fuel pins (outer sess) (Some (step_name step));;
  st ← get_state;
  zoom (evidence_capture (outer sess) st).

(** The body of the step loop of [runner::execute]. *)
Definition run_step (fuel : nat) pins sess (index : nat) (step : Step) : M R () :=
  perform_step fuel pins sess index step;;
  complete_step index;;
  save_state.

(** The step loop of [runner::execute]. *)
Fixpoint run_steps (n fuel : nat) pins sess (activate : bool) : M R () :=
  match n with
  | O => throw OutOfFuel
  | S n =>
      st ← get_state;
      match next_pending_step st with
      | None => mret ()
      | Some (index, step) =>
          if bool_decide (step_name step = "WaitForVerifierSet") && negb activate then
            zoom (handoff_verifiers st);;
            throw (Paused "Deployment paused for verifier setup. Progress saved")
          else
            run_step fuel pins sess index step;;
            run_steps n fuel pins sess activate
      end
  end.

(** [runner::execute]. *)
Definition execute (fuel : nat) pins sess (activate : bool) : M R () :=
  j ← zoom read_journal;
  let transactions := btree_list (actions j) in
  st ← get_state;
  c ← zoom read_axelar_config;
  lift (validate_options (options sess) transactions);;
  lift (check_direct st transactions);;
  for_each (reconcile_action fuel sess (tp_lcd c)) transactions;;
  st ← get_state;
  zoom (evidence_check (outer sess) st);;
  run_postconditions fuel pins (outer sess) None;;
  run_steps (S (length (steps st))) fuel pins sess activate;;
  st ← get_state;
  ensure (all_completed (steps st)) "incomplete deployment";;
  zoom (completed_check (outer sess) st).

Variable lookup : string -> option string.
Variable url_scheme : string -> option string.

(** [runner::run_with_inputs]; [on_disk] is the content of journal.json. *)
Definition run_with_inputs (fuel : nat) (o : Options) (on_disk : option Journal)
    (snapshot : InputSnapshot) : M R () :=
  st ← get_state;
  lift (storage_directory st);;
  p ← lift (ok_or (hardened_plan st) "missing hardened plan");
  modify_state (load_missing_environment lookup);;
  try_modify (validate_state url_scheme);;
  prover_admin_validate;;
  st ← get_state;
  zoom (check_instantiate_permissions fuel (snap_codes snapshot) on_disk st);;
  when (activate o) (lift (validate_activation st));;
  let policy := resolve_policy o on_disk in
  checked ← zoom (preflight fuel lookup snapshot on_disk st policy);
  lift (validate_journal_presence st (bool_decide (is_Some on_disk)));;
  zoom (load_session on_disk (pf_fingerprint checked));;
  zoom (commit_inputs snapshot (pf_fingerprint_inputs checked));;
  let sess := mkSession p o in
  zoom (persist_policy policy);;
  modify_state (set_fingerprint (Some (pf_fingerprint checked)));;
  save_state;;
  zoom (approve_protocols (outer sess) (pf_protocols checked));;
  execute fuel (snap_codes snapshot) sess (activate o).

(** [reload_committed_state]: state.json replaces [ctx.state]. *)
Definition reload : M R () := fun r =>
  match reload_committed_state (rs r) (state_file r) with
  | Err e => (Err e, r)
  | Ok s => (Ok (), mkRun (rw r) s (state_file r))
  end.

(** [runner::run] once the locks are held. *)
Definition run_loaded (fuel : nat) (o : Options) (on_disk : option Journal) : M R () :=
  st ← get_state;
  lift (validate_journal_presence st (bool_decide (is_Some on_disk)));;
  snapshot ← zoom (prepare_inputs on_disk);
  run_with_inputs fuel o on_disk snapshot.

Definition run_body (fuel : nat) (o : Options) (on_disk : option Journal) : M R () :=
  reload;; run_loaded fuel o on_disk.

(** [runner::run]: a pause saves the state and ends the run without an
    error. *)
Definition run (fuel : nat) (o : Options) (on_disk : option Journal) : M R () := fun r =>
  match storage_directory (rs r) with
  | Err e => (Err e, r)
  | Ok _ =>
      match run_body fuel o on_disk r with
      | (Err e, r') => if is_paused e then save_state r' else (Err e, r')
      | (Ok u, r') => (Ok u, r')
      end
  end.
End Programs.

(** ** Every run keeps the journal's promises *)

Section Keeps.
Context {E : Type} `{Host E, EvmNode E, LcdNode E, DeployNode E, StepNode E, CosmosNode E, CheckNode E,
                     TargetFile E, ArtifactFiles E, InputFiles E, StepLib, MessageLib, InputLib, ConfigLib,
                     EvmLib, CosmosLib, CosmosAccounts, SignerLib}.
Abbreviation R := (Run E).
Implicit Types (sc : Scope) (sess : Session) (φ : Journal -> Prop).

Lemma safe_recover sc name key : safe (recover (E := E) sc name key).
Proof.
  unfold recover. apply safe_bind; [ssafe|]. intros s. apply safe_follow.
  intros init [[|a raw c d e f]|]; [apply hoareR_forget, hoareR_ret| |apply hoareR_forget, hoareR_ret].
  eapply hoare_bind; [apply hoareR_read; sread|]. intros c'.
  eapply hoare_bind; [apply hoareR_resume_recorded|]. intros response.
  revert init. change (safe (E := E) (st ← get_state;
      if deployment_uses_governance (st_env st) then
        id ← lift (extract_proposal_id response); modify_state (set_proposal key id);; mret true
      else lift (validate_submission (CosmosTx a raw c d e f));; mret true)). ssafe.
Qed.

Lemma safe_postconditions fuel pins sc completed :
  safe (run_postconditions (E := E) fuel pins sc completed).
Proof.
  unfold run_postconditions. apply safe_bind; [ssafe|]. intros st. apply safe_zoom. intros init.
  assert (forall m : M (World E) (), readonly m ->
    hoare (Has init any) m (fun _ => Has init any) (Safe init)) as Hread
    by (intros; apply hoare_readonly; [typeclasses eauto|done]).
  unfold postconditions.
  eapply hoare_bind; [apply Hread; apply readonly_when; sread|]. intros [].
  eapply hoare_bind.
  { unfold when. destruct (step_done st completed "AxelarGateway"); [by apply hoare_gateway_check|by hret]. }
  intros []. apply Hread. repeat first [apply readonly_when | progress sread].
Qed.

Lemma safe_capture sc st : safe (zoom (evidence_capture (E := E) sc st)).
Proof. apply safe_zoom. intros init. by apply hoare_evidence_capture. Qed.
Hint Resolve safe_recover safe_postconditions safe_capture : steps.

Lemma safe_perform_step fuel pins sess index step :
  safe (perform_step (E := E) fuel pins sess index step).
Proof. unfold perform_step, try_recover. ssafe. Qed.

Lemma safe_run_step fuel pins sess index step : safe (run_step (E := E) fuel pins sess index step).
Proof.
  unfold run_step. apply safe_bind; [apply safe_perform_step|]. intros [].
  apply safe_bind; [apply safe_complete_step|]. ssafe.
Qed.

Lemma safe_run_steps n fuel pins sess act : safe (run_steps (E := E) n fuel pins sess act).
Proof. pose proof safe_run_step. induction n as [|n IH]; cbn [run_steps]; ssafe. Qed.

(** *** Reconciling the journal *)

(** The listed transactions are the current ones of their actions. *)
Definition holds (l : list (string * Transaction)) (j : Journal) : Prop :=
  forall k tx, (k, tx) ∈ l -> actions j !! k = Some tx.

Lemma holds_frames k tx l act j :
  k ∉ l.*1 -> holds ((k, tx) :: l) (set_actions act j) -> frames k act j -> holds l j.
Proof.
  intros Hk Hl Hf k' tx' Hin. rewrite Hf.
  - apply (Hl k' tx'). set_solver.
  - intros ->. apply Hk. apply list_elem_of_fmap. by exists (k, tx').
Qed.

(** Reconciling one action leaves the other actions alone. *)
Lemma hoareR_reconcile_one init fuel sc st lcd key tx act :
  hoare (HasR init (owns key tx act))
    (zoom (reconcile (E := E) fuel sc key tx);; zoom (cosmos_reconcile sc st lcd key tx))
    (fun _ => HasR init (frames key act)) (SafeR init).
Proof.
  destruct tx as [i raw h s n g|i raw h s f q] eqn:Htx; rewrite <- Htx.
  - eapply hoare_bind; [apply hoareR_zoom, hoare_reconcile|]. intros []. rewrite Htx.
    apply hoareR_zoom. unfold cosmos_reconcile. by hret.
  - eapply (hoare_bind _ _ (fun _ => HasR init (owns key tx act))).
    { rewrite Htx. apply hoareR_zoom. unfold reconcile. by hret. }
    intros []. apply hoareR_zoom, hoare_cosmos_reconcile.
Qed.

Lemma hoareR_reconcile_action init fuel sess lcd key tx l :
  key ∉ l.*1 ->
  hoare (HasR init (holds ((key, tx) :: l))) (reconcile_action (E := E) fuel sess lcd (key, tx))
    (fun _ => HasR init (holds l)) (SafeR init).
Proof.
  intros Hk r Hr. set (act := actions (journal (rw r))).
  cut (hoare (HasR init (owns key tx act)) (reconcile_action fuel sess lcd (key, tx))
    (fun _ => HasR init (frames key act)) (SafeR init)).
  { intros Hh. destruct Hr as [Hw Hl].
    assert (HasR init (owns key tx act) r) as Hr.
    { split; [done|]. split; [apply Hl; set_solver|done]. }
    specialize (Hh r Hr). destruct (reconcile_action _ _ _ _ r) as [[u|e] r']; [|done].
    destruct Hh as [Hw' Hf]. split; [done|].
    eapply holds_frames; [done| |exact Hf]. intros k' tx' Hin. simpl. by apply Hl. }
  unfold reconcile_action. eapply hoare_bind; [apply hoareR_get_state|]. intros st.
  eapply hoare_bind; [apply hoareR_lift|]. intros signer. apply hoare_pure. intros _.
  eapply (hoare_bind _ _ (fun b r => b = false /\ HasR init (owns key tx act) r)).
  { exact (hoare_zoom _ _ _ _ (hoare_retry_failed init fuel _ st key tx lcd act)). }
  intros retired. apply hoare_pure. intros ->. apply hoareR_reconcile_one.
Qed.

Lemma hoareR_reconcile_all init fuel sess lcd l :
  NoDup l.*1 ->
  hoare (HasR init (holds l)) (for_each (reconcile_action (E := E) fuel sess lcd) l)
    (fun _ => HasR init any) (SafeR init).
Proof.
  induction l as [|[key tx] l IH]; intros Hnd; simpl.
  - eapply hoare_post; [apply hoareR_ret|]. intros u r [Hr _]. by apply Has_any.
  - apply list.NoDup_cons in Hnd as [Hk Hnd].
    eapply hoare_bind; [by apply hoareR_reconcile_action|]. intros []. by apply IH.
Qed.

Lemma btree_keys_nodup {V} (m : gmap string V) : NoDup (btree_list m).*1.
Proof. rewrite btree_list_perm. apply NoDup_fst_map_to_list. Qed.

Lemma hoareR_execute init fuel pins sess act :
  hoare (HasR init any) (execute (E := E) fuel pins sess act) (fun _ => HasR init any) (SafeR init).
Proof.
  unfold execute.
  eapply (hoare_bind _ _ (fun j r => HasR init (holds (btree_list (actions j))) r)).
  { apply (hoare_zoom _ _ (fun j => Has init (holds (btree_list (actions j))))).
    intros w Hw. destruct Hw as [Hw _]. split; [done|]. intros k tx Hin.
    by apply elem_of_btree_list. }
  intros j. eapply hoare_bind; [apply hoareR_get_state|]. intros st.
  eapply hoare_bind; [apply hoareR_read; sread|]. intros c.
  eapply hoare_bind; [apply hoareR_lift|]. intros u1. apply hoare_pure. intros _.
  eapply hoare_bind; [apply hoareR_lift|]. intros u2. apply hoare_pure. intros _.
  eapply hoare_bind; [apply hoareR_reconcile_all, btree_keys_nodup|]. intros [].
  eapply hoare_bind; [apply hoareR_get_state|]. intros st'.
  eapply hoare_bind; [apply hoareR_zoom, hoare_evidence_check; typeclasses eauto|]. intros [].
  eapply hoare_bind; [apply safe_postconditions|]. intros [].
  eapply hoare_bind; [apply safe_run_steps|]. intros [].
  eapply hoare_bind; [apply hoareR_get_state|]. intros st''.
  eapply hoare_bind; [apply hoareR_lift|]. intros u3. apply hoare_pure. intros _.
  by apply hoareR_zoom, hoare_completed_check.
Qed.
End Keeps.

(** ** Whole runs, crashes and restarts *)

(** The journal a run starts from: the file, or, when there is none, a journal
    without transactions. *)
Definition starts (on_disk : option Journal) (init : Journal) : Prop :=
  match on_disk with
  | Some j => init = j
  | None => actions init = ∅ /\ attempts init = ∅ /\ confirmations init = ∅
  end.

Section Runs.
Context {E : Type} `{Host E, EvmNode E, LcdNode E, DeployNode E, StepNode E, CosmosNode E, CheckNode E,
                     TargetFile E, ArtifactFiles E, InputFiles E, StepLib, MessageLib, InputLib, ConfigLib,
                     EvmLib, CosmosLib, CosmosAccounts, SignerLib}.
Abbreviation R := (Run E).
Variable lookup : string -> option string.
Variable url_scheme : string -> option string.

Lemma hoare_load_session init on_disk fp :
  starts on_disk init ->
  hoare (Has (E := E) init (fun j => j = init)) (load_session on_disk fp)
    (fun _ => Has init any) (Safe init).
Proof.
  intros Hs. unfold load_session.
  eapply (hoare_bind _ _ (fun j w => same_transactions init j /\ Has init (fun j => j = init) w)).
  - destruct on_disk as [j|]; simpl in Hs.
    + subst j. hstep as u1 Hv. hstep as u2 Hf. by hret.
    + destruct Hs as (Ha & Hb & Hc). hret. split; [|done]. repeat split; simpl; done.
  - intros j. apply hoare_pure. intros Hsame w Hw.
    apply (hoare_commit init (fun j' => j' = init) any (fun _ => j)); [|done].
    intros V j' ->. split; [|done]. by apply js_meta.
Qed.

Lemma hoareR_prover_admin init φ :
  hoare (HasR init φ) (prover_admin_validate (E := E)) (fun _ => HasR init φ) (SafeR init).
Proof.
  unfold prover_admin_validate. eapply hoare_bind; [apply hoareR_get_state|]. intros st.
  eapply hoare_bind; [apply hoareR_lift|]. intros p. apply hoare_pure. intros _.
  eapply hoare_bind; [apply hoareR_read; sread|]. intros config.
  eapply hoare_bind; [apply hoareR_lift|]. intros address. apply hoare_pure. intros _.
  eapply (hoare_bind _ _ (fun _ => HasR init φ)).
  { destruct address as [prover|]; [|apply hoareR_ret].
    eapply hoare_bind; [apply hoareR_lift|]. intros lcd. apply hoare_pure. intros _.
    apply hoareR_read. sread. }
  intros expected. eapply hoare_bind; [apply hoareR_lift|]. intros m. apply hoare_pure. intros _.
  apply hoareR_modify_state.
Qed.

Lemma hoareR_run_with_inputs init fuel o on_disk snapshot :
  starts on_disk init ->
  hoare (HasR init (fun j => j = init))
    (run_with_inputs (E := E) lookup url_scheme fuel o on_disk snapshot)
    (fun _ => HasR init any) (SafeR init).
Proof.
  intros Hs. unfold run_with_inputs.
  eapply hoare_bind; [apply hoareR_get_state|]. intros st.
  eapply hoare_bind; [apply hoareR_lift|]. intros u0. apply hoare_pure. intros _.
  eapply hoare_bind; [apply hoareR_lift|]. intros p. apply hoare_pure. intros _.
  eapply hoare_bind; [apply hoareR_modify_state|]. intros [].
  eapply hoare_bind; [apply hoareR_try_modify|]. intros [].
  eapply hoare_bind; [apply hoareR_prover_admin|]. intros [].
  eapply hoare_bind; [apply hoareR_get_state|]. intros st1.
  eapply hoare_bind; [apply hoareR_read; sread|]. intros u1.
  eapply hoare_bind.
  { apply hoareR_when. eapply hoare_post; [apply hoareR_lift|]. by intros u r [_ ?]. }
  intros []. eapply hoare_bind; [apply hoareR_read; sread|]. intros checked.
  eapply hoare_bind; [apply hoareR_lift|]. intros u3. apply hoare_pure. intros _.
  eapply hoare_bind; [by apply hoareR_zoom, hoare_load_session|]. intros [].
  eapply (hoare_bind _ _ (fun _ => HasR init any)).
  { apply hoareR_zoom. unfold commit_inputs.
    eapply hoare_bind; [apply hoare_read_plain|]. intros j.
    destruct (inputs_hash j); [by hret|]. hstep. intros []. by apply hoare_commit_meta. }
  intros []. eapply hoare_bind; [by apply hoareR_zoom, hoare_commit_meta|]. intros [].
  eapply hoare_bind; [apply hoareR_modify_state|]. intros [].
  eapply hoare_bind; [apply hoareR_save_state|]. intros [].
  eapply hoare_bind; [by apply hoareR_zoom, hoare_approve_protocols|]. intros [].
  by apply hoareR_execute.
Qed.

Lemma hoareR_run_body init fuel o on_disk :
  starts on_disk init ->
  hoare (HasR init (fun j => j = init)) (run_body (E := E) lookup url_scheme fuel o on_disk)
    (fun _ => HasR init any) (SafeR init).
Proof.
  intros Hs. unfold run_body, run_loaded.
  eapply (hoare_bind _ _ (fun _ => HasR init (fun j => j = init))).
  { intros r' Hr'. unfold reload. destruct (reload_committed_state _ _); [done|by apply HasR_safe in Hr']. }
  intros []. eapply hoare_bind; [apply hoareR_get_state|]. intros st'.
  eapply hoare_bind; [apply hoareR_lift|]. intros u. apply hoare_pure. intros _.
  eapply hoare_bind; [apply hoareR_read; sread|]. intros snapshot. by apply hoareR_run_with_inputs.
Qed.

(** Whatever a run does and however it ends, the session stays safe. *)
Lemma run_safe init fuel o on_disk r :
  starts on_disk init -> HasR init (fun j => j = init) r ->
  SafeR init (run (E := E) lookup url_scheme fuel o on_disk r).2.
Proof.
  intros Hs Hr. pose proof (hoareR_run_body init fuel o on_disk Hs r Hr) as Hbody. unfold run.
  destruct (storage_directory (rs r)); [|by apply HasR_safe in Hr].
  destruct (run_body _ _ _ _ _ r) as [[u|e] r']; simpl in *; [by apply HasR_safe in Hbody|].
  destruct (is_paused e); [|done]. unfold save_state.
  destruct (disk_write (env (rw r'))) as [[] e']; done.
Qed.

(** The state of a run about to start. *)
Definition start_run (e : E) (init : Journal) (st : State) (file : option State) : R :=
  mkRun (mkWorld e init init []) st file.

(** What the outside saw of a run, newest event first. *)
Definition run_trace (fuel : nat) (o : Options) (on_disk : option Journal) (e : E)
    (init : Journal) (st : State) (file : option State) : list event :=
  trace (rw (run lookup url_scheme fuel o on_disk (start_run e init st file)).2).

Lemma run_trace_good fuel o on_disk e init st file :
  starts on_disk init -> good init (run_trace fuel o on_disk e init st file).
Proof.
  intros Hs. apply (run_safe init fuel o on_disk (start_run e init st file)); [done|].
  split; [by apply Inv_fresh|done].
Qed.

(** The journal on disk after any number of runs, each cut by a crash at any
    point: the next run starts from what the disk then holds.  The list is
    what passed between the runs and the outside, newest first. *)
Inductive lifetime (init : Journal) : list event -> Journal -> Prop :=
  | lt_start : lifetime init [] init
  | lt_run hist j on_disk fuel o e st file later earlier :
      lifetime init hist j -> starts on_disk j ->
      run_trace fuel o on_disk e j st file = later ++ earlier ->
      lifetime init (earlier ++ hist) (disk_of j earlier).

Lemma lifetime_path init hist j : lifetime init hist j -> rtc (jstep (observed hist)) init j.
Proof.
  induction 1 as [|hist j on_disk fuel o e st file later earlier Hl IH Hs Ht]; [constructor|].
  pose proof (run_trace_good fuel o on_disk e j st file Hs) as Hg.
  rewrite Ht in Hg. apply good_suffix, good_disk_path in Hg.
  etrans; (eapply jpath_mono; [|eassumption]); intros h c; apply observed_mono; set_solver.
Qed.
End Runs.
