(* ===== verification/Safety.v ===== *)
(** * What a deployment guarantees

    The theorems about the journal and the chains over whole runs: they hold
    for every behaviour of the nodes, the files, the operator, the clock and
    the disk, at every point where a run can be cut, and over any number of
    restarts. *)

From S2P Require Import Prelude Types Journal Chain Machine Session Funding State Plan Config Intent EvmRecovery Json Cosmos Target Recovery Verifiers Checkpoints Context EvmSteps CosmosSteps Inputs Steps Checks Preflight Runner.

Section Safety.
Context {E : Type} `{Host E, EvmNode E, LcdNode E, DeployNode E, StepNode E, CosmosNode E, CheckNode E,
                     TargetFile E, ArtifactFiles E, InputFiles E, StepLib, MessageLib, InputLib, ConfigLib,
                     EvmLib, CosmosLib, CosmosAccounts, SignerLib}.
Abbreviation R := (Run E).
Variable lookup : string -> option string.
Variable url_scheme : string -> option string.

Abbreviation trace_of := (run_trace lookup url_scheme).
Abbreviation lifetime := (Runner.lifetime lookup url_scheme).

(** C1: write-ahead.  At the moment a run broadcasts bytes, EVM or Cosmos,
    the journal file holds a transaction with exactly these bytes; and bytes
    that are only simulated carry no signature. *)
Theorem write_ahead fuel o on_disk e init st file later ev earlier :
  starts on_disk init ->
  trace_of fuel o on_disk e init st file = later ++ ev :: earlier ->
  match ev with
  | SentEvm raw | SentCosmos raw => on_record raw (disk_of init earlier)
  | Simulated raw => unsigned raw
  | Wrote _ | Asked _ _ | GotReceipt _ _ | GotBlock _ _ | GotTx _ _ _ _ => True
  end.
Proof.
  intros Hs Ht. pose proof (run_trace_good lookup url_scheme fuel o on_disk e init st file Hs) as Hg.
  rewrite Ht in Hg. apply good_suffix in Hg. destruct ev; try done; by destruct Hg.
Qed.

(** C2: refinement.  Every journal a run writes is the one on disk before it,
    with confirmations added that the nodes answered earlier in the run, and
    then one transition of the abstract machine: record a new action, replace
    a transaction at its own nonce with the same intent, retire one whose
    competitor has a saved confirmation of its failure, save confirmations
    that the nodes answered, or change no transaction.  No confirmation comes
    from anywhere but a node's answer for that hash. *)
Theorem journal_refines_machine fuel o on_disk e init st file later j earlier :
  starts on_disk init ->
  trace_of fuel o on_disk e init st file = later ++ Wrote j :: earlier ->
  exists j1, absorbs (observed earlier) (disk_of init earlier) j1 /\ jstep (observed earlier) j1 j.
Proof.
  intros Hs Ht. pose proof (run_trace_good lookup url_scheme fuel o on_disk e init st file Hs) as Hg.
  rewrite Ht in Hg. apply good_suffix in Hg. by destruct Hg.
Qed.

Lemma lifetime_known init hist j :
  lifetime init hist j -> rtc (jstep (known init hist)) init j /\ sourced (known init hist) init.
Proof.
  intros Hl%lifetime_path. split; [|by left].
  eapply jpath_mono; [|exact Hl]. by right.
Qed.

(** C3: at most once.  Take a deployment started without attempts, run and
    crashed any number of times.  On chains that include at most one
    transaction per account nonce, and where a transaction that a node
    answered as included and failed used up its nonce, at most one of the
    transactions ever signed for an action succeeds. *)
Theorem at_most_once init hist j (succeeded : Transaction -> Prop) :
  lifetime init hist j -> attempts init = ∅ ->
  (forall a b, succeeded a -> succeeded b -> group_of a = group_of b -> raw_of a = raw_of b) ->
  (forall key failed c, failed ∈ recorded j key -> known init hist (hash_key failed) c ->
     proves_failure c = true -> forall a, group_of a = group_of failed -> ~ succeeded a) ->
  forall key a b, a ∈ recorded j key -> b ∈ recorded j key ->
    succeeded a -> succeeded b -> raw_of a = raw_of b.
Proof.
  intros [Hp Hsrc]%lifetime_known Hempty Hone Hreal key a b Ha Hb Hsa Hsb.
  assert (forall x, x ∈ recorded j key -> settled (known init hist) j key x) as Hset.
  { apply (path_all_settled _ _ _ _ Hp Hsrc). intros x Hx. unfold recorded, attempts_of in Hx.
    rewrite Hempty in Hx. right. exists x. split; [|done].
    destruct (actions init !! key); simpl in Hx; set_solver. }
  assert (forall x, x ∈ recorded j key -> succeeded x ->
    exists cur, actions j !! key = Some cur /\ group_of cur = group_of x) as Hcur.
  { intros x Hx Hsx. destruct (Hset x Hx) as [(failed & c & Hin & Hg & Hk & Hf)|?]; [|done].
    exfalso. by apply (Hreal key failed c Hin Hk Hf x). }
  destruct (Hcur a Ha Hsa) as (cur & Hc & Hga). destruct (Hcur b Hb Hsb) as (cur' & Hc' & Hgb).
  apply Hone; congruence.
Qed.

(** C5: nothing is forgotten.  Over any number of runs and crashes, a
    transaction the journal recorded for an action stays on record for it:
    current, replaced or retired. *)
Theorem recorded_forever init hist j key :
  lifetime init hist j -> recorded init key ⊆ recorded j key.
Proof. intros Hp%lifetime_path. by eapply jpath_recorded. Qed.

(** C4: an action is cleared for a new attempt only on proof of failure.  If
    an action has a transaction at one point of a deployment and none at a
    later one, then a transaction recorded for that action at the same account
    nonce was included and failed: a node answered so in between, for that
    transaction's hash, or the journal had the confirmation at the start. *)
Theorem cleared_only_on_proof init hist j key tx :
  lifetime init hist j -> actions init !! key = Some tx -> actions j !! key = None ->
  exists failed c,
    failed ∈ recorded j key /\ group_of failed = group_of tx /\
    known init hist (hash_key failed) c /\ proves_failure c = true.
Proof.
  intros [Hp Hsrc]%lifetime_known Hsome Hnone.
  assert (settled (known init hist) j key tx) as [Hd|(cur & Hcur & _)]; [|done|congruence].
  apply (path_settled _ _ _ _ _ Hp Hsrc). right. by exists tx.
Qed.
End Safety.
