(* ===== verification/Progress.v ===== *)
(** * The progress of a deployment over a run

    What any run, however it ends, does to the steps of the deployment, in
    memory and in state.json: completed steps stay completed and in front, the
    approved plan stays satisfied, the verifier checkpoint is only passed by a
    run with [--activate], and a run that ends without an error has saved what
    it did. *)

From S2P Require Import Prelude Types Journal Chain Machine Session Funding State Plan Config Intent EvmRecovery Json Cosmos Target Recovery Verifiers Checkpoints Context EvmSteps CosmosSteps Inputs Steps Checks Preflight Runner.

(** ** Advancing states *)

(** The step is kept, or completed if its name may be. *)
Definition step_advanced (may : string -> Prop) (a b : Step) : Prop :=
  step_name b = step_name a /\
  (forall e, same_kind e (step_kind a) -> same_kind e (step_kind b)) /\
  (step_status b = step_status a \/ (step_status b = Completed /\ may (step_name a))).

Definition advances (may : string -> Prop) (s s' : State) : Prop :=
  hardened_plan s' = hardened_plan s /\ Forall2 (step_advanced may) (steps s) (steps s') /\
  (sequential (steps s) = true -> sequential (steps s') = true).

#[export] Instance step_advanced_preorder may : PreOrder (step_advanced may).
Proof.
  split.
  - intros a. repeat split; auto.
  - intros a b c (Hn & Hk & Hs) (Hn' & Hk' & Hs'). split; [congruence|]. split; [auto|].
    rewrite Hn in Hs'. destruct Hs' as [Hs'|?]; [|by right].
    rewrite Hs'. destruct Hs as [?|[? ?]]; [by left|by right].
Qed.

#[export] Instance advances_preorder may : PreOrder (advances may).
Proof.
  split.
  - intros s. split; [done|]. split; [|done]. by apply list.Forall_Forall2_diag, list.Forall_forall.
  - intros a b c (Hp & Hs & Hq) (Hp' & Hs' & Hq'). split; [congruence|]. split; [by etrans|auto].
Qed.

Lemma outputs_only_statuses s s' :
  outputs_only s s' -> step_status <$> steps s' = step_status <$> steps s.
Proof.
  intros [_ Hf]. induction Hf as [|a b l k (_ & Hs & _) Hf IH]; simpl; [done|]. f_equal; [exact Hs|exact IH].
Qed.

Lemma outputs_only_advances may s s' : outputs_only s s' -> advances may s s'.
Proof.
  intros Ho. split; [apply Ho|]. split.
  - destruct Ho as [_ Hf]. eapply list.Forall2_impl; [exact Hf|]. intros a b (Hn & Hs & Hk). split; auto.
  - by rewrite (sequential_status _ _ (outputs_only_statuses _ _ Ho)).
Qed.

(** The next pending step is found by the statuses alone. *)
Lemma find_pending_status l l' i n s :
  step_status <$> l' = step_status <$> l -> find_pending i l = Some (n, s) ->
  exists s', find_pending i l' = Some (n, s').
Proof.
  revert l' i. induction l as [|x l IH]; intros [|y l'] i; simpl; try done.
  intros [= Hs Hl]. rewrite Hs. case_decide; [intros [= <- <-]; eauto|]. by apply IH.
Qed.

Lemma complete_advances may s i st s' :
  next_pending_step s = Some (i, st) -> may (step_name st) -> mark_step_completed s i = Some s' ->
  advances may s s'.
Proof.
  unfold next_pending_step. intros (k & -> & Hk & Hs & Ht)%find_pending_spec Hmay. simpl.
  rewrite (mark_step_completed_at _ _ _ Hk). intros [= <-].
  split; [done|]. split; simpl.
  - assert (Forall2 (step_advanced may) (steps s) (steps s)) as Hrefl by (by apply list.Forall_Forall2_diag, list.Forall_forall).
    eapply Forall2_insert_r'; [exact Hrefl|exact Hk|]. intros a (Hn & Hkind & Hst).
    split; [done|]. split; [done|]. right. split; [done|]. by rewrite <- Hn.
  - apply (complete_next _ _ _ Hk Hs Ht).
Qed.

Lemma advances_valid may s s' :
  advances may s s' -> validate_steps s = Ok () -> validate_steps s' = Ok ().
Proof.
  rewrite !validate_steps_iff. intros (Hp & Hf & Hq) (p & Hplan & Hl & Hseq). exists p.
  split; [congruence|]. split; [|auto].
  eapply list.Forall2_trans; [|exact Hl|exact Hf].
  intros e a b [He Hk] (Hn & Hk' & _). split; [congruence|auto].
Qed.

(** [persisted] keeps what these relations look at. *)
Lemma persisted_valid s : validate_steps (persisted s) = validate_steps s.
Proof. done. Qed.

Lemma advances_persisted may s s' : advances may s s' -> advances may s (persisted s').
Proof. done. Qed.

Lemma reload_some ctx f s : reload_committed_state ctx (Some f) = Ok s -> s = f.
Proof. simpl. by intros (u & _ & [= <-])%result_bind_ok. Qed.

(** ** Runs *)

Section Runs.
Context {E : Type} `{Host E, EvmNode E, LcdNode E, DeployNode E, StepNode E, CosmosNode E, CheckNode E,
                     TargetFile E, ArtifactFiles E, InputFiles E, StepLib, MessageLib, InputLib, ConfigLib,
                     EvmLib, CosmosLib, CosmosAccounts, SignerLib}.
Abbreviation R := (Run E).
Implicit Types (sc : Scope) (sess : Session).

Lemma tame_recover sc name key : tame (recover (E := E) sc name key).
Proof. unfold recover. stame. Qed.
Lemma tame_postconditions fuel pins sc completed :
  tame (run_postconditions (E := E) fuel pins sc completed).
Proof. unfold run_postconditions. stame. Qed.
Hint Resolve tame_recover tame_postconditions : steps.
Lemma tame_perform_step fuel pins sess index step :
  tame (perform_step (E := E) fuel pins sess index step).
Proof. unfold perform_step, try_recover. stame. Qed.

Lemma tame_advances {A} may (m : M R A) : tame m -> moves (advances may) m.
Proof. apply moves_weaken. intros s s'. apply outputs_only_advances. Qed.

(** The steps a run may complete. *)
Definition gate (activate : bool) (name : string) : Prop :=
  name = "WaitForVerifierSet" -> activate = true.

Lemma run_step_advances may fuel pins sess index step r :
  next_pending_step (rs r) = Some (index, step) -> may (step_name step) ->
  moves_at (advances may) (run_step (E := E) fuel pins sess index step) r.
Proof.
  intros Hn Hmay. unfold run_step. pose proof (tame_perform_step fuel pins sess index step) as Ht.
  apply moves_at_bind; [apply _|by apply tame_advances|]. intros [] _.
  destruct (Ht r) as [Ho _].
  destruct (perform_step fuel pins sess index step r) as [x r1]; simpl in *.
  apply moves_at_bind; [apply _| |intros [] _; apply moves_save_state, _].
  unfold moves_at, complete_step. destruct (mark_step_completed (rs r1) index) as [s'|] eqn:Hm;
    simpl; [|split; [done|by left]]. split; [|by left].
  destruct (find_pending_status _ _ _ _ _ (outputs_only_statuses _ _ Ho) Hn) as [step' Hn'].
  eapply complete_advances; [exact Hn'| |exact Hm].
  unfold next_pending_step in Hn. apply find_pending_spec in Hn as (k & -> & Hk & _).
  apply find_pending_spec in Hn' as (k' & Heq & Hk' & _). simpl in *. subst k'.
  destruct Ho as [_ Hf]. eapply Forall2_lookup_lr in Hf as (Hname & _); [|exact Hk|exact Hk'].
  by rewrite Hname.
Qed.

Lemma run_steps_advance n fuel pins sess act :
  moves (advances (gate act)) (run_steps (E := E) n fuel pins sess act).
Proof.
  induction n as [|n IH]; intros r; cbn [run_steps]; [by apply (moves_same _)|].
  apply moves_at_bind; [apply _|by apply (moves_same _)|]. intros st [= <-]. simpl.
  destruct (next_pending_step (rs r)) as [[index step]|] eqn:Hn; [|by apply (moves_same _)].
  destruct (bool_decide _ && _) eqn:Hg.
  { apply moves_at_bind; [apply _|apply moves_zoom, _|]. intros [] _. by apply (moves_same _). }
  apply moves_at_bind; [apply _| |intros [] _; apply IH].
  apply run_step_advances; [done|]. intros Hname. rewrite bool_decide_true in Hg by done.
  by destruct act.
Qed.

Lemma execute_advances fuel pins sess act :
  moves (advances (gate act)) (execute (E := E) fuel pins sess act).
Proof.
  unfold execute.
  repeat first
    [ apply run_steps_advance
    | apply moves_bind; [apply _| |intros ?]
    | apply tame_advances; solve [unfold reconcile_action; stame] ].
Qed.

Variable lookup : string -> option string.
Variable url_scheme : string -> option string.

Lemma validate_state_keeps s s' :
  validate_state url_scheme s = Ok s' -> hardened_plan s' = hardened_plan s /\ steps s' = steps s.
Proof. unfold validate_state. by intros (u & _ & [= <-])%result_bind_ok. Qed.

Lemma tame_validate_state : tame (try_modify (E := E) (validate_state url_scheme)).
Proof. apply moves_try_modify; [apply _|]. intros s s' [Hp Hs]%validate_state_keeps. by apply outputs_only_same. Qed.

Lemma run_with_inputs_advances fuel o on_disk snapshot :
  moves (advances (gate (activate o))) (run_with_inputs (E := E) lookup url_scheme fuel o on_disk snapshot).
Proof.
  unfold run_with_inputs.
  repeat first
    [ apply execute_advances
    | apply tame_advances, tame_prover_admin
    | apply moves_bind; [apply _| |intros ?]
    | apply tame_advances, tame_validate_state
    | apply tame_advances; solve [stame] ].
Qed.

Lemma run_loaded_advances fuel o on_disk :
  moves (advances (gate (activate o))) (run_loaded (E := E) lookup url_scheme fuel o on_disk).
Proof.
  unfold run_loaded.
  repeat first [ apply run_with_inputs_advances | apply moves_bind; [apply _| |intros ?]
               | apply tame_advances; solve [stame] ].
Qed.

(** What a run leaves in state.json. *)
Definition file_after (fuel : nat) (o : Options) (on_disk : option Journal) (e : E) (init : Journal)
    (st : State) (file : option State) : option State :=
  state_file (run lookup url_scheme fuel o on_disk (start_run e init st file)).2.

Lemma run_saves fuel o on_disk e init st file :
  file_after fuel o on_disk e init st file = file \/
  exists base s, reload_committed_state st file = Ok base /\
    file_after fuel o on_disk e init st file = Some (persisted s) /\
    advances (gate (activate o)) base s.
Proof.
  unfold file_after, run. destruct (storage_directory _); [|by left].
  set (r := start_run e init st file).
  assert ((exists err, run_body lookup url_scheme fuel o on_disk r = (Err (Failed err), r)) \/
    exists base, reload_committed_state st file = Ok base /\
      let r' := (run_body lookup url_scheme fuel o on_disk r).2 in
      advances (gate (activate o)) base (rs r') /\
      (state_file r' = file \/ exists s, state_file r' = Some (persisted s) /\
         advances (gate (activate o)) base s)) as Hbody.
  { unfold run_body, mbind, M_bind, reload. simpl.
    destruct (reload_committed_state st file) as [base|err] eqn:Hr.
    - right. exists base. split; [done|].
      exact (run_loaded_advances fuel o on_disk (mkRun (mkWorld e init init []) base file)).
    - left. unfold reload_committed_state in Hr. destruct file as [f|]; [|done].
      unfold ensure_ok in Hr. destruct (_ && _); [done|]. injection Hr as <-. eauto. }
  destruct Hbody as [(err & ->)|(base & Hbase & Hadv & Hfile)]; [by left|].
  destruct (run_body lookup url_scheme fuel o on_disk r) as [[u|err] r'] eqn:Hrun; simpl in *.
  - destruct Hfile as [?|(s & ? & ?)]; [by left|right; eauto].
  - destruct (is_paused err); simpl.
    + unfold save_state. destruct (disk_write (env (rw r'))) as [[] e']; simpl;
        [right; eauto| |right; eauto].
      destruct Hfile as [?|(s & ? & ?)]; [by left|right; eauto].
    + destruct Hfile as [?|(s & ? & ?)]; [by left|right; eauto].
Qed.

(** C6: a run, whatever becomes of it, leaves a state.json the next one
    accepts: if the saved steps satisfied the approved plan, so do the ones
    saved now, and the steps of the plan that were completed still are. *)
Theorem run_keeps_plan fuel o on_disk e init st f :
  validate_steps f = Ok () ->
  exists f', file_after fuel o on_disk e init st (Some f) = Some f' /\
    validate_steps f' = Ok () /\ hardened_plan f' = hardened_plan f /\
    forall i s, steps f !! i = Some s -> step_status s = Completed ->
      exists s', steps f' !! i = Some s' /\ step_name s' = step_name s /\ step_status s' = Completed.
Proof.
  intros Hv. destruct (run_saves fuel o on_disk e init st (Some f)) as [->|(base & s & Hb & -> & Ha)].
  { exists f. do 3 (split; [done|]). eauto. }
  apply reload_some in Hb as ->. exists (persisted s). split; [done|].
  split; [by eapply advances_valid|]. destruct Ha as (Hp & Hf & _). split; [done|].
  intros i a Hi Hs. destruct (Forall2_lookup_l _ _ _ _ _ Hf Hi) as (b & Hb & Hn & _ & Hst).
  exists b. split; [done|]. split; [done|]. destruct Hst as [->|[? _]]; done.
Qed.

(** C7: the verifier checkpoint is passed only on request.  A run without
    [--activate] leaves the status of [WaitForVerifierSet] in state.json as it
    was, on every path through the run. *)
Theorem checkpoint_needs_activate fuel o on_disk e init st f f' i s :
  activate o = false -> steps f !! i = Some s -> step_name s = "WaitForVerifierSet" ->
  file_after fuel o on_disk e init st (Some f) = Some f' ->
  exists s', steps f' !! i = Some s' /\ step_name s' = "WaitForVerifierSet" /\
    step_status s' = step_status s.
Proof.
  intros Hact Hi Hname Hfile.
  destruct (run_saves fuel o on_disk e init st (Some f)) as [Heq|(base & x & Hb & Heq & _ & Hf & _)].
  { rewrite Heq in Hfile. injection Hfile as <-. eauto. }
  apply reload_some in Hb as ->. rewrite Heq in Hfile. injection Hfile as <-.
  destruct (Forall2_lookup_l _ _ _ _ _ Hf Hi) as (b & Hb & Hn & _ & Hst).
  exists b. split; [done|]. split; [congruence|]. destruct Hst as [?|[_ Hg]]; [done|].
  specialize (Hg Hname). congruence.
Qed.

(** *** A run that ends without an error has saved its progress *)

Definition saved (r : R) : Prop := state_file r = Some (persisted (rs r)).
Abbreviation anyway := (fun _ : R => True).

Lemma saved_zoom {A} (m : M (World E) A) : hoare saved (zoom m) (fun _ => saved) anyway.
Proof. intros r Hr. unfold zoom. by destruct (m (rw r)) as [[a|e] w]. Qed.
Lemma saved_lift {A} (x : result A) : hoare saved (lift x) (fun _ => saved) anyway.
Proof. intros r Hr. by destruct x. Qed.
Lemma saved_get_state : hoare saved get_state (fun st r => saved r /\ rs r = st) anyway.
Proof. by intros r Hr. Qed.
Lemma saved_save_state : hoare anyway save_state (fun _ => saved) anyway.
Proof. intros r _. unfold save_state. by destruct (disk_write (env (rw r))) as [[] e]. Qed.

Lemma saved_run_step fuel pins sess index step :
  hoare anyway (run_step fuel pins sess index step) (fun _ => saved) anyway.
Proof.
  unfold run_step. eapply (hoare_bind _ _ (fun _ => anyway)).
  { intros r _. by destruct (perform_step fuel pins sess index step r) as [[]]. }
  intros []. eapply (hoare_bind _ _ (fun _ => anyway)); [|intros []; apply saved_save_state].
  intros r _. unfold complete_step. by destruct (mark_step_completed (rs r) index).
Qed.

Lemma saved_run_steps n fuel pins sess act :
  hoare saved (run_steps n fuel pins sess act) (fun _ => saved) anyway.
Proof.
  induction n as [|n IH]; cbn [run_steps]; [by intros r Hr|].
  eapply hoare_bind; [apply saved_get_state|]. intros st r [Hr _]. revert r Hr.
  change (hoare saved match next_pending_step st with
    | None => mret () | Some (index, step) =>
      if bool_decide (step_name step = "WaitForVerifierSet") && negb act then
        zoom (handoff_verifiers st);; throw (Paused "Deployment paused for verifier setup. Progress saved")
      else run_step fuel pins sess index step;; run_steps n fuel pins sess act end
    (fun _ => saved) anyway).
  destruct (next_pending_step st) as [[index step]|]; [|by intros r Hr].
  destruct (bool_decide _ && _).
  - eapply hoare_bind; [apply saved_zoom|]. intros []. by intros r Hr.
  - eapply (hoare_bind _ _ (fun _ => saved)); [|intros []; apply IH].
    intros r _. by apply saved_run_step.
Qed.

Lemma saved_reconcile fuel sess lcd l :
  hoare saved (for_each (reconcile_action (E := E) fuel sess lcd) l) (fun _ => saved) anyway.
Proof.
  apply hoare_for_each. intros [key tx] _. unfold reconcile_action.
  eapply hoare_bind; [apply saved_get_state|]. intros st.
  eapply (hoare_bind _ _ (fun _ => saved)); [by intros r [Hr _]; apply saved_lift|]. intros signer.
  eapply hoare_bind; [apply saved_zoom|]. intros []; [by intros r Hr|].
  eapply hoare_bind; [apply saved_zoom|]. intros []. apply saved_zoom.
Qed.

Lemma saved_execute fuel pins sess act :
  hoare saved (execute fuel pins sess act)
    (fun _ r => saved r /\ all_completed (steps (rs r)) = true) anyway.
Proof.
  assert (forall completed, hoare saved (run_postconditions fuel pins (outer sess) completed)
    (fun _ => saved) anyway) as Hpost.
  { intros completed. unfold run_postconditions. eapply hoare_bind; [apply saved_get_state|].
    intros st r [Hr _]. by apply saved_zoom. }
  unfold execute. eapply hoare_bind; [apply saved_zoom|]. intros j.
  eapply hoare_bind; [apply saved_get_state|]. intros st.
  eapply (hoare_bind _ _ (fun _ => saved)); [by intros r [Hr _]; apply saved_zoom|]. intros c.
  eapply hoare_bind; [apply saved_lift|]. intros u1.
  eapply hoare_bind; [apply saved_lift|]. intros u2.
  eapply hoare_bind; [apply saved_reconcile|]. intros [].
  eapply hoare_bind; [apply saved_get_state|]. intros st'.
  eapply (hoare_bind _ _ (fun _ => saved)); [by intros r [Hr _]; apply saved_zoom|]. intros [].
  eapply hoare_bind; [apply Hpost|]. intros [].
  eapply hoare_bind; [apply saved_run_steps|]. intros [].
  eapply hoare_bind; [apply saved_get_state|]. intros st''.
  eapply (hoare_bind _ _ (fun _ r => saved r /\ all_completed (steps (rs r)) = true)).
  { intros r [Hr <-]. unfold ensure, ensure_ok, lift. by destruct (all_completed (steps (rs r))). }
  intros [] r [Hr Hall]. unfold zoom.
  by destruct (completed_check (outer sess) st'' (rw r)) as [[]].
Qed.

Lemma saved_run_body fuel o on_disk :
  hoare anyway (run_body lookup url_scheme fuel o on_disk)
    (fun _ r => saved r /\ all_completed (steps (rs r)) = true) anyway.
Proof.
  assert (forall A (m : M R A), hoare anyway m (fun _ => anyway) anyway) as Hany.
  { intros A m r _. by destruct (m r) as [[]]. }
  unfold run_body, run_loaded, run_with_inputs.
  repeat (lazymatch goal with
          | |- hoare _ (mbind _ save_state) _ _ => fail
          | _ => eapply hoare_bind; [apply Hany|]; intros ?; cbv beta
          end).
  eapply hoare_bind; [apply saved_save_state|]. intros u0.
  eapply hoare_bind; [apply saved_zoom|]. intros u. apply saved_execute.
Qed.

(** A run that ends without an error leaves state.json equal to what it
    has in memory, secrets removed; and unless it stopped at a pause, every
    step of the deployment is completed. *)
Theorem run_ok_saved fuel o on_disk r r' :
  run lookup url_scheme fuel o on_disk r = (Ok (), r') ->
  state_file r' = Some (persisted (rs r')) /\
  (all_completed (steps (rs r')) = true \/
   exists msg r1, run_body lookup url_scheme fuel o on_disk r = (Err (Paused msg), r1) /\ rs r' = rs r1).
Proof.
  unfold run. pose proof (saved_run_body fuel o on_disk r I) as Hb.
  destruct (storage_directory (rs r)); [|done].
  destruct (run_body lookup url_scheme fuel o on_disk r) as [[[]|e] r1].
  - intros [= <-]. destruct Hb as [Hs Hall]. split; [done|by left].
  - destruct e as [msg|msg|]; simpl; [done| |done]. intros Hsave.
    pose proof (saved_save_state r1 I) as Hs. rewrite Hsave in Hs. split; [done|]. right.
    exists msg, r1. split; [done|]. revert Hsave. unfold save_state.
    by destruct (disk_write (env (rw r1))) as [[] e']; intros [= <-].
Qed.
End Runs.
