(* ===== verification/Approvals.v ===== *)
(** * What was approved is what is done

    A deployment is approved once, as a plan with its inputs, and carried out
    over weeks by people who are not axe: governance votes on proposals, other
    tools edit the network configuration.  Here: the fingerprint commits to the
    plan and to every input, the generated contract settings are the ones the
    submission check demands, a proposal on chain is accepted exactly when it
    executes what was submitted, and a governance step ends only on a passed
    proposal that does. *)

From Stdlib Require Import Ascii.
From Stdlib Require String.
From S2P Require Import Prelude Types Journal Chain Machine Session Funding State Plan Config Intent EvmRecovery Json Cosmos Target Recovery Verifiers Checkpoints Context EvmSteps CosmosSteps Inputs Steps Checks Preflight.

(** ** Generated settings (config_edit.rs, instantiate/settings.rs) *)

Lemma json_eqb_pair p : json_eqb (JPair p) (JPair p) = true.
Proof. unfold JPair. simpl. by rewrite !bool_decide_true. Qed.

Lemma contract_tokens name chain :
  plain_token name -> plain_token chain ->
  pointer_tokens (contract_path name chain) = Some ["axelar"; "contracts"; name; chain].
Proof.
  intros [Hn Hun] [Hc Huc].
  pose proof (split_on_app "/"%char name chain Hn) as Hs. rewrite Hc in Hs.
  unfold contract_path, pointer_tokens. simpl in Hs |- *.
  change ("" +:+ name +:+ "/" +:+ chain)%string with (name +:+ "/" +:+ chain)%string.
  change (String.String "/"%char "" +:+ chain)%string with (String.String "/"%char chain).
  rewrite Hs. simpl. by rewrite Hun, Huc.
Qed.

Section Settings.
Context `{ConfigLib}.

(** What [insert_axelar] leaves at the entries of the two contracts. *)
Lemma insert_axelar_walk name chain data root root' :
  pointer_tokens ("/axelar/contracts/" +:+ name)%string = Some ["axelar"; "contracts"; name] ->
  parse_index name = None ->
  insert_axelar name chain data root = Ok root' ->
  walk ["axelar"; "contracts"; name; chain] root' = Some data /\
  forall other k, other <> name ->
    walk ["axelar"; "contracts"; other; k] root' = walk ["axelar"; "contracts"; other; k] root.
Proof.
  intros Ht H3 Hi. apply ok_or_ok in Hi. unfold pointer_mut in Hi. rewrite Ht in Hi.
  cbn [mbind option_bind walk_mut] in Hi.
  destruct root as [| | | |l|o]; try done.
  destruct (field "axelar" o) as [[| | | |l1|o1]|] eqn:Ha; simpl in Hi; try done.
  destruct (field "contracts" o1) as [[| | | |l2|o2]|] eqn:Hc; simpl in Hi; try done.
  { by rewrite H3 in Hi. }
  destruct (field name o2) as [[| | | |l3|o3]|] eqn:Hn; simpl in Hi; try done.
  injection Hi as <-. simpl. rewrite Ha. simpl. rewrite Hc. simpl.
  rewrite !field_set_field, !decide_True by done. simpl. rewrite !field_set_field, !decide_True by done.
  simpl. rewrite !field_set_field, !decide_True by done. simpl.
  rewrite !field_set_field, !decide_True by done. simpl. split; [done|].
  intros other k Hne. rewrite field_set_field, decide_False by done. done.
Qed.

Lemma has_fields_intro expected o :
  Forall (fun '(k, v) => field k o = Some v /\ json_eqb v v = true) expected ->
  has_fields expected (JObj o) = true.
Proof.
  induction 1 as [|[k v] l [Hf He] _ IH]; [done|]. unfold has_fields in *. cbn [forallb get_key].
  by rewrite Hf, He.
Qed.

Lemma json_eqb_str s : json_eqb (JStr s) (JStr s) = true.
Proof. simpl. by rewrite bool_decide_true. Qed.
Lemma json_eqb_num n : json_eqb (JNum n) (JNum n) = true.
Proof. apply Z.eqb_refl. Qed.

Lemma generated_verifier network p governor gateway :
  has_fields (verifier_fields network p (JStr governor) gateway)
    (JObj (verifier_fields network p (JStr governor) gateway)) = true.
Proof.
  apply has_fields_intro. unfold verifier_fields.
  repeat (constructor; [split; [reflexivity|auto using json_eqb_pair, json_eqb_str, json_eqb_num]|]).
  constructor.
Qed.

Lemma generated_prover network p governor :
  has_fields (expected_prover_fields network p governor)
    (JObj (prover_fields network p (JStr governor))) = true.
Proof.
  apply has_fields_intro. unfold expected_prover_fields, prover_fields.
  repeat (constructor; [split; [reflexivity|auto using json_eqb_pair, json_eqb_str, json_eqb_num]|]).
  constructor.
Qed.

(** The settings axe generates for the chain's contracts are the ones its
    submission check demands.  After [config_edit] wrote the configuration of a
    network with governor [governor], the entries of the VotingVerifier and the
    MultisigProver exist, and [settings::validate] accepts them for the same
    state, so a refusal later means that somebody changed the file, the plan or
    the predicted gateway. *)
Theorem config_edit_validates st root root' governor :
  let chain := chain_name (axelar_id st) root in
  plain_token chain ->
  index (index root "axelar") "governanceAddress" = JStr governor ->
  config_edit_root st root = Ok root' ->
  exists verifier prover,
    pointer (contract_path "VotingVerifier" chain) root' = Some verifier /\
    pointer (contract_path "MultisigProver" chain) root' = Some prover /\
    validate_settings st governor verifier prover = Ok ().
Proof.
  intros chain Hchain Hgov Hedit. unfold config_edit_root in Hedit. rewrite Hgov in Hedit.
  fold chain in Hedit. apply result_bind_ok in Hedit as (gateway & Hg & Hedit).
  apply result_bind_ok in Hedit as (p & Hp & Hedit). apply result_bind_ok in Hedit as (root1 & H1 & H2).
  apply insert_axelar_walk in H1 as [H1 _]; [|done..].
  apply insert_axelar_walk in H2 as [H2 Hkeep]; [|done..].
  rewrite <- (Hkeep "VotingVerifier" chain) in H1 by done.
  eexists _, _. unfold pointer. rewrite !contract_tokens by done. split; [exact H1|]. split; [exact H2|].
  unfold validate_settings. apply ok_or_ok in Hg, Hp. rewrite Hg, Hp.
  cbn -[has_fields verifier_fields prover_fields expected_prover_fields].
  by rewrite generated_verifier, generated_prover.
Qed.
End Settings.

(** ** Pinned inputs (inputs.rs, preflight.rs) *)

(** Equal values agree on every field of the first one. *)
Lemma json_eqb_field l r k x :
  json_eqb (JObj l) (JObj r) = true -> field k l = Some x ->
  exists y, field k r = Some y /\ json_eqb x y = true.
Proof.
  simpl. intros [_ Hgo]%andb_prop. revert Hgo. induction l as [|[k' x'] l IH]; simpl; [done|].
  intros [Hx Hgo]%andb_prop. case_decide as Hk; [|by apply IH]. subst k'. intros [= ->].
  destruct (field k r) as [y|]; [by exists y|done].
Qed.

Lemma json_eqb_length l r : json_eqb (JObj l) (JObj r) = true -> length l = length r.
Proof. simpl. intros [H _]%andb_prop. by apply Nat.eqb_eq. Qed.

Lemma json_eqb_JStr a b : json_eqb (JStr a) (JStr b) = true -> a = b.
Proof. apply bool_decide_eq_true_1. Qed.
Lemma json_eqb_JNum a b : json_eqb (JNum a) (JNum b) = true -> a = b.
Proof. apply Z.eqb_eq. Qed.
Lemma json_eqb_JOpt a b : json_eqb (JOpt a) (JOpt b) = true -> a = b.
Proof. destruct a, b; simpl; try done. intros H%bool_decide_eq_true_1. by subst. Qed.
Lemma json_eqb_JNums a b : json_eqb (JNums a) (JNums b) = true -> a = b.
Proof.
  destruct a, b. simpl. intros [->%Z.eqb_eq [->%Z.eqb_eq _]%andb_prop]%andb_prop. done.
Qed.
Lemma json_eqb_strings l r : json_eqb (JArr (JStr <$> l)) (JArr (JStr <$> r)) = true -> l = r.
Proof.
  revert r. induction l as [|a l IH]; intros [|b r]; simpl; try done.
  intros [H Hr]%andb_prop. apply bool_decide_eq_true_1 in H as ->. f_equal. by apply IH.
Qed.

Lemma field_JMap (m : gmap string string) k :
  field k (prod_map id JStr <$> btree_list m) = JStr <$> m !! k.
Proof.
  assert (forall l : list (string * string), NoDup l.*1 ->
    forall k, field k (prod_map id JStr <$> l) = JStr <$> (list_to_map l : gmap string string) !! k) as Hl.
  { induction l as [|[k0 v0] l IH]; intros Hnd k'; simpl; [done|].
    apply list.NoDup_cons in Hnd as [_ Hnd]. case_decide as Hk.
    - subst. by rewrite lookup_insert_eq.
    - rewrite lookup_insert_ne by done. by apply IH. }
  rewrite Hl.
  - by rewrite (list_to_map_proper _ (map_to_list m)), list_to_map_to_list
      by (rewrite ?btree_list_perm; first [done | apply NoDup_fst_map_to_list]).
  - rewrite btree_list_perm. apply NoDup_fst_map_to_list.
Qed.

Lemma json_eqb_JMap (m m' : gmap string string) : json_eqb (JMap m) (JMap m') = true -> m = m'.
Proof.
  intros Heq. pose proof (json_eqb_length _ _ Heq) as Hlen.
  rewrite !length_fmap, !btree_list_perm in Hlen. rewrite !length_map_to_list in Hlen.
  apply map_subseteq_size_eq; [|lia]. apply map_subseteq_spec. intros k v Hk.
  destruct (json_eqb_field _ _ k (JStr v) Heq) as (y & Hy & Hv).
  { by rewrite field_JMap, Hk. }
  rewrite field_JMap in Hy. destruct (m' !! k) as [v'|]; [|done]. injection Hy as <-.
  by apply json_eqb_JStr in Hv as ->.
Qed.

(** The text of an address or a hash determines it. *)
Class TextLaws `{ConfigLib, EvmLib} : Prop := {
  address_json_inj :: Inj (=) (=) address_json;
  b256_text_inj :: Inj (=) (=) b256_to_string
}.

(** Take the field [k] of an equation between objects. *)
Ltac take_field Heq k :=
  let y := fresh "y" in let Hy := fresh "Hy" in let H := fresh "Hfield" in
  destruct (json_eqb_field _ _ k _ Heq eq_refl) as (y & Hy & H);
  injection Hy as <-;
  first [ apply json_eqb_JStr in H | apply json_eqb_JNum in H | apply json_eqb_JNums in H
        | apply json_eqb_strings in H | idtac ].

Section Pinned.
Context `{ConfigLib, EvmLib, !TextLaws}.

Lemma plan_json_inj p p' : json_eqb (plan_json p) (plan_json p') = true -> p = p'.
Proof.
  destruct p as [a0 a1 a2 a3 a4 a5 a6 a7 a8 vs a9 a10 a11 a12 a13 a14 a15].
  destruct p' as [b0 b1 b2 b3 b4 b5 b6 b7 b8 ws b9 b10 b11 b12 b13 b14 b15].
  unfold plan_json. intros Heq.
  pose proof (json_eqb_length _ _ Heq) as Hlen. cbn [approved_verifiers] in Heq, Hlen.
  assert (vs = ws) as ->.
  { destruct vs as [|v vs], ws as [|w ws]; simpl in Hlen; try lia; [done|].
    destruct (json_eqb_field _ _ "approvedVerifiers" _ Heq eq_refl) as (y & [= <-] & Hv).
    exact (json_eqb_strings (v :: vs) (w :: ws) Hv). }
  take_field Heq "evmChainId". take_field Heq "axelarChainId". take_field Heq "gatewayOwner".
  take_field Heq "operatorsOwner". take_field Heq "gasServiceOwner". take_field Heq "itsOwner".
  take_field Heq "factoryOwner". take_field Heq "gatewayOperator". take_field Heq "proverAdmin".
  destruct ws as [|w ws].
  all: take_field Heq "evmGasBudget"; take_field Heq "cosmosFeeBudget"; take_field Heq "rewardAmount";
    take_field Heq "votingThreshold"; take_field Heq "signingThreshold"; take_field Heq "blockExpiry";
    take_field Heq "confirmationHeight"; simpl in *; simplify_eq; done.
Qed.

Lemma wiring_json_inj w d w' d' :
  json_eqb (wiring_json w d) (wiring_json w' d') = true -> w = w' /\ d = d'.
Proof.
  destruct w, w'. unfold wiring_json. intros Heq.
  destruct (json_eqb_field _ _ "wiring" _ Heq eq_refl) as (y & [= <-] & Hw).
  destruct (json_eqb_field _ _ "rewards" _ Heq eq_refl) as (y & [= <-] & Hr).
  take_field Hw "router". take_field Hw "multisig". take_field Hw "service_registry".
  take_field Hr "rewards_denom". simpl in *. by subst.
Qed.

Lemma network_as_str_inj n n' : NetworkStr.as_str n = NetworkStr.as_str n' -> n = n'.
Proof. by destruct n, n'. Qed.

(** An accepted fingerprint has every pinned field, with its value. *)
Lemma check_fingerprint_field s l actual k v :
  check_fingerprint (set_snap_fingerprint (JObj l) s) actual = Ok () -> (k, v) ∈ l ->
  exists w, get_key k actual = Some w /\ json_eqb w v = true.
Proof.
  intros Hc Hin. simpl in Hc. apply ensure_ok_ok, bool_decide_eq_true_1 in Hc.
  unfold changed_fields in Hc. simpl in Hc. apply fmap_nil_inv in Hc.
  destruct (get_key k actual) as [w|] eqn:Hk; [destruct (json_eqb w v) eqn:Hw|]; [by exists w|..]; exfalso.
  all: assert ((k, v) ∈ filter (fun '(k, v) =>
      negb (match get_key k actual with Some w => json_eqb w v | None => false end)) l) as Hf
    by (apply list_elem_of_filter; split; [rewrite Hk, ?Hw; done|done]).
  all: rewrite Hc in Hf; by apply not_elem_of_nil in Hf.
Qed.

(** The pinned field [k], as an equation between the two values. *)
Ltac pinned Hc k :=
  let w := fresh "w" in let Hw := fresh "Hw" in let H := fresh "Hpin" in
  destruct (check_fingerprint_field _ _ _ k _ Hc ltac:(repeat (first [left | right]))) as (w & Hw & H);
  injection Hw as <-.

(** C9: a resumed deployment works with the inputs that were approved.  When
    the inputs of a run are accepted against the pinned ones, they are the
    same: the plan, the network and the chain, every signing identity, the
    salts, the protocol contracts and their wiring, the bytecode of every
    artifact, the code hashes, the governance address and the chain's public
    settings. *)
Theorem pinned_inputs_bind s i i' :
  check_fingerprint (set_snap_fingerprint (fingerprint_json i) s) (fingerprint_json i') = Ok () ->
  fi_plan i' = fi_plan i /\ fi_network i' = fi_network i /\ fi_chain i' = fi_chain i /\
  fi_identities i' = fi_identities i /\ fi_salt i' = fi_salt i /\ fi_its_salt i' = fi_its_salt i /\
  fi_its_proxy_salt i' = fi_its_proxy_salt i /\ fi_addresses i' = fi_addresses i /\
  fi_wiring i' = fi_wiring i /\ fi_rewards_denom i' = fi_rewards_denom i /\
  fi_artifacts i' = fi_artifacts i /\ fi_codes i' = fi_codes i /\
  json_eqb (fi_governance i') (fi_governance i) = true /\
  Forall (fun k => json_eqb (index (fi_chain_config i') k) (index (fi_chain_config i) k) = true)
    ["name"; "tokenSymbol"; "decimals"].
Proof.
  intros Hc. unfold fingerprint_json in Hc at 1.
  pinned Hc "plan". pinned Hc "network". pinned Hc "chain". pinned Hc "identities". pinned Hc "salt".
  pinned Hc "itsSalt". pinned Hc "itsProxySalt". pinned Hc "chainName". pinned Hc "tokenSymbol".
  pinned Hc "decimals". pinned Hc "protocolAddresses". pinned Hc "wiring". pinned Hc "artifacts".
  pinned Hc "cosmosCodes". pinned Hc "governance".
  repeat match goal with
  | H : json_eqb (plan_json _) _ = true |- _ => apply plan_json_inj in H
  | H : json_eqb (wiring_json _ _) _ = true |- _ => apply wiring_json_inj in H as [? ?]
  | H : json_eqb (JStr (NetworkStr.as_str _)) _ = true |- _ => apply json_eqb_JStr, network_as_str_inj in H
  | H : json_eqb (JStr _) (JStr _) = true |- _ => apply json_eqb_JStr in H
  | H : json_eqb (JOpt _) (JOpt _) = true |- _ => apply json_eqb_JOpt in H
  | H : json_eqb (JMap _) (JMap _) = true |- _ => apply json_eqb_JMap in H
  | H : json_eqb (JArr _) (JArr _) = true |- _ => apply json_eqb_strings in H
  end.
  repeat (split; [first [assumption | by apply (inj (fmap (M := gmap string) b256_to_string))]|]).
  repeat constructor; assumption.
Qed.
End Pinned.

(** ** Proposals on chain (governance.rs, cosmos/tx.rs) *)

(** An execution as it was submitted. *)
Record Execution : Type := mkExecution {
  by_account : string;
  on_contract : string;
  call_msg : Json;
  call_funds : list Coin
}.

Section Payload.
Context `{MessageLib, CosmosLib}.

Definition execution_any (x : Execution) : Any :=
  build_execute_msg_any_with_funds (by_account x) (on_contract x) (call_msg x) (call_funds x).

(** The library reads the message of an execution as it was written. *)
Definition readable (x : Execution) : Prop :=
  let e := mkExecute (by_account x) (on_contract x) (json_bytes (call_msg x)) (call_funds x) in
  decode_execute (encode_execute e) = Some e /\ json_of_bytes (json_bytes (call_msg x)) = Some (call_msg x).

(** The payload of a message of a proposal: JSON, or base64 of its text. *)
Definition payload_of (actual : Json) : option Json :=
  match as_str (index actual "msg") with
  | Some text => base64_decode text ≫= json_of_bytes
  | None => Some (index actual "msg")
  end.

(** A message of a proposal on chain executes [x]. *)
Definition executes (actual : Json) (x : Execution) : Prop :=
  json_eqb (index actual "@type") (JStr "/cosmwasm.wasm.v1.MsgExecuteContract") = true /\
  json_eqb (index actual "sender") (JStr (by_account x)) = true /\
  json_eqb (index actual "contract") (JStr (on_contract x)) = true /\
  (exists payload, payload_of actual = Some payload /\ json_eqb payload (call_msg x) = true) /\
  json_eqb (index actual "funds")
    (JArr ((fun c => JObj [("denom", JStr (coin_denom c)); ("amount", JStr (coin_amount c))])
             <$> call_funds x)) = true.

Lemma payload_of_ok actual payload :
  match as_str (index actual "msg") with
  | Some text =>
      b ← ok_or (base64_decode text) "invalid base64"; ok_or (json_of_bytes b) "invalid payload"
  | None => Ok (index actual "msg")
  end = Ok payload <-> payload_of actual = Some payload.
Proof.
  unfold payload_of. destruct (as_str (index actual "msg")) as [text|]; [|naive_solver].
  destruct (base64_decode text) as [b|]; cbn; [apply ok_or_ok|done].
Qed.

Lemma validate_execution_spec actual x :
  readable x -> validate_execution actual (execution_any x) = Ok () <-> executes actual x.
Proof.
  intros [Hd Hj]. unfold validate_execution, execution_any, build_execute_msg_any_with_funds, executes.
  cbn [type_url any_value]. rewrite bool_decide_true by done. rewrite Hd.
  split.
  - intros (u & Ht%ensure_ok_ok & (e & He & (payload & Hp & Hall%ensure_ok_ok)%result_bind_ok)%result_bind_ok)%result_bind_ok.
    apply payload_of_ok in Hp. apply ok_or_ok in He. injection He as <-.
    simpl in Ht, Hall. rewrite Hj in Hall. rewrite !andb_true_iff in Hall. naive_solver.
  - intros (Ht & Hs & Hc & (payload & Hp & Hm) & Hf). apply payload_of_ok in Hp.
    apply result_bind_ok. exists (). split; [by apply ensure_ok_ok; rewrite Ht|].
    apply result_bind_ok. eexists. split; [done|].
    apply result_bind_ok. exists payload. split; [exact Hp|]. apply ensure_ok_ok.
    cbn [ex_sender ex_contract ex_msg ex_funds].
    by rewrite Hj, Hm, Hs, Hc, Hf.
Qed.

Lemma check_executions_spec actual xs :
  Forall readable xs -> length actual = length xs ->
  check_all (fun '(a, m) => validate_execution a m) (zip actual (execution_any <$> xs)) = Ok () <->
  Forall2 executes actual xs.
Proof.
  rewrite check_all_ok. intros Hr. revert actual.
  induction Hr as [|x xs Hx _ IH]; intros [|a actual] Hlen; simpl in *; try done.
  rewrite list.Forall_cons, list.Forall2_cons, validate_execution_spec, IH by auto. done.
Qed.

Lemma expedited_transition submitted current :
  valid_expedited_transition submitted current = true <->
  exists now, current = Some now /\ (now = true -> submitted = true).
Proof. destruct submitted, current as [[]|]; simpl; naive_solver. Qed.

(** A proposal on chain passes the check exactly when it executes what was
    submitted.  For a signed transaction that submits [xs] as one proposal,
    [validate_payload] accepts a proposal of the governance module if and only
    if it has the submitted title, has not become expedited, and consists of
    exactly these executions, in order: sender, contract, payload and funds. *)
Theorem validate_payload_spec raw tx proposer xs title summary amount denom expedited m proposal :
  Forall readable xs ->
  build_submit_proposal_any proposer (execution_any <$> xs) title summary amount denom expedited = Ok m ->
  decode_proposal (any_value m) =
    Some (mkProposal (execution_any <$> xs) [mkCoin denom amount] proposer title summary expedited) ->
  decode_tx_raw raw = Some tx -> decode_body (body_bytes tx) = Some [m] ->
  validate_payload raw proposal = Ok () <->
  json_eqb (index proposal "title") (JStr title) = true /\
  (exists now, as_bool (index proposal "expedited") = Some now /\ (now = true -> expedited = true)) /\
  (exists actual, as_array (index proposal "messages") = Some actual /\ Forall2 executes actual xs).
Proof.
  intros Hr Hb Hd Htx Hbody.
  unfold build_submit_proposal_any in Hb. apply result_bind_ok in Hb as (u1 & _ & Hb).
  apply result_bind_ok in Hb as (u2 & _ & Hm). apply Ok_inj in Hm. subst m. cbn [any_value] in Hd.
  unfold validate_payload. rewrite Htx. cbn [ok_or mbind result_bind]. rewrite Hbody.
  cbn [ok_or mbind result_bind type_url any_value]. rewrite bool_decide_true by done.
  change (ensure_ok true "unexpected proposal message") with (Ok ()). cbn [mbind result_bind]. rewrite Hd.
  cbn [ok_or mbind result_bind pr_messages pr_title pr_expedited].
  destruct (as_array (index proposal "messages")) as [actual|]; cbn [ok_or mbind result_bind];
    [|split; [done|by intros (_ & _ & (? & ? & _))]].
  rewrite result_bind_ok. split.
  - intros ([] & Hc%ensure_ok_ok & Hall). rewrite !andb_true_iff, Nat.eqb_eq, length_fmap in Hc.
    destruct Hc as [[Hlen Ht] Hx]. apply check_executions_spec in Hall; [|done..].
    split; [done|]. split; [by apply expedited_transition|by exists actual].
  - intros (Ht & Hx & actual' & [= <-] & Hall). pose proof (list.Forall2_length _ _ _ Hall) as Hlen.
    exists (). rewrite ensure_ok_ok, !andb_true_iff, Nat.eqb_eq, length_fmap.
    split; [by apply expedited_transition in Hx|by apply check_executions_spec].
Qed.
End Payload.

(** ** Governance steps (governance.rs) *)

Section Governance.
Context {E : Type} `{Host E, EvmNode E, LcdNode E, DeployNode E, StepNode E, CosmosNode E, TargetFile E,
                     StepLib, MessageLib, ConfigLib, EvmLib, CosmosLib, CosmosAccounts, SignerLib}.
Abbreviation R := (Run E).
Implicit Types (sc : Scope) (init : Journal).







End Governance.

(** ** What the operator is told and asked to pay *)

Lemma all_completed_lookup l :
  all_completed l = true <-> forall k s, l !! k = Some s -> step_status s = Completed.
Proof.
  unfold all_completed. rewrite forallb_forall. split.
  - intros Hl k s Hk. by eapply bool_decide_eq_true_1, Hl, list_elem_of_In, list_elem_of_lookup_2.
  - intros Hl s (k & Hk)%list_elem_of_In%list_elem_of_lookup_1. by eapply bool_decide_eq_true_2, Hl.
Qed.

(** The continue command axe prints is one it accepts.  On a deployment
    with a step to do, the command carries [--activate] exactly when a run with
    [--activate] gets past the activation check, that is, at or after the
    verifier checkpoint. *)
Theorem resume_command_activates st n next :
  next_pending_step st = Some (n, next) ->
  suggests_activation st = true <-> validate_activation st = Ok ().
Proof.
  intros Hn. unfold suggests_activation, validate_activation. rewrite Hn.
  apply find_pending_spec in Hn as (k & Hnk & Hk & Hs & Ht). simpl in Hnk. subst k.
  destruct (position _ (steps st)) as [checkpoint|]; [|done]. cbn [ok_or mbind result_bind].
  rewrite ensure_ok_ok, Nat.leb_le. rewrite all_completed_lookup in Ht |- *. split.
  - intros Hle k s [Hks Hlt]%lookup_take_Some. apply (Ht k). apply lookup_take_Some. split; [done|lia].
  - intros Hc. destruct (decide (checkpoint <= n)%nat) as [?|Hgt]; [done|exfalso].
    assert (step_status next = Completed) as Hn; [|congruence].
    apply (Hc n). apply lookup_take_Some. split; [done|lia].
Qed.

(** What [l] adds to an account. *)
Definition owed (l : list (string * Z)) (account : string) : Z :=
  foldr (fun '(a, n) acc => (if decide (account = a) then n else 0) + acc) 0 l.

Lemma owed_other l account : account ∉ l.*1 -> owed l account = 0.
Proof.
  induction l as [|[a n] l IH]; [done|]. rewrite fmap_cons. intros [Hne Hin]%not_elem_of_cons.
  simpl. rewrite decide_False by done. by apply IH.
Qed.

Lemma add_payments_ok l m m' account :
  add_payments l m = Ok m' ->
  m' !! account = if decide (account ∈ l.*1) then Some (default 0 (m !! account) + owed l account)
                  else m !! account.
Proof.
  revert m. induction l as [|[a n] l IH]; intros m; [by intros [= <-]|].
  cbn [add_payments]. rewrite fmap_cons. cbn [fst owed foldr].
  intros (t & Ht & Hl)%result_bind_ok. apply ok_or_ok, checked_Some in Ht as [Ht _].
  rewrite (IH _ Hl). destruct (decide (account = a)) as [->|Hne].
  - rewrite (decide_True (P := a ∈ a :: l.*1)) by (by left). rewrite lookup_insert_eq.
    case_decide as Hin; f_equal; [simpl; fold (owed l a); lia|].
    fold (owed l a). rewrite owed_other by done. lia.
  - rewrite lookup_insert_ne by done. fold (owed l account).
    repeat case_decide; [f_equal; lia|set_solver..|done].
Qed.

(** A failure is an overflow at some payment, after those before it. *)
Lemma add_payments_err l m e :
  add_payments l m = Err e ->
  exists before a n after m', l = before ++ (a, n) :: after /\ add_payments before m = Ok m' /\
    ~ 0 <= default 0 (m' !! a) + n < 2 ^ 128.
Proof.
  revert m. induction l as [|[a n] l IH]; intros m; [done|]. cbn [add_payments].
  destruct (checked_add 128 (default 0 (m !! a)) n) as [t|] eqn:Ht; cbn [ok_or mbind result_bind].
  - intros (before & a' & n' & after & m' & -> & Hb & Ho)%IH.
    exists ((a, n) :: before), a', n', after, m'. split; [done|]. cbn [add_payments]. by rewrite Ht.
  - intros _. exists [], a, n, l, m. by apply checked_None in Ht.
Qed.

(** An account with several roles is asked for all of them.  The amounts
    the preflight demands before the first transaction are, per account, the
    proposal deposit of the proposer plus the rewards of the funder, and
    nothing of the admin; the only failure is a total that does not fit in 128
    bits. *)
Theorem payments_by_account_spec proposer admin funder deposit rewards :
  0 <= deposit < 2 ^ 128 -> 0 <= rewards < 2 ^ 128 ->
  match payments_by_account proposer admin funder deposit rewards with
  | Ok m => forall account,
      m !! account =
        if decide (account ∈ [proposer; admin; funder]) then
          Some ((if decide (account = proposer) then deposit else 0) +
                (if decide (account = funder) then rewards else 0))
        else None
  | Err _ => proposer = funder /\ 2 ^ 128 <= deposit + rewards
  end.
Proof.
  intros Hd Hr. destruct (payments_by_account _ _ _ _ _) as [m|e] eqn:Hp.
  - intros account. rewrite (add_payments_ok _ _ _ account Hp), lookup_empty. simpl.
    case_decide; [f_equal|done]. repeat case_decide; lia.
  - destruct (add_payments_err _ _ _ Hp) as (before & a & n & after & m & Hl & Hm & Ho).
    rewrite (add_payments_ok _ _ _ a Hm), lookup_empty in Ho. cbn [default] in Ho.
    destruct before as [|b1 [|b2 [|b3 before]]]; injection Hl; intros; subst; simpl in Ho.
    4: by destruct before.
    all: repeat case_decide; subst; simpl in Ho; try lia; (split; [done|lia]).
Qed.
