(* ===== verification/Termination.v ===== *)
(** * Waiting for EVM transactions terminates

    The polling loops of evm_recovery.rs are bounded by the clock, not by a
    counter.  With a clock that does not run backwards and sleeps that last
    at least as long as asked, a fuel that covers the configured wait is never
    exhausted: [send], [resume] and [prove] return a receipt, an error or a
    pause. *)

From S2P Require Import Prelude Types Journal Chain Machine Session Funding Intent EvmRecovery.

Section Termination.
Context {E : Type} `{Host E, EvmNode E, EvmLib, CosmosLib, !ClockLaws E}.
Abbreviation W := (World E).
Implicit Types (sc : Scope) (key : string).

(** Time does not run backwards through the program. *)
Definition mono {A} (m : M W A) : Prop :=
  forall w, clock (env w) <= clock (env (m w).2).

(** The program is not cut by fuel, from states in [P]. *)
Definition returns {A} (P : W -> Prop) (m : M W A) : Prop :=
  forall w, P w -> (m w).1 <> Err OutOfFuel.

(** At most [k] seconds are left before the deadline. *)
Definition left_of (deadline k : Z) (w : W) : Prop := deadline - clock (env w) <= k.

Definition stable (P : W -> Prop) : Prop :=
  forall w w', P w -> clock (env w) <= clock (env w') -> P w'.

Lemma stable_left deadline k : stable (left_of deadline k).
Proof. intros w w'. unfold left_of. lia. Qed.
Lemma stable_after t : stable (fun w => t <= clock (env w)).
Proof. intros w w'. lia. Qed.
Lemma stable_true : stable (fun _ => True).
Proof. done. Qed.

(** *** Monotone operations *)

Lemma mono_ret {A} (a : A) : mono (mret a).
Proof. intros w. simpl. lia. Qed.
Lemma mono_lift {A} (r : result A) : mono (lift r).
Proof. intros w. simpl. lia. Qed.
Lemma mono_ensure b msg : mono (ensure b msg).
Proof. intros w. simpl. lia. Qed.
Lemma mono_throw {A} e : mono (A := A) (throw e).
Proof. intros w. simpl. lia. Qed.
Lemma mono_emit ev : mono (emit ev).
Proof. intros w. simpl. lia. Qed.
Lemma mono_now : mono now.
Proof. intros w. simpl. lia. Qed.
Lemma mono_read : mono read_journal.
Proof. intros w. simpl. lia. Qed.
Lemma mono_set j : mono (set_journal j).
Proof. intros w. simpl. lia. Qed.
Lemma mono_current sc : mono (current sc).
Proof. intros w. simpl. lia. Qed.
Lemma mono_sleep d : 0 <= d -> mono (sleep_for d).
Proof. intros Hd w. simpl. pose proof (sleep_advances d (env w)). lia. Qed.

Lemma mono_bind {A B} (m : M W A) (f : A -> M W B) :
  mono m -> (forall a, mono (f a)) -> mono (m ≫= f).
Proof.
  intros Hm Hf w. specialize (Hm w). unfold mbind, M_bind.
  destruct (m w) as [[a|e] w']; simpl in *; [|done]. specialize (Hf a w'). lia.
Qed.

Lemma mono_map_err {A} e (m : M W A) : mono m -> mono (map_err e m).
Proof. intros Hm w. specialize (Hm w). unfold map_err. by destruct (m w) as [[] w']. Qed.

Lemma mono_call {A} (f : E -> result A * E) :
  (forall e, clock e <= clock (f e).2) -> mono (call f).
Proof.
  intros Hf w. specialize (Hf (env w)). unfold call. by destruct (f (env w)) as [r e].
Qed.

Lemma mono_prompt p : mono (confirm_prompt p).
Proof.
  intros w. pose proof (ask_advances p (env w)). unfold confirm_prompt.
  by destruct (ui_confirm p (env w)).
Qed.

Lemma mono_write j : mono (atomic_write j).
Proof.
  intros w. pose proof (write_advances (env w)). unfold atomic_write.
  by destruct (disk_write (env w)) as [[] e].
Qed.

Lemma mono_first_some {A B} (f : A -> M W (option B)) l :
  (forall x, mono (f x)) -> mono (first_some f l).
Proof.
  intros Hf. induction l as [|x l IH]; simpl; [apply mono_ret|].
  apply mono_bind; [done|]. intros [b|]; [apply mono_ret|done].
Qed.

Lemma mono_for_each {A} (f : A -> M W ()) l : (forall x, mono (f x)) -> mono (for_each f l).
Proof.
  intros Hf. induction l as [|x l IH]; simpl; [apply mono_ret|]. by apply mono_bind.
Qed.

(** *** Operations that do not run out of fuel *)

Lemma returns_weaken {A} (P Q : W -> Prop) (m : M W A) :
  returns Q m -> (forall w, P w -> Q w) -> returns P m.
Proof. intros Hm HP w Hw. auto. Qed.

Lemma returns_bind {A B} P (m : M W A) (f : A -> M W B) :
  stable P -> mono m -> returns P m -> (forall a, returns P (f a)) -> returns P (m ≫= f).
Proof.
  intros HP Hmono Hm Hf w Hw. specialize (Hm w Hw). specialize (Hmono w). unfold mbind, M_bind.
  destruct (m w) as [[a|e] w'] eqn:Hr; simpl in *; [|congruence].
  apply Hf. eapply HP; eauto.
Qed.

(** Reading the clock: what follows starts after the time read. *)
Lemma returns_now {A} P (f : Z -> M W A) :
  stable P -> (forall t, returns (fun w => P w /\ t <= clock (env w)) (f t)) ->
  returns P (now ≫= f).
Proof. intros HP Hf w Hw. simpl. apply Hf. split; [done|lia]. Qed.

Definition plain (r : error) : Prop := r <> OutOfFuel.

Lemma returns_ret {A} P (a : A) : returns P (mret a).
Proof. done. Qed.
Lemma returns_throw {A} P e : plain e -> returns P (throw (A := A) e).
Proof. intros He w _ [=]. done. Qed.
Lemma returns_call {A} P (f : E -> result A * E) : returns P (call f).
Proof. intros w _. unfold call. by destruct (f (env w)) as [[] e]. Qed.
Lemma returns_ensure P b msg : returns P (ensure b msg).
Proof. intros w _. by destruct b. Qed.
Lemma returns_ok_or {A} P (o : option A) msg : returns P (lift (ok_or o msg)).
Proof. intros w _. by destruct o. Qed.
Lemma returns_emit P ev : returns P (emit ev).
Proof. done. Qed.
Lemma returns_prompt P p : returns P (confirm_prompt p).
Proof. intros w _. unfold confirm_prompt. by destruct (ui_confirm p (env w)). Qed.
Lemma returns_read P : returns P read_journal.
Proof. done. Qed.
Lemma returns_set P j : returns P (set_journal j).
Proof. done. Qed.
Lemma returns_sleep P d : returns P (sleep_for d).
Proof. done. Qed.
Lemma returns_current P sc : returns P (current sc).
Proof. apply returns_ok_or. Qed.
Lemma returns_write P j : returns P (atomic_write j).
Proof. intros w _. unfold atomic_write. by destruct (disk_write (env w)) as [[] e]. Qed.

Lemma returns_map_err {A} P e (m : M W A) : plain e -> returns P (map_err e m).
Proof. intros He w _. unfold map_err. destruct (m w) as [[] w']; simpl; congruence. Qed.

Lemma returns_first_some {A B} P (f : A -> M W (option B)) l :
  stable P -> (forall x, mono (f x)) -> (forall x, returns P (f x)) -> returns P (first_some f l).
Proof.
  intros HP Hm Hf. induction l as [|x l IH]; simpl; [done|].
  apply returns_bind; try done. intros [b|]; done.
Qed.
Lemma returns_for_each {A} P (f : A -> M W ()) l :
  stable P -> (forall x, mono (f x)) -> (forall x, returns P (f x)) -> returns P (for_each f l).
Proof. intros HP Hm Hf. induction l as [|x l IH]; simpl; [done|]. by apply returns_bind. Qed.
End Termination.

(** A pure check that fails with an ordinary error. *)
Definition ordinary {A} (r : result A) : Prop := r <> Err OutOfFuel.

Lemma ordinary_bind {A B} (m : result A) (f : A -> result B) :
  ordinary m -> (forall a, ordinary (f a)) -> ordinary (m ≫= f).
Proof. unfold ordinary. destruct m; simpl; [auto|congruence]. Qed.
Lemma ordinary_ensure b msg : ordinary (ensure_ok b msg).
Proof. by destruct b. Qed.
Lemma ordinary_ok_or {A} (o : option A) msg : ordinary (ok_or o msg).
Proof. by destruct o. Qed.
Lemma ordinary_ok {A} (a : A) : ordinary (Ok a).
Proof. done. Qed.
Lemma ordinary_bail {A} msg : ordinary (bail (A := A) msg).
Proof. done. Qed.

Create HintDb time.
#[export] Hint Resolve mono_ret mono_lift mono_ensure mono_throw mono_emit mono_now mono_read
  mono_set mono_current mono_map_err mono_prompt mono_write mono_first_some mono_for_each
  stable_left stable_after stable_true
  sleep_advances ask_advances write_advances chain_advances count_advances receipt_advances
  known_advances send_advances block_advances price_advances balance_advances call_advances
  sign_advances : time.
#[export] Hint Resolve returns_ret returns_call returns_ensure returns_ok_or returns_emit
  returns_prompt returns_read returns_set returns_sleep returns_current returns_write : time.
#[export] Hint Resolve ordinary_ensure ordinary_ok_or ordinary_ok ordinary_bail : time.

Ltac smono :=
  repeat first
    [ progress intros
    | apply mono_bind
    | apply mono_call; intros; solve [auto with time]
    | apply mono_sleep; lia
    | apply mono_prompt
    | apply mono_write
    | solve [auto with time]
    | match goal with |- mono (match ?x with _ => _ end) => destruct x end ].

Ltac sordinary :=
  repeat first
    [ progress intros
    | apply ordinary_bind
    | solve [auto with time]
    | match goal with |- ordinary (match ?x with _ => _ end) => destruct x end ].

Lemma returns_lift {E} `{Host E} {A} (P : World E -> Prop) (r : result A) :
  ordinary r -> returns P (lift r).
Proof. intros Hr w _. exact Hr. Qed.

(** Composite programs: split binds, destruct matches, close the leaves. *)
Ltac sreturns :=
  repeat first
    [ progress intros
    | apply returns_bind; [solve [auto with time]|smono| |]
    | apply returns_throw; done
    | apply returns_map_err; done
    | apply returns_lift; solve [sordinary]
    | solve [auto with time]
    | match goal with |- returns _ (match ?x with _ => _ end) => destruct x end ].

Section Evm.
Context {E : Type} `{Host E, EvmNode E, EvmLib, CosmosLib, !ClockLaws E}.
Abbreviation W := (World E).
Implicit Types (sc : Scope) (key : string).

Lemma mono_canonical r : mono (canonical (E := E) r).
Proof. unfold canonical. smono. Qed.
Hint Resolve mono_canonical : time.

Lemma returns_canonical P r : stable P -> returns P (canonical (E := E) r).
Proof. intros HP. unfold canonical. sreturns. Qed.
Hint Resolve returns_canonical : time.

Lemma mono_confirmation sc h : mono (confirmation (E := E) sc h).
Proof. unfold confirmation. smono. Qed.
Lemma returns_confirmation P sc h : stable P -> returns P (confirmation (E := E) sc h).
Proof. intros HP. unfold confirmation. sreturns. Qed.
Lemma mono_commit f : mono (commit (E := E) f).
Proof. unfold commit. smono. Qed.
Lemma returns_commit P f : stable P -> returns P (commit (E := E) f).
Proof. intros HP. unfold commit. sreturns. Qed.
Hint Resolve mono_confirmation returns_confirmation mono_commit returns_commit : time.

Lemma mono_confirm sc h c : mono (confirm (E := E) sc h c).
Proof. unfold confirm. smono. Qed.
Lemma returns_confirm P sc h c : stable P -> returns P (confirm (E := E) sc h c).
Proof. intros HP. unfold confirm. sreturns. Qed.
Lemma mono_included_one sc a : mono (included_one (E := E) sc a).
Proof. unfold included_one. smono. Qed.
Hint Resolve mono_confirm returns_confirm mono_included_one : time.

Lemma returns_included_one P sc a : stable P -> returns P (included_one (E := E) sc a).
Proof. intros HP. unfold included_one. sreturns. Qed.
Hint Resolve returns_included_one : time.

Lemma mono_included sc l : mono (included (E := E) sc l).
Proof. unfold included. apply mono_first_some. auto with time. Qed.
Lemma returns_included P sc l : stable P -> returns P (included (E := E) sc l).
Proof. intros HP. unfold included. apply returns_first_some; auto with time. Qed.
Hint Resolve mono_included returns_included : time.

Lemma ordinary_required_height p i : ordinary (Policy.required_height p i).
Proof. unfold Policy.required_height. sordinary. Qed.
Hint Resolve ordinary_required_height : time.

(** After a sleep of [d] seconds at a time before the deadline. *)
Lemma returns_sleep_then {A} d deadline k t (m : M W A) :
  0 <= d -> returns (left_of deadline (k - d)) m ->
  returns (fun w => left_of deadline k w /\ t <= clock (env w)) (sleep_for d;; m).
Proof.
  intros Hd Hm w [Hl _]. simpl. apply Hm. unfold left_of in *. simpl.
  pose proof (sleep_advances d (env w)). lia.
Qed.

(** Once the deadline has not passed at a time already reached, something is
    left. *)
Lemma returns_before {A} deadline k t (m : M W A) :
  t < deadline -> (0 < k -> returns (fun w => left_of deadline k w /\ t <= clock (env w)) m) ->
  returns (fun w => left_of deadline k w /\ clock (env w) = t) m.
Proof.
  intros Ht Hm w [Hl Hw]. unfold left_of in *. apply Hm; [lia|]. unfold left_of. lia.
Qed.

Lemma returns_now_at {A} (P : W -> Prop) (f : Z -> M W A) :
  (forall t, returns (fun w => P w /\ clock (env w) = t) (f t)) -> returns P (now ≫= f).
Proof. intros Hf w Hw. simpl. by apply Hf. Qed.

(** [wait_receipt] sleeps ten seconds per round. *)
Lemma returns_wait_receipt fuel sc hash receipt deadline policy :
  returns (left_of deadline (10 * Z.of_nat fuel))
    (wait_receipt (E := E) (S fuel) sc hash receipt deadline policy).
Proof.
  revert receipt. induction fuel as [|fuel IH]; intros receipt; cbn [wait_receipt].
  all: apply returns_bind; [auto with time|smono|sreturns|]; intros block.
  all: apply returns_bind; [auto with time|smono|sreturns|]; intros target.
  all: apply returns_bind; [auto with time|smono|sreturns|]; intros found.
  all: apply returns_bind; [auto with time|smono|sreturns|]; intros head.
  all: destruct (target <=? bk_number head); [sreturns|].
  all: apply returns_now_at; intros t; destruct (Z.leb_spec deadline t) as [|Ht]; [sreturns|].
  all: apply returns_before; [done|]; intros Hpos. 1: lia.
  apply returns_sleep_then; [lia|].
  replace (10 * Z.of_nat (S fuel) - 10) with (10 * Z.of_nat fuel) by lia.
  apply returns_bind; [auto with time|smono|sreturns|]. intros [r|]; [|sreturns].
  apply returns_bind; [auto with time|smono|sreturns|]. intros u. apply IH.
Qed.

Lemma mono_wait_receipt fuel sc hash receipt deadline policy :
  mono (wait_receipt (E := E) fuel sc hash receipt deadline policy).
Proof.
  revert receipt. induction fuel as [|fuel IH]; intros receipt; cbn [wait_receipt]; smono.
Qed.
Hint Resolve mono_wait_receipt : time.

Lemma returns_wait_confirmed fuel sc receipt deadline policy :
  returns (left_of deadline (10 * Z.of_nat fuel))
    (wait_confirmed (E := E) (S fuel) sc receipt deadline policy).
Proof.
  unfold wait_confirmed. apply returns_bind; [auto with time|smono|apply returns_wait_receipt|]. sreturns.
Qed.

(** The inclusion loop sleeps five seconds per round. *)
Lemma returns_poll_included fuel sc attempts deadline policy :
  returns (left_of deadline (5 * Z.of_nat fuel))
    (poll_included (E := E) (S fuel) sc attempts deadline policy).
Proof.
  induction fuel as [|fuel IH]; cbn [poll_included].
  all: apply returns_bind; [auto with time|smono|auto with time|]; intros [receipt|].
  1, 3: eapply returns_weaken; [apply returns_wait_confirmed|]; unfold left_of; intros w; lia.
  all: apply returns_now_at; intros t; destruct (Z.leb_spec deadline t) as [|Ht]; [sreturns|].
  all: apply returns_before; [done|]; intros Hpos. 1: lia.
  apply returns_sleep_then; [lia|].
  by replace (5 * Z.of_nat (S fuel) - 5) with (5 * Z.of_nat fuel) by lia.
Qed.

Lemma mono_journal_attempts sc key tx : mono (journal_attempts (E := E) sc key tx).
Proof. unfold journal_attempts. smono. Qed.
Lemma returns_journal_attempts P sc key tx :
  stable P -> returns P (journal_attempts (E := E) sc key tx).
Proof. intros HP. unfold journal_attempts. sreturns. Qed.
Hint Resolve mono_journal_attempts returns_journal_attempts : time.

Lemma mono_competing sc key tx : mono (competing_attempts (E := E) sc key tx).
Proof. unfold competing_attempts. smono. Qed.
Lemma returns_competing P sc key tx :
  stable P -> returns P (competing_attempts (E := E) sc key tx).
Proof. intros HP. unfold competing_attempts. sreturns. Qed.
Hint Resolve mono_competing returns_competing : time.

Lemma mono_broadcast tx : mono (broadcast (E := E) tx).
Proof.
  unfold broadcast. smono. apply mono_map_err. smono.
Qed.
Lemma returns_broadcast P tx : stable P -> returns P (broadcast (E := E) tx).
Proof.
  intros HP. unfold broadcast. destruct tx; [|sreturns]. sreturns.
  apply mono_map_err. smono.
Qed.
Hint Resolve mono_broadcast returns_broadcast : time.

(** *** Pure checks *)

Lemma ordinary_fmap {A B} (f : A -> B) (r : result A) : ordinary r -> ordinary (f <$> r).
Proof. unfold ordinary. destruct r; simpl; congruence. Qed.

Lemma ordinary_collect f l m : ordinary (collect_slots f l m).
Proof.
  revert m. induction l as [|tx l IH]; intros m; simpl; [done|].
  destruct (f tx) as [[s [a|]]|]; auto with time. done.
Qed.

Lemma ordinary_checked_sum w acc l msg : ordinary (checked_sum w acc l msg).
Proof. revert acc. induction l; intros acc; simpl; sordinary. Qed.
Hint Resolve ordinary_collect ordinary_checked_sum : time.

Lemma ordinary_check_budget p j sender cost replacing :
  ordinary (check_budget_with p j sender cost replacing).
Proof. unfold check_budget_with, liability. sordinary. Qed.

Lemma ordinary_intent_hash r : ordinary (intent_hash r).
Proof. unfold intent_hash, intent_bytes. apply ordinary_fmap. sordinary. Qed.
Hint Resolve ordinary_check_budget ordinary_intent_hash : time.

Lemma ordinary_validate_replacement a b : ordinary (validate_replacement a b).
Proof. unfold validate_replacement. sordinary. Qed.
Lemma ordinary_validate_retry_fields a b : ordinary (validate_retry_fields a b).
Proof. unfold validate_retry_fields. sordinary. Qed.
Lemma ordinary_bumped_request a b c : ordinary (bumped_request a b c).
Proof. unfold bumped_request. sordinary. Qed.
Lemma ordinary_validate_context a b : ordinary (validate_context a b).
Proof. unfold validate_context. sordinary. Qed.
Lemma ordinary_validate_action k tx : ordinary (validate_action k tx).
Proof. unfold validate_action. sordinary. Qed.
Hint Resolve ordinary_validate_replacement ordinary_validate_retry_fields ordinary_bumped_request
  ordinary_validate_context ordinary_validate_action : time.

(** *** Sending *)

Lemma mono_check_budget sc s c r : mono (check_budget (E := E) sc s c r).
Proof. unfold check_budget. smono. Qed.
Lemma returns_check_budget P sc s c r : stable P -> returns P (check_budget (E := E) sc s c r).
Proof. intros HP. unfold check_budget. sreturns. Qed.
Lemma mono_replace sc key tx : mono (replace (E := E) sc key tx).
Proof. unfold replace. smono. Qed.
Lemma returns_replace P sc key tx : stable P -> returns P (replace (E := E) sc key tx).
Proof. intros HP. unfold replace. sreturns. Qed.
Lemma mono_record key tx : mono (record (E := E) key tx).
Proof. unfold record. smono. Qed.
Lemma returns_record P key tx : stable P -> returns P (record (E := E) key tx).
Proof. intros HP. unfold record. sreturns. Qed.
Lemma mono_get_action key : mono (get_action (E := E) key).
Proof. unfold get_action. smono. Qed.
Lemma returns_get_action P key : stable P -> returns P (get_action (E := E) key).
Proof. intros HP. unfold get_action. sreturns. Qed.
Lemma mono_validate_retry sc key tx : mono (validate_retry (E := E) sc key tx).
Proof. unfold validate_retry. smono. Qed.
Lemma returns_validate_retry P sc key tx :
  stable P -> returns P (validate_retry (E := E) sc key tx).
Proof. intros HP. unfold validate_retry. sreturns. Qed.
Hint Resolve mono_check_budget returns_check_budget mono_replace returns_replace mono_record
  returns_record mono_get_action returns_get_action mono_validate_retry returns_validate_retry : time.

Lemma mono_bump sc key tx : mono (bump (E := E) sc key tx).
Proof. unfold bump. smono. Qed.
Lemma returns_bump P sc key tx : stable P -> returns P (bump (E := E) sc key tx).
Proof. intros HP. unfold bump. sreturns. Qed.
Hint Resolve mono_bump returns_bump : time.

(** The wait a session configures, in seconds. *)
Definition configured_wait sc : Z :=
  match session sc with Some s => evm_wait_seconds (options s) | None => 0 end.

Lemma returns_resume fuel sc saved intent key :
  configured_wait sc <= 5 * Z.of_nat fuel ->
  returns (fun _ => True) (resume (E := E) (S fuel) sc saved intent key).
Proof.
  intros Hwait. unfold resume. destruct saved as [i raw h sender nonce g|]; [|sreturns].
  apply returns_bind; [auto with time|smono|sreturns|]. intros u.
  apply returns_bind; [auto with time|smono|auto with time|]. intros attempts.
  (* the wait that is read is the configured one *)
  intros w _.
  assert ((if active sc then s ← current sc; mret (evm_wait_seconds (options s)) else mret 0) w
    = (Ok (configured_wait sc), w)) as Hw.
  { unfold active, configured_wait, current, mbind, M_bind, lift.
    destruct (session sc) as [s|]; simpl; [|done]. done. }
  unfold mbind at 1, M_bind at 1. rewrite Hw. clear Hw.
  unfold mbind at 1, M_bind at 1, now. cbv beta iota.
  assert (left_of (clock (env w) + configured_wait sc) (5 * Z.of_nat fuel) w) as Hleft
    by (unfold left_of; lia).
  revert Hleft. generalize (clock (env w) + configured_wait sc). intros deadline Hleft.
  revert w Hleft.
  match goal with |- forall w, _ -> (?m w).1 <> _ =>
    change (returns (left_of deadline (5 * Z.of_nat fuel)) m) end.
  apply returns_bind; [auto with time|smono|sreturns|]. intros policy.
  apply returns_bind; [auto with time|smono|auto with time|]. intros [receipt|].
  { eapply returns_weaken; [apply returns_wait_confirmed|]. unfold left_of. intros w. lia. }
  apply returns_bind; [auto with time|smono|sreturns|]. intros count.
  apply returns_bind; [auto with time|smono|sreturns|]. intros u2.
  apply returns_bind; [auto with time|smono|sreturns|]. intros l.
  apply returns_bind; [auto with time|smono|sreturns|]. intros latest.
  apply returns_bind; [auto with time|smono|auto with time|]. intros [].
  apply returns_poll_included.
Qed.

Lemma mono_poll_included fuel sc attempts deadline policy :
  mono (poll_included (E := E) fuel sc attempts deadline policy).
Proof.
  induction fuel as [|fuel IH]; cbn [poll_included]; unfold wait_confirmed; smono.
Qed.

Lemma returns_send fuel required sc request label :
  configured_wait sc <= 5 * Z.of_nat fuel ->
  returns (fun _ => True) (send (E := E) (S fuel) required sc request label).
Proof.
  intros Hwait. unfold send.
  apply returns_bind; [auto with time|smono|sreturns|]. intros u1.
  apply returns_bind; [auto with time|smono|sreturns|]. intros s.
  apply returns_bind; [auto with time|smono|sreturns|]. intros signer.
  apply returns_bind; [auto with time|smono|sreturns|]. intros chain.
  apply returns_bind; [auto with time|smono|sreturns|]. intros u2.
  apply returns_bind; [auto with time|smono|sreturns|]. intros j.
  set (rq := prepare_request _ _ _ _).
  apply returns_bind; [auto with time|smono|sreturns|]. intros intent.
  apply returns_bind; [auto with time|smono|auto with time|]. intros [saved|];
    [by apply returns_resume|].
  apply returns_bind; [auto with time|smono|sreturns|]. intros u3.
  apply returns_bind; [auto with time|apply mono_map_err; smono|sreturns|]. intros u4.
  apply returns_bind; [auto with time|smono|sreturns|]. intros envelope.
  apply returns_bind; [auto with time|smono|auto with time|]. intros u5.
  apply returns_bind; [auto with time|smono|auto with time|]. intros u6.
  apply returns_bind; [auto with time|smono|sreturns|]. intros []; cbn [negb]; [|sreturns].
  apply returns_bind; [auto with time|smono|auto with time|]. intros u7.
  by apply returns_resume.
Qed.

(** C10: sending terminates.  When the clock never runs backwards and sleeps
    last as long as asked, a send with fuel for the configured wait (one
    round per five seconds, and one more) always returns: with a confirmed
    receipt, an error, or a pause, whatever the node answers. *)
Theorem send_terminates fuel required sc request label (w : World E) :
  configured_wait sc <= 5 * Z.of_nat fuel ->
  (send (S fuel) required sc request label w).1 <> Err OutOfFuel.
Proof. intros Hw. by apply (returns_send fuel required sc request label Hw). Qed.
End Evm.
