(* ===== verification/RobustSend.v ===== *)
(** * Sending over a pool of endpoints (src/evm.rs)

    [EvmEndpoints] and [send_tx_robust]: the sender of everything outside the
    hardened deployment.  It fills and signs with retries, broadcasts the same
    bytes to every endpoint, waits for a receipt of anything it has sent, and
    replaces an unmined transaction at the same nonce with doubled fees.

    An endpoint is its URL; what the endpoints answer is arbitrary and may
    change with every call.  The state records every broadcast and every lookup
    by hash, newest first. *)

From S2P Require Import Prelude Types Retry Journal Chain.

(** ** Interfaces *)

(** The RPC methods of one endpoint, the monotonic clock and the timer, in
    milliseconds.  An error is its text. *)
Class PoolNode (E : Type) : Type := {
  (** [provider.fill] with a wallet; [None] is [SendableTx::Builder]. *)
  pool_fill : string -> string -> TransactionRequest -> E -> (string + option TxEnvelope) * E;
  pool_transaction_count : string -> Address -> E -> (string + Z) * E;
  pool_estimate_gas : string -> TransactionRequest -> E -> (string + Z) * E;
  pool_gas_price : string -> E -> (string + Z) * E;
  pool_send_raw : string -> bytes -> E -> (string + B256) * E;
  pool_receipt : string -> B256 -> E -> (string + option Receipt) * E;
  pool_knows : string -> B256 -> E -> (string + bool) * E;
  now_ms : E -> Z;
  nap_ms : Z -> E -> E
}.

(** ** Errors by their text *)

Definition is_pending_state_error (text : string) : bool :=
  contains "state not available for pending block" text.

Definition is_missing_base_fee_error (text : string) : bool :=
  contains "expected a 16 byte hex string" text && contains "invalid type: null" text.

Definition deterministic_view_failure (text : string) : bool :=
  contains "returned no data" text || contains "execution reverted" text.

Definition should_retry_fill (text : string) : bool :=
  negb (is_pending_state_error text) && is_transient_default text.

Definition send_error_may_mean_landed (text : string) : bool :=
  let message := to_lowercase text in
  existsb (fun signature => contains signature message)
    ["nonce too low"; "already known"; "already exists"; "already imported"; "already in mempool"].

Definition nonce_held_by_pooled_tx (text : string) : bool :=
  let message := to_lowercase text in
  existsb (fun signature => contains signature message)
    ["replacement transaction underpriced"; "existing transaction had higher priority"].

Definition parse_expected_nonce (text : string) : option Z :=
  rest ← text_after "next nonce " text; parse_uint 64 (leading_digits rest).

(** ** Requests *)

Definition set_nonce (n : option Z) (r : TransactionRequest) : TransactionRequest :=
  mkRequest (rq_from r) (rq_to r) (rq_gas_price r) (rq_max_fee_per_gas r) (rq_max_priority_fee_per_gas r)
    (rq_gas r) (rq_value r) (rq_input r) n (rq_chain_id r) (rq_access_list r) (rq_authorization_list r)
    (rq_blob_versioned_hashes r).
Definition set_gas (g : option Z) (r : TransactionRequest) : TransactionRequest :=
  mkRequest (rq_from r) (rq_to r) (rq_gas_price r) (rq_max_fee_per_gas r) (rq_max_priority_fee_per_gas r)
    g (rq_value r) (rq_input r) (rq_nonce r) (rq_chain_id r) (rq_access_list r) (rq_authorization_list r)
    (rq_blob_versioned_hashes r).
Definition set_fees (price fee tip : option Z) (r : TransactionRequest) : TransactionRequest :=
  mkRequest (rq_from r) (rq_to r) price fee tip
    (rq_gas r) (rq_value r) (rq_input r) (rq_nonce r) (rq_chain_id r) (rq_access_list r)
    (rq_authorization_list r) (rq_blob_versioned_hashes r).

Record ReplacementFees : Type := mkFees {
  rf_gas_price : option Z;
  rf_max_fee_per_gas : option Z;
  rf_max_priority_fee_per_gas : option Z
}.

(** [ReplacementFees::doubled_from]. *)
Definition doubled_from (env : TxEnvelope) : ReplacementFees :=
  match tx_gas_price env with
  | Some price => mkFees (Some (saturating_mul 128 price 2)) None None
  | None => mkFees None (Some (saturating_mul 128 (tx_max_fee_per_gas env) 2))
              ((fun tip => saturating_mul 128 tip 2) <$> tx_max_priority_fee_per_gas env)
  end.

(** [ReplacementFees::apply]. *)
Definition apply_fees (f : ReplacementFees) (r : TransactionRequest) : TransactionRequest :=
  set_fees (union (rf_gas_price f) (rq_gas_price r)) (union (rf_max_fee_per_gas f) (rq_max_fee_per_gas r))
    (union (rf_max_priority_fee_per_gas f) (rq_max_priority_fee_per_gas r)) r.

(** [round_request]. *)
Definition round_request (tx : TransactionRequest) (nonce_override gas_override : option Z)
    (replacement_fees : option ReplacementFees) : TransactionRequest :=
  let request := set_nonce nonce_override tx in
  let request := match gas_override with Some gas => set_gas (Some gas) request | None => request end in
  match replacement_fees with Some fees => apply_fees fees request | None => request end.

Definition SEND_ROUNDS : nat := 3.
Definition NONCE_CONTENTION_ATTEMPTS : nat := 5.
Definition MAX_SEND_ATTEMPTS : nat := 16.
Definition AVALANCHE_FUJI_CHAIN_ID : Z := 43113.

(** ** Endpoints *)

(** [EvmEndpoints::connect]: one provider per URL, the first of equal ones. *)
Fixpoint unique (seen urls : list string) : list string :=
  match urls with
  | [] => []
  | url :: urls => if decide (url ∈ seen) then unique seen urls else url :: unique (url :: seen) urls
  end.

Definition connect (valid_url : string -> bool) (urls : list string) : result (list string) :=
  let pool := unique [] urls in
  _ ← ensure_ok (negb (bool_decide (pool = []))) "EvmEndpoints::connect: no RPC URLs provided";
  _ ← ensure_ok (forallb valid_url pool) "invalid URL";
  Ok pool.

(** [EvmEndpoints::rotated]. *)
Definition rotated (n : nat) (pool : list string) : list string :=
  let shift := match pool with [] => 0%nat | _ => Nat.modulo n (length pool) end in
  drop shift pool ++ take shift pool.

(** ** Programs *)

Inductive event : Type :=
  | Broadcast (url : string) (tx : TxEnvelope) (answer : string + B256)
  | Asked (url : string) (hash : B256) (answer : string + bool).

Record Pool (E : Type) : Type := mkPool { pl_env : E; pl_log : list event }.
Arguments mkPool {E} pl_env pl_log.
Arguments pl_env {E} p.
Arguments pl_log {E} p.

Definition error_text (e : error) : string := match e with Failed m => m | _ => "" end.

Section Programs.
Context {E : Type} `{PoolNode E, EvmLib}.
(** The jitter of the backoff. *)
Variable jittered : Z -> Z.
Abbreviation W := (Pool E).

(** A call to an endpoint. *)
Definition ask {A} (f : E -> (string + A) * E) : M W A := fun s =>
  match f (pl_env s) with
  | (inl text, e) => (Err (Failed text), mkPool e (pl_log s))
  | (inr a, e) => (Ok a, mkPool e (pl_log s))
  end.

(** A call whose answer, error or not, is recorded and inspected. *)
Definition logged {A} (f : E -> (string + A) * E) (ev : string + A -> event) : M W (string + A) := fun s =>
  let '(answer, e) := f (pl_env s) in (Ok answer, mkPool e (ev answer :: pl_log s)).

Definition now : M W Z := fun s => (Ok (now_ms (pl_env s)), s).
Definition nap (d : Z) (s : W) : W := mkPool (nap_ms d (pl_env s)) (pl_log s).

(** A [match] on a call that goes on in its error arms. *)
Definition recovering {A} (m : M W A) (handler : error -> M W A) : M W A := fun s =>
  match m s with
  | (Ok a, s) => (Ok a, s)
  | (Err e, s) => handler e s
  end.

(** The error of a call that the caller inspects. *)
Definition refusal {A} (m : M W A) : M W (option error) := fun s =>
  match m s with
  | (Ok _, s) => (Ok None, s)
  | (Err e, s) => (Ok (Some e), s)
  end.

(** A program as the operation of a retry helper, and back. *)
Definition as_op {A} (m : M W A) : W -> (error + A) * W := fun s =>
  match m s with (Ok a, s) => (inr a, s) | (Err e, s) => (inl e, s) end.

Definition retrying {A} (is_transient : string -> bool) (attempts : Z) (m : M W A) : M W A := fun s =>
  match retry_async jittered nap (fun e => is_transient (error_text e)) attempts (as_op m) s with
  | Some (inr a, _, s) => (Ok a, s)
  | Some (inl e, _, s) => (Err e, s)
  | None => (Err OutOfFuel, s)
  end.

Definition falling_back {A} (is_transient : string -> bool) (pool : list string) (m : string -> M W A) : M W A :=
  fun s =>
  match retry_with_fallback jittered nap (fun e => is_transient (error_text e)) pool (fun url => as_op (m url)) s with
  | (Returned (inr a), _, s) => (Ok a, s)
  | (Returned (inl e), _, s) => (Err e, s)
  | (Panicked, _, s) => (Err (Failed "retry_with_fallback called with no endpoints"), s)
  end.

(** [EvmEndpoints::fill_and_sign_once]. *)
Definition fill_and_sign_once (pool : list string) (signer : string) (tx : TransactionRequest) : M W TxEnvelope :=
  falling_back should_retry_fill pool (fun url =>
    filled ← ask (pool_fill signer url tx);
    lift (ok_or filled "wallet filler did not produce a signed envelope")).

(** [EvmEndpoints::prefill_from_latest]. *)
Definition prefill_from_latest (pool : list string) (tx : TransactionRequest) : M W TransactionRequest :=
  from ← lift (ok_or (rq_from tx) "prefill_from_latest: tx.from not set");
  tx ← match rq_nonce tx with
       | Some _ => mret tx
       | None =>
           nonce ← falling_back (fun _ => true) pool (fun url => ask (pool_transaction_count url from));
           mret (set_nonce (Some nonce) tx)
       end;
  match rq_gas tx with
  | Some _ => mret tx
  | None =>
      estimate ← falling_back (fun text => negb (deterministic_view_failure text)) pool
        (fun url => ask (pool_estimate_gas url tx));
      mret (set_gas (Some (saturating_mul 64 estimate 12 / 10)) tx)
  end.

(** [EvmEndpoints::prepare_fill]. *)
Definition prepare_fill (pool : list string) (tx : TransactionRequest) : M W TransactionRequest :=
  if decide (rq_chain_id tx = Some AVALANCHE_FUJI_CHAIN_ID) then prefill_from_latest pool tx else mret tx.

(** [EvmEndpoints::fill_and_sign]. *)
Definition pool_fill_and_sign (pool : list string) (signer : string) (tx : TransactionRequest)
    : M W TxEnvelope :=
  tx ← prepare_fill pool tx;
  recovering (fill_and_sign_once pool signer tx) (fun error =>
    if is_pending_state_error (error_text error) then
      pinned ← prefill_from_latest pool tx; fill_and_sign_once pool signer pinned
    else if is_missing_base_fee_error (error_text error) then
      url ← lift (ok_or (head pool) "index out of bounds");
      gas_price ← ask (pool_gas_price url);
      fill_and_sign_once pool signer
        (set_fees (Some gas_price) (rq_max_fee_per_gas tx) (rq_max_priority_fee_per_gas tx) tx)
    else throw error).

(** The body of [broadcast_raw]: the same bytes to every endpoint. *)
Fixpoint send_to_all (pool : list string) (env : TxEnvelope) : M W (bool * list string) :=
  match pool with
  | [] => mret (false, [])
  | url :: pool =>
      answer ← logged (pool_send_raw url (encoded_2718 env)) (Broadcast url env);
      '(accepted, errors) ← send_to_all pool env;
      mret (match answer with inr _ => (true, errors) | inl text => (accepted, text :: errors) end)
  end.

(** The rejection to surface: the first that says something about the nonce. *)
Definition pick_error (errors : list string) : option string :=
  match List.find (fun e => send_error_may_mean_landed e || nonce_held_by_pooled_tx e) errors with
  | Some e => Some e
  | None => head errors
  end.

Definition broadcast_once (pool : list string) (env : TxEnvelope) : M W B256 :=
  '(accepted, errors) ← send_to_all pool env;
  if accepted : bool then mret (tx_hash env)
  else text ← lift (ok_or (pick_error errors) "swap_remove index out of bounds"); throw (Failed text).

(** [EvmEndpoints::broadcast_raw]. *)
Definition broadcast_raw (pool : list string) (env : TxEnvelope) : M W B256 :=
  retrying (fun text => is_transient_default text || is_pending_state_error text) (Z.of_nat FALLBACK_ATTEMPTS)
    (broadcast_once pool env).

(** [tx_known_by_hash] and [any_tx_known_by_hash]: an error is no answer. *)
Fixpoint tx_known_by_hash (pool : list string) (hash : B256) : M W bool :=
  match pool with
  | [] => mret false
  | url :: pool =>
      answer ← logged (pool_knows url hash) (Asked url hash);
      match answer with
      | inr true => mret true
      | _ => tx_known_by_hash pool hash
      end
  end.

Fixpoint any_tx_known_by_hash (pool : list string) (hashes : list B256) : M W bool :=
  match hashes with
  | [] => mret false
  | hash :: hashes =>
      known ← tx_known_by_hash pool hash;
      if known : bool then mret true else any_tx_known_by_hash pool hashes
  end.

(** One round of [wait_receipt_any]: each hash at each endpoint. *)
Definition ask_receipt (hash : B256) (url : string) : M W (option Receipt) := fun s =>
  match pool_receipt url hash (pl_env s) with
  | (inr found, e) => (Ok found, mkPool e (pl_log s))
  | (inl _, e) => (Ok None, mkPool e (pl_log s))
  end.

Definition poll_receipts (pool : list string) (hashes : list B256) : M W (option Receipt) :=
  first_some (fun hash => first_some (ask_receipt hash) pool) hashes.

Fixpoint wait_receipt_loop (fuel : nat) (pool : list string) (hashes : list B256) (deadline : Z)
    : M W (option Receipt) :=
  match fuel with
  | O => throw OutOfFuel
  | S fuel =>
      found ← poll_receipts pool hashes;
      match found with
      | Some receipt => mret (Some receipt)
      | None =>
          time ← now;
          if deadline <=? time then mret None
          else modify (nap 2000);; wait_receipt_loop fuel pool hashes deadline
      end
  end.

(** [wait_receipt_any]. *)
Definition wait_receipt_any (fuel : nat) (pool : list string) (hashes : list B256) (timeout : Z)
    : M W (option Receipt) :=
  start ← now; wait_receipt_loop fuel pool hashes (start + timeout).

(** ** [send_tx_robust] *)

Record Sending : Type := mkSending {
  s_envelope : option TxEnvelope;
  s_nonce_override : option Z;
  s_replacement_fees : option ReplacementFees;
  s_gas_override : option Z;
  s_sent_hashes : list B256;
  s_round : nat;
  s_contention : nat;
  s_pool : list string
}.

(** What a turn of the loop does: go on, or return. *)
Inductive turn : Type :=
  | Continue (st : Sending)
  | Done (receipt : Receipt).

Definition add_hash (hash : B256) (hashes : list B256) : list B256 :=
  if decide (hash ∈ hashes) then hashes else hashes ++ [hash].

(** The envelope of the turn: the pending one, or a new one. *)
Definition next_envelope (signer : string) (tx : TransactionRequest) (st : Sending) : M W TxEnvelope :=
  match s_envelope st with
  | Some env => mret env
  | None => pool_fill_and_sign (s_pool st) signer
              (round_request tx (s_nonce_override st) (s_gas_override st) (s_replacement_fees st))
  end.

(** After a broadcast that went out: a receipt, or a replacement at the same
    nonce next. *)
Definition await_receipt (fuel : nat) (timeout : Z) (env : TxEnvelope) (st : Sending) : M W turn :=
  found ← wait_receipt_any fuel (s_pool st) (s_sent_hashes st) timeout;
  match found with
  | Some receipt => mret (Done receipt)
  | None =>
      mret (Continue (mkSending None (Some (tx_nonce env)) (Some (doubled_from env)) (Some (tx_gas_limit env))
                        (s_sent_hashes st) (S (s_round st)) (s_contention st) (s_pool st)))
  end.

Definition send_turn (fuel : nat) (endpoints : list string) (signer : string) (tx : TransactionRequest)
    (timeout : Z) (st : Sending) : M W turn :=
  env ← next_envelope signer tx st;
  let sent := add_hash (tx_hash env) (s_sent_hashes st) in
  let st := mkSending (Some env) (s_nonce_override st) (s_replacement_fees st) (s_gas_override st) sent
              (s_round st) (s_contention st) (s_pool st) in
  outcome ← refusal (broadcast_raw (s_pool st) env);
  match outcome with
  | None => await_receipt fuel timeout env st
  | Some error =>
      if send_error_may_mean_landed (error_text error) then
        known ← any_tx_known_by_hash (s_pool st) sent;
        if known : bool then await_receipt fuel timeout env st
        else mret (Continue (mkSending None (parse_expected_nonce (error_text error)) None None sent
                               (s_round st) (s_contention st) (s_pool st)))
      else if nonce_held_by_pooled_tx (error_text error) then
        if Nat.leb NONCE_CONTENTION_ATTEMPTS (s_contention st) then
          throw (Failed "nonce still held after backoff attempts")
        else
          let contention := S (s_contention st) in
          modify (nap (backoff_for_attempt jittered (Z.of_nat (s_contention st))));;
          mret (Continue (mkSending None None None None sent (s_round st) contention
                            (rotated contention endpoints)))
      else throw error
  end.

Fixpoint send_loop (attempts fuel : nat) (endpoints : list string) (signer : string) (tx : TransactionRequest)
    (timeout : Z) (st : Sending) : M W Receipt :=
  match attempts with
  | O => throw (Failed "no receipt after broadcast rounds")
  | S attempts =>
      if Nat.leb SEND_ROUNDS (s_round st) then throw (Failed "no receipt after broadcast rounds")
      else
        t ← send_turn fuel endpoints signer tx timeout st;
        match t with
        | Done receipt => mret receipt
        | Continue st => send_loop attempts fuel endpoints signer tx timeout st
        end
  end.

Definition start_sending (endpoints : list string) (tx : TransactionRequest) : Sending :=
  mkSending None (rq_nonce tx) None None [] 0 0 endpoints.

(** [send_tx_robust_with_warning]. *)
Definition send_tx_robust (fuel : nat) (endpoints : list string) (signer : string) (tx : TransactionRequest)
    (timeout : Z) : M W Receipt :=
  send_loop MAX_SEND_ATTEMPTS fuel endpoints signer tx timeout (start_sending endpoints tx).
End Programs.

(** ** What a program adds to the log *)

Section Log.
Context {E : Type} `{PoolNode E, EvmLib}.
Variable jittered : Z -> Z.
Abbreviation W := (Pool E).
Implicit Types (s : W) (env : TxEnvelope) (pool endpoints : list string).

(** The program logs nothing, and what it returns satisfies [φ]. *)
Definition quietly {A} (m : M W A) (φ : A -> Prop) : Prop :=
  forall s, pl_log (m s).2 = pl_log s /\ forall a, (m s).1 = Ok a -> φ a.

Lemma quietly_ret {A} (a : A) (φ : A -> Prop) : φ a -> quietly (mret a) φ.
Proof. intros Ha s. split; [done|]. by intros a' [= <-]. Qed.
Lemma quietly_lift {A} (r : result A) (φ : A -> Prop) : (forall a, r = Ok a -> φ a) -> quietly (lift r) φ.
Proof. intros Ha s. by split. Qed.
Lemma quietly_throw {A} e (φ : A -> Prop) : quietly (throw e) φ.
Proof. by intros s. Qed.
Lemma quietly_modify f (φ : () -> Prop) :
  φ () -> (forall s : W, pl_log (f s) = pl_log s) -> quietly (modify f) φ.
Proof. intros Hφ Hf s. split; [apply Hf|]. by intros [] _. Qed.
Lemma quietly_ask {A} (f : E -> (string + A) * E) (φ : A -> Prop) :
  (forall e a e', f e = (inr a, e') -> φ a) -> quietly (ask f) φ.
Proof.
  intros Hf s. unfold ask. destruct (f (pl_env s)) as [[t|a] e] eqn:Hr; split; try done.
  intros a' [= <-]. by eapply Hf.
Qed.
Lemma quietly_bind {A B} (m : M W A) (f : A -> M W B) ψ φ :
  quietly m ψ -> (forall a, ψ a -> quietly (f a) φ) -> quietly (m ≫= f) φ.
Proof.
  intros Hm Hf s. destruct (Hm s) as [Hl Ha]. unfold mbind, M_bind.
  destruct (m s) as [[a|e] s1]; simpl in *; [|by split].
  destruct (Hf a (Ha a eq_refl) s1) as [Hl1 Hb]. split; [congruence|done].
Qed.
Lemma quietly_recovering {A} (m : M W A) h φ :
  quietly m φ -> (forall e, quietly (h e) φ) -> quietly (recovering m h) φ.
Proof.
  intros Hm Hh s. destruct (Hm s) as [Hl Ha]. unfold recovering.
  destruct (m s) as [[a|e] s1]; simpl in *; [done|]. destruct (Hh e s1) as [Hl1 Hb]. split; [congruence|done].
Qed.

(** The retry helpers, by what each call preserves and the last one leaves. *)
Lemma as_op_eq {A} (m : M W A) s :
  as_op m s = (match (m s).1 with Ok a => inr a | Err e => inl e end, (m s).2).
Proof. unfold as_op. by destruct (m s) as [[a|e] s']. Qed.

Definition of_sum {A} (r : error + A) : result A := match r with inr a => Ok a | inl e => Err e end.

Lemma as_op_post {A} (I : W -> Prop) (Q : result A -> W -> Prop) (m : M W A) :
  (forall s, I s -> Q (m s).1 (m s).2 /\ (forall e, (m s).1 = Err e -> I (m s).2)) ->
  forall s, I s -> Q (of_sum (as_op m s).1) (as_op m s).2 /\
    (forall x, (as_op m s).1 = inl x -> I (as_op m s).2).
Proof.
  intros Hm s Hi. destruct (Hm s Hi) as [Hq He]. rewrite as_op_eq. simpl.
  destruct ((m s).1) as [a|e] eqn:Hr; simpl; (split; [done|]); [done|]. intros x _. by eapply He.
Qed.

Lemma retrying_post {A} (I : W -> Prop) (Q : result A -> W -> Prop) p n (m : M W A) s :
  (forall s, I s -> Q (m s).1 (m s).2 /\ (forall e, (m s).1 = Err e -> I (m s).2)) ->
  (forall d s, I s -> I (nap d s)) -> I s ->
  Q (retrying jittered p n m s).1 (retrying jittered p n m s).2.
Proof.
  intros Hm Hn Hi. unfold retrying.
  destruct (retry_loop_spec jittered nap (fun e => p (error_text e)) (as_op m) (S (Z.to_nat n)) n 0 s)
    as (k & r & slept & s' & Hr & Hc & _); [lia..|]. unfold retry_async. rewrite Hr.
  assert (Q (of_sum r) s') as Hq; [|by destruct r].
  eapply (calls_post jittered nap _ I (fun r s => Q (of_sum r) s)); [|done..]. by apply as_op_post.
Qed.

Lemma falling_back_post {A} (I : W -> Prop) (Q : result A -> W -> Prop) p pool (m : string -> M W A) s :
  (forall url s, I s -> Q (m url s).1 (m url s).2 /\ (forall e, (m url s).1 = Err e -> I (m url s).2)) ->
  (forall d s, I s -> I (nap d s)) -> (forall msg s, I s -> Q (Err (Failed msg)) s) -> I s ->
  Q (falling_back jittered p pool m s).1 (falling_back jittered p pool m s).2.
Proof.
  intros Hm Hn Hp Hi. unfold falling_back. destruct pool as [|c cs]; [by apply Hp|].
  destruct (fallback_loop_spec jittered nap (fun e => p (error_text e)) (fun url => as_op (m url)) cs c None s)
    as (r & slept & s' & Hr & Hf & _). unfold retry_with_fallback. rewrite Hr.
  assert (Q (of_sum r) s') as Hq; [|by destruct r].
  eapply (fallback_post jittered nap _ I (fun r s => Q (of_sum r) s)); [|done..].
  intros url s1 _. apply as_op_post. apply Hm.
Qed.

Lemma quietly_falling_back {A} p pool (m : string -> M W A) φ :
  (forall url, quietly (m url) φ) -> quietly (falling_back jittered p pool m) φ.
Proof.
  intros Hm s. apply (falling_back_post (fun s' => pl_log s' = pl_log s)
    (fun r s' => pl_log s' = pl_log s /\ forall a, r = Ok a -> φ a)); try done.
  intros url s1 Hs1. destruct (Hm url s1) as [Hl Ha]. rewrite Hl. done.
Qed.

(** *** Waiting *)

Lemma quietly_first_some {A B} (f : A -> M W (option B)) l φ :
  (forall a, a ∈ l -> quietly (f a) (fun o => forall b, o = Some b -> φ b)) ->
  quietly (first_some f l) (fun o => forall b, o = Some b -> φ b).
Proof.
  induction l as [|a l IH]; intros Hf; simpl; [by apply quietly_ret|].
  eapply quietly_bind; [apply Hf; by left|]. intros [b|] Hb; [apply quietly_ret; eauto|].
  apply IH. intros a' Ha. apply Hf. by right.
Qed.

(** An endpoint of the pool answered with the receipt for this hash. *)
Definition has_receipt (pool : list string) (hashes : list B256) (receipt : Receipt) : Prop :=
  exists url hash e e', url ∈ pool /\ hash ∈ hashes /\ pool_receipt (E := E) url hash e = (inr (Some receipt), e').

Lemma quietly_poll_receipts pool hashes :
  quietly (poll_receipts (E := E) pool hashes) (fun o => forall r, o = Some r -> has_receipt pool hashes r).
Proof.
  apply quietly_first_some. intros hash Hh. apply quietly_first_some. intros url Hu s. unfold ask_receipt.
  destruct (pool_receipt url hash (pl_env s)) as [[t|found] e] eqn:Hr; (split; [done|]);
    intros o [= <-] r Ho; [done|]. subst found. by exists url, hash, (pl_env s), e.
Qed.

Lemma quietly_wait_receipt fuel pool hashes timeout :
  quietly (wait_receipt_any (E := E) fuel pool hashes timeout) (fun o => forall r, o = Some r -> has_receipt pool hashes r).
Proof.
  apply (quietly_bind _ _ (fun _ => True)); [by intros s|]. intros start _.
  generalize (start + timeout). intros deadline. induction fuel as [|fuel IH]; simpl; [apply quietly_throw|].
  eapply quietly_bind; [apply quietly_poll_receipts|]. intros [r|] Hr; [by apply quietly_ret|].
  apply (quietly_bind _ _ (fun _ => True)); [by intros s|]. intros time _.
  destruct (deadline <=? time); [by apply quietly_ret|].
  apply (quietly_bind _ _ (fun _ => True)); [by apply quietly_modify|]. intros [] _. apply IH.
Qed.

(** *** Broadcasting and asking *)

Definition rejected (ev : event) : Prop :=
  match ev with Broadcast _ _ (inr _) => False | _ => True end.
Definition broadcast_of (env : TxEnvelope) (ev : event) : Prop :=
  match ev with Broadcast _ env' _ => env' = env | Asked _ _ _ => False end.

Lemma send_to_all_log pool env s :
  exists new accepted errors,
    send_to_all pool env s = (Ok (accepted, errors), mkPool (pl_env (send_to_all pool env s).2) (new ++ pl_log s)) /\
    Forall (broadcast_of env) new /\ length new = length pool /\
    (accepted = false ->
       Forall rejected new /\ length errors = length pool /\
       forall text, text ∈ errors -> exists url, Broadcast url env (inl text) ∈ new).
Proof.
  revert s. induction pool as [|url pool IH]; intros s.
  { exists [], false, []. destruct s. do 3 (split; [done|]). intros _. split; [done|]. split; [done|].
    by intros text ?%not_elem_of_nil. }
  cbn [send_to_all]. unfold logged, mbind, M_bind.
  destruct (pool_send_raw url (encoded_2718 env) (pl_env s)) as [answer e]. 
  destruct (IH (mkPool e (Broadcast url env answer :: pl_log s))) as (new & accepted & errors & Heq & Hof & Hlen & Hrej).
  rewrite Heq. cbn [pl_log pl_env fst snd mret M_ret].
  exists (new ++ [Broadcast url env answer]),
    (match answer with inr _ => true | inl _ => accepted end),
    (match answer with inr _ => errors | inl text => text :: errors end).
  split; [rewrite <- app_assoc; by destruct answer|].
  split; [apply Forall_app; repeat constructor; done|]. split; [rewrite length_app; simpl; lia|].
  destruct answer as [text|h]; [|done]. intros Hacc. destruct (Hrej Hacc) as (Hr & Hle & Hin).
  split; [apply Forall_app; repeat constructor; done|]. split; [simpl; lia|].
  intros text' [->|Ht]%elem_of_cons; [exists url; set_solver|].
  destruct (Hin _ Ht) as [u Hu]. exists u. set_solver.
Qed.

(** A failed broadcast ends with a refusal of every endpoint, one of which is
    the error it returns. *)
Definition refused_by_all (env : TxEnvelope) (e : error) (new : list event) : Prop :=
  exists refused earlier url text,
    new = refused ++ earlier /\ Forall rejected refused /\ e = Failed text /\
    Broadcast url env (inl text) ∈ refused.

Lemma pick_error_in errors : errors <> [] -> exists text, pick_error errors = Some text /\ text ∈ errors.
Proof.
  intros Hne. unfold pick_error. destruct (List.find _ errors) as [t|] eqn:Hf.
  - exists t. split; [done|]. by apply find_some in Hf as [?%list_elem_of_In _].
  - destruct errors as [|t errors]; [done|]. exists t. split; [done|by left].
Qed.

Lemma broadcast_once_log pool env s :
  pool <> [] ->
  exists new, pl_log (broadcast_once pool env s).2 = new ++ pl_log s /\ Forall (broadcast_of env) new /\
    new <> [] /\
    match (broadcast_once pool env s).1 with
    | Ok _ => True
    | Err e => Forall rejected new /\ exists url text, e = Failed text /\ Broadcast url env (inl text) ∈ new
    end.
Proof.
  intros Hpool. unfold broadcast_once, mbind, M_bind.
  destruct (send_to_all_log pool env s) as (new & accepted & errors & Heq & Hof & Hlen & Hrej).
  rewrite Heq. exists new. assert (new <> []) as Hne by (by destruct new, pool).
  destruct accepted; [done|]. destruct (Hrej eq_refl) as (Hr & Hle & Hin).
  destruct (pick_error_in errors) as (text & Hp & Ht); [by destruct errors, pool|]. rewrite Hp. simpl.
  do 4 (split; [done|]). destruct (Hin _ Ht) as [url Hu]. eauto.
Qed.

Lemma broadcast_raw_log pool env s :
  pool <> [] ->
  exists new, pl_log (broadcast_raw jittered pool env s).2 = new ++ pl_log s /\ Forall (broadcast_of env) new /\
    new <> [] /\
    match (broadcast_raw jittered pool env s).1 with
    | Ok _ => True
    | Err e => refused_by_all env e new
    end.
Proof.
  intros Hpool. unfold broadcast_raw.
  apply (retrying_post (fun s' => exists new, pl_log s' = new ++ pl_log s /\ Forall (broadcast_of env) new)
    (fun r s' => exists new, pl_log s' = new ++ pl_log s /\ Forall (broadcast_of env) new /\ new <> [] /\
       match r with Ok _ => True | Err e => refused_by_all env e new end)); [|done|by exists []].
  intros s1 (earlier & Hl & Hof). destruct (broadcast_once_log pool env s1 Hpool) as (new & Hn & Hof' & Hne & Hr).
  rewrite Hn, Hl, app_assoc. split.
  - exists (new ++ earlier). split; [done|]. split; [by apply Forall_app|]. split; [by destruct new|].
    destruct ((broadcast_once pool env s1).1); [done|]. destruct Hr as (Hrej & url & text & -> & Hin).
    by exists new, earlier, url, text.
  - intros e _. exists (new ++ earlier). split; [done|]. by apply Forall_app.
Qed.

Definition asking (ev : event) : Prop := match ev with Asked _ _ _ => True | Broadcast _ _ _ => False end.

Lemma tx_known_log pool hash s :
  exists new known,
    tx_known_by_hash pool hash s = (Ok known, mkPool (pl_env (tx_known_by_hash pool hash s).2) (new ++ pl_log s)) /\
    Forall asking new /\
    (known = false -> forall url, url ∈ pool -> exists a, Asked url hash a ∈ new /\ a <> inr true).
Proof.
  revert s. induction pool as [|url pool IH]; intros s.
  { exists [], false. destruct s. do 2 (split; [done|]). by intros _ url ?%not_elem_of_nil. }
  cbn [tx_known_by_hash]. unfold logged, mbind, M_bind.
  destruct (pool_knows url hash (pl_env s)) as [answer e].
  destruct (IH (mkPool e (Asked url hash answer :: pl_log s))) as (new & known & Heq & Has & Hk).
  assert (forall ka, answer <> inr true -> ka = known -> ka = false -> forall u, u ∈ url :: pool ->
    exists a, Asked u hash a ∈ new ++ [Asked url hash answer] /\ a <> inr true) as Hall.
  { intros ka Ha -> Hf u [->|Hu]%elem_of_cons; [exists answer; set_solver|].
    destruct (Hk Hf u Hu) as (a & ? & ?). exists a. set_solver. }
  destruct answer as [t|[]].
  2: { exists [Asked url hash (inr true)], true. by repeat constructor. }
  all: rewrite Heq; eexists (new ++ [_]), known; rewrite <- app_assoc; split; [done|];
    (split; [apply Forall_app; by repeat constructor|by eapply Hall]).
Qed.

Lemma any_known_log pool hashes s :
  exists new known,
    any_tx_known_by_hash pool hashes s =
      (Ok known, mkPool (pl_env (any_tx_known_by_hash pool hashes s).2) (new ++ pl_log s)) /\
    Forall asking new /\
    (known = false -> forall hash url, hash ∈ hashes -> url ∈ pool ->
       exists a, Asked url hash a ∈ new /\ a <> inr true).
Proof.
  revert s. induction hashes as [|hash hashes IH]; intros s.
  { exists [], false. destruct s. do 2 (split; [done|]). by intros _ hash url ?%not_elem_of_nil. }
  cbn [any_tx_known_by_hash]. unfold mbind, M_bind.
  destruct (tx_known_log pool hash s) as (new & known & Heq & Has & Hk). rewrite Heq.
  destruct known; [exists new, true; by repeat split|].
  destruct (IH (mkPool (pl_env (tx_known_by_hash pool hash s).2) (new ++ pl_log s)))
    as (new' & known & Heq' & Has' & Hk').
  rewrite Heq'. exists (new' ++ new), known. simpl. rewrite app_assoc. split; [done|].
  split; [by apply Forall_app|]. intros Hf h u [->|Hh]%elem_of_cons Hu.
  - destruct (Hk eq_refl u Hu) as (a & ? & ?). exists a. set_solver.
  - destruct (Hk' Hf h u Hh Hu) as (a & ? & ?). exists a. set_solver.
Qed.
End Log.

Section Filling.
Context {E : Type} `{PoolNode E, EvmLib}.
Variable jittered : Z -> Z.
Implicit Types (pool : list string).

(** *** Filling *)

(** alloy's fillers leave a field alone that the request sets. *)
Hypothesis fill_keeps_nonce : forall signer url rq (e : E) env e' n,
  pool_fill signer url rq e = (inr (Some env), e') -> rq_nonce rq = Some n -> tx_nonce env = n.

Lemma quietly_fill_once pool signer tx :
  quietly (fill_and_sign_once jittered pool signer tx) (fun env => forall n, rq_nonce tx = Some n -> tx_nonce env = n).
Proof.
  apply quietly_falling_back. intros url.
  eapply (quietly_bind _ _ (fun filled => exists e e', pool_fill signer url tx e = (inr filled, e'))).
  - apply quietly_ask. eauto.
  - intros filled (e & e' & Hf). apply quietly_lift. intros env ->%ok_or_ok n Hn. by eapply fill_keeps_nonce.
Qed.

Lemma quietly_prefill pool tx :
  quietly (prefill_from_latest jittered pool tx) (fun tx' => forall n, rq_nonce tx = Some n -> rq_nonce tx' = Some n).
Proof.
  unfold prefill_from_latest. apply (quietly_bind _ _ (fun _ => True)); [by apply quietly_lift|]. intros from _.
  eapply (quietly_bind _ _ (fun tx' => forall n, rq_nonce tx = Some n -> rq_nonce tx' = Some n)).
  - destruct (rq_nonce tx) as [k|] eqn:Hk; [apply quietly_ret; congruence|].
    apply (quietly_bind _ _ (fun _ => True)); [|intros nonce _; by apply quietly_ret].
    apply quietly_falling_back. intros url. by apply quietly_ask.
  - intros tx' Htx. destruct (rq_gas tx') as [g|]; [by apply quietly_ret|].
    apply (quietly_bind _ _ (fun _ => True)); [|intros g _; by apply quietly_ret].
    apply quietly_falling_back. intros url. by apply quietly_ask.
Qed.

Lemma quietly_pool_fill pool signer tx :
  quietly (pool_fill_and_sign jittered pool signer tx) (fun env => forall n, rq_nonce tx = Some n -> tx_nonce env = n).
Proof.
  unfold pool_fill_and_sign, prepare_fill.
  eapply (quietly_bind _ _ (fun tx' => forall n, rq_nonce tx = Some n -> rq_nonce tx' = Some n)).
  { case_decide; [apply quietly_prefill|by apply quietly_ret]. }
  intros tx' Htx. assert (forall tx2, (forall n, rq_nonce tx' = Some n -> rq_nonce tx2 = Some n) ->
    quietly (fill_and_sign_once jittered pool signer tx2) (fun env => forall n, rq_nonce tx = Some n -> tx_nonce env = n))
    as Honce.
  { intros tx2 H2 s. destruct (quietly_fill_once pool signer tx2 s) as [Hl Ha]. split; [done|]. eauto. }
  apply quietly_recovering; [by apply Honce|]. intros e.
  destruct (is_pending_state_error _); [|destruct (is_missing_base_fee_error _); [|apply quietly_throw]].
  - eapply quietly_bind; [apply quietly_prefill|]. intros pinned Hp. by apply Honce.
  - apply (quietly_bind _ _ (fun _ => True)); [by apply quietly_lift|]. intros url _.
    apply (quietly_bind _ _ (fun _ => True)); [by apply quietly_ask|]. intros price _. by apply Honce.
Qed.

Lemma quietly_next_envelope signer tx st :
  quietly (next_envelope jittered signer tx st) (fun env =>
    match s_envelope st with
    | Some e => env = e
    | None => forall n, s_nonce_override st = Some n -> tx_nonce env = n
    end).
Proof.
  unfold next_envelope. destruct (s_envelope st) as [env|]; [by apply quietly_ret|].
  intros s. destruct (quietly_pool_fill (s_pool st) signer
    (round_request tx (s_nonce_override st) (s_gas_override st) (s_replacement_fees st)) s) as [Hl Ha].
  split; [done|]. intros env He n Hn. apply (Ha env He). rewrite <- Hn.
  unfold round_request. by destruct (s_gas_override st), (s_replacement_fees st).
Qed.
End Filling.

(** ** One send, one nonce *)

(** [log] holds an accepted broadcast of [tx], with [newer] after it. *)
Definition accepted_in (log newer : list event) (tx : TxEnvelope) : Prop :=
  exists url hash older, log = newer ++ Broadcast url tx (inr hash) :: older.

(** Why a send may go on at another nonce after [tx] was accepted: an endpoint
    reported that another transaction holds the nonce, or that the nonce is
    used, and then no endpoint knew [tx]. *)
Definition excused (endpoints : list string) (tx : TxEnvelope) (newer : list event) : Prop :=
  exists url env text, Broadcast url env (inl text) ∈ newer /\
    (nonce_held_by_pooled_tx text = true \/
     send_error_may_mean_landed text = true /\
     forall url, url ∈ endpoints -> exists answer, Asked url (tx_hash tx) answer ∈ newer /\ answer <> inr true).

(** Every accepted broadcast satisfies [φ], or the send moved on from it. *)
Definition settled (endpoints : list string) (φ : TxEnvelope -> Prop) (log : list event) : Prop :=
  forall newer tx, accepted_in log newer tx -> φ tx \/ excused endpoints tx newer.

Definition separated (endpoints : list string) (log : list event) : Prop :=
  forall later url tx answer log', log = later ++ Broadcast url tx answer :: log' ->
    settled endpoints (fun tx' => tx_nonce tx' = tx_nonce tx) log'.

Lemma accepted_skip pre log newer tx :
  Forall rejected pre -> accepted_in (pre ++ log) newer tx ->
  exists rest, newer = pre ++ rest /\ accepted_in log rest tx.
Proof.
  induction 1 as [|ev pre Hev _ IH] in newer |- *; [by exists newer|].
  intros (url & hash & older & Heq). destruct newer as [|ev' newer]; simpl in Heq; injection Heq as -> Heq; [done|].
  destruct (IH newer) as (rest & -> & Hacc); [by exists url, hash, older|]. by exists rest.
Qed.

Section Separated.
Variable endpoints : list string.
Implicit Types (tx env : TxEnvelope) (log new : list event).

Lemma excused_mono tx newer newer' : newer ⊆ newer' -> excused endpoints tx newer -> excused endpoints tx newer'.
Proof.
  intros Hsub (url & env & text & Hin & Hwhy). exists url, env, text. split; [set_solver|].
  destruct Hwhy as [?|[? Hall]]; [by left|right]. split; [done|]. intros u Hu.
  destruct (Hall u Hu) as (a & ? & ?). exists a. set_solver.
Qed.

Lemma settled_skip φ pre log : Forall rejected pre -> settled endpoints φ log -> settled endpoints φ (pre ++ log).
Proof.
  intros Hpre Hs newer tx Hacc. destruct (accepted_skip _ _ _ _ Hpre Hacc) as (rest & -> & Hacc').
  destruct (Hs _ _ Hacc'); [by left|right]. eapply excused_mono; [|done]. set_solver.
Qed.

Lemma settled_broadcasts env new log :
  Forall (broadcast_of env) new -> settled endpoints (fun tx => tx_nonce tx = tx_nonce env) log ->
  settled endpoints (fun tx => tx_nonce tx = tx_nonce env) (new ++ log).
Proof.
  intros Hnew Hs. induction Hnew as [|ev new Hev _ IH]; [done|]. intros newer tx (url & hash & older & Heq).
  destruct newer as [|ev' newer]; simpl in Heq; injection Heq as -> Heq.
  - left. simpl in Hev. by subst.
  - destruct (IH newer tx) as [?|?]; [by exists url, hash, older|by left|right].
    eapply excused_mono; [|done]. set_solver.
Qed.

Lemma separated_cons ev log :
  separated endpoints log ->
  match ev with
  | Broadcast _ env _ => settled endpoints (fun tx => tx_nonce tx = tx_nonce env) log
  | Asked _ _ _ => True
  end -> separated endpoints (ev :: log).
Proof.
  intros Hs Hev later url tx answer log' Heq.
  destruct later as [|ev' later]; simpl in Heq; injection Heq as -> Heq; [by subst|by eapply Hs].
Qed.

Lemma separated_broadcasts env new log :
  Forall (broadcast_of env) new -> settled endpoints (fun tx => tx_nonce tx = tx_nonce env) log ->
  separated endpoints log -> separated endpoints (new ++ log).
Proof.
  intros Hnew Hset Hsep. induction Hnew as [|ev new Hev Hnew IH]; [done|]. apply separated_cons; [done|].
  destruct ev as [u env' a|]; [|done]. simpl in Hev. subst. by apply settled_broadcasts.
Qed.

Lemma separated_asks new log :
  Forall asking new -> separated endpoints log -> separated endpoints (new ++ log).
Proof.
  intros Hnew Hsep. induction Hnew as [|ev new Hev Hnew IH]; [done|]. apply separated_cons; [done|].
  by destruct ev.
Qed.

Lemma asking_rejected new : Forall asking new -> Forall rejected new.
Proof. intros Hn. eapply list.Forall_impl; [exact Hn|]. by intros []. Qed.

(** A refusal of every endpoint about the nonce excuses everything before it. *)
Lemma refused_settled env e new asks log (hashes : list B256) :
  refused_by_all env e new -> Forall asking asks ->
  (forall newer tx, accepted_in (new ++ log) newer tx -> tx_hash tx ∈ hashes) ->
  (nonce_held_by_pooled_tx (error_text e) = true \/
   send_error_may_mean_landed (error_text e) = true /\
   forall hash url, hash ∈ hashes -> url ∈ endpoints -> exists a, Asked url hash a ∈ asks /\ a <> inr true) ->
  settled endpoints (fun _ => False) (asks ++ new ++ log).
Proof.
  intros (refused & earlier & url & text & -> & Hrej & -> & Hin) Hasks Hh Hwhy newer tx Hacc. right.
  rewrite <- app_assoc in Hacc, Hh. rewrite app_assoc in Hacc.
  assert (Forall rejected (asks ++ refused)) as Hr by (apply Forall_app; split; [by apply asking_rejected|done]).
  destruct (accepted_skip _ _ _ _ Hr Hacc) as (rest & -> & Hacc').
  exists url, env, text. split; [set_solver|]. destruct Hwhy as [?|[? Hall]]; [by left|right]. split; [done|].
  intros u Hu. destruct (Hall (tx_hash tx) u) as (a & ? & ?); [|done|].
  - destruct Hacc' as (u' & h & older & Heq). apply (Hh (refused ++ rest)).
    exists u', h, older. by rewrite Heq, app_assoc.
  - exists a. set_solver.
Qed.
End Separated.

Section Once.
Context {E : Type} `{PoolNode E, EvmLib}.
Variable jittered : Z -> Z.
Hypothesis fill_keeps_nonce : forall signer url rq (e : E) env e' n,
  pool_fill signer url rq e = (inr (Some env), e') -> rq_nonce rq = Some n -> tx_nonce env = n.
Variables (endpoints : list string) (signer : string) (tx : TransactionRequest) (timeout : Z).
Hypothesis endpoints_nonempty : endpoints <> [].
Abbreviation W := (Pool E).
Implicit Types (s : W) (st : Sending) (env : TxEnvelope).

(** The next broadcast is at the nonce of [env]. *)
Definition pinned st env : Prop :=
  match s_envelope st with
  | Some current => tx_nonce env = tx_nonce current
  | None => s_nonce_override st = Some (tx_nonce env)
  end.

(** Each hash is that of a transaction this send broadcast. *)
Definition sent_in (log : list event) (hashes : list B256) : Prop :=
  forall hash, hash ∈ hashes -> exists url env answer, Broadcast url env answer ∈ log /\ tx_hash env = hash.

Record turn_inv st (log : list event) : Prop := {
  ti_pool : s_pool st <> [] /\ forall url, url ∈ s_pool st <-> url ∈ endpoints;
  ti_hashes newer env : accepted_in log newer env -> tx_hash env ∈ s_sent_hashes st;
  ti_sent : sent_in log (s_sent_hashes st);
  ti_settled : settled endpoints (pinned st) log;
  ti_separated : separated endpoints log
}.

Lemma settled_weaken (φ ψ : TxEnvelope -> Prop) log :
  (forall env, φ env -> ψ env) -> settled endpoints φ log -> settled endpoints ψ log.
Proof. intros Himp Hs newer env Hacc. destruct (Hs _ _ Hacc); auto. Qed.

Lemma sent_in_app new log hashes : sent_in log hashes -> sent_in (new ++ log) hashes.
Proof. intros Hs h Hh. destruct (Hs h Hh) as (u & env & a & ? & ?). exists u, env, a. set_solver. Qed.

Lemma elem_add_hash h h' hashes : h ∈ add_hash h' hashes <-> h = h' \/ h ∈ hashes.
Proof. unfold add_hash. case_decide; set_solver. Qed.

(** The state of a turn once its envelope is fixed. *)
Definition with_envelope env st : Sending :=
  mkSending (Some env) (s_nonce_override st) (s_replacement_fees st) (s_gas_override st)
    (add_hash (tx_hash env) (s_sent_hashes st)) (s_round st) (s_contention st) (s_pool st).

Lemma turn_inv_broadcasts st env new log :
  turn_inv st log ->
  match s_envelope st with
  | Some e => env = e
  | None => forall n, s_nonce_override st = Some n -> tx_nonce env = n
  end ->
  Forall (broadcast_of env) new -> new <> [] -> turn_inv (with_envelope env st) (new ++ log).
Proof.
  intros [Hp Hh Hsent Hset Hsep] Henv Hnew Hne.
  assert (settled endpoints (fun t => tx_nonce t = tx_nonce env) log) as Hnonce.
  { eapply settled_weaken; [|exact Hset]. intros t. unfold pinned.
    destruct (s_envelope st); [by subst|]. intros Hn. by rewrite (Henv _ Hn). }
  split; [done| | | |].
  - clear Hset Hsep Hnonce Hsent Henv Hne. intros newer t. simpl. rewrite elem_add_hash. revert newer.
    induction Hnew as [|ev new Hev _ IH]; simpl; intros newer; [intros ?%Hh; by right|].
    intros (u & h & older & Heq). destruct newer as [|ev' newer]; injection Heq as -> Heq.
    + simpl in Hev. subst. by left.
    + apply (IH newer). by exists u, h, older.
  - intros h. simpl. rewrite elem_add_hash. intros [->|Hin]; [|by eapply sent_in_app].
    destruct new as [|[u t a|] new]; [done| |]; inversion_clear Hnew; simpl in *; [subst|done].
    exists u, env, a. set_solver.
  - by apply settled_broadcasts.
  - by eapply separated_broadcasts.
Qed.

Lemma turn_inv_asks st asks log :
  Forall asking asks -> turn_inv st log -> turn_inv st (asks ++ log).
Proof.
  intros Ha [Hp Hh Hsent Hset Hsep]. pose proof (asking_rejected _ Ha) as Hr. split; [done| | | |].
  - intros newer t Hacc. destruct (accepted_skip _ _ _ _ Hr Hacc) as (rest & _ & ?). by eapply Hh.
  - by apply sent_in_app.
  - by apply settled_skip.
  - by apply separated_asks.
Qed.

(** What a turn leaves. *)
Definition good_turn (r : result turn) (log : list event) : Prop :=
  match r with
  | Ok (Continue st) => turn_inv st log
  | Ok (Done receipt) =>
      separated endpoints log /\
      exists hashes, has_receipt (E := E) endpoints hashes receipt /\ sent_in log hashes
  | Err _ => separated endpoints log
  end.

Definition good_after (p : result turn * W) : Prop := good_turn p.1 (pl_log p.2).

Lemma await_receipt_good fuel env st s :
  s_envelope st = Some env -> turn_inv st (pl_log s) ->
  good_after (await_receipt fuel timeout env st s).
Proof.
  intros Hst [[Hne Hp] Hh Hsent Hset Hsep]. unfold await_receipt, mbind, M_bind.
  destruct (quietly_wait_receipt fuel (s_pool st) (s_sent_hashes st) timeout s) as [Hl Hr].
  destruct (wait_receipt_any fuel (s_pool st) (s_sent_hashes st) timeout s) as [[[receipt|]|e] s'];
    unfold good_after; simpl in *; rewrite Hl; [|split; simpl; try done|done].
  - split; [done|]. destruct (Hr _ eq_refl receipt eq_refl) as (u & h & e & e' & Hu & Hhash & Hq).
    exists (s_sent_hashes st). split; [|done]. exists u, h, e, e'. by rewrite <- Hp.
  - eapply settled_weaken; [|exact Hset]. intros t. unfold pinned. rewrite Hst. simpl. congruence.
Qed.

Lemma rotated_elem n (l : list string) url : url ∈ rotated n l <-> url ∈ l.
Proof.
  unfold rotated. set (k := match l with [] => _ | _ => _ end). rewrite <- (take_drop k l) at 3. set_solver.
Qed.

Lemma rotated_nonempty n (l : list string) : l <> [] -> rotated n l <> [].
Proof.
  intros Hl Hr. destruct l as [|u l]; [done|]. assert (u ∈ rotated n (u :: l)) as Hu by (apply rotated_elem; by left).
  rewrite Hr in Hu. by apply not_elem_of_nil in Hu.
Qed.

Lemma send_turn_good fuel st s :
  turn_inv st (pl_log s) ->
  good_after (send_turn jittered fuel endpoints signer tx timeout st s).
Proof.
  intros Hinv. unfold send_turn. unfold mbind at 1. unfold M_bind at 1.
  destruct (quietly_next_envelope jittered fill_keeps_nonce signer tx st s) as [Hl He].
  destruct (next_envelope jittered signer tx st s) as [[env|e] s1]; simpl in Hl, He;
    [|unfold good_after; simpl; rewrite Hl; apply Hinv].
  specialize (He env eq_refl). cbv zeta. change (mkSending (Some env) _ _ _ _ _ _ _) with (with_envelope env st).
  cbn [s_pool with_envelope]. unfold refusal. unfold mbind at 1. unfold M_bind at 1.
  destruct (broadcast_raw_log jittered (s_pool st) env s1) as (new & Hlog & Hof & Hne & Herr); [apply Hinv|].
  rewrite Hl in Hlog. pose proof (turn_inv_broadcasts _ _ _ _ Hinv He Hof Hne) as Hinv2. rewrite <- Hlog in Hinv2.
  destruct (broadcast_raw jittered (s_pool st) env s1) as [[h|err] s2]; simpl in Hlog, Herr, Hinv2.
  { by apply await_receipt_good. }
  destruct (send_error_may_mean_landed (error_text err)) eqn:Hland.
  - unfold mbind at 1. unfold M_bind at 1.
    destruct (any_known_log jittered (s_pool st) (add_hash (tx_hash env) (s_sent_hashes st)) s2)
      as (asks & known & Heq & Hasks & Hknown). cbn [with_envelope s_sent_hashes]. rewrite Heq.
    set (s3 := mkPool _ _). assert (turn_inv (with_envelope env st) (pl_log s3)) as Hinv3
      by (by apply turn_inv_asks).
    destruct known; [by apply await_receipt_good|]. cbn. destruct Hinv3 as [Hp Hh Hsent _ Hsep].
    split; [exact Hp|exact Hh|exact Hsent| |exact Hsep].
    apply (settled_weaken (fun _ => False)); [done|]. simpl. rewrite Hlog.
    eapply refused_settled; [done..| |right; split; [done|]].
    + rewrite <- Hlog. exact (ti_hashes _ _ Hinv2).
    + intros hash url Hhash Hurl. apply Hknown; [done|done|]. by apply Hinv.
  - destruct (nonce_held_by_pooled_tx (error_text err)) eqn:Hheld; [|apply Hinv2].
    destruct (Nat.leb _ _); [apply Hinv2|]. cbn. destruct Hinv2 as [Hp Hh Hsent _ Hsep]. split; simpl.
    + split; [by apply rotated_nonempty|]. apply rotated_elem.
    + exact Hh.
    + exact Hsent.
    + apply (settled_weaken (fun _ => False)); [done|]. rewrite Hlog.
      apply (refused_settled endpoints env err new [] (pl_log s) (s_sent_hashes (with_envelope env st)));
        [done|constructor| |by left]. by rewrite <- Hlog.
    + exact Hsep.
Qed.

Lemma send_loop_good attempts fuel st s :
  turn_inv st (pl_log s) ->
  let p := send_loop jittered attempts fuel endpoints signer tx timeout st s in
  separated endpoints (pl_log p.2) /\
  forall receipt, p.1 = Ok receipt ->
    exists hashes, has_receipt (E := E) endpoints hashes receipt /\ sent_in (pl_log p.2) hashes.
Proof.
  revert st s. induction attempts as [|attempts IH]; intros st s Hinv p; [by split; [apply Hinv|]|].
  subst p. cbn [send_loop]. destruct (Nat.leb SEND_ROUNDS (s_round st)); [by split; [apply Hinv|]|].
  unfold mbind, M_bind.
  pose proof (send_turn_good fuel st s Hinv) as Hg. unfold good_after in Hg.
  destruct (send_turn jittered fuel endpoints signer tx timeout st s) as [[[st'|receipt]|e] s']; simpl in *.
  - by apply IH.
  - destruct Hg as [Hsep Hr]. split; [done|]. by intros receipt' [= <-].
  - done.
Qed.

Lemma start_inv log : Forall rejected log -> separated endpoints log -> turn_inv (start_sending endpoints tx) log.
Proof.
  intros Hlog Hsep.
  assert (forall newer env, ~ accepted_in log newer env) as Hnone.
  { intros newer env Hacc. rewrite <- (app_nil_r log) in Hacc.
    destruct (accepted_skip _ _ _ _ Hlog Hacc) as (rest & _ & u & h & older & Heq). by destruct rest. }
  split; simpl; try done; [by intros newer env []%Hnone|by intros h ?%not_elem_of_nil|by intros newer env []%Hnone].
Qed.

Lemma send_good fuel s :
  pl_log s = [] ->
  let p := send_tx_robust jittered fuel endpoints signer tx timeout s in
  separated endpoints (pl_log p.2) /\
  forall receipt, p.1 = Ok receipt ->
    exists hashes, has_receipt (E := E) endpoints hashes receipt /\ sent_in (pl_log p.2) hashes.
Proof.
  intros Hs. apply send_loop_good. rewrite Hs. apply start_inv; [done|]. intros later u t a log' Heq.
  by destruct later.
Qed.

(** C11: one send uses one nonce, unless the network told it to move on.  In
    the log of a send, newest first, let a transaction be accepted by some
    endpoint and any transaction be broadcast later.  Then both have the same
    nonce, so the chain includes at most one of them; or in between an
    endpoint rejected a broadcast because another transaction held the nonce,
    or because the nonce was used and no endpoint knew the accepted one. *)
Theorem robust_send_one_nonce fuel s later url2 tx2 answer2 between url1 tx1 hash1 older :
  pl_log s = [] ->
  pl_log (send_tx_robust jittered fuel endpoints signer tx timeout s).2 =
    later ++ Broadcast url2 tx2 answer2 :: between ++ Broadcast url1 tx1 (inr hash1) :: older ->
  tx_nonce tx1 = tx_nonce tx2 \/ excused endpoints tx1 between.
Proof.
  intros Hs Hlog. destruct (send_good fuel s Hs) as [Hsep _].
  apply (Hsep _ _ _ _ _ Hlog between tx1). by exists url1, hash1, older.
Qed.

(** The receipt a send returns is for one of its own transactions: an
    endpoint of the pool answered with it when asked for the hash of an
    envelope this send had signed and broadcast. *)
Theorem robust_send_receipt fuel s receipt s' :
  pl_log s = [] ->
  send_tx_robust jittered fuel endpoints signer tx timeout s = (Ok receipt, s') ->
  exists url hash e e',
    url ∈ endpoints /\ pool_receipt (E := E) url hash e = (inr (Some receipt), e') /\
    exists url' env answer, Broadcast url' env answer ∈ pl_log s' /\ tx_hash env = hash.
Proof.
  intros Hs Hsend. destruct (send_good fuel s Hs) as [_ Hr]. rewrite Hsend in Hr.
  destruct (Hr receipt eq_refl) as (hashes & (u & h & e & e' & Hu & Hh & Hq) & Hsent).
  exists u, h, e, e'. split; [done|]. split; [done|]. by apply Hsent.
Qed.
End Once.

(** ** Every send ends *)

Class PoolClock (E : Type) `{PoolNode E} : Prop := {
  now_nap d (e : E) : 0 <= d -> now_ms e + d <= now_ms (nap_ms d e);
  now_receipt url hash (e : E) : now_ms e <= now_ms (pool_receipt url hash e).2
}.

Section Ends.
Context {E : Type} `{PoolNode E, EvmLib, !PoolClock E}.
Variable jittered : Z -> Z.
Abbreviation W := (Pool E).

Definition ends {A} (m : M W A) : Prop := forall s, (m s).1 <> Err OutOfFuel.

Lemma ends_ret {A} (a : A) : ends (mret a).
Proof. done. Qed.
Lemma ends_ok_or {A} (o : option A) msg : ends (lift (ok_or o msg)).
Proof. intros s. by destruct o. Qed.
Lemma ends_failed {A} msg : ends (throw (A := A) (Failed msg)).
Proof. done. Qed.
Lemma ends_ask {A} (f : E -> (string + A) * E) : ends (ask f).
Proof. intros s. unfold ask. by destruct (f (pl_env s)) as [[] ?]. Qed.
Lemma ends_logged {A} (f : E -> (string + A) * E) ev : ends (logged f ev).
Proof. intros s. unfold logged. by destruct (f (pl_env s)). Qed.
Lemma ends_modify f : ends (modify f).
Proof. done. Qed.
Lemma ends_bind {A B} (m : M W A) (f : A -> M W B) : ends m -> (forall a, ends (f a)) -> ends (m ≫= f).
Proof.
  intros Hm Hf s. specialize (Hm s). unfold mbind, M_bind.
  destruct (m s) as [[a|e] s']; simpl in *; [apply Hf|congruence].
Qed.
Lemma ends_recovering {A} (m : M W A) h : ends m -> (forall e, e <> OutOfFuel -> ends (h e)) -> ends (recovering m h).
Proof.
  intros Hm Hh s. specialize (Hm s). unfold recovering.
  destruct (m s) as [[a|e] s']; simpl in *; [done|]. apply Hh. congruence.
Qed.
Lemma ends_falling_back {A} p pool (m : string -> M W A) :
  (forall url, ends (m url)) -> ends (falling_back jittered p pool m).
Proof.
  intros Hm s. apply (falling_back_post jittered (fun _ => True) (fun r _ => r <> Err OutOfFuel)); try done.
  intros url s' _. split; [apply Hm|done].
Qed.
Lemma ends_retrying {A} p n (m : M W A) : ends m -> ends (retrying jittered p n m).
Proof.
  intros Hm s. apply (retrying_post jittered (fun _ => True) (fun r _ => r <> Err OutOfFuel)); try done.
Qed.
Lemma ends_refusal {A B} (m : M W A) (f : option error -> M W B) :
  ends m -> ends (f None) -> (forall e, e <> OutOfFuel -> ends (f (Some e))) -> ends (refusal m ≫= f).
Proof.
  intros Hm Hn He s. specialize (Hm s). unfold refusal, mbind, M_bind.
  destruct (m s) as [[a|e] s']; simpl in *; [apply Hn|]. apply He. congruence.
Qed.
Create HintDb ends.
Hint Resolve ends_ret ends_ok_or ends_failed ends_ask ends_logged ends_modify : ends.
Ltac send :=
  repeat first
    [ solve [auto with ends]
    | apply ends_bind; [|intros ?] | apply ends_falling_back; intros ? | apply ends_retrying
    | apply ends_recovering; [|intros ? ?]
    | case_decide
    | match goal with
      | |- ends (match ?x with _ => _ end) => destruct x
      end ].

Lemma ends_fill_once pool signer tx : ends (fill_and_sign_once jittered pool signer tx).
Proof. unfold fill_and_sign_once. send. Qed.
Lemma ends_prefill pool tx : ends (prefill_from_latest jittered pool tx).
Proof. unfold prefill_from_latest. send. Qed.
Hint Resolve ends_fill_once ends_prefill : ends.
Lemma ends_fill_and_sign pool signer tx : ends (pool_fill_and_sign jittered pool signer tx).
Proof.
  unfold pool_fill_and_sign, prepare_fill. send. intros s. simpl. congruence.
Qed.
Lemma ends_send_to_all pool env : ends (send_to_all (E := E) pool env).
Proof. induction pool; simpl; send. Qed.
Hint Resolve ends_fill_and_sign ends_send_to_all : ends.
Lemma ends_broadcast pool env : ends (broadcast_raw jittered pool env).
Proof. unfold broadcast_raw, broadcast_once. send. Qed.
Lemma ends_known pool hashes : ends (any_tx_known_by_hash (E := E) pool hashes).
Proof.
  assert (forall hash, ends (tx_known_by_hash (E := E) pool hash)) by (intros; induction pool; simpl; send).
  induction hashes; simpl; send.
Qed.
Hint Resolve ends_broadcast ends_known : ends.

Lemma poll_receipts_time pool hashes (s : W) :
  exists found s', poll_receipts pool hashes s = (Ok found, s') /\ now_ms (pl_env s) <= now_ms (pl_env s').
Proof.
  unfold poll_receipts. revert s. induction hashes as [|hash hashes IH]; intros s; [by exists None, s|].
  cbn [first_some]. unfold mbind at 1, M_bind at 1.
  assert (exists found s', first_some (ask_receipt hash) pool s = (Ok found, s') /\
    now_ms (pl_env s) <= now_ms (pl_env s')) as (found & s1 & -> & H1).
  { clear IH. revert s. induction pool as [|url pool IH]; intros s; [by exists None, s|]. cbn [first_some].
    unfold mbind at 1, M_bind at 1, ask_receipt at 1. pose proof (now_receipt url hash (pl_env s)).
    destruct (pool_receipt url hash (pl_env s)) as [[t|[r|]] e]; simpl in *.
    2: by eexists (Some r), _.
    all: destruct (IH (mkPool e (pl_log s))) as (f & s' & -> & ?); exists f, s'; simpl in *; (split; [done|lia]). }
  destruct found as [r|]; [by exists (Some r), s1|]. destruct (IH s1) as (f & s2 & -> & ?). exists f, s2. split; [done|lia].
Qed.

Lemma ends_wait_loop fuel pool hashes deadline (s : W) :
  deadline <= now_ms (pl_env s) + 2000 * Z.of_nat fuel ->
  (wait_receipt_loop (S fuel) pool hashes deadline s).1 <> Err OutOfFuel.
Proof.
  revert s. induction fuel as [|fuel IH]; intros s Hd; cbn [wait_receipt_loop]; unfold mbind, M_bind;
    destruct (poll_receipts_time pool hashes s) as ([r|] & s' & -> & Ht); try done; simpl;
    destruct (Z.leb_spec deadline (now_ms (pl_env s'))); try done; [lia|].
  apply IH. simpl. pose proof (now_nap 2000 (pl_env s')). lia.
Qed.

Lemma ends_wait fuel pool hashes timeout :
  timeout <= 2000 * Z.of_nat fuel -> ends (wait_receipt_any (E := E) (S fuel) pool hashes timeout).
Proof. intros Ht s. apply (ends_wait_loop fuel pool hashes). lia. Qed.

Lemma ends_turn fuel endpoints signer tx timeout st :
  timeout <= 2000 * Z.of_nat fuel ->
  ends (send_turn jittered (S fuel) endpoints signer tx timeout st).
Proof.
  intros Ht. assert (forall env st, ends (await_receipt (E := E) (S fuel) timeout env st)) as Hawait.
  { intros env st'. unfold await_receipt. apply ends_bind; [by apply ends_wait|]. intros o. send. }
  unfold send_turn, next_envelope. apply ends_bind; [send|]. intros env. cbv zeta.
  apply ends_refusal; [send|apply Hawait|]. intros e He. send. all: try apply Hawait. all: intros s; simpl; congruence.
Qed.

Lemma send_ends fuel endpoints signer tx timeout :
  timeout <= 2000 * Z.of_nat fuel -> ends (send_tx_robust jittered (S fuel) endpoints signer tx timeout).
Proof.
  intros Ht. unfold send_tx_robust. generalize (start_sending endpoints tx) MAX_SEND_ATTEMPTS. intros st n.
  revert st. induction n as [|n IH]; intros st; cbn [send_loop]; [send|].
  destruct (Nat.leb SEND_ROUNDS (s_round st)); [send|].
  apply ends_bind; [by apply ends_turn|]. intros [st'|r]; [apply IH|send].
Qed.

(** A send ends.  On a clock that does not run backwards, with fuel for
    the receipt timeout at one poll every two seconds, a send returns a receipt
    or an error, whatever the endpoints answer: its loop makes at most sixteen
    turns, each with bounded retries. *)
Theorem robust_send_ends fuel endpoints signer tx timeout s :
  timeout <= 2000 * Z.of_nat fuel ->
  (send_tx_robust jittered (S fuel) endpoints signer tx timeout s).1 <> Err OutOfFuel.
Proof. intros Ht. by apply send_ends. Qed.
End Ends.

(** ** A node that makes a send use two nonces

    A node with geth's pool rules: it takes one transaction per nonce, and a
    replacement only if it raises both the maximum fee and the tip by a tenth.
    The request sets a tip of zero, and its transaction is priced too low to be
    mined while the send waits. *)

Module ZeroTip.
Record Node : Type := mkNode { node_time : Z; pooled : list (Z * Z * Z) }.

Definition signed (rq : TransactionRequest) (count : Z) : TxEnvelope :=
  let nonce := default count (rq_nonce rq) in
  let fee := default 100 (rq_max_fee_per_gas rq) in
  mkEnvelope (nonce * 1000000 + fee) nonce (Some 1) None 0 [] 21000 fee None
    (Some (default 1 (rq_max_priority_fee_per_gas rq))) 2 None None None.

Definition raises (old new : Z) : bool := (old <? new) && (old * 11 <=? new * 10).

Definition add_to_pool (raw : bytes) (n : Node) : (string + B256) * Node :=
  match raw with
  | [nonce; fee; tip] =>
      match List.find (fun p => p.1.1 =? nonce) (pooled n) with
      | None => (inr (nonce * 1000000 + fee), mkNode (node_time n) ((nonce, fee, tip) :: pooled n))
      | Some (_, fee', tip') =>
          if raises fee' fee && raises tip' tip then
            (inr (nonce * 1000000 + fee),
             mkNode (node_time n) ((nonce, fee, tip) :: List.filter (fun p => negb (p.1.1 =? nonce)) (pooled n)))
          else (inl "replacement transaction underpriced", n)
      end
  | _ => (inl "invalid transaction", n)
  end.

Definition knows (hash : B256) (n : Node) : bool :=
  existsb (fun p => p.1.1 * 1000000 + p.1.2 =? hash) (pooled n).

#[export] Instance node : PoolNode Node := {
  pool_fill _ _ rq n := (inr (Some (signed rq (5 + Z.of_nat (length (pooled n))))), n);
  pool_transaction_count _ _ n := (inr (5 + Z.of_nat (length (pooled n))), n);
  pool_estimate_gas _ _ n := (inr 21000, n);
  pool_gas_price _ n := (inr 100, n);
  pool_send_raw _ raw n := add_to_pool raw n;
  pool_receipt _ _ n := (inr None, n);
  pool_knows _ hash n := (inr (knows hash n), n);
  now_ms := node_time;
  nap_ms d n := mkNode (node_time n + Z.max 0 d) (pooled n)
}.

#[export] Instance lib : EvmLib := {
  keccak256 _ := 0;
  b256_to_string _ := "";
  parse_u256 _ := None;
  u256_to_string _ := "";
  signer_address _ := None;
  decode_2718 _ := None;
  encoded_2718 e := [tx_nonce e; tx_max_fee_per_gas e; default 0 (tx_max_priority_fee_per_gas e)];
  recover_address _ := None;
  from_transaction_with_sender _ _ := mkRequest None None None None None None None None None None None None None
}.

#[export] Instance node_clock : PoolClock Node.
Proof. split; intros; simpl; lia. Qed.

Lemma fill_keeps_nonce signer url rq (n : Node) env n' k :
  pool_fill signer url rq n = (inr (Some env), n') -> rq_nonce rq = Some k -> tx_nonce env = k.
Proof. intros [= <- <-] Hk. simpl. by rewrite Hk. Qed.

Definition no_tip : TransactionRequest :=
  mkRequest None None None None (Some 0) None None None None None None None None.

Definition sent : Pool Node :=
  (send_tx_robust (fun d => d) 31 ["https://node"] "key" no_tip 60000 (mkPool (mkNode 0 []) [])).2.

(** One call of [send_tx_robust] leaves two transactions in the pool, at
    different nonces: the replacement of the first one doubles a tip of zero, the node
    answers that it is underpriced, and the send takes that for a foreign
    transaction and signs again at the next nonce. *)
Theorem robust_send_twice : exists p q rest, pooled (pl_env sent) = p :: q :: rest /\ p.1.1 <> q.1.1.
Proof. vm_compute. do 3 eexists. split; [reflexivity|discriminate]. Qed.
End ZeroTip.
