(* ===== verification/LoadTest.v ===== *)
(** * Transactions under verification (src/commands/load_test/verification/engine/state.rs,
    pending.rs, report.rs, pipeline/scheduler.rs)

    What the load test keeps of a confirmed transaction while it follows its
    message through the network: the phase it waits for or its verdict, the
    discovered second leg, and the times at which phases were observed.  The
    report counts the verdicts.

    An [Instant] is in milliseconds of the monotonic clock, and the seconds of
    [AmplifierTiming] are kept as milliseconds; the conversion to floating point
    is left out. *)

From Stdlib Require Import QArith_base.
From S2P Require Import Prelude Types Journal Chain Intent.

(** ** State (state.rs) *)

Inductive Phase : Type := Voted | Routed | HubApproved | DiscoverSecondLeg | Approved | Executed.

#[export] Instance Phase_eq_dec : EqDecision Phase.
Proof. solve_decision. Defined.

(** [Phase::can_transition_to]. *)
Definition can_transition_to (self next : Phase) : bool :=
  match self, next with
  | Voted, (Routed | HubApproved | Approved) => true
  | Routed, (HubApproved | Approved) => true
  | HubApproved, (DiscoverSecondLeg | Approved) => true
  | DiscoverSecondLeg, (Routed | Approved) => true
  | Approved, Executed => true
  | _, _ => false
  end.

Inductive VerificationFailure : Type :=
  | ErrorOf (reason : string)
  | TimedOut (reason : string).

Definition reason (f : VerificationFailure) : string :=
  match f with ErrorOf r | TimedOut r => r end.

Inductive VerificationState : Type :=
  | Active (phase : Phase)
  | Succeeded (recovered_via_api : bool)
  | FailedIn (phase : Phase) (failure : VerificationFailure).

#[export] Instance VerificationFailure_eq_dec : EqDecision VerificationFailure.
Proof. solve_decision. Defined.
#[export] Instance VerificationState_eq_dec : EqDecision VerificationState.
Proof. solve_decision. Defined.

Record SecondLeg : Type := mkLeg {
  leg_message_id : string;
  leg_payload_hash : B256;
  leg_source_address : string;
  leg_destination_address : string
}.

(** [AmplifierTiming] (support/metrics.rs). *)
Record AmplifierTiming : Type := mkTiming {
  voted_secs : option Z;
  routed_secs : option Z;
  hub_approved_secs : option Z;
  approved_secs : option Z;
  executed_secs : option Z;
  executed_ok : option bool;
  stored_message : option string
}.
Definition timing_default : AmplifierTiming := mkTiming None None None None None None None.

Record PendingTx : Type := mkPending {
  p_idx : nat;
  p_message_id : string;
  p_send_instant : Z;
  p_source_address : string;
  p_contract_addr : Address;
  p_payload_hash : option B256;
  p_payload_hash_hex : string;
  p_command_id : option B256;
  p_gmp_destination_chain : string;
  p_gmp_destination_address : string;
  p_timing : AmplifierTiming;
  p_state : VerificationState;
  p_second_leg : option SecondLeg
}.

Record PendingTxInput : Type := mkInput {
  i_idx : nat;
  i_message_id : string;
  i_send_instant : Z;
  i_source_address : string;
  i_contract_addr : Address;
  i_payload_hash : option B256;
  i_payload_hash_hex : string;
  i_command_id : option B256;
  i_gmp_destination_chain : string;
  i_gmp_destination_address : string;
  i_initial_phase : Phase
}.

(** [PendingTx::new]. *)
Definition new_pending (i : PendingTxInput) : PendingTx :=
  mkPending (i_idx i) (i_message_id i) (i_send_instant i) (i_source_address i) (i_contract_addr i)
    (i_payload_hash i) (i_payload_hash_hex i) (i_command_id i) (i_gmp_destination_chain i)
    (i_gmp_destination_address i) timing_default (Active (i_initial_phase i)) None.

(** Assignments to fields. *)
Definition set_state (st : VerificationState) (tx : PendingTx) : PendingTx :=
  mkPending (p_idx tx) (p_message_id tx) (p_send_instant tx) (p_source_address tx) (p_contract_addr tx)
    (p_payload_hash tx) (p_payload_hash_hex tx) (p_command_id tx) (p_gmp_destination_chain tx)
    (p_gmp_destination_address tx) (p_timing tx) st (p_second_leg tx).
Definition set_timing (t : AmplifierTiming) (tx : PendingTx) : PendingTx :=
  mkPending (p_idx tx) (p_message_id tx) (p_send_instant tx) (p_source_address tx) (p_contract_addr tx)
    (p_payload_hash tx) (p_payload_hash_hex tx) (p_command_id tx) (p_gmp_destination_chain tx)
    (p_gmp_destination_address tx) t (p_state tx) (p_second_leg tx).
Definition set_command_id (c : option B256) (tx : PendingTx) : PendingTx :=
  mkPending (p_idx tx) (p_message_id tx) (p_send_instant tx) (p_source_address tx) (p_contract_addr tx)
    (p_payload_hash tx) (p_payload_hash_hex tx) c (p_gmp_destination_chain tx)
    (p_gmp_destination_address tx) (p_timing tx) (p_state tx) (p_second_leg tx).
Definition set_second_leg (l : SecondLeg) (tx : PendingTx) : PendingTx :=
  mkPending (p_idx tx) (p_message_id tx) (p_send_instant tx) (p_source_address tx) (p_contract_addr tx)
    (p_payload_hash tx) (p_payload_hash_hex tx) (p_command_id tx) (p_gmp_destination_chain tx)
    (p_gmp_destination_address tx) (p_timing tx) (p_state tx) (Some l).
Definition set_contract_addr (a : Address) (tx : PendingTx) : PendingTx :=
  mkPending (p_idx tx) (p_message_id tx) (p_send_instant tx) (p_source_address tx) a
    (p_payload_hash tx) (p_payload_hash_hex tx) (p_command_id tx) (p_gmp_destination_chain tx)
    (p_gmp_destination_address tx) (p_timing tx) (p_state tx) (p_second_leg tx).

(** The times at which a phase was seen. *)
Inductive slot : Type := VotedSecs | RoutedSecs | HubApprovedSecs | ApprovedSecs | ExecutedSecs.
Definition stamp (s : slot) (v : option Z) (t : AmplifierTiming) : AmplifierTiming :=
  match s with
  | VotedSecs => mkTiming v (routed_secs t) (hub_approved_secs t) (approved_secs t) (executed_secs t) (executed_ok t) (stored_message t)
  | RoutedSecs => mkTiming (voted_secs t) v (hub_approved_secs t) (approved_secs t) (executed_secs t) (executed_ok t) (stored_message t)
  | HubApprovedSecs => mkTiming (voted_secs t) (routed_secs t) v (approved_secs t) (executed_secs t) (executed_ok t) (stored_message t)
  | ApprovedSecs => mkTiming (voted_secs t) (routed_secs t) (hub_approved_secs t) v (executed_secs t) (executed_ok t) (stored_message t)
  | ExecutedSecs => mkTiming (voted_secs t) (routed_secs t) (hub_approved_secs t) (approved_secs t) v (executed_ok t) (stored_message t)
  end.
Definition set_executed_ok (ok : option bool) (t : AmplifierTiming) : AmplifierTiming :=
  mkTiming (voted_secs t) (routed_secs t) (hub_approved_secs t) (approved_secs t) (executed_secs t) ok (stored_message t).

Definition phase (tx : PendingTx) : option Phase :=
  match p_state tx with Active p | FailedIn p _ => Some p | Succeeded _ => None end.
Definition is_phase (p : Phase) (tx : PendingTx) : bool := bool_decide (p_state tx = Active p).
Definition is_active (tx : PendingTx) : bool := match p_state tx with Active _ => true | _ => false end.

(** The operations return whether they were applied. *)
Definition transition_to (p : Phase) (tx : PendingTx) : bool * PendingTx :=
  match p_state tx with
  | Active current => if can_transition_to current p then (true, set_state (Active p) tx) else (false, tx)
  | _ => (false, tx)
  end.

Definition discover_second_leg (leg : SecondLeg) (p : Phase) (tx : PendingTx) : bool * PendingTx :=
  match p_state tx with
  | Active current =>
      if bool_decide (current <> DiscoverSecondLeg) || negb (can_transition_to current p) then (false, tx)
      else (true, set_state (Active p) (set_second_leg leg tx))
  | _ => (false, tx)
  end.

Definition approve_destination (command_id : option B256) (tx : PendingTx) : bool * PendingTx :=
  if is_phase Approved tx then
    (true, set_state (Active Executed) (set_command_id (union command_id (p_command_id tx)) tx))
  else (false, tx).

Definition execute_destination (command_id : option B256) (tx : PendingTx) : bool * PendingTx :=
  if is_phase Approved tx || is_phase Executed tx then
    (true, set_state (Succeeded false) (set_command_id (union command_id (p_command_id tx)) tx))
  else (false, tx).

Definition succeed (recovered_via_api : bool) (tx : PendingTx) : bool * PendingTx :=
  if is_active tx then (true, set_state (Succeeded recovered_via_api) tx) else (false, tx).

Definition fail_with (failure : VerificationFailure) (tx : PendingTx) : bool * PendingTx :=
  match p_state tx with
  | Active p => (true, set_state (FailedIn p failure) tx)
  | _ => (false, tx)
  end.
Definition fail_tx (why : string) (tx : PendingTx) : bool * PendingTx := fail_with (ErrorOf why) tx.
Definition time_out (label : string) (tx : PendingTx) : bool * PendingTx :=
  fail_with (TimedOut (label +:+ ": timed out")) tx.

Definition is_failed (tx : PendingTx) : bool := match p_state tx with FailedIn _ _ => true | _ => false end.
Definition failure_reason (tx : PendingTx) : option string :=
  match p_state tx with FailedIn _ f => Some (reason f) | _ => None end.
Definition is_timed_out (tx : PendingTx) : bool :=
  match p_state tx with FailedIn _ (TimedOut _) => true | _ => false end.
Definition recovered_via_api (tx : PendingTx) : bool :=
  match p_state tx with Succeeded true => true | _ => false end.

(** [send_instant.elapsed()]. *)
Definition elapsed (now : Z) (tx : PendingTx) : Z := Z.max 0 (now - p_send_instant tx).

(** [phase_counts]: voted, routed, hub approved, approved, executed. *)
Definition count_stamped (f : AmplifierTiming -> option Z) (txs : list PendingTx) : nat :=
  length (filter (fun tx => f (p_timing tx) <> None) txs).
Definition phase_counts (txs : list PendingTx) : nat * nat * nat * nat * nat :=
  (count_stamped voted_secs txs, count_stamped routed_secs txs, count_stamped hub_approved_secs txs,
   count_stamped approved_secs txs, count_stamped executed_secs txs).

(** ** Construction (pending.rs) *)

(** What the constructors read of [TxMetrics], and the slot the report writes. *)
(** Whether a transaction was sent (support/metrics.rs). *)
Inductive TxFailureKind : Type := RateLimited | Other.
Record TxFailure : Type := mkTxFailure { tf_reason : string; tf_kind : TxFailureKind }.
Definition classified (reason : string) : TxFailure :=
  mkTxFailure reason (if contains "429" reason then RateLimited else Other).
Inductive TxOutcome : Type := TxSucceeded | TxFailed (failure : TxFailure).
Definition outcome_failed (why : string) : TxOutcome := TxFailed (classified why).
Definition outcome_is_success (o : TxOutcome) : bool := match o with TxSucceeded => true | TxFailed _ => false end.

Record TxMetrics : Type := mkMetrics {
  m_signature : string;
  m_outcome : TxOutcome;
  m_payload_hash : string;
  m_source_address : string;
  m_send_instant : option Z;
  m_gmp_destination_chain : string;
  m_gmp_destination_address : string;
  m_amplifier_timing : option AmplifierTiming
}.

Inductive SourceChainType : Type := SourceSvm | SourceEvm | SourceStellar | SourceSui.

(** [parse_payload_hash] (pipeline.rs). *)
Definition parse_payload_hash (hex_str : string) : result B256 :=
  b ← ok_or (hex_decode (default hex_str (strip_prefix "0x" hex_str))) "invalid hex";
  _ ← ensure_ok (Nat.eqb (length b) 32) "payload_hash must be 32 bytes";
  Ok (from_be b).

Definition parse_first_leg_payload_hash (tx : TxMetrics) (required : bool) : result (option B256) :=
  if decide (m_payload_hash tx = "") then
    if required then bail "missing payload_hash for confirmed tx" else Ok None
  else match parse_payload_hash (m_payload_hash tx) with
       | Ok h => Ok (Some h)
       | Err _ => bail "invalid payload_hash for confirmed tx"
       end.

(** [solana_call_contract_index] (src/solana/gateway.rs). *)
Definition solana_call_contract_index (n : Network) : Z :=
  match n with DevnetAmplifier => 1 | _ => 2 end.

Definition message_id_for_source (tx : TxMetrics) (source_type : SourceChainType) (network : Network) : string :=
  match source_type with
  | SourceEvm | SourceStellar | SourceSui => m_signature tx
  | SourceSvm =>
      if contains "-" (m_signature tx) then m_signature tx
      else m_signature tx +:+ "-" +:+ to_dec (solana_call_contract_index network) +:+ ".1"
  end.

Section Construction.
(** [Instant::now()] of the call. *)
Variable now : Z.

Definition pending_tx_for_its_batch (tx : TxMetrics) (idx : nat) (initial_phase : Phase) : result PendingTx :=
  payload_hash ← parse_first_leg_payload_hash tx (bool_decide (initial_phase = Voted));
  Ok (new_pending (mkInput idx (m_signature tx) (default now (m_send_instant tx)) (m_source_address tx) 0
        payload_hash (m_payload_hash tx) None (m_gmp_destination_chain tx) (m_gmp_destination_address tx)
        initial_phase)).

Record PendingGmpBatchArgs : Type := mkBatchArgs {
  ba_idx : nat;
  ba_message_id : string;
  ba_contract_addr : Address;
  ba_command_id : option B256;
  ba_gmp_destination_chain : string;
  ba_gmp_destination_address : string;
  ba_initial_phase : Phase
}.

Definition pending_tx_for_gmp_batch (tx : TxMetrics) (args : PendingGmpBatchArgs) : result PendingTx :=
  payload_hash ← parse_first_leg_payload_hash tx true;
  Ok (new_pending (mkInput (ba_idx args) (ba_message_id args) (default now (m_send_instant tx))
        (m_source_address tx) (ba_contract_addr args) payload_hash (m_payload_hash tx) (ba_command_id args)
        (ba_gmp_destination_chain args) (ba_gmp_destination_address args) (ba_initial_phase args))).

Definition tx_to_pending_solana `{EvmLib} (tx : TxMetrics) (idx : nat) (source_chain : string)
    (has_voting_verifier : bool) (source_type : SourceChainType) (network : Network) (legacy_route : bool)
    : result PendingTx :=
  payload_hash ← parse_first_leg_payload_hash tx true;
  let message_id := message_id_for_source tx source_type network in
  let cmd_input := string_bytes (source_chain +:+ "-" +:+ message_id) in
  Ok (new_pending (mkInput idx message_id (default now (m_send_instant tx)) (m_source_address tx) 0
        payload_hash (m_payload_hash tx) (Some (keccak256 cmd_input)) "" ""
        match has_voting_verifier, legacy_route with
        | true, _ => Voted
        | false, true => Approved
        | false, false => Routed
        end)).

Definition tx_to_pending_stellar (tx : TxMetrics) (has_voting_verifier : bool) (contract_addr : Address)
    : result PendingTx :=
  payload_hash ← parse_first_leg_payload_hash tx true;
  Ok (new_pending (mkInput 0 (m_signature tx) (default now (m_send_instant tx)) (m_source_address tx)
        contract_addr payload_hash (m_payload_hash tx) None "" ""
        (if has_voting_verifier then Voted else Routed))).

Definition tx_to_pending_xrpl (tx : TxMetrics) (has_voting_verifier : bool) : result PendingTx :=
  payload_hash ← parse_first_leg_payload_hash tx has_voting_verifier;
  Ok (new_pending (mkInput 0 (m_signature tx) (default now (m_send_instant tx)) (m_source_address tx) 0
        payload_hash (m_payload_hash tx) None (m_gmp_destination_chain tx) (m_gmp_destination_address tx)
        (if has_voting_verifier then Voted else HubApproved))).

Definition tx_to_pending_its (tx : TxMetrics) (has_voting_verifier : bool) : result PendingTx :=
  payload_hash ← parse_first_leg_payload_hash tx has_voting_verifier;
  Ok (new_pending (mkInput 0 (m_signature tx) (default now (m_send_instant tx)) (m_source_address tx) 0
        payload_hash (m_payload_hash tx) None (m_gmp_destination_chain tx) (m_gmp_destination_address tx)
        (if has_voting_verifier then Voted else HubApproved))).
End Construction.

(** ** Report (report.rs)

    Counts are exact; averages and rates are rationals where the code rounds
    to floating point. *)

Inductive FailureCategoryKind : Type := KindError | KindTimedOut.

#[export] Instance FailureCategoryKind_eq_dec : EqDecision FailureCategoryKind.
Proof. solve_decision. Defined.
#[export] Program Instance FailureCategoryKind_countable : Countable FailureCategoryKind :=
  inj_countable' (fun k => bool_decide (k = KindError)) (fun b : bool => if b then KindError else KindTimedOut) _.
Next Obligation. by intros []. Qed.

Record PeakThroughput : Type := mkPeak {
  voted_tps : option Q;
  routed_tps : option Q;
  hub_approved_tps : option Q;
  approved_tps : option Q;
  executed_tps : option Q
}.

Record VerificationReport : Type := mkReport {
  total_verified : Z;
  successful : Z;
  r_pending : Z;
  failed : Z;
  success_rate : Q;
  failure_reasons : gmap (string * FailureCategoryKind) Z;
  avg_voted_secs : option Q;
  avg_routed_secs : option Q;
  avg_hub_approved_secs : option Q;
  avg_approved_secs : option Q;
  avg_executed_secs : option Q;
  min_executed_secs : option Z;
  max_executed_secs : option Z;
  time_to_last_success_secs : option Z;
  peak_throughput : PeakThroughput;
  stuck : Z;
  stuck_at : gmap string Z;
  r_recovered_via_api : Z
}.

Definition avg_option (l : list Z) : option Q :=
  match l with [] => None | _ => Some (Qmake (foldr Z.add 0 l) (Pos.of_nat (length l))) end.
Definition reduce (f : Z -> Z -> Z) (l : list Z) : option Z :=
  match l with [] => None | x :: l => Some (foldl f x l) end.
Definition min_option : list Z -> option Z := reduce Z.min.
Definition max_option : list Z -> option Z := reduce Z.max.

(** [sustained_rate], with [MIN_WINDOW_SECS] of five seconds. *)
Definition sustained_rate (times : list Z) : option Q :=
  if Nat.ltb (length times) 2 then None
  else
    low ← min_option times;
    high ← max_option times;
    Some (Qmake (Z.of_nat (length times) * 1000) (Z.to_pos (Z.max (high - low) 5000))).

Definition compute_peak_throughput (txs : list PendingTx) : PeakThroughput :=
  match min_option (map p_send_instant txs) with
  | None => mkPeak None None None None None
  | Some epoch =>
      let times (f : AmplifierTiming -> option Z) :=
        omap (fun tx => (fun s => (p_send_instant tx - epoch) + s) <$> f (p_timing tx)) txs in
      mkPeak (sustained_rate (times voted_secs)) (sustained_rate (times routed_secs))
        (sustained_rate (times hub_approved_secs)) (sustained_rate (times approved_secs))
        (sustained_rate (times executed_secs))
  end.

Definition stuck_phase (tx : PendingTx) : string :=
  match phase tx with
  | Some Voted => "voted"
  | Some Routed => "routed"
  | Some HubApproved => "hub approved"
  | Some DiscoverSecondLeg => "second-leg discovery"
  | Some Approved => "approved"
  | Some Executed => "executed"
  | None => "unknown"
  end.

(** The counters of the loop over the transactions. *)
Record Tally : Type := mkTally {
  t_successful : Z;
  t_failed : Z;
  t_reasons : gmap (string * FailureCategoryKind) Z;
  t_stuck : Z;
  t_stuck_at : gmap string Z;
  t_recovered : Z
}.

Definition bump_count `{Countable K} (k : K) (m : gmap K Z) : gmap K Z := <[k := default 0 (m !! k) + 1]> m.

Definition tally_tx (t : Tally) (tx : PendingTx) : Tally :=
  let recovered := if recovered_via_api tx then t_recovered t + 1 else t_recovered t in
  if is_failed tx then
    match failure_reason tx with
    | Some why =>
        let kind := if is_timed_out tx then KindTimedOut else KindError in
        mkTally (t_successful t) (t_failed t + 1) (bump_count (why, kind) (t_reasons t))
          (if is_timed_out tx then t_stuck t + 1 else t_stuck t)
          (if is_timed_out tx then bump_count (stuck_phase tx) (t_stuck_at t) else t_stuck_at t) recovered
    | None => mkTally (t_successful t) (t_failed t + 1) (t_reasons t) (t_stuck t) (t_stuck_at t) recovered
    end
  else if bool_decide (executed_ok (p_timing tx) = Some true) then
    mkTally (t_successful t + 1) (t_failed t) (t_reasons t) (t_stuck t) (t_stuck_at t) recovered
  else mkTally (t_successful t) (t_failed t) (t_reasons t) (t_stuck t) (t_stuck_at t) recovered.

Definition tally (txs : list PendingTx) : Tally := foldl tally_tx (mkTally 0 0 ∅ 0 ∅ 0) txs.

(** The timings written back into the metrics. *)
Definition write_timing (metrics : list TxMetrics) (tx : PendingTx) : list TxMetrics :=
  alter (fun m => mkMetrics (m_signature m) (m_outcome m) (m_payload_hash m) (m_source_address m) (m_send_instant m)
                    (m_gmp_destination_chain m) (m_gmp_destination_address m) (Some (p_timing tx)))
    (p_idx tx) metrics.

Definition time_to_last_success (txs : list PendingTx) : option Z :=
  start ← min_option (map p_send_instant txs);
  last_end ← max_option (omap (fun tx =>
      if decide (executed_ok (p_timing tx) = Some true)
      then (fun secs => p_send_instant tx + secs) <$> executed_secs (p_timing tx) else None) txs);
  if start <? last_end then Some (last_end - start) else None.

Definition compute_verification_report (txs : list PendingTx) (metrics : list TxMetrics) (peak : PeakThroughput)
    : VerificationReport * list TxMetrics :=
  let t := tally txs in
  let total := t_successful t + t_failed t in
  let secs (f : AmplifierTiming -> option Z) := omap (fun tx => f (p_timing tx)) txs in
  (mkReport total (t_successful t) 0 (t_failed t)
     (if 0 <? total then Qmake (t_successful t) (Z.to_pos total) else Qmake 0 1)
     (t_reasons t) (avg_option (secs voted_secs)) (avg_option (secs routed_secs))
     (avg_option (secs hub_approved_secs)) (avg_option (secs approved_secs)) (avg_option (secs executed_secs))
     (min_option (secs executed_secs)) (max_option (secs executed_secs)) (time_to_last_success txs) peak
     (t_stuck t) (t_stuck_at t) (t_recovered t),
   foldl write_timing metrics txs).

(** ** Scheduling (pipeline/scheduler.rs, engine.rs) *)

Definition DEFAULT_INACTIVITY_TIMEOUT : Z := 7200 * 1000.
Definition POLL_INTERVAL : Z := 5 * 1000.

Definition budget_from (override_secs : option Z) (sending_complete : bool) : Z :=
  match override_secs with
  | Some secs => secs * 1000
  | None => if sending_complete then DEFAULT_INACTIVITY_TIMEOUT else DEFAULT_INACTIVITY_TIMEOUT * 2
  end.

(** [AXE_VERIFY_INACTIVITY_SECS] of the environment, if set. *)
Definition inactivity_budget (var : option string) (sending_complete : bool) : Z :=
  budget_from (text ← var; parse_uint 64 text) sending_complete.

Inductive PollAction : Type :=
  | Finished
  | Waiting
  | Ready (active : list nat) (total : nat) (sending_complete : bool).

Definition active_indices (txs : list PendingTx) : list nat :=
  omap (fun '(i, tx) => if is_active tx then Some i else None) (imap (fun i tx => (i, tx)) txs).

(** [next_action] once the queue is drained: the action, and whether it marks
    progress. *)
Definition next_action (txs : list PendingTx) (sending_complete : bool) : PollAction * bool :=
  if decide (txs = []) then (if sending_complete then Finished else Waiting, false)
  else
    let active := active_indices txs in
    if decide (active = []) then if sending_complete then (Finished, false) else (Waiting, true)
    else (Ready active (length txs) sending_complete, false).
