(* ===== verification/LoadNet.v ===== *)
(** * What the load test asks the network (src/cosmos/rpc.rs, src/cosmos/events.rs,
    src/gmp_api.rs, src/evm/legacy_gateway.rs, load_test/verification/engine/pipeline/cosmos.rs,
    checks/evm.rs, legacy.rs)

    Programs over an environment that answers HTTP requests and EVM calls: the
    LCD smart query and the Tendermint search with their public fallbacks, the
    batched Cosmos observations, the Axelarscan lookups and the log scan of a
    legacy gateway.  A program reads the network and waits; it changes nothing. *)

From Stdlib Require Import Ascii.
From Stdlib Require String.
From S2P Require Import Prelude Types Retry Journal Chain Intent Json LoadTest.

(** ** Interfaces *)

(** What the GMP API reports of a message and the verification reads. *)
Record GmpRecord : Type := mkGmpRecord { g_status : option string; g_executed : bool }.

(** What the code takes of a [ContractCallApproved], and the log that decodes. *)
Record ApprovedCall : Type := mkApprovedCall {
  ac_command_id : B256;
  ac_source_chain : string;
  ac_source_address : string
}.
Record ApprovedLog : Type := mkApprovedLog {
  al_call : ApprovedCall;
  al_contract : Address;
  al_source_tx_hash : B256
}.

(** The clock and the timer in milliseconds, the channel of the sender, and
    the RPC clients.  An error of a client is its text. *)
Class PollEnv (E : Type) : Type := {
  poll_now : E -> Z;
  poll_sleep : Z -> E -> E;
  (** All that [try_recv] gives until the queue is empty. *)
  received : E -> list PendingTxInput * E;
  send_done : E -> bool;
  (** [None]: the request failed; the status and the body, if it was read. *)
  http_get : string -> E -> option (Z * option string) * E;
  (** POST [/gmp/searchGMP]; an error says whether it is transient. *)
  gmp_post : string -> Json -> E -> (bool + list GmpRecord) * E;
  is_message_approved : string -> string -> string -> Address -> B256 -> E -> (string + bool) * E;
  is_message_executed : string -> string -> E -> (string + bool) * E;
  is_command_executed : B256 -> E -> (string + bool) * E;
  get_block_number : E -> (string + Z) * E;
  (** Gateway, payload hash, first and last block; only logs that decode. *)
  get_approved_logs : Address -> B256 -> Z -> Z -> E -> (string + list ApprovedLog) * E;
  (** The order in which concurrent requests complete. *)
  unordered : forall {A : Type}, list A -> E -> list A * E
}.

(** Text formats (serde_json, base64). *)
Class WebText : Type := {
  json_text : Json -> string;
  parse_json : string -> option Json;
  base64_text : string -> string
}.

(** ** Errors of a smart query (cosmos/rpc.rs) *)

Inductive CosmwasmQueryError : Type :=
  | Encode
  | Transport
  | BodyRead
  | Http (status : Z) (body : string)
  | InvalidJson (body : string)
  | MissingData (body : string)
  | Exhausted.

Inductive CosmwasmQueryPending : Type := OutgoingMessage | ExecutableMessage.

Definition contract_error_body (e : CosmwasmQueryError) : option string :=
  match e with Http _ body => Some body | _ => None end.

Definition is_transient (e : CosmwasmQueryError) : bool :=
  match e with
  | Transport | BodyRead | InvalidJson _ | Exhausted => true
  | Http status _ => bool_decide (status ∈ [429; 502; 503; 504])
  | Encode | MissingData _ => false
  end.

Definition is_pending (query : CosmwasmQueryPending) (e : CosmwasmQueryError) : bool :=
  match contract_error_body e with
  | None => false
  | Some body =>
      let body := to_lowercase body in
      match query with
      | OutgoingMessage =>
          contains "failed to query outgoing messages" body
          || contains "message with id" body && contains "not found" body
      | ExecutableMessage =>
          contains "not approved" body || contains "failed to query executable messages" body
      end
  end.

(** ** Endpoints *)

Definition LCD_FALLBACKS_MAINNET : list string :=
  ["https://rest.lavenderfive.com/axelar"; "https://axelar-rest.publicnode.com"].
Definition LCD_FALLBACKS_TESTNET : list string := ["https://axelar-testnet-api.polkachu.com"].
Definition RPC_FALLBACKS_MAINNET : list string :=
  ["https://axelar-rpc.publicnode.com"; "https://rpc.cosmos.directory/axelar"].
Definition RPC_FALLBACKS_TESTNET : list string := ["https://axelar-testnet-rpc.polkachu.com"].

Definition fallbacks_for (mainnet testnet : list string) (primary : string) : list string :=
  if contains "testnet" primary then testnet
  else if contains "stagenet" primary || contains "devnet" primary then []
  else mainnet.
Definition lcd_fallbacks_for : string -> list string := fallbacks_for LCD_FALLBACKS_MAINNET LCD_FALLBACKS_TESTNET.
Definition rpc_fallbacks_for : string -> list string := fallbacks_for RPC_FALLBACKS_MAINNET RPC_FALLBACKS_TESTNET.

(** [trim_end_matches('/')]. *)
Fixpoint trim_slashes (s : string) : string :=
  match s with
  | EmptyString => ""
  | String c rest =>
      match trim_slashes rest with
      | EmptyString => if Ascii.eqb c "/"%char then "" else String c ""
      | rest => String c rest
      end
  end.

(** The endpoints of a query: the primary, and its public fallbacks unless the
    user chose the endpoint. *)
Definition candidates (user_override : option string) (fallbacks : string -> list string) (configured : string)
    : list string :=
  let primary := trim_slashes (default configured user_override) in
  primary :: match user_override with
             | Some _ => []
             | None => filter (fun fb => fb <> primary) (fallbacks primary)
             end.

(** [chars().take(n)]. *)
Fixpoint take_chars (n : nat) (s : string) : string :=
  match n, s with
  | S n, String c s => String c (take_chars n s)
  | _, _ => ""
  end.

Definition is_success (status : Z) : bool := (200 <=? status) && (status <? 300).

(** [url_encode_query]. *)
Definition unreserved (c : ascii) : bool :=
  let n := Z.of_N (N_of_ascii c) in
  ((48 <=? n) && (n <=? 57)) || ((65 <=? n) && (n <=? 90)) || ((97 <=? n) && (n <=? 122))
  || bool_decide (c ∈ ["-"%char; "_"%char; "."%char; "~"%char]).
Definition upper_hex (n : Z) : ascii := ascii_of_N (Z.to_N (if n <? 10 then n + 48 else n + 55)).
Fixpoint url_encode_query (s : string) : string :=
  match s with
  | EmptyString => ""
  | String c s =>
      let n := Z.of_N (N_of_ascii c) in
      if unreserved c then String c (url_encode_query s)
      else String "%" (String (upper_hex (n / 16)) (String (upper_hex (n mod 16)) (url_encode_query s)))
  end.

(** [rsplit_once('-')]: what is before the last dash. *)
Fixpoint before_last_dash (s : string) : option string :=
  match s with
  | EmptyString => None
  | String c rest =>
      match before_last_dash rest with
      | Some prefix => Some (String c prefix)
      | None => if Ascii.eqb c "-"%char then Some "" else None
      end
  end.

(** ** Programs *)

(** Index, message, source address and payload hash of a vote; index and
    message; events of a transaction. *)
Abbreviation VotingCheckData := (nat * string * string * string)%type.
Abbreviation MessageCheckData := (nat * string)%type.
Abbreviation TmAttribute := (option string * option string)%type.
Abbreviation TmEvent := (string * list TmAttribute)%type.

Section Programs.
Context {E : Type} `{PollEnv E, WebText}.
(** The jitter of the backoff, and the endpoints the user set
    ([AXELAR_LCD_URL], [AXELAR_RPC_URL]). *)
Variable jittered : Z -> Z.
Variables lcd_override rpc_override : option string.

Definition request {A} (f : E -> A * E) : M E A := fun e => let '(a, e) := f e in (Ok a, e).

(** A [Result] the caller inspects. *)
Definition attempt {S A} (m : M S A) : M S (result A) := fun s => let '(r, s) := m s in (Ok r, s).

Definition retry_all_calls {A} (f : E -> (string + A) * E) : M E A := fun e =>
  match retry_all jittered poll_sleep f e with
  | Some (inr a, _, e) => (Ok a, e)
  | Some (inl text, _, e) => (Err (Failed text), e)
  | None => (Err OutOfFuel, e)
  end.

(** One candidate of [lcd_cosmwasm_smart_query_typed]. *)
Definition read_response (response : option (Z * option string)) : CosmwasmQueryError + Json :=
  match response with
  | None => inl Transport
  | Some (_, None) => inl BodyRead
  | Some (status, Some body) =>
      if negb (is_success status) then inl (Http status (take_chars 200 body))
      else match parse_json body with
           | None => inl (InvalidJson (take_chars 200 body))
           | Some v => match get_key "data" v with
                       | Some data => inr data
                       | None => inl (MissingData (take_chars 200 body))
                       end
           end
  end.

Fixpoint query_candidates (path : string) (endpoints : list string) (last_err : option CosmwasmQueryError)
    : M E (CosmwasmQueryError + Json) :=
  match endpoints with
  | [] => mret (inl (default Exhausted last_err))
  | endpoint :: endpoints =>
      response ← request (http_get (endpoint +:+ path));
      match read_response response with
      | inr data => mret (inr data)
      | inl err => query_candidates path endpoints (Some err)
      end
  end.

Definition lcd_cosmwasm_smart_query_typed (lcd contract : string) (query : Json) : M E (CosmwasmQueryError + Json) :=
  let path := "/cosmwasm/wasm/v1/contract/" +:+ contract +:+ "/smart/" +:+ base64_text (json_text query) in
  query_candidates path (candidates lcd_override lcd_fallbacks_for lcd) None.

Fixpoint search_candidates (path : string) (endpoints : list string) (last_err : string) : M E Json :=
  match endpoints with
  | [] => throw (Failed last_err)
  | endpoint :: endpoints =>
      response ← request (http_get (endpoint +:+ path));
      match response with
      | None => search_candidates path endpoints "Tendermint RPC request failed"
      | Some (status, body) =>
          if negb (is_success status) then search_candidates path endpoints "Tendermint RPC returned HTTP"
          else match text ← body; parse_json text with
               | Some v => mret v
               | None => search_candidates path endpoints "Tendermint RPC JSON decode failed"
               end
      end
  end.

Definition quoted (s : string) : string := String (ascii_of_N 34) (s +:+ String (ascii_of_N 34) "").

Definition rpc_tx_search_event (rpc event_key event_value : string) : M E Json :=
  let query := quoted (event_key +:+ "='" +:+ event_value +:+ "'") in
  search_candidates ("/tx_search?query=" +:+ url_encode_query query +:+ "&per_page=1")
    (candidates rpc_override rpc_fallbacks_for rpc) "Tendermint RPC query exhausted all endpoints".

(** *** The second leg (cosmos/events.rs) *)

Record SecondLegInfo : Type := mkLegInfo {
  si_message_id : string;
  si_source_chain : string;
  si_destination_chain : string;
  si_payload_hash : string;
  si_source_address : string;
  si_destination_address : string
}.

(** Deserialized fields: absent or [null] where the type is an [Option],
    absent where it has a default; [None] is a decoding error. *)
Definition opt_field {A} (k : string) (decode : Json -> option A) (v : Json) : option (option A) :=
  match get_key k v with
  | None | Some JNull => Some None
  | Some x => Some <$> decode x
  end.
Definition default_field {A} (k : string) (dflt : A) (decode : Json -> option A) (v : Json) : option A :=
  match get_key k v with None => Some dflt | Some x => decode x end.
Definition vec_of {A} (decode : Json -> option A) (v : Json) : option (list A) :=
  l ← as_array v; mapM decode l.
Definition struct_of {A} (decode : Json -> option A) (v : Json) : option A :=
  _ ← as_object v; decode v.

Definition attribute_of : Json -> option TmAttribute := struct_of (fun v =>
  key ← opt_field "key" as_str v; value ← opt_field "value" as_str v; Some (key, value)).
Definition event_of : Json -> option TmEvent := struct_of (fun v =>
  ty ← default_field "type" "" as_str v;
  attributes ← default_field "attributes" [] (vec_of attribute_of) v;
  Some (ty, attributes)).
(** Each transaction with its events, if it has a result. *)
Definition tx_search_of : Json -> option (option (list (option (list TmEvent)))) := struct_of (fun v =>
  opt_field "result" (struct_of (default_field "txs" []
    (vec_of (struct_of (opt_field "tx_result" (struct_of (default_field "events" [] (vec_of event_of)))))))) v).

Definition get_attr (attrs : list TmAttribute) (key : string) : option string :=
  head (omap (fun a => k ← a.1; if decide (k = key) then a.2 else None) attrs).
Definition require_attr (attrs : list TmAttribute) (key : string) : result string :=
  ok_or (get_attr attrs key) "missing wasm-routing attribute".

Definition parse_second_leg_from_tx_search (resp : Json) : result (option SecondLegInfo) :=
  envelope ← ok_or (tx_search_of resp) "invalid tx_search";
  txs ← ok_or envelope "tx_search missing result";
  match txs with
  | [] => Ok None
  | first :: _ =>
      events ← ok_or first "tx_search missing tx_result";
      match List.find (fun ev => bool_decide (ev.1 = "wasm-routing")) events with
      | None => Ok None
      | Some (_, attrs) =>
          message_id ← require_attr attrs "message_id";
          source_chain ← require_attr attrs "source_chain";
          destination_chain ← require_attr attrs "destination_chain";
          payload_hash ← require_attr attrs "payload_hash";
          source_address ← require_attr attrs "source_address";
          destination_address ← require_attr attrs "destination_address";
          Ok (Some (mkLegInfo message_id source_chain destination_chain payload_hash source_address
                      destination_address))
      end
  end.

Definition discover_leg (rpc first_leg_message_id : string) : M E (option SecondLegInfo) :=
  resp ← rpc_tx_search_event rpc "wasm-message_executed.message_id" first_leg_message_id;
  lift (parse_second_leg_from_tx_search resp).

(** *** Contract observations (pipeline.rs, pipeline/cosmos.rs) *)

(** [observe_contract_query] at [PresenceList]; [None] is [Pending]. *)
Definition presence_list (v : Json) : option (list bool) :=
  l ← as_array v; Some (map (fun x => match x with JNull => false | _ => true end) l).

Definition observe_contract_query (lcd contract : string) (query : Json) (pending : CosmwasmQueryPending)
    : M E (option (list bool)) :=
  response ← lcd_cosmwasm_smart_query_typed lcd contract query;
  match response with
  | inr data => items ← lift (ok_or (presence_list data) "CosmWasm verification response had an unexpected shape");
                mret (Some items)
  | inl err => if is_pending pending err || is_transient err then mret None
               else throw (Failed "CosmWasm verification query failed")
  end.

Definition COSMOS_BATCH_SIZE : nat := 10.

(** [slice::chunks], for a size that is not zero. *)
Fixpoint chunks_of {A} (size fuel : nat) (l : list A) : list (list A) :=
  match fuel, l with
  | S fuel, _ :: _ => take size l :: chunks_of size fuel (drop size l)
  | _, _ => []
  end.
Definition chunks {A} (size : nat) (l : list A) : list (list A) := chunks_of size (length l) l.

(** [try_join_all] of the chunks, in order. *)
Fixpoint join_chunks {A B} (f : list A -> M E (list B)) (l : list (list A)) : M E (list B) :=
  match l with
  | [] => mret []
  | chunk :: l => bs ← f chunk; rest ← join_chunks f l; mret (bs ++ rest)
  end.

Definition voting_message (source_chain destination_chain destination_address : string) (d : VotingCheckData) : Json :=
  let '(_, message_id, source_address, payload_hash) := d in
  JObj [("cc_id", JObj [("source_chain", JStr source_chain); ("message_id", JStr message_id)]);
        ("source_address", JStr source_address); ("destination_chain", JStr destination_chain);
        ("destination_address", JStr destination_address); ("payload_hash", JStr payload_hash)].

(** [Vec<Option<VotingStatus>>]. *)
Definition voting_statuses (v : Json) : option (list (option string)) :=
  vec_of (fun x => match x with
                   | JNull => Some None
                   | x => struct_of (fun x => s ← get_key "status" x; Some <$> as_str s) x
                   end) v.

Definition batch_check_voting_verifier_owned (lcd voting_verifier source_chain destination_chain
    destination_address : string) (transactions : list VotingCheckData) : M E (list (nat * bool)) :=
  join_chunks (fun chunk =>
    response ← lcd_cosmwasm_smart_query_typed lcd voting_verifier
      (JObj [("messages_status", JArr (map (voting_message source_chain destination_chain destination_address) chunk))]);
    match response with
    | inl err => if is_transient err then mret (map (fun d => (d.1.1.1, false)) chunk)
                 else throw (Failed "VotingVerifier query failed")
    | inr data =>
        items ← lift (ok_or (voting_statuses data) "invalid VotingVerifier response");
        ensure (Nat.eqb (length items) (length chunk)) "VotingVerifier messages_status returned a wrong count";;
        mret (zip_with (fun item d => (d.1.1.1,
                match item with Some s => contains "succeeded" (to_lowercase s) | None => false end)) items chunk)
    end) (chunks COSMOS_BATCH_SIZE transactions).

Definition cc_id (source_chain : string) (d : MessageCheckData) : Json :=
  JObj [("source_chain", JStr source_chain); ("message_id", JStr d.2)].

(** The common shape of the two presence batches. *)
Definition batch_check_presence (lcd contract : string) (query : list Json -> Json) (pending : CosmwasmQueryPending)
    (source_chain : string) (transactions : list MessageCheckData) : M E (list (nat * bool)) :=
  join_chunks (fun chunk =>
    observed ← observe_contract_query lcd contract (query (map (cc_id source_chain) chunk)) pending;
    match observed with
    | None => mret (map (fun d => (d.1, false)) chunk)
    | Some items =>
        ensure (Nat.eqb (length items) (length chunk)) "contract returned a wrong count";;
        mret (zip_with (fun item d => (d.1, item)) items chunk)
    end) (chunks COSMOS_BATCH_SIZE transactions).

Definition batch_check_cosmos_routed_owned (lcd cosm_gateway source_chain : string)
    (transactions : list MessageCheckData) : M E (list (nat * bool)) :=
  batch_check_presence lcd cosm_gateway (fun ids => JObj [("outgoing_messages", JArr ids)]) OutgoingMessage
    source_chain transactions.

Definition batch_check_hub_approved_owned (lcd axelarnet_gateway source_chain : string)
    (transactions : list MessageCheckData) : M E (list (nat * bool)) :=
  batch_check_presence lcd axelarnet_gateway
    (fun ids => JObj [("executable_messages", JObj [("cc_ids", JArr ids)])]) ExecutableMessage source_chain transactions.

(** *** Axelarscan (gmp_api.rs) *)

Definition base_url (n : Network) : option string :=
  match n with
  | Mainnet => Some "https://api.axelarscan.io"
  | Testnet => Some "https://testnet.api.axelarscan.io"
  | Stagenet => Some "https://stagenet.api.axelarscan.io"
  | DevnetAmplifier => None
  end.

Definition is_executed (r : GmpRecord) : bool :=
  match g_status r with Some s => bool_decide (to_lowercase s = "executed") | None => false end || g_executed r.
Definition record_is_failed (r : GmpRecord) : bool :=
  match g_status r with Some s => bool_decide (to_lowercase s = "error") | None => false end.

Definition post_search (base : string) (body : Json) : M E (list GmpRecord) := fun e =>
  match retry_async jittered poll_sleep (fun transient => transient) (Z.of_nat FALLBACK_ATTEMPTS)
          (gmp_post base body) e with
  | Some (inr records, _, e) => (Ok records, e)
  | Some (inl _, _, e) => (Err (Failed "GMP API request failed"), e)
  | None => (Err OutOfFuel, e)
  end.

Definition search_by_message_id (base message_id : string) : M E (option GmpRecord) :=
  records ← post_search base (JObj [("messageId", JStr message_id)]); mret (head records).
Definition search_by_tx (base tx : string) : M E (option GmpRecord) :=
  records ← post_search base (JObj [("txHash", JStr tx)]); mret (head records).

(** The record of a message, by its id or else by its source transaction. *)
Definition gmp_lookup (base message_id : string) : M E (option GmpRecord) :=
  found ← search_by_message_id base message_id;
  match found with
  | Some rec => mret (Some rec)
  | None => match before_last_dash message_id with
            | Some source_tx => search_by_tx base source_tx
            | None => mret None
            end
  end.

(** [time::timeout]: [None] when the time is over before the answer. *)
Definition timeout {A} (limit : Z) (m : M E A) : M E (option (result A)) := fun e =>
  let '(r, e') := m e in (Ok (if limit <? poll_now e' - poll_now e then None else Some r), e').

Definition GMP_API_RECHECK_TIMEOUT : Z := 15 * 1000.
Definition GMP_API_RECHECK_ATTEMPTS : nat := 3.
Definition GMP_API_RECHECK_BACKOFF : Z := 10 * 1000.
Definition GMP_FAIL_CHECK_INTERVAL : Z := 120 * 1000.

Fixpoint recheck (attempts : nat) (base message_id : string) : M E bool :=
  match attempts with
  | O => mret false
  | S rest =>
      answer ← timeout GMP_API_RECHECK_TIMEOUT
        (found ← gmp_lookup base message_id;
         mret (match found with Some rec => is_executed rec | None => false end));
      match answer with
      | Some (Ok true) => mret true
      | _ =>
          match rest with
          | O => mret false
          | S _ => modify (poll_sleep GMP_API_RECHECK_BACKOFF);; recheck rest base message_id
          end
      end
  end.

Definition gmp_api_reports_executed (network : Network) (message_id : string) : M E bool :=
  match base_url network with
  | None => mret false
  | Some base => recheck GMP_API_RECHECK_ATTEMPTS base message_id
  end.

(** *** EVM gateways (checks/evm.rs, legacy.rs, evm/legacy_gateway.rs) *)

Definition check_evm_is_message_approved source_chain message_id source_address contract payload_hash : M E bool :=
  retry_all_calls (is_message_approved source_chain message_id source_address contract payload_hash).
Definition check_evm_is_message_executed source_chain message_id : M E bool :=
  retry_all_calls (is_message_executed source_chain message_id).
Definition check_evm_command_executed command_id : M E bool := retry_all_calls (is_command_executed command_id).

Definition LOG_WINDOW_BLOCKS : Z := 100.

Definition log_matches (contract : Address) (source_tx_hash : option B256) (log : ApprovedLog) : bool :=
  (al_contract log =? contract) &&
  match source_tx_hash with None => true | Some h => al_source_tx_hash log =? h end.

(** The windows from [to] down to [from_block]; one round per window. *)
Fixpoint scan_windows (fuel : nat) (gateway contract : Address) (payload_hash : B256)
    (source_tx_hash : option B256) (from_block to : Z) : M E (option ApprovedCall) :=
  match fuel with
  | O => throw OutOfFuel
  | S fuel =>
      if to <? from_block then mret None
      else
        let from := Z.max (saturating_sub to (LOG_WINDOW_BLOCKS - 1)) from_block in
        logs ← retry_all_calls (get_approved_logs gateway payload_hash from to);
        match List.find (log_matches contract source_tx_hash) logs with
        | Some log => mret (Some (al_call log))
        | None =>
            if from =? from_block then mret None
            else scan_windows fuel gateway contract payload_hash source_tx_hash from_block (from - 1)
        end
  end.

Definition find_contract_call_approved (gateway contract : Address) (payload_hash : B256)
    (source_tx_hash : option B256) (from_block : Z) : M E (option ApprovedCall) :=
  latest ← retry_all_calls get_block_number;
  scan_windows (S (Z.to_nat (div_ceil (latest - from_block + 1) LOG_WINDOW_BLOCKS))) gateway contract payload_hash
    source_tx_hash from_block latest.

Definition source_tx_hash_from_message_id (message_id : string) : result B256 :=
  hash_str ← ok_or (before_last_dash message_id) "malformed EVM message id";
  b ← ok_or (hex_decode (default hash_str (strip_prefix "0x" hash_str))) "bad tx hash in message id";
  _ ← ensure_ok (Nat.eqb (length b) 32) "tx hash in message id, expected 32";
  Ok (from_be b).
End Programs.
