(* ===== verification/LoadPipeline.v ===== *)
(** * The verification pipelines (load_test/verification/engine/pipeline.rs,
    pipeline/destination.rs, pipeline/scheduler.rs)

    [poll_pipeline] follows GMP messages, [poll_its_hub] messages routed through
    the ITS hub.  Both poll until every received transaction has a verdict and
    the sender is done, or nothing has moved for the inactivity budget; then
    they settle what is left with the GMP API. *)

From S2P Require Import Prelude Types Retry Journal Chain Intent Json LoadTest LoadNet.

(** ** Destinations *)

Inductive DestinationStatus : Type :=
  | Pending
  | ApprovedAt (command_id : option B256)
  | ExecutedAt (command_id : option B256).

Record DestinationObservation : Type := mkObservation { o_index : nat; o_status : DestinationStatus }.

(** The trait [DestinationVerifier]. *)
Class DestinationVerifier (E : Type) : Type := {
  approval_label : string;
  execution_label : string;
  needs_contract_address : bool;
  dest_check : string -> list PendingTx -> list nat -> M E (list DestinationObservation)
}.

(** The kinds of EVM destinations of an ITS message. *)
Inductive ItsEvmDest : Type := ItsAmplifier | ItsLegacy (from_block : Z).

(** ** State of a run *)

Record Poll (E : Type) : Type := mkPoll {
  po_env : E;
  po_txs : list PendingTx;
  po_last_progress : Z;
  po_last_check : Z
}.
Arguments mkPoll {E}.
Arguments po_env {E}.
Arguments po_txs {E}.
Arguments po_last_progress {E}.
Arguments po_last_check {E}.

Section State.
Context {E : Type} `{PollEnv E}.
Abbreviation W := (Poll E).

Definition set_txs (txs : list PendingTx) (s : W) : W :=
  mkPoll (po_env s) txs (po_last_progress s) (po_last_check s).
Definition set_env (e : E) (s : W) : W := mkPoll e (po_txs s) (po_last_progress s) (po_last_check s).

(** A network program within a run. *)
Definition on_env {A} (m : M E A) : M W A := fun s =>
  let '(r, e) := m (po_env s) in (r, set_env e s).

Definition now : M W Z := fun s => (Ok (poll_now (po_env s)), s).
Definition all_txs : M W (list PendingTx) := fun s => (Ok (po_txs s), s).
Definition mark_progress : M W () :=
  modify (fun s => mkPoll (po_env s) (po_txs s) (poll_now (po_env s)) (po_last_check s)).
Definition sleep (d : Z) : M W () := modify (fun s => set_env (poll_sleep d (po_env s)) s).

(** An update of [txs[index]], which panics out of range. *)
Definition update_tx {A} (index : nat) (f : PendingTx -> A * PendingTx) : M W A := fun s =>
  match po_txs s !! index with
  | Some tx => let '(a, tx') := f tx in (Ok a, set_txs (<[index := tx']> (po_txs s)) s)
  | None => (Err (Failed "index out of bounds"), s)
  end.

(** [progressed |= f(x)] over a list. *)
Fixpoint any_progress {A} (f : A -> M W bool) (l : list A) : M W bool :=
  match l with
  | [] => mret false
  | x :: l => a ← f x; b ← any_progress f l; mret (a || b)
  end.

(** ** Applying observations *)

Definition stamped (s : slot) (now : Z) (tx : PendingTx) : PendingTx :=
  set_timing (stamp s (Some (elapsed now tx)) (p_timing tx)) tx.

Definition apply_cosmos_results (results : list (nat * bool)) (s : slot) (next_phase : Phase) : M W bool :=
  any_progress (fun '(index, observed) =>
    if negb observed then mret false
    else t ← now; update_tx index (fun tx => transition_to next_phase (stamped s t tx))) results.

(** The times an executed observation records. *)
Definition executed_timing (t : Z) (tx : PendingTx) : PendingTx :=
  let secs := Some (elapsed t tx) in
  let timing := match approved_secs (p_timing tx) with
                | None => stamp ApprovedSecs secs (p_timing tx)
                | Some _ => p_timing tx
                end in
  set_timing (set_executed_ok (Some true) (stamp ExecutedSecs secs timing)) tx.

Definition apply_observation (t : Z) (status : DestinationStatus) (tx : PendingTx) : bool * PendingTx :=
  if negb (is_active tx) then (false, tx)
  else match status with
       | Pending => (false, tx)
       | ApprovedAt command_id =>
           if is_phase Approved tx then approve_destination command_id (stamped ApprovedSecs t tx) else (false, tx)
       | ExecutedAt command_id => execute_destination command_id (executed_timing t tx)
       end.

Definition apply_destination_observations (observations : list DestinationObservation) : M W bool :=
  any_progress (fun o => t ← now; update_tx (o_index o) (apply_observation t (o_status o))) observations.

(** ** Phases *)

Definition in_phase (p : Phase) (txs : list PendingTx) (index : nat) : bool :=
  match txs !! index with Some tx => is_phase p tx | None => false end.
Definition for_phase (p : Phase) (txs : list PendingTx) (active : list nat) : list nat :=
  filter (fun index => in_phase p txs index = true) active.

(** [PhaseIndices]. *)
Record PhaseIndices : Type := mkIndices {
  ix_voted : list nat;
  ix_routed : list nat;
  ix_hub_approved : list nat;
  ix_discover : list nat;
  ix_approved : list nat;
  ix_executed : list nat
}.
Definition collect (txs : list PendingTx) (active : list nat) : PhaseIndices :=
  mkIndices (for_phase Voted txs active) (for_phase Routed txs active) (for_phase HubApproved txs active)
    (for_phase DiscoverSecondLeg txs active) (for_phase Approved txs active) (for_phase Executed txs active).
Definition destination (ix : PhaseIndices) : list nat := ix_approved ix ++ ix_executed ix.

Definition voting_data (txs : list PendingTx) (index : nat) : option VotingCheckData :=
  tx ← txs !! index; Some (index, p_message_id tx, p_source_address tx, p_payload_hash_hex tx).
Definition message_data (txs : list PendingTx) (index : nat) : option MessageCheckData :=
  tx ← txs !! index; Some (index, p_message_id tx).

(** ** The GMP API (GmpFailFast, finalize_timed_out_txs) *)

Variable jittered : Z -> Z.
Variables lcd_override rpc_override : option string.
Context `{WebText}.
(** [AXE_VERIFY_INACTIVITY_SECS]. *)
Variable inactivity_var : option string.
(** [value.parse::<Address>()]. *)
Variable parse_addr : string -> option Address.

Definition sweep_tx (base : string) (index : nat) : M W () :=
  txs ← all_txs;
  match txs !! index with
  | Some tx =>
      if negb (is_active tx) then mret ()
      else
        answer ← on_env (timeout GMP_API_RECHECK_TIMEOUT (gmp_lookup jittered base (p_message_id tx)));
        match answer with
        | Some (Ok (Some rec)) =>
            if record_is_failed rec then
              update_tx index (fail_tx "GMP API reports the message failed (hub/destination execute error)");; mret ()
            else mret ()
        | _ => mret ()
        end
  | None => mret ()
  end.

(** [GmpFailFast::sweep]. *)
Definition sweep (network : Network) : M W () :=
  match base_url network with
  | None => mret ()
  | Some base =>
      t ← now;
      s ← get;
      if t - po_last_check s <? GMP_FAIL_CHECK_INTERVAL then mret ()
      else
        modify (fun s => mkPoll (po_env s) (po_txs s) (po_last_progress s) (poll_now (po_env s)));;
        for_each (sweep_tx base) (seq 0 (length (po_txs s)))
  end.

Definition timeout_label (approval execution : string) (p : Phase) : string :=
  match p with
  | Voted => "VotingVerifier"
  | Routed => "cosmos routing"
  | HubApproved => "hub approval"
  | DiscoverSecondLeg => "second-leg discovery"
  | Approved => approval
  | Executed => execution
  end.

Definition mark_timed_out_tx (t : Z) (executed : bool) (approval execution : string) (tx : PendingTx) : PendingTx :=
  if executed then
    let timing := match executed_secs (p_timing tx) with
                  | None => stamp ExecutedSecs (Some (elapsed t tx)) (p_timing tx)
                  | Some _ => p_timing tx
                  end in
    (succeed true (set_timing (set_executed_ok (Some true) timing) tx)).2
  else match phase tx with
       | None => tx
       | Some p =>
           let tx := if decide (p = Executed)
                     then set_timing (set_executed_ok (Some false) (p_timing tx)) tx else tx in
           (time_out (timeout_label approval execution p) tx).2
       end.

Definition finalize_tx (network : Network) (approval execution : string) (index : nat) : M W () :=
  txs ← all_txs;
  match txs !! index with
  | Some tx =>
      if negb (is_active tx) then mret ()
      else
        executed ← on_env (gmp_api_reports_executed jittered network (p_message_id tx));
        t ← now;
        update_tx index (fun tx => ((), mark_timed_out_tx t executed approval execution tx))
  | None => mret ()
  end.

Definition finalize_timed_out_txs (network : Network) (approval execution : string) : M W () :=
  txs ← all_txs;
  for_each (finalize_tx network approval execution) (seq 0 (length txs)).

(** ** The loop both pipelines share *)

(** [receiver] and [send_done] are [Some] when transactions are streamed. *)
Definition ingest (receiver : bool) (normalize : PendingTx -> PendingTx) : M W () :=
  if receiver then
    new ← on_env (request received);
    modify (fun s => set_txs (po_txs s ++ map (fun i => normalize (new_pending i)) new) s)
  else mret ().

Definition sending_complete (has_send_done : bool) : M W bool := fun s =>
  (Ok (if has_send_done then send_done (po_env s) else true), s).

Definition timed_out (complete : bool) : M W bool := fun s =>
  (Ok (inactivity_budget inactivity_var complete <=? poll_now (po_env s) - po_last_progress s), s).

Fixpoint poll_loop (fuel : nat) (receiver has_send_done : bool) (normalize : PendingTx -> PendingTx)
    (network : Network) (round : list nat -> M W ()) : M W () :=
  match fuel with
  | O => throw OutOfFuel
  | S fuel =>
      ingest receiver normalize;;
      complete ← sending_complete has_send_done;
      txs ← all_txs;
      let '(action, progress) := next_action txs complete in
      (if progress then mark_progress else mret ());;
      match action with
      | Finished => mret ()
      | Waiting =>
          sleep POLL_INTERVAL;; poll_loop fuel receiver has_send_done normalize network round
      | Ready active _ complete =>
          sweep network;;
          round active;;
          late ← timed_out complete;
          if (late : bool) then mret ()
          else sleep POLL_INTERVAL;; poll_loop fuel receiver has_send_done normalize network round
      end
  end.

(** A new [PollScheduler] and a new [GmpFailFast]. *)
Definition start_clocks : M W () :=
  modify (fun s => mkPoll (po_env s) (po_txs s) (poll_now (po_env s)) (poll_now (po_env s))).

(** ** GMP *)

Record PollPipelineArgs : Type := mkPipelineArgs {
  pa_lcd : string;
  pa_voting_verifier : option string;
  pa_cosm_gateway : option string;
  pa_source_chain : string;
  pa_destination_chain : string;
  pa_destination_address : string;
  pa_axelarnet_gateway : option string;
  pa_network : Network
}.

Record PhaseCheckData : Type := mkCheckData {
  cd_voted : list VotingCheckData;
  cd_routed : list MessageCheckData;
  cd_hub_approved : list MessageCheckData;
  cd_destination : list nat;
  cd_voting_destination : string * string
}.

Definition collect_phase_check_data (txs : list PendingTx) (active : list nat)
    (destination_chain destination_address : string) : PhaseCheckData :=
  let phases := collect txs active in
  let voting_destination :=
    index ← head (ix_voted phases);
    tx ← txs !! index;
    if decide (p_gmp_destination_chain tx <> "" /\ p_gmp_destination_address tx <> "")
    then Some (p_gmp_destination_chain tx, p_gmp_destination_address tx) else None in
  mkCheckData (omap (voting_data txs) (ix_voted phases)) (omap (message_data txs) (ix_routed phases))
    (omap (message_data txs) (ix_hub_approved phases)) (destination phases)
    (default (destination_chain, destination_address) voting_destination).

(** A check that is skipped without data and taken as passed without its
    contract. *)
Definition optional_check {D} (index_of : D -> nat) (data : list D) (contract : option string)
    (check : string -> M E (list (nat * bool))) : M E (list (nat * bool)) :=
  match data, contract with
  | [], _ => mret []
  | _, Some address => check address
  | _, None => mret (map (fun d => (index_of d, true)) data)
  end.

Definition run_cosmos_phase_checks (args : PollPipelineArgs) (data : PhaseCheckData)
    : M E (list (nat * bool) * list (nat * bool) * list (nat * bool)) :=
  voted ← attempt (optional_check (fun d => d.1.1.1) (cd_voted data) (pa_voting_verifier args) (fun verifier =>
    batch_check_voting_verifier_owned lcd_override (pa_lcd args) verifier (pa_source_chain args)
      (cd_voting_destination data).1 (cd_voting_destination data).2 (cd_voted data)));
  routed ← attempt (optional_check fst (cd_routed data) (pa_cosm_gateway args) (fun gateway =>
    batch_check_cosmos_routed_owned lcd_override (pa_lcd args) gateway (pa_source_chain args) (cd_routed data)));
  hub_approved ← attempt (optional_check fst (cd_hub_approved data) (pa_axelarnet_gateway args) (fun gateway =>
    batch_check_hub_approved_owned lcd_override (pa_lcd args) gateway (pa_source_chain args) (cd_hub_approved data)));
  voted ← lift voted;
  routed ← lift routed;
  hub_approved ← lift hub_approved;
  mret (voted, routed, hub_approved).

Definition apply_phase_check_results (results : list (nat * bool) * list (nat * bool) * list (nat * bool))
    (has_cosm_gateway has_axelarnet_gateway : bool) : M W bool :=
  let '(voted, routed, hub_approved) := results in
  a ← apply_cosmos_results voted VotedSecs (if has_cosm_gateway then Routed else Approved);
  b ← apply_cosmos_results routed RoutedSecs (if has_axelarnet_gateway then HubApproved else Approved);
  c ← apply_cosmos_results hub_approved HubApprovedSecs Approved;
  mret (a || b || c).

Definition is_some {A} (o : option A) : bool := match o with Some _ => true | None => false end.

Definition check_destination `{DestinationVerifier E} (source_chain : string) (indices : list nat) : M W bool :=
  match indices with
  | [] => mret false
  | _ =>
      txs ← all_txs;
      observations ← on_env (dest_check source_chain txs indices);
      apply_destination_observations observations
  end.

Definition check_pipeline_phases `{DestinationVerifier E} (args : PollPipelineArgs) (active : list nat) : M W bool :=
  txs ← all_txs;
  let data := collect_phase_check_data txs active (pa_destination_chain args) (pa_destination_address args) in
  results ← on_env (run_cosmos_phase_checks args data);
  a ← apply_phase_check_results results (is_some (pa_cosm_gateway args)) (is_some (pa_axelarnet_gateway args));
  b ← check_destination (pa_source_chain args) (cd_destination data);
  mret (a || b).

Definition gmp_round `{DestinationVerifier E} (args : PollPipelineArgs) (active : list nat) : M W () :=
  progressed ← check_pipeline_phases args active;
  if (progressed : bool) then mark_progress else mret ().

Definition fill_contract_addr (default_addr : option Address) (tx : PendingTx) : PendingTx :=
  match default_addr with
  | Some a => if p_contract_addr tx =? 0 then set_contract_addr a tx else tx
  | None => tx
  end.

Definition poll_pipeline `{DestinationVerifier E} (fuel : nat) (receiver has_send_done : bool)
    (args : PollPipelineArgs) : M W PeakThroughput :=
  start_clocks;;
  default_addr ← (if needs_contract_address
                  then a ← lift (ok_or (parse_addr (pa_destination_address args)) "invalid address"); mret (Some a)
                  else mret None);
  poll_loop fuel receiver has_send_done (fill_contract_addr default_addr) (pa_network args) (gmp_round args);;
  finalize_timed_out_txs (pa_network args) approval_label execution_label;;
  txs ← all_txs;
  mret (compute_peak_throughput txs).

(** ** ITS through the hub *)

Inductive SecondLegTarget : Type := TargetRouted | TargetDestinationApproval.

Record ItsHubVerifier : Type := mkHub {
  hub_lcd : string;
  hub_voting_verifier : option string;
  hub_source_chain : string;
  hub_axelarnet_gateway : string;
  hub_rpc : string;
  hub_destination_gateway : string;
  hub_second_leg_target : SecondLegTarget;
  hub_backfill_voted_timing : bool
}.

Definition normalize_start (hub : ItsHubVerifier) (tx : PendingTx) : PendingTx :=
  if negb (is_some (hub_voting_verifier hub)) && is_phase Voted tx then (transition_to HubApproved tx).2 else tx.

Definition required_second_leg (tx : PendingTx) : result SecondLeg :=
  ok_or (p_second_leg tx) "tx has no discovered second leg".

Record ItsHubPhaseData : Type := mkHubData {
  hd_voted : list VotingCheckData;
  hd_hub_approved : list MessageCheckData;
  hd_routed : list MessageCheckData;
  hd_voting_destination : string * string
}.

(** The messages of the second legs, an error at the first that is missing. *)
Definition routed_data (txs : list PendingTx) (index : nat) : result MessageCheckData :=
  match txs !! index with
  | Some tx => leg ← required_second_leg tx; Ok (index, leg_message_id leg)
  | None => bail "index out of bounds"
  end.
Fixpoint collect_results {A B} (f : A -> result B) (l : list A) : result (list B) :=
  match l with
  | [] => Ok []
  | x :: l => b ← f x; bs ← collect_results f l; Ok (b :: bs)
  end.

Definition collect_phase_data (txs : list PendingTx) (phases : PhaseIndices) : result ItsHubPhaseData :=
  let voted := omap (voting_data txs) (ix_voted phases) in
  routed ← collect_results (routed_data txs) (ix_routed phases);
  let destination :=
    index ← head (ix_voted phases);
    tx ← txs !! index; Some (p_gmp_destination_chain tx, p_gmp_destination_address tx) in
  Ok (mkHubData voted (omap (message_data txs) (ix_hub_approved phases)) routed (default ("", "") destination)).

Definition unless_empty {D} (data : list D) (check : M E (list (nat * bool))) : M E (list (nat * bool)) :=
  match data with [] => mret [] | _ => check end.

Definition run_phase_checks (hub : ItsHubVerifier) (data : ItsHubPhaseData)
    : M E (list (nat * bool) * list (nat * bool) * list (nat * bool)) :=
  voted ← attempt (optional_check (fun d => d.1.1.1) (hd_voted data) (hub_voting_verifier hub) (fun verifier =>
    batch_check_voting_verifier_owned lcd_override (hub_lcd hub) verifier (hub_source_chain hub)
      (hd_voting_destination data).1 (hd_voting_destination data).2 (hd_voted data)));
  hub_approved ← attempt (unless_empty (hd_hub_approved data)
    (batch_check_hub_approved_owned lcd_override (hub_lcd hub) (hub_axelarnet_gateway hub) (hub_source_chain hub)
       (hd_hub_approved data)));
  routed ← attempt (unless_empty (hd_routed data)
    (batch_check_cosmos_routed_owned lcd_override (hub_lcd hub) (hub_destination_gateway hub) "axelar" (hd_routed data)));
  voted ← lift voted;
  hub_approved ← lift hub_approved;
  routed ← lift routed;
  mret (voted, hub_approved, routed).

(** The times of a hub approval. *)
Definition hub_stamped (backfill : bool) (t : Z) (tx : PendingTx) : PendingTx :=
  let tx := if backfill && negb (is_some (voted_secs (p_timing tx))) then stamped VotedSecs t tx else tx in
  stamped HubApprovedSecs t tx.

Definition apply_hub_approved (hub : ItsHubVerifier) (results : list (nat * bool)) : M W bool :=
  any_progress (fun '(index, observed) =>
    if negb observed then mret false
    else t ← now; update_tx index (fun tx =>
      transition_to DiscoverSecondLeg (hub_stamped (hub_backfill_voted_timing hub) t tx))) results.

Definition apply_phase_results (hub : ItsHubVerifier)
    (results : list (nat * bool) * list (nat * bool) * list (nat * bool)) : M W bool :=
  let '(voted, hub_approved, routed) := results in
  a ← apply_cosmos_results voted VotedSecs HubApproved;
  b ← apply_hub_approved hub hub_approved;
  c ← apply_cosmos_results routed RoutedSecs Approved;
  mret (a || b || c).

Definition leg_target (hub : ItsHubVerifier) : Phase :=
  match hub_second_leg_target hub with TargetRouted => Routed | TargetDestinationApproval => Approved end.

(** All discovery requests run; their results come in the order of completion. *)
Fixpoint run_discoveries (rpc : string) (requests : list MessageCheckData)
    : M E (list (result (nat * option SecondLegInfo))) :=
  match requests with
  | [] => mret []
  | (index, message_id) :: requests =>
      info ← attempt (discover_leg rpc_override rpc message_id);
      rest ← run_discoveries rpc requests;
      mret ((pair index <$> info) :: rest)
  end.

Definition install_leg (hub : ItsHubVerifier) (r : result (nat * option SecondLegInfo)) : M W bool :=
  '(index, info) ← lift r;
  match info with
  | None => mret false
  | Some info =>
      payload_hash ← lift (match parse_payload_hash (si_payload_hash info) with
                           | Ok h => Ok h
                           | Err _ => bail "tx has an invalid second-leg payload_hash"
                           end);
      update_tx index (discover_second_leg
        (mkLeg (si_message_id info) payload_hash (si_source_address info) (si_destination_address info))
        (leg_target hub))
  end.

Definition discover_second_legs (hub : ItsHubVerifier) (indices : list nat) : M W bool :=
  txs ← all_txs;
  results ← on_env (run_discoveries (hub_rpc hub) (omap (message_data txs) indices));
  results ← on_env (request (unordered results));
  any_progress (install_leg hub) results.

Definition hub_check (hub : ItsHubVerifier) (phases : PhaseIndices) : M W bool :=
  txs ← all_txs;
  data ← lift (collect_phase_data txs phases);
  results ← on_env (run_phase_checks hub data);
  a ← apply_phase_results hub results;
  b ← discover_second_legs hub (ix_discover phases);
  mret (a || b).

Definition its_round `{DestinationVerifier E} (hub : ItsHubVerifier) (active : list nat) : M W () :=
  txs ← all_txs;
  let phases := collect txs active in
  a ← hub_check hub phases;
  (if (a : bool) then mark_progress else mret ());;
  b ← check_destination "axelar" (destination phases);
  (if (b : bool) then mark_progress else mret ()).

(** What [poll_pipeline_its_hub] and [poll_pipeline_its_hub_evm] share: they
    differ in the hub verifier and the destination they build. *)
Definition poll_its_hub `{DestinationVerifier E} (fuel : nat) (receiver has_send_done : bool)
    (hub : ItsHubVerifier) (network : Network) : M W PeakThroughput :=
  start_clocks;;
  modify (fun s => set_txs (map (normalize_start hub) (po_txs s)) s);;
  poll_loop fuel receiver has_send_done (normalize_start hub) network (its_round hub);;
  finalize_timed_out_txs network approval_label execution_label;;
  txs ← all_txs;
  mret (compute_peak_throughput txs).

Record PollItsHubArgs : Type := mkHubArgs {
  ha_lcd : string;
  ha_voting_verifier : option string;
  ha_source_chain : string;
  ha_axelarnet_gateway : string;
  ha_rpc : string;
  ha_cosm_gateway_dest : string;
  ha_network : Network
}.

Definition hub_of (args : PollItsHubArgs) (target : SecondLegTarget) (backfill : bool) : ItsHubVerifier :=
  mkHub (ha_lcd args) (ha_voting_verifier args) (ha_source_chain args) (ha_axelarnet_gateway args) (ha_rpc args)
    (ha_cosm_gateway_dest args) target backfill.

Definition poll_pipeline_its_hub `{DestinationVerifier E} (fuel : nat) (receiver has_send_done : bool)
    (args : PollItsHubArgs) : M W PeakThroughput :=
  poll_its_hub fuel receiver has_send_done (hub_of args TargetRouted false) (ha_network args).

Definition poll_pipeline_its_hub_evm (verifier : ItsEvmDest -> DestinationVerifier E) (fuel : nat)
    (receiver has_send_done : bool) (dest : ItsEvmDest) (args : PollItsHubArgs) : M W PeakThroughput :=
  let target := match dest with ItsLegacy _ => TargetDestinationApproval | ItsAmplifier => TargetRouted end in
  @poll_its_hub (verifier dest) fuel receiver has_send_done (hub_of args target true) (ha_network args).
End State.
