(* ===== verification/LoadFacts.v ===== *)
(** * What the pipelines do to the transactions

    Every change a pipeline makes to a transaction is one of a few moves of its
    life ([life]); the state of each transaction at the end of a run is reached
    from its state at the start by such moves, whatever the network answers and
    wherever the run stops.  The consequences: verdicts are final, the hub
    pipeline never looks for a second leg it does not have, a run that returns
    has settled every transaction and the report counts each of them once, and a
    run ends. *)

From S2P Require Import Prelude Types Retry Journal Chain Intent Json LoadTest LoadNet LoadPipeline.

(** ** Programs that respect a preorder

    [hold R F m Q]: every run of [m] moves the state along [R]; it returns a
    value in [Q] or an error in [F]. *)

Definition hold {S A} (R : S -> S -> Prop) (F : error -> Prop) (m : M S A) (Q : A -> Prop) : Prop :=
  forall s, R s (m s).2 /\ match (m s).1 with Ok a => Q a | Err e => F e end.

Create HintDb hold.

Section Hold.
Context {S : Type} (R : S -> S -> Prop) `{!PreOrder R} (F : error -> Prop).

Lemma hold_ret {A} (a : A) (Q : A -> Prop) : Q a -> hold R F (mret a) Q.
Proof. done. Qed.
Lemma hold_lift {A} (r : result A) (Q : A -> Prop) :
  match r with Ok a => Q a | Err e => F e end -> hold R F (lift r) Q.
Proof. done. Qed.
Lemma hold_throw {A} e (Q : A -> Prop) : F e -> hold R F (throw e) Q.
Proof. done. Qed.
Lemma hold_modify f (Q : () -> Prop) : (forall s, R s (f s)) -> Q () -> hold R F (modify f) Q.
Proof. intros Hf Hq s. simpl. auto. Qed.
Lemma hold_get (Q : S -> Prop) : (forall s, Q s) -> hold R F get Q.
Proof. intros Hq s. split; [done|apply Hq]. Qed.
Lemma hold_bind {A B} (m : M S A) (f : A -> M S B) (P : A -> Prop) (Q : B -> Prop) :
  hold R F m P -> (forall a, P a -> hold R F (f a) Q) -> hold R F (m ≫= f) Q.
Proof.
  intros Hm Hf s. destruct (Hm s) as [Hr Hv]. unfold mbind, M_bind.
  destruct (m s) as [[a|e] s']; [|done]. destruct (Hf a Hv s') as [Hr' Hv']. split; [by etrans|done].
Qed.
Lemma hold_attempt {A} (m : M S A) (Q : A -> Prop) :
  hold R F m Q -> hold R F (attempt m) (fun r => match r with Ok a => Q a | Err e => F e end).
Proof. intros Hm s. specialize (Hm s). unfold attempt. by destruct (m s) as [[a|e] s']. Qed.
Lemma hold_weaken {A} (m : M S A) (P Q : A -> Prop) :
  hold R F m P -> (forall a, P a -> Q a) -> hold R F m Q.
Proof. intros Hm Hpq s. destruct (Hm s) as [Hr Hv]. split; [done|]. destruct (m s) as [[a|e] s']; simpl in *; auto. Qed.
Lemma hold_for_each {A} (f : A -> M S ()) l :
  (forall x, hold R F (f x) (fun _ => True)) -> hold R F (for_each f l) (fun _ => True).
Proof. intros Hf. induction l as [|x l IH]; [done|]. eapply hold_bind; [apply Hf|]. intros [] _. apply IH. Qed.
End Hold.

(** One step through a program: binds, branches, and the requests of the
    database. *)
Ltac hold_step :=
  match goal with
  | |- PreOrder _ => apply _
  | |- hold _ _ (_ ≫= _) _ => apply (hold_bind _ _ _ _ (fun _ => True)); [try apply _..|intros ? ?]
  | |- hold _ _ (mret _) _ => apply hold_ret; [apply _|by auto]
  | |- hold _ _ (throw _) _ => apply hold_throw; [apply _|by auto]
  | |- hold _ _ (match ?x with _ => _ end) _ => destruct x eqn:?
  end.
Ltac hold_auto := repeat first [progress simpl | hold_step | solve [eauto with hold]].

(** ** The network programs *)

(** A preorder on environments that every request and every wait respects. *)
Class Respects {E : Type} `{PollEnv E} (L : E -> E -> Prop) : Prop := {
  respects_preorder :: PreOrder L;
  respects_sleep d e : L e (poll_sleep d e);
  respects_received e : L e (received e).2;
  respects_http url e : L e (http_get url e).2;
  respects_gmp base body e : L e (gmp_post base body e).2;
  respects_approved sc id a c h e : L e (is_message_approved sc id a c h e).2;
  respects_executed sc id e : L e (is_message_executed sc id e).2;
  respects_command c e : L e (is_command_executed c e).2;
  respects_block e : L e (get_block_number e).2;
  respects_logs g h a b e : L e (get_approved_logs g h a b e).2;
  respects_unordered {A} (l : list A) e : L e (unordered l e).2
}.

Section Net.
Context {E : Type} `{PollEnv E, WebText}.
Variable jittered : Z -> Z.
Variables lcd_override rpc_override : option string.
Context (L : E -> E -> Prop) `{!Respects L} (F : error -> Prop).
Hypothesis F_failed : forall msg, F (Failed msg).

Abbreviation asks m := (hold L F m (fun _ => True)).

Lemma hold_request {A} (f : E -> A * E) : (forall e, L e (f e).2) -> asks (request f).
Proof. intros Hf e. specialize (Hf e). unfold request. by destruct (f e). Qed.

Lemma lift_ok_or {A} (o : option A) msg : asks (lift (ok_or o msg)).
Proof. apply hold_lift; [apply _|]. destruct o; simpl; auto. Qed.
Lemma hold_ensure b msg : asks (ensure b msg).
Proof. apply hold_lift; [apply _|]. destruct b; simpl; auto. Qed.

(** A request repeated with backoff: the answer is one of its answers. *)
Lemma retry_later {A X} p n (P : A -> Prop) (f : E -> (X + A) * E) e :
  (forall e, L e (f e).2) -> (forall e a, (f e).1 = inr a -> P a) ->
  exists r slept e', retry_async jittered poll_sleep p n f e = Some (r, slept, e') /\ L e e' /\
    (forall a, r = inr a -> P a).
Proof.
  intros Hf HP. destruct (retry_loop_spec jittered poll_sleep p f (S (Z.to_nat n)) n 0 e)
    as (k & r & slept & e' & Hr & Hc & _); [lia..|]. exists r, slept, e'. split; [done|].
  eapply (calls_post jittered poll_sleep p (fun e1 => L e e1)
    (fun r e1 => L e e1 /\ forall a, r = inr a -> P a)); [|..|done|done].
  - intros e1 He1. assert (L e (f e1).2) by (by etrans; [|apply Hf]). split; [|by intros x _]. split; [done|apply HP].
  - intros d e1 He1. by etrans; [|apply respects_sleep].
Qed.

Lemma hold_retry_all {A} (P : A -> Prop) (f : E -> (string + A) * E) :
  (forall e, L e (f e).2) -> (forall e a, (f e).1 = inr a -> P a) -> hold L F (retry_all_calls jittered f) P.
Proof.
  intros Hf HP e. unfold retry_all_calls, retry_all.
  destruct (retry_later (fun _ => true) DEFAULT_ATTEMPTS P f e Hf HP) as (r & slept & e' & -> & Hl & Hr).
  destruct r; simpl; auto.
Qed.
Lemma asks_retry_all {A} (f : E -> (string + A) * E) :
  (forall e, L e (f e).2) -> asks (retry_all_calls jittered f).
Proof. intros Hf. by apply hold_retry_all. Qed.

Lemma asks_post_search base body : asks (post_search jittered base body).
Proof.
  intros e. unfold post_search.
  destruct (retry_later (fun b => b) (Z.of_nat FALLBACK_ATTEMPTS) (fun _ => True) (gmp_post base body) e)
    as (r & slept & e' & -> & Hl & _); [apply respects_gmp|done|]. destruct r; simpl; auto.
Qed.

Local Hint Resolve lift_ok_or hold_ensure hold_request asks_retry_all asks_post_search : hold.
Local Hint Extern 2 (L _ _) =>
  first [ apply respects_sleep | apply respects_received | apply respects_http | apply respects_approved
        | apply respects_executed | apply respects_command | apply respects_block | apply respects_logs
        | apply respects_unordered ] : hold.


Lemma asks_query path endpoints last : asks (query_candidates path endpoints last).
Proof. revert last. induction endpoints as [|u us IH]; intros last; hold_auto. Qed.

Lemma asks_search path endpoints last : asks (search_candidates path endpoints last).
Proof. revert last. induction endpoints as [|u us IH]; intros last; hold_auto. Qed.

Lemma parse_leg_failed resp : match parse_second_leg_from_tx_search resp with Ok _ => True | Err e => F e end.
Proof.
  unfold parse_second_leg_from_tx_search, require_attr. destruct (tx_search_of resp) as [[[|[events|] txs]|]|]; simpl; auto.
  destruct (List.find _ events) as [[? attrs]|]; simpl; auto.
  repeat (destruct (get_attr attrs _); simpl; auto).
Qed.

Local Hint Resolve asks_query asks_search : hold.

Lemma asks_smart_query lcd contract query : asks (lcd_cosmwasm_smart_query_typed lcd_override lcd contract query).
Proof. apply asks_query. Qed.

Lemma asks_discover rpc id : asks (discover_leg rpc_override rpc id).
Proof.
  unfold discover_leg, rpc_tx_search_event. hold_auto. apply hold_lift; [apply _|]. apply parse_leg_failed.
Qed.

Local Hint Resolve asks_smart_query asks_discover : hold.

Lemma asks_observe lcd contract query pending : asks (observe_contract_query lcd_override lcd contract query pending).
Proof. unfold observe_contract_query. hold_auto. Qed.

(** The results of a batch are about its data. *)
Definition about {D} (index_of : D -> nat) (data : list D) (results : list (nat * bool)) : Prop :=
  forall i b, (i, b) ∈ results -> exists d, d ∈ data /\ index_of d = i.

Lemma chunks_of_elem {A} size fuel (l : list A) c x : c ∈ chunks_of size fuel l -> x ∈ c -> x ∈ l.
Proof.
  revert l. induction fuel as [|fuel IH]; intros [|y l] Hc Hx; try by apply elem_of_nil in Hc.
  cbn [chunks_of] in Hc. apply elem_of_cons in Hc as [->|Hc].
  - by eapply subseteq_take.
  - by eapply subseteq_drop, IH.
Qed.

Lemma asks_join {D} size (index_of : D -> nat) (f : list D -> M E (list (nat * bool))) l :
  (forall c, hold L F (f c) (about index_of c)) -> hold L F (join_chunks f (chunks size l)) (about index_of l).
Proof.
  intros Hf. unfold chunks.
  assert (forall c x, c ∈ chunks_of size (length l) l -> x ∈ c -> x ∈ l) as Hin by (intros c x; apply chunks_of_elem).
  revert Hin. generalize (chunks_of size (length l) l). intros cs. induction cs as [|c cs IH]; intros Hin; simpl.
  - apply hold_ret; [apply _|]. intros i b Hib. by apply elem_of_nil in Hib.
  - eapply hold_bind; [apply _|apply Hf|]. intros bs Hbs.
    eapply hold_bind; [apply _|apply IH; intros ????; eapply Hin; [by right|done]|]. intros rest Hrest.
    apply hold_ret; [apply _|]. intros i b [Hib|Hib]%elem_of_app; [|by eapply Hrest].
    destruct (Hbs i b Hib) as (d & Hd & <-). exists d. split; [|done]. eapply Hin; [by left|done].
Qed.

Lemma about_map {D} (index_of : D -> nat) (c : list D) v : about index_of c (map (fun d => (index_of d, v)) c).
Proof. intros i b (d & [= -> ->] & Hd)%list_elem_of_fmap. eauto. Qed.

Lemma about_zip {D I} (index_of : D -> nat) (v : I -> bool) items (c : list D) :
  about index_of c (zip_with (fun item d => (index_of d, v item)) items c).
Proof. intros i b (x & d & [= -> ->] & _ & Hd)%elem_of_zip_with. eauto. Qed.

Local Hint Resolve asks_observe : hold.

Lemma asks_voting lcd v sc dc da txs :
  hold L F (batch_check_voting_verifier_owned lcd_override lcd v sc dc da txs) (about (fun d => d.1.1.1) txs).
Proof.
  unfold batch_check_voting_verifier_owned. apply asks_join. intros chunk. hold_step; [hold_auto|].
  destruct a as [err|data].
  - destruct (is_transient err); [|hold_auto]. apply hold_ret; [apply _|apply about_map].
  - hold_step; [hold_auto|]. hold_step; [hold_auto|]. apply hold_ret; [apply _|].
    apply (about_zip (fun d : VotingCheckData => d.1.1.1)
      (fun item => match item with Some s => contains "succeeded" (to_lowercase s) | None => false end)).
Qed.
Lemma asks_presence lcd c q p sc txs :
  hold L F (batch_check_presence lcd_override lcd c q p sc txs) (about fst txs).
Proof.
  unfold batch_check_presence. apply asks_join. intros chunk. hold_step; [hold_auto|]. destruct a as [items|].
  - hold_step; [hold_auto|]. apply hold_ret; [apply _|]. apply (about_zip fst (fun b => b)).
  - apply hold_ret; [apply _|apply about_map].
Qed.

Lemma asks_lookup base id : asks (gmp_lookup jittered base id).
Proof. unfold gmp_lookup, search_by_message_id, search_by_tx. hold_auto. Qed.

Lemma asks_timeout {A} limit (m : M E A) : asks m -> asks (timeout limit m).
Proof. intros Hm e. destruct (Hm e) as [Hl _]. unfold timeout. by destruct (m e). Qed.

Local Hint Resolve asks_lookup asks_timeout : hold.

Lemma asks_recheck n base id : asks (recheck jittered n base id).
Proof.
  induction n as [|n IH]; cbn [recheck]; [hold_auto|]. hold_step; [apply asks_timeout; hold_auto|].
  assert (asks (match n with O => mret false
                | S _ => modify (poll_sleep GMP_API_RECHECK_BACKOFF);; recheck jittered n base id end)) as Hnext.
  { destruct n; [hold_auto|]. hold_step; [|apply IH]. apply hold_modify; [intros e; apply respects_sleep|done]. }
  destruct a as [[[|]|]|]; auto. hold_auto.
Qed.

Lemma asks_reports network id : asks (gmp_api_reports_executed jittered network id).
Proof. unfold gmp_api_reports_executed. destruct (base_url network); [apply asks_recheck|hold_auto]. Qed.

Lemma asks_discoveries rpc requests :
  hold L F (run_discoveries rpc_override rpc requests) (Forall (fun r => match r with Ok _ => True | Err e => F e end)).
Proof.
  induction requests as [|[i id] requests IH]; simpl; [apply hold_ret; [apply _|by constructor]|].
  eapply hold_bind; [apply _|apply hold_attempt, asks_discover|]. intros info Hi.
  eapply hold_bind; [apply _|apply IH|]. intros rest Hrest. apply hold_ret; [apply _|].
  constructor; [by destruct info|done].
Qed.
End Net.

(** ** The life of a transaction *)

(** The abstract machine: phases advance along [can_transition_to], a
    transaction that is not settled can be settled, and nothing else happens. *)
Inductive life : VerificationState -> VerificationState -> Prop :=
  | life_advance p q : can_transition_to p q = true -> life (Active p) (Active q)
  | life_succeed p recovered : life (Active p) (Succeeded recovered)
  | life_fail p failure : life (Active p) (FailedIn p failure).

(** A verdict is final. *)
Lemma life_settled st st' : rtc life st st' -> (forall p, st <> Active p) -> st' = st.
Proof. intros [|st1 st2 st3 Hl _] Hst; [done|]. destruct Hl; naive_solver. Qed.

(** What a pipeline never changes. *)
Definition same_message (tx tx' : PendingTx) : Prop :=
  p_idx tx' = p_idx tx /\ p_message_id tx' = p_message_id tx /\ p_send_instant tx' = p_send_instant tx /\
  p_payload_hash tx' = p_payload_hash tx /\ p_contract_addr tx' = p_contract_addr tx.

(** The changes of a transaction, by the operations the code applies. *)
Inductive gmp_move (tx : PendingTx) : PendingTx -> Prop :=
  | gm_cosmos s t q : q ∈ [Routed; HubApproved; Approved] -> gmp_move tx (transition_to q (stamped s t tx)).2
  | gm_observe t status : gmp_move tx (apply_observation t status tx).2
  | gm_fail why : gmp_move tx (fail_tx why tx).2
  | gm_settle t executed a x : gmp_move tx (mark_timed_out_tx t executed a x tx).

Inductive its_move (tx : PendingTx) : PendingTx -> Prop :=
  | im_voted t : is_phase Routed tx = false -> its_move tx (transition_to HubApproved (stamped VotedSecs t tx)).2
  | im_hub backfill t : its_move tx (transition_to DiscoverSecondLeg (hub_stamped backfill t tx)).2
  | im_leg leg target : target ∈ [Routed; Approved] -> its_move tx (discover_second_leg leg target tx).2
  | im_routed t : p_second_leg tx <> None -> its_move tx (transition_to Approved (stamped RoutedSecs t tx)).2
  | im_observe t status : its_move tx (apply_observation t status tx).2
  | im_fail why : its_move tx (fail_tx why tx).2
  | im_settle t executed a x : its_move tx (mark_timed_out_tx t executed a x tx).

(** Each of them is at most one step of a life. *)
Definition lives (tx tx' : PendingTx) : Prop :=
  rtc life (p_state tx) (p_state tx') /\ same_message tx tx'.

#[export] Instance same_message_preorder : PreOrder same_message.
Proof. split; [by intros tx|]. intros a b c (? & ? & ? & ? & ?) (? & ? & ? & ? & ?). repeat split; congruence. Qed.
#[export] Instance lives_preorder : PreOrder lives.
Proof. split; [by split|]. intros a b c [H1 H2] [H3 H4]. split; by etrans. Qed.

Lemma transition_lives q tx : lives tx (transition_to q tx).2.
Proof.
  unfold transition_to. destruct (p_state tx) as [p| |] eqn:Hs; try by split.
  destruct (can_transition_to p q) eqn:Hc; [|by split]. split; [|done]. simpl. rewrite Hs.
  by apply rtc_once, life_advance.
Qed.
Lemma timing_lives t tx : lives tx (set_timing t tx).
Proof. by split. Qed.
Lemma fail_lives f tx : lives tx (fail_with f tx).2.
Proof.
  unfold fail_with. destruct (p_state tx) as [p| |] eqn:Hs; try by split.
  split; [|done]. simpl. rewrite Hs. apply rtc_once, life_fail.
Qed.
Lemma succeed_lives b tx : lives tx (succeed b tx).2.
Proof.
  unfold succeed, is_active. destruct (p_state tx) as [p| |] eqn:Hs; try by split.
  split; [|done]. simpl. rewrite Hs. apply rtc_once, life_succeed.
Qed.
Lemma approve_lives c tx : lives tx (approve_destination c tx).2.
Proof.
  unfold approve_destination, is_phase. case_bool_decide as Hs; [|by split].
  split; [|done]. simpl. rewrite Hs. by apply rtc_once, life_advance.
Qed.
Lemma execute_lives c tx : lives tx (execute_destination c tx).2.
Proof.
  unfold execute_destination, is_phase. case_bool_decide as Hs; [|case_bool_decide as Hs']; simpl; [..|by split].
  all: split; [|done]; simpl; rewrite ?Hs, ?Hs'; apply rtc_once, life_succeed.
Qed.
Lemma leg_lives leg q tx : lives tx (discover_second_leg leg q tx).2.
Proof.
  unfold discover_second_leg. destruct (p_state tx) as [p| |] eqn:Hs; try by split.
  case_bool_decide; simpl; [by split|]. destruct (can_transition_to p q) eqn:Hc; simpl; [|by split].
  split; [|done]. simpl. rewrite Hs. by apply rtc_once, life_advance.
Qed.

Create HintDb life.
#[export] Hint Resolve transition_lives timing_lives fail_lives succeed_lives approve_lives execute_lives leg_lives : life.

Lemma observe_lives t status tx : lives tx (apply_observation t status tx).2.
Proof.
  unfold apply_observation. destruct (is_active tx); [simpl|done]. destruct status as [|c|c]; [done| |].
  - destruct (is_phase Approved tx); [|done]. etrans; [apply timing_lives|apply approve_lives].
  - etrans; [apply timing_lives|apply execute_lives].
Qed.
Lemma settle_lives t executed a x tx : lives tx (mark_timed_out_tx t executed a x tx).
Proof.
  unfold mark_timed_out_tx. destruct executed.
  - etrans; [apply timing_lives|apply succeed_lives].
  - destruct (phase tx) as [p|]; [|done]. destruct (decide (p = Executed)); unfold time_out; auto with life.
    etrans; [apply timing_lives|apply fail_lives].
Qed.
Lemma stamped_lives q s t tx : lives tx (transition_to q (stamped s t tx)).2.
Proof. etrans; [apply timing_lives|apply transition_lives]. Qed.

Lemma gmp_move_lives tx tx' : gmp_move tx tx' -> lives tx tx'.
Proof. destruct 1; unfold fail_tx; auto using stamped_lives, observe_lives, settle_lives with life. Qed.
Lemma hub_stamped_lives backfill t tx : lives tx (hub_stamped backfill t tx).
Proof. unfold hub_stamped. by destruct (_ && _). Qed.
Lemma its_move_lives tx tx' : its_move tx tx' -> lives tx tx'.
Proof.
  destruct 1; unfold fail_tx; auto using stamped_lives, observe_lives, settle_lives with life.
  etrans; [apply hub_stamped_lives|apply transition_lives].
Qed.

(** ** Runs that change transactions by moves *)

(** A preorder on runs that allows requests and moves. *)
Class Steps {E : Type} (L : E -> E -> Prop) (mv : PendingTx -> PendingTx -> Prop) (R : Poll E -> Poll E -> Prop)
    : Prop := {
  steps_preorder :: PreOrder R;
  steps_env s e : L (po_env s) e -> R s (set_env e s);
  steps_check s t : R s (mkPoll (po_env s) (po_txs s) (po_last_progress s) t);
  steps_move s i tx tx' : po_txs s !! i = Some tx -> mv tx tx' -> R s (set_txs (<[i := tx']> (po_txs s)) s)
}.

Section Runs.
Context {E : Type} `{PollEnv E, WebText}.
Variable jittered : Z -> Z.
Variables lcd_override rpc_override : option string.
Context (L : E -> E -> Prop) `{!Respects L} (F : error -> Prop).
Hypothesis F_failed : forall msg, F (Failed msg).
Context (mv : PendingTx -> PendingTx -> Prop) (R : Poll E -> Poll E -> Prop) `{!Steps L mv R}.
Abbreviation W := (Poll E).
Abbreviation goes m := (hold R F m (fun _ => True)).

Lemma hold_on_env {A} (m : M E A) Q : hold L F m Q -> hold R F (on_env m) Q.
Proof.
  intros Hm s. destruct (Hm (po_env s)) as [Hl Hq]. unfold on_env. destruct (m (po_env s)) as [r e].
  split; [by apply steps_env|done].
Qed.
Lemma hold_now : goes (now (E := E)).
Proof. by intros s. Qed.
Lemma hold_all_txs : goes (all_txs (E := E)).
Proof. by intros s. Qed.
Lemma hold_update {A} i (g : PendingTx -> A * PendingTx) : (forall tx, mv tx (g tx).2) -> goes (update_tx (E := E) i g).
Proof.
  intros Hg s. unfold update_tx. destruct (po_txs s !! i) as [tx|] eqn:Htx; [|by simpl].
  specialize (Hg tx). destruct (g tx) as [a tx']. split; [by eapply steps_move|done].
Qed.
Lemma hold_any {A} (f : A -> M W bool) l : (forall x, x ∈ l -> goes (f x)) -> goes (any_progress f l).
Proof.
  induction l as [|x l IH]; intros Hf; simpl; [hold_auto|].
  hold_step; [apply Hf; by left|]. hold_step; [|hold_auto]. apply IH. intros y Hy. apply Hf. by right.
Qed.

(** A loop of updates whose transactions satisfy a guard the updates keep. *)
Definition guarded (g : Z -> PendingTx -> bool * PendingTx) (x : nat * bool) : M W bool :=
  let '(index, observed) := x in if negb observed then mret false else t ← now; update_tx index (g t).

Definition all_guarded (G : PendingTx -> Prop) (results : list (nat * bool)) (s : W) : Prop :=
  forall i b tx, (i, b) ∈ results -> po_txs s !! i = Some tx -> G tx.

Lemma guarded_step (G : PendingTx -> Prop) g x results s :
  (forall tx t, G tx -> G (g t tx).2 /\ mv tx (g t tx).2) -> all_guarded G (x :: results) s ->
  let p := guarded g x s in
  R s p.2 /\ match p.1 with Ok _ => True | Err e => F e end /\ all_guarded G results p.2.
Proof.
  intros Hg Hs. assert (all_guarded G results s) as Hrest by (intros ??? Hin; eapply Hs; by right).
  destruct x as [i []]; simpl; [|done]. unfold mbind, M_bind, now, update_tx.
  destruct (po_txs s !! i) as [tx|] eqn:Htx; [|split; [done|]; split; [apply F_failed|done]].
  destruct (Hg tx (poll_now (po_env s))) as [HG Hmv]; [eapply Hs; [by left|done]|].
  destruct (g _ tx) as [a tx'] eqn:Heq. split; [by eapply steps_move|]. split; [done|].
  intros j d tx1 Hj Htx1. simpl in *. apply list_lookup_insert_Some in Htx1 as [(<- & <- & _)|[_ Htx1]]; [done|].
  by eapply Hrest.
Qed.

Lemma hold_guarded (G : PendingTx -> Prop) g results s :
  (forall tx t, G tx -> G (g t tx).2 /\ mv tx (g t tx).2) -> all_guarded G results s ->
  let p := any_progress (guarded g) results s in
  R s p.2 /\ match p.1 with Ok _ => True | Err e => F e end.
Proof.
  intros Hg. revert s. induction results as [|x results IH]; intros s Hs; cbn [any_progress]; [done|].
  destruct (guarded_step G g x results s Hg Hs) as (Hr & Hf & Hs'). unfold mbind, M_bind.
  destruct (guarded g x s) as [[a|e] s']; [|done]. destruct (IH s' Hs') as [Hr' Hf'].
  destruct (any_progress _ results s') as [[a'|e] s'']; simpl in *; (split; [by etrans|done]).
Qed.

Local Hint Resolve hold_now hold_all_txs : hold.

Lemma goes_sweep network :
  (forall tx why, mv tx (fail_tx why tx).2) -> goes (sweep (E := E) jittered network).
Proof.
  intros Hfail. unfold sweep. destruct (base_url network) as [base|]; [|hold_auto].
  hold_step; [apply hold_now|]. hold_step; [apply hold_get; [apply _|done]|]. destruct (_ <? _); [hold_auto|].
  hold_step; [apply hold_modify; [|done]; intros s; apply steps_check|].
  apply hold_for_each; [apply _|]. intros i. unfold sweep_tx. hold_step; [apply hold_all_txs|].
  destruct (_ !! i) as [tx|]; [|hold_auto]. destruct (is_active tx); simpl; [|hold_auto].
  hold_step; [apply hold_on_env, asks_timeout, asks_lookup; auto|].
  repeat hold_step. apply hold_update. intros tx'. apply Hfail.
Qed.

Lemma goes_finalize network approval execution :
  (forall tx t executed a x, mv tx (mark_timed_out_tx t executed a x tx)) ->
  goes (finalize_timed_out_txs (E := E) jittered network approval execution).
Proof.
  intros Hsettle. unfold finalize_timed_out_txs. hold_step; [apply hold_all_txs|].
  apply hold_for_each; [apply _|]. intros i. unfold finalize_tx. hold_step; [apply hold_all_txs|].
  destruct (_ !! i) as [tx|]; [|hold_auto]. destruct (is_active tx); simpl; [|hold_auto].
  hold_step; [apply hold_on_env, asks_reports; auto|]. hold_step; [apply hold_now|].
  apply hold_update. intros tx'. apply Hsettle.
Qed.

Lemma goes_destination `{DestinationVerifier E} source_chain indices :
  (forall tx t status, mv tx (apply_observation t status tx).2) ->
  (forall sc txs ix, hold L F (dest_check sc txs ix) (fun _ => True)) ->
  goes (check_destination (E := E) source_chain indices).
Proof.
  intros Hobs Hdest. unfold check_destination. destruct indices; [hold_auto|].
  hold_step; [apply hold_all_txs|]. hold_step; [by apply hold_on_env|].
  apply hold_any. intros o _. hold_step; [apply hold_now|].
  apply hold_update. intros tx. apply Hobs.
Qed.
End Runs.

(** ** Prices

    A price on transactions pays for progress when an update that reports
    progress lowers it by [unit], and none raises it. *)

Definition gain (unit : Z) (progressed : bool) : Z := if progressed then unit else 0.
Definition load (price : PendingTx -> Z) (txs : list PendingTx) : Z := foldr (fun tx acc => price tx + acc) 0 txs.
Definition pays (price : PendingTx -> Z) (unit : Z) (p : bool * PendingTx) (tx : PendingTx) : Prop :=
  price p.2 + gain unit p.1 <= price tx.

Lemma load_insert price txs i tx tx' :
  txs !! i = Some tx -> load price (<[i := tx']> txs) = load price txs - price tx + price tx'.
Proof.
  revert i. induction txs as [|t txs IH]; intros [|i] Htx; simplify_eq/=; [lia|]. rewrite (IH i) by done. lia.
Qed.
Lemma load_app price txs new : load price (txs ++ new) = load price txs + load price new.
Proof. induction txs as [|t txs IH]; simpl; [done|]. rewrite IH. lia. Qed.

(** Programs whose progress is paid for. *)
Definition paid {E} price unit (m : M (Poll E) bool) : Prop :=
  forall s b, (m s).1 = Ok b -> load price (po_txs (m s).2) + gain unit b <= load price (po_txs s).
(** Programs that leave the transactions alone. *)
Definition still {E A} (m : M (Poll E) A) : Prop := forall s, po_txs (m s).2 = po_txs s.

Record its_prices (price : PendingTx -> Z) (unit : Z) : Prop := {
  ip_unit : 0 <= unit;
  ip_voted tx t : is_phase Routed tx = false -> pays price unit (transition_to HubApproved (stamped VotedSecs t tx)) tx;
  ip_hub tx bf t : pays price unit (transition_to DiscoverSecondLeg (hub_stamped bf t tx)) tx;
  ip_leg tx leg q : pays price unit (discover_second_leg leg q tx) tx;
  ip_routed tx t : pays price unit (transition_to Approved (stamped RoutedSecs t tx)) tx;
  ip_observe tx t status : pays price unit (apply_observation t status tx) tx
}.

Lemma free_prices : its_prices (fun _ => 0) 0.
Proof. split; [done|..]; intros; unfold pays; by destruct (_ : bool * PendingTx) as [[] ?]. Qed.

Section Paid.
Context {E : Type} `{PollEnv E} (price : PendingTx -> Z) (unit : Z).
Hypothesis unit_nonneg : 0 <= unit.
Abbreviation W := (Poll E).

Lemma gain_or a b : gain unit (a || b) <= gain unit a + gain unit b.
Proof. destruct a, b; simpl; lia. Qed.
Lemma paid_ret : paid (E := E) price unit (mret false).
Proof. intros s b [= <-]. simpl. lia. Qed.
Lemma paid_still {A} (m : M W A) (f : A -> M W bool) :
  still m -> (forall a, paid price unit (f a)) -> paid price unit (m ≫= f).
Proof.
  intros Hm Hf s b. unfold mbind, M_bind. specialize (Hm s). destruct (m s) as [[a|e] s']; [|done]. simpl in Hm.
  rewrite <- Hm. apply Hf.
Qed.
Lemma paid_or (m : M W bool) (f : M W bool) :
  paid price unit m -> paid price unit f -> paid price unit (a ← m; b ← f; mret (a || b)).
Proof.
  intros Hm Hf s b. unfold mbind, M_bind. specialize (Hm s). destruct (m s) as [[a|e] s']; [|done].
  specialize (Hf s'). destruct (f s') as [[a'|e] s'']; [|done]. intros [= <-]. simpl in *.
  specialize (Hm a eq_refl). specialize (Hf a' eq_refl). pose proof (gain_or a a'). lia.
Qed.
Lemma paid_any {A} (f : A -> M W bool) l : (forall x, paid price unit (f x)) -> paid price unit (any_progress f l).
Proof. intros Hf. induction l as [|x l IH]; [apply paid_ret|]. by apply paid_or. Qed.
Lemma paid_update i g : (forall tx, pays price unit (g tx) tx) -> paid (E := E) price unit (update_tx i g).
Proof.
  intros Hg s b. unfold update_tx. destruct (po_txs s !! i) as [tx|] eqn:Htx; [|done].
  specialize (Hg tx). destruct (g tx) as [a tx']. intros [= <-]. unfold pays in Hg. simpl in *.
  rewrite (load_insert _ _ _ tx) by done. lia.
Qed.
Lemma still_on_env {A} (m : M E A) : still (on_env m).
Proof. intros s. unfold on_env. by destruct (m (po_env s)). Qed.

Lemma paid_destination `{DestinationVerifier E} source_chain indices :
  (forall tx t status, pays price unit (apply_observation t status tx) tx) ->
  paid price unit (check_destination (E := E) source_chain indices).
Proof.
  intros Hobs. unfold check_destination. destruct indices; [apply paid_ret|].
  apply paid_still; [done|]. intros txs. apply paid_still; [apply still_on_env|]. intros os. apply paid_any. intros o.
  apply paid_still; [done|]. intros t. apply paid_update. intros tx. apply Hobs.
Qed.
End Paid.

(** ** Where the transactions of a run come from *)

(** Requests complete in some order. *)
Class Completion (E : Type) `{PollEnv E} : Prop := {
  unordered_perm {A} (l : list A) (e : E) : (unordered l e).1 ≡ₚ l
}.

(** Each transaction after a run descends by moves from the one at its index
    before it, or from a new one behind the last. *)
Definition evolved (mv : PendingTx -> PendingTx -> Prop) (fresh : PendingTx -> Prop) (txs txs' : list PendingTx)
    : Prop :=
  (length txs <= length txs')%nat /\
  forall i tx', txs' !! i = Some tx' ->
    exists tx, rtc mv tx tx' /\ (txs !! i = Some tx \/ txs !! i = None /\ fresh tx).

Definition grown {E} mv fresh (s s' : Poll E) : Prop := evolved mv fresh (po_txs s) (po_txs s').

#[export] Instance evolved_preorder mv fresh : PreOrder (evolved mv fresh).
Proof.
  split; [intros txs; split; [done|]; intros i tx Htx; exists tx; auto using rtc_refl|].
  intros a b c [Hl1 H1] [Hl2 H2]. split; [lia|]. intros i tx Htx. destruct (H2 i tx Htx) as (tx1 & Hr & [Hb|[Hb Hf]]).
  - destruct (H1 i tx1 Hb) as (tx0 & Hr0 & Ha). exists tx0. split; [by etrans|done].
  - exists tx1. split; [done|]. right. split; [|done]. apply lookup_ge_None in Hb. apply lookup_ge_None. lia.
Qed.

Lemma evolved_insert (mv : PendingTx -> PendingTx -> Prop) fresh txs i tx tx' :
  txs !! i = Some tx -> mv tx tx' -> evolved mv fresh txs (<[i := tx']> txs).
Proof.
  intros Htx Hm. split; [by rewrite length_insert|]. intros j t Ht.
  apply list_lookup_insert_Some in Ht as [(<- & <- & _)|[_ Ht]]; [exists tx|exists t]; auto using rtc_once, rtc_refl.
Qed.

Lemma evolved_app (mv : PendingTx -> PendingTx -> Prop) (fresh : PendingTx -> Prop) txs new :
  Forall fresh new -> evolved mv fresh txs (txs ++ new).
Proof.
  intros Hnew. split; [rewrite length_app; lia|]. intros i tx [Ht|[Hi Ht]]%lookup_app_Some; exists tx; [auto using rtc_refl|].
  split; [apply rtc_refl|]. right. split; [by apply lookup_ge_None|]. by eapply Forall_lookup_1.
Qed.

Definition anything {E : Type} (_ _ : E) : Prop := True.
Definition any_error (_ : error) : Prop := True.

#[export] Instance anything_respects {E} `{PollEnv E} : Respects (E := E) anything.
Proof. by split. Qed.
#[export] Instance grown_preorder {E} mv fresh : PreOrder (grown (E := E) mv fresh).
Proof. unfold grown. split; [intros s; reflexivity|]. intros a b c. apply transitivity. Qed.
Lemma grown_same {E} mv fresh (s s' : Poll E) : po_txs s' = po_txs s -> grown mv fresh s s'.
Proof. unfold grown. by intros ->. Qed.
#[export] Instance grown_steps {E} mv fresh : Steps (E := E) anything mv (grown mv fresh).
Proof.
  split; [apply _|intros s e _; by apply grown_same|intros s t; by apply grown_same|]. intros s i tx tx' Htx Hm. by eapply evolved_insert.
Qed.

Lemma hold_anything {E A} (m : M E A) : hold anything any_error m (fun _ => True).
Proof. intros e. split; [done|]. by destruct (m e).1. Qed.

Section Checks.
Context {E : Type} `{PollEnv E, WebText}.
Variable jittered : Z -> Z.
Variables lcd_override rpc_override : option string.
Context (L : E -> E -> Prop) `{!Respects L} (F : error -> Prop).
Hypothesis F_failed : forall msg, F (Failed msg).
Abbreviation W := (Poll E).

Definition about3 {A B C} (fa : A -> nat) (fb : B -> nat) (fc : C -> nat) (a : list A) (b : list B) (c : list C)
    (r : list (nat * bool) * list (nat * bool) * list (nat * bool)) : Prop :=
  about fa a r.1.1 /\ about fb b r.1.2 /\ about fc c r.2.

Lemma asks_optional {D} (index_of : D -> nat) data contract check :
  (forall address, hold L F (check address) (about index_of data)) ->
  hold L F (optional_check (E := E) index_of data contract check) (about index_of data).
Proof.
  intros Hc. unfold optional_check. destruct data as [|d data].
  - apply hold_ret; [apply _|]. intros i b Hib. by apply elem_of_nil in Hib.
  - destruct contract; [done|]. apply hold_ret; [apply _|apply about_map].
Qed.
Lemma asks_unless {D} (index_of : D -> nat) data check :
  hold L F check (about index_of data) -> hold L F (unless_empty (E := E) data check) (about index_of data).
Proof.
  intros Hc. unfold unless_empty. destruct data as [|d data]; [|done].
  apply hold_ret; [apply _|]. intros i b Hib. by apply elem_of_nil in Hib.
Qed.

(** Three checks run, then their errors in order ([tokio::join!]). *)
Lemma asks_join3 {A B C} (ma : M E A) (mb : M E B) (mc : M E C) (Qa : A -> Prop) (Qb : B -> Prop) (Qc : C -> Prop) :
  hold L F ma Qa -> hold L F mb Qb -> hold L F mc Qc ->
  hold L F (a ← attempt ma; b ← attempt mb; c ← attempt mc;
            a ← lift a; b ← lift b; c ← lift c; mret (a, b, c))
    (fun r => Qa r.1.1 /\ Qb r.1.2 /\ Qc r.2).
Proof.
  intros Ha Hb Hc.
  eapply hold_bind; [apply _|apply hold_attempt, Ha|]. intros a Qa'.
  eapply hold_bind; [apply _|apply hold_attempt, Hb|]. intros b Qb'.
  eapply hold_bind; [apply _|apply hold_attempt, Hc|]. intros c Qc'.
  eapply hold_bind; [apply _|apply hold_lift; [apply _|apply Qa']|]. intros a1 Ha1.
  eapply hold_bind; [apply _|apply hold_lift; [apply _|apply Qb']|]. intros b1 Hb1.
  eapply hold_bind; [apply _|apply hold_lift; [apply _|apply Qc']|]. intros c1 Hc1.
  by apply hold_ret; [apply _|].
Qed.

Lemma asks_cosmos_phase args data :
  hold L F (run_cosmos_phase_checks (E := E) lcd_override args data)
    (about3 (fun d => d.1.1.1) fst fst (cd_voted data) (cd_routed data) (cd_hub_approved data)).
Proof.
  unfold run_cosmos_phase_checks. apply asks_join3; apply asks_optional; intros address;
    first [by apply asks_voting | by apply asks_presence].
Qed.

Lemma asks_phase hub data :
  hold L F (run_phase_checks (E := E) lcd_override hub data)
    (about3 (fun d => d.1.1.1) fst fst (hd_voted data) (hd_hub_approved data) (hd_routed data)).
Proof.
  unfold run_phase_checks. apply asks_join3; [apply asks_optional; intros address|apply asks_unless..];
    first [by apply asks_voting | by apply asks_presence].
Qed.

(** *** GMP *)

Section Gmp.
Context (R : W -> W -> Prop) `{!Steps L gmp_move R} `{DestinationVerifier E}.
Hypothesis dest_holds : forall sc txs ix, hold L F (dest_check sc txs ix) (fun _ => True).

Lemma goes_cosmos results s q :
  q ∈ [Routed; HubApproved; Approved] -> hold R F (apply_cosmos_results (E := E) results s q) (fun _ => True).
Proof.
  intros Hq w. apply (hold_guarded L F F_failed gmp_move R (fun _ => True) (fun t tx => transition_to q (stamped s t tx)));
    [|done]. intros tx t _. split; [done|]. by constructor.
Qed.

Lemma goes_gmp_check args active :
  hold R F (check_pipeline_phases (E := E) lcd_override args active) (fun _ => True).
Proof.
  unfold check_pipeline_phases. hold_step; [by eapply hold_all_txs|].
  hold_step; [eapply (hold_on_env L F gmp_move R), hold_weaken; [apply asks_cosmos_phase|done]|].
  destruct a0 as [[voted routed] hub]. hold_step.
  - unfold apply_phase_check_results. repeat first [hold_step | apply goes_cosmos].
    all: rewrite !elem_of_cons; try destruct (is_some _); auto.
  - hold_step; [|hold_auto]. apply (goes_destination L F F_failed gmp_move R); [intros; constructor|apply dest_holds].
Qed.
End Gmp.

(** *** ITS *)

(** A program run in [s], later than [s0]. *)
Definition from {A} (R : W -> W -> Prop) (s0 s : W) (m : M W A) (Q : A -> W -> Prop) : Prop :=
  R s0 (m s).2 /\ match (m s).1 with Ok a => Q a (m s).2 | Err e => F e end.

Lemma from_bind {A B} R s0 s (m : M W A) (f : A -> M W B) P Q :
  from R s0 s m P -> (forall a s', R s0 s' -> P a s' -> from R s0 s' (f a) Q) -> from R s0 s (m ≫= f) Q.
Proof.
  intros [Hr Hp] Hf. unfold from, mbind, M_bind. destruct (m s) as [[a|e] s'] eqn:Hm; simpl in *; [|done].
  apply (Hf a s' Hr Hp).
Qed.
Lemma from_hold {A} R `{!PreOrder R} s0 s (m : M W A) Q :
  R s0 s -> hold R F m Q -> from R s0 s m (fun a _ => Q a).
Proof. intros Hr Hm. destruct (Hm s). split; [by etrans|done]. Qed.

(** A discovered leg stays. *)
Definition legs_kept (s s' : W) : Prop :=
  forall i tx, po_txs s !! i = Some tx -> p_second_leg tx <> None ->
  exists tx', po_txs s' !! i = Some tx' /\ p_second_leg tx' <> None.

Lemma its_move_leg tx tx' : its_move tx tx' -> p_second_leg tx <> None -> p_second_leg tx' <> None.
Proof.
  intros Hm Hleg. destruct Hm; unfold transition_to, discover_second_leg, apply_observation, fail_tx, fail_with,
    mark_timed_out_tx, time_out, fail_with, succeed, approve_destination, execute_destination, hub_stamped;
    repeat (simpl; case_match); simpl; done.
Qed.

Lemma legs_steps R : Steps L its_move R -> Steps L its_move (fun s s' => R s s' /\ legs_kept s s').
Proof.
  intros HS. split.
  - split; [split; [done|by intros i tx; eauto]|]. intros a b c [H1 K1] [H2 K2]. split; [by etrans|].
    intros i tx Htx Hleg. destruct (K1 i tx Htx Hleg) as (tx1 & Htx1 & Hleg1). by apply (K2 i tx1).
  - intros s e He. split; [by apply steps_env|by intros i tx; eauto].
  - intros s t. split; [apply steps_check|by intros i tx; eauto].
  - intros s i tx tx' Htx Hm. split; [by eapply steps_move|]. intros j tx1 Htx1 Hleg. simpl.
    destruct (decide (i = j)) as [<-|Hne].
    + exists tx'. simplify_eq. split; [apply list_lookup_insert_eq; by eapply lookup_lt_Some|by eapply its_move_leg].
    + exists tx1. by rewrite list_lookup_insert_ne.
Qed.

Lemma for_phase_elem p txs active i :
  i ∈ for_phase p txs active -> exists tx, txs !! i = Some tx /\ p_state tx = Active p.
Proof.
  unfold for_phase, in_phase, is_phase. intros [Hp _]%list_elem_of_filter. destruct (txs !! i) as [tx|] eqn:Htx; [|done].
  apply bool_decide_eq_true in Hp. eauto.
Qed.

Lemma routed_data_legs txs l data d :
  collect_results (routed_data txs) l = Ok data -> d ∈ data ->
  exists tx, txs !! d.1 = Some tx /\ p_second_leg tx <> None.
Proof.
  revert data. induction l as [|i l IH]; intros data; simpl; [intros [= <-] Hd; by apply elem_of_nil in Hd|].
  intros (x & Hx & (rest & Hrest & [= <-])%result_bind_ok)%result_bind_ok [->|Hd]%elem_of_cons; [|by eapply IH].
  unfold routed_data in Hx. destruct (txs !! i) as [tx|] eqn:Htx; [|done].
  apply result_bind_ok in Hx as (leg & Hleg%ok_or_ok & [= <-]). exists tx. split; [done|]. by rewrite Hleg.
Qed.

Lemma collect_failed txs l e : collect_results (routed_data txs) l = Err e -> F e.
Proof.
  revert e. induction l as [|i l IH]; intros e; [done|]. cbn [collect_results]. unfold mbind, result_bind.
  destruct (routed_data txs i) as [d|e'] eqn:Hd.
  - destruct (collect_results _ l) as [?|e'] eqn:Hl; [done|]. intros [= <-]. by apply IH.
  - intros [= <-]. revert Hd. unfold routed_data, required_second_leg, ok_or, bail, mbind, result_bind.
    destruct (txs !! i) as [tx|]; [|by intros [= <-]]. by destruct (p_second_leg tx); intros [= <-].
Qed.

Context `{DestinationVerifier E} (hub : ItsHubVerifier).
Hypothesis dest_holds : forall sc txs ix, hold L F (dest_check sc txs ix) (fun _ => True).
Hypothesis unordered_elem : forall A (l : list A) (e : E) x, x ∈ (unordered l e).1 -> x ∈ l.

Section Legs.
Context (R : W -> W -> Prop) `{!Steps L its_move R}.

Lemma goes_install r :
  match r with Ok _ => True | Err e => F e end -> hold R F (install_leg (E := E) hub r) (fun _ => True).
Proof.
  intros Hr. unfold install_leg. hold_step; [by apply hold_lift; [apply _|]|]. destruct a as [i [info|]]; [|hold_auto].
  hold_step; [apply hold_lift; [apply _|]; destruct (parse_payload_hash _); simpl; auto|].
  apply (hold_update L F F_failed its_move R). intros tx. constructor. unfold leg_target.
  destruct (hub_second_leg_target hub); rewrite !elem_of_cons; auto.
Qed.

Lemma goes_discover indices :
  hold R F (discover_second_legs (E := E) rpc_override hub indices) (fun _ => True).
Proof.
  pose proof unordered_elem as Hun. unfold discover_second_legs. hold_step; [by eapply hold_all_txs|].
  eapply hold_bind; [apply _|apply (hold_on_env L F its_move R), asks_discoveries; done|]. intros results Hres.
  eapply (hold_bind _ _ _ _ (Forall (fun r => match r with Ok _ => True | Err e => F e end))).
  - apply (hold_on_env L F its_move R). intros e. unfold request. specialize (Hun _ results e).
    destruct (unordered results e) as [l e'] eqn:Hl. split.
    + simpl. change e' with (l, e').2. rewrite <- Hl. apply respects_unordered.
    + apply Forall_forall. intros x Hx%list_elem_of_In. rewrite Forall_forall in Hres.
      apply Hres, list_elem_of_In. by apply Hun.
  - intros results' Hres'. apply (hold_any L F its_move R). intros r Hr. apply goes_install.
    rewrite Forall_forall in Hres'. by apply Hres', list_elem_of_In.
Qed.
End Legs.

Context (price : PendingTx -> Z) (unit : Z) (prices : its_prices price unit).

Definition paying (s : W) (b : bool) (s' : W) : Prop := load price (po_txs s') + gain unit b <= load price (po_txs s).

(** One loop of results, from a state where their transactions pass the guard. *)
Lemma guarded_pays (G : PendingTx -> Prop) g results s b :
  (forall tx t, G tx -> G (g t tx).2 /\ its_move tx (g t tx).2) -> all_guarded G results s ->
  (forall tx t, G tx -> pays price unit (g t tx) tx) ->
  (any_progress (guarded (E := E) g) results s).1 = Ok b -> paying s b (any_progress (guarded g) results s).2.
Proof.
  intros Hg HG Hpay. revert s b HG. induction results as [|x results IH]; intros s b HG; cbn [any_progress].
  { apply (paid_ret (E := E) price unit s b). }
  destruct (guarded_step anything any_error (fun _ => I) its_move (grown its_move (fun _ => True)) G g x results s Hg HG)
    as (_ & _ & HG').
  assert (forall a, (guarded g x s).1 = Ok a -> paying s a (guarded g x s).2) as Hx.
  { intros a. destruct x as [i []]; simpl; [|apply (paid_ret (E := E) price unit s a)]. unfold mbind, M_bind, now, update_tx.
    destruct (po_txs s !! i) as [tx|] eqn:Htx; [|done]. specialize (HG i true tx ltac:(by left) Htx).
    specialize (Hpay tx (poll_now (po_env s)) HG). destruct (g _ tx) as [c tx']. intros [= <-].
    unfold paying, pays in *. simpl in *. rewrite (load_insert _ _ _ tx) by done. lia. }
  unfold mbind, M_bind. destruct (guarded g x s) as [[a|e] s']; [|done]. specialize (Hx a eq_refl). simpl in *.
  specialize (IH s'). destruct (any_progress _ results s') as [[a'|e] s'']; [|done]. intros [= <-].
  specialize (IH a' HG' eq_refl). unfold paying in *. simpl in *. pose proof (gain_or unit (ip_unit _ _ prices) a a'). lia.
Qed.

Lemma from_guarded (R' : W -> W -> Prop) `{!Steps L its_move R'} (G : PendingTx -> Prop) g results s0 s :
  (forall tx t, G tx -> G (g t tx).2 /\ its_move tx (g t tx).2) -> all_guarded G results s ->
  (forall tx t, G tx -> pays price unit (g t tx) tx) -> R' s0 s ->
  from R' s0 s (any_progress (guarded g) results) (paying s).
Proof.
  intros Hg HG Hpay Hr. destruct (hold_guarded L F F_failed its_move R' G g results s Hg HG) as [Hr' Hf].
  pose proof (fun b => guarded_pays G g results s b Hg HG Hpay) as Hp. split; [by etrans|].
  destruct (any_progress _ _ s) as [[b|e] s']; [by apply Hp|done].
Qed.

Context (R : W -> W -> Prop) `{!Steps L its_move R}.

Definition R2 (s s' : W) : Prop := R s s' /\ legs_kept s s'.
#[local] Instance R2_steps : Steps L its_move R2.
Proof. by apply legs_steps. Qed.

Lemma transition_leg q s t tx : p_second_leg (transition_to q (stamped s t tx)).2 = p_second_leg tx.
Proof. unfold transition_to. simpl. by repeat case_match. Qed.

Lemma transition_not_routed s t tx :
  is_phase Routed tx = false -> is_phase Routed (transition_to HubApproved (stamped s t tx)).2 = false.
Proof.
  unfold transition_to, is_phase. simpl. intros Hp.
  destruct (p_state tx) as [p| |] eqn:Hs; [destruct (can_transition_to p HubApproved)|..]; simpl; rewrite ?Hs; done.
Qed.

(** What the collected data says about the transactions. *)
Lemma collected_spec active txs data :
  collect_phase_data txs (collect txs active) = Ok data ->
  (forall d, d ∈ hd_voted data -> forall tx, txs !! d.1.1.1 = Some tx -> is_phase Routed tx = false) /\
  (forall d, d ∈ hd_routed data -> exists tx, txs !! d.1 = Some tx /\ p_second_leg tx <> None).
Proof.
  unfold collect_phase_data. intros (routed & Hrouted & [= <-])%result_bind_ok. simpl. split.
  - intros d (i & Hi & Hd)%list_elem_of_omap tx Htx. apply for_phase_elem in Hi as (tx' & Htx' & Hs).
    unfold voting_data in Hd. rewrite Htx' in Hd. simpl in Hd. simplify_eq. simpl in Htx. simplify_eq.
    unfold is_phase. by rewrite Hs.
  - intros d. by apply (routed_data_legs _ _ _ _ Hrouted).
Qed.

Lemma goes_apply_phase active s s1 data results :
  collect_phase_data (po_txs s) (collect (po_txs s) active) = Ok data ->
  about3 (fun d => d.1.1.1) fst fst (hd_voted data) (hd_hub_approved data) (hd_routed data) results ->
  po_txs s1 = po_txs s -> R2 s s1 ->
  from R2 s s1 (apply_phase_results (E := E) hub results) (paying s1).
Proof.
  intros Hdata (Hv & _ & Hr) Htxs Hs1. destruct results as [[voted approved] routed]. simpl in *.
  destruct (collected_spec _ _ _ Hdata) as [Hvoted Hrouted].
  eapply from_bind.
  { apply (from_guarded R2 (fun tx => is_phase Routed tx = false)
      (fun t tx => transition_to HubApproved (stamped VotedSecs t tx))); [..|intros; by apply prices|done].
    - intros tx t Hp. split; [by apply transition_not_routed|by constructor].
    - intros i b tx Hib Htx. rewrite Htxs in Htx. destruct (Hv i b Hib) as (d & Hd & <-). by apply (Hvoted d). }
  intros a s2 Hs2 Pa. eapply from_bind.
  { apply (from_guarded R2 (fun _ => True)
      (fun t tx => transition_to DiscoverSecondLeg (hub_stamped (hub_backfill_voted_timing hub) t tx))); [|done|intros; by apply prices|done].
    intros tx t _. split; [done|by constructor]. }
  intros b s3 Hs3 Pb. eapply from_bind.
  { apply (from_guarded R2 (fun tx => p_second_leg tx <> None)
      (fun t tx => transition_to Approved (stamped RoutedSecs t tx))); [..|intros; by apply prices|done].
    - intros tx t Hp. split; [by rewrite transition_leg|by constructor].
    - intros i d tx Hib Htx. destruct (Hr i d Hib) as (x & Hx & <-). destruct (Hrouted x Hx) as (tx0 & Htx0 & Hleg).
      destruct (proj2 Hs3 _ _ Htx0 Hleg) as (tx' & Htx' & Hleg'). by simplify_eq. }
  intros c s4 Hs4 Pc. split; [done|]. unfold paying in *. simpl.
  pose proof (gain_or unit (ip_unit _ _ prices) (a || b) c). pose proof (gain_or unit (ip_unit _ _ prices) a b). lia.
Qed.

Lemma paid_discover indices : paid (E := E) price unit (discover_second_legs rpc_override hub indices).
Proof.
  unfold discover_second_legs. apply paid_still; [done|]. intros txs. apply paid_still; [apply still_on_env|].
  intros results. apply paid_still; [apply still_on_env|]. intros results'. apply paid_any; [apply prices|]. intros r.
  unfold install_leg. apply paid_still; [done|]. intros [i [info|]]; [|apply paid_ret].
  apply paid_still; [done|]. intros h. apply paid_update. intros tx. apply prices.
Qed.

Lemma goes_hub_check active s :
  from R2 s s (hub_check (E := E) lcd_override rpc_override hub (collect (po_txs s) active)) (paying s).
Proof.
  assert (R2 s s) as Hrefl by reflexivity. unfold hub_check.
  apply (from_bind _ _ _ _ _ (fun txs s' => txs = po_txs s /\ s' = s)); [done|]. intros ?? _ [-> ->].
  destruct (collect_phase_data (po_txs s) _) as [data|e] eqn:Hdata.
  2: { split; [done|]. unfold collect_phase_data, mbind, result_bind in Hdata.
       destruct (collect_results _ _) as [?|e'] eqn:Hc; [done|]. injection Hdata as <-. simpl. by eapply collect_failed. }
  apply (from_bind _ _ _ _ _ (fun d s' => d = data /\ s' = s)); [done|]. intros ?? _ [-> ->].
  apply (from_bind _ _ _ _ _ (fun r s' => po_txs s' = po_txs s /\
    about3 (fun d => d.1.1.1) fst fst (hd_voted data) (hd_hub_approved data) (hd_routed data) r)).
  { destruct (hold_on_env L F its_move R2 _ _ (asks_phase hub data) s) as [Hr Hq]. split; [done|]. unfold on_env in *.
    destruct (run_phase_checks _ _ _ _) as [[r|e] e']; simpl in *; [by split|done]. }
  intros results s1 Hs1 [Htxs Hres]. eapply from_bind; [by eapply goes_apply_phase|]. intros a s2 Hs2 Pa.
  apply (from_bind _ _ _ _ _ (paying s2)).
  { destruct (goes_discover R2 (ix_discover (collect (po_txs s) active)) s2) as [Hr Hq]. split; [by etrans|].
    pose proof (paid_discover (ix_discover (collect (po_txs s) active)) s2) as Hp. unfold paying.
    destruct (discover_second_legs _ _ _ s2) as [[b|e] s3]; [by apply Hp|done]. }
  intros b s3 Hs3 Pb. split; [done|]. unfold paying in *. rewrite Htxs in Pa. simpl.
  pose proof (gain_or unit (ip_unit _ _ prices) a b). lia.
Qed.

End Checks.

Section Polling.
Context {E : Type} `{PollEnv E, WebText, DestinationVerifier E}.
Variable jittered : Z -> Z.
Variables lcd_override rpc_override inactivity_var : option string.
Variable parse_addr : string -> option Address.
Abbreviation W := (Poll E).

(** The loop and the settling, from where the clocks are started. *)
Definition polling normalize network round fuel (receiver has_done : bool) : M W PeakThroughput :=
  poll_loop (E := E) jittered inactivity_var fuel receiver has_done normalize network round;;
  finalize_timed_out_txs jittered network approval_label execution_label;;
  txs ← all_txs;
  mret (compute_peak_throughput txs).

(** The pipelines in these terms. *)
Lemma poll_pipeline_polling fuel receiver has_done args s :
  exists s1, po_txs s1 = po_txs s /\ po_env s1 = po_env s /\
    po_last_progress s1 = poll_now (po_env s) /\ po_last_check s1 = poll_now (po_env s) /\
  let run := poll_pipeline (E := E) jittered lcd_override inactivity_var parse_addr fuel receiver has_done args s in
  (run = (Err (Failed "invalid address"), s1) \/
   exists addr, run = polling (fill_contract_addr addr) (pa_network args) (gmp_round lcd_override args) fuel receiver
                        has_done s1).
Proof.
  exists (mkPoll (po_env s) (po_txs s) (poll_now (po_env s)) (poll_now (po_env s))). do 4 (split; [done|]).
  cbv zeta. unfold poll_pipeline, start_clocks, modify, mbind, M_bind.
  destruct needs_contract_address; [|right; by exists None].
  destruct (parse_addr _) as [a|]; [right; by exists (Some a)|by left].
Qed.

Lemma poll_its_polling fuel receiver has_done hub network s :
  exists s1, po_txs s1 = map (normalize_start hub) (po_txs s) /\ po_env s1 = po_env s /\
    po_last_progress s1 = poll_now (po_env s) /\ po_last_check s1 = poll_now (po_env s) /\
  poll_its_hub (E := E) jittered lcd_override rpc_override inactivity_var fuel receiver has_done hub network s =
  polling (normalize_start hub) network (its_round lcd_override rpc_override hub) fuel receiver has_done s1.
Proof. by eexists (mkPoll (po_env s) (map (normalize_start hub) (po_txs s)) _ _). Qed.
End Polling.

Section Structure.
Context {E : Type} `{PollEnv E, WebText, DestinationVerifier E}.
Variable jittered : Z -> Z.
Variables lcd_override rpc_override inactivity_var : option string.
Variable parse_addr : string -> option Address.
(** What the sender streams. *)
Variables (sent : PendingTxInput -> Prop) (receiver : bool).
Hypothesis sent_received : receiver = true -> forall e : E, Forall sent (received e).1.
Abbreviation W := (Poll E).

(** The loop, whatever the rounds do as long as they move. *)
Lemma grown_loop mv fresh fuel has_done normalize network round :
  (forall i, sent i -> fresh (normalize (new_pending i))) ->
  (forall tx why, mv tx (fail_tx why tx).2) ->
  (forall active, hold (grown mv fresh) any_error (round active) (fun _ => True)) ->
  hold (grown mv fresh) any_error
    (poll_loop (E := E) jittered inactivity_var fuel receiver has_done normalize network round) (fun _ => True).
Proof.
  intros Hfresh Hfail Hround. induction fuel as [|fuel IH]; simpl; [by apply hold_throw; [apply _|]|].
  hold_step.
  { unfold ingest. destruct receiver eqn:Hrec; [|hold_auto].
    apply (hold_bind _ _ _ _ (Forall sent)).
    - apply (hold_on_env anything any_error mv (grown mv fresh)). intros e. unfold request.
      specialize (sent_received eq_refl e). by destruct (received e).
    - intros new Hnew. apply hold_modify; [|done]. intros s. apply evolved_app. apply Forall_map.
      eapply Forall_impl; [|exact Hnew]. apply Hfresh. }
  hold_step; [by intros s|]. hold_step; [by intros s|].
  destruct (next_action _ _) as [action progress]. hold_step; [destruct progress; [|hold_auto]; apply hold_modify; [|done]; intros s; by apply grown_same|].
  assert (hold (grown mv fresh) any_error (sleep (E := E) POLL_INTERVAL) (fun _ => True)) as Hsleep
    by (apply hold_modify; [|done]; intros s; by apply grown_same).
  destruct action as [| |active total complete].
  - hold_auto.
  - hold_step; [done|apply IH].
  - hold_step; [apply (goes_sweep jittered anything any_error (fun _ => I) mv (grown mv fresh)); apply Hfail|].
    hold_step; [apply Hround|]. hold_step; [by intros s|]. destruct a5; [hold_auto|]. hold_step; [done|apply IH].
Qed.

Lemma hold_mark mv fresh (b : bool) :
  hold (grown mv fresh) any_error (if b then mark_progress (E := E) else mret ()) (fun _ => True).
Proof. destruct b; [|hold_auto]. apply hold_modify; [|done]. intros s. by apply grown_same. Qed.

Lemma grown_gmp_round fresh args active :
  hold (grown gmp_move fresh) any_error (gmp_round (E := E) lcd_override args active) (fun _ => True).
Proof.
  unfold gmp_round. hold_step; [|apply hold_mark].
  apply (goes_gmp_check lcd_override anything any_error (fun _ => I) (grown gmp_move fresh)). intros. apply hold_anything.
Qed.

Lemma grown_its_round `{!Completion E} fresh hub active :
  hold (grown its_move fresh) any_error (its_round (E := E) lcd_override rpc_override hub active) (fun _ => True).
Proof.
  intros s. change (from any_error (grown its_move fresh) s s
    (its_round (E := E) lcd_override rpc_override hub active) (fun _ _ => True)). unfold its_round.
  apply (from_bind _ _ _ _ _ _ (fun txs s' => txs = po_txs s /\ s' = s)); [by split; [apply grown_same|]|].
  intros ?? _ [-> ->]. eapply (from_bind _ _ _ _ _ _ (fun _ _ => True)).
  - pose proof (goes_hub_check lcd_override rpc_override anything any_error (fun _ => I) hub
      ltac:(intros A l e x; by rewrite unordered_perm) _ _ free_prices (grown its_move fresh) active s) as [[Hg _] Hq].
    split; [done|]. by destruct (hub_check _ _ _ _ s) as [[]].
  - intros a s' Hs' _. apply (from_hold _ (grown its_move fresh) _ _ _ (fun _ => True)); [done|].
    hold_step; [apply hold_mark|]. hold_step; [|apply hold_mark].
    apply (goes_destination anything any_error (fun _ => I) its_move (grown its_move fresh)); [intros; constructor|].
    intros. apply hold_anything.
Qed.

(** What a run adds behind the transactions it was given. *)
Definition gmp_fresh (tx : PendingTx) : Prop := exists i addr, sent i /\ tx = fill_contract_addr addr (new_pending i).
Definition its_fresh hub (tx : PendingTx) : Prop := exists i, sent i /\ tx = normalize_start hub (new_pending i).

Lemma grown_polling mv fresh normalize network round fuel has_done :
  (forall i, sent i -> fresh (normalize (new_pending i))) ->
  (forall tx why, mv tx (fail_tx why tx).2) ->
  (forall tx t executed a x, mv tx (mark_timed_out_tx t executed a x tx)) ->
  (forall active, hold (grown mv fresh) any_error (round active) (fun _ => True)) ->
  hold (grown mv fresh) any_error (polling jittered inactivity_var normalize network round fuel receiver has_done) (fun _ => True).
Proof.
  intros Hfresh Hfail Hsettle Hround. unfold polling. hold_step; [by apply grown_loop|].
  hold_step; [|hold_step; [by intros s'|hold_auto]].
  by apply (goes_finalize jittered anything any_error (fun _ => I) mv (grown mv fresh)).
Qed.

Lemma gmp_grown fuel has_done args s :
  evolved gmp_move gmp_fresh (po_txs s)
    (po_txs (poll_pipeline (E := E) jittered lcd_override inactivity_var parse_addr fuel receiver has_done args s).2).
Proof.
  destruct (poll_pipeline_polling jittered lcd_override inactivity_var parse_addr fuel receiver has_done args s) as (s1 & Htxs & _ & _ & _ & [->|[addr ->]]).
  - simpl. by rewrite Htxs.
  - rewrite <- Htxs. apply (grown_polling gmp_move gmp_fresh);
      [intros i Hi; by eexists _, _|intros; constructor|intros; constructor|intros; apply grown_gmp_round].
Qed.

Lemma its_grown `{!Completion E} fuel has_done hub network s :
  evolved its_move (its_fresh hub) (map (normalize_start hub) (po_txs s))
    (po_txs (poll_its_hub (E := E) jittered lcd_override rpc_override inactivity_var fuel receiver has_done hub network s).2).
Proof.
  destruct (poll_its_polling jittered lcd_override rpc_override inactivity_var fuel receiver has_done hub network s) as (s1 & <- & _ & _ & _ & ->).
  apply (grown_polling its_move (its_fresh hub));
    [intros i Hi; by eexists|intros; constructor|intros; constructor|intros; apply grown_its_round].
Qed.
End Structure.
