(* ===== verification/LoadVerdicts.v ===== *)
(** * Verdicts and the report of a load test

    The theorems about the verification pipelines: lives, verdicts, second legs,
    the report, and the end of a run. *)

From Stdlib Require Import QArith_base.
From S2P Require Import Prelude Types Retry Journal Chain Intent Json LoadTest LoadNet LoadPipeline LoadFacts.

(** ** Invariants of a transaction *)

(** A transaction as its constructors make it. *)
Definition constructed (tx : PendingTx) : Prop := exists i, tx = new_pending i.

(** A success is recorded in the timing the report counts. *)
Definition accounted (tx : PendingTx) : Prop :=
  forall b, p_state tx = Succeeded b -> executed_ok (p_timing tx) = Some true.

(** Past the discovery, the second leg is known. *)
Definition leg_known (tx : PendingTx) : Prop :=
  match phase tx with Some (Routed | Approved | Executed) => p_second_leg tx <> None | _ => True end.

Ltac tx_ops :=
  unfold transition_to, discover_second_leg, apply_observation, fail_tx, mark_timed_out_tx, time_out, fail_with, succeed,
    approve_destination, execute_destination, hub_stamped, stamped, executed_timing, is_active, is_phase, phase.

Lemma transition_accounted q s t tx : accounted tx -> accounted (transition_to q (stamped s t tx)).2.
Proof.
  intros Hacc b. tx_ops. simpl. destruct (p_state tx) as [p| |] eqn:Hs; [destruct (can_transition_to p q)|..]; simpl;
    rewrite ?Hs; try done. intros [= <-]. destruct s; simpl; by apply (Hacc _ Hs).
Qed.
Lemma observe_accounted t status tx : accounted tx -> accounted (apply_observation t status tx).2.
Proof.
  intros Hacc b. tx_ops. destruct (p_state tx) as [p| |] eqn:Hs; simpl; try (rewrite Hs; intros _; by apply (Hacc _ Hs)).
  destruct status as [|c|c]; simpl; [by rewrite Hs|..]; repeat (case_bool_decide; simpl); simpl; rewrite ?Hs; try done. apply Hacc.
Qed.
Lemma fail_accounted f tx : accounted tx -> accounted (fail_with f tx).2.
Proof. intros Hacc b. tx_ops. destruct (p_state tx) as [p| |] eqn:Hs; simpl; rewrite ?Hs; try done. intros _. by apply (Hacc _ Hs). Qed.
Lemma settle_accounted t executed a x tx : accounted tx -> accounted (mark_timed_out_tx t executed a x tx).
Proof.
  intros Hacc b. tx_ops. destruct executed.
  - destruct (executed_secs _); simpl; destruct (p_state tx) as [p| |] eqn:Hs; simpl; rewrite ?Hs; done.
  - destruct (p_state tx) as [p|r|p f] eqn:Hs; [destruct (decide (p = Executed))|..|destruct (decide (p = Executed))];
      simpl; rewrite ?Hs; try done; simpl; rewrite ?Hs; try done; intros _; by apply (Hacc _ Hs).
Qed.

Lemma gmp_accounted tx tx' : gmp_move tx tx' -> accounted tx -> accounted tx'.
Proof. destruct 1; eauto using transition_accounted, observe_accounted, settle_accounted. apply fail_accounted. Qed.
Lemma hub_accounted bf t tx : accounted tx -> accounted (transition_to DiscoverSecondLeg (hub_stamped bf t tx)).2.
Proof.
  intros Hacc. unfold hub_stamped. apply transition_accounted. by destruct (_ && _).
Qed.
Lemma leg_accounted leg q tx : accounted tx -> accounted (discover_second_leg leg q tx).2.
Proof.
  intros Hacc b. unfold discover_second_leg. destruct (p_state tx) as [p| |] eqn:Hs; simpl; rewrite ?Hs; try done.
  - destruct (_ || _); simpl; by rewrite ?Hs.
  - intros _. by apply (Hacc _ Hs).
Qed.
Lemma its_accounted tx tx' : its_move tx tx' -> accounted tx -> accounted tx'.
Proof.
  destruct 1; eauto using transition_accounted, observe_accounted, settle_accounted, hub_accounted, leg_accounted.
  apply fail_accounted.
Qed.

(** *** The second leg *)

Lemma its_leg_known tx tx' : its_move tx tx' -> leg_known tx -> leg_known tx'.
Proof.
  intros Hm. unfold leg_known. destruct Hm as [t Hr|bf t|leg target Ht|t Hleg|t status|why|t executed a x].
  - revert Hr. tx_ops. simpl. destruct (p_state tx) as [[]| |] eqn:Hs; simpl; rewrite ?Hs; done.
  - tx_ops. destruct (_ && _); simpl; destruct (p_state tx) as [[]| |] eqn:Hs; simpl; rewrite ?Hs; done.
  - tx_ops. destruct (p_state tx) as [[]| |] eqn:Hs; simpl; rewrite ?Hs; try done.
    destruct target; simpl; rewrite ?Hs; done.
  - intros _. tx_ops. simpl. destruct (p_state tx) as [[]| |[] ?] eqn:Hs; simpl; rewrite ?Hs; done.
  - tx_ops. destruct (p_state tx) as [[]| |] eqn:Hs; simpl; rewrite ?Hs; try done;
      destruct status; simpl; repeat (case_bool_decide; simpl); simpl; rewrite ?Hs; try done; simplify_eq.
  - tx_ops. destruct (p_state tx) as [[]| |] eqn:Hs; simpl; rewrite ?Hs; done.
  - tx_ops. destruct executed.
    + destruct (executed_secs _); simpl; destruct (p_state tx) as [[]| |] eqn:Hs; simpl; rewrite ?Hs; done.
    + destruct (p_state tx) as [[]| |[] ?] eqn:Hs; simpl; rewrite ?Hs; simpl; rewrite ?Hs; done.
Qed.

(** An invariant of the moves holds of every transaction after a run, when it
    holds of the given and of the new ones. *)
Lemma evolved_inv (mv : PendingTx -> PendingTx -> Prop) (fresh I : PendingTx -> Prop) txs txs' :
  evolved mv fresh txs txs' -> (forall tx tx', mv tx tx' -> I tx -> I tx') ->
  Forall I txs -> (forall tx, fresh tx -> I tx) -> Forall I txs'.
Proof.
  intros [_ Hev] Hmv Htxs Hfresh. apply Forall_lookup. intros i tx' Htx'.
  destruct (Hev i tx' Htx') as (tx & Hr & Hsrc).
  assert (I tx) as Hi by (destruct Hsrc as [Ht|[_ Hf]]; [by eapply Forall_lookup_1|by apply Hfresh]).
  clear -Hmv Hr Hi. induction Hr; eauto.
Qed.

Lemma evolved_lookup (mv : PendingTx -> PendingTx -> Prop) fresh txs txs' i tx :
  evolved mv fresh txs txs' -> txs !! i = Some tx -> exists tx', txs' !! i = Some tx' /\ rtc mv tx tx'.
Proof.
  intros [Hlen Hev] Htx. pose proof (lookup_lt_Some _ _ _ Htx).
  destruct (lookup_lt_is_Some_2 txs' i) as [tx' Htx']; [lia|]. exists tx'. split; [done|].
  destruct (Hev i tx' Htx') as (tx0 & Hr & [Ht|[Ht _]]); by simplify_eq.
Qed.

(** ** Counting *)

Definition settled (tx : PendingTx) : Prop := is_active tx = false.
Definition succeeded (tx : PendingTx) : bool := match p_state tx with Succeeded _ => true | _ => false end.
Definition count (f : PendingTx -> bool) (txs : list PendingTx) : Z := Z.of_nat (length (List.filter f txs)).

(** The sum of the counters of a map. *)
Definition total `{Countable K} (m : gmap K Z) : Z := foldr Z.add 0 (map_to_list m).*2.

Lemma sum_perm (l k : list Z) : l ≡ₚ k -> foldr Z.add 0 l = foldr Z.add 0 k.
Proof. induction 1; simpl; lia. Qed.

Lemma total_fresh `{Countable K} (k : K) v (m : gmap K Z) : m !! k = None -> total (<[k := v]> m) = v + total m.
Proof.
  intros Hk. unfold total. rewrite (sum_perm _ ((k, v) :: map_to_list m).*2); [done|].
  apply fmap_Permutation. by apply map_to_list_insert.
Qed.

Lemma total_bump `{Countable K} (k : K) (m : gmap K Z) : total (bump_count k m) = total m + 1.
Proof.
  unfold bump_count. destruct (m !! k) as [v|] eqn:Hk; simpl.
  - rewrite <- (insert_delete_id m k v) at 2 by done. rewrite <- insert_delete_eq.
    rewrite !total_fresh by apply lookup_delete_eq. lia.
  - rewrite total_fresh by done. lia.
Qed.

(** One transaction in the tally. *)
Lemma tally_step t tx :
  settled tx -> accounted tx ->
  let t' := tally_tx t tx in
  t_successful t' = t_successful t + (if succeeded tx then 1 else 0) /\
  t_failed t' = t_failed t + (if is_failed tx then 1 else 0) /\
  total (t_reasons t') = total (t_reasons t) + (if is_failed tx then 1 else 0) /\
  t_stuck t' = t_stuck t + (if is_timed_out tx then 1 else 0) /\
  total (t_stuck_at t') = total (t_stuck_at t) + (if is_timed_out tx then 1 else 0) /\
  t_recovered t' = t_recovered t + (if recovered_via_api tx then 1 else 0).
Proof.
  unfold settled, accounted, tally_tx, succeeded, is_failed, failure_reason, is_timed_out, recovered_via_api, is_active.
  intros Hs Hacc. destruct (p_state tx) as [p|r|p f] eqn:Hst; [done|..].
  - rewrite (bool_decide_true _ (Hacc r eq_refl)). simpl. destruct r; repeat split; lia.
  - destruct f; simpl; rewrite ?total_bump; repeat split; lia.
Qed.

Lemma count_cons f tx txs : count f (tx :: txs) = (if f tx then 1 else 0) + count f txs.
Proof. unfold count. simpl. destruct (f tx); simpl length; lia. Qed.

Lemma tally_fold txs t :
  Forall settled txs -> Forall accounted txs ->
  let t' := foldl tally_tx t txs in
  t_successful t' = t_successful t + count succeeded txs /\
  t_failed t' = t_failed t + count is_failed txs /\
  total (t_reasons t') = total (t_reasons t) + count is_failed txs /\
  t_stuck t' = t_stuck t + count is_timed_out txs /\
  total (t_stuck_at t') = total (t_stuck_at t) + count is_timed_out txs /\
  t_recovered t' = t_recovered t + count recovered_via_api txs.
Proof.
  revert t. induction txs as [|tx txs IH]; intros t Hs Hacc; [simpl; unfold count; simpl; repeat split; lia|].
  inversion_clear Hs as [|?? Hs1 Hs2]. inversion_clear Hacc as [|?? Ha1 Ha2]. cbn [foldl]. rewrite !count_cons.
  destruct (tally_step t tx Hs1 Ha1) as (E1 & E2 & E3 & E4 & E5 & E6).
  destruct (IH (tally_tx t tx) Hs2 Ha2) as (F1 & F2 & F3 & F4 & F5 & F6).
  cbv zeta in *. repeat split; lia.
Qed.

Lemma settled_count txs : Forall settled txs -> count succeeded txs + count is_failed txs = Z.of_nat (length txs).
Proof.
  induction 1 as [|tx txs Hs _ IH]; [done|]. rewrite !count_cons. simpl length. unfold settled, is_active in Hs.
  unfold succeeded at 1, is_failed at 1. destruct (p_state tx); simpl; [done|lia..].
Qed.

Lemma count_le f g txs : (forall tx, f tx = true -> g tx = true) -> count f txs <= count g txs.
Proof.
  intros Hfg. induction txs as [|tx txs IH]; [done|]. rewrite !count_cons. specialize (Hfg tx).
  destruct (f tx), (g tx); naive_solver lia.
Qed.

(** The report of a run whose transactions are settled: every one is counted
    once, each failure under its reason, each stuck one under its phase. *)
Definition complete_report (txs : list PendingTx) (r : VerificationReport) : Prop :=
  total_verified r = Z.of_nat (length txs) /\
  successful r = count succeeded txs /\
  failed r = count is_failed txs /\
  total (failure_reasons r) = failed r /\
  stuck r = count is_timed_out txs /\
  total (stuck_at r) = stuck r /\
  stuck r <= failed r /\
  r_recovered_via_api r <= successful r.

Lemma report_complete txs metrics peak :
  Forall settled txs -> Forall accounted txs ->
  complete_report txs (compute_verification_report txs metrics peak).1.
Proof.
  intros Hs Hacc. unfold complete_report, compute_verification_report, tally. cbn -[foldl].
  destruct (tally_fold txs (mkTally 0 0 ∅ 0 ∅ 0) Hs Hacc) as (E1 & E2 & E3 & E4 & E5 & E6).
  cbv zeta in *. cbn [t_successful t_failed t_reasons t_stuck t_stuck_at t_recovered] in *.
  assert (total (K := string * FailureCategoryKind) ∅ = 0) as H0 by done. assert (total (K := string) ∅ = 0) as H1 by done.
  pose proof (settled_count txs Hs).
  assert (count is_timed_out txs <= count is_failed txs)
    by (apply count_le; intros tx; unfold is_timed_out, is_failed; by destruct (p_state tx)).
  assert (count recovered_via_api txs <= count succeeded txs)
    by (apply count_le; intros tx; unfold recovered_via_api, succeeded; by destruct (p_state tx)).
  repeat split; lia.
Qed.

(** ** Settling *)

Section Verdicts.
Context {E : Type} `{PollEnv E, WebText, DestinationVerifier E}.
Variable jittered : Z -> Z.
Variables lcd_override rpc_override inactivity_var : option string.
Variable parse_addr : string -> option Address.
Abbreviation W := (Poll E).

Lemma timeout_ok {A} limit (m : M E A) e : exists r e', timeout limit m e = (Ok r, e').
Proof. unfold timeout. destruct (m e). by eexists _, _. Qed.

Lemma recheck_ok n base id (e : E) : exists b e', recheck jittered n base id e = (Ok b, e').
Proof.
  revert e. induction n as [|n IH]; intros e; [by eexists _, _|]. cbn [recheck]. unfold mbind at 1, M_bind at 1.
  edestruct @timeout_ok as (r & e1 & ->).
  assert (exists b e', (match n with O => mret false
    | S _ => modify (poll_sleep GMP_API_RECHECK_BACKOFF);; recheck jittered n base id end) e1 = (Ok b, e')) as Hnext.
  { destruct n; [by eexists _, _|apply IH]. }
  destruct r as [[[]|]|]; try done. by eexists _, _.
Qed.

Lemma reports_ok network id (e : E) : exists b e', gmp_api_reports_executed jittered network id e = (Ok b, e').
Proof. unfold gmp_api_reports_executed. destruct (base_url network); [apply recheck_ok|by eexists _, _]. Qed.

Lemma mark_settles t executed a x tx : settled (mark_timed_out_tx t executed a x tx).
Proof.
  unfold settled, is_active, mark_timed_out_tx, phase, time_out, fail_with, succeed, is_active.
  destruct executed.
  - destruct (executed_secs _), (p_state tx) as [p|r|p f] eqn:Hs; simpl; rewrite ?Hs; simpl; rewrite ?Hs; done.
  - destruct (p_state tx) as [p|r|p f] eqn:Hs; [destruct (decide (p = Executed))|..|destruct (decide (p = Executed))];
      simpl; rewrite ?Hs; simpl; rewrite ?Hs; done.
Qed.

Lemma finalize_one network a x i (s : W) :
  exists s', finalize_tx jittered network a x i s = (Ok (), s') /\ length (po_txs s') = length (po_txs s) /\
    (forall j, j <> i -> po_txs s' !! j = po_txs s !! j) /\ (forall tx, po_txs s' !! i = Some tx -> settled tx).
Proof.
  unfold finalize_tx, mbind, M_bind, all_txs. destruct (po_txs s !! i) as [tx|] eqn:Htx.
  2: { exists s. repeat split; try done. intros tx Htx'. congruence. }
  destruct (is_active tx) eqn:Hact; simpl.
  2: { exists s. repeat split; try done. intros tx' Htx'. simplify_eq. done. }
  unfold on_env. destruct (reports_ok network (p_message_id tx) (po_env s)) as (b & e' & ->).
  unfold now, update_tx. simpl. rewrite Htx. eexists. split; [done|]. simpl. split; [by rewrite length_insert|].
  split; [intros j Hj; by rewrite list_lookup_insert_ne|]. intros tx' Htx'.
  rewrite list_lookup_insert_eq in Htx' by (by eapply lookup_lt_Some). simplify_eq. apply mark_settles.
Qed.

Lemma finalize_all network a x l (s : W) :
  exists s', for_each (finalize_tx jittered network a x) l s = (Ok (), s') /\ length (po_txs s') = length (po_txs s) /\
    forall i tx, po_txs s' !! i = Some tx -> i ∈ l \/ (exists tx0, po_txs s !! i = Some tx0 /\ settled tx0) -> settled tx.
Proof.
  clear parse_addr.
  revert s. induction l as [|k l IH]; intros s; simpl.
  - exists s. repeat split; [done..|]. intros i tx Htx [Hi|(tx0 & Htx0 & Hs)]; [by apply elem_of_nil in Hi|by simplify_eq].
  - destruct (finalize_one network a x k s) as (s1 & Hs1 & Hlen1 & Hother & Hk). unfold mbind, M_bind. rewrite Hs1.
    destruct (IH s1) as (s2 & -> & Hlen2 & Hset). exists s2. split; [done|]. split; [lia|].
    intros i tx Htx Hi. apply (Hset i tx Htx).
    destruct (decide (i = k)) as [->|Hne].
    + destruct (lookup_lt_is_Some_2 (po_txs s1) k) as [tx1 Htx1]; [apply lookup_lt_Some in Htx; lia|].
      right. exists tx1. split; [done|by apply Hk].
    + rewrite Hother by done. set_solver.
Qed.

Lemma polling_settles normalize network round fuel receiver has_done (s : W) peak s' :
  polling jittered inactivity_var normalize network round fuel receiver has_done s = (Ok peak, s') ->
  Forall settled (po_txs s').
Proof.
  unfold polling, finalize_timed_out_txs, mbind, M_bind, all_txs.
  destruct (poll_loop _ _ _ _ _ _ _ _ s) as [[[]|e] s1]; [|done].
  destruct (finalize_all network approval_label execution_label (seq 0 (length (po_txs s1))) s1) as (s2 & -> & Hlen & Hset).
  intros [= _ <-]. apply Forall_lookup. intros i tx Htx. apply (Hset i tx Htx). left. apply elem_of_seq.
  apply lookup_lt_Some in Htx. lia.
Qed.

Lemma fresh_accounted sent tx : gmp_fresh sent tx -> accounted tx.
Proof. intros (i & [a|] & _ & ->) b; simpl; [destruct (_ =? _)|]; done. Qed.
Lemma constructed_accounted tx : constructed tx -> accounted tx.
Proof. by intros [i ->] b. Qed.
Lemma normalize_accounted hub tx : accounted tx -> accounted (normalize_start hub tx).
Proof.
  intros Hacc b. unfold normalize_start, is_phase. destruct (negb _); simpl; [|apply Hacc].
  case_bool_decide as Hs; [|apply Hacc]. unfold transition_to. rewrite Hs. done.
Qed.

Lemma all_sent (e : E) : Forall (fun _ : PendingTxInput => True) (received e).1.
Proof. by apply Forall_true. Qed.

(** C34: the verdict pipeline of GMP messages is an implementation of the life
    of a transaction.  In every run, whatever the network answers, wherever it
    stops and also when it ends in an error, the state of each given transaction
    is reached by legal advances and at most one verdict, its identity is
    unchanged, and a verdict it already had is the one it has. *)
Theorem gmp_run_lives fuel receiver has_done args (s : W) i tx :
  po_txs s !! i = Some tx ->
  exists tx',
    po_txs (poll_pipeline jittered lcd_override inactivity_var parse_addr fuel receiver has_done args s).2 !! i = Some tx' /\
    rtc life (p_state tx) (p_state tx') /\ same_message tx tx' /\
    (settled tx -> p_state tx' = p_state tx).
Proof.
  intros Htx. destruct (evolved_lookup _ _ _ _ i tx (gmp_grown jittered lcd_override inactivity_var parse_addr (fun _ => True) receiver (fun _ => all_sent)
    fuel has_done args s) Htx) as (tx' & Htx' & Hr).
  assert (lives tx tx') as [Hl Hm] by (clear -Hr; induction Hr; [done|etrans; [by apply gmp_move_lives|done]]).
  exists tx'. repeat (split; [done|]). intros Hs. eapply life_settled; [done|].
  intros p Hp. unfold settled, is_active in Hs. by rewrite Hp in Hs.
Qed.

(** A GMP verification that returns has settled every transaction, the
    given ones and all it received while it ran, and its report counts each of
    them exactly once. *)
Theorem gmp_run_reports fuel receiver has_done args (s : W) peak s' metrics :
  Forall constructed (po_txs s) ->
  poll_pipeline jittered lcd_override inactivity_var parse_addr fuel receiver has_done args s = (Ok peak, s') ->
  Forall settled (po_txs s') /\
  complete_report (po_txs s') (compute_verification_report (po_txs s') metrics peak).1.
Proof.
  intros Hc Hrun. assert (Forall settled (po_txs s')) as Hset.
  { destruct (poll_pipeline_polling jittered lcd_override inactivity_var parse_addr fuel receiver has_done args s)
      as (s1 & _ & _ & _ & _ & [Heq|[addr Heq]]); [congruence|]. rewrite Heq in Hrun. by eapply polling_settles. }
  split; [done|]. apply report_complete; [done|].
  pose proof (gmp_grown jittered lcd_override inactivity_var parse_addr (fun _ => True) receiver (fun _ => all_sent) fuel has_done args s) as Hg.
  rewrite Hrun in Hg. apply (evolved_inv _ _ accounted _ _ Hg); [apply gmp_accounted| |apply fresh_accounted].
  eapply Forall_impl; [apply constructed_accounted|done].
Qed.

(** The same for messages through the ITS hub. *)
Theorem its_run_reports `{!Completion E} fuel receiver has_done hub network (s : W) peak s' metrics :
  Forall constructed (po_txs s) ->
  poll_its_hub jittered lcd_override rpc_override inactivity_var fuel receiver has_done hub network s = (Ok peak, s') ->
  Forall settled (po_txs s') /\
  complete_report (po_txs s') (compute_verification_report (po_txs s') metrics peak).1.
Proof.
  intros Hc Hrun. assert (Forall settled (po_txs s')) as Hset.
  { destruct (poll_its_polling jittered lcd_override rpc_override inactivity_var fuel receiver has_done hub network s)
      as (s1 & _ & _ & _ & _ & Heq). rewrite Heq in Hrun. by eapply polling_settles. }
  split; [done|]. apply report_complete; [done|].
  pose proof (its_grown jittered lcd_override rpc_override inactivity_var (fun _ => True) receiver (fun _ => all_sent) fuel has_done hub network s) as Hg.
  rewrite Hrun in Hg. apply (evolved_inv _ _ accounted _ _ Hg); [apply its_accounted|..].
  - apply Forall_map. eapply Forall_impl; [|done]. intros tx Htx. by apply normalize_accounted, constructed_accounted.
  - intros tx (i & _ & ->). apply normalize_accounted, constructed_accounted. by exists i.
Qed.

(** The phases a hub verification starts a transaction in (pending.rs). *)
Definition before_hub (tx : PendingTx) : Prop :=
  exists i, tx = new_pending i /\ (i_initial_phase i = Voted \/ i_initial_phase i = HubApproved).

Lemma before_hub_leg hub tx : before_hub tx -> leg_known (normalize_start hub tx).
Proof.
  intros (i & -> & Hi). unfold leg_known, normalize_start, transition_to, phase, is_phase. simpl.
  destruct Hi as [Hi|Hi]; rewrite !Hi; destruct (hub_voting_verifier hub); simpl; rewrite ?Hi; simpl; rewrite ?Hi; done.
Qed.

(** C37: the hub pipeline never checks a destination it does not know.  When the
    transactions, given or received, start before the hub approval, then in
    every run, wherever it stops, a transaction that is in the routing, approval
    or execution phase, or failed there, has its second leg; so
    [required_second_leg] cannot fail in these phases. *)
Theorem its_run_legs `{!Completion E} fuel receiver has_done hub network (s : W) :
  Forall before_hub (po_txs s) ->
  (forall e : E, Forall (fun i => i_initial_phase i = Voted \/ i_initial_phase i = HubApproved) (received e).1) ->
  Forall (fun tx => match phase tx with
                    | Some (Routed | Approved | Executed) => exists leg, required_second_leg tx = Ok leg
                    | _ => True
                    end)
    (po_txs (poll_its_hub jittered lcd_override rpc_override inactivity_var fuel receiver has_done hub network s).2).
Proof.
  intros Hb Hsent. apply (Forall_impl _ (P := leg_known)).
  { intros tx. unfold leg_known, required_second_leg. destruct (phase tx) as [[]|]; try done;
      (destruct (p_second_leg tx); [by eexists|done]). }
  pose proof (its_grown jittered lcd_override rpc_override inactivity_var _ receiver (fun _ => Hsent) fuel has_done hub network s) as Hg.
  apply (evolved_inv _ _ leg_known _ _ Hg); [apply its_leg_known|..].
  - apply Forall_map. eapply Forall_impl; [|done]. apply before_hub_leg.
  - intros tx (i & Hi & ->). apply before_hub_leg. by exists i.
Qed.
End Verdicts.
