(* ===== verification/LoadEnds.v ===== *)
(** * A verification ends

    On a clock that does not run backwards, with a sender that streams finitely
    many transactions and is done at some time, both pipelines return: every
    round sleeps five seconds, progress is bounded by the phases that are left,
    and without progress the inactivity budget runs out. *)

From S2P Require Import Prelude Types Retry Journal Chain Intent Json LoadTest LoadNet LoadPipeline LoadFacts LoadVerdicts.

(** ** The environment *)

(** Time passes and no more transactions arrive than were announced. *)
Definition later {E} `{PollEnv E} (arriving : E -> nat) (e e' : E) : Prop :=
  poll_now e <= poll_now e' /\ (arriving e' <= arriving e)%nat.

Class StreamLaws (E : Type) `{PollEnv E} : Type := {
  (** How many transactions the sender still streams, and when it is done. *)
  arriving : E -> nat;
  done_by : Z;
  stream_respects :: Respects (later arriving);
  stream_sleep d e : 0 <= d -> poll_now e + d <= poll_now (poll_sleep d e);
  stream_received e : (length (received e).1 + arriving (received e).2 <= arriving e)%nat;
  stream_done e : done_by <= poll_now e -> send_done e = true
}.

(** ** How much progress is left *)

Definition gmp_rank (p : Phase) : Z :=
  match p with Voted | DiscoverSecondLeg => 4 | Routed => 3 | HubApproved => 2 | Approved => 1 | Executed => 0 end.
Definition its_rank (p : Phase) : Z :=
  match p with
  | Voted => 5 | HubApproved => 4 | DiscoverSecondLeg => 3 | Routed => 2 | Approved => 1 | Executed => 0
  end.
Definition price_of (rank : Phase -> Z) (tx : PendingTx) : Z :=
  match p_state tx with Active p => 1 + rank p | _ => 0 end.

Definition gmp_price := price_of gmp_rank.
Definition its_price := price_of its_rank.

Ltac price_ops :=
  unfold pays, gmp_price, its_price, price_of, transition_to, discover_second_leg, apply_observation, approve_destination,
    execute_destination, hub_stamped, executed_timing, stamped, is_phase, is_active in *.

Lemma pays_observe rank tx t status :
  (forall p, 0 <= rank p) -> rank Executed < rank Approved ->
  pays (price_of rank) 1 (apply_observation t status tx) tx.
Proof.
  intros Hpos Hlt. price_ops. destruct (p_state tx) as [p| |] eqn:Hs; simpl; rewrite ?Hs; try done.
  specialize (Hpos p). destruct status as [|c|c]; simpl; rewrite ?Hs; [lia|..];
    repeat (case_bool_decide; simpl); simpl in *; rewrite ?Hs in *; simplify_eq; lia.
Qed.

Lemma gmp_pays_cosmos tx s t q :
  q ∈ [Routed; HubApproved; Approved] -> pays gmp_price 1 (transition_to q (stamped s t tx)) tx.
Proof.
  intros Hq. price_ops. simpl. destruct (p_state tx) as [p| |] eqn:Hs; simpl; rewrite ?Hs; try done.
  rewrite !elem_of_cons, elem_of_nil in Hq. destruct Hq as [->|[->|[->|[]]]]; destruct p; simpl; rewrite ?Hs; simpl; lia.
Qed.

Lemma gmp_pays_observe tx t status : pays gmp_price 1 (apply_observation t status tx) tx.
Proof. apply pays_observe; [by intros []|done]. Qed.

Lemma its_prices_rank : its_prices its_price 1.
Proof.
  split; [done|..].
  - intros tx t Hr. price_ops. simpl. destruct (p_state tx) as [[]| |] eqn:Hs; simpl; rewrite ?Hs; done.
  - intros tx bf t. price_ops. destruct (_ && _); simpl; destruct (p_state tx) as [[]| |] eqn:Hs; simpl; rewrite ?Hs; done.
  - intros tx leg q. price_ops. destruct (p_state tx) as [[]| |] eqn:Hs; simpl; rewrite ?Hs; try done.
    destruct q; simpl; rewrite ?Hs; done.
  - intros tx t. price_ops. simpl. destruct (p_state tx) as [[]| |] eqn:Hs; simpl; rewrite ?Hs; done.
  - intros tx t status. apply pays_observe; [by intros []|done].
Qed.

(** A verdict costs nothing. *)
Lemma fail_price rank f tx : (forall p, 0 <= rank p) -> price_of rank (fail_with f tx).2 <= price_of rank tx.
Proof.
  intros Hpos. unfold price_of, fail_with. destruct (p_state tx) as [p| |] eqn:Hs; simpl; rewrite ?Hs; try done.
  specialize (Hpos p). lia.
Qed.
Lemma settle_price rank t executed a x tx :
  (forall p, 0 <= rank p) -> price_of rank (mark_timed_out_tx t executed a x tx) <= price_of rank tx.
Proof.
  intros Hpos. unfold price_of at 1. pose proof (mark_settles t executed a x tx) as Hm. unfold settled, is_active in Hm.
  destruct (p_state (mark_timed_out_tx _ _ _ _ _)); [done|..];
    unfold price_of; destruct (p_state tx) as [p| |]; try specialize (Hpos p); lia.
Qed.

Lemma pays_le price p tx : pays price 1 p tx -> price p.2 <= price tx.
Proof. unfold pays. destruct p.1; simpl; lia. Qed.

Lemma gmp_move_price tx tx' : gmp_move tx tx' -> gmp_price tx' <= gmp_price tx.
Proof.
  destruct 1.
  - by apply pays_le, gmp_pays_cosmos.
  - apply pays_le, gmp_pays_observe.
  - apply fail_price. by intros [].
  - apply settle_price. by intros [].
Qed.
Lemma its_move_price tx tx' : its_move tx tx' -> its_price tx' <= its_price tx.
Proof.
  destruct 1; try (apply pays_le; by apply its_prices_rank).
  - apply fail_price. by intros [].
  - apply settle_price. by intros [].
Qed.

(** ** The loop *)

Section Ends.
Context {E : Type} `{PollEnv E, WebText, DestinationVerifier E, !StreamLaws E}.
Variable jittered : Z -> Z.
Variables lcd_override rpc_override inactivity_var : option string.
Variable parse_addr : string -> option Address.
Abbreviation W := (Poll E).

Definition returns (e : error) : Prop := e <> OutOfFuel.
Lemma failed_returns msg : returns (Failed msg).
Proof. done. Qed.

Hypothesis dest_returns : forall sc txs ix, hold (later arriving) returns (dest_check (E := E) sc txs ix) (fun _ => True).

Section Loop.
Context (mv : PendingTx -> PendingTx -> Prop) (price : PendingTx -> Z) (units : Z).
Hypothesis mv_price : forall tx tx', mv tx tx' -> price tx' <= price tx.
Hypothesis price_pos : forall tx, 0 <= price tx.
Hypothesis mv_fail : forall tx why, mv tx (fail_tx why tx).2.
Hypothesis mv_settle : forall tx t executed a x, mv tx (mark_timed_out_tx t executed a x tx).
Hypothesis units_pos : 0 <= units.

(** The progress a run can still make. *)
Definition left (s : W) : Z := load price (po_txs s) + units * Z.of_nat (arriving (po_env s)).

Lemma load_pos txs : 0 <= load price txs.
Proof. induction txs as [|tx txs IH]; simpl; [done|]. specialize (price_pos tx). lia. Qed.
Lemma left_pos s : 0 <= left s.
Proof. unfold left. pose proof (load_pos (po_txs s)). nia. Qed.

(** Steps that mark no progress, and steps that mark what they paid for. *)
Definition quiet (s s' : W) : Prop :=
  later arriving (po_env s) (po_env s') /\ load price (po_txs s') <= load price (po_txs s) /\
  po_last_progress s' = po_last_progress s.
Definition fair (s s' : W) : Prop :=
  poll_now (po_env s) <= poll_now (po_env s') /\ left s' <= left s /\
  (po_last_progress s' = po_last_progress s \/ left s' < left s /\ po_last_progress s' <= poll_now (po_env s')).

#[local] Instance quiet_steps : Steps (later arriving) mv quiet.
Proof.
  split.
  - split; [by repeat split|]. intros a b c ([] & ? & ?) ([] & ? & ?). unfold quiet, later. repeat split; [lia..|congruence].
  - intros s e He. by repeat split; [apply He..|].
  - intros s t. by repeat split.
  - intros s i tx tx' Htx Hm. repeat split; try done. simpl. rewrite (load_insert _ _ _ tx) by done.
    apply mv_price in Hm. lia.
Qed.
#[local] Instance fair_preorder : PreOrder fair.
Proof.
  split; [intros s; repeat split; [lia..|by left]|]. intros a b c (T1 & L1 & P1) (T2 & L2 & P2).
  repeat split; [lia..|]. destruct P1 as [P1|[]], P2 as [P2|[]]; [left; congruence|right; lia..].
Qed.
Lemma quiet_fair s s' : quiet s s' -> fair s s'.
Proof. intros ([Ht Ha] & Hl & Hp). repeat split; [done| |by left]. unfold left. nia. Qed.

Lemma fair_marked s s' (b : bool) :
  quiet s s' -> load price (po_txs s') + gain 1 b <= load price (po_txs s) ->
  fair s ((if b then mark_progress else mret ()) s').2.
Proof.
  intros Hq Hpaid. destruct b; [|by apply quiet_fair]. destruct Hq as ([Ht Ha] & Hl & Hp). simpl in *.
  repeat split; simpl; [done|..]; unfold left in *; simpl; nia.
Qed.
Lemma fair_mark (m : M W bool) s :
  hold quiet returns m (fun _ => True) -> paid price 1 m ->
  let p := (progressed ← m; if (progressed : bool) then mark_progress else mret ()) s in
  fair s p.2 /\ match p.1 with Ok _ => True | Err e => returns e end.
Proof.
  intros Hm Hpaid. destruct (Hm s) as [Hq Hr]. specialize (Hpaid s). unfold mbind, M_bind.
  destruct (m s) as [[b|e] s']; simpl in *; [|split; [by apply quiet_fair|done]].
  split; [by apply fair_marked; [|apply Hpaid]|by destruct b].
Qed.

(** *** The potential *)

Variable budget : Z.
Hypothesis budget_bounds : forall complete, inactivity_budget inactivity_var complete <= budget.
Hypothesis budget_pos : 0 <= budget.

(** Milliseconds until the inactivity budget is over, at least one sleep. *)
Definition patience (s : W) : Z := Z.max 0 (po_last_progress s + budget + POLL_INTERVAL - poll_now (po_env s)).
(** Milliseconds until the sender is done, and one sleep. *)
Definition sending (s : W) : Z := Z.max 0 (done_by + POLL_INTERVAL - poll_now (po_env s)).
Definition potential (s : W) : Z :=
  (budget + 2 * POLL_INTERVAL) * (left s + sending s) + patience s.

Lemma potential_pos s : 0 <= potential s.
Proof. unfold potential, sending, patience. pose proof (left_pos s). unfold POLL_INTERVAL. nia. Qed.

Lemma slept (s : W) : poll_now (po_env s) + POLL_INTERVAL <= poll_now (poll_sleep POLL_INTERVAL (po_env s)).
Proof. by apply stream_sleep. Qed.

Definition napped (s : W) : W := set_env (poll_sleep POLL_INTERVAL (po_env s)) s.

Lemma left_napped s : left (napped s) <= left s.
Proof.
  unfold left, napped. simpl. destruct (respects_sleep (L := later arriving) POLL_INTERVAL (po_env s)) as [_ Ha]. nia.
Qed.

(** A wait for the sender. *)
Lemma waiting_drops s s' :
  poll_now (po_env s) < done_by -> left s' <= left s -> poll_now (po_env s') = poll_now (po_env s) ->
  po_last_progress s' <= poll_now (po_env s') ->
  potential (napped s') <= potential s - POLL_INTERVAL.
Proof.
  intros Hd Hl Ht Hp. pose proof (slept s'). pose proof (left_napped s'). pose proof (left_pos (napped s')).
  unfold potential, sending, patience, napped in *. simpl in *. unfold POLL_INTERVAL in *. nia.
Qed.

(** A round that did not time out. *)
Lemma round_drops s s' :
  fair s s' -> poll_now (po_env s') - po_last_progress s' < budget ->
  potential (napped s') <= potential s - POLL_INTERVAL.
Proof.
  intros (Ht & Hl & Hp) Hb. pose proof (slept s'). pose proof (left_napped s'). pose proof (left_pos (napped s')).
  pose proof (left_pos s). unfold potential, sending, patience, napped in *. simpl in *. unfold POLL_INTERVAL in *.
  destruct Hp as [Hp|[Hp Hn]]; nia.
Qed.

(** *** Rounds *)

Lemma bind_ok {A B} (m : M W A) (f : A -> M W B) s a s' : m s = (Ok a, s') -> (m ≫= f) s = f a s'.
Proof. unfold mbind, M_bind. by intros ->. Qed.
Lemma bind_res {A B} (m : M W A) (f : A -> M W B) s :
  (m ≫= f) s = match m s with (Ok a, s') => f a s' | (Err e, s') => (Err e, s') end.
Proof. done. Qed.

Lemma load_new normalize new :
  (forall i, price (normalize (new_pending i)) <= units) ->
  load price (map (fun i => normalize (new_pending i)) new) <= units * Z.of_nat (length new).
Proof. intros Hn. induction new as [|i new IH]; simpl; [lia|]. specialize (Hn i). lia. Qed.

Lemma potential_mono s s' :
  left s' <= left s -> poll_now (po_env s) <= poll_now (po_env s') -> po_last_progress s' = po_last_progress s ->
  potential s' <= potential s.
Proof. intros Hl Ht Hp. unfold potential, sending, patience. rewrite Hp. unfold POLL_INTERVAL. nia. Qed.

Lemma ingest_ok receiver normalize s :
  (forall i, price (normalize (new_pending i)) <= units) ->
  exists s1, ingest (E := E) receiver normalize s = (Ok (), s1) /\ potential s1 <= potential s /\
    poll_now (po_env s) <= poll_now (po_env s1) /\ po_last_progress s1 = po_last_progress s.
Proof.
  intros Hn. unfold ingest. destruct receiver; [|by eexists; repeat split].
  rewrite bind_res. unfold on_env, request. pose proof (stream_received (po_env s)) as Hr.
  destruct (respects_received (L := later arriving) (po_env s)) as [Ht _].
  destruct (received (po_env s)) as [new e]. simpl in *. eexists. split; [done|]. simpl. split; [|done].
  apply potential_mono; [|done..]. pose proof (load_new normalize new Hn). unfold left. simpl. rewrite load_app. nia.
Qed.

Lemma next_waiting txs complete progress : next_action txs complete = (Waiting, progress) -> complete = false.
Proof. unfold next_action. by repeat case_decide; destruct complete. Qed.

Definition ends_ok {A} (r : result A) : Prop := match r with Ok _ => True | Err e => returns e end.

Lemma loop_ends fuel receiver has_done normalize network round s :
  (forall i, price (normalize (new_pending i)) <= units) ->
  (forall active, hold fair returns (round active) (fun _ => True)) ->
  po_last_progress s <= poll_now (po_env s) -> potential s < POLL_INTERVAL * Z.of_nat fuel ->
  ends_ok (poll_loop (E := E) jittered inactivity_var fuel receiver has_done normalize network round s).1.
Proof.
  intros Hn Hround. revert s. induction fuel as [|fuel IH]; intros s Hlp Hpot.
  { pose proof (potential_pos s). lia. }
  rewrite Nat2Z.inj_succ in Hpot. cbn [poll_loop].
  destruct (ingest_ok receiver normalize s Hn) as (s1 & Hi & Hp1 & Ht1 & Hlp1). rewrite (bind_ok _ _ _ _ _ Hi).
  rewrite bind_res. cbn [sending_complete]. rewrite bind_res. cbn [all_txs].
  set (complete := if has_done then send_done (po_env s1) else true).
  destruct (next_action (po_txs s1) complete) as [action progress] eqn:Ha. rewrite bind_res.
  set (s2 := if progress then mkPoll (po_env s1) (po_txs s1) (poll_now (po_env s1)) (po_last_check s1) else s1).
  replace ((if progress then mark_progress else mret ()) s1) with (Ok (), s2) by (by destruct progress).
  destruct action as [| |active total complete']; [done|..].
  - apply next_waiting in Ha. rewrite bind_res. cbn [sleep modify]. apply IH.
    + pose proof (slept s2) as Hsl. unfold s2 in *. destruct progress; simpl in *; unfold POLL_INTERVAL in *; lia.
    + assert (poll_now (po_env s1) < done_by) as Hd.
      { apply Z.nle_gt. intros Hd%stream_done. unfold complete in Ha. destruct has_done; congruence. }
      enough (potential (napped s2) <= potential s1 - POLL_INTERVAL) by (unfold napped in *; lia).
      apply waiting_drops; [done|..]; unfold s2; destruct progress; unfold left; simpl; lia.
  - assert (progress = false) as ->.
    { revert Ha. unfold next_action. by repeat case_decide; destruct complete; intros [= <-]. }
    assert (fair s1 s1) as Hrefl by reflexivity. simpl in s2. subst s2.
    pose proof (goes_sweep jittered (later arriving) returns failed_returns mv quiet network mv_fail s1) as [Hsw Hsr].
    rewrite bind_res. destruct (sweep _ _ s1) as [[[]|e] s3]; [|done]. apply quiet_fair in Hsw. simpl in Hsw.
    destruct (Hround active s3) as [Hrd Hrr]. rewrite bind_res. destruct (round active s3) as [[[]|e] s4]; [|done].
    simpl in Hrd. assert (fair s1 s4) as Hf by (by etrans). rewrite bind_res. cbn [timed_out].
    destruct (Z.leb_spec (inactivity_budget inactivity_var complete') (poll_now (po_env s4) - po_last_progress s4)); [done|].
    rewrite bind_res. cbn [sleep modify]. fold (napped s4).
    pose proof (round_drops s1 s4 Hf ltac:(pose proof (budget_bounds complete'); lia)).
    apply IH; [|lia]. pose proof (slept s4). destruct Hf as (Ht & _ & [Hl|[_ Hl]]); simpl; unfold POLL_INTERVAL in *; lia.
Qed.

Lemma polling_ends fuel receiver has_done normalize network round s :
  (forall i, price (normalize (new_pending i)) <= units) ->
  (forall active, hold fair returns (round active) (fun _ => True)) ->
  po_last_progress s <= poll_now (po_env s) -> potential s < POLL_INTERVAL * Z.of_nat fuel ->
  ends_ok (polling (E := E) jittered inactivity_var normalize network round fuel receiver has_done s).1.
Proof.
  intros Hn Hround Hlp Hpot. pose proof (loop_ends fuel receiver has_done normalize network round s Hn Hround Hlp Hpot) as Hl.
  unfold polling. rewrite bind_res. destruct (poll_loop _ _ _ _ _ _ _ _ s) as [[[]|e] s1]; [|done].
  rewrite bind_res. unfold finalize_timed_out_txs. rewrite bind_res. cbn [all_txs].
  by edestruct (finalize_all (E := E)) as (s2 & -> & _).
Qed.
(** Such a run returns an error, or it has settled every transaction. *)
Definition verdict (run : result PeakThroughput * W) : Prop :=
  (exists e, run.1 = Err e /\ e <> OutOfFuel) \/ (exists peak, run.1 = Ok peak /\ Forall settled (po_txs run.2)).

Lemma polling_verdict fuel receiver has_done normalize network round s :
  (forall i, price (normalize (new_pending i)) <= units) ->
  (forall active, hold fair returns (round active) (fun _ => True)) ->
  po_last_progress s <= poll_now (po_env s) -> potential s < POLL_INTERVAL * Z.of_nat fuel ->
  verdict (polling (E := E) jittered inactivity_var normalize network round fuel receiver has_done s).
Proof.
  intros Hn Hround Hlp Hpot. pose proof (polling_ends fuel receiver has_done normalize network round s Hn Hround Hlp Hpot) as He.
  unfold verdict. destruct (polling _ _ _ _ _ _ _ _ s) as [[peak|e] s'] eqn:Hrun; [right|left; by exists e].
  exists peak. split; [done|]. by eapply polling_settles.
Qed.
End Loop.

(** ** GMP *)

Lemma paid_cosmos results sl q :
  q ∈ [Routed; HubApproved; Approved] -> paid (E := E) gmp_price 1 (apply_cosmos_results results sl q).
Proof.
  intros Hq. apply paid_any; [done|]. intros [i []]; simpl; [|apply paid_ret].
  apply paid_still; [done|]. intros t. apply paid_update. intros tx. by apply gmp_pays_cosmos.
Qed.

Lemma paid_or3 price (m1 m2 m3 : M W bool) :
  paid price 1 m1 -> paid price 1 m2 -> paid price 1 m3 ->
  paid price 1 (a ← m1; b ← m2; c ← m3; mret (a || b || c)).
Proof.
  intros P1 P2 P3 s b. specialize (P1 s). unfold mbind, M_bind. destruct (m1 s) as [[x|e] s1]; [|done].
  specialize (P2 s1). destruct (m2 s1) as [[y|e] s2]; [|done].
  specialize (P3 s2). destruct (m3 s2) as [[z|e] s3]; [|done]. intros [= <-]. simpl in *.
  specialize (P1 x eq_refl). specialize (P2 y eq_refl). specialize (P3 z eq_refl).
  destruct x, y, z; simpl in *; lia.
Qed.

Lemma paid_gmp_check args active : paid gmp_price 1 (check_pipeline_phases (E := E) lcd_override args active).
Proof.
  unfold check_pipeline_phases. apply paid_still; [done|]. intros txs. apply paid_still; [apply still_on_env|].
  intros [[voted routed] hub]. apply paid_or; [done|..].
  - apply paid_or3; apply paid_cosmos; rewrite !elem_of_cons; try destruct (is_some _); auto.
  - apply paid_destination; [done|]. apply gmp_pays_observe.
Qed.

Lemma price_pos rank tx : (forall p, 0 <= rank p) -> 0 <= price_of rank tx.
Proof. intros Hpos. unfold price_of. destruct (p_state tx) as [p| |]; try specialize (Hpos p); lia. Qed.

Lemma fair_gmp_round units args active :
  0 <= units -> hold (fair gmp_price units) returns (gmp_round (E := E) lcd_override args active) (fun _ => True).
Proof.
  intros Hu s. apply (fair_mark gmp_price units Hu).
  - pose proof (quiet_steps gmp_move gmp_price gmp_move_price).
    apply (goes_gmp_check lcd_override (later arriving) returns failed_returns _ dest_returns).
  - apply paid_gmp_check.
Qed.

Definition gmp_units (s : W) : Z := 5 * Z.of_nat (length (po_txs s) + arriving (po_env s)).

Lemma load_le price units txs : (forall tx, price tx <= units) -> load price txs <= units * Z.of_nat (length txs).
Proof. intros Hp. induction txs as [|tx txs IH]; simpl; [lia|]. specialize (Hp tx). lia. Qed.

(** The rounds that are enough for [units] of progress: each may take the whole
    inactivity budget, and the sender may take its time. *)
Definition enough (budget units now : Z) (fuel : nat) : Prop :=
  (budget + 2 * POLL_INTERVAL) * (units + Z.max 0 (done_by + POLL_INTERVAL - now)) + budget + POLL_INTERVAL
  < POLL_INTERVAL * Z.of_nat fuel.

Lemma enough_potential price units budget u (s : W) fuel :
  left price units s <= u -> po_last_progress s = poll_now (po_env s) ->
  0 <= budget -> enough budget u (poll_now (po_env s)) fuel ->
  potential price units budget s < POLL_INTERVAL * Z.of_nat fuel.
Proof.
  intros Hl Hp Hb. unfold enough, potential, sending, patience. rewrite Hp. unfold POLL_INTERVAL. nia.
Qed.

Lemma rank_bound rank top tx : 0 <= 1 + top -> (forall p, rank p <= top) -> price_of rank tx <= 1 + top.
Proof. intros Ht Hr. unfold price_of. destruct (p_state tx) as [p| |]; try specialize (Hr p); lia. Qed.

(** A GMP verification ends.  When time passes, the destination answers and
    the sender streams finitely many transactions and is done, then a run with
    rounds for the phases that are left returns: with an error, or with every
    transaction settled. *)
Lemma gmp_run_ends budget fuel receiver has_done args (s : W) :
  (forall complete, inactivity_budget inactivity_var complete <= budget) -> 0 <= budget ->
  enough budget (gmp_units s) (poll_now (po_env s)) fuel ->
  verdict (poll_pipeline jittered lcd_override inactivity_var parse_addr fuel receiver has_done args s).
Proof.
  intros Hb Hpos Hfuel. cbv zeta.
  destruct (poll_pipeline_polling jittered lcd_override inactivity_var parse_addr fuel receiver has_done args s)
    as (s1 & Htxs & Henv & Hlp & _ & [->|[addr ->]]); [left; eexists; split; [done|done]|].
  apply (polling_verdict gmp_move gmp_price 5 gmp_move_price (fun tx => price_pos gmp_rank tx ltac:(by intros []))
    gm_fail ltac:(done) budget Hb Hpos).
  - intros i. by apply (rank_bound _ 4); [|intros []].
  - intros active. by apply fair_gmp_round.
  - rewrite Hlp, Henv. lia.
  - apply (enough_potential _ _ _ (5 * Z.of_nat (length (po_txs s) + arriving (po_env s)))); [|by rewrite Hlp, Henv|done|].
    + unfold left. rewrite Htxs, Henv. pose proof (load_le gmp_price 5 (po_txs s)
        ltac:(intros tx; by apply (rank_bound _ 4); [|intros []])). lia.
    + by rewrite Henv.
Qed.

(** ** ITS *)

Lemma fair_its_round `{!Completion E} units hub active :
  0 <= units -> hold (fair its_price units) returns (its_round (E := E) lcd_override rpc_override hub active) (fun _ => True).
Proof.
  intros Hu s. pose proof (quiet_steps its_move its_price its_move_price) as Hst.
  pose proof (fair_preorder its_price units) as Hpre.
  change (from returns (fair its_price units) s s
    (its_round (E := E) lcd_override rpc_override hub active) (fun _ _ => True)). unfold its_round.
  apply (from_bind _ _ _ _ _ _ (fun txs s' => txs = po_txs s /\ s' = s)); [by split|].
  intros ?? _ [-> ->].
  apply (from_bind _ _ _ _ _ _ (fun a s' => quiet its_price s s' /\ load its_price (po_txs s') + gain 1 a <= load its_price (po_txs s))).
  { pose proof (goes_hub_check lcd_override rpc_override (later arriving) returns failed_returns hub
      ltac:(intros A l e x; by rewrite unordered_perm) _ _ its_prices_rank (quiet its_price) active s) as [[Hq _] Hp].
    split; [by apply quiet_fair|]. destruct (hub_check _ _ _ _ s) as [[]]; [by split|done]. }
  intros a s1 _ [Hq Hp]. apply (from_bind _ _ _ _ _ _ (fun _ _ => True)).
  { split; [by eapply fair_marked|by destruct a]. }
  intros _ s2 Hs2 _. apply (from_hold _ (fair its_price units)); [done|]. intros s3. apply (fair_mark its_price units Hu).
  - apply (goes_destination (later arriving) returns failed_returns its_move (quiet its_price)); [intros; constructor|apply dest_returns].
  - apply paid_destination; [done|]. apply its_prices_rank.
Qed.

Definition its_units (s : W) : Z := 6 * Z.of_nat (length (po_txs s) + arriving (po_env s)).

(** A verification through the ITS hub ends, under the same conditions. *)
Lemma its_run_ends `{!Completion E} budget fuel receiver has_done hub network (s : W) :
  (forall complete, inactivity_budget inactivity_var complete <= budget) -> 0 <= budget ->
  enough budget (its_units s) (poll_now (po_env s)) fuel ->
  verdict (poll_its_hub jittered lcd_override rpc_override inactivity_var fuel receiver has_done hub network s).
Proof.
  intros Hb Hpos Hfuel.
  destruct (poll_its_polling jittered lcd_override rpc_override inactivity_var fuel receiver has_done hub network s)
    as (s1 & Htxs & Henv & Hlp & _ & ->).
  assert (forall tx, its_price tx <= 6) as Hle by (intros tx; by apply (rank_bound _ 5); [|intros []]).
  apply (polling_verdict its_move its_price 6 its_move_price (fun tx => price_pos its_rank tx ltac:(by intros []))
    im_fail ltac:(done) budget Hb Hpos).
  - intros i. apply Hle.
  - intros active. by apply fair_its_round.
  - rewrite Hlp, Henv. lia.
  - apply (enough_potential _ _ _ (its_units s)); [|by rewrite Hlp, Henv|done|by rewrite Henv].
    unfold left, its_units. rewrite Htxs, Henv. pose proof (load_le its_price 6 (map (normalize_start hub) (po_txs s)) Hle) as Hl.
    rewrite length_map in Hl. lia.
Qed.
End Ends.
