(* ===== verification/LoadDestinations.v ===== *)
(** * Destinations of a load test (load_test/verification/engine/pipeline/
    destination.rs, checks/solana.rs, and the second-leg verifiers of pipeline.rs)

    The implementations of [DestinationVerifier]: an EVM gateway, amplifier or
    legacy, Solana, Stellar, Sui and XRPL, each for a GMP message and for the
    second leg of an ITS message.  EVM destinations keep a transaction whose
    check failed in flight; they discharge what the pipelines ask of a
    destination to end. *)

From S2P Require Import Prelude Types Retry Journal Chain Intent Json LoadTest LoadNet LoadPipeline LoadFacts LoadVerdicts LoadEnds.

(** The clients of the other chains.  An error is its text. *)
Class ChainViews (E : Type) : Type := {
  (** [getMultipleAccounts] of the incoming-message accounts of commands: the
      data of each account that exists. *)
  get_incoming_messages : Network -> list B256 -> E -> (string + list (option (list Z))) * E;
  (** Stellar views: chain, message, source address, contract, payload hash;
      [None] is an answer that is not a boolean. *)
  stellar_is_message_approved : string -> string -> string -> string -> B256 -> E -> (string + option bool) * E;
  stellar_is_message_executed : string -> string -> E -> (string + option bool) * E;
  (** Sui events: event type, chain, message. *)
  has_message_approved : string -> string -> string -> E -> (string + bool) * E;
  has_message_executed : string -> string -> string -> E -> (string + bool) * E;
  (** XRPL: an inbound payment to the recipient with the message id. *)
  find_inbound_with_message_id : string -> string -> E -> (string + bool) * E
}.

Section Destinations.
Context {E : Type} `{PollEnv E, WebText, ChainViews E, EvmLib}.
Variable jittered : Z -> Z.
Variable parse_addr : string -> option Address.

Definition call {A} (f : E -> (string + A) * E) : M E A := fun e =>
  match f e with (inr a, e) => (Ok a, e) | (inl text, e) => (Err (Failed text), e) end.

Definition required_payload_hash (tx : PendingTx) : result B256 :=
  ok_or (p_payload_hash tx) "tx has no first-leg payload_hash".
Definition required_second_leg_payload_hash (tx : PendingTx) : result B256 :=
  leg ← required_second_leg tx; Ok (leg_payload_hash leg).

(** [txs[index]]. *)
Definition tx_at (txs : list PendingTx) (index : nat) : result PendingTx := ok_or (txs !! index) "index out of bounds".

(** A sequential loop over the indices, to the first error. *)
Fixpoint each_index (f : nat -> M E DestinationStatus) (indices : list nat) : M E (list DestinationObservation) :=
  match indices with
  | [] => mret []
  | index :: rest =>
      status ← f index;
      observations ← each_index f rest;
      mret (mkObservation index status :: observations)
  end.

(** [buffer_unordered]: every request runs; the answers come in the order of
    completion, and those that are errors are dropped. *)
Fixpoint run_all {A B} (f : A -> M E B) (l : list A) : M E (list (result B)) :=
  match l with
  | [] => mret []
  | x :: l => r ← attempt (f x); rest ← run_all f l; mret (r :: rest)
  end.
Definition buffer_unordered {A B} (f : A -> M E B) (l : list A) : M E (list B) :=
  results ← run_all f l;
  results ← request (unordered results);
  mret (omap (fun r => match r with Ok b => Some b | Err _ => None end) results).

(** An error keeps the transaction in flight. *)
Definition or_pending (m : M E DestinationStatus) : M E DestinationStatus :=
  status ← attempt m; mret (match status with Ok status => status | Err _ => Pending end).

(** ** EVM, GMP *)

Inductive EvmDestinationVerifier : Type :=
  | Amplifier (require_observed_approval : bool)
  | Legacy (gateway : Address) (from_block : Z) (match_by_payload : bool).

(** A request is made for a transaction that is in a phase. *)
Definition amplifier_request (txs : list PendingTx) (index : nat) : result (option (nat * PendingTx * Phase * B256)) :=
  tx ← tx_at txs index;
  match phase tx with
  | None => Ok None
  | Some p => payload_hash ← required_payload_hash tx; Ok (Some (index, tx, p, payload_hash))
  end.

Definition amplifier_status (require_observed_approval : bool) (p : Phase) (approved executed : bool) : DestinationStatus :=
  match p with
  | Approved =>
      if executed then ExecutedAt None
      else if approved then ApprovedAt None
      else if negb require_observed_approval then ExecutedAt None else Pending
  | Executed => if negb approved then ExecutedAt None else Pending
  | _ => Pending
  end.

Definition check_evm_amplifier_destination (require_observed_approval : bool) (source_chain : string)
    (txs : list PendingTx) (indices : list nat) : M E (list DestinationObservation) :=
  requests ← lift (collect_results (amplifier_request txs) indices);
  buffer_unordered (fun '(index, tx, p, payload_hash) =>
    approved ← check_evm_is_message_approved jittered source_chain (p_message_id tx) (p_source_address tx)
      (p_contract_addr tx) payload_hash;
    executed ← check_evm_is_message_executed jittered source_chain (p_message_id tx);
    mret (mkObservation index (amplifier_status require_observed_approval p approved executed)))
    (omap id requests).

Definition found_status (found : option ApprovedCall) : M E DestinationStatus :=
  match found with
  | None => mret Pending
  | Some approved =>
      let command_id := ac_command_id approved in
      executed ← check_evm_command_executed jittered command_id;
      mret (if (executed : bool) then ExecutedAt (Some command_id) else ApprovedAt (Some command_id))
  end.

Definition legacy_approval_status (gateway : Address) (tx : PendingTx) (from_block : Z) (match_by_payload : bool)
    : M E DestinationStatus :=
  payload_hash ← lift (required_payload_hash tx);
  found ← (if match_by_payload
           then find_contract_call_approved jittered gateway (p_contract_addr tx) payload_hash None from_block
           else source_tx_hash ← lift (source_tx_hash_from_message_id (p_message_id tx));
                find_contract_call_approved jittered gateway (p_contract_addr tx) payload_hash (Some source_tx_hash)
                  from_block);
  found_status found.

(** The command a transaction in the execution phase was approved with. *)
Definition command_status (tx : PendingTx) : M E DestinationStatus :=
  command_id ← lift (ok_or (p_command_id tx) "legacy tx in Executed phase without a commandId");
  executed ← check_evm_command_executed jittered command_id;
  mret (if (executed : bool) then ExecutedAt (Some command_id) else Pending).

Definition legacy_tx_status (gateway : Address) (tx : PendingTx) (from_block : Z) (match_by_payload : bool)
    : M E DestinationStatus :=
  match phase tx with
  | Some Approved => legacy_approval_status gateway tx from_block match_by_payload
  | Some Executed => command_status tx
  | _ => mret Pending
  end.

Definition check_evm_legacy_destination (gateway : Address) (from_block : Z) (match_by_payload : bool)
    (txs : list PendingTx) (indices : list nat) : M E (list DestinationObservation) :=
  each_index (fun index =>
    tx ← lift (tx_at txs index);
    or_pending (legacy_tx_status gateway tx from_block match_by_payload)) indices.

Definition evm_destination (v : EvmDestinationVerifier) : DestinationVerifier E := {|
  approval_label := match v with Amplifier _ => "EVM approval" | Legacy _ _ _ => "EVM(legacy) approval" end;
  execution_label := match v with Amplifier _ => "EVM execution" | Legacy _ _ _ => "EVM(legacy) execution" end;
  needs_contract_address := true;
  dest_check source_chain txs indices :=
    match v with
    | Amplifier require => check_evm_amplifier_destination require source_chain txs indices
    | Legacy gateway from_block match_by_payload =>
        check_evm_legacy_destination gateway from_block match_by_payload txs indices
    end
|}.

(** ** EVM, ITS *)

Definition its_amplifier_request (txs : list PendingTx) (index : nat) : result (nat * Phase * SecondLeg * B256) :=
  tx ← tx_at txs index;
  p ← ok_or (phase tx) "destination check received an inactive transaction";
  leg ← required_second_leg tx;
  payload_hash ← required_second_leg_payload_hash tx;
  Ok (index, p, leg, payload_hash).

Definition its_amplifier_status (p : Phase) (approved executed : bool) : DestinationStatus :=
  match p with
  | Approved | Executed =>
      if executed then ExecutedAt None
      else if bool_decide (p = Approved) && approved then ApprovedAt None else Pending
  | _ => Pending
  end.

Definition leg_address (leg : SecondLeg) : result Address :=
  ok_or (parse_addr (leg_destination_address leg)) "invalid second-leg EVM destination address".

Definition check_evm_its_amplifier (txs : list PendingTx) (indices : list nat) : M E (list DestinationObservation) :=
  requests ← lift (collect_results (its_amplifier_request txs) indices);
  buffer_unordered (fun '(index, p, leg, payload_hash) =>
    destination_address ← lift (leg_address leg);
    approved ← check_evm_is_message_approved jittered "axelar" (leg_message_id leg) (leg_source_address leg)
      destination_address payload_hash;
    executed ← check_evm_is_message_executed jittered "axelar" (leg_message_id leg);
    mret (mkObservation index (its_amplifier_status p approved executed)))
    requests.

Definition its_legacy_tx_status (gateway : Address) (from_block : Z) (tx : PendingTx) : M E DestinationStatus :=
  leg ← lift (required_second_leg tx);
  destination_address ← lift (leg_address leg);
  match phase tx with
  | Some Approved =>
      payload_hash ← lift (required_second_leg_payload_hash tx);
      found ← find_contract_call_approved jittered gateway destination_address payload_hash None from_block;
      found_status found
  | Some Executed => command_status tx
  | _ => mret Pending
  end.

Definition check_evm_its_legacy (gateway : Address) (from_block : Z) (txs : list PendingTx) (indices : list nat)
    : M E (list DestinationObservation) :=
  each_index (fun index =>
    tx ← lift (tx_at txs index);
    or_pending (its_legacy_tx_status gateway from_block tx)) indices.

Definition evm_its_destination (gateway : Address) (mode : ItsEvmDest) : DestinationVerifier E := {|
  approval_label := match mode with ItsAmplifier => "EVM approval" | ItsLegacy _ => "EVM(legacy) approval" end;
  execution_label := match mode with ItsAmplifier => "EVM execution" | ItsLegacy _ => "EVM(legacy) execution" end;
  needs_contract_address := false;
  dest_check _ txs indices :=
    match mode with
    | ItsAmplifier => check_evm_its_amplifier txs indices
    | ItsLegacy from_block => check_evm_its_legacy gateway from_block txs indices
    end
|}.

(** ** Solana *)

Definition SOLANA_BATCH_SIZE : nat := 100.
Definition INCOMING_MESSAGE_STATUS_OFFSET : nat := 13.

(** The status byte of an account; an account that is too small is an error. *)
Definition account_status (account : option (list Z)) : result (option Z) :=
  match account with
  | None => Ok None
  | Some data =>
      _ ← ensure_ok (negb (Nat.leb (length data) INCOMING_MESSAGE_STATUS_OFFSET)) "IncomingMessage account too small";
      Ok (data !! INCOMING_MESSAGE_STATUS_OFFSET)
  end.

Definition batch_check_solana_incoming_messages (network : Network) (txs : list (nat * B256))
    : M E (list (nat * option Z)) :=
  join_chunks (fun chunk =>
    accounts ← call (get_incoming_messages network (map snd chunk));
    ensure (Nat.eqb (length accounts) (length chunk)) "Solana getMultipleAccounts returned a wrong count";;
    lift (collect_results (fun '(account, d) => status ← account_status account; Ok (d.1, status))
            (zip accounts chunk)))
    (chunks SOLANA_BATCH_SIZE txs).

Definition incoming_status (status : option Z) : DestinationStatus :=
  match status with
  | None => Pending
  | Some s => if s =? 0 then ApprovedAt None else ExecutedAt None
  end.

Definition check_solana (network : Network) (command_of : PendingTx -> result B256) (txs : list PendingTx)
    (indices : list nat) : M E (list DestinationObservation) :=
  data ← lift (collect_results (fun index => tx ← tx_at txs index; c ← command_of tx; Ok (index, c)) indices);
  results ← batch_check_solana_incoming_messages network data;
  mret (map (fun '(index, status) => mkObservation index (incoming_status status)) results).

Definition solana_destination (network : Network) : DestinationVerifier E := {|
  approval_label := "Solana approval";
  execution_label := "Solana execution";
  needs_contract_address := false;
  dest_check _ txs indices :=
    check_solana network
      (fun tx => ok_or (p_command_id tx) "tx missing Solana command_id for destination check") txs indices
|}.

Definition solana_its_destination (network : Network) : DestinationVerifier E := {|
  approval_label := "Solana approval";
  execution_label := "Solana execution";
  needs_contract_address := false;
  dest_check _ txs indices :=
    check_solana network
      (fun tx => leg ← required_second_leg tx; Ok (keccak256 (string_bytes ("axelar-" +:+ leg_message_id leg))))
      txs indices
|}.

(** ** Stellar *)

(** A view that failed keeps the message in flight; an answer that is not a
    boolean is an error. *)
Definition stellar_view_or_retry (r : string + option bool) : result (option bool) :=
  match r with
  | inr (Some value) => Ok (Some value)
  | inr None => bail "Stellar gateway returned non-bool result"
  | inl _ => Ok None
  end.
Definition stellar_view (view : E -> (string + option bool) * E) : M E (option bool) :=
  r ← request view; lift (stellar_view_or_retry r).

Definition stellar_status (source_chain : string) (tx : PendingTx) : M E DestinationStatus :=
  payload_hash ← lift (required_payload_hash tx);
  approved ← stellar_view (stellar_is_message_approved source_chain (p_message_id tx) (p_source_address tx)
    (p_gmp_destination_address tx) payload_hash);
  match phase tx with
  | Some Approved => mret (if bool_decide (approved = Some true) then ApprovedAt None else Pending)
  | Some Executed =>
      executed ← stellar_view (stellar_is_message_executed source_chain (p_message_id tx));
      mret (if bool_decide (executed = Some true) then ExecutedAt None else Pending)
  | _ => mret Pending
  end.

Definition stellar_destination : DestinationVerifier E := {|
  approval_label := "Stellar approval";
  execution_label := "Stellar execution";
  needs_contract_address := false;
  dest_check source_chain txs indices :=
    each_index (fun index => tx ← lift (tx_at txs index); stellar_status source_chain tx) indices
|}.

Definition stellar_its_status (tx : PendingTx) : M E DestinationStatus :=
  leg ← lift (required_second_leg tx);
  match phase tx with
  | Some Approved =>
      payload_hash ← lift (required_second_leg_payload_hash tx);
      approved ← stellar_view (stellar_is_message_approved "axelar" (leg_message_id leg) (leg_source_address leg)
        (leg_destination_address leg) payload_hash);
      mret (if bool_decide (approved = Some true) then ApprovedAt None else Pending)
  | Some Executed =>
      executed ← stellar_view (stellar_is_message_executed "axelar" (leg_message_id leg));
      mret (if bool_decide (executed = Some true) then ExecutedAt None else Pending)
  | _ => mret Pending
  end.

Definition stellar_its_destination : DestinationVerifier E := {|
  approval_label := "Stellar approval";
  execution_label := "Stellar execution";
  needs_contract_address := false;
  dest_check _ txs indices := each_index (fun index => tx ← lift (tx_at txs index); stellar_its_status tx) indices
|}.

(** ** Sui *)

Definition sui_status (gateway_pkg source_chain message_id : string) (tx : PendingTx) : M E DestinationStatus :=
  approved ← call (has_message_approved (gateway_pkg +:+ "::events::MessageApproved") source_chain message_id);
  executed ← call (has_message_executed (gateway_pkg +:+ "::events::MessageExecuted") source_chain message_id);
  mret (if (executed : bool) then ExecutedAt None
        else if is_phase Approved tx && approved then ApprovedAt None else Pending).

Definition sui_destination (gateway_pkg : string) : DestinationVerifier E := {|
  approval_label := "Sui approval";
  execution_label := "Sui execution";
  needs_contract_address := false;
  dest_check source_chain txs indices :=
    each_index (fun index =>
      tx ← lift (tx_at txs index); sui_status gateway_pkg source_chain (p_message_id tx) tx) indices
|}.

Definition sui_its_destination (gateway_pkg : string) : DestinationVerifier E := {|
  approval_label := "Sui approval";
  execution_label := "Sui execution";
  needs_contract_address := false;
  dest_check _ txs indices :=
    each_index (fun index =>
      tx ← lift (tx_at txs index);
      leg ← lift (required_second_leg tx);
      sui_status gateway_pkg "axelar" (leg_message_id leg) tx) indices
|}.

(** ** XRPL *)

Definition xrpl_its_destination (recipient : string) : DestinationVerifier E := {|
  approval_label := "XRPL approval";
  execution_label := "XRPL execution";
  needs_contract_address := false;
  dest_check _ txs indices :=
    each_index (fun index =>
      tx ← lift (tx_at txs index);
      leg ← lift (required_second_leg tx);
      delivered ← call (find_inbound_with_message_id recipient (leg_message_id leg));
      mret (if (delivered : bool) then ExecutedAt None else Pending)) indices
|}.
End Destinations.

(** ** The search for an approval *)

Section Scan.
Context {E : Type} `{PollEnv E} (jittered : Z -> Z).
Context (L : E -> E -> Prop) `{!Respects L}.
Variables (gateway contract : Address) (payload_hash : B256) (source_tx_hash : option B256) (from_block : Z).
Hypothesis block_unsigned : 0 <= from_block.
Abbreviation matching := (log_matches contract source_tx_hash).

(** What the windows answer, and what a search down from a block finds. *)
Variable window : Z -> Z -> list ApprovedLog -> Prop.
Variable found_from : Z -> option ApprovedCall -> Prop.
Hypothesis window_answered : forall a b e logs, (get_approved_logs gateway payload_hash a b e).1 = inr logs -> window a b logs.
Hypothesis found_empty : forall to, to < from_block -> found_from to None.
Hypothesis found_match : forall from to logs log, window from to logs -> from_block <= from -> to < from + LOG_WINDOW_BLOCKS ->
  List.find matching logs = Some log -> found_from to (Some (al_call log)).
Hypothesis found_below : forall from to logs found, window from to logs -> from_block <= from <= to ->
  List.find matching logs = None -> found_from (from - 1) found -> found_from to found.

Lemma scan_finds fuel to :
  to - from_block + 1 <= LOG_WINDOW_BLOCKS * (Z.of_nat fuel - 1) -> (1 <= fuel)%nat ->
  hold L returns (scan_windows jittered fuel gateway contract payload_hash source_tx_hash from_block to) (found_from to).
Proof.
  revert to. induction fuel as [|fuel IH]; intros to Hfuel Hpos; [lia|]. cbn [scan_windows].
  destruct (Z.ltb_spec to from_block) as [Hlt|Hge]; [apply hold_ret; [apply _|by apply found_empty]|].
  set (from := Z.max (saturating_sub to (LOG_WINDOW_BLOCKS - 1)) from_block).
  assert (from_block <= from <= to /\ to < from + LOG_WINDOW_BLOCKS /\ (from <> from_block -> from = to - (LOG_WINDOW_BLOCKS - 1)))
    as (Hr & Hw & Hstep) by (unfold from, saturating_sub, LOG_WINDOW_BLOCKS in *; lia).
  eapply hold_bind; [apply _|..].
  { apply (hold_retry_all jittered L returns failed_returns (window from to));
      [intros e; apply respects_logs|intros e a; apply window_answered]. }
  intros logs Hlogs. destruct (List.find matching logs) as [log|] eqn:Hfind.
  { apply hold_ret; [apply _|]. eapply (found_match from to logs); [done|lia|done|done]. }
  destruct (Z.eqb_spec from from_block) as [Heq|Hne].
  - apply hold_ret; [apply _|]. eapply (found_below from to logs); [done..|]. apply found_empty. lia.
  - specialize (Hstep Hne). clearbody from.
    eapply hold_weaken; [apply IH|intros found; by eapply (found_below from to logs)]; unfold LOG_WINDOW_BLOCKS in *; lia.
Qed.

Lemma search_finds (latest : Z -> Prop) :
  (forall e n, (get_block_number e).1 = inr n -> latest n) ->
  hold L returns (find_contract_call_approved jittered gateway contract payload_hash source_tx_hash from_block)
    (fun found => exists n, latest n /\ found_from n found).
Proof.
  intros Hlatest. unfold find_contract_call_approved. eapply hold_bind; [apply _|..].
  { apply (hold_retry_all jittered L returns failed_returns latest); [intros e; apply respects_block|done]. }
  intros n Hn. eapply hold_weaken; [apply scan_finds; [|lia]|by intros found; exists n].
  destruct (div_ceil_spec (n - from_block + 1) LOG_WINDOW_BLOCKS (div_ceil (n - from_block + 1) LOG_WINDOW_BLOCKS))
    as [[_ Hd] _]; [done|done|]. rewrite Nat2Z.inj_succ. unfold LOG_WINDOW_BLOCKS in *. lia.
Qed.
End Scan.

Section Search.
Context {E : Type} `{PollEnv E} (jittered : Z -> Z).
Variables (gateway contract : Address) (payload_hash : B256) (source_tx_hash : option B256) (from_block latest : Z).
(** The approvals the gateway emitted with this payload hash, with their blocks. *)
Variable emitted : list (Z * ApprovedLog).
Abbreviation matching := (log_matches contract source_tx_hash).

(** The logs of a window, in some order. *)
Definition window_of (a b : Z) (logs : list ApprovedLog) : Prop :=
  forall log, log ∈ logs <-> exists n, (n, log) ∈ emitted /\ a <= n <= b.

(** A match within a window of the newest one, or no match at all. *)
Definition search_result (to : Z) (found : option ApprovedCall) : Prop :=
  match found with
  | None => forall n log, (n, log) ∈ emitted -> from_block <= n <= to -> matching log = false
  | Some c => exists n log, (n, log) ∈ emitted /\ from_block <= n <= to /\ matching log = true /\
      al_call log = c /\
      forall n' log', (n', log') ∈ emitted -> n' <= to -> matching log' = true -> n' < n + LOG_WINDOW_BLOCKS
  end.

Lemma window_none from to logs found :
  window_of from to logs -> from_block <= from <= to ->
  List.find matching logs = None -> search_result (from - 1) found -> search_result to found.
Proof.
  intros Hlogs Hr Hnone.
  assert (forall n log, (n, log) ∈ emitted -> from <= n <= to -> matching log = false) as Hw.
  { intros n log Hin Hn. eapply find_none; [done|]. apply list_elem_of_In, Hlogs. eauto. }
  destruct found as [c|]; simpl.
  - intros (n & log & Hin & Hn & Hm & Hc & Hnew). exists n, log. repeat split; [done|lia|lia|done|done|].
    intros n' log' Hin' Hn' Hm'. destruct (decide (n' <= from - 1)) as [Hle|Hgt]; [by eapply Hnew|].
    rewrite (Hw n' log') in Hm' by (try done; lia). done.
  - intros Hrest n log Hin Hn. destruct (decide (n <= from - 1)); [apply (Hrest n); [done|lia]|].
    apply (Hw n); [done|lia].
Qed.

Lemma window_some from to logs log :
  window_of from to logs -> from_block <= from -> to < from + LOG_WINDOW_BLOCKS ->
  List.find matching logs = Some log -> search_result to (Some (al_call log)).
Proof.
  intros Hlogs Hf Hw Hfind. apply find_some in Hfind as [Hin Hm]. apply list_elem_of_In, Hlogs in Hin as (n & Hin & Hn).
  exists n, log. repeat split; [done|lia|lia|done|]. intros n' log' _ Hn' _. unfold LOG_WINDOW_BLOCKS in *. lia.
Qed.

(** C38: the windowed search of the legacy gateway is a search of all the blocks
    since the verification began.  When the endpoint answers a request for logs
    with those of the window, or fails, the search returns the command of a
    matching approval, not a whole window older than the newest one, and [None]
    only when no approval matches; it always ends, and with an error only when
    requests failed. *)
Theorem approval_search_complete e :
  (forall a b e logs, (get_approved_logs gateway payload_hash a b e).1 = inr logs -> window_of a b logs) ->
  (forall e n, (get_block_number e).1 = inr n -> n = latest) ->
  0 <= from_block ->
  match (find_contract_call_approved jittered gateway contract payload_hash source_tx_hash from_block e).1 with
  | Ok found => search_result latest found
  | Err why => why <> OutOfFuel
  end.
Proof.
  intros Hlogs Hblock Hfrom.
  destruct (search_finds jittered anything gateway contract payload_hash source_tx_hash from_block Hfrom window_of search_result
    Hlogs) with (latest := fun n => n = latest) (s := e) as [_ Hr]; [|exact window_some|exact window_none|done|].
  - intros to Hto n log _ Hn. lia.
  - destruct (find_contract_call_approved _ _ _ _ _ _ e) as [[found|why] e']; simpl in *; [|done].
    by destruct Hr as (n & -> & Hr).
Qed.
End Search.

(** ** Every destination answers *)

(** The requests of the other chains respect a preorder too. *)
Class ViewsRespect {E : Type} `{ChainViews E} (L : E -> E -> Prop) : Prop := {
  views_incoming n cs e : L e (get_incoming_messages n cs e).2;
  views_stellar_approved c id a d h e : L e (stellar_is_message_approved c id a d h e).2;
  views_stellar_executed c id e : L e (stellar_is_message_executed c id e).2;
  views_sui_approved t c id e : L e (has_message_approved t c id e).2;
  views_sui_executed t c id e : L e (has_message_executed t c id e).2;
  views_xrpl r id e : L e (find_inbound_with_message_id r id e).2
}.

Section Answers.
Context {E : Type} `{PollEnv E, WebText, ChainViews E, EvmLib}.
Variable jittered : Z -> Z.
Variable parse_addr : string -> option Address.
Context (L : E -> E -> Prop) `{!Respects L, !ViewsRespect L}.

Abbreviation answers m := (hold L returns m (fun _ => True)).
Abbreviation fails r := (match r with Ok _ => True | Err e => returns e end).

Lemma lift_fails {A} (r : result A) : fails r -> answers (lift r).
Proof. apply hold_lift. apply _. Qed.

Lemma fails_bind {A B} (r : result A) (f : A -> result B) : fails r -> (forall a, fails (f a)) -> fails (r ≫= f).
Proof. intros Hr Hf. destruct r; [apply Hf|done]. Qed.
Lemma fails_ok_or {A} (o : option A) msg : fails (ok_or o msg).
Proof. by destruct o. Qed.
Lemma fails_collect {A B} (f : A -> result B) l : (forall a, fails (f a)) -> fails (collect_results f l).
Proof.
  intros Hf. induction l as [|x l IH]; [done|]. apply fails_bind; [apply Hf|]. intros b. by apply fails_bind.
Qed.
Lemma fails_leg tx : fails (required_second_leg tx).
Proof. apply fails_ok_or. Qed.
Lemma fails_ensure b msg : fails (ensure_ok b msg).
Proof. by destruct b. Qed.
Lemma fails_source_hash id : fails (source_tx_hash_from_message_id id).
Proof.
  unfold source_tx_hash_from_message_id. repeat (apply fails_bind; intros; try apply fails_ok_or; try apply fails_ensure). done.
Qed.

Lemma answers_call {A} (f : E -> (string + A) * E) : (forall e, L e (f e).2) -> answers (call f).
Proof. intros Hf e. specialize (Hf e). unfold call. by destruct (f e) as [[]]. Qed.
Lemma answers_each f indices : (forall i, answers (f i)) -> answers (each_index (E := E) f indices).
Proof. intros Hf. induction indices as [|i indices IH]; simpl; hold_auto. Qed.
Lemma answers_or_pending m : answers m -> answers (or_pending (E := E) m).
Proof. intros Hm. unfold or_pending. hold_step; [eapply hold_weaken; [by apply hold_attempt|done]|hold_auto]. Qed.
Lemma answers_buffer {A B} (f : A -> M E B) l : (forall x, answers (f x)) -> answers (buffer_unordered f l).
Proof.
  intros Hf. unfold buffer_unordered. hold_step.
  - induction l as [|x l IH]; simpl; [hold_auto|].
    hold_step; [eapply hold_weaken; [by apply hold_attempt|done]|]. hold_step; [done|hold_auto].
  - hold_step; [|hold_auto]. apply hold_request. intros e. apply respects_unordered.
Qed.
Lemma answers_retry {A} (f : E -> (string + A) * E) : (forall e, L e (f e).2) -> answers (retry_all_calls jittered f).
Proof. intros Hf. by apply asks_retry_all; [|apply failed_returns|]. Qed.
Lemma answers_search gateway contract h tx from_block :
  0 <= from_block -> answers (find_contract_call_approved jittered gateway contract h tx from_block).
Proof.
  intros Hf. eapply hold_weaken; [by apply (search_finds jittered L gateway contract h tx from_block Hf
    (fun _ _ _ => True) (fun _ _ => True)) with (latest := fun _ => True)|done].
Qed.

Lemma answers_ok_or {A} (o : option A) msg : answers (lift (ok_or o msg)).
Proof. apply lift_fails, fails_ok_or. Qed.
Lemma answers_source_hash id : answers (lift (source_tx_hash_from_message_id id)).
Proof. apply lift_fails, fails_source_hash. Qed.
Lemma answers_tx txs i : answers (lift (tx_at txs i)).
Proof. apply answers_ok_or. Qed.
Lemma answers_leg tx : answers (lift (required_second_leg tx)).
Proof. apply answers_ok_or. Qed.
Lemma answers_leg_hash tx : answers (lift (required_second_leg_payload_hash tx)).
Proof. apply lift_fails. by apply fails_bind; [apply fails_leg|]. Qed.
Lemma answers_hash tx : answers (lift (required_payload_hash tx)).
Proof. apply answers_ok_or. Qed.
Lemma answers_address leg : answers (lift (leg_address parse_addr leg)).
Proof. apply answers_ok_or. Qed.
Lemma answers_view f : (forall e, L e (f e).2) -> answers (stellar_view (E := E) f).
Proof.
  intros Hf. unfold stellar_view. hold_step; [by apply hold_request|].  apply lift_fails.
  by destruct a as [|[]].
Qed.

Local Hint Resolve answers_ok_or answers_source_hash answers_tx answers_leg answers_leg_hash answers_hash
  answers_address answers_view answers_each answers_call answers_retry answers_search
  answers_or_pending : hold.
Local Hint Extern 2 (L _ _) =>
  first [ apply respects_approved | apply respects_executed | apply respects_command | apply views_incoming
        | apply views_stellar_approved | apply views_stellar_executed | apply views_sui_approved
        | apply views_sui_executed | apply views_xrpl ] : hold.

Lemma answers_approved c id a d h : answers (check_evm_is_message_approved jittered c id a d h).
Proof. apply answers_retry. auto with hold. Qed.
Lemma answers_executed c id : answers (check_evm_is_message_executed jittered c id).
Proof. apply answers_retry. auto with hold. Qed.
Lemma answers_command c : answers (check_evm_command_executed jittered c).
Proof. apply answers_retry. auto with hold. Qed.
Local Hint Resolve answers_approved answers_executed answers_command : hold.

Lemma answers_found found : answers (found_status jittered found).
Proof. unfold found_status. hold_auto. Qed.
Lemma answers_command_status tx : answers (command_status jittered tx).
Proof. unfold command_status. hold_auto. Qed.
Local Hint Resolve answers_found answers_command_status : hold.

(** The block a legacy verifier searches from is a [u64]. *)
Definition evm_ok (v : EvmDestinationVerifier) : Prop :=
  match v with Legacy _ from_block _ => 0 <= from_block | Amplifier _ => True end.
Definition its_evm_ok (mode : ItsEvmDest) : Prop :=
  match mode with ItsLegacy from_block => 0 <= from_block | ItsAmplifier => True end.

Lemma answers_legacy gateway tx from_block by_payload :
  0 <= from_block -> answers (legacy_tx_status jittered gateway tx from_block by_payload).
Proof.
  intros Hf. unfold legacy_tx_status, legacy_approval_status. hold_auto.
Qed.
Lemma answers_its_legacy gateway from_block tx :
  0 <= from_block -> answers (its_legacy_tx_status jittered parse_addr gateway from_block tx).
Proof.
  intros Hf. unfold its_legacy_tx_status. hold_auto.
Qed.

Lemma evm_answers v sc txs ix : evm_ok v -> answers (@dest_check E (evm_destination jittered v) sc txs ix).
Proof.
  intros Hv. destruct v as [require|gateway from_block by_payload]; simpl in *.
  - unfold check_evm_amplifier_destination.
    hold_step; [apply lift_fails, fails_collect; intros i|apply answers_buffer; intros [[[i tx] p] h]; hold_auto].
    apply fails_bind; [apply fails_ok_or|]. intros tx. destruct (phase tx); [|done].
    by apply fails_bind; [apply fails_ok_or|].
  - apply answers_each. intros i. hold_step; [auto with hold|]. by apply answers_or_pending, answers_legacy.
Qed.
Lemma evm_its_answers gateway mode sc txs ix :
  its_evm_ok mode -> answers (@dest_check E (evm_its_destination jittered parse_addr gateway mode) sc txs ix).
Proof.
  intros Hm. destruct mode as [|from_block]; simpl in *.
  - unfold check_evm_its_amplifier. hold_step; [apply lift_fails, fails_collect; intros i|].
    + repeat (apply fails_bind; [first [apply fails_ok_or | apply fails_leg | by apply fails_bind; [apply fails_leg|]]|intros]). done.
    + apply answers_buffer. intros [[[i p] leg] h]. hold_auto.
  - apply answers_each. intros i. hold_step; [auto with hold|]. by apply answers_or_pending, answers_its_legacy.
Qed.

Lemma answers_join {A B} (f : list A -> M E (list B)) cs : (forall c, answers (f c)) -> answers (join_chunks f cs).
Proof. intros Hf. induction cs as [|c cs IH]; simpl; [hold_auto|]. hold_step; [done|]. hold_step; [done|hold_auto]. Qed.
Lemma answers_solana network command_of txs ix :
  (forall tx, fails (command_of tx)) -> answers (check_solana (E := E) network command_of txs ix).
Proof.
  intros Hc. unfold check_solana. hold_step.
  { apply lift_fails, fails_collect. intros i. apply fails_bind; [apply fails_ok_or|]. intros tx.
    by apply fails_bind; [apply Hc|]. }
  hold_step; [|hold_auto]. apply answers_join. intros c. hold_step; [auto with hold|].
  hold_step; [apply lift_fails, fails_ensure|]. apply lift_fails, fails_collect. intros [account d].
  apply fails_bind; [|done]. unfold account_status. destruct account; [|done]. by apply fails_bind; [apply fails_ensure|].
Qed.
Lemma solana_answers network sc txs ix : answers (@dest_check E (solana_destination network) sc txs ix).
Proof. apply answers_solana. intros tx. apply fails_ok_or. Qed.
Lemma solana_its_answers network sc txs ix : answers (@dest_check E (solana_its_destination network) sc txs ix).
Proof. apply answers_solana. intros tx. by apply fails_bind; [apply fails_leg|]. Qed.
Lemma stellar_answers sc txs ix : answers (@dest_check E stellar_destination sc txs ix).
Proof.
  apply answers_each. intros i. unfold stellar_status. hold_auto.
Qed.
Lemma stellar_its_answers sc txs ix : answers (@dest_check E stellar_its_destination sc txs ix).
Proof.
  apply answers_each. intros i. unfold stellar_its_status. hold_auto.
Qed.
Lemma answers_sui pkg sc id tx : answers (sui_status (E := E) pkg sc id tx).
Proof. unfold sui_status. hold_auto. Qed.
Lemma sui_answers pkg sc txs ix : answers (@dest_check E (sui_destination pkg) sc txs ix).
Proof. apply answers_each. intros i. hold_step; [auto with hold|apply answers_sui]. Qed.
Lemma sui_its_answers pkg sc txs ix : answers (@dest_check E (sui_its_destination pkg) sc txs ix).
Proof. apply answers_each. intros i. do 2 (hold_step; [auto with hold|]). apply answers_sui. Qed.
Lemma xrpl_its_answers recipient sc txs ix : answers (@dest_check E (xrpl_its_destination recipient) sc txs ix).
Proof. apply answers_each. intros i. hold_auto. Qed.
End Answers.

(** ** Verifications end *)

Section Runs.
Context {E : Type} `{PollEnv E, WebText, ChainViews E, EvmLib, !StreamLaws E, !ViewsRespect (E := E) (later arriving)}.
Variable jittered : Z -> Z.
Variables lcd_override rpc_override inactivity_var : option string.
Variable parse_addr : string -> option Address.

(** The destinations of a GMP message. *)
Inductive GmpDestination : Type :=
  | GmpEvm (v : EvmDestinationVerifier)
  | GmpSolana (network : Network)
  | GmpStellar
  | GmpSui (gateway_pkg : string).
Definition gmp_destination (d : GmpDestination) : DestinationVerifier E :=
  match d with
  | GmpEvm v => evm_destination jittered v
  | GmpSolana network => solana_destination network
  | GmpStellar => stellar_destination
  | GmpSui pkg => sui_destination pkg
  end.
Definition gmp_destination_ok (d : GmpDestination) : Prop := match d with GmpEvm v => evm_ok v | _ => True end.

(** The destinations of an ITS message. *)
Inductive ItsDestination : Type :=
  | ItsEvm (gateway : Address) (mode : ItsEvmDest)
  | ItsSolana (network : Network)
  | ItsStellar
  | ItsSui (gateway_pkg : string)
  | ItsXrpl (recipient : string).
Definition its_destination (d : ItsDestination) : DestinationVerifier E :=
  match d with
  | ItsEvm gateway mode => evm_its_destination jittered parse_addr gateway mode
  | ItsSolana network => solana_its_destination network
  | ItsStellar => stellar_its_destination
  | ItsSui pkg => sui_its_destination pkg
  | ItsXrpl recipient => xrpl_its_destination recipient
  end.
Definition its_destination_ok (d : ItsDestination) : Prop := match d with ItsEvm _ mode => its_evm_ok mode | _ => True end.

Lemma gmp_answers d sc txs ix :
  gmp_destination_ok d -> hold (later arriving) returns (@dest_check E (gmp_destination d) sc txs ix) (fun _ => True).
Proof.
  destruct d; intros Hd; [by apply (evm_answers jittered (later arriving) v)|apply solana_answers|apply stellar_answers|apply sui_answers]; apply _.
Qed.
Lemma its_answers d sc txs ix :
  its_destination_ok d -> hold (later arriving) returns (@dest_check E (its_destination d) sc txs ix) (fun _ => True).
Proof.
  destruct d; intros Hd; [by apply (evm_its_answers jittered parse_addr (later arriving) gateway mode)|apply solana_its_answers|apply stellar_its_answers
                         |apply sui_its_answers|apply xrpl_its_answers]; apply _.
Qed.

(** C36: a GMP verification ends, for every destination chain.  When time passes
    and the sender streams finitely many transactions and is done by some time,
    a run with rounds for the phases that are left returns, whatever the network
    answers: with an error, or with every transaction settled. *)
Theorem gmp_verification_ends d budget fuel receiver has_done args (s : Poll E) :
  gmp_destination_ok d ->
  (forall complete, inactivity_budget inactivity_var complete <= budget) -> 0 <= budget ->
  enough budget (gmp_units s) (poll_now (po_env s)) fuel ->
  verdict (@poll_pipeline E _ jittered lcd_override _ inactivity_var parse_addr (gmp_destination d)
             fuel receiver has_done args s).
Proof. intros Hd Hb Hpos Hfuel. apply (@gmp_run_ends E _ _ (gmp_destination d) _) with (budget := budget); auto using gmp_answers. Qed.

(** A verification through the ITS hub ends, for every destination chain,
    under the same conditions. *)
Theorem its_verification_ends `{!Completion E} d budget fuel receiver has_done hub network (s : Poll E) :
  its_destination_ok d ->
  (forall complete, inactivity_budget inactivity_var complete <= budget) -> 0 <= budget ->
  enough budget (its_units s) (poll_now (po_env s)) fuel ->
  verdict (@poll_its_hub E _ jittered lcd_override rpc_override _ inactivity_var (its_destination d)
             fuel receiver has_done hub network s).
Proof.
  intros Hd Hb Hpos Hfuel.
  apply (@its_run_ends E _ _ (its_destination d) _) with (budget := budget); auto using its_answers.
Qed.
End Runs.

(** ** What an amplifier destination concludes *)

Section Conclusions.
Context {E : Type} `{PollEnv E, WebText, !Completion E} (jittered : Z -> Z).

(** A request that is answered is not repeated. *)
Lemma retry_answered {A} (f : E -> (string + A) * E) a (e : E) :
  (forall e, (f e).1 = inr a) -> exists e', retry_all_calls jittered f e = (Ok a, e').
Proof.
  intros Hf. exists (f e).2. unfold retry_all_calls, retry_all, retry_async. cbn [retry_loop].
  specialize (Hf e). destruct (f e) as [r e']. simpl in Hf. by subst r.
Qed.

Lemma unordered_one {A} (x : A) (e : E) : exists e', unordered [x] e = ([x], e').
Proof.
  pose proof (unordered_perm [x] e) as Hp. destruct (unordered [x] e) as [l e'].
  apply symmetry, Permutation_singleton_l in Hp. simpl in Hp. subst l. by exists e'.
Qed.

Lemma buffer_one {A B} (f : A -> M E B) x b e e1 :
  f x e = (Ok b, e1) -> exists e', buffer_unordered f [x] e = (Ok [b], e').
Proof.
  intros Hf. destruct (unordered_one (Ok b) e1) as [e' He']. exists e'.
  unfold buffer_unordered. cbn [run_all]. unfold mbind, M_bind, attempt. rewrite Hf. simpl. unfold request. by rewrite He'.
Qed.

(** One check of one transaction that the gateway has neither approved nor
    executed. *)
Lemma amplifier_unapproved require sc (txs : list PendingTx) i tx h (e : E) :
  txs !! i = Some tx -> p_state tx = Active Approved -> p_payload_hash tx = Some h ->
  (forall e, (is_message_approved sc (p_message_id tx) (p_source_address tx) (p_contract_addr tx) h e).1 = inr false) ->
  (forall e, (is_message_executed sc (p_message_id tx) e).1 = inr false) ->
  exists e', check_evm_amplifier_destination jittered require sc txs [i] e =
    (Ok [mkObservation i (if require then Pending else ExecutedAt None)], e').
Proof.
  intros Htx Hs Hh Ha Hx. unfold check_evm_amplifier_destination.
  assert (collect_results (amplifier_request txs) [i] = Ok [Some (i, tx, Approved, h)]) as Hreq.
  { unfold collect_results, amplifier_request, tx_at, required_payload_hash, phase. by rewrite Htx; simpl; rewrite Hs, Hh. }
  rewrite Hreq. destruct (retry_answered _ _ e Ha) as [e1 He1]. destruct (retry_answered _ _ e1 Hx) as [e2 He2].
  apply (buffer_one _ _ _ e e2). unfold mbind, M_bind, check_evm_is_message_approved, check_evm_is_message_executed.
  rewrite He1, He2. by destruct require.
Qed.

(** C39: what an amplifier destination concludes from a gateway that has not
    approved the message and has not executed it.  A verifier that requires an
    observed approval waits.  One that does not, as [verify_onchain] and its
    streaming variant build it, takes the message for executed: the transaction
    succeeds and the report counts it, although the gateway never approved it. *)
Theorem unapproved_conclusion require sc (s : Poll E) i tx h :
  po_txs s !! i = Some tx -> p_state tx = Active Approved -> p_payload_hash tx = Some h ->
  (forall e, (is_message_approved sc (p_message_id tx) (p_source_address tx) (p_contract_addr tx) h e).1 = inr false) ->
  (forall e, (is_message_executed sc (p_message_id tx) e).1 = inr false) ->
  exists tx',
    po_txs (@check_destination E _ (evm_destination jittered (Amplifier require)) sc [i] s).2 !! i = Some tx' /\
    p_state tx' = (if require then Active Approved else Succeeded false) /\
    (require = false -> t_successful (tally [tx']) = 1 /\ t_failed (tally [tx']) = 0).
Proof.
  intros Htx Hs Hh Ha Hx. unfold check_destination, mbind, M_bind, all_txs, on_env.
  destruct (amplifier_unapproved require sc (po_txs s) i tx h (po_env s)) as [e' He']; [done..|].
  cbn [dest_check evm_destination]. rewrite He'. cbn [apply_destination_observations any_progress].
  unfold mbind, M_bind, now, update_tx. simpl. rewrite Htx. unfold apply_observation, is_active. rewrite Hs. simpl.
  destruct require; simpl.
  - exists tx. rewrite list_lookup_insert_eq by (by eapply lookup_lt_Some). by rewrite Hs.
  - unfold execute_destination, is_phase. simpl. rewrite Hs. simpl.
    rewrite list_lookup_insert_eq by (by eapply lookup_lt_Some). eexists. by repeat split.
Qed.

Lemma hold_buffer {A B} (f : A -> M E B) l (Q : B -> Prop) :
  (forall x, x ∈ l -> hold anything any_error (f x) Q) ->
  hold anything any_error (buffer_unordered f l) (Forall Q).
Proof.
  intros Hf. unfold buffer_unordered. apply (hold_bind _ _ _ _ (Forall (fun r => match r with Ok b => Q b | Err _ => True end))).
  - induction l as [|x l IH]; simpl; [by apply hold_ret; [apply _|constructor]|].
    eapply hold_bind; [apply _|apply hold_attempt, Hf; by left|]. intros r Hr.
    eapply hold_bind; [apply _|apply IH; intros y Hy; apply Hf; by right|]. intros rest Hrest.
    apply hold_ret; [apply _|]. constructor; [by destruct r|done].
  - intros rs Hrs e. unfold mbind, M_bind, request. pose proof (unordered_perm rs e) as Hp.
    destruct (unordered rs e) as [rs' e']. simpl in *. split; [done|]. rewrite <- Hp in Hrs.
    apply Forall_forall. intros b Hb%list_elem_of_In. apply list_elem_of_omap in Hb as (r & Hr%list_elem_of_In & Hb).
    rewrite Forall_forall in Hrs. specialize (Hrs r Hr). by destruct r; simplify_eq.
Qed.

Lemma collected_elem {A B} (f : A -> result B) l bs b :
  collect_results f l = Ok bs -> b ∈ bs -> exists a, a ∈ l /\ f a = Ok b.
Proof.
  revert bs. induction l as [|x l IH]; intros bs; cbn [collect_results]; [intros [= <-] Hb; by apply elem_of_nil in Hb|].
  intros (y & Hy & Hrest)%result_bind_ok Hb. apply result_bind_ok in Hrest as (ys & Hys & [= <-]).
  apply elem_of_cons in Hb as [->|Hb]; [exists x; split; [by left|done]|].
  destruct (IH ys Hys Hb) as (a & Ha & Hfa). exists a. split; [by right|done].
Qed.

(** The answer of a repeated request is the answer of one request. *)
Lemma retry_word {A} (f : E -> (string + A) * E) :
  hold anything any_error (retry_all_calls jittered f) (fun a => exists e, (f e).1 = inr a).
Proof. apply hold_retry_all; [apply _|done|done|by eauto]. Qed.

(** A message is executed on the word of the gateway. *)
Definition execution_reported (sc : string) (tx : PendingTx) : Prop :=
  phase tx = Some Approved /\ (exists e : E, (is_message_executed sc (p_message_id tx) e).1 = inr true) \/
  phase tx = Some Executed /\
    exists h (e : E), (is_message_approved sc (p_message_id tx) (p_source_address tx) (p_contract_addr tx) h e).1 = inr false.

Lemma amplifier_observes sc txs indices :
  hold anything any_error (check_evm_amplifier_destination jittered true sc txs indices)
    (Forall (fun o => forall c, o_status o = ExecutedAt c ->
       exists tx, txs !! o_index o = Some tx /\ execution_reported sc tx)).
Proof.
  unfold check_evm_amplifier_destination.
  apply (hold_bind _ _ _ _ (fun requests => collect_results (amplifier_request txs) indices = Ok requests)).
  { apply hold_lift; [apply _|]. by destruct (collect_results _ _). }
  intros requests Hreq. apply hold_buffer. intros [[[j tx] p] h] Hj. apply list_elem_of_omap in Hj as (o & Ho & [= ->]).
  destruct (collected_elem _ _ _ _ Hreq Ho) as (k & _ & Hk). apply result_bind_ok in Hk as (tx1 & Htx1 & Hk).
  unfold tx_at in Htx1. destruct (txs !! k) as [tx2|] eqn:Htx2; [|done]. injection Htx1 as <-.
  destruct (phase tx2) as [p2|] eqn:Hp; [|done]. apply result_bind_ok in Hk as (h2 & Hh2 & [= -> -> -> ->]).
  eapply hold_bind; [apply _|apply retry_word|].
  intros approved Happroved.
  eapply hold_bind; [apply _|apply retry_word|].
  intros executed Hexecuted. apply hold_ret; [apply _|]. intros c Hst. exists tx. split; [done|]. simpl in Hst.
  unfold execution_reported. destruct p, executed, approved; try done; eauto.
Qed.

(** A verifier that requires an observed approval takes a message for
    executed only on the word of the gateway: it reported the message executed,
    or, for a message whose approval was observed before, it reported the
    approval gone. *)
Theorem execution_observed sc txs indices e obs i c :
  (check_evm_amplifier_destination jittered true sc txs indices e).1 = Ok obs -> mkObservation i (ExecutedAt c) ∈ obs ->
  exists tx, txs !! i = Some tx /\ execution_reported sc tx.
Proof.
  intros Hrun Hin%list_elem_of_In. destruct (amplifier_observes sc txs indices e) as [_ Hb]. rewrite Hrun in Hb.
  rewrite Forall_forall in Hb. by apply (Hb _ Hin c).
Qed.
End Conclusions.
