(* ===== verification/LoadEngine.v ===== *)
(** * The verification entry points of a load test (load_test/verification/
    engine.rs, engine/config.rs, engine/input.rs; config.rs, config/contract.rs)

    Each entry point reads the deployment configuration, turns the confirmed
    transactions of a batch into pending ones or takes them from the sender's
    channel, runs a pipeline with its destination, and reports.  The theorems
    are about batches: the report counts every confirmed transaction once, only
    their timings are written, and a verification ends. *)

From Stdlib Require Import QArith_base.
From S2P Require Import Prelude Types Retry Journal Chain Intent Json Cosmos Target LoadTest LoadNet LoadPipeline LoadFacts LoadVerdicts LoadEnds LoadDestinations.

(** ** Configuration *)

Inductive AxelarChainContract : Type :=
  | GatewayContract | InterchainTokenServiceContract | MultisigProverContract | VotingVerifierContract
  | XrplGatewayContract | XrplVotingVerifierContract.
Definition chain_contract_key (c : AxelarChainContract) : string :=
  match c with
  | GatewayContract => "Gateway"
  | InterchainTokenServiceContract => "InterchainTokenService"
  | MultisigProverContract => "MultisigProver"
  | VotingVerifierContract => "VotingVerifier"
  | XrplGatewayContract => "XrplGateway"
  | XrplVotingVerifierContract => "XrplVotingVerifier"
  end.

Inductive AxelarGlobalContract : Type := AxelarnetGatewayGlobal | InterchainTokenServiceGlobal | RouterGlobal.
Definition global_contract_key (c : AxelarGlobalContract) : string :=
  match c with
  | AxelarnetGatewayGlobal => "AxelarnetGateway"
  | InterchainTokenServiceGlobal => "InterchainTokenService"
  | RouterGlobal => "Router"
  end.

Definition contract_address (c : AxelarConfig) (contract : AxelarChainContract) (chain : string) : result string :=
  ok_or (contracts ← ax_contracts c;
         entries ← contracts !! chain_contract_key contract;
         entry ← entries !! chain;
         address ← get_key "address" entry;
         as_str address) "no axelar.contracts.contract.chain.address in target json".

(** The URLs a client can be built for. *)
Class UrlLib : Type := { url_ok : string -> bool }.

Record VerificationRoute : Type := mkRoute {
  vr_source_chain : string;
  vr_destination_chain : string;
  vr_network : Network
}.

Record GmpAxelarConfig : Type := mkGmpConfig {
  gc_lcd : string;
  gc_voting_verifier : option string;
  gc_cosm_gateway : string
}.
Record ItsAxelarConfig : Type := mkItsConfig {
  ic_cfg : ChainsConfig;
  ic_lcd : string;
  ic_voting_verifier : option string;
  ic_axelarnet_gateway : string
}.

Definition ok {A} (r : result A) : option A := match r with Ok a => Some a | Err _ => None end.

(** Batch and streaming runs. *)
Inductive VerifyMode : Type := Batch | Stream.

Definition default_report : VerificationReport :=
  mkReport 0 0 0 0 (Qmake 0 1) ∅ None None None None None None None None (mkPeak None None None None None) 0 ∅ 0.

Definition LEGACY_LOG_LOOKBACK_BLOCKS : Z := 200.

(** ** Inputs *)

Definition confirmed_indices (metrics : list TxMetrics) : list nat :=
  filter (fun i => match metrics !! i with
                   | Some m => outcome_is_success (m_outcome m) && negb (bool_decide (m_signature m = ""))
                   | None => false
                   end = true) (seq 0 (length metrics)).

Definition its_initial_phase (has_voting_verifier : bool) (metrics : list TxMetrics) (confirmed : list nat) : Phase :=
  let hashes_known := forallb (fun i => match metrics !! i with
                                        | Some m => negb (bool_decide (m_payload_hash m = ""))
                                        | None => false
                                        end) confirmed in
  if has_voting_verifier && hashes_known then Voted else HubApproved.

(** The pending transactions of a batch, an error at the first that has none. *)
Definition pending_batch (f : TxMetrics -> nat -> result PendingTx) (metrics : list TxMetrics) (confirmed : list nat)
    : result (list PendingTx) :=
  collect_results (fun idx => tx ← ok_or (metrics !! idx) "index out of bounds"; f tx idx) confirmed.

Definition pending_evm_gmp_transactions (t : Z) (metrics : list TxMetrics) (confirmed : list nat)
    (source_type : SourceChainType) (network : Network) (contract_addr : Address) (initial_phase : Phase)
    : result (list PendingTx) :=
  pending_batch (fun tx idx =>
    pending_tx_for_gmp_batch t tx
      (mkBatchArgs idx (message_id_for_source tx source_type network) contract_addr None "" "" initial_phase))
    metrics confirmed.

Section Engine.
Context {E : Type} `{PollEnv E, WebText, ChainViews E, EvmLib, TargetFile E, ConfigLib, UrlLib}.
Variable jittered : Z -> Z.
Variables lcd_override rpc_override inactivity_var : option string.
Variable parse_addr : string -> option Address.
Variable fuel : nat.

Definition instant : M E Z := fun e => (Ok (poll_now e), e).

(** A pipeline run on a list of transactions. *)
Definition on_txs {A} (txs : list PendingTx) (m : M (Poll E) A) : M E (A * list PendingTx) := fun e =>
  match m (mkPoll e txs 0 0) with
  | (Ok a, s) => (Ok (a, po_txs s), po_env s)
  | (Err err, s) => (Err err, po_env s)
  end.

(** [ChainsConfig::load]. *)
Definition load_chains : M E ChainsConfig :=
  root ← (read_target_file : M E Json);
  lift (ok_or (chains_config root) "failed to parse chains config").

Definition config_lcd (c : AxelarConfig) : result string := params ← cosmos_tx_params c; Ok (tp_lcd params).

Definition load_gmp_axelar_config (source_chain destination_chain : string) : M E GmpAxelarConfig :=
  cfg ← load_chains;
  lcd ← lift (config_lcd (cfg_axelar cfg));
  cosm_gateway ← lift (contract_address (cfg_axelar cfg) GatewayContract destination_chain);
  mret (mkGmpConfig lcd (ok (contract_address (cfg_axelar cfg) VotingVerifierContract source_chain)) cosm_gateway).

Definition load_its_axelar_config (source_chain : string) : M E ItsAxelarConfig :=
  cfg ← load_chains;
  lcd ← lift (config_lcd (cfg_axelar cfg));
  axelarnet_gateway ← lift (global_contract_address (cfg_axelar cfg) (global_contract_key AxelarnetGatewayGlobal));
  mret (mkItsConfig cfg lcd (ok (contract_address (cfg_axelar cfg) VotingVerifierContract source_chain)) axelarnet_gateway).

Definition lookup_cosm_gateway_dest (cfg : ChainsConfig) (destination_chain : string) : result string :=
  contract_address (cfg_axelar cfg) GatewayContract destination_chain.

Definition lookup_xrpl_cosm_gateway_dest (cfg : ChainsConfig) (destination_chain : string) : result string :=
  match contract_address (cfg_axelar cfg) GatewayContract destination_chain with
  | Ok address => Ok address
  | Err _ => contract_address (cfg_axelar cfg) XrplGatewayContract destination_chain
  end.

Definition read_axelar_rpc : M E string :=
  root ← (read_target_file : M E Json);
  lift (ok_or (axelar ← get_key "axelar" root; rpc ← get_key "rpc" axelar; as_str rpc) "no axelar.rpc in target json").

Definition read_sui_gateway_pkg (chain : string) : M E string :=
  cfg ← load_chains;
  contracts ← lift (config_chain cfg chain);
  lift (contract_address_by_name contracts "AxelarGateway").

(** Both ends of a route: legacy when it has no voting verifier. *)
Definition classify_route (cfg : ChainsConfig) (source destination : string) : bool * bool :=
  let legacy chain := negb (is_some (ok (contract_address (cfg_axelar cfg) VotingVerifierContract chain))) in
  (legacy source, legacy destination).

(** ** Pipelines *)

Definition streams (mode : VerifyMode) : bool := match mode with Batch => false | Stream => true end.

Definition poll_gmp (d : GmpDestination) (mode : VerifyMode) (args : PollPipelineArgs) (txs : list PendingTx)
    : M E (PeakThroughput * list PendingTx) :=
  on_txs txs (@poll_pipeline E _ jittered lcd_override _ inactivity_var parse_addr (gmp_destination jittered d)
                fuel (streams mode) (streams mode) args).

Definition run_gmp_pipeline (d : GmpDestination) (mode : VerifyMode) (c : GmpAxelarConfig) (route : VerificationRoute)
    (destination_address : string) (txs : list PendingTx) : M E (PeakThroughput * list PendingTx) :=
  poll_gmp d mode
    (mkPipelineArgs (gc_lcd c) (gc_voting_verifier c) (Some (gc_cosm_gateway c)) (vr_source_chain route)
       (vr_destination_chain route) destination_address None (vr_network route)) txs.

Definition run_its_hub_pipeline (d : ItsDestination) (mode : VerifyMode) (args : PollItsHubArgs) (txs : list PendingTx)
    : M E (PeakThroughput * list PendingTx) :=
  on_txs txs (@poll_pipeline_its_hub E _ jittered lcd_override rpc_override _ inactivity_var
                (its_destination jittered parse_addr d) fuel (streams mode) (streams mode) args).

Definition run_its_hub_evm_pipeline (gateway : Address) (dest : ItsEvmDest) (mode : VerifyMode) (args : PollItsHubArgs)
    (txs : list PendingTx) : M E (PeakThroughput * list PendingTx) :=
  on_txs txs (poll_pipeline_its_hub_evm jittered lcd_override rpc_override inactivity_var
                (fun dest => its_destination jittered parse_addr (ItsEvm gateway dest)) fuel (streams mode) (streams mode)
                dest args).

(** ** Reports *)

Abbreviation BatchReport := (VerificationReport * list TxMetrics)%type.
Abbreviation StreamReport := (VerificationReport * list (string * AmplifierTiming))%type.

Definition streaming_report_and_timings (txs : list PendingTx) (peaks : PeakThroughput) : StreamReport :=
  ((compute_verification_report txs [] peaks).1, map (fun tx => (p_message_id tx, p_timing tx)) txs).

(** A batch without confirmed transactions is not verified. *)
Definition batch (metrics : list TxMetrics) (verify : list nat -> M E (PeakThroughput * list PendingTx)) : M E BatchReport :=
  match confirmed_indices metrics with
  | [] => mret (default_report, metrics)
  | confirmed =>
      '(peaks, txs) ← verify confirmed;
      mret (compute_verification_report txs metrics peaks)
  end.

Definition stream (verify : M E (PeakThroughput * list PendingTx)) : M E StreamReport :=
  '(peaks, txs) ← verify; mret (streaming_report_and_timings txs peaks).

Definition gmp_initial (voting_verifier : option string) (otherwise : Phase) : Phase :=
  if is_some voting_verifier then Voted else otherwise.

(** ** GMP entry points *)

(** What the legacy entry points read before they run. *)
Definition legacy_config (route : VerificationRoute) : M E (option string * bool * string) :=
  cfg ← load_chains;
  let voting_verifier := ok (contract_address (cfg_axelar cfg) VotingVerifierContract (vr_source_chain route)) in
  let dest_legacy := negb (is_some (ok (contract_address (cfg_axelar cfg) VotingVerifierContract (vr_destination_chain route)))) in
  lcd ← (if is_some voting_verifier then lift (config_lcd (cfg_axelar cfg)) else mret "");
  mret (voting_verifier, dest_legacy, lcd).

Definition legacy_from_block : M E Z := latest ← call get_block_number; mret (saturating_sub latest LEGACY_LOG_LOOKBACK_BLOCKS).

Definition legacy_checker (gateway : Address) (dest_legacy : bool) (from_block : Z) (match_by_payload : bool) : GmpDestination :=
  GmpEvm (if dest_legacy then Legacy gateway from_block match_by_payload else Amplifier true).

Definition legacy_args (route : VerificationRoute) (lcd : string) (voting_verifier : option string) (address : string)
    : PollPipelineArgs :=
  mkPipelineArgs lcd voting_verifier None (vr_source_chain route) (vr_destination_chain route) address None
    (vr_network route).

Definition is_evm (s : SourceChainType) : bool := match s with SourceEvm => true | _ => false end.

Definition verify_onchain_evm_legacy (route : VerificationRoute) (address : string) (gateway : Address)
    (source_type : SourceChainType) (metrics : list TxMetrics) : M E BatchReport :=
  batch metrics (fun confirmed =>
    '(voting_verifier, dest_legacy, lcd) ← legacy_config route;
    contract_addr ← lift (ok_or (parse_addr address) "invalid address");
    from_block ← legacy_from_block;
    t ← instant;
    txs ← lift (pending_evm_gmp_transactions t metrics confirmed source_type (vr_network route) contract_addr
                  (gmp_initial voting_verifier Approved));
    poll_gmp (legacy_checker gateway dest_legacy from_block (negb (is_evm source_type))) Batch
      (legacy_args route lcd voting_verifier address) txs).

Definition verify_onchain (route : VerificationRoute) (address : string) (gateway : Address)
    (source_type : SourceChainType) (metrics : list TxMetrics) : M E BatchReport :=
  match confirmed_indices metrics with
  | [] => mret (default_report, metrics)
  | _ =>
      cfg ← load_chains;
      if negb (is_some (ok (contract_address (cfg_axelar cfg) VotingVerifierContract (vr_destination_chain route))))
      then verify_onchain_evm_legacy route address gateway source_type metrics
      else
        batch metrics (fun confirmed =>
          c ← load_gmp_axelar_config (vr_source_chain route) (vr_destination_chain route);
          contract_addr ← lift (ok_or (parse_addr address) "invalid address");
          t ← instant;
          txs ← lift (pending_evm_gmp_transactions t metrics confirmed source_type (vr_network route) contract_addr
                        (gmp_initial (gc_voting_verifier c) Routed));
          run_gmp_pipeline (GmpEvm (Amplifier false)) Batch c route address txs)
  end.

Definition verify_onchain_evm_streaming (route : VerificationRoute) (address rpc_url : string) : M E StreamReport :=
  stream (
    c ← load_gmp_axelar_config (vr_source_chain route) (vr_destination_chain route);
    ensure (url_ok rpc_url) "invalid url";;
    run_gmp_pipeline (GmpEvm (Amplifier false)) Stream c route address []).

Definition verify_onchain_evm_legacy_streaming (route : VerificationRoute) (address : string) (gateway : Address)
    (rpc_url : string) : M E StreamReport :=
  stream (
    '(voting_verifier, dest_legacy, lcd) ← legacy_config route;
    ensure (url_ok rpc_url) "invalid url";;
    from_block ← legacy_from_block;
    poll_gmp (legacy_checker gateway dest_legacy from_block false) Stream (legacy_args route lcd voting_verifier address) []).

Definition verify_onchain_stellar_gmp (route : VerificationRoute) (contract rpc_url : string)
    (source_type : SourceChainType) (metrics : list TxMetrics) : M E BatchReport :=
  batch metrics (fun confirmed =>
    c ← load_gmp_axelar_config (vr_source_chain route) (vr_destination_chain route);
    t ← instant;
    txs ← lift (pending_batch (fun tx idx =>
      pending_tx_for_gmp_batch t tx
        (mkBatchArgs idx (message_id_for_source tx source_type (vr_network route)) 0 None (m_gmp_destination_chain tx)
           contract (gmp_initial (gc_voting_verifier c) Routed))) metrics confirmed);
    ensure (url_ok rpc_url) "failed to build Stellar RPC client";;
    run_gmp_pipeline GmpStellar Batch c route contract txs).

Definition verify_onchain_sui_gmp (route : VerificationRoute) (address : string)
    (source_type : SourceChainType) (metrics : list TxMetrics) : M E BatchReport :=
  batch metrics (fun confirmed =>
    c ← load_gmp_axelar_config (vr_source_chain route) (vr_destination_chain route);
    gateway_pkg ← read_sui_gateway_pkg (vr_destination_chain route);
    t ← instant;
    txs ← lift (pending_batch (fun tx idx =>
      pending_tx_for_gmp_batch t tx
        (mkBatchArgs idx (message_id_for_source tx source_type (vr_network route)) 0 None (m_gmp_destination_chain tx)
           (m_gmp_destination_address tx) (gmp_initial (gc_voting_verifier c) Routed))) metrics confirmed);
    run_gmp_pipeline (GmpSui gateway_pkg) Batch c route address txs).

Definition verify_onchain_solana_streaming (route : VerificationRoute) (address : string) : M E StreamReport :=
  stream (
    c ← load_gmp_axelar_config (vr_source_chain route) (vr_destination_chain route);
    run_gmp_pipeline (GmpSolana (vr_network route)) Stream c route address []).

Definition verify_onchain_solana (route : VerificationRoute) (address : string) (source_type : SourceChainType)
    (metrics : list TxMetrics) : M E BatchReport :=
  batch metrics (fun confirmed =>
    c ← load_gmp_axelar_config (vr_source_chain route) (vr_destination_chain route);
    t ← instant;
    txs ← lift (pending_batch (fun tx idx =>
      let message_id := message_id_for_source tx source_type (vr_network route) in
      let cmd_input := string_bytes (vr_source_chain route +:+ "-" +:+ message_id) in
      pending_tx_for_gmp_batch t tx
        (mkBatchArgs idx message_id 0 (Some (keccak256 cmd_input)) (m_gmp_destination_chain tx)
           (m_gmp_destination_address tx) (gmp_initial (gc_voting_verifier c) Routed))) metrics confirmed);
    run_gmp_pipeline (GmpSolana (vr_network route)) Batch c route address txs).

(** ** ITS entry points *)

Definition its_pending (t : Z) (metrics : list TxMetrics) (confirmed : list nat) (initial : Phase)
    : result (list PendingTx) :=
  pending_batch (fun tx idx => pending_tx_for_its_batch t tx idx initial) metrics confirmed.

(** The transactions of a batch through the hub. *)
Definition its_transactions (c : ItsAxelarConfig) (metrics : list TxMetrics) (confirmed : list nat)
    : M E (list PendingTx) :=
  t ← instant;
  lift (its_pending t metrics confirmed (its_initial_phase (is_some (ic_voting_verifier c)) metrics confirmed)).

Definition hub_args (c : ItsAxelarConfig) (route : VerificationRoute) (rpc cosm_gateway_dest : string) : PollItsHubArgs :=
  mkHubArgs (ic_lcd c) (ic_voting_verifier c) (vr_source_chain route) (ic_axelarnet_gateway c) rpc cosm_gateway_dest
    (vr_network route).

(** What is read after the transactions: the RPC and the destination gateway. *)
Definition its_endpoints (c : ItsAxelarConfig) (route : VerificationRoute)
    (lookup : ChainsConfig -> string -> result string) : M E PollItsHubArgs :=
  rpc ← read_axelar_rpc;
  cosm_gateway_dest ← lift (lookup (ic_cfg c) (vr_destination_chain route));
  mret (hub_args c route rpc cosm_gateway_dest).

Definition verify_onchain_solana_its (route : VerificationRoute) (metrics : list TxMetrics) : M E BatchReport :=
  batch metrics (fun confirmed =>
    c ← load_its_axelar_config (vr_source_chain route);
    txs ← its_transactions c metrics confirmed;
    args ← its_endpoints c route lookup_cosm_gateway_dest;
    run_its_hub_pipeline (ItsSolana (vr_network route)) Batch args txs).

Definition verify_onchain_sui_its (route : VerificationRoute) (metrics : list TxMetrics) : M E BatchReport :=
  batch metrics (fun confirmed =>
    c ← load_its_axelar_config (vr_source_chain route);
    gateway_pkg ← read_sui_gateway_pkg (vr_destination_chain route);
    txs ← its_transactions c metrics confirmed;
    args ← its_endpoints c route lookup_cosm_gateway_dest;
    run_its_hub_pipeline (ItsSui gateway_pkg) Batch args txs).

Definition verify_onchain_stellar_its (route : VerificationRoute) (rpc_url : string) (metrics : list TxMetrics)
    : M E BatchReport :=
  batch metrics (fun confirmed =>
    c ← load_its_axelar_config (vr_source_chain route);
    txs ← its_transactions c metrics confirmed;
    args ← its_endpoints c route lookup_cosm_gateway_dest;
    ensure (url_ok rpc_url) "failed to build Stellar RPC client";;
    run_its_hub_pipeline ItsStellar Batch args txs).

Definition verify_onchain_xrpl_its (route : VerificationRoute) (recipient : string) (metrics : list TxMetrics)
    : M E BatchReport :=
  batch metrics (fun confirmed =>
    c ← load_its_axelar_config (vr_source_chain route);
    txs ← its_transactions c metrics confirmed;
    args ← its_endpoints c route lookup_xrpl_cosm_gateway_dest;
    run_its_hub_pipeline (ItsXrpl recipient) Batch args txs).

(** An EVM destination and the gateway its [routed] phase asks. *)
Definition its_evm_dest (cfg : ChainsConfig) (destination_chain : string) : M E (ItsEvmDest * string) :=
  if negb (is_some (ok (contract_address (cfg_axelar cfg) VotingVerifierContract destination_chain)))
  then from_block ← legacy_from_block; mret (ItsLegacy from_block, "")
  else gateway ← lift (lookup_cosm_gateway_dest cfg destination_chain); mret (ItsAmplifier, gateway).

Definition verify_onchain_evm_its (route : VerificationRoute) (gateway : Address) (rpc_url : string)
    (metrics : list TxMetrics) : M E BatchReport :=
  batch metrics (fun confirmed =>
    cfg ← load_chains;
    lcd ← lift (config_lcd (cfg_axelar cfg));
    axelarnet_gateway ← lift (global_contract_address (cfg_axelar cfg) (global_contract_key AxelarnetGatewayGlobal));
    t ← instant;
    txs ← lift (its_pending t metrics confirmed HubApproved);
    rpc ← read_axelar_rpc;
    ensure (url_ok rpc_url) "invalid url";;
    '(dest, cosm_gateway_dest) ← its_evm_dest cfg (vr_destination_chain route);
    run_its_hub_evm_pipeline gateway dest Batch
      (mkHubArgs lcd None (vr_source_chain route) axelarnet_gateway rpc cosm_gateway_dest (vr_network route)) txs).

Definition verify_onchain_solana_its_streaming (route : VerificationRoute) : M E StreamReport :=
  stream (
    c ← load_its_axelar_config (vr_source_chain route);
    args ← its_endpoints c route lookup_cosm_gateway_dest;
    run_its_hub_pipeline (ItsSolana (vr_network route)) Stream args []).

Definition verify_onchain_stellar_its_streaming (route : VerificationRoute) (rpc_url : string) : M E StreamReport :=
  stream (
    c ← load_its_axelar_config (vr_source_chain route);
    args ← its_endpoints c route lookup_cosm_gateway_dest;
    ensure (url_ok rpc_url) "failed to build Stellar RPC client";;
    run_its_hub_pipeline ItsStellar Stream args []).

Definition verify_onchain_xrpl_its_streaming (route : VerificationRoute) (recipient : string) : M E StreamReport :=
  stream (
    c ← load_its_axelar_config (vr_source_chain route);
    args ← its_endpoints c route lookup_xrpl_cosm_gateway_dest;
    run_its_hub_pipeline (ItsXrpl recipient) Stream args []).

Definition verify_onchain_evm_its_streaming (route : VerificationRoute) (gateway : Address) (rpc_url : string)
    : M E StreamReport :=
  stream (
    cfg ← load_chains;
    lcd ← lift (config_lcd (cfg_axelar cfg));
    axelarnet_gateway ← lift (global_contract_address (cfg_axelar cfg) (global_contract_key AxelarnetGatewayGlobal));
    rpc ← read_axelar_rpc;
    ensure (url_ok rpc_url) "invalid url";;
    '(dest, cosm_gateway_dest) ← its_evm_dest cfg (vr_destination_chain route);
    run_its_hub_evm_pipeline gateway dest Stream
      (mkHubArgs lcd None (vr_source_chain route) axelarnet_gateway rpc cosm_gateway_dest (vr_network route)) []).
End Engine.

(** ** Batches *)

Definition with_timing (m : TxMetrics) (t : AmplifierTiming) : TxMetrics :=
  mkMetrics (m_signature m) (m_outcome m) (m_payload_hash m) (m_source_address m) (m_send_instant m)
    (m_gmp_destination_chain m) (m_gmp_destination_address m) (Some t).

(** A report on the transactions as their verification left them: the ones that
    succeeded, failed and timed out are counted, the timing of each is written
    into its own metrics, and the metrics of the others are as they were. *)
Definition reports_on (metrics : list TxMetrics) (txs : list PendingTx) (p : VerificationReport * list TxMetrics) : Prop :=
  total_verified p.1 = Z.of_nat (length txs) /\ successful p.1 = count succeeded txs /\ failed p.1 = count is_failed txs /\
  stuck p.1 = count is_timed_out txs /\ length p.2 = length metrics /\
  (forall tx m, tx ∈ txs -> metrics !! p_idx tx = Some m -> p.2 !! p_idx tx = Some (with_timing m (p_timing tx))) /\
  (forall i, i ∉ map p_idx txs -> p.2 !! i = metrics !! i).

Lemma writes_length txs metrics : length (foldl write_timing metrics txs) = length metrics.
Proof.
  revert metrics. induction txs as [|tx txs IH]; intros metrics; simpl; [done|]. rewrite IH. apply length_alter.
Qed.
Lemma writes_other txs metrics i : i ∉ map p_idx txs -> foldl write_timing metrics txs !! i = metrics !! i.
Proof.
  revert metrics. induction txs as [|tx txs IH]; intros metrics Hi; simpl in *; [done|].
  rewrite IH by set_solver. apply list_lookup_alter_ne. set_solver.
Qed.
Lemma writes_timing txs metrics tx m :
  NoDup (map p_idx txs) -> tx ∈ txs -> metrics !! p_idx tx = Some m ->
  foldl write_timing metrics txs !! p_idx tx = Some (with_timing m (p_timing tx)).
Proof.
  revert metrics. induction txs as [|tx' txs IH]; intros metrics Hnd Hin Hm; simpl in *; [by apply elem_of_nil in Hin|].
  apply list.NoDup_cons in Hnd as [Hn Hnd]. apply elem_of_cons in Hin as [->|Hin].
  - rewrite writes_other by done. unfold write_timing. by rewrite list_lookup_alter_eq, Hm.
  - apply IH; [done|done|]. unfold write_timing. rewrite list_lookup_alter_ne; [done|]. intros He. apply Hn. rewrite He.
    by apply list_elem_of_fmap_2.
Qed.

(** A run of a batch settles its transactions. *)
Definition batch_run (confirmed : list nat) (p : PeakThroughput * list PendingTx) : Prop :=
  map p_idx p.2 = confirmed /\ Forall settled p.2 /\ Forall accounted p.2.

Lemma confirmed_NoDup metrics : NoDup (confirmed_indices metrics).
Proof. apply (list.NoDup_filter _), list.NoDup_seq. Qed.

Lemma run_reports metrics p :
  batch_run (confirmed_indices metrics) p -> reports_on metrics p.2 (compute_verification_report p.2 metrics p.1).
Proof.
  intros (Hidx & Hset & Hacc). destruct (report_complete p.2 metrics p.1 Hset Hacc) as (Ht & Hs & Hf & _ & Hst & _).
  do 4 (split; [done|]). split; [apply writes_length|]. split.
  - intros tx m Hin Hm. apply writes_timing; [|done|done]. rewrite Hidx. apply confirmed_NoDup.
  - intros i Hi. by apply writes_other.
Qed.

(** A run that takes no new transactions keeps the given ones. *)
Lemma evolved_idx (mv : PendingTx -> PendingTx -> Prop) fresh txs txs' :
  evolved mv fresh txs txs' -> (forall tx, ~ fresh tx) -> (forall tx tx', mv tx tx' -> lives tx tx') ->
  map p_idx txs' = map p_idx txs.
Proof.
  intros [Hlen Hev] Hfresh Hmv. apply list_eq. intros i. rewrite !list_lookup_fmap.
  destruct (txs' !! i) as [tx'|] eqn:Htx'.
  - destruct (Hev i tx' Htx') as (tx & Hr & [->|[_ Hf]]); [|by destruct (Hfresh tx)]. simpl. f_equal.
    assert (lives tx tx') as [_ [Hi _]]; [|done]. clear -Hr Hmv. induction Hr; [done|etrans; eauto].
  - apply lookup_ge_None in Htx'. by rewrite lookup_ge_None_2 by lia.
Qed.

Definition pendings (confirmed : list nat) (txs : list PendingTx) : Prop :=
  map p_idx txs = confirmed /\ Forall constructed txs.

Lemma pending_batch_ok f metrics confirmed txs :
  (forall tx idx p, f tx idx = Ok p -> constructed p /\ p_idx p = idx) ->
  pending_batch f metrics confirmed = Ok txs -> pendings confirmed txs.
Proof.
  intros Hf. unfold pending_batch. revert txs. induction confirmed as [|idx confirmed IH]; intros txs; cbn [collect_results].
  { intros [= <-]. by split. }
  intros (p & Hp & Hrest)%result_bind_ok. apply result_bind_ok in Hrest as (ps & Hps & [= <-]).
  apply result_bind_ok in Hp as (tx & _ & Hp). destruct (Hf _ _ _ Hp) as [Hc Hi]. destruct (IH _ Hps) as [Hm Hcs].
  split; [simpl; by rewrite Hi, Hm|by constructor].
Qed.
Lemma gmp_pending_ok t tx args p :
  pending_tx_for_gmp_batch t tx args = Ok p -> constructed p /\ p_idx p = ba_idx args.
Proof. intros (h & _ & [= <-])%result_bind_ok. split; [by eexists|done]. Qed.
Lemma its_pending_ok t tx idx initial p :
  pending_tx_for_its_batch t tx idx initial = Ok p -> constructed p /\ p_idx p = idx.
Proof. intros (h & _ & [= <-])%result_bind_ok. split; [by eexists|done]. Qed.

Section Reports.
Context {E : Type} `{PollEnv E, WebText, ChainViews E, EvmLib, TargetFile E, ConfigLib, UrlLib, !Completion E}.
Variable jittered : Z -> Z.
Variables lcd_override rpc_override inactivity_var : option string.
Variable parse_addr : string -> option Address.
Variable fuel : nat.

Abbreviation results m Q := (hold (S := E) anything any_error m Q).

Lemma results_lift {A} (r : result A) Q : (forall a, r = Ok a -> Q a) -> results (lift r) Q.
Proof. intros Hr. apply hold_lift; [apply _|]. by destruct r; [apply Hr|]. Qed.
Lemma results_bind {A B} (m : M E A) (f : A -> M E B) (Q : B -> Prop) :
  (forall a, results (f a) Q) -> results (m ≫= f) Q.
Proof. intros Hf. eapply hold_bind; [apply _|apply hold_anything|]. intros a _. apply Hf. Qed.
(** What a run of the verification loop returned, of one of the two kinds. *)
Definition polled (p : PeakThroughput * list PendingTx) : Prop :=
  (exists d args txs (e e' : E),
     poll_gmp jittered lcd_override inactivity_var parse_addr fuel d Batch args txs e = (Ok p, e')) \/
  (exists d hub network txs (e e' : E),
     on_txs txs (@poll_its_hub E _ jittered lcd_override rpc_override _ inactivity_var (its_destination jittered parse_addr d)
       fuel false false hub network) e = (Ok p, e')).
Definition batch_done (confirmed : list nat) (p : PeakThroughput * list PendingTx) : Prop := batch_run confirmed p /\ polled p.

Lemma results_polled (m : M E (PeakThroughput * list PendingTx)) confirmed :
  results m (batch_run confirmed) -> (forall p e e', m e = (Ok p, e') -> polled p) -> results m (batch_done confirmed).
Proof.
  intros Hm Hp e. destruct (Hm e) as [_ Hr]. split; [done|].
  destruct (m e) as [[p|err] e'] eqn:He; simpl in *; [|done]. split; [done|]. by eapply Hp.
Qed.

Lemma results_pendings f metrics confirmed (g : list PendingTx -> M E (PeakThroughput * list PendingTx)) :
  (forall tx idx p, f tx idx = Ok p -> constructed p /\ p_idx p = idx) ->
  (forall txs, pendings confirmed txs -> results (g txs) (batch_done confirmed)) ->
  results (txs ← lift (pending_batch f metrics confirmed); g txs) (batch_done confirmed).
Proof.
  intros Hf Hg. eapply hold_bind; [apply _|apply (results_lift _ (pendings confirmed))|apply Hg].
  intros txs. by apply pending_batch_ok.
Qed.

Lemma runs_gmp d args confirmed txs :
  pendings confirmed txs ->
  results (poll_gmp jittered lcd_override inactivity_var parse_addr fuel d Batch args txs) (batch_run confirmed).
Proof.
  intros [Hidx Hc] e. split; [done|]. unfold poll_gmp, on_txs.
  pose proof (@gmp_grown E _ _ (gmp_destination jittered d) jittered lcd_override inactivity_var parse_addr (fun _ => False) false
    ltac:(done) fuel false args (mkPoll e txs 0 0)) as Hg.
  destruct (@poll_pipeline_polling E _ _ (gmp_destination jittered d) jittered lcd_override inactivity_var parse_addr
    fuel false false args (mkPoll e txs 0 0)) as (s1 & _ & _ & _ & _ & [Heq|[addr Heq]]); rewrite Heq in *; cbn [streams]; rewrite Heq; [done|].
  destruct (polling _ _ _ _ _ _ _ _ s1) as [[peaks|err] s'] eqn:Hrun; [|done]. apply polling_settles in Hrun. simpl in *.
  split; [|split; [done|]]; simpl.
  - rewrite <- Hidx. eapply evolved_idx; [done| |apply gmp_move_lives]. by intros tx (i & ? & [] & _).
  - eapply (evolved_inv _ _ accounted _ _ Hg); [apply gmp_accounted| |by intros tx (i & ? & [] & _)].
    eapply Forall_impl; [apply constructed_accounted|done].
Qed.

Lemma results_gmp d args confirmed txs :
  pendings confirmed txs ->
  results (poll_gmp jittered lcd_override inactivity_var parse_addr fuel d Batch args txs) (batch_done confirmed).
Proof. intros Hp. apply results_polled; [by apply runs_gmp|]. intros p e e' Hr. left. by exists d, args, txs, e, e'. Qed.

Lemma normalize_idx hub tx : p_idx (normalize_start hub tx) = p_idx tx.
Proof. unfold normalize_start, transition_to. by repeat case_match. Qed.

Lemma runs_its d hub network confirmed txs :
  pendings confirmed txs ->
  results (on_txs txs (@poll_its_hub E _ jittered lcd_override rpc_override _ inactivity_var (its_destination jittered parse_addr d)
             fuel false false hub network)) (batch_run confirmed).
Proof.
  intros [Hidx Hc] e. split; [done|]. unfold on_txs.
  pose proof (@its_grown E _ _ (its_destination jittered parse_addr d) jittered lcd_override rpc_override inactivity_var
    (fun _ => False) false ltac:(done) _ fuel false hub network (mkPoll e txs 0 0)) as Hg.
  destruct (@poll_its_polling E _ _ (its_destination jittered parse_addr d) jittered lcd_override rpc_override inactivity_var
    fuel false false hub network (mkPoll e txs 0 0)) as (s1 & _ & _ & _ & _ & Heq). rewrite Heq in *.
  destruct (polling _ _ _ _ _ _ _ _ s1) as [[peaks|err] s'] eqn:Hrun; [|done].
  apply polling_settles in Hrun. simpl in *. split; [|split; [done|]]; simpl.
  - rewrite <- Hidx. etrans; [eapply evolved_idx; [done| |apply its_move_lives]; by intros tx (i & [] & _)|].
    rewrite map_map. apply map_ext. intros tx. apply normalize_idx.
  - eapply (evolved_inv _ _ accounted _ _ Hg); [apply its_accounted| |by intros tx (i & [] & _)].
    apply Forall_map. eapply Forall_impl; [|done]. intros tx Htx. by apply normalize_accounted, constructed_accounted.
Qed.

Lemma results_its d hub network confirmed txs :
  pendings confirmed txs ->
  results (on_txs txs (@poll_its_hub E _ jittered lcd_override rpc_override _ inactivity_var (its_destination jittered parse_addr d)
             fuel false false hub network)) (batch_done confirmed).
Proof. intros Hp. apply results_polled; [by apply runs_its|]. intros p e e' Hr. right. by exists d, hub, network, txs, e, e'. Qed.

(** The report of a batch is on what the verification loop returned for its
    confirmed transactions, which all have a verdict. *)
Definition reported (metrics : list TxMetrics) (p : VerificationReport * list TxMetrics) : Prop :=
  exists peaks txs, (confirmed_indices metrics <> [] -> polled (peaks, txs)) /\
    map p_idx txs = confirmed_indices metrics /\ Forall settled txs /\ reports_on metrics txs p.

Lemma reported_empty metrics p :
  confirmed_indices metrics = [] -> reports_on metrics [] p -> reported metrics p.
Proof. intros Hc Hr. exists (mkPeak None None None None None), []. rewrite Hc. by repeat split; try apply Hr. Qed.

Lemma batch_reported metrics verify :
  (forall confirmed, results (verify confirmed) (batch_done confirmed)) ->
  results (batch (E := E) metrics verify) (reported metrics).
Proof.
  intros Hv. unfold batch. destruct (confirmed_indices metrics) as [|i confirmed] eqn:Hc.
  - apply hold_ret; [apply _|]. apply reported_empty; [done|]. repeat split; try done. intros tx m Hi. by apply elem_of_nil in Hi.
  - rewrite <- Hc. eapply hold_bind; [apply _|apply Hv|]. intros [peaks txs] [Hr Hp]. apply hold_ret; [apply _|].
    exists peaks, txs. split; [done|]. pose proof (run_reports metrics (peaks, txs) Hr) as Hrep. destruct Hr as (Hidx & Hset & _). done.
Qed.

Lemma results_its_transactions c metrics confirmed (g : list PendingTx -> M E (PeakThroughput * list PendingTx)) :
  (forall txs, pendings confirmed txs -> results (g txs) (batch_done confirmed)) ->
  results (txs ← its_transactions c metrics confirmed; g txs) (batch_done confirmed).
Proof.
  intros Hg. apply (hold_bind _ _ _ _ (pendings confirmed)); [|apply Hg]. unfold its_transactions.
  apply results_bind. intros t. apply results_lift. intros txs. apply pending_batch_ok. intros ? ? ?. apply its_pending_ok.
Qed.

(** Steps through the body of an entry point to its pipeline. *)
Ltac results_step :=
  match goal with
  | |- hold _ _ (its_transactions _ _ _ ≫= _) _ => apply results_its_transactions; intros ? ?
  | |- hold _ _ (lift (pending_batch _ _ _) ≫= _) _ => apply results_pendings; [|intros ? ?]
  | |- hold _ _ (_ ≫= _) _ => apply results_bind; intros ?
  | |- hold _ _ (let '(_, _) := ?p in _) _ => destruct p
  | |- hold _ _ (poll_gmp _ _ _ _ _ _ _ _ _) _ => apply results_gmp
  | |- hold _ _ (run_gmp_pipeline _ _ _ _ _ _ _ _ _ _ _) _ => apply results_gmp
  | |- hold _ _ (run_its_hub_pipeline _ _ _ _ _ _ _ _ _ _) _ => apply results_its
  | |- hold _ _ (run_its_hub_evm_pipeline _ _ _ _ _ _ _ _ _ _ _) _ => apply (results_its (ItsEvm _ _))
  | |- forall _ _ _, _ => intros ? ? ?
  | |- pending_tx_for_gmp_batch _ _ _ = Ok _ -> _ => apply gmp_pending_ok
  | |- pending_tx_for_its_batch _ _ _ _ = Ok _ -> _ => apply its_pending_ok
  end.

Lemma legacy_reported route address gateway source_type metrics :
  results (verify_onchain_evm_legacy jittered lcd_override inactivity_var parse_addr fuel route address gateway source_type metrics)
    (reported metrics).
Proof. apply batch_reported. intros confirmed. unfold pending_evm_gmp_transactions. repeat results_step; done. Qed.

Lemma onchain_reported route address gateway source_type metrics :
  results (verify_onchain jittered lcd_override inactivity_var parse_addr fuel route address gateway source_type metrics)
    (reported metrics).
Proof.
  unfold verify_onchain. destruct (confirmed_indices metrics) eqn:Hc.
  - apply hold_ret; [apply _|]. apply reported_empty; [done|]. repeat split; try done. intros tx m Hi. by apply elem_of_nil in Hi.
  - apply results_bind. intros cfg. destruct (negb _); [apply legacy_reported|].
    apply batch_reported. intros confirmed. unfold pending_evm_gmp_transactions. repeat results_step; done.
Qed.

(** Entry points whose reports are right. *)
Definition verifies (f : list TxMetrics -> M E (VerificationReport * list TxMetrics)) : Prop :=
  forall metrics e r e', f metrics e = (Ok r, e') -> reported metrics r.
Lemma results_verifies f : (forall metrics, results (f metrics) (reported metrics)) -> verifies f.
Proof. intros Hf metrics e r e' Hr. destruct (Hf metrics e) as [_ Hv]. by rewrite Hr in Hv. Qed.

(** C35: every batch verification reports on its confirmed transactions.  When
    an entry point returns, for whatever route, configuration and answers of the
    network, its report is on the transactions that the verification loop
    returned for the confirmed ones, one for each, all with a verdict: it counts
    as successful, failed and stuck those that succeeded, failed and timed out;
    the metrics of each have the timing of that transaction written into them;
    and the metrics of every other transaction are as they were. *)
Theorem batch_verifications_report route address rpc_url recipient gateway source_type :
  verifies (verify_onchain jittered lcd_override inactivity_var parse_addr fuel route address gateway source_type) /\
  verifies (verify_onchain_evm_legacy jittered lcd_override inactivity_var parse_addr fuel route address gateway source_type) /\
  verifies (verify_onchain_stellar_gmp jittered lcd_override inactivity_var parse_addr fuel route address rpc_url source_type) /\
  verifies (verify_onchain_sui_gmp jittered lcd_override inactivity_var parse_addr fuel route address source_type) /\
  verifies (verify_onchain_solana jittered lcd_override inactivity_var parse_addr fuel route address source_type) /\
  verifies (verify_onchain_solana_its jittered lcd_override rpc_override inactivity_var parse_addr fuel route) /\
  verifies (verify_onchain_sui_its jittered lcd_override rpc_override inactivity_var parse_addr fuel route) /\
  verifies (verify_onchain_stellar_its jittered lcd_override rpc_override inactivity_var parse_addr fuel route rpc_url) /\
  verifies (verify_onchain_xrpl_its jittered lcd_override rpc_override inactivity_var parse_addr fuel route recipient) /\
  verifies (verify_onchain_evm_its jittered lcd_override rpc_override inactivity_var parse_addr fuel route gateway rpc_url).
Proof.
  repeat apply conj; apply results_verifies; intros metrics;
    first [apply onchain_reported | apply legacy_reported | apply batch_reported; intros confirmed];
    unfold its_pending; repeat results_step; done.
Qed.
End Reports.
