(* ===== verification/Propose.v ===== *)
(** * Governance proposals: data and pure parts (commands/propose/types.rs,
    recovery_types.rs, funding_types.rs, helpers.rs, targets.rs, recovery.rs,
    submission_guard.rs, coverage.rs, funding.rs; its_hub.rs, evm/its_trust.rs)

    A proposal carries one call per edge chain to that chain's
    AxelarServiceGovernance (ASG).  This file has the plan of a proposal, the
    configuration it is resolved from, the choice of edge chains, the payloads
    and messages, the recognition of a proposal that is already on the hub, and
    the keys of the markers that prevent a second submission. *)

From Stdlib Require Import Ascii.
From Stdlib Require String.
From S2P Require Import Prelude Types Journal Chain Plan Config Json Cosmos Target CosmosSteps LoadNet LoadEngine.

(** ** Data (types.rs, helpers.rs) *)

Inductive ProposalType : Type := Operator | Timelock.
#[export] Instance ProposalType_eq_dec : EqDecision ProposalType.
Proof. solve_decision. Defined.

(** The discriminant of the ASG's command. *)
Definition command (t : ProposalType) : Z := match t with Operator => 2 | Timelock => 0 end.
Definition type_label (t : ProposalType) : string :=
  match t with
  | Operator => "operator (ApproveOperatorProposal)"
  | Timelock => "timelock (ScheduleTimeLockProposal)"
  end.

Inductive Operation : Type := Pause | Unpause | SetTrusted | RemoveTrusted | ItsPause.
Inductive TargetContract : Type := TargetGateway | TargetIts.

Definition target_contract (op : Operation) : TargetContract :=
  match op with Pause | Unpause => TargetGateway | SetTrusted | RemoveTrusted | ItsPause => TargetIts end.
Definition op_label (op : Operation) : string :=
  match op with
  | Pause => "pause gateway"
  | Unpause => "unpause gateway"
  | SetTrusted => "ITS set-trusted-chain"
  | RemoveTrusted => "ITS remove-trusted-chain"
  | ItsPause => "ITS pause"
  end.

Record ResolvedConfig : Type := mkResolved {
  rc_mnemonic_env : string;
  rc_edge_axelar_id : string;
  rc_asg_address : string;
  rc_gateway_address : string;
  rc_its_address : option string;
  rc_edge_rpc : string;
  rc_multisig_prover : option string;
  rc_axelar_rpc : string;
  rc_axelarnet_gateway : string;
  rc_gov_module : string;
  rc_lcd : string;
  rc_chain_id : string;
  rc_fee_denom : string;
  rc_gas_price : GasPrice;
  rc_deposit_amount : string;
  rc_expedited_deposit_amount : string
}.

Inductive EdgeRoute : Type := Amplifier | Consensus.
Definition route (c : ResolvedConfig) : EdgeRoute :=
  match rc_multisig_prover c with Some _ => Amplifier | None => Consensus end.

Record AsgInfo : Type := mkAsgInfo {
  ai_operator : Address;
  ai_governance_chain : string;
  ai_governance_address : string;
  ai_minimum_time_lock_delay : Z
}.

Record EdgeCall : Type := mkEdgeCall {
  ed_chain : string;
  ed_cfg : ResolvedConfig;
  ed_asg : AsgInfo;
  ed_target : Address;
  ed_calldata : bytes
}.

(** A plan carries at least one call, so its list is its first call, which
    [hub] reads, and the others. *)
Record ProposalPlan : Type := mkPlan {
  pp_ptype : ProposalType;
  pp_action_label : string;
  pp_first : EdgeCall;
  pp_others : list EdgeCall
}.
Definition calls (p : ProposalPlan) : list EdgeCall := pp_first p :: pp_others p.
Definition new_plan (t : ProposalType) (label : string) (l : list EdgeCall) : result ProposalPlan :=
  match l with
  | [] => bail "a proposal plan needs at least one edge call"
  | first :: others => Ok (mkPlan t label first others)
  end.
Definition hub (p : ProposalPlan) : ResolvedConfig := ed_cfg (pp_first p).
Definition edge_ids (p : ProposalPlan) : list string := map (fun c => rc_edge_axelar_id (ed_cfg c)) (calls p).

Record RelayPlan : Type := mkRelayPlan {
  rp_ptype : ProposalType;
  rp_target : Address;
  rp_calldata : bytes;
  rp_payload : bytes
}.
Definition relay_plan (c : EdgeCall) (t : ProposalType) (payload : bytes) : RelayPlan :=
  mkRelayPlan t (ed_target c) (ed_calldata c) payload.

Record ProposeArgs : Type := mkArgs {
  pa_network : Network;
  pa_mnemonic_env : string;
  pa_chain : option string;
  pa_chains : list string;
  pa_skip : list string;
  pa_op : option Operation;
  pa_calldata : option string;
  pa_target : option string;
  pa_its_chain : option string;
  pa_proposal_type : ProposalType;
  pa_relay : bool;
  pa_proposal_id : option Z;
  pa_new_proposal : bool;
  pa_standard : bool;
  pa_eta : option Z;
  pa_confirm_mainnet : bool;
  pa_yes : bool
}.

(** ** Library interfaces *)

(** ABI codecs (alloy) and RFC 3339 times (chrono), in nanoseconds. *)
Class GovAbi : Type := {
  (** [(command, target, calldata, value, eta)]. *)
  encode_params : Z -> Address -> bytes -> Z -> Z -> bytes;
  decode_params : bytes -> option (Z * Address * bytes * Z * Z);
  set_pause_calldata : bool -> bytes;
  set_trusted_chain_calldata : string -> bytes;
  remove_trusted_chain_calldata : string -> bytes;
  set_trusted_address_calldata : string -> string -> bytes;
  remove_trusted_address_calldata : string -> bytes;
  execute_calldata : B256 -> string -> string -> bytes -> bytes;
  execute_operator_calldata : Address -> bytes -> Z -> bytes;
  execute_proposal_calldata : Address -> bytes -> Z -> bytes;
  (** [MsgExec], by its grantee and its messages. *)
  encode_exec : string -> list Any -> bytes;
  (** [Url::query_pairs_mut().append_pair], for each pair. *)
  with_query : string -> list (string * string) -> string;
  (** [(gas_used as f64 * 3.0) as u64]. *)
  scaled_gas : Z -> Z;
  parse_rfc3339 : string -> option Z
}.

(** The iteration order of a [HashMap]: some order of its entries. *)
Class HashOrder : Type := {
  hash_iter {V} : gmap string V -> list (string * V);
  hash_iter_perm {V} (m : gmap string V) : hash_iter m ≡ₚ map_to_list m
}.

Definition wrapping_add (w a b : Z) : Z := (a + b) mod 2 ^ w.

(** [alloy::hex::decode], which accepts a [0x] prefix. *)
Definition alloy_hex_decode (s : string) : option bytes := hex_decode (default s (strip_prefix "0x" s)).

Definition join (sep : string) (l : list string) : string :=
  match l with [] => "" | x :: l => foldl (fun acc y => acc +:+ sep +:+ y) x l end.

(** ** Configuration (helpers.rs) *)

Definition DEFAULT_DEPOSIT : string := "2000000000".
Definition DEFAULT_EXPEDITED_DEPOSIT : string := "3000000000".

Definition axelar_id_or (c : ChainConfig) (fallback : string) : string := default fallback (cc_axelar_id c).

Section Configuration.
Context `{ConfigLib}.

Definition resolve_with_asg (config : ChainsConfig) (chain : string) (asg_fallback : option string) : result ResolvedConfig :=
  chain_cfg ← ok_or (cfg_chains config !! chain) "chain not found in config";
  let axelar := cfg_axelar config in
  let edge_axelar_id := axelar_id_or chain_cfg chain in
  asg_address ← ok_or (match contract_address_by_name chain_cfg "AxelarServiceGovernance" with
                       | Ok a => Some a
                       | Err _ => asg_fallback
                       end) "target chain has no AxelarServiceGovernance";
  gateway_address ← contract_address_by_name chain_cfg "AxelarGateway";
  let its_address := ok (contract_address_by_name chain_cfg "InterchainTokenService") in
  edge_rpc ← ok_or (cc_rpc chain_cfg) "no rpc for chain in config";
  let multisig_prover := ok (contract_address axelar MultisigProverContract edge_axelar_id) in
  axelar_rpc ← ok_or (ax_rpc axelar) "no axelar.rpc in config";
  axelarnet_gateway ← global_contract_address axelar (global_contract_key AxelarnetGatewayGlobal);
  gov_module ← ok_or (ax_governance_address axelar) "no axelar.governanceAddress in config";
  params ← cosmos_tx_params axelar;
  Ok (mkResolved "MNEMONIC" edge_axelar_id asg_address gateway_address its_address edge_rpc multisig_prover
        axelar_rpc axelarnet_gateway gov_module (tp_lcd params) (tp_chain_id params) (tp_denom params)
        (tp_price params) (default DEFAULT_DEPOSIT (ax_gov_proposal_deposit_amount axelar))
        (default DEFAULT_EXPEDITED_DEPOSIT (ax_gov_proposal_expedited_deposit_amount axelar))).

Definition resolve (config : ChainsConfig) (chain : string) : result ResolvedConfig :=
  resolve_with_asg config chain None.
End Configuration.

(** ** Edge chains (targets.rs, its_hub.rs) *)

Record RegisteredChain : Type := mkRegistered {
  rg_chain : string;
  rg_its_edge_contract : string;
  rg_frozen : bool
}.

Definition registered_chain_of : Json -> option RegisteredChain := struct_of (fun v =>
  chain ← get_key "chain" v ≫= as_str;
  edge ← get_key "its_edge_contract" v ≫= as_str;
  frozen ← get_key "frozen" v ≫= as_bool;
  Some (mkRegistered chain edge frozen)).

Definition MAINNET_DEPRECATED : list string := ["moonbeam"; "berachain"; "flow"; "plume"].
Definition is_deprecated (network : Network) (chain : string) : bool :=
  bool_decide (network = Mainnet) && existsb (fun d => eq_ignore_ascii_case d chain) MAINNET_DEPRECATED.

Record Candidate : Type := mkCandidate { cd_key : string; cd_its_edge : string }.
Record Exclusion : Type := mkExclusion { xc_chain : string; xc_reason : string }.
Record EdgeTarget : Type := mkTarget { tg_chain : string; tg_cfg : ResolvedConfig }.

Definition canonical_trust_name (registry : list RegisteredChain) (name : string) : result string :=
  match List.filter (fun entry => eq_ignore_ascii_case (rg_chain entry) name) registry with
  | [] => bail "--its-chain is not registered on the ITS Hub"
  | [entry] => Ok (rg_chain entry)
  | _ => bail "--its-chain is ambiguous in the ITS Hub registry"
  end.

Section Targets.
Context `{HashOrder}.

(** One registry entry: left out with a reason, or a candidate. *)
Definition classify_one (config : ChainsConfig) (network : Network) (skip : list string) (trusted_chain : string)
    (chain : RegisteredChain) : Exclusion + Candidate :=
  let exclude reason := inl (mkExclusion (rg_chain chain) reason) in
  if rg_frozen chain then exclude "frozen on the ITS Hub"
  else if eq_ignore_ascii_case (rg_chain chain) trusted_chain then exclude "the chain being trusted"
  else match List.find (fun '(key, cfg) => eq_ignore_ascii_case (axelar_id_or cfg key) (rg_chain chain))
               (hash_iter (cfg_chains config)) with
       | None => exclude "not in the chains config"
       | Some (key, chain_cfg) =>
           if negb (bool_decide (cc_chain_type chain_cfg = Some "evm")) then exclude "not an EVM chain"
           else if is_deprecated network key then exclude "deprecated"
           else if existsb (fun skipped => eq_ignore_ascii_case skipped key) skip then exclude "skipped (--skip)"
           else inr (mkCandidate key (rg_its_edge_contract chain))
       end.

Fixpoint classify (hub : list RegisteredChain) (config : ChainsConfig) (network : Network) (skip : list string)
    (trusted_chain : string) : list Candidate * list Exclusion :=
  match hub with
  | [] => ([], [])
  | chain :: hub =>
      let '(candidates, excluded) := classify hub config network skip trusted_chain in
      match classify_one config network skip trusted_chain chain with
      | inl exclusion => (candidates, exclusion :: excluded)
      | inr candidate => (candidate :: candidates, excluded)
      end
  end.
End Targets.

(** ** Calls and payloads (helpers.rs, its_trust.rs, propose.rs) *)

Inductive TrustApi : Type := TrustedChain | TrustedAddress.
Definition HUB_TRUSTED_ADDRESS : string := "hub".

Definition needs_trust_api (op : Operation) : bool :=
  match op with SetTrusted | RemoveTrusted => true | _ => false end.

Definition ETA_BUFFER_SECS : Z := 300.
Definition GAS_BUFFER_UAXL : Z := 10000000.

Section Calls.
Context `{GovAbi, CosmosAccounts}.

Definition encode_set (chain_name : string) (api : TrustApi) : bytes :=
  match api with
  | TrustedChain => set_trusted_chain_calldata chain_name
  | TrustedAddress => set_trusted_address_calldata chain_name HUB_TRUSTED_ADDRESS
  end.
Definition encode_remove (chain_name : string) (api : TrustApi) : bytes :=
  match api with
  | TrustedChain => remove_trusted_chain_calldata chain_name
  | TrustedAddress => remove_trusted_address_calldata chain_name
  end.

Definition target_address (target : TargetContract) (cfg : ResolvedConfig) : result Address :=
  raw ← match target with
        | TargetGateway => Ok (rc_gateway_address cfg)
        | TargetIts => ok_or (rc_its_address cfg) "operation targets ITS but no InterchainTokenService in config"
        end;
  ok_or (parse_address raw) "invalid address".

Definition require_its_chain (its_chain : option string) : result string :=
  ok_or its_chain "operation requires --its-chain".

Definition build_call (op : Operation) (cfg : ResolvedConfig) (its_chain : option string) (trust_api : TrustApi)
    : result (Address * bytes) :=
  target ← target_address (target_contract op) cfg;
  calldata ← match op with
             | Pause | ItsPause => Ok (set_pause_calldata true)
             | Unpause => Ok (set_pause_calldata false)
             | SetTrusted => chain ← require_its_chain its_chain; Ok (encode_set chain trust_api)
             | RemoveTrusted => chain ← require_its_chain its_chain; Ok (encode_remove chain trust_api)
             end;
  Ok (target, calldata).

Definition encode_governance_payload (command : Z) (target : Address) (calldata : bytes) (eta : Z) : bytes :=
  encode_params command target calldata 0 eta.

(** [now] is in seconds. *)
Definition compute_eta (t : ProposalType) (args : ProposeArgs) (asg : AsgInfo) (now : Z) : Z :=
  match t with
  | Operator => 0
  | Timelock =>
      match pa_eta args with
      | Some eta => eta
      | None => wrapping_add 64 (wrapping_add 64 (Z.max now 0) (ai_minimum_time_lock_delay asg)) ETA_BUFFER_SECS
      end
  end.

Record EncodedCall : Type := mkEncoded { en_payload : bytes; en_eta : Z }.
Definition encode_call (args : ProposeArgs) (t : ProposalType) (now : Z) (c : EdgeCall) : EncodedCall :=
  let eta := compute_eta t args (ed_asg c) now in
  mkEncoded (encode_governance_payload (command t) (ed_target c) (ed_calldata c) eta) eta.
End Calls.

Definition call_contract_msg (c : EdgeCall) (payload : bytes) : Json :=
  JObj [("call_contract", JObj
    [("destination_chain", JStr (rc_edge_axelar_id (ed_cfg c)));
     ("destination_address", JStr (rc_asg_address (ed_cfg c)));
     ("payload", JStr (hex_encode payload))])].

Definition deposit_amount (p : ProposalPlan) (args : ProposeArgs) : string :=
  if pa_standard args then rc_deposit_amount (hub p) else rc_expedited_deposit_amount (hub p).

Definition proposal_title (p : ProposalPlan) : string :=
  match pp_others p with
  | [] => pp_action_label p +:+ " on " +:+ rc_edge_axelar_id (ed_cfg (pp_first p))
  | _ => pp_action_label p +:+ " on " +:+ to_dec (Z.of_nat (length (calls p))) +:+ " chains"
  end.
Definition proposal_description (p : ProposalPlan) : string :=
  "Service-Governance " +:+ type_label (pp_ptype p) +:+ " proposal: " +:+ pp_action_label p +:+ " on "
    +:+ join ", " (edge_ids p) +:+ ".".

(** Every ASG of a plan answers to one operator. *)
Definition single_operator (p : ProposalPlan) : result Address :=
  let operator := ai_operator (ed_asg (pp_first p)) in
  _ ← ensure_ok (forallb (fun c => ai_operator (ed_asg c) =? operator) (calls p)) "ASG operators differ";
  Ok operator.

Definition gate_mainnet (network : Network) (confirmed : bool) : result () :=
  ensure_ok (negb (bool_decide (network = Mainnet) && negb confirmed))
    "refusing to propose on mainnet without --confirm-mainnet".

(** ** Funding (funding.rs, funding_types.rs) *)

Inductive ProposalFunding : Type :=
  | Direct (signer : string)
  | Authorized (signer granter : string).
Definition funding_signer (f : ProposalFunding) : string :=
  match f with Direct signer | Authorized signer _ => signer end.
Definition proposer (f : ProposalFunding) : string :=
  match f with Direct signer => signer | Authorized _ granter => granter end.

Inductive Authorization : Type := Generic (msg : string) | Unsupported.
Record Grant : Type := mkGrant { gr_authorization : Authorization; gr_expiration : option string }.

Definition CPI_MULTISIG : string := "axelar14vps3ev03zyp2wmj89etx8rrxdxyltfy4rzl5m".
Definition SUBMIT_PROPOSAL : string := "/cosmos.gov.v1.MsgSubmitProposal".

Definition authorization_of : Json -> option Authorization := struct_of (fun v =>
  ty ← get_key "@type" v ≫= as_str;
  if decide (ty = "/cosmos.authz.v1beta1.GenericAuthorization")
  then msg ← get_key "msg" v ≫= as_str; Some (Generic msg)
  else Some Unsupported).
Definition grant_of : Json -> option Grant := struct_of (fun v =>
  authorization ← get_key "authorization" v ≫= authorization_of;
  expiration ← opt_field "expiration" as_str v;
  Some (mkGrant authorization expiration)).
Definition grants_of : Json -> option (list Grant) := struct_of (fun v => get_key "grants" v ≫= vec_of grant_of).

Section Funding.
Context `{GovAbi, MessageLib}.

Fixpoint has_active_grant (grants : list Grant) (now : Z) : result bool :=
  match grants with
  | [] => Ok false
  | grant :: grants =>
      match gr_authorization grant with
      | Generic msg =>
          if decide (msg = SUBMIT_PROPOSAL) then
            active ← match gr_expiration grant with
                     | None => Ok true
                     | Some expiration =>
                         t ← ok_or (parse_rfc3339 expiration) "invalid CPI authorization expiration";
                         Ok (now <? t)
                     end;
            if (active : bool) then Ok true else has_active_grant grants now
          else has_active_grant grants now
      | Unsupported => has_active_grant grants now
      end
  end.

Definition build_proposal (p : ProposalPlan) (args : ProposeArgs) (payloads : list bytes) (f : ProposalFunding)
    : result Any :=
  let inner := zip_with (fun c payload => build_execute_msg_any (rc_gov_module (hub p)) (rc_axelarnet_gateway (hub p))
                                            (call_contract_msg c payload)) (calls p) payloads in
  build_submit_proposal_any (proposer f) inner (proposal_title p) (proposal_description p) (deposit_amount p args)
    (rc_fee_denom (hub p)) (negb (pa_standard args)).

Definition submission (f : ProposalFunding) (proposal : Any) : result Any :=
  _ ← ensure_ok (bool_decide (type_url proposal = SUBMIT_PROPOSAL)) "expected a governance proposal";
  decoded ← ok_or (decode_proposal (any_value proposal)) "invalid proposal";
  _ ← ensure_ok (bool_decide (pr_proposer decoded = proposer f))
    "proposal deposit payer does not match the reviewed funding";
  match f with
  | Direct _ => Ok proposal
  | Authorized signer _ => Ok (mkAny "/cosmos.authz.v1beta1.MsgExec" (encode_exec signer [proposal]))
  end.
End Funding.

(** ** Recognizing a proposal on the hub (recovery.rs, recovery_types.rs) *)

Record ExistingProposal : Type := mkExisting {
  ep_id : string;
  ep_status : string;
  ep_voting_end_time : option string;
  ep_messages : list Json
}.
Record ExecuteMessage : Type := mkExecuteMessage {
  em_type : string;
  em_sender : string;
  em_contract : string;
  em_msg : Json;
  em_funds : list Json
}.
Record CallContract : Type := mkCallContract {
  cl_destination_chain : string;
  cl_destination_address : string;
  cl_payload : string
}.
Record ProposalPage : Type := mkPage {
  pg_proposals : list ExistingProposal;
  pg_next_key : option string
}.

Definition existing_of : Json -> option ExistingProposal := struct_of (fun v =>
  id ← get_key "id" v ≫= as_str;
  status ← get_key "status" v ≫= as_str;
  voting_end_time ← opt_field "voting_end_time" as_str v;
  messages ← get_key "messages" v ≫= as_array;
  Some (mkExisting id status voting_end_time messages)).
Definition page_of : Json -> option ProposalPage := struct_of (fun v =>
  proposals ← get_key "proposals" v ≫= vec_of existing_of;
  pagination ← get_key "pagination" v;
  next_key ← struct_of (opt_field "next_key" as_str) pagination;
  Some (mkPage proposals next_key)).
Definition execute_message_of : Json -> option ExecuteMessage := struct_of (fun v =>
  ty ← get_key "@type" v ≫= as_str;
  sender ← get_key "sender" v ≫= as_str;
  contract ← get_key "contract" v ≫= as_str;
  msg ← get_key "msg" v;
  funds ← get_key "funds" v ≫= as_array;
  Some (mkExecuteMessage ty sender contract msg funds)).
Definition gateway_call_of : Json -> option CallContract := struct_of (fun v =>
  call ← get_key "call_contract" v;
  struct_of (fun c =>
    chain ← get_key "destination_chain" c ≫= as_str;
    address ← get_key "destination_address" c ≫= as_str;
    payload ← get_key "payload" c ≫= as_str;
    Some (mkCallContract chain address payload)) call).

(** The proposal's number and the time its vote ends. *)
Definition number (p : ExistingProposal) : result Z := ok_or (parse_uint 64 (ep_id p)) "invalid proposal ID from LCD".
Definition execution_time `{GovAbi} (p : ExistingProposal) : result Z :=
  text ← ok_or (ep_voting_end_time p) "proposal has no voting_end_time";
  ok_or (parse_rfc3339 text) "invalid proposal voting_end_time".

Section Recovery.
Context `{GovAbi, MessageLib}.

Definition message_call (msg : Json) : option CallContract :=
  match msg with
  | JStr encoded => b ← base64_decode encoded; v ← json_of_bytes b; gateway_call_of v
  | object => gateway_call_of object
  end.

Definition message_payload (message : Json) (cfg : ResolvedConfig) (t : ProposalType) (target : Address)
    (calldata : bytes) : option bytes :=
  m ← execute_message_of message;
  if negb (bool_decide (em_type m = "/cosmwasm.wasm.v1.MsgExecuteContract"))
     || negb (bool_decide (em_sender m = rc_gov_module cfg))
     || negb (bool_decide (em_contract m = rc_axelarnet_gateway cfg))
     || negb (bool_decide (em_funds m = []))
  then None
  else
    call ← message_call (em_msg m);
    if negb (bool_decide (cl_destination_chain call = rc_edge_axelar_id cfg))
       || negb (eq_ignore_ascii_case (cl_destination_address call) (rc_asg_address cfg))
    then None
    else
      payload ← alloy_hex_decode (cl_payload call);
      '(cmd, actual_target, actual_calldata, value, _) ← decode_params payload;
      if (cmd =? command t) && (actual_target =? target) && bool_decide (actual_calldata = calldata) && (value =? 0)
      then Some payload else None.

(** The first message that is not used and that [f] accepts. *)
Fixpoint find_unused (f : Json -> option bytes) (used : list bool) (i : nat) (messages : list Json)
    : option (nat * bytes) :=
  match messages with
  | [] => None
  | message :: messages =>
      if default true (used !! i) then find_unused f used (S i) messages
      else match f message with
           | Some payload => Some (i, payload)
           | None => find_unused f used (S i) messages
           end
  end.

Definition call_payload (t : ProposalType) (c : EdgeCall) (message : Json) : option bytes :=
  message_payload message (ed_cfg c) t (ed_target c) (ed_calldata c).

Fixpoint assign_messages (t : ProposalType) (messages : list Json) (used : list bool) (l : list EdgeCall)
    : option (list bytes) :=
  match l with
  | [] => Some []
  | c :: l =>
      '(index, payload) ← find_unused (call_payload t c) used 0 messages;
      payloads ← assign_messages t messages (<[index := true]> used) l;
      Some (payload :: payloads)
  end.

Definition matching_plan (proposal : ExistingProposal) (p : ProposalPlan) : option (list bytes) :=
  if negb (Nat.eqb (length (ep_messages proposal)) (length (calls p))) then None
  else assign_messages (pp_ptype p) (ep_messages proposal) (replicate (length (ep_messages proposal)) false) (calls p).
End Recovery.

(** ** Markers of submissions (submission_guard.rs, coverage.rs)

    A file per plan and a file per call, named by hashes in two directories. *)

Inductive Marker : Type := PlanMarker (key : B256) | CallMarker (key : B256).
#[export] Instance Marker_eq_dec : EqDecision Marker.
Proof. solve_decision. Defined.
#[export] Instance Marker_countable : Countable Marker.
Proof.
  refine (inj_countable' (fun m => match m with PlanMarker k => inl k | CallMarker k => inr k end)
            (fun s => match s with inl k => PlanMarker k | inr k => CallMarker k end) _).
  by intros [].
Defined.

(** Lexicographic order, of [Vec]s and of tuples of one length. *)
Fixpoint lex {A} (cmp : A -> A -> comparison) (a b : list A) : comparison :=
  match a, b with
  | [], [] => Eq
  | [], _ => Lt
  | _, [] => Gt
  | x :: a, y :: b => match cmp x y with Eq => lex cmp a b | c => c end
  end.

Fixpoint string_bytes (s : string) : list Z :=
  match s with
  | EmptyString => []
  | String c s => Z.of_N (N_of_ascii c) :: string_bytes s
  end.

(** The tuple a call is sorted and named by. *)
Abbreviation CallKey := (string * string * Address * bytes)%type.
Definition call_key (c : EdgeCall) : CallKey :=
  (rc_edge_axelar_id (ed_cfg c), to_lowercase (rc_asg_address (ed_cfg c)), ed_target c, ed_calldata c).
Definition key_columns (k : CallKey) : list (list Z) :=
  let '(edge, asg, target, calldata) := k in [string_bytes edge; string_bytes asg; [target]; calldata].
Definition call_key_le (a b : CallKey) : Prop := lex (lex Z.compare) (key_columns a) (key_columns b) <> Gt.
#[export] Instance call_key_le_dec a b : Decision (call_key_le a b).
Proof. unfold call_key_le. apply _. Defined.

Section Markers.
Context `{EvmLib, ConfigLib, MessageLib}.

(** serde's text of addresses and bytes. *)
Definition key_json (k : CallKey) : list Json :=
  let '(edge, asg, target, calldata) := k in
  [JStr edge; JStr asg; JStr (address_json target); JStr ("0x" +:+ hex_encode calldata)].

Definition plan_marker (p : ProposalPlan) : Marker :=
  let h := hub p in
  PlanMarker (keccak256 (json_bytes (JArr
    [JStr (rc_chain_id h); JStr (rc_axelarnet_gateway h); JStr (rc_gov_module h); JNum (command (pp_ptype p));
     JArr (map (fun k => JArr (key_json k)) (merge_sort call_key_le (map call_key (calls p))))]))).

Definition call_marker (c : EdgeCall) : Marker :=
  let cfg := ed_cfg c in
  CallMarker (keccak256 (json_bytes (JArr
    ([JStr (rc_chain_id cfg); JStr (rc_axelarnet_gateway cfg); JStr (rc_gov_module cfg)] ++ key_json (call_key c))))).
Definition call_markers (p : ProposalPlan) : list Marker := map call_marker (calls p).
End Markers.
