(* ===== verification/ProposeFacts.v ===== *)
(** * Recognizing, naming and choosing proposals: the pure theorems

    A proposal is taken for a plan exactly when its messages can be assigned to
    the plan's calls one to one; the proposal a run submits is recognized when
    it is read back; the marker of a plan names its calls and not their order;
    the choice of edge chains sorts every registered chain. *)

From Stdlib Require Import Ascii.
From Stdlib Require String.
From S2P Require Import Prelude Types Journal Chain Plan Config Json Cosmos Target CosmosSteps LoadNet LoadEngine Propose.

(** ** Text without case *)

Lemma eq_ignore_ascii_case_true a b :
  eq_ignore_ascii_case a b = true <->
  map to_ascii_lowercase (String.list_ascii_of_string a) = map to_ascii_lowercase (String.list_ascii_of_string b).
Proof.
  revert b. induction a as [|x a IH]; intros [|y b]; simpl; try done.
  rewrite andb_true_iff, Ascii.eqb_eq, IH. split; [intros [-> ->]|intros [= -> ->]]; done.
Qed.

Lemma eq_ignore_ascii_case_refl a : eq_ignore_ascii_case a a = true.
Proof. by apply eq_ignore_ascii_case_true. Qed.

Lemma eq_ignore_ascii_case_common x a b :
  eq_ignore_ascii_case x a = true -> eq_ignore_ascii_case x b = true ->
  forall y, eq_ignore_ascii_case y a = eq_ignore_ascii_case y b.
Proof.
  rewrite !eq_ignore_ascii_case_true. intros Ha Hb y. apply eq_true_iff_eq.
  rewrite !eq_ignore_ascii_case_true. by rewrite <- Ha, <- Hb.
Qed.

(** ** Greedy assignment *)

Section Assignment.
Context `{GovAbi, MessageLib} (t : ProposalType).
Abbreviation accepts := (call_payload t).

(** The messages that are not used. *)
Fixpoint unused (used : list bool) (messages : list Json) : list Json :=
  match used, messages with
  | b :: used, m :: messages => if (b : bool) then unused used messages else m :: unused used messages
  | _, _ => []
  end.

Lemma unused_none messages : unused (replicate (length messages) false) messages = messages.
Proof. induction messages as [|m l IH]; simpl; [done|]. by rewrite IH. Qed.

Lemma find_unused_spec f pre used messages :
  length used = length messages ->
  match find_unused f (pre ++ used) (length pre) messages with
  | None => Forall (fun m => f m = None) (unused used messages)
  | Some (j, payload) => exists k l m r, j = (length pre + k)%nat /\ (k < length used)%nat /\
      unused used messages = l ++ m :: r /\ f m = Some payload /\ Forall (fun x => f x = None) l /\
      unused (<[k := true]> used) messages = l ++ r
  end.
Proof.
  revert pre used. induction messages as [|m messages IH]; intros pre [|b used] Hlen; try done; simpl; [constructor|].
  rewrite list_lookup_middle by done. cbn [default from_option id].
  specialize (IH (pre ++ [b]) used). rewrite length_app, <- app_assoc in IH. simpl in IH.
  rewrite (Nat.add_1_r (length pre)) in IH. specialize (IH ltac:(simpl in Hlen; lia)).
  destruct b.
  - destruct (find_unused _ _ _ _) as [[j payload]|]; [|done].
    destruct IH as (k & l & x & r & -> & Hk & Hu & Hf & Hl & Hr).
    exists (S k), l, x, r. simpl. repeat split; try done; lia.
  - destruct (f m) as [payload|] eqn:Hm.
    + exists 0%nat, [], m, (unused used messages). simpl. repeat split; try done; lia.
    + destruct (find_unused _ _ _ _) as [[j payload]|]; [|by constructor].
      destruct IH as (k & l & x & r & -> & Hk & Hu & Hf & Hl & Hr).
      exists (S k), (m :: l), x, r. simpl. rewrite Hu, Hr. repeat split; try done; try lia. by constructor.
Qed.

(** A message accepted for two calls makes them accept the same messages. *)
Lemma accepts_block c c' m :
  is_Some (accepts c m) -> is_Some (accepts c' m) -> forall m', accepts c m' = accepts c' m'.
Proof.
  unfold call_payload, message_payload. intros [p Hp] [p' Hp'] m'.
  destruct (execute_message_of m) as [em|]; [|done]. simpl in Hp, Hp'.
  destruct (negb _ || _ || _ || _) eqn:Hg in Hp; [done|]. destruct (negb _ || _ || _ || _) eqn:Hg' in Hp'; [done|].
  destruct (message_call (em_msg em)) as [call|]; [|done]. simpl in Hp, Hp'.
  destruct (negb _ || _) eqn:Hd in Hp; [done|]. destruct (negb _ || _) eqn:Hd' in Hp'; [done|].
  destruct (alloy_hex_decode _) as [payload|]; [|done]. simpl in Hp, Hp'.
  destruct (decode_params payload) as [[[[[cmd tg] cd] value] eta]|]; [|done]. simpl in Hp, Hp'.
  destruct (_ && _ && _ && _) eqn:Ht in Hp; [|done]. destruct (_ && _ && _ && _) eqn:Ht' in Hp'; [|done].
  rewrite !orb_false_iff, !negb_false_iff, !bool_decide_eq_true in Hg, Hg'.
  rewrite !orb_false_iff, !negb_false_iff, !bool_decide_eq_true in Hd, Hd'.
  rewrite !andb_true_iff, !Z.eqb_eq, !bool_decide_eq_true in Ht, Ht'.
  destruct Hg as [[[_ Hs] Hc] _], Hg' as [[[_ Hs'] Hc'] _], Hd as [He Ha], Hd' as [He' Ha'],
    Ht as [[[_ Htg] Hcd] _], Ht' as [[[_ Htg'] Hcd'] _].
  replace (ed_target c') with (ed_target c) by congruence. replace (ed_calldata c') with (ed_calldata c) by congruence.
  replace (rc_gov_module (ed_cfg c')) with (rc_gov_module (ed_cfg c)) by congruence.
  replace (rc_axelarnet_gateway (ed_cfg c')) with (rc_axelarnet_gateway (ed_cfg c)) by congruence.
  replace (rc_edge_axelar_id (ed_cfg c')) with (rc_edge_axelar_id (ed_cfg c)) by congruence.
  destruct (execute_message_of m'); [|done]. simpl. destruct (negb _ || _ || _ || _); [done|].
  destruct (message_call _); [|done]. simpl. by rewrite (eq_ignore_ascii_case_common _ _ _ Ha Ha').
Qed.

(** Calls with messages, one to one, and the payloads that come of it. *)
Definition assigned (l : list EdgeCall) (pairs : list (Json * bytes)) : Prop :=
  Forall2 (fun c mp => accepts c mp.1 = Some mp.2) l pairs.

Lemma assign_sound messages used l payloads :
  length used = length messages -> length l = length (unused used messages) ->
  assign_messages t messages used l = Some payloads ->
  exists pairs, map fst pairs ≡ₚ unused used messages /\ map snd pairs = payloads /\ assigned l pairs.
Proof.
  revert used payloads. induction l as [|c l IH]; intros used payloads Hlen Hl; simpl.
  { intros [= <-]. exists []. destruct (unused used messages); [|done]. repeat split; constructor. }
  pose proof (find_unused_spec (accepts c) [] used messages Hlen) as Hf. simpl in Hf.
  destruct (find_unused _ _ _ _) as [[j payload]|]; [|done]. simpl.
  destruct Hf as (k & l1 & m & l2 & -> & Hk & Hu & Hm & _ & Hr).
  destruct (assign_messages _ _ _ _) as [rest|] eqn:Ha; [|done]. intros [= <-].
  apply IH in Ha as (pairs & Hp & <- & Has).
  - exists ((m, payload) :: pairs). simpl. repeat split; [|by constructor].
    rewrite Hp, Hr, Hu. by apply Permutation_middle.
  - by rewrite length_insert.
  - rewrite Hu in Hl. rewrite Hr. simpl in Hl. rewrite length_app in *. simpl in Hl. lia.
Qed.

(** The call that has the message the greedy choice took takes ours instead. *)
Lemma assigned_swap l pairs m0 m1 c :
  is_Some (accepts c m0) -> is_Some (accepts c m1) -> assigned l pairs -> m1 ∈ map fst pairs ->
  exists pairs', m1 :: map fst pairs' ≡ₚ m0 :: map fst pairs /\ assigned l pairs'.
Proof.
  intros Hm0 Hm1 Ha. revert Hm0 Hm1. induction Ha as [|c' mp l pairs Hc Ha IH]; intros Hm0 Hm1 Hin; [by apply not_elem_of_nil in Hin|].
  simpl in Hin. apply elem_of_cons in Hin as [->|Hin].
  - assert (accepts c' m0 = accepts c m0) as Hb by (apply (accepts_block c' c mp.1); eauto).
    destruct Hm0 as [p0 Hm0]. exists ((m0, p0) :: pairs). simpl. split; [apply Permutation_swap|].
    constructor; [by simpl; rewrite Hb|done].
  - destruct (IH Hm0 Hm1 Hin) as (pairs' & Hp & Ha'). exists (mp :: pairs'). split; [|by constructor]. simpl.
    rewrite (Permutation_swap mp.1 m1), Hp. apply Permutation_swap.
Qed.

Lemma assign_complete messages used l pairs :
  length used = length messages -> map fst pairs ≡ₚ unused used messages -> assigned l pairs ->
  is_Some (assign_messages t messages used l).
Proof.
  revert used pairs. induction l as [|c l IH]; intros used pairs Hlen Hp Ha; simpl; [done|].
  apply Forall2_cons_inv_l in Ha as ([m0 p0] & pairs' & Hm0 & Ha & ->). simpl in Hm0, Hp.
  pose proof (find_unused_spec (accepts c) [] used messages Hlen) as Hf. simpl in Hf.
  destruct (find_unused _ _ _ _) as [[j payload]|].
  2:{ rewrite <- Hp in Hf. inversion Hf as [|? ? Hn]. congruence. }
  simpl. destruct Hf as (k & l1 & m1 & l2 & -> & Hk & Hu & Hm1 & _ & Hr). simpl.
  assert (exists pairs, map fst pairs ≡ₚ l1 ++ l2 /\ assigned l pairs) as (pairs & Hpairs & Has).
  { assert (m1 ∈ m0 :: map fst pairs') as Hin by (rewrite Hp, Hu; set_solver).
    apply elem_of_cons in Hin as [->|Hin].
    - exists pairs'. split; [|done]. apply (Permutation_cons_inv (a := m0)). by rewrite Hp, Hu, Permutation_middle.
    - destruct (assigned_swap l pairs' m0 m1 c) as (q & Hq & Has); [by eexists..|done|done|].
      exists q. split; [|done]. apply (Permutation_cons_inv (a := m1)). by rewrite Hq, Hp, Hu, Permutation_middle. }
  destruct (IH (<[k := true]> used) pairs) as [rest ->]; [by rewrite length_insert|by rewrite Hr|done|by eexists].
Qed.
End Assignment.

(** C16: a proposal on the hub is taken for the plan exactly when its messages can
    be assigned to the plan's calls one to one, every message carrying the ASG
    command of its call.  The code assigns greedily, which finds an assignment
    whenever there is one, whatever the order of the messages; the payloads it
    returns are those of the assigned messages, in the order of the calls. *)
Theorem matching_plan_spec `{GovAbi, MessageLib} proposal p :
  match matching_plan proposal p with
  | Some payloads => exists pairs, map fst pairs ≡ₚ ep_messages proposal /\ map snd pairs = payloads /\
      assigned (pp_ptype p) (calls p) pairs
  | None => ~ exists pairs, map fst pairs ≡ₚ ep_messages proposal /\ assigned (pp_ptype p) (calls p) pairs
  end.
Proof.
  unfold matching_plan. destruct (Nat.eqb_spec (length (ep_messages proposal)) (length (calls p))) as [Hlen|Hlen];
    cbn [negb].
  - destruct (assign_messages _ _ _ _) as [payloads|] eqn:Ha.
    + apply assign_sound in Ha; rewrite ?unused_none, ?length_replicate in *; done.
    + intros (pairs & Hp & Has). rewrite <- unused_none in Hp.
      destruct (assign_complete (pp_ptype p) (ep_messages proposal) (replicate (length (ep_messages proposal)) false)
        (calls p) pairs) as [? ?]; [by rewrite length_replicate|done|done|congruence].
  - intros (pairs & Hp & Has). apply Permutation_length in Hp. apply Forall2_length in Has.
    rewrite length_map in Hp. congruence.
Qed.

(** ** The proposal a run submits *)

Definition is_byte (x : Z) : Prop := 0 <= x < 256.

(** ABI parameters are read as they were written, and are bytes. *)
Class AbiLaws `{GovAbi} : Prop := {
  decode_encode_params c target calldata value eta :
    0 <= c < 2 ^ 256 -> 0 <= target < 2 ^ 160 -> Forall is_byte calldata -> 0 <= value < 2 ^ 256 -> 0 <= eta < 2 ^ 256 ->
    decode_params (encode_params c target calldata value eta) = Some (c, target, calldata, value, eta);
  encode_params_bytes c target calldata value eta :
    Forall is_byte calldata -> Forall is_byte (encode_params c target calldata value eta)
}.

Ltac div_lia := Z.to_euclidean_division_equations; lia.

(** A test that holds on a range, evaluated. *)
Lemma on_range (test : Z -> bool) lo len n :
  forallb test (seqZ lo len) = true -> lo <= n < lo + len -> test n = true.
Proof. intros Hall Hn. rewrite forallb_forall in Hall. apply Hall, list_elem_of_In, elem_of_seqZ. lia. Qed.

Lemma hex_value_digit n : 0 <= n < 16 -> hex_value (hex_digit n) = Some n.
Proof.
  intros Hn. pose proof (on_range (fun n => bool_decide (hex_value (hex_digit n) = Some n)) 0 16 n) as Hr.
  simpl in Hr. rewrite bool_decide_eq_true in Hr. apply Hr; [vm_compute; reflexivity|lia].
Qed.

Lemma hex_digit_x n : 0 <= n < 16 -> hex_digit n <> "x"%char.
Proof. intros Hn He. pose proof (hex_value_digit n Hn) as Hv. by rewrite He in Hv. Qed.

Lemma hex_decode_encode b : Forall is_byte b -> hex_decode (hex_encode b) = Some b.
Proof.
  induction 1 as [|x b Hx Hb IH]; [done|]. unfold is_byte in Hx. cbn [hex_encode hex_decode].
  rewrite !hex_value_digit by div_lia. simpl. rewrite IH. simpl. do 2 f_equal. div_lia.
Qed.

Lemma alloy_hex_encode b : Forall is_byte b -> alloy_hex_decode (hex_encode b) = Some b.
Proof.
  intros Hb. unfold alloy_hex_decode. replace (strip_prefix "0x" (hex_encode b)) with (@None string).
  { by apply hex_decode_encode. }
  destruct Hb as [|x b Hx Hb]; [done|]. unfold is_byte in Hx. cbn [hex_encode strip_prefix].
  destruct (Ascii.eqb_spec "0" (hex_digit (x / 16))); [|done].
  destruct (Ascii.eqb_spec "x" (hex_digit (x mod 16))) as [He|]; [|done].
  by destruct (hex_digit_x (x mod 16)); [div_lia|].
Qed.

(** How the LCD shows an execution without funds: its message as an object or
    as base64 text. *)
Inductive lcd_shows `{MessageLib} (sender contract : string) (msg : Json) : Json -> Prop :=
  | shows_message shown :
      (shown = msg /\ as_str msg = None \/
       exists text b, shown = JStr text /\ base64_decode text = Some b /\ json_of_bytes b = Some msg) ->
      lcd_shows sender contract msg
        (JObj [("@type", JStr "/cosmwasm.wasm.v1.MsgExecuteContract"); ("sender", JStr sender);
               ("contract", JStr contract); ("msg", shown); ("funds", JArr [])]).

(** The calls of a plan come from one configuration file. *)
Definition resolved_from `{ConfigLib} (config : ChainsConfig) (c : EdgeCall) : Prop :=
  exists chain asg cfg mnemonic, resolve_with_asg config chain asg = Ok cfg /\
    ed_cfg c = mkResolved mnemonic (rc_edge_axelar_id cfg) (rc_asg_address cfg) (rc_gateway_address cfg)
      (rc_its_address cfg) (rc_edge_rpc cfg) (rc_multisig_prover cfg) (rc_axelar_rpc cfg) (rc_axelarnet_gateway cfg)
      (rc_gov_module cfg) (rc_lcd cfg) (rc_chain_id cfg) (rc_fee_denom cfg) (rc_gas_price cfg)
      (rc_deposit_amount cfg) (rc_expedited_deposit_amount cfg).

(** What the hub side of a configuration is. *)
Definition hub_route (c : ResolvedConfig) : string * string * string * string :=
  (rc_gov_module c, rc_axelarnet_gateway c, rc_chain_id c, rc_lcd c).

Lemma resolved_hub `{ConfigLib} config c c' :
  resolved_from config c -> resolved_from config c' -> hub_route (ed_cfg c) = hub_route (ed_cfg c').
Proof.
  assert (forall chain asg cfg, resolve_with_asg config chain asg = Ok cfg ->
    Some (rc_gov_module cfg) = ax_governance_address (cfg_axelar config) /\
    Ok (rc_axelarnet_gateway cfg) = global_contract_address (cfg_axelar config) "AxelarnetGateway" /\
    exists params, Ok params = cosmos_tx_params (cfg_axelar config) /\ rc_chain_id cfg = tp_chain_id params /\
      rc_lcd cfg = tp_lcd params) as Hr.
  { intros chain asg cfg. unfold resolve_with_asg. rewrite result_bind_ok. intros (chain_cfg & _ & Hb). revert Hb.
    rewrite result_bind_ok. intros (asg_address & _ & Hb). revert Hb.
    rewrite result_bind_ok. intros (gateway & _ & Hb). revert Hb.
    rewrite result_bind_ok. intros (rpc & _ & Hb). revert Hb. rewrite result_bind_ok. intros (arpc & _ & Hb). revert Hb.
    rewrite result_bind_ok. intros (net & Hnet & Hb). revert Hb. rewrite result_bind_ok. intros (gov & Hgov & Hb). revert Hb.
    rewrite result_bind_ok. intros (params & Hp & [= <-]). simpl. apply ok_or_ok in Hgov. eauto 10. }
  intros (ch & asg & cfg & mn & Hc & ->) (ch' & asg' & cfg' & mn' & Hc' & ->). unfold hub_route. simpl.
  destruct (Hr _ _ _ Hc) as (Hg & Hn & ps & Hp & Hi & Hl), (Hr _ _ _ Hc') as (Hg' & Hn' & ps' & Hp' & Hi' & Hl').
  assert (ps = ps') as -> by congruence. congruence.
Qed.

Section Roundtrip.
Context `{GovAbi, MessageLib, !AbiLaws}.

Lemma find_unused_first f k used m payload messages rest :
  length messages = k -> f m = Some payload ->
  find_unused f (replicate k true ++ false :: used) 0 (messages ++ m :: rest) = Some (k, payload).
Proof.
  intros Hk Hm.
  assert (forall pre l : list Json, length l + length pre = k -> find_unused f (replicate k true ++ false :: used) (length pre)
    (l ++ m :: rest) = Some (k, payload))%nat as Hg; [|by apply (Hg []); simpl; lia].
  clear messages Hk. intros pre l. revert pre. induction l as [|x l IH]; intros pre Hl; simpl in *.
  - subst k. rewrite list_lookup_middle by by rewrite length_replicate. simpl. by rewrite Hm.
  - rewrite lookup_app_l, lookup_replicate_2 by (rewrite ?length_replicate; lia). simpl.
    apply (IH (x :: pre)). simpl. lia.
Qed.

Lemma assign_in_order t messages l shown :
  assigned t l shown ->
  assign_messages t (messages ++ map fst shown) (replicate (length messages) true ++ replicate (length shown) false) l =
    Some (map snd shown).
Proof.
  intros Ha. revert messages. induction Ha as [|c mp l shown Hc Ha IH]; intros messages; [done|].
  simpl. erewrite find_unused_first by done. simpl.
  replace (<[length messages:=true]> (replicate (length messages) true ++ false :: replicate (length shown) false))
    with (replicate (length (messages ++ [mp.1])) true ++ replicate (length shown) false).
  - specialize (IH (messages ++ [mp.1])). rewrite <- app_assoc in IH. simpl in IH. by rewrite IH.
  - rewrite insert_app_r_alt by by rewrite length_replicate. rewrite length_replicate, Nat.sub_diag. simpl.
    rewrite length_app, replicate_add, <- app_assoc. done.
Qed.

Lemma shown_payload t c sender contract eta shown :
  rc_gov_module (ed_cfg c) = sender -> rc_axelarnet_gateway (ed_cfg c) = contract ->
  0 <= ed_target c < 2 ^ 160 -> Forall is_byte (ed_calldata c) -> 0 <= eta < 2 ^ 64 ->
  let payload := encode_governance_payload (command t) (ed_target c) (ed_calldata c) eta in
  lcd_shows sender contract (call_contract_msg c payload) shown ->
  call_payload t c shown = Some payload.
Proof.
  intros Hs Hc Ht Hb He payload [msg Hmsg]. unfold call_payload, message_payload.
  change (execute_message_of _) with (Some (mkExecuteMessage "/cosmwasm.wasm.v1.MsgExecuteContract" sender contract msg [])).
  cbn [mbind option_bind em_type em_sender em_contract em_funds em_msg].
  rewrite !bool_decide_true by done. cbn [negb orb].
  assert (message_call msg = Some (mkCallContract (rc_edge_axelar_id (ed_cfg c)) (rc_asg_address (ed_cfg c))
    (hex_encode payload))) as ->.
  { destruct Hmsg as [[-> _]|(text & b & -> & Hd & Hj)]; [done|]. simpl. rewrite Hd. simpl. by rewrite Hj. }
  cbn [mbind option_bind cl_destination_chain cl_destination_address cl_payload].
  rewrite bool_decide_true by done. rewrite eq_ignore_ascii_case_refl. cbn [negb orb].
  rewrite alloy_hex_encode by by apply encode_params_bytes. cbn [mbind option_bind].
  assert (decode_params payload = Some (command t, ed_target c, ed_calldata c, 0, eta)) as ->.
  { apply decode_encode_params; try done; destruct t; simpl; lia. }
  cbn [mbind option_bind].
  by rewrite !Z.eqb_refl, bool_decide_true by done.
Qed.

Lemma encoded_eta_range args t asg now :
  (forall eta, pa_eta args = Some eta -> 0 <= eta < 2 ^ 64) -> 0 <= compute_eta t args asg now < 2 ^ 64.
Proof.
  intros Ha. unfold compute_eta. destruct t; [lia|]. destruct (pa_eta args) as [eta|]; [by apply Ha|].
  unfold wrapping_add. apply Z.mod_pos_bound. lia.
Qed.
End Roundtrip.

(** For a plan resolved from one configuration file, the messages built for it,
    as the LCD shows them, match the plan, with the payloads in the order of the
    calls. *)
Lemma recognize_submitted `{GovAbi, MessageLib, ConfigLib, !AbiLaws} config args now p proposal :
  Forall (resolved_from config) (calls p) ->
  Forall (fun c => 0 <= ed_target c < 2 ^ 160 /\ Forall is_byte (ed_calldata c)) (calls p) ->
  (forall eta, pa_eta args = Some eta -> 0 <= eta < 2 ^ 64) ->
  let payloads := map (fun c => en_payload (encode_call args (pp_ptype p) now c)) (calls p) in
  Forall2 (fun m shown => lcd_shows (rc_gov_module (hub p)) (rc_axelarnet_gateway (hub p)) m shown)
    (zip_with call_contract_msg (calls p) payloads) (ep_messages proposal) ->
  matching_plan proposal p = Some payloads.
Proof.
  intros Hcfg Hwf Heta payloads Hshown.
  assert (assigned (pp_ptype p) (calls p) (zip (ep_messages proposal) payloads) /\
          length (ep_messages proposal) = length (calls p)) as [Ha Hlen].
  { assert (resolved_from config (pp_first p)) as Hfirst by by inversion Hcfg.
    revert Hshown. unfold payloads. generalize (ep_messages proposal) as messages.
    induction (calls p) as [|c l IH]; intros messages Hshown; simpl in *.
    { inversion Hshown. split; [constructor|done]. }
    inversion Hshown as [|m shown ms messages' Hs Hrest]; subst. simpl.
    inversion Hcfg as [|? ? Hc Hcfg']; subst. inversion Hwf as [|? ? [Ht Hb] Hwf']; subst.
    destruct (IH Hcfg' Hwf' messages' Hrest) as [Ha Hl]. split; [|simpl; by rewrite Hl]. constructor; [|done]. simpl.
    pose proof (resolved_hub config c (pp_first p) Hc Hfirst) as Hr. unfold hub_route in Hr. injection Hr as Hg Hn _ _.
    eapply shown_payload; [exact Hg|exact Hn|done|done|by apply encoded_eta_range|exact Hs]. }
  unfold matching_plan. rewrite Hlen, Nat.eqb_refl. cbn [negb].
  pose proof (assign_in_order (pp_ptype p) [] _ _ Ha) as Has. simpl in Has.
  assert (length (ep_messages proposal) = length payloads) as Hp by (unfold payloads; by rewrite length_map).
  rewrite fst_zip, snd_zip, length_zip_with, <- Hp, Nat.min_id, Hlen in Has by lia. exact Has.
Qed.

(** ** Markers *)

Class CmpLaws {A} (cmp : A -> A -> comparison) : Prop := {
  cmp_eq x y : cmp x y = Eq <-> x = y;
  cmp_opp x y : cmp y x = CompOpp (cmp x y);
  cmp_trans x y z : cmp x y = Lt -> cmp y z = Lt -> cmp x z = Lt
}.

#[export] Instance Z_cmp : CmpLaws Z.compare.
Proof.
  split; [apply Z.compare_eq_iff|intros x y; apply Z.compare_antisym|]. intros x y z. rewrite !Z.compare_lt_iff. lia.
Qed.

#[export] Instance lex_cmp {A} (cmp : A -> A -> comparison) `{!CmpLaws cmp} : CmpLaws (lex cmp).
Proof.
  split.
  - intros a. induction a as [|x a IH]; intros [|y b]; simpl; try done.
    destruct (cmp x y) eqn:E; [apply cmp_eq in E; rewrite IH; naive_solver|..];
      (split; [done|]; intros [= -> ->]; by rewrite (proj2 (cmp_eq y y)) in E).
  - intros a. induction a as [|x a IH]; intros [|y b]; simpl; try done.
    rewrite (cmp_opp x y), IH. by destruct (cmp x y).
  - intros a. induction a as [|x a IH]; intros [|y b] [|z c]; simpl; try done.
    destruct (cmp x y) eqn:Exy; [apply cmp_eq in Exy as ->|..]; try done.
    + by destruct (cmp y z); try done; apply IH.
    + destruct (cmp y z) eqn:Eyz; try done; intros _ _; [apply cmp_eq in Eyz as <-; by rewrite Exy|].
      by rewrite (cmp_trans x y z).
Qed.

Lemma string_bytes_inj a b : string_bytes a = string_bytes b -> a = b.
Proof.
  revert b. induction a as [|x a IH]; intros [|y b]; simpl; try done. intros [= Hx Hab]. f_equal; [|by apply IH].
  apply N2Z.inj in Hx. by rewrite <- (ascii_N_embedding x), Hx, ascii_N_embedding.
Qed.

Lemma key_columns_inj a b : key_columns a = key_columns b -> a = b.
Proof.
  destruct a as [[[e1 a1] t1] c1], b as [[[e2 a2] t2] c2]. unfold key_columns.
  intros [= He%string_bytes_inj Ha%string_bytes_inj Ht Hc]. congruence.
Qed.

#[export] Instance call_key_le_total : Total call_key_le.
Proof.
  intros a b. unfold call_key_le. rewrite (cmp_opp (key_columns a) (key_columns b)).
  destruct (lex _ (key_columns a) _); simpl; [left|left|right]; done.
Qed.
#[export] Instance call_key_le_trans : Transitive call_key_le.
Proof.
  intros a b c. unfold call_key_le.
  destruct (lex _ (key_columns a) (key_columns b)) eqn:Eab; [apply cmp_eq in Eab as ->; done| |done].
  destruct (lex _ (key_columns b) (key_columns c)) eqn:Ebc; [apply cmp_eq in Ebc as <-; by rewrite Eab| |done].
  by rewrite (cmp_trans _ _ _ Eab Ebc).
Qed.
#[export] Instance call_key_le_antisymm : AntiSymm (=) call_key_le.
Proof.
  intros a b. unfold call_key_le. rewrite (cmp_opp (key_columns a) (key_columns b)).
  destruct (lex _ (key_columns a) _) eqn:E; simpl; try done. intros _ _. by apply cmp_eq, key_columns_inj in E.
Qed.

Lemma sorted_keys l l' : l ≡ₚ l' <-> merge_sort call_key_le l = merge_sort call_key_le l'.
Proof.
  split; intros Hp.
  - apply (Sorted_unique call_key_le); [apply Sorted_merge_sort, _..|]. by rewrite !merge_sort_Permutation.
  - by rewrite <- (merge_sort_Permutation call_key_le l), Hp, merge_sort_Permutation.
Qed.

Lemma hex_encode_inj a b : Forall is_byte a -> Forall is_byte b -> hex_encode a = hex_encode b -> a = b.
Proof. intros Ha%hex_decode_encode Hb%hex_decode_encode He. congruence. Qed.

Lemma key_json_inj `{ConfigLib} l l' :
  (forall a b, address_json a = address_json b -> a = b) ->
  Forall (fun k : CallKey => Forall is_byte k.2) l -> Forall (fun k : CallKey => Forall is_byte k.2) l' ->
  map (fun k => JArr (key_json k)) l = map (fun k => JArr (key_json k)) l' -> l = l'.
Proof.
  intros Haddr Hl. revert l'. induction Hl as [|[[[e1 a1] t1] c1] l Hc1 Hl IH]; intros l' Hl';
    destruct Hl' as [|[[[e2 a2] t2] c2] l' Hc2 Hl']; try done.
  cbn [map key_json]. intros [= -> -> Ht Hc Hs]. simpl in *.
  rewrite (Haddr _ _ Ht), (hex_encode_inj c1 c2) by done. f_equal. by apply IH.
Qed.

(** The text that is hashed to name a plan. *)
Definition marker_text `{ConfigLib, MessageLib} (p : ProposalPlan) : Json :=
  JArr [JStr (rc_chain_id (hub p)); JStr (rc_axelarnet_gateway (hub p)); JStr (rc_gov_module (hub p));
        JNum (command (pp_ptype p));
        JArr (map (fun k => JArr (key_json k)) (merge_sort call_key_le (map call_key (calls p))))].

(** The marker of a plan depends on the hub, on the command and on every call,
    and not on the order of the calls.  Two plans have one marker exactly when
    their hub route and command are the same and their calls, taken without the
    case of the ASG address, are the same up to order (the texts of the two
    plans not colliding under the hash). *)
Theorem plan_marker_spec `{EvmLib, ConfigLib, MessageLib} p p' :
  (keccak256 (json_bytes (marker_text p)) = keccak256 (json_bytes (marker_text p')) -> marker_text p = marker_text p') ->
  (forall a b, address_json a = address_json b -> a = b) ->
  Forall (fun c => Forall is_byte (ed_calldata c)) (calls p ++ calls p') ->
  plan_marker p = plan_marker p' <->
  (rc_chain_id (hub p), rc_axelarnet_gateway (hub p), rc_gov_module (hub p), pp_ptype p) =
    (rc_chain_id (hub p'), rc_axelarnet_gateway (hub p'), rc_gov_module (hub p'), pp_ptype p') /\
  map call_key (calls p) ≡ₚ map call_key (calls p').
Proof.
  intros Hhash Haddr Hb. split.
  - unfold plan_marker. intros [= Hk]. specialize (Hhash Hk). unfold marker_text in Hhash.
    injection Hhash as Hc Hg Hm Ht Hs.
    assert (pp_ptype p = pp_ptype p') as -> by (by destruct (pp_ptype p), (pp_ptype p')). split; [congruence|].
    apply Forall_app in Hb as [Hb Hb'].
    apply sorted_keys, key_json_inj; [done|rewrite merge_sort_Permutation; by apply Forall_map..|exact Hs].
  - intros [[= Hc Hg Hm Ht] Hp]. unfold plan_marker. apply sorted_keys in Hp. by rewrite Hc, Hg, Hm, Ht, Hp.
Qed.

(** ** The choice of edge chains *)

(** What a candidate has passed. *)
Definition eligible `{HashOrder} (config : ChainsConfig) (network : Network) (skip : list string) (trusted : string)
    (chain : RegisteredChain) (c : Candidate) : Prop :=
  rg_frozen chain = false /\ eq_ignore_ascii_case (rg_chain chain) trusted = false /\
  cd_its_edge c = rg_its_edge_contract chain /\
  exists cfg, cfg_chains config !! cd_key c = Some cfg /\
    eq_ignore_ascii_case (axelar_id_or cfg (cd_key c)) (rg_chain chain) = true /\
    cc_chain_type cfg = Some "evm" /\ is_deprecated network (cd_key c) = false /\
    Forall (fun s => eq_ignore_ascii_case s (cd_key c) = false) skip.

Lemma hash_iter_lookup `{HashOrder} {V} (m : gmap string V) k v : (k, v) ∈ hash_iter m <-> m !! k = Some v.
Proof. by rewrite hash_iter_perm, elem_of_map_to_list. Qed.

Lemma classify_one_spec `{HashOrder} config network skip trusted chain :
  match classify_one config network skip trusted chain with
  | inr c => eligible config network skip trusted chain c
  | inl x => xc_chain x = rg_chain chain /\
      (NoDup (map (fun '(key, cfg) => map to_ascii_lowercase (String.list_ascii_of_string (axelar_id_or cfg key)))
                (hash_iter (cfg_chains config))) ->
       forall c, ~ eligible config network skip trusted chain c)
  end.
Proof.
  unfold classify_one, eligible.
  destruct (rg_frozen chain) eqn:Hf; [split; [done|]; naive_solver|].
  destruct (eq_ignore_ascii_case (rg_chain chain) trusted) eqn:Ht; [split; [done|]; naive_solver|].
  destruct (List.find _ _) as [[key cfg]|] eqn:Hfind.
  2:{ split; [done|]. intros _ c (_ & _ & _ & cfg & Hk & He & _).
      apply hash_iter_lookup, list_elem_of_In in Hk. by pose proof (find_none _ _ Hfind _ Hk) as Hn; simpl in Hn; rewrite He in Hn. }
  apply find_some in Hfind as [Hin Hid]. apply list_elem_of_In in Hin.
  assert (NoDup (map (fun '(key, cfg) => map to_ascii_lowercase (String.list_ascii_of_string (axelar_id_or cfg key)))
    (hash_iter (cfg_chains config))) -> forall key' cfg', cfg_chains config !! key' = Some cfg' ->
    eq_ignore_ascii_case (axelar_id_or cfg' key') (rg_chain chain) = true -> key' = key /\ cfg' = cfg) as Hone.
  { intros Hnd key' cfg' Hk' Hid'. apply hash_iter_lookup in Hk'.
    rewrite eq_ignore_ascii_case_true in Hid, Hid'. apply list_elem_of_lookup in Hin as [i Hi], Hk' as [j Hj].
    assert (i = j) as ->; [|rewrite Hi in Hj; by injection Hj as -> ->].
    eapply NoDup_lookup; [exact Hnd|rewrite list_lookup_fmap, Hi; simpl; reflexivity|].
    rewrite list_lookup_fmap, Hj. simpl. congruence. }
  destruct (decide (cc_chain_type cfg = Some "evm")) as [Hty|Hty];
    [rewrite bool_decide_true by done|rewrite bool_decide_false by done]; cbn [negb].
  2:{ split; [done|]. intros Hnd c (_ & _ & _ & cfg' & Hk & He & Hty' & _). destruct (Hone Hnd _ _ Hk He) as [_ ->]. done. }
  destruct (is_deprecated network key) eqn:Hd.
  { split; [done|]. intros Hnd c (_ & _ & _ & cfg' & Hk & He & _ & Hd' & _). destruct (Hone Hnd _ _ Hk He) as [Hkey _]. congruence. }
  destruct (existsb _ skip) eqn:Hs.
  { split; [done|]. intros Hnd c (_ & _ & _ & cfg' & Hk & He & _ & _ & Hs'). destruct (Hone Hnd _ _ Hk He) as [Hkey _]. rewrite Hkey in Hs'.
    apply existsb_exists in Hs as (s & Hin' & Hs). rewrite Forall_forall in Hs'.
    specialize (Hs' s Hin'). simpl in *. congruence. }
  repeat split; try done. exists cfg. repeat split; try done; [by apply hash_iter_lookup|].
  apply Forall_forall. intros s Hin'. destruct (eq_ignore_ascii_case s key) eqn:E; [|done].
  rewrite (proj2 (existsb_exists _ _)) in Hs; [done|]. by exists s.
Qed.

Definition chosen (s : RegisteredChain * (Exclusion + Candidate)) : option Candidate :=
  match s.2 with inr c => Some c | inl _ => None end.
Definition left_out (s : RegisteredChain * (Exclusion + Candidate)) : option Exclusion :=
  match s.2 with inl x => Some x | inr _ => None end.

(** [--chains all] accounts for every chain of the ITS Hub's registry: each
    entry is either a candidate, and then it is live, is not the chain being
    trusted, is an EVM chain of the configuration under its own name, is not
    discontinued and was not skipped, or it is excluded under its own name, and
    then it fails one of these tests (the names of the configuration being
    distinct up to case).  Candidates and exclusions keep the registry's order. *)
Theorem classify_spec `{HashOrder} registry config network skip trusted :
  NoDup (map (fun '(key, cfg) => map to_ascii_lowercase (String.list_ascii_of_string (axelar_id_or cfg key)))
           (hash_iter (cfg_chains config))) ->
  exists sorted : list (RegisteredChain * (Exclusion + Candidate)),
    map fst sorted = registry /\
    classify registry config network skip trusted = (omap chosen sorted, omap left_out sorted) /\
    Forall (fun s => match s.2 with
                     | inr c => eligible config network skip trusted s.1 c
                     | inl x => xc_chain x = rg_chain s.1 /\ forall c, ~ eligible config network skip trusted s.1 c
                     end) sorted.
Proof.
  intros Hnd. exists (map (fun chain => (chain, classify_one config network skip trusted chain)) registry).
  split; [by rewrite map_map, map_id|]. split.
  - induction registry as [|chain registry IH]; [done|]. cbn [classify map]. rewrite IH. simpl. unfold chosen at 2, left_out at 2. simpl.
    by destruct (classify_one _ _ _ _ _).
  - apply Forall_map, Forall_forall. intros chain _. simpl.
    pose proof (classify_one_spec config network skip trusted chain) as Hs.
    destruct (classify_one _ _ _ _ _); [|done]. destruct Hs as [? Hs]. auto.
Qed.
