(* ===== verification/ProposeNet.v ===== *)
(** * What a proposal reads (http.rs, cosmos/rpc.rs, its_hub.rs, evm/its_trust.rs;
    commands/propose/recovery.rs, monitor.rs, relay_message.rs,
    relay_consensus.rs, helpers.rs, targets.rs, signer.rs)

    Programs over an environment that answers HTTP requests, contract views and
    the operator's prompts: the search for a proposal that already exists, the
    watch over its vote, the block searches of the relay, the verification of an
    ASG and the choice of targets.  They change nothing outside the process. *)

From Stdlib Require Import Ascii.
From Stdlib Require String.
From S2P Require Import Prelude Types Retry Journal Chain Plan Config Intent Json Cosmos Target CosmosSteps LoadTest LoadNet LoadDestinations LoadEngine Propose.

(** ** Interfaces *)

(** A failed contract view, by what the code inspects. *)
Inductive CallError : Type := Reverted | OtherFailure.

(** The clients of the hub and of the edge chains (by RPC URL), the clock in
    nanoseconds, the views of the contracts, signed EVM submissions, and the
    file system.  Nothing is said of what they answer. *)
Class GovEnv (E : Type) : Type := {
  gov_poll :: PollEnv E;
  edge_poll : string -> PollEnv E;
  utc_now : E -> Z;
  load_chains_config : E -> result ChainsConfig * E;
  (** POST with a JSON body, and the JSON of the answer. *)
  http_post : string -> Json -> E -> result Json * E;
  edge_timestamp : string -> Z -> E -> result (option Z) * E;
  edge_code : string -> Address -> E -> result bytes * E;
  edge_balance : string -> Address -> E -> result Z * E;
  asg_operator : string -> Address -> E -> result Address * E;
  asg_governance_chain : string -> Address -> E -> result string * E;
  asg_governance_address : string -> Address -> E -> result string * E;
  asg_minimum_delay : string -> Address -> E -> result Z * E;
  asg_operator_approved : string -> Address -> Address -> bytes -> E -> result bool * E;
  asg_proposal_eta : string -> Address -> Address -> bytes -> E -> result Z * E;
  its_owner_view : string -> Address -> E -> result Address * E;
  its_is_trusted_chain : string -> Address -> string -> E -> (CallError + bool) * E;
  its_trusted_address : string -> Address -> string -> E -> (CallError + string) * E;
  gateway_message_executed : string -> Address -> string -> string -> E -> result bool * E;
  gateway_message_approved : string -> Address -> string -> string -> string -> Address -> B256 -> E -> result bool * E;
  gateway_command_executed : string -> Address -> B256 -> E -> result bool * E;
  gateway_call_approved : string -> Address -> B256 -> string -> string -> Address -> B256 -> E -> result bool * E;
  (** Fill, sign and send from an address; the receipt within the timeout. *)
  edge_send : string -> Address -> Address -> bytes -> E -> result B256 * E;
  edge_receipt : string -> B256 -> E -> result () * E;
  fs_read : E -> result () * E;
  fs_make_dir : E -> result () * E;
  fs_sync : E -> result () * E;
  fs_lock : string -> E -> result () * E
}.

(** A [poll] loop of the code, cut by a fuel. *)
Definition seconds (n : Z) : Z := n * 1000.

(** ** HTTP (http.rs) *)

Section Http.
Context {E : Type} `{GovEnv E, WebText, UrlLib}.

Inductive ReadFailure : Type := NoStatus | WithStatus (status : Z).
Definition retryable (f : ReadFailure) : bool :=
  match f with
  | NoStatus => true
  | WithStatus status => (500 <=? status) && (status <? 600) || (status =? 429) || (status =? 408)
  end.

Definition read_json {T} (decode : Json -> option T) (response : option (Z * option string)) : ReadFailure + T :=
  match response with
  | None => inl NoStatus
  | Some (status, body) =>
      if (400 <=? status) && (status <? 600) then inl (WithStatus status)
      else match text ← body; v ← parse_json text; decode v with
           | Some t => inr t
           | None => inl NoStatus
           end
  end.

(** The attempts from [attempt] on, [remaining] of them. *)
Fixpoint get_attempts {T} (decode : Json -> option T) (url : string) (attempt : Z) (remaining : nat) : M E T :=
  match remaining with
  | O => throw (Failed "read request exhausted retries")
  | S remaining =>
      response ← request (http_get url);
      match read_json decode response with
      | inr t => mret t
      | inl failure =>
          if negb (retryable failure) || (attempt =? 4) then throw (Failed "read request failed")
          else
            request (fun e => ((), poll_sleep (seconds (2 ^ attempt)) e));;
            get_attempts decode url (attempt + 1) remaining
      end
  end.

Definition get_json {T} (decode : Json -> option T) (url : string) : M E T :=
  lift (ensure_ok (url_ok url) "invalid url");;
  get_attempts decode url 0 5.

(** [client().get(url).send().await?.json().await?]. *)
Definition get_raw (url : string) : M E Json :=
  response ← request (http_get url);
  lift (ok_or ('(_, body) ← response; text ← body; parse_json text) "request failed").

Definition lcd_query_proposal (lcd : string) (id : Z) : M E Json :=
  v ← get_json Some (lcd +:+ "/cosmos/gov/v1/proposals/" +:+ to_dec id);
  lift (ok_or (get_key "proposal" v) "no 'proposal' field in response").

Definition lcd_query_balance (lcd address denom : string) : M E Z :=
  v ← get_raw (lcd +:+ "/cosmos/bank/v1beta1/balances/" +:+ address +:+ "/by_denom?denom=" +:+ denom);
  balance ← lift (ok_or (struct_of (opt_field "balance" (struct_of (opt_field "amount" as_str))) v)
                    "invalid balance response");
  amount ← lift (ok_or balance "balance response missing balance");
  text ← lift (ok_or amount "missing numeric LCD field");
  lift (ok_or (parse_uint 128 text) "invalid numeric LCD field").

Definition account_fields : Json -> option (option string * option string) := struct_of (fun v =>
  n ← opt_field "account_number" as_str v; s ← opt_field "sequence" as_str v; Some (n, s)).
Definition lcd_account (lcd address : string) : M E (Z * Z) :=
  v ← get_raw (lcd +:+ "/cosmos/auth/v1beta1/accounts/" +:+ address);
  account ← lift (ok_or (get_key "account" v) "no account in response");
  fields ← lift (ok_or (account_fields account) "invalid account response");
  account_number ← lift (ok_or (text ← fields.1; parse_uint 64 text) "invalid numeric LCD field");
  sequence ← lift (ok_or (text ← fields.2; parse_uint 64 text) "invalid numeric LCD field");
  mret (account_number, sequence).
End Http.

(** ** An existing proposal (recovery.rs) *)

Section History.
Context {E : Type} `{GovEnv E, WebText, UrlLib, GovAbi, MessageLib}.

Definition load_proposal (lcd : string) (id : Z) : M E ExistingProposal :=
  v ← lcd_query_proposal lcd id;
  lift (ok_or (existing_of v) "invalid governance proposal response").

Fixpoint first_match (p : ProposalPlan) (l : list ExistingProposal) : option (ExistingProposal * list bytes) :=
  match l with
  | [] => None
  | proposal :: l =>
      match matching_plan proposal p with
      | Some payloads => Some (proposal, payloads)
      | None => first_match p l
      end
  end.

Definition page_url (lcd next_key : string) : string :=
  with_query (trim_slashes lcd +:+ "/cosmos/gov/v1/proposals")
    [("pagination.limit", "20"); ("pagination.reverse", "true"); ("pagination.key", next_key)].

Definition read_page (lcd next_key : string) : M E ProposalPage :=
  lift (ensure_ok (url_ok (trim_slashes lcd +:+ "/cosmos/gov/v1/proposals")) "invalid url");;
  map_err (Failed "cannot check existing proposals; refusing to submit a possible duplicate")
    (get_json page_of (page_url lcd next_key)).

(** The pages from a cursor on. *)
Fixpoint search_pages (fuel : nat) (p : ProposalPlan) (next_key : string) : M E (option (ExistingProposal * list bytes)) :=
  match fuel with
  | O => throw OutOfFuel
  | S fuel =>
      page ← read_page (rc_lcd (hub p)) next_key;
      match first_match p (pg_proposals page) with
      | Some found => mret (Some found)
      | None =>
          match pg_next_key page with
          | None | Some EmptyString => mret None
          | Some key =>
              ensure (negb (bool_decide (key = next_key))) "LCD repeated its pagination cursor; refusing to submit";;
              search_pages fuel p key
          end
      end
  end.

Definition find_existing (fuel : nat) (p : ProposalPlan) (args : ProposeArgs)
    : M E (option (ExistingProposal * list bytes)) :=
  match pa_proposal_id args with
  | Some id =>
      proposal ← load_proposal (rc_lcd (hub p)) id;
      payloads ← lift (ok_or (matching_plan proposal p) "proposal does not match this governance call");
      mret (Some (proposal, payloads))
  | None => if pa_new_proposal args then mret None else search_pages fuel p ""
  end.

(** *** The vote (monitor.rs) *)

Inductive ProposalOutcome : Type := Passed | RejectedVote | FailedVote.

Definition COSMOS_PROPOSAL_POLL_INTERVAL : Z := 10.

Fixpoint monitor_proposal (fuel : nat) (lcd : string) (id : Z) : M E ProposalOutcome :=
  match fuel with
  | O => throw OutOfFuel
  | S fuel =>
      proposal ← lcd_query_proposal lcd id;
      let status := default "UNKNOWN" (as_str (index proposal "status")) in
      if decide (status = "PROPOSAL_STATUS_PASSED") then mret Passed
      else if decide (status = "PROPOSAL_STATUS_REJECTED") then mret RejectedVote
      else if decide (status = "PROPOSAL_STATUS_FAILED") then mret FailedVote
      else
        request (fun e => ((), poll_sleep (seconds COSMOS_PROPOSAL_POLL_INTERVAL) e));;
        monitor_proposal fuel lcd id
  end.

Definition wait_for_passed (fuel : nat) (lcd : string) (id : Z) : M E () :=
  outcome ← monitor_proposal fuel lcd id;
  match outcome with
  | Passed => mret ()
  | RejectedVote | FailedVote => throw (Failed "proposal reached a terminal failure")
  end.
End History.

(** ** Block searches of the relay (relay_message.rs, relay_consensus.rs) *)

Section Blocks.
Context {E : Type} `{GovEnv E, WebText, UrlLib, GovAbi, EvmLib}.

(** Both searches double their step down from a block, then halve an
    interval; [before] reads a block and compares its time.  Heights are [u64],
    so 64 doublings and 64 halvings are enough. *)
Definition SEARCH_ROUNDS : nat := 66.

Fixpoint halve (before : Z -> M E bool) (fuel : nat) (lower upper : Z) : M E Z :=
  match fuel with
  | O => throw OutOfFuel
  | S fuel =>
      if lower + 1 <? upper then
        let mid := lower + (upper - lower) / 2 in
        b ← before mid;
        if (b : bool) then halve before fuel mid upper else halve before fuel lower mid
      else mret upper
  end.

(** *** [relay_consensus::first_block_at] *)

Definition timestamp (rpc : string) (number : Z) : M E Z :=
  found ← (edge_timestamp rpc number : M E (option Z));
  lift (ok_or found "edge block unavailable").

Fixpoint gallop (before : Z -> M E bool) (fuel : nat) (lower upper distance : Z) : M E (Z * Z) :=
  match fuel with
  | O => throw OutOfFuel
  | S fuel =>
      if lower <? upper then
        let probe := saturating_sub upper distance in
        b ← before probe;
        if (b : bool) then mret (probe, upper)
        else gallop before fuel lower probe (saturating_mul 64 distance 2)
      else mret (lower, upper)
  end.

Definition NANOS : Z := 1000000000.

Definition first_block_at (rpc : string) (time : Z) : M E Z :=
  let want := Z.max (time / NANOS) 0 in
  latest ← LoadDestinations.call (get_block_number (PollEnv := edge_poll rpc));
  let before n := t ← timestamp rpc n; mret (t <? want) in
  late ← before latest;
  if (late : bool) then mret latest
  else
    bounds ← gallop before SEARCH_ROUNDS 0 latest 64;
    halve before SEARCH_ROUNDS bounds.1 bounds.2.

(** *** [relay_message::find_governance_message] *)

Record GovMessage : Type := mkGovMessage {
  gm_message_id : string;
  gm_source_chain : string;
  gm_source_address : string
}.

Definition block_time (rpc : string) (height : Z) : M E Z :=
  v ← get_json Some (rpc +:+ "/block?height=" +:+ to_dec height);
  text ← lift (ok_or (t ← pointer "/result/block/header/time" v; as_str t) "block unavailable");
  lift (ok_or (parse_rfc3339 text) "invalid block time").

Fixpoint descend (before : Z -> M E bool) (fuel : nat) (lower upper distance : Z) : M E (Z * Z) :=
  match fuel with
  | O => throw OutOfFuel
  | S fuel =>
      if 1 <? lower then
        b ← before lower;
        if (b : bool) then mret (lower, upper)
        else descend before fuel (Z.max (saturating_sub lower distance) 1) lower (saturating_mul 64 distance 2)
      else mret (lower, upper)
  end.

Definition execution_height (rpc : string) (latest end_ : Z) : M E Z :=
  let before n := t ← block_time rpc n; mret (t <? end_) in
  bounds ← descend before SEARCH_ROUNDS latest latest 64;
  halve before SEARCH_ROUNDS bounds.1 bounds.2.

Fixpoint trim_0x (fuel : nat) (s : string) : string :=
  match fuel, strip_prefix "0x" s with
  | S fuel, Some rest => trim_0x fuel rest
  | _, _ => s
  end.

Definition event_attr (attrs : list Json) (key : string) : option string :=
  a ← List.find (fun a => bool_decide (get_key "key" a ≫= as_str = Some key)) attrs;
  get_key "value" a ≫= as_str.

Definition match_contract_called (event : Json) (want_hash : string) (cfg : ResolvedConfig) : option GovMessage :=
  attrs ← get_key "attributes" event ≫= as_array;
  hash ← event_attr attrs "payload_hash";
  contract ← event_attr attrs "_contract_address";
  if negb (bool_decide (contract = rc_axelarnet_gateway cfg)) then None else
  chain ← event_attr attrs "source_chain";
  if negb (bool_decide (chain = "axelar")) then None else
  address ← event_attr attrs "source_address";
  if negb (bool_decide (address = rc_gov_module cfg)) then None else
  destination ← event_attr attrs "destination_chain";
  if negb (bool_decide (destination = rc_edge_axelar_id cfg)) then None else
  asg ← event_attr attrs "destination_address";
  if negb (eq_ignore_ascii_case asg (rc_asg_address cfg)) then None else
  if negb (eq_ignore_ascii_case (trim_0x (String.length hash) hash) want_hash) then None else
  message_id ← event_attr attrs "message_id";
  Some (mkGovMessage message_id chain address).

Definition ends_with (suffix s : string) : bool := match strip_suffix suffix s with Some _ => true | None => false end.

Definition block_message (v : Json) (want_hash : string) (cfg : ResolvedConfig) : option GovMessage :=
  let found := match pointer "/result/finalize_block_events" v with
               | Some x => Some x
               | None => pointer "/finalize_block_events" v
               end in
  events ← found ≫= as_array;
  head (omap (fun event =>
    ty ← get_key "type" event ≫= as_str;
    if ends_with "contract_called" ty then match_contract_called event want_hash cfg else None) events).

Definition scan_block (cfg : ResolvedConfig) (height : Z) (want_hash : string) : M E (option GovMessage) :=
  v ← get_json Some (trim_slashes (rc_axelar_rpc cfg) +:+ "/block_results?height=" +:+ to_dec height);
  mret (block_message v want_hash cfg).

(** The heights from [first] to [last]. *)
Definition heights (first last : Z) : list Z := map (fun i => first + Z.of_nat i) (seq 0 (Z.to_nat (last - first + 1))).

Definition find_governance_message (cfg : ResolvedConfig) (payload_hash : B256) (end_ : Z) : M E GovMessage :=
  let rpc := trim_slashes (rc_axelar_rpc cfg) in
  status ← get_json Some (rpc +:+ "/status");
  text ← lift (ok_or (t ← pointer "/result/sync_info/latest_block_height" status; as_str t) "missing latest block height");
  latest ← lift (ok_or (parse_uint 64 text) "invalid block height");
  height ← execution_height rpc latest end_;
  let want := hex_encode (be_bytes 32 payload_hash) in
  found ← first_some (fun candidate => scan_block cfg candidate want)
            (heights (saturating_sub height 1) (Z.min latest (wrapping_add 64 height 5)));
  lift (ok_or found "governance message not found near execution block").
End Blocks.

(** ** Edge chains and targets (helpers.rs, targets.rs, its_hub.rs, its_trust.rs) *)

Section EdgeReads.
Context {E : Type} `{GovEnv E, WebText, UrlLib, GovAbi, EvmLib, ConfigLib, CosmosAccounts, HashOrder}.
Variable lcd_override : option string.

Definition smart_query_hub (lcd contract : string) (query : Json) : M E Json :=
  answer ← lcd_cosmwasm_smart_query_typed lcd_override lcd contract query;
  match answer with
  | inr v => mret v
  | inl _ => throw (Failed "contract query failed")
  end.

Definition PAGE : nat := 100.

Fixpoint registered_pages (fuel : nat) (lcd hub_contract : string) (start_after : option string) (acc : list RegisteredChain)
    : M E (list RegisteredChain) :=
  match fuel with
  | O => throw OutOfFuel
  | S fuel =>
      v ← smart_query_hub lcd hub_contract
            (JObj [("its_chains", JObj [("start_after", match start_after with Some s => JStr s | None => JNull end);
                                        ("limit", JNum (Z.of_nat PAGE))])]);
      page ← lift (ok_or (vec_of registered_chain_of v) "unexpected ITS Hub its_chains response");
      if Nat.ltb (length page) PAGE then mret (acc ++ page)
      else registered_pages fuel lcd hub_contract (rg_chain <$> head (reverse page)) (acc ++ page)
  end.

Definition registered_chains (fuel : nat) (config : ChainsConfig) : M E (list RegisteredChain) :=
  params ← lift (cosmos_tx_params (cfg_axelar config));
  hub_contract ← lift (global_contract_address (cfg_axelar config) (global_contract_key InterchainTokenServiceGlobal));
  registered_pages fuel (tp_lcd params) hub_contract None [].

Definition trusted_chain (fuel : nat) (args : ProposeArgs) (config : ChainsConfig) : M E (option string) :=
  if negb (from_option needs_trust_api false (pa_op args)) then mret None
  else
    name ← lift (ok_or (pa_its_chain args) "trust operations require --its-chain");
    registry ← registered_chains fuel config;
    name ← lift (canonical_trust_name registry name);
    mret (Some name).

Definition edge_provider (rpc : string) : result () := ensure_ok (url_ok rpc) "invalid rpc url".

Definition its_owner (rpc its : string) : M E Address :=
  lift (edge_provider rpc);;
  its ← lift (ok_or (parse_address its) "invalid ITS address in config");
  its_owner_view rpc its.

Definition resolve_target (config : ChainsConfig) (candidate : Candidate) : M E EdgeTarget :=
  let key := cd_key candidate in
  chain_cfg ← lift (ok_or (cfg_chains config !! key) "not in the chains config");
  its ← lift (contract_address_by_name chain_cfg "InterchainTokenService");
  ensure (bool_decide (cd_its_edge candidate = "") || eq_ignore_ascii_case its (cd_its_edge candidate))
    "ITS in config differs from the ITS Hub edge";;
  asg ← match contract_address_by_name chain_cfg "AxelarServiceGovernance" with
        | Ok asg => mret asg
        | Err _ =>
            rpc ← lift (ok_or (cc_rpc chain_cfg) "no rpc in config");
            owner ← its_owner rpc its;
            mret (address_to_string owner)
        end;
  cfg ← lift (resolve_with_asg config key (Some asg));
  mret (mkTarget key cfg).

(** A failure is noted and the rest is still tried; fuel spent is not one. *)
Definition caught {S A} (m : M S A) : M S (result A) := fun s =>
  match m s with
  | (Err OutOfFuel, s) => (Err OutOfFuel, s)
  | (r, s) => (Ok r, s)
  end.

Fixpoint resolve_each (config : ChainsConfig) (candidates : list Candidate) : M E (list EdgeTarget * list string) :=
  match candidates with
  | [] => mret ([], [])
  | candidate :: candidates =>
      r ← caught (resolve_target config candidate);
      rest ← resolve_each config candidates;
      mret (match r with
            | Ok target => (target :: rest.1, rest.2)
            | Err _ => (rest.1, cd_key candidate :: rest.2)
            end)
  end.
Definition resolve_all (config : ChainsConfig) (candidates : list Candidate) : M E (list EdgeTarget) :=
  resolved ← resolve_each config candidates;
  ensure (bool_decide (resolved.2 = [])) "cannot verify every edge chain";;
  mret resolved.1.

Definition select_all (fuel : nat) (args : ProposeArgs) (config : ChainsConfig) : M E (list EdgeTarget) :=
  registry ← registered_chains fuel config;
  let '(candidates, _) := classify registry config (pa_network args) (pa_skip args) (default "" (pa_its_chain args)) in
  ensure (negb (bool_decide (length candidates = 0%nat))) "no eligible edge chains on the ITS Hub after exclusions";;
  resolve_all config candidates.

Definition select (fuel : nat) (args : ProposeArgs) (config : ChainsConfig) : M E (list EdgeTarget) :=
  match pa_chain args, pa_chains args with
  | Some chain, [] => cfg ← lift (resolve config chain); mret [mkTarget chain cfg]
  | None, [] => throw (Failed "name one chain, or pass --chains")
  | None, keys =>
      if decide (keys = ["all"]) then select_all fuel args config
      else resolve_all config (map (fun key => mkCandidate key "") keys)
  | Some _, _ => throw (Failed "name one chain, or pass --chains")
  end.

Definition nexus_chains_of : Json -> option (list string) := struct_of (fun v => get_key "chains" v ≫= vec_of as_str).

Definition check_route_names (config : ChainsConfig) (targets : list EdgeTarget) : M E () :=
  params ← lift (cosmos_tx_params (cfg_axelar config));
  let lcd := trim_slashes (tp_lcd params) in
  router ← lift (global_contract_address (cfg_axelar config) (global_contract_key RouterGlobal));
  nexus ← get_json nexus_chains_of (lcd +:+ "/axelar/nexus/v1beta1/chains");
  for_each (fun target =>
    let edge := rc_edge_axelar_id (tg_cfg target) in
    match route (tg_cfg target) with
    | Amplifier =>
        info ← smart_query_hub lcd router (JObj [("chain_info", JStr edge)]);
        ensure (bool_decide (as_str (index info "name") = Some edge)) "Router knows the chain under a different name"
    | Consensus => ensure (bool_decide (edge ∈ nexus)) "not a chain on Axelar's nexus registry"
    end) targets.

(** *** The ASG and the ITS of one chain *)

Definition TRUST_PROBE : string := "axe-trust-api-probe".

Definition probe_trust_api (cfg : ResolvedConfig) : M E TrustApi :=
  its ← lift (target_address TargetIts cfg);
  lift (edge_provider (rc_edge_rpc cfg));;
  answer ← request (its_is_trusted_chain (rc_edge_rpc cfg) its TRUST_PROBE);
  match answer with
  | inr _ => mret TrustedChain
  | inl OtherFailure => throw (Failed "cannot probe isTrustedChain; refusing to infer a legacy API")
  | inl Reverted =>
      legacy ← request (its_trusted_address (rc_edge_rpc cfg) its TRUST_PROBE);
      match legacy with
      | inr _ => mret TrustedAddress
      | inl _ => throw (Failed "ITS answers neither isTrustedChain nor trustedAddress")
      end
  end.

Definition verify_asg (cfg : ResolvedConfig) : M E AsgInfo :=
  let rpc := rc_edge_rpc cfg in
  address ← lift (ok_or (parse_address (rc_asg_address cfg)) "invalid AxelarServiceGovernance address");
  lift (edge_provider rpc);;
  code ← edge_code rpc address;
  ensure (negb (bool_decide (code = []))) "no contract code at ASG address";;
  operator ← asg_operator rpc address;
  governance_chain ← asg_governance_chain rpc address;
  governance_address ← asg_governance_address rpc address;
  delay ← asg_minimum_delay rpc address;
  ensure (eq_ignore_ascii_case governance_address (rc_gov_module cfg))
    "ASG.governanceAddress() does not match the gov module";;
  mret (mkAsgInfo operator governance_chain governance_address (Z.min delay u64_max)).

Definition check_not_already_proposed (cfg : ResolvedConfig) (t : ProposalType) (target : Address) (calldata : bytes)
    : M E () :=
  let rpc := rc_edge_rpc cfg in
  address ← lift (ok_or (parse_address (rc_asg_address cfg)) "invalid AxelarServiceGovernance address");
  lift (edge_provider rpc);;
  match t with
  | Operator =>
      approved ← asg_operator_approved rpc address target calldata;
      ensure (negb approved) "this operator proposal is already approved on the ASG"
  | Timelock =>
      eta ← asg_proposal_eta rpc address target calldata;
      ensure (eta =? 0) "this time-lock proposal is already scheduled"
  end.

Definition resolve_action (args : ProposeArgs) (cfg : ResolvedConfig) (trusted : option string)
    : M E (Address * bytes * string) :=
  match pa_op args with
  | Some op =>
      api ← (if needs_trust_api op then probe_trust_api cfg else mret TrustedChain);
      '(target, calldata) ← lift (build_call op cfg trusted api);
      let label := match op, trusted with
                   | (SetTrusted | RemoveTrusted), Some chain => op_label op +:+ " for " +:+ chain
                   | _, _ => op_label op
                   end in
      mret (target, calldata, label)
  | None =>
      calldata_hex ← lift (ok_or (pa_calldata args) "provide --op or --calldata --target");
      target_raw ← lift (ok_or (pa_target args) "--calldata requires --target");
      target ← lift (ok_or (parse_address target_raw) "invalid --target");
      calldata ← lift (ok_or (alloy_hex_decode (default calldata_hex (strip_prefix "0x" calldata_hex)))
                         "invalid --calldata hex");
      mret (target, calldata, "raw call to " +:+ target_raw)
  end.

Definition with_mnemonic (name : string) (c : ResolvedConfig) : ResolvedConfig :=
  mkResolved name (rc_edge_axelar_id c) (rc_asg_address c) (rc_gateway_address c) (rc_its_address c) (rc_edge_rpc c)
    (rc_multisig_prover c) (rc_axelar_rpc c) (rc_axelarnet_gateway c) (rc_gov_module c) (rc_lcd c) (rc_chain_id c)
    (rc_fee_denom c) (rc_gas_price c) (rc_deposit_amount c) (rc_expedited_deposit_amount c).

Definition resolve_call (args : ProposeArgs) (target : EdgeTarget) (trusted : option string) : M E (EdgeCall * string) :=
  '(target_addr, calldata, label) ← resolve_action args (tg_cfg target) trusted;
  asg ← verify_asg (tg_cfg target);
  mret (mkEdgeCall (tg_chain target) (with_mnemonic (pa_mnemonic_env args) (tg_cfg target)) asg target_addr calldata, label).

(** The calls, the last label, and the chains that failed. *)
Fixpoint resolve_calls (args : ProposeArgs) (trusted : option string) (targets : list EdgeTarget) (label : string)
    : M E (list EdgeCall * string * list string) :=
  match targets with
  | [] => mret ([], label, [])
  | target :: targets =>
      r ← caught (resolve_call args target trusted);
      match r with
      | Ok (c, label) =>
          '(l, label, failures) ← resolve_calls args trusted targets label;
          mret (c :: l, label, failures)
      | Err _ =>
          '(l, label, failures) ← resolve_calls args trusted targets label;
          mret (l, label, tg_chain target :: failures)
      end
  end.

(** *** Keys (relay.rs, signer.rs) *)

Variable env_var : string -> option string.

Definition env_signer : option Address :=
  key ← match env_var "EVM_GOVERNANCE_OPERATOR_KEY" with
        | Some key => Some key
        | None => env_var "EVM_PRIVATE_KEY"
        end;
  signer_address key.
Definition load_evm_signer : result Address :=
  ok_or env_signer "set EVM_GOVERNANCE_OPERATOR_KEY (preferred) or EVM_PRIVATE_KEY".

Inductive OperatorKey : Type := IsOperator (a : Address) | NotOperator (a : Address) | Missing.
Definition operator_key_status (operator : Address) : OperatorKey :=
  match env_signer with
  | Some a => if a =? operator then IsOperator operator else NotOperator a
  | None => Missing
  end.
Definition require_operator_key (operator : Address) : result () :=
  match operator_key_status operator with
  | IsOperator _ => Ok ()
  | NotOperator _ => bail "EVM_GOVERNANCE_OPERATOR_KEY is not the ASG operator"
  | Missing => bail "set EVM_GOVERNANCE_OPERATOR_KEY to the ASG operator"
  end.

(** [signer::load]: the key, by its mnemonic, and its address. *)
Definition load_signer (variable : string) : result (SigningKey * string) :=
  mnemonic ← ok_or (non_blank (env_var variable)) "mnemonic variable is missing or empty";
  address ← ok_or (wallet_address mnemonic) "invalid mnemonic: cannot derive the Cosmos signer";
  Ok (mnemonic, address).

Definition build_plan (fuel : nat) (args : ProposeArgs) (config : ChainsConfig) : M E ProposalPlan :=
  trusted ← trusted_chain fuel args config;
  targets ← select fuel args config;
  ensure (negb (Nat.ltb 1 (length targets)) || match pa_op args with Some _ => true | None => false end)
    "--chains applies one catalog --op to every chain";;
  '(l, label, failures) ← resolve_calls args trusted targets "";
  ensure (bool_decide (failures = [])) "cannot verify every edge chain";;
  p ← lift (new_plan (pa_proposal_type args) label l);
  (if Nat.ltb 1 (length (calls p))
   then operator ← lift (single_operator p); lift (require_operator_key operator)
   else mret ());;
  check_route_names config targets;;
  mret p.
End EdgeReads.
