(* ===== verification/ProposeRun.v ===== *)
(** * Submitting, relaying and executing a proposal (commands/propose.rs;
    commands/propose/submission_guard.rs, coverage.rs, funding.rs, relay.rs,
    relay_consensus.rs; cosmos/tx.rs, cosmos/rpc.rs, evm.rs,
    commands/test_helpers.rs)

    A run reads its plan from the network, looks for a proposal that carries it,
    submits one if there is none and the markers of earlier submissions allow
    it, waits for the vote, and delivers and executes the calls on the edge
    chains.  The state has the environment, the marker files, and the trace of
    what was observed, shown, written to disk and sent. *)

From Stdlib Require Import Ascii.
From Stdlib Require String.
From S2P Require Import Prelude Types Retry Journal Chain Plan Config Intent Json Cosmos Target CosmosSteps LoadTest LoadNet LoadDestinations LoadEngine Propose ProposeNet.

(** ** State and trace *)

(** What the relay asks an edge chain before a write, with everything the
    question is about. *)
Inductive Question : Type :=
  (* the gateway has executed the message, or the command *)
  | MessageConsumed (rpc : string) (gateway : Address) (source_chain message_id : string)
  | CommandConsumed (rpc : string) (gateway : Address) (command_id : B256)
  (* the gateway has approved the message, or the call, for the ASG *)
  | MessageApproved (rpc : string) (gateway : Address) (source_chain message_id source_address : string)
      (asg : Address) (payload_hash : B256)
  | CallApproved (rpc : string) (gateway : Address) (command_id : B256) (source_chain source_address : string)
      (asg : Address) (payload_hash : B256)
  (* the ASG holds the operator approval, or the schedule, of the call *)
  | OperatorApproved (rpc : string) (asg target : Address) (calldata : bytes)
  | Scheduled (rpc : string) (asg target : Address) (calldata : bytes)
  (* the time the ASG answered for the call has come *)
  | EtaPassed (rpc : string) (asg target : Address) (calldata : bytes) (eta : Z).
#[export] Instance Question_eq_dec : EqDecision Question.
Proof. solve_decision. Defined.

Inductive EvmWrite : Type :=
  | SubmitProof (data : bytes)
  | AsgExecute (command_id : B256) (source_chain source_address : string) (payload : bytes)
  | ExecuteOperator (target : Address) (calldata : bytes)
  | ExecuteProposal (target : Address) (calldata : bytes).

(** What the operator is shown before a write. *)
Inductive Review : Type :=
  | ReviewEvm (edge : string) (from to : Address) (input : bytes)
  | ReviewExecute (chain signer contract : string) (msg : Json)
  | ReviewProposal (proposal : Any) (funding : ProposalFunding).

Inductive gov_event : Type :=
  | Planned (p : ProposalPlan)                        (* the plan, and the lock of its hub *)
  | Observed (q : Question) (answer : bool)
  | Reviewed (r : Review) (approved : bool)           (* shown, and answered *)
  | Waived (proposal : Any) (funding : ProposalFunding)  (* shown; [--y] answers *)
  | Created (m : Marker)
  | Removed (m : Marker)
  | SentCosmos (signer : string) (messages : list Any)
  | SentEvm (rpc : string) (from to : Address) (w : EvmWrite).

Record Gov (E : Type) : Type := mkGov {
  g_env : E;
  g_files : gset Marker;
  g_trace : list gov_event
}.
Arguments mkGov {E}.
Arguments g_env {E}.
Arguments g_files {E}.
Arguments g_trace {E}.

Section Runs.
Context {E : Type} `{Host E, GovEnv E, WebText, UrlLib, GovAbi, EvmLib, ConfigLib, CosmosLib, CosmosAccounts,
                     MessageLib, HashOrder}.
Abbreviation G := (Gov E).
Variables (jittered : Z -> Z) (lcd_override : option string) (env_var : string -> option string) (is_terminal : bool).

Definition ask {A} (m : M E A) : M G A := fun s =>
  let '(r, e) := m (g_env s) in (r, mkGov e (g_files s) (g_trace s)).
Definition emit (ev : gov_event) : M G () := modify (fun s => mkGov (g_env s) (g_files s) (g_trace s ++ [ev])).
Definition observe (q : Question) (m : M E bool) : M G bool :=
  b ← ask m; emit (Observed q b);; mret b.
Definition confirm (prompt : string) : M G bool := ask (request (ui_confirm prompt)).
Definition pause (secs : Z) : M G () := ask (request (fun e => ((), poll_sleep (seconds secs) e))).

(** ** Markers (submission_guard.rs, coverage.rs) *)

Definition set_marker (m : Marker) (present : bool) : M G () :=
  modify (fun s => mkGov (g_env s) (if present then {[m]} ∪ g_files s else g_files s ∖ {[m]})
                     (g_trace s ++ [if present then Created m else Removed m])).
Definition has_marker (m : Marker) : M G bool := s ← get; mret (bool_decide (m ∈ g_files s)).

(** [create_new] and [remove_file]: an error may come before or after the
    effect. *)
Definition create_marker (m : Marker) : M G () :=
  outcome ← ask (request disk_write);
  present ← has_marker m;
  if (present : bool) then throw (Failed "submission already started for this call; refusing a duplicate")
  else match outcome with
       | Committed => set_marker m true
       | FailedBefore => throw (Failed "cannot create the proposal marker")
       | FailedAfter => set_marker m true;; throw (Failed "cannot create the proposal marker")
       end.
Definition remove_marker (m : Marker) : M G () :=
  outcome ← ask (request disk_write);
  present ← has_marker m;
  match outcome with
  | Committed => if (present : bool) then set_marker m false else mret ()
  | FailedBefore => throw (Failed "cannot remove the proposal marker")
  | FailedAfter => (if (present : bool) then set_marker m false else mret ());; throw (Failed "cannot remove the proposal marker")
  end.

Definition guard_check (m : Marker) (new_proposal : bool) : M G () :=
  if new_proposal then mret ()
  else
    ask fs_read;;
    present ← has_marker m;
    ensure (negb present) "an earlier submission of this call may still be pending; refusing a duplicate".

Definition guard_claim (m : Marker) (new_proposal : bool) : M G () :=
  ask fs_make_dir;;
  (if new_proposal then remove_marker m else mret ());;
  create_marker m;;
  ask fs_sync.

Definition coverage_check (p : ProposalPlan) (replacement : bool) : M G () :=
  for_each (fun m => guard_check m replacement) (call_markers p).
Definition coverage_claim (p : ProposalPlan) (replacement : bool) : M G () :=
  coverage_check p replacement;;
  for_each (fun m => guard_claim m replacement) (call_markers p).

(** ** Cosmos transactions (cosmos/tx.rs, cosmos/rpc.rs) *)

Definition tx_code : Json -> option (option (option Z)) :=
  struct_of (opt_field "tx_response" (struct_of (fun v =>
    code ← opt_field "code" as_u64 v; _ ← opt_field "raw_log" as_str v; Some code))).

Definition tx_body (raw : bytes) (mode : string) : Json :=
  JObj [("tx_bytes", JStr (base64_encode raw)); ("mode", JStr mode)].

Definition gas_fields : Json -> option (option string * option (option string)) := struct_of (fun v =>
  message ← opt_field "message" as_str v;
  gas_info ← opt_field "gas_info" (struct_of (opt_field "gas_used" as_str)) v;
  Some (message, gas_info)).

Definition simulate_tx (lcd : string) (raw : bytes) : M G Z :=
  v ← ask (http_post (lcd +:+ "/cosmos/tx/v1beta1/simulate") (tx_body raw "BROADCAST_MODE_UNSPECIFIED"));
  fields ← lift (ok_or (gas_fields v) "invalid simulation response");
  ensure (bool_decide (default "" fields.1 = "")) "simulation failed";;
  gas_info ← lift (ok_or fields.2 "simulation response missing gas_info");
  gas_used ← lift (ok_or (text ← gas_info; parse_uint 64 text) "invalid numeric LCD field");
  ensure (negb (gas_used =? 0)) "simulation returned 0 gas";;
  mret gas_used.

Definition broadcast_tx (lcd : string) (raw : bytes) : M G Json :=
  v ← ask (http_post (lcd +:+ "/cosmos/tx/v1beta1/txs") (tx_body raw "BROADCAST_MODE_SYNC"));
  response ← lift (ok_or (tx_code v) "invalid broadcast response");
  code ← lift (ok_or (mjoin response) "broadcast response missing tx_response.code");
  ensure (code =? 0) "broadcast failed";;
  mret v.

Definition LCD_WAIT_RETRY_INTERVAL : Z := 3.
Definition LCD_WAIT_MAX_ATTEMPTS : nat := 30.

Fixpoint wait_for_tx (attempts : nat) (lcd tx_hash : string) : M G Json :=
  match attempts with
  | O => throw (Failed "timeout waiting for tx")
  | S attempts =>
      pause LCD_WAIT_RETRY_INTERVAL;;
      response ← ask (request (http_get (lcd +:+ "/cosmos/tx/v1beta1/txs/" +:+ tx_hash)));
      match response with
      | None => wait_for_tx attempts lcd tx_hash
      | Some (_, body) =>
          v ← lift (ok_or (text ← body; parse_json text) "invalid tx lookup response");
          match get_key "tx_response" v with
          | None => wait_for_tx attempts lcd tx_hash
          | Some _ =>
              response ← lift (ok_or (tx_code v) "invalid tx lookup response");
              code ← lift (ok_or (mjoin response) "tx lookup response missing tx_response.code");
              ensure (code =? 0) "tx failed";;
              mret v
          end
      end
  end.

(** Outside a journaled deployment. *)
Definition sign_and_broadcast_cosmos_tx (signing_key : SigningKey) (address lcd chain_id fee_denom : string)
    (gas_price : GasPrice) (messages : list Any) : M G Json :=
  '(account_number, sequence) ← ask (lcd_account lcd address);
  sim_tx ← lift (build_and_sign_cosmos_tx signing_key
    (mkSignInput chain_id account_number sequence 10000000 0 fee_denom messages));
  gas_used ← simulate_tx lcd sim_tx;
  let gas_limit := scaled_gas gas_used in
  let fee_amount := gp_fee gas_price gas_limit in
  raw ← lift (build_and_sign_cosmos_tx signing_key
    (mkSignInput chain_id account_number sequence gas_limit fee_amount fee_denom messages));
  emit (SentCosmos address messages);;
  v ← broadcast_tx lcd raw;
  let tx_hash := default "" (t ← pointer "/tx_response/txhash" v; as_str t) in
  wait_for_tx LCD_WAIT_MAX_ATTEMPTS lcd tx_hash.

(** The events of a transaction, for [extract_proposal_id]. *)
Definition tx_response_of (v : Json) : TxResponse :=
  mkTxResponse None None None
    (struct_of (fun v => body ← get_key "tx_response" v; struct_of (fun b => get_key "events" b ≫= vec_of event_of) body) v).

(** ** Funding (funding.rs) *)

Definition check_grant (lcd granter signer : string) : M G () :=
  let base := trim_slashes lcd +:+ "/cosmos/authz/v1beta1/grants" in
  lift (ensure_ok (url_ok base) "invalid url");;
  grants ← ask (get_json grants_of (with_query base
    [("granter", granter); ("grantee", signer); ("msg_type_url", SUBMIT_PROPOSAL)]));
  s ← get;
  active ← lift (has_active_grant grants (utc_now (g_env s)));
  ensure active "signer cannot cover the deposit and has no active CPI multisig authorization".

Definition resolve_funding (network : Network) (h : ResolvedConfig) (submitter : string) (deposit : Z) : M G ProposalFunding :=
  lift (ok_or (account_prefix submitter) "invalid account");;
  balance ← ask (lcd_query_balance (rc_lcd h) submitter (rc_fee_denom h));
  if wrapping_add 128 deposit GAS_BUFFER_UAXL <=? balance then mret (Direct submitter)
  else
    ensure (bool_decide (network = Mainnet) && bool_decide (rc_chain_id h = "axelar-dojo-1"))
      "proposal signer cannot cover the deposit and gas";;
    ensure (GAS_BUFFER_UAXL <=? balance) "proposal signer needs funds for transaction fees";;
    lift (ok_or (account_prefix CPI_MULTISIG) "invalid account");;
    check_grant (rc_lcd h) CPI_MULTISIG submitter;;
    available ← ask (lcd_query_balance (rc_lcd h) CPI_MULTISIG (rc_fee_denom h));
    ensure (deposit <=? available) "CPI multisig cannot cover the proposal deposit";;
    mret (Authorized submitter CPI_MULTISIG).

(** ** Submission (propose.rs) *)

Definition confirm_submit (args : ProposeArgs) (f : ProposalFunding) (proposal : Any) : M G bool :=
  lift (ok_or (decode_proposal (any_value proposal)) "invalid proposal");;
  ensure (previewable proposal) "expected MsgSubmitProposal for review";;
  if pa_yes args && negb (bool_decide (pa_network args = Mainnet)) then
    emit (Waived proposal f);; mret true
  else
    approved ← confirm "Approve this title, description, and payload and submit the proposal?";
    emit (Reviewed (ReviewProposal proposal f) approved);;
    mret approved.

Definition submit (p : ProposalPlan) (args : ProposeArgs) (proposal : Any) (signing_key : SigningKey)
    (f : ProposalFunding) : M G Z :=
  let h := hub p in
  message ← lift (submission f proposal);
  guard_claim (plan_marker p) (pa_new_proposal args);;
  coverage_claim p (pa_new_proposal args);;
  v ← sign_and_broadcast_cosmos_tx signing_key (funding_signer f) (rc_lcd h) (rc_chain_id h) (rc_fee_denom h)
        (rc_gas_price h) [message];
  lift (extract_proposal_id (tx_response_of v)).

Definition ensure_funded (rpc : string) (a : Address) : M G () :=
  balance ← ask (edge_balance rpc a);
  ensure (negb (balance =? 0)) "relayer has zero balance on the edge chain".

Definition preflight_relayer (cfg : ResolvedConfig) : M G () :=
  relayer ← lift (load_evm_signer env_var);
  lift (edge_provider (rc_edge_rpc cfg));;
  ensure_funded (rc_edge_rpc cfg) relayer.

Definition submit_new (args : ProposeArgs) (p : ProposalPlan) : M G (option (Z * list bytes)) :=
  guard_check (plan_marker p) (pa_new_proposal args);;
  coverage_check p (pa_new_proposal args);;
  for_each (fun c => ask (check_not_already_proposed (ed_cfg c) (pp_ptype p) (ed_target c) (ed_calldata c))) (calls p);;
  '(signing_key, submitter) ← lift (load_signer env_var (rc_mnemonic_env (hub p)));
  deposit ← lift (ok_or (parse_uint 128 (deposit_amount p args)) "invalid deposit");
  f ← resolve_funding (pa_network args) (hub p) submitter deposit;
  (if pa_relay args then for_each (fun c => preflight_relayer (ed_cfg c)) (calls p) else mret ());;
  s ← get;
  let now := utc_now (g_env s) / NANOS in
  let payloads := map (fun c => en_payload (encode_call args (pp_ptype p) now c)) (calls p) in
  proposal ← lift (build_proposal p args payloads f);
  approved ← confirm_submit args f proposal;
  if negb approved then mret None
  else
    id ← submit p args proposal signing_key f;
    mret (Some (id, payloads)).

(** ** Relay (relay.rs, relay_consensus.rs) *)

Definition write_input (w : EvmWrite) : bytes :=
  match w with
  | SubmitProof data => data
  | AsgExecute command_id source_chain source_address payload =>
      execute_calldata command_id source_chain source_address payload
  | ExecuteOperator target calldata => execute_operator_calldata target calldata 0
  | ExecuteProposal target calldata => execute_proposal_calldata target calldata 0
  end.

(** [Approval::Prompt] or [Approval::Automatic], which only tests use. *)
Inductive Approval : Type := Prompt | Automatic.

Definition approve_evm (approval : Approval) (cfg : ResolvedConfig) (from to : Address) (w : EvmWrite) : M G () :=
  match approval with
  | Automatic => mret ()
  | Prompt =>
      approved ← confirm "Send this transaction?";
      emit (Reviewed (ReviewEvm (rc_edge_axelar_id cfg) from to (write_input w)) approved);;
      ensure approved "declined; nothing was sent. Rerun to resume the relay"
  end.

Definition approve_cosmos (approval : Approval) (cfg : ResolvedConfig) (signer contract : string) (msg : Json) : M G () :=
  match approval with
  | Automatic => mret ()
  | Prompt =>
      approved ← confirm "Submit this transaction?";
      emit (Reviewed (ReviewExecute (rc_chain_id cfg) signer contract msg) approved);;
      ensure approved "declined; nothing was submitted. Rerun to resume the relay"
  end.

(** [send] and [evm::broadcast_and_log]. *)
Definition send_evm (rpc : string) (from to : Address) (w : EvmWrite) : M G () :=
  emit (SentEvm rpc from to w);;
  hash ← ask (edge_send rpc from to (write_input w));
  ask (edge_receipt rpc hash).

Definition approved_write (approval : Approval) (cfg : ResolvedConfig) (from to : Address) (w : EvmWrite) : M G () :=
  approve_evm approval cfg from to w;;
  send_evm (rc_edge_rpc cfg) from to w.

Definition pending_on_asg (rpc : string) (asg : Address) (rp : RelayPlan) : M G bool :=
  match rp_ptype rp with
  | Operator =>
      observe (OperatorApproved rpc asg (rp_target rp) (rp_calldata rp))
        (asg_operator_approved rpc asg (rp_target rp) (rp_calldata rp))
  | Timelock =>
      observe (Scheduled rpc asg (rp_target rp) (rp_calldata rp))
        (eta ← asg_proposal_eta rpc asg (rp_target rp) (rp_calldata rp); mret (negb (eta =? 0)))
  end.

(** The signer and its RPC. *)
Definition connect (cfg : ResolvedConfig) : M G Address :=
  relayer ← lift (load_evm_signer env_var);
  lift (ensure_ok (url_ok (rc_edge_rpc cfg)) "invalid edge rpc url");;
  mret relayer.

(** *** Proofs (test_helpers.rs) *)

Definition AMPLIFIER_POLL_INTERVAL : Z := 5.
Definition AMPLIFIER_POLL_ATTEMPTS_10MIN : nat := 120.

Definition quote_char : ascii := ascii_of_N 34.
Fixpoint trim_start_char (c : ascii) (s : string) : string :=
  match s with
  | String x rest => if Ascii.eqb x c then trim_start_char c rest else s
  | EmptyString => ""
  end.
Definition trim_quotes (s : string) : string :=
  string_rev (trim_start_char quote_char (string_rev (trim_start_char quote_char s) "")) "".

Definition is_wasm_event (ty : string) : bool :=
  bool_decide (ty = "wasm") || match strip_prefix "wasm-" ty with Some _ => true | None => false end.

(** The first attribute with the name, in the wasm events; a value that is no
    text ends the search. *)
Definition find_wasm_attr (v : Json) (name : string) : option string :=
  events ← pointer "/tx_response/events" v ≫= as_array;
  attr ← head (omap (fun event =>
    if is_wasm_event (default "" (as_str (index event "type"))) then
      attrs ← as_array (index event "attributes");
      List.find (fun a => bool_decide (as_str (index a "key") = Some name)) attrs
    else None) events);
  trim_quotes <$> as_str (index attr "value").
Definition extract_event_attr (v : Json) (name : string) : result string :=
  ok_or (find_wasm_attr v name) "attribute not found in tx events".

Fixpoint wait_for_proof (attempts : nat) (first : bool) (lcd prover session_id : string) : M G Json :=
  match attempts with
  | O => throw (Failed "proof timed out after 10 minutes")
  | S attempts =>
      (if first then mret () else pause AMPLIFIER_POLL_INTERVAL);;
      v ← ask (smart_query_hub lcd_override lcd prover
                 (JObj [("proof", JObj [("multisig_session_id", JStr session_id)])]));
      if contains "completed" (json_text v) || contains "Completed" (json_text v) then mret v
      else wait_for_proof attempts false lcd prover session_id
  end.

Definition construct_proof_msg (msg : GovMessage) : Json :=
  JObj [("construct_proof", JArr [JObj [("source_chain", JStr (gm_source_chain msg));
                                        ("message_id", JStr (gm_message_id msg))]])].

Definition build_proof (cfg : ResolvedConfig) (signing_key : SigningKey) (axelar_address : string) (msg : GovMessage)
    (approval : Approval) : M G string :=
  prover ← lift (ok_or (rc_multisig_prover cfg) "no MultisigProver; not an amplifier chain");
  approve_cosmos approval cfg axelar_address prover (construct_proof_msg msg);;
  resp ← sign_and_broadcast_cosmos_tx signing_key axelar_address (rc_lcd cfg) (rc_chain_id cfg) (rc_fee_denom cfg)
           (rc_gas_price cfg) [build_execute_msg_any axelar_address prover (construct_proof_msg msg)];
  session_id ← lift (extract_event_attr resp "multisig_session_id");
  proof ← wait_for_proof AMPLIFIER_POLL_ATTEMPTS_10MIN true (rc_lcd cfg) prover session_id;
  lift (ok_or (as_str (index (index (index proof "status") "completed") "execute_data")) "no execute_data in completed proof").

(** *** Amplifier chains *)

Definition message_approved (cfg : ResolvedConfig) (gateway asg : Address) (msg : GovMessage) (payload_hash : B256) : M G bool :=
  observe (MessageApproved (rc_edge_rpc cfg) gateway (gm_source_chain msg) (gm_message_id msg)
             (gm_source_address msg) asg payload_hash)
    (gateway_message_approved (rc_edge_rpc cfg) gateway (gm_source_chain msg) (gm_message_id msg)
       (gm_source_address msg) asg payload_hash).

(** EVM gateway approval key: the hash of [sourceChain_messageId]. *)
Definition command_id (source_chain message_id : string) : B256 :=
  keccak256 (string_bytes (source_chain +:+ "_" +:+ message_id)).

Definition deliver_amplifier (cfg : ResolvedConfig) (rp : RelayPlan) (msg : GovMessage) (payload_hash : B256)
    (approval : Approval) : M G (option Address) :=
  gateway ← lift (ok_or (parse_address (rc_gateway_address cfg)) "invalid address");
  asg ← lift (ok_or (parse_address (rc_asg_address cfg)) "invalid address");
  consumed ← observe (MessageConsumed (rc_edge_rpc cfg) gateway (gm_source_chain msg) (gm_message_id msg))
    (gateway_message_executed (rc_edge_rpc cfg) gateway (gm_source_chain msg) (gm_message_id msg));
  held ← (if (consumed : bool) then pending_on_asg (rc_edge_rpc cfg) asg rp else mret true);
  if negb held then mret None
  else
    relayer ← connect cfg;
    ensure_funded (rc_edge_rpc cfg) relayer;;
    if (consumed : bool) then mret (Some relayer)
    else
      approved ← message_approved cfg gateway asg msg payload_hash;
      (if (approved : bool) then mret ()
       else
         '(signing_key, submitter) ← lift (load_signer env_var (rc_mnemonic_env cfg));
         execute_data ← build_proof cfg signing_key submitter msg approval;
         data ← lift (ok_or (alloy_hex_decode execute_data) "invalid execute_data");
         approved_write approval cfg relayer gateway (SubmitProof data));;
      approved ← message_approved cfg gateway asg msg payload_hash;
      ensure approved "message not approved on the edge gateway after submitProof";;
      approved_write approval cfg relayer asg
        (AsgExecute (command_id (gm_source_chain msg) (gm_message_id msg)) (gm_source_chain msg) (gm_source_address msg)
           (rp_payload rp));;
      mret (Some relayer).

(** *** Consensus chains *)

Definition APPROVAL_POLL_INTERVAL : Z := 15.

Fixpoint wait_for_approval (fuel : nat) (rpc : string) (gateway asg : Address) (payload_hash : B256) (from_block : Z)
    : M G ApprovedCall :=
  match fuel with
  | O => throw OutOfFuel
  | S fuel =>
      found ← ask (find_contract_call_approved (H := edge_poll rpc) jittered gateway asg payload_hash None from_block);
      match found with
      | Some approved => mret approved
      | None => pause APPROVAL_POLL_INTERVAL;; wait_for_approval fuel rpc gateway asg payload_hash from_block
      end
  end.

Definition deliver_consensus (fuel : nat) (cfg : ResolvedConfig) (rp : RelayPlan) (payload_hash : B256) (execution_time : Z)
    (approval : Approval) : M G (option Address) :=
  let rpc := rc_edge_rpc cfg in
  gateway ← lift (ok_or (parse_address (rc_gateway_address cfg)) "invalid address");
  asg ← lift (ok_or (parse_address (rc_asg_address cfg)) "invalid address");
  from_block ← ask (first_block_at rpc execution_time);
  approved ← wait_for_approval fuel rpc gateway asg payload_hash from_block;
  consumed ← observe (CommandConsumed rpc gateway (ac_command_id approved)) (gateway_command_executed rpc gateway (ac_command_id approved));
  held ← (if (consumed : bool) then pending_on_asg rpc asg rp else mret true);
  if negb held then mret None
  else
    relayer ← connect cfg;
    ensure_funded rpc relayer;;
    (if (consumed : bool) then mret ()
     else
       still_approved ← observe
         (CallApproved rpc gateway (ac_command_id approved) (ac_source_chain approved)
            (ac_source_address approved) asg payload_hash)
         (gateway_call_approved rpc gateway (ac_command_id approved) (ac_source_chain approved)
            (ac_source_address approved) asg payload_hash);
       ensure still_approved "approval is no longer valid on the gateway; rerun to re-check";;
       approved_write approval cfg relayer asg
         (AsgExecute (ac_command_id approved) (ac_source_chain approved) (ac_source_address approved) (rp_payload rp)));;
    mret (Some relayer).

(** *** Execution on the ASG *)

Definition execute_operator (cfg : ResolvedConfig) (asg : Address) (info : AsgInfo) (relayer : Address) (rp : RelayPlan)
    (approval : Approval) : M G () :=
  if negb (relayer =? ai_operator info) then mret ()
  else
    approved ← observe (OperatorApproved (rc_edge_rpc cfg) asg (rp_target rp) (rp_calldata rp))
      (asg_operator_approved (rc_edge_rpc cfg) asg (rp_target rp) (rp_calldata rp));
    ensure approved "operator proposal not approved after consume; aborting before execute";;
    approved_write approval cfg relayer asg (ExecuteOperator (rp_target rp) (rp_calldata rp)).

Definition ETA_POLL_INTERVAL : Z := 5.

Fixpoint wait_for_eta (fuel : nat) (rpc : string) (asg : Address) (rp : RelayPlan) : M G () :=
  match fuel with
  | O => throw OutOfFuel
  | S fuel =>
      answer ← ask (asg_proposal_eta rpc asg (rp_target rp) (rp_calldata rp));
      let eta := Z.min answer u64_max in
      ensure (negb (eta =? 0)) "proposal not scheduled (eta=0) after consume";;
      s ← get;
      let now := Z.max (utc_now (g_env s) / NANOS) 0 in
      emit (Observed (EtaPassed rpc asg (rp_target rp) (rp_calldata rp) answer) (eta <=? now));;
      if eta <=? now then mret ()
      else pause ETA_POLL_INTERVAL;; wait_for_eta fuel rpc asg rp
  end.

Definition execute_timelock (fuel : nat) (cfg : ResolvedConfig) (asg : Address) (relayer : Address) (rp : RelayPlan)
    (approval : Approval) : M G () :=
  wait_for_eta fuel (rc_edge_rpc cfg) asg rp;;
  approved_write approval cfg relayer asg (ExecuteProposal (rp_target rp) (rp_calldata rp)).

Definition relay_with_provider (fuel : nat) (cfg : ResolvedConfig) (info : AsgInfo) (rp : RelayPlan) (execution_time : Z)
    (approval : Approval) : M G () :=
  let payload_hash := keccak256 (rp_payload rp) in
  msg ← ask (find_governance_message cfg payload_hash execution_time);
  lift (ensure_ok (url_ok (rc_edge_rpc cfg)) "invalid edge rpc url");;
  delivered ← match route cfg with
              | Amplifier => deliver_amplifier cfg rp msg payload_hash approval
              | Consensus => deliver_consensus fuel cfg rp payload_hash execution_time approval
              end;
  match delivered with
  | None => mret ()
  | Some relayer =>
      asg ← lift (ok_or (parse_address (rc_asg_address cfg)) "invalid address");
      match rp_ptype rp with
      | Operator => execute_operator cfg asg info relayer rp approval
      | Timelock => execute_timelock fuel cfg asg relayer rp approval
      end
  end.

Definition relay (fuel : nat) (cfg : ResolvedConfig) (info : AsgInfo) (rp : RelayPlan) (execution_time : Z) : M G () :=
  relay_with_provider fuel cfg info rp execution_time Prompt.

(** Every call is tried; the result is the chains still outstanding. *)
Fixpoint relay_each (fuel : nat) (t : ProposalType) (l : list (EdgeCall * bytes)) (execution_time : Z) : M G (list string) :=
  match l with
  | [] => mret []
  | (c, payload) :: l =>
      r ← caught (relay fuel (ed_cfg c) (ed_asg c) (relay_plan c t payload) execution_time);
      rest ← relay_each fuel t l execution_time;
      mret (match r with Ok _ => rest | Err _ => rc_edge_axelar_id (ed_cfg c) :: rest end)
  end.

Definition relay_all (fuel : nat) (p : ProposalPlan) (payloads : list bytes) (execution_time : Z) : M G () :=
  outstanding ← relay_each fuel (pp_ptype p) (zip (calls p) payloads) execution_time;
  ensure (bool_decide (outstanding = [])) "relay incomplete".

(** ** A run *)

(** What follows once the proposal is known. *)
Definition follow (fuel : nat) (args : ProposeArgs) (p : ProposalPlan) (id : Z) (payloads : list bytes) : M G () :=
  ask (wait_for_passed fuel (rc_lcd (hub p)) id);;
  if pa_relay args then
    proposal ← ask (load_proposal (rc_lcd (hub p)) id);
    time ← lift (execution_time proposal);
    relay_all fuel p payloads time
  else mret ().

Definition run_plan (fuel : nat) (args : ProposeArgs) (p : ProposalPlan) : M G () :=
  ask (fs_lock (rc_chain_id (hub p)));;
  emit (Planned p);;
  existing ← ask (find_existing fuel p args);
  match existing with
  | Some (proposal, payloads) =>
      id ← lift (number proposal);
      follow fuel args p id payloads
  | None =>
      submitted ← submit_new args p;
      match submitted with
      | None => mret ()
      | Some (id, payloads) => follow fuel args p id payloads
      end
  end.

Definition run (fuel : nat) (args : ProposeArgs) : M G () :=
  lift (gate_mainnet (pa_network args) (pa_confirm_mainnet args));;
  ensure (negb (bool_decide (pa_network args = Mainnet)) || is_terminal) "requires an interactive terminal";;
  config ← ask load_chains_config;
  p ← ask (build_plan lcd_override env_var fuel args config);
  run_plan fuel args p.
End Runs.
