(* ===== verification/ProposeSafety.v ===== *)
(** * What a run of a proposal may do

    Monitors read the trace of a run event by event and refuse what must not
    happen.  Two monitors are proved to accept every run: the auditor, which
    wants every write shown, approved and justified by the last observation, of
    the same message, contract and call, as the node answered it, and the ledger, which counts the submissions of a call against its marker. *)

From Stdlib Require Import Ascii.
From Stdlib Require String.
From S2P Require Import Prelude Monitor Types Retry Journal Chain Plan Config Intent Json Cosmos Target CosmosSteps LoadTest LoadNet LoadDestinations LoadEngine Propose ProposeNet ProposeRun.

(** ** Monitors *)

Section Monitored.
Context {E S : Type} (step : S -> gov_event -> option S) (init : S).
Abbreviation G := (Gov E).
Abbreviation monitored := (monitored (@g_trace E) (@g_files E) step init (fun _ _ => True)).
Implicit Types Q : S -> gset Marker -> Prop.

Lemma monitored_ask {A} Q (m : M E A) : monitored Q (ask m) (fun _ => Q).
Proof. apply monitored_quiet. intros s. unfold ask. by destruct (m (g_env s)). Qed.

Lemma monitored_emit Q ev (Q' : () -> S -> gset Marker -> Prop) :
  (forall st fs, Q st fs -> exists st', step st ev = Some st' /\ Q' () st' fs) -> monitored Q (emit ev) Q'.
Proof. intros Hs. apply (monitored_event _ _ _ _ _ _ _ () ev (fun fs => fs)); naive_solver. Qed.

Lemma monitored_marker Q m (present : bool) (Q' : () -> S -> gset Marker -> Prop) :
  (forall st fs, Q st fs -> exists st', step st (if present then Created m else Removed m) = Some st' /\
     Q' () st' (if present then {[m]} ∪ fs else fs ∖ {[m]})) ->
  monitored Q (set_marker m present) Q'.
Proof.
  intros Hs. apply (monitored_event _ _ _ _ _ _ _ () (if present then Created m else Removed m)
    (fun fs => if present then {[m]} ∪ fs else fs ∖ {[m]})); naive_solver.
Qed.

Lemma monitored_has Q m :
  monitored Q (has_marker m) (fun b st fs => b = bool_decide (m ∈ fs) /\ Q st fs).
Proof. exact (monitored_peek (@g_trace E) g_files step init (fun _ _ => True) Q (fun fs : gset Marker => bool_decide (m ∈ fs))). Qed.

Lemma monitored_caught {A} Q (m : M G A) :
  monitored Q m (fun _ => Q) -> (forall st fs, Q st fs <-> True) -> monitored Q (caught m) (fun _ => Q).
Proof.
  intros Hm HQ s Hs. specialize (Hm s Hs). unfold caught.
  destruct (m s) as [[a|[]] s']; try done; (eapply seen_weaken; [|exact Hm]; by intros st fs; rewrite HQ).
Qed.

Lemma monitored_silent Q ev : silent step ev -> monitored Q (emit ev) (fun _ => Q).
Proof. intros Hs. apply monitored_emit. intros st fs Hq. exists st. by rewrite Hs. Qed.
End Monitored.

(** ** The auditor *)

(** The last observation, and the write that was shown and approved. *)
Record AuditState : Type := mkAudit {
  au_last : option (Question * bool);
  au_review : option Review
}.

Section Audit.
Context `{GovAbi, EvmLib, MessageLib}.

(** The observation a write must directly follow: about the same contract on
    the same chain, and about what the write delivers or executes.  A proof is
    submitted to the gateway that denied the approval; the ASG is given the
    payload whose hash the gateway has approved for it, under the command of
    that message; a call is executed if the ASG holds its approval, or if its
    time has come. *)
Definition justifies (o : Question * bool) (rpc : string) (to : Address) (w : EvmWrite) : bool :=
  match w, o with
  | SubmitProof _, (MessageApproved rpc' gateway _ _ _ _ _, false) =>
      bool_decide (rpc = rpc') && (to =? gateway)
  | AsgExecute id chain source payload, (MessageApproved rpc' _ chain' message source' asg hash, true) =>
      bool_decide (rpc = rpc') && (to =? asg) && bool_decide (chain = chain') && bool_decide (source = source') &&
      (id =? keccak256 (string_bytes (chain +:+ "_" +:+ message))) && (hash =? keccak256 payload)
  | AsgExecute id chain source payload, (CallApproved rpc' _ id' chain' source' asg hash, true) =>
      bool_decide (rpc = rpc') && (to =? asg) && (id =? id') && bool_decide (chain = chain') &&
      bool_decide (source = source') && (hash =? keccak256 payload)
  | ExecuteOperator target calldata, (OperatorApproved rpc' asg target' calldata', true)
  | ExecuteProposal target calldata, (EtaPassed rpc' asg target' calldata' _, true) =>
      bool_decide (rpc = rpc') && (to =? asg) && (target =? target') && bool_decide (calldata = calldata')
  | _, _ => false
  end.

Definition allows_evm (st : AuditState) (rpc : string) (from to : Address) (w : EvmWrite) : bool :=
  match au_last st, au_review st with
  | Some o, Some (ReviewEvm _ from' to' input) =>
      justifies o rpc to w && (from =? from') && (to =? to') && bool_decide (input = write_input w)
  | _, _ => false
  end.

(** The request for a proof of one message. *)
Definition proof_request (source_chain message_id : string) : Json :=
  JObj [("construct_proof", JArr [JObj [("source_chain", JStr source_chain); ("message_id", JStr message_id)]])].

Definition allows_cosmos (st : AuditState) (signer : string) (messages : list Any) : bool :=
  match au_review st with
  | Some (ReviewExecute _ signer' contract msg) =>
      match au_last st with
      | Some (MessageApproved _ _ chain message _ _ _, false) =>
          bool_decide (signer = signer') && bool_decide (messages = [build_execute_msg_any signer' contract msg]) &&
          bool_decide (messages = [build_execute_msg_any signer' contract (proof_request chain message)])
      | _ => false
      end
  | Some (ReviewProposal proposal f) =>
      bool_decide (signer = funding_signer f) && bool_decide (fmap (fun m => [m]) (submission f proposal) = Ok messages)
  | _ => false
  end.

(** [waivable]: the prompt of a proposal may be answered by [--y]. *)
Definition audit_step (waivable : bool) (st : AuditState) (ev : gov_event) : option AuditState :=
  match ev with
  | Observed q answer => Some (mkAudit (Some (q, answer)) None)
  | Reviewed r approved => Some (mkAudit (au_last st) (if approved then Some r else None))
  | Waived proposal f => if waivable then Some (mkAudit (au_last st) (Some (ReviewProposal proposal f))) else None
  | SentEvm rpc from to w => if allows_evm st rpc from to w then Some (mkAudit (au_last st) None) else None
  | SentCosmos signer messages => if allows_cosmos st signer messages then Some (mkAudit (au_last st) None) else None
  | Planned _ | Created _ | Removed _ => Some st
  end.
Definition audit (waivable : bool) (t : list gov_event) : option AuditState :=
  monitor (audit_step waivable) (mkAudit None None) t.
End Audit.

(** The answer recorded for a question is one the chain asked gave to exactly
    that question; a time that has come is, in seconds, at most a reading of the
    clock, which counts nanoseconds. *)
Definition told {E} `{GovEnv E} (q : Question) (answer : bool) : Prop :=
  match q with
  | MessageConsumed rpc gateway chain message =>
      exists e e' : E, gateway_message_executed rpc gateway chain message e = (Ok answer, e')
  | CommandConsumed rpc gateway id =>
      exists e e' : E, gateway_command_executed rpc gateway id e = (Ok answer, e')
  | MessageApproved rpc gateway chain message source asg hash =>
      exists e e' : E, gateway_message_approved rpc gateway chain message source asg hash e = (Ok answer, e')
  | CallApproved rpc gateway id chain source asg hash =>
      exists e e' : E, gateway_call_approved rpc gateway id chain source asg hash e = (Ok answer, e')
  | OperatorApproved rpc asg target calldata =>
      exists e e' : E, asg_operator_approved rpc asg target calldata e = (Ok answer, e')
  | Scheduled rpc asg target calldata =>
      exists (eta : Z) (e e' : E), asg_proposal_eta rpc asg target calldata e = (Ok eta, e') /\
        answer = negb (eta =? 0)
  | EtaPassed rpc asg target calldata eta =>
      eta <> 0 /\
      (exists e e' : E, asg_proposal_eta rpc asg target calldata e = (Ok eta, e')) /\
      (answer = true -> 0 < eta -> exists e : E, Z.min eta u64_max * 1000000000 <= utc_now e)
  end.

Definition honest {E} `{GovEnv E} (ev : gov_event) : Prop :=
  match ev with Observed q answer => told (E := E) q answer | _ => True end.

Create HintDb audit.

Section Audited.
Context {E : Type} `{Host E, GovEnv E, WebText, UrlLib, GovAbi, EvmLib, ConfigLib, CosmosLib, CosmosAccounts,
                     MessageLib, HashOrder}.
Abbreviation G := (Gov E).
Variables (jittered : Z -> Z) (lcd_override : option string) (env_var : string -> option string) (is_terminal : bool).
Variable waivable : bool.

Definition audited {A} (Q : AuditState -> Prop) (m : M G A) (Q' : A -> AuditState -> Prop) : Prop :=
  monitored (@g_trace E) (@g_trace E) (audit_step waivable) (mkAudit None None)
    (fun _ t => Forall (honest (E := E)) t) (fun st _ => Q st) m (fun a st _ => Q' a st).
Definition anywhere (st : AuditState) : Prop := True.
Definition after (o : Question * bool) (st : AuditState) : Prop := au_last st = Some o.

Lemma audited_weaken {A} Q P (m : M G A) (Q' P' : A -> AuditState -> Prop) :
  audited Q m Q' -> (forall st, P st -> Q st) -> (forall a st, Q' a st -> P' a st) -> audited P m P'.
Proof. intros Hm Hp Hq. eapply monitored_weaken; [exact Hm|..]; simpl; eauto. Qed.

Lemma audited_post {A} Q (m : M G A) (Q' : A -> AuditState -> Prop) : audited Q m Q' -> audited Q m (fun _ => anywhere).
Proof. intros Hm. by eapply audited_weaken. Qed.

Lemma audited_bind {A B} Q R (m : M G A) (f : A -> M G B) (Q' : B -> AuditState -> Prop) :
  audited Q m R -> (forall a, audited (R a) (f a) Q') -> audited Q (m ≫= f) Q'.
Proof. apply monitored_bind. Qed.

Lemma audited_ret {A} (Q : AuditState -> Prop) (a : A) (Q' : A -> AuditState -> Prop) :
  (forall st, Q st -> Q' a st) -> audited Q (mret a) Q'.
Proof. intros Hq. eapply monitored_weaken; [apply (monitored_ret _ _ _ _ _ (fun st _ => Q st))|done|]. intros b st fs [-> Hs]. auto. Qed.

Lemma audited_lift {A} Q (r : result A) : audited Q (lift r) (fun _ => Q).
Proof. eapply monitored_weaken; [apply (monitored_lift _ _ _ _ _ (fun st _ => Q st))|done|]. by intros a st fs [_ Hs]. Qed.

Lemma audited_ensure Q b msg : audited Q (ensure b msg) (fun _ st => b = true /\ Q st).
Proof. apply monitored_ensure. Qed.

Lemma audited_ask {A} Q (m : M E A) : audited Q (ask m) (fun _ => Q).
Proof. apply monitored_quiet. intros s. unfold ask. by destruct (m (g_env s)). Qed.

Lemma audited_emit Q ev (Q' : () -> AuditState -> Prop) :
  honest (E := E) ev ->
  (forall st, Q st -> exists st', audit_step waivable st ev = Some st' /\ Q' () st') -> audited Q (emit ev) Q'.
Proof.
  intros Hh Hs. apply (monitored_event _ _ _ _ _ _ _ () ev (fun t => t ++ [ev])); [done|].
  intros st t Hl Hq. destruct (Hs st Hq) as (st' & Hst & Hq'). exists st'. split; [done|]. split; [|done].
  apply Forall_app. split; [done|]. by constructor.
Qed.

Lemma audited_throw {A} Q e (Q' : A -> AuditState -> Prop) : audited Q (throw e) Q'.
Proof. apply monitored_throw. Qed.

Lemma audited_get {A} Q (f : G -> M G A) (Q' : A -> AuditState -> Prop) :
  (forall s, audited Q (f s) Q') -> audited Q (s ← get; f s) Q'.
Proof. apply monitored_get. Qed.

Lemma audited_for_each {A} Q (f : A -> M G ()) l :
  (forall x, audited Q (f x) (fun _ => Q)) -> audited Q (for_each f l) (fun _ => Q).
Proof. intros Hf. apply (monitored_for_each _ _ _ _ _ (fun st _ => Q st)). intros x _. apply Hf. Qed.

Lemma audited_observe Q q (m : M E bool) :
  (forall e b e', m e = (Ok b, e') -> told (E := E) q b) -> audited Q (observe q m) (fun b => after (q, b)).
Proof.
  intros Hm s (st & Hs & Hl & Hq). unfold observe, ask, mbind, M_bind.
  destruct (m (g_env s)) as [[b|err] e'] eqn:Hr; [|by exists st].
  pose proof (audited_emit Q (Observed q b) (fun _ => after (q, b)) (Hm _ _ _ Hr)) as He.
  specialize (He ltac:(intros st' _; by eexists) (mkGov e' (g_files s) (g_trace s)) ltac:(by exists st)). exact He.
Qed.

Lemma audited_marker Q m present : audited Q (set_marker m present) (fun _ => Q).
Proof.
  apply (monitored_event _ _ _ _ _ _ _ () (if present then Created m else Removed m)
    (fun t => t ++ [if present then Created m else Removed m])); [done|].
  intros st t Hl Hq. exists st. split; [by destruct present|]. split; [|done].
  apply Forall_app. split; [done|]. constructor; [by destruct present|done].
Qed.
Lemma audited_has Q m : audited Q (has_marker m) (fun _ => Q).
Proof. by apply monitored_quiet. Qed.

Lemma audited_caught {A} (m : M G A) : audited anywhere m (fun _ => anywhere) -> audited anywhere (caught m) (fun _ => anywhere).
Proof.
  intros Hm s Hs. specialize (Hm s Hs). unfold caught.
  destruct (m s) as [[a|[]] s']; try done; (eapply seen_weaken; [|exact Hm]; done).
Qed.

Lemma audited_ensure_keep Q b msg : audited Q (ensure b msg) (fun _ => Q).
Proof. eapply audited_weaken; [apply audited_ensure|done|]. by intros u st [_ Hs]. Qed.

(** Through a program without events the auditor keeps its state. *)
Ltac calm :=
  lazymatch goal with
  | |- audited _ (mret _) _ => by apply audited_ret
  | |- audited _ (lift _) _ => apply audited_lift
  | |- audited _ (ask _) _ => apply audited_ask
  | |- audited _ (throw _) _ => apply audited_throw
  | |- audited _ (set_marker _ _) _ => apply audited_marker
  | |- audited _ (has_marker _) _ => apply audited_has
  | |- audited _ (ensure _ _) _ => apply audited_ensure_keep
  | |- audited _ (for_each _ _) _ => apply audited_for_each; intros ?; calm
  | |- audited _ (get ≫= _) _ => apply audited_get; intros ?; calm
  | |- audited ?Q (_ ≫= _) _ => apply (audited_bind Q (fun _ => Q)); [calm|intros ?; calm]
  | |- audited _ (match ?x with _ => _ end) _ => destruct x; calm
  | |- _ => first [done | by eauto with audit]
  end.

Lemma audited_pause Q n : audited Q (pause n) (fun _ => Q).
Proof. apply audited_ask. Qed.
Lemma audited_confirm Q prompt : audited Q (confirm prompt) (fun _ => Q).
Proof. apply audited_ask. Qed.
Lemma audited_create Q m : audited Q (create_marker m) (fun _ => Q).
Proof. unfold create_marker. calm. Qed.
Lemma audited_remove Q m : audited Q (remove_marker m) (fun _ => Q).
Proof. unfold remove_marker. calm. Qed.
#[local] Hint Resolve audited_pause audited_confirm audited_create audited_remove : audit.
Lemma audited_check Q m new : audited Q (guard_check m new) (fun _ => Q).
Proof. unfold guard_check. calm. Qed.
Lemma audited_claim Q m new : audited Q (guard_claim m new) (fun _ => Q).
Proof. unfold guard_claim. calm. Qed.
#[local] Hint Resolve audited_check audited_claim : audit.
Lemma audited_coverage_check Q p new : audited Q (coverage_check p new) (fun _ => Q).
Proof. unfold coverage_check. calm. Qed.
#[local] Hint Resolve audited_coverage_check : audit.
Lemma audited_coverage_claim Q p new : audited Q (coverage_claim p new) (fun _ => Q).
Proof. unfold coverage_claim. calm. Qed.
Lemma audited_simulate Q lcd raw : audited Q (simulate_tx lcd raw) (fun _ => Q).
Proof. unfold simulate_tx. calm. Qed.
Lemma audited_broadcast Q lcd raw : audited Q (broadcast_tx lcd raw) (fun _ => Q).
Proof. unfold broadcast_tx. calm. Qed.
#[local] Hint Resolve audited_coverage_claim audited_simulate audited_broadcast : audit.
Lemma audited_wait_tx Q n lcd hash : audited Q (wait_for_tx n lcd hash) (fun _ => Q).
Proof. induction n as [|n IH]; cbn [wait_for_tx]; calm. Qed.
Lemma audited_grant Q lcd granter signer : audited Q (check_grant lcd granter signer) (fun _ => Q).
Proof. unfold check_grant. calm. Qed.
Lemma audited_proof Q n first lcd prover id : audited Q (wait_for_proof lcd_override n first lcd prover id) (fun _ => Q).
Proof. revert first. induction n as [|n IH]; intros first; cbn [wait_for_proof]; calm. Qed.
Lemma audited_wait_approval Q n rpc gw asg h b :
  audited Q (wait_for_approval jittered n rpc gw asg h b) (fun _ => Q).
Proof. induction n as [|n IH]; cbn [wait_for_approval]; calm. Qed.
Lemma audited_funded Q rpc a : audited Q (ensure_funded rpc a) (fun _ => Q).
Proof. unfold ensure_funded. calm. Qed.
Lemma audited_connect Q cfg : audited Q (connect env_var cfg) (fun _ => Q).
Proof. unfold connect. calm. Qed.
#[local] Hint Resolve audited_wait_tx audited_grant audited_proof audited_wait_approval audited_funded audited_connect : audit.
Lemma audited_preflight Q cfg : audited Q (preflight_relayer env_var cfg) (fun _ => Q).
Proof. unfold preflight_relayer. calm. Qed.
Lemma audited_funding Q network h submitter deposit : audited Q (resolve_funding network h submitter deposit) (fun _ => Q).
Proof. unfold resolve_funding. calm. Qed.
#[local] Hint Resolve audited_preflight audited_funding : audit.

(** *** Writes *)

Lemma audited_send_cosmos Q key address lcd chain denom price messages (Q' : AuditState -> Prop) :
  (forall st, Q st -> allows_cosmos st address messages = true /\ Q' (mkAudit (au_last st) None)) ->
  audited Q (sign_and_broadcast_cosmos_tx key address lcd chain denom price messages) (fun _ => Q').
Proof.
  intros Hq. unfold sign_and_broadcast_cosmos_tx.
  apply (audited_bind Q (fun _ => Q)); [calm|]. intros [number sequence].
  apply (audited_bind Q (fun _ => Q)); [calm|]. intros sim. apply (audited_bind Q (fun _ => Q)); [calm|]. intros gas.
  apply (audited_bind Q (fun _ => Q)); [calm|]. intros raw. apply (audited_bind Q (fun _ => Q')); [|intros u; calm].
  apply audited_emit; [done|]. intros st Hs. destruct (Hq st Hs) as [Ha Hs']. simpl. rewrite Ha. by eexists.
Qed.

Lemma audited_review Q r approved :
  audited Q (emit (E := E) (Reviewed r approved))
    (fun _ st => exists st0, Q st0 /\ st = mkAudit (au_last st0) (if (approved : bool) then Some r else None)).
Proof. apply audited_emit; [done|]. intros st Hs. simpl. eexists. split; [done|]. by exists st. Qed.

(** A prompt: the review is in place when the answer was yes. *)
Lemma audited_prompt o prompt r msg :
  audited (after o) (approved ← confirm prompt; emit (Reviewed r approved);; ensure approved msg)
    (fun _ st => after o st /\ au_review st = Some r).
Proof.
  apply (audited_bind _ (fun _ => after o)); [calm|]. intros approved.
  eapply audited_bind; [apply audited_review|]. intros u.
  eapply audited_weaken; [apply audited_ensure|intros st Hs; exact Hs|]. intros v st (-> & st0 & Hst & ->). done.
Qed.

Lemma audited_write o cfg from to w :
  justifies o (rc_edge_rpc cfg) to w = true ->
  audited (after o) (approved_write Prompt cfg from to w) (fun _ => after o).
Proof.
  intros Hj. unfold approved_write, approve_evm. eapply audited_bind; [apply audited_prompt|]. intros u. unfold send_evm.
  apply (audited_bind _ (fun _ => after o)); [|intros v; calm].
  apply audited_emit; [done|]. intros st [Hl Hr]. exists (mkAudit (au_last st) None). split; [|done]. simpl.
  unfold allows_evm, after in *. rewrite Hl, Hr, Hj, !Z.eqb_refl. simpl. by rewrite bool_decide_true by done.
Qed.

(** The question whether the gateway has approved the message for the ASG. *)
Definition approval_of cfg gw asg msg h : Question :=
  MessageApproved (rc_edge_rpc cfg) gw (gm_source_chain msg) (gm_message_id msg) (gm_source_address msg) asg h.

(** The write is about what was asked. *)
Ltac justified :=
  try match goal with h := keccak256 _ |- _ => subst h end; unfold justifies, approval_of, command_id; rewrite ?Z.eqb_refl, ?bool_decide_true by reflexivity; reflexivity.

Lemma audited_pending Q rpc asg rp : audited Q (pending_on_asg rpc asg rp) (fun _ => anywhere).
Proof.
  unfold pending_on_asg. destruct (rp_ptype rp); eapply audited_post, audited_observe.
  - intros e b e' He. by exists e, e'.
  - intros e b e'. unfold mbind, M_bind. destruct (asg_proposal_eta _ _ _ _ e) as [[eta|err] e1] eqn:He; [|done].
    intros [= <- <-]. by exists eta, e, e1.
Qed.


Lemma audited_approved Q cfg gw asg msg h :
  audited Q (message_approved cfg gw asg msg h) (fun b => after (approval_of cfg gw asg msg h, b)).
Proof. apply audited_observe. intros e b e' He. by exists e, e'. Qed.

Lemma audited_build_proof cfg gw asg h key address msg :
  audited (after (approval_of cfg gw asg msg h, false)) (build_proof lcd_override cfg key address msg Prompt)
    (fun _ => after (approval_of cfg gw asg msg h, false)).
Proof.
  unfold build_proof. set (Q := after (approval_of cfg gw asg msg h, false)).
  apply (audited_bind Q (fun _ => Q)); [calm|]. intros prover.
  eapply audited_bind; [apply audited_prompt|]. intros u.
  eapply audited_bind; [|intros v; calm]. apply audited_send_cosmos.
  intros st [Hl Hr]. split; [|done]. unfold allows_cosmos, after, approval_of in *. by rewrite Hr, Hl, !bool_decide_true by done.
Qed.

Lemma audited_held cfg asg rp (consumed : bool) :
  audited anywhere (if consumed then pending_on_asg (rc_edge_rpc cfg) asg rp else mret true) (fun _ => anywhere).
Proof. destruct consumed; [apply audited_pending|by apply audited_ret]. Qed.
#[local] Hint Resolve audited_held : audit.

(** [ensure b;; m] after the observation [b]. *)
Lemma audited_checked {A} q (b : bool) msg (m : M G A) Q' :
  audited (after (q, true)) m Q' -> audited (after (q, b)) (ensure b msg;; m) Q'.
Proof.
  intros Hm. eapply audited_bind; [apply audited_ensure|]. intros u.
  eapply audited_weaken; [exact Hm| |done]. by intros st [-> Hs].
Qed.

Lemma audited_amplifier cfg rp msg :
  let h := keccak256 (rp_payload rp) in
  audited anywhere (deliver_amplifier lcd_override env_var cfg rp msg h Prompt) (fun _ => anywhere).
Proof.
  intros h. unfold deliver_amplifier. apply (audited_bind _ (fun _ => anywhere)); [calm|]. intros gateway.
  apply (audited_bind _ (fun _ => anywhere)); [calm|]. intros asg.
  eapply audited_bind; [apply audited_observe; intros e b e' He; by exists e, e'|]. intros consumed.
  apply (audited_bind _ (fun _ => anywhere)); [by eapply audited_weaken; [apply audited_held|..]|]. intros held.
  destruct (negb held); [calm|]. apply (audited_bind _ (fun _ => anywhere)); [calm|]. intros relayer.
  apply (audited_bind _ (fun _ => anywhere)); [calm|]. intros _. destruct consumed; [calm|].
  eapply audited_bind; [apply audited_approved|]. intros approved.
  apply (audited_bind _ (fun _ => anywhere)).
  { destruct approved; [by apply audited_ret|]. set (Q := after (approval_of cfg gateway asg msg h, false)).
    apply (audited_bind Q (fun _ => Q)); [calm|]. intros [key submitter].
    apply (audited_bind Q (fun _ => Q)); [apply audited_build_proof|]. intros data.
    apply (audited_bind Q (fun _ => Q)); [calm|]. intros d. eapply audited_post, audited_write.
    justified. }
  intros _. eapply audited_bind; [apply audited_approved|]. intros again. apply audited_checked.
  eapply audited_bind; [eapply audited_write|intros u; by apply audited_ret].
  justified.
Qed.

Lemma audited_consensus fuel cfg rp time :
  let h := keccak256 (rp_payload rp) in
  audited anywhere (deliver_consensus jittered env_var fuel cfg rp h time Prompt) (fun _ => anywhere).
Proof.
  intros h. unfold deliver_consensus. apply (audited_bind _ (fun _ => anywhere)); [calm|]. intros gateway.
  apply (audited_bind _ (fun _ => anywhere)); [calm|]. intros asg.
  apply (audited_bind _ (fun _ => anywhere)); [calm|]. intros from.
  apply (audited_bind _ (fun _ => anywhere)); [calm|]. intros approved.
  eapply audited_bind; [apply audited_observe; intros e b e' He; by exists e, e'|]. intros consumed.
  apply (audited_bind _ (fun _ => anywhere)); [by eapply audited_weaken; [apply audited_held|..]|]. intros held.
  destruct (negb held); [calm|]. apply (audited_bind _ (fun _ => anywhere)); [calm|]. intros relayer.
  apply (audited_bind _ (fun _ => anywhere)); [calm|]. intros _.
  apply (audited_bind _ (fun _ => anywhere)); [|intros _; calm]. destruct consumed; [calm|].
  eapply audited_bind; [apply audited_observe; intros e b e' He; by exists e, e'|]. intros still. apply audited_checked.
  eapply audited_post, audited_write. justified.
Qed.

(** The call waited for: its time has come, by the time the ASG answered. *)
Definition due rpc asg rp (st : AuditState) : Prop :=
  exists eta, after (EtaPassed rpc asg (rp_target rp) (rp_calldata rp) eta, true) st.

Lemma eta_passed (answer clock : Z) :
  Z.min answer u64_max <> 0 -> (Z.min answer u64_max <=? Z.max (clock / NANOS) 0) = true -> 0 < answer ->
  Z.min answer u64_max * 1000000000 <= clock.
Proof.
  intros Hne Hle Hpos. apply Z.leb_le in Hle. unfold NANOS, u64_max in *.
  pose proof (Z.mul_div_le clock 1000000000 ltac:(lia)). lia.
Qed.

Lemma audited_eta fuel rpc asg rp : audited anywhere (wait_for_eta fuel rpc asg rp) (fun _ => due rpc asg rp).
Proof.
  induction fuel as [|fuel IH]; cbn [wait_for_eta]; [calm|]. intros s (st & Hs & Hl & Hq).
  unfold ask at 1, mbind at 1, M_bind at 1.
  destruct (asg_proposal_eta rpc asg (rp_target rp) (rp_calldata rp) (g_env s)) as [[answer|err] e'] eqn:He; [|by exists st].
  cut (audited anywhere (ensure (negb (Z.min answer u64_max =? 0)) "proposal not scheduled (eta=0) after consume";;
      s ← get;
      emit (Observed (EtaPassed rpc asg (rp_target rp) (rp_calldata rp) answer)
        (Z.min answer u64_max <=? Z.max (utc_now (g_env s) / NANOS) 0));;
      if Z.min answer u64_max <=? Z.max (utc_now (g_env s) / NANOS) 0 then mret ()
      else pause ETA_POLL_INTERVAL;; wait_for_eta fuel rpc asg rp) (fun _ => due rpc asg rp)).
  { intros Hcut. apply (Hcut (mkGov e' (g_files s) (g_trace s))). by exists st. }
  eapply audited_bind; [apply audited_ensure|]. intros u.
  intros s1 (st1 & Hs1 & Hl1 & [Hne Hq1]). revert s1 Hs1 Hl1. apply negb_true_iff, Z.eqb_neq in Hne.
  intros s1 Hs1 Hl1. cut (audited anywhere (s ← get;
      emit (Observed (EtaPassed rpc asg (rp_target rp) (rp_calldata rp) answer)
        (Z.min answer u64_max <=? Z.max (utc_now (g_env s) / NANOS) 0));;
      if Z.min answer u64_max <=? Z.max (utc_now (g_env s) / NANOS) 0 then mret ()
      else pause ETA_POLL_INTERVAL;; wait_for_eta fuel rpc asg rp) (fun _ => due rpc asg rp)).
  { intros Hcut. apply (Hcut s1). by exists st1. }
  clear s1 Hs1 Hl1 st1 Hq1. apply audited_get. intros s1.
  set (b := Z.min answer u64_max <=? _).
  apply (audited_bind _ (fun _ => after (EtaPassed rpc asg (rp_target rp) (rp_calldata rp) answer, b))).
  { apply audited_emit; [|intros st1 _; by eexists]. split; [intros ->; by apply Hne|]. split; [by exists (g_env s), e'|].
    intros Hb Hpos. exists (g_env s1). by apply eta_passed. }
  intros _. destruct b; [apply audited_ret; intros st1 Hst1; by exists answer|].
  apply (audited_bind _ (fun _ => anywhere)); [|intros _; exact IH].
  by eapply audited_post, (audited_pause (after (_, false))).
Qed.

Lemma audited_relay fuel cfg info rp time :
  audited anywhere (relay jittered lcd_override env_var fuel cfg info rp time) (fun _ => anywhere).
Proof.
  unfold relay, relay_with_provider. apply (audited_bind _ (fun _ => anywhere)); [calm|]. intros msg.
  apply (audited_bind _ (fun _ => anywhere)); [calm|]. intros _.
  apply (audited_bind _ (fun _ => anywhere)); [destruct (route cfg); [apply audited_amplifier|apply audited_consensus]|].
  intros [relayer|]; [|calm]. apply (audited_bind _ (fun _ => anywhere)); [calm|]. intros asg.
  destruct (rp_ptype rp).
  - unfold execute_operator. destruct (negb _); [calm|]. eapply audited_bind; [apply audited_observe; intros e b e' He; by exists e, e'|].
    intros approved. apply audited_checked. eapply audited_post, audited_write.
    justified.
  - unfold execute_timelock. eapply audited_bind; [apply audited_eta|]. intros u.
    intros s (st & Hs & Hl & eta & Hst). eapply audited_post; [eapply audited_write|exists st; by split].
    justified.
Qed.

Lemma audited_relay_all fuel p payloads time :
  audited anywhere (relay_all jittered lcd_override env_var fuel p payloads time) (fun _ => anywhere).
Proof.
  unfold relay_all. apply (audited_bind _ (fun _ => anywhere)); [|intros outstanding; calm].
  induction (zip (calls p) payloads) as [|[c payload] l IH]; cbn [relay_each]; [calm|].
  apply (audited_bind _ (fun _ => anywhere)).
  { apply audited_caught, audited_relay. }
  intros r. apply (audited_bind _ (fun _ => anywhere)); [exact IH|]. intros rest. calm.
Qed.

Lemma audited_follow fuel args p id payloads :
  audited anywhere (follow jittered lcd_override env_var fuel args p id payloads) (fun _ => anywhere).
Proof.
  unfold follow. apply (audited_bind _ (fun _ => anywhere)); [calm|]. intros _. destruct (pa_relay args); [|calm].
  apply (audited_bind _ (fun _ => anywhere)); [calm|]. intros proposal.
  apply (audited_bind _ (fun _ => anywhere)); [calm|]. intros time. apply audited_relay_all.
Qed.

(** *** Submissions *)

Definition proposal_reviewed (proposal : Any) (f : ProposalFunding) (st : AuditState) : Prop :=
  au_review st = Some (ReviewProposal proposal f).

Lemma audited_confirm_submit args f proposal :
  waivable = pa_yes args && negb (bool_decide (pa_network args = Mainnet)) ->
  audited anywhere (confirm_submit args f proposal) (fun b st => b = true -> proposal_reviewed proposal f st).
Proof.
  intros Hw. unfold confirm_submit. apply (audited_bind _ (fun _ => anywhere)); [calm|]. intros _.
  apply (audited_bind _ (fun _ => anywhere)); [calm|]. intros _. rewrite <- Hw. destruct waivable eqn:E'.
  - apply (audited_bind _ (fun _ => proposal_reviewed proposal f)); [|intros _; by apply audited_ret].
    apply audited_emit; [done|]. intros st _. simpl. rewrite E'. by eexists.
  - apply (audited_bind _ (fun _ => anywhere)); [calm|]. intros approved.
    eapply audited_bind; [apply audited_review|]. intros u. apply audited_ret. by intros st (st0 & _ & ->) ->.
Qed.

Lemma audited_submit p args proposal key f :
  audited (proposal_reviewed proposal f) (submit p args proposal key f) (fun _ => anywhere).
Proof.
  unfold submit. set (Q := proposal_reviewed proposal f).
  eapply monitored_bind; [apply (monitored_lift _ _ _ _ _ (fun st _ => Q st))|]. intros message. simpl.
  apply (audited_bind (fun st => submission f proposal = Ok message /\ Q st)
    (fun _ st => submission f proposal = Ok message /\ Q st)); [calm|]. intros _.
  apply (audited_bind _ (fun _ st => submission f proposal = Ok message /\ Q st)); [calm|]. intros _.
  apply (audited_bind _ (fun _ => anywhere)); [|intros v; calm]. apply audited_send_cosmos.
  intros st [Hm Hr]. split; [|done]. unfold allows_cosmos. rewrite Hr, bool_decide_true by done. rewrite Hm.
  by rewrite bool_decide_true.
Qed.

Lemma audited_submit_new args p :
  waivable = pa_yes args && negb (bool_decide (pa_network args = Mainnet)) ->
  audited anywhere (submit_new env_var args p) (fun _ => anywhere).
Proof.
  intros Hw. unfold submit_new. do 3 (apply (audited_bind _ (fun _ => anywhere)); [calm|]; intros _).
  apply (audited_bind _ (fun _ => anywhere)); [calm|]. intros [key submitter].
  apply (audited_bind _ (fun _ => anywhere)); [calm|]. intros deposit.
  apply (audited_bind _ (fun _ => anywhere)); [calm|]. intros f.
  apply (audited_bind _ (fun _ => anywhere)); [calm|]. intros _. apply audited_get. intros s.
  apply (audited_bind _ (fun _ => anywhere)); [calm|]. intros proposal.
  eapply audited_bind; [by apply audited_confirm_submit|]. intros [|]; simpl.
  - apply (audited_bind _ (fun _ => anywhere)); [|intros id; calm].
    eapply audited_weaken; [apply audited_submit| |done]. auto.
  - by apply audited_ret.
Qed.

Lemma audited_run fuel args :
  waivable = pa_yes args && negb (bool_decide (pa_network args = Mainnet)) ->
  audited anywhere (run jittered lcd_override env_var is_terminal fuel args) (fun _ => anywhere).
Proof.
  intros Hw. unfold run. do 2 (apply (audited_bind _ (fun _ => anywhere)); [calm|]; intros _).
  apply (audited_bind _ (fun _ => anywhere)); [calm|]. intros config.
  apply (audited_bind _ (fun _ => anywhere)); [calm|]. intros p. unfold run_plan.
  apply (audited_bind _ (fun _ => anywhere)); [calm|]. intros _.
  apply (audited_bind _ (fun _ => anywhere)); [apply audited_emit; [done|]; intros st _; by exists st|]. intros _.
  apply (audited_bind _ (fun _ => anywhere)); [calm|]. intros [[proposal payloads]|].
  - apply (audited_bind _ (fun _ => anywhere)); [calm|]. intros id. apply audited_follow.
  - apply (audited_bind _ (fun _ => anywhere)); [by apply audited_submit_new|].
    intros [[id payloads]|]; [apply audited_follow|calm].
Qed.
End Audited.

(** C13: whatever the networks answer, every write of a run is shown to the operator
    and approved, directly after the observation that calls for it, and what is
    sent is what was shown.  The observation is about the same chain and
    contract and about what is delivered: a proof of a message is requested and
    submitted while the gateway has not approved that message for the ASG, the
    ASG is given the payload whose hash the gateway has approved for it under
    that command, and a call is executed when the ASG holds exactly this call or
    its time has come.  Each observation is an answer of that chain to exactly
    that question, and a time has come only if the clock has passed it.  Only the
    prompt of the proposal itself can be waived, by [--y] and not on mainnet. *)
Theorem run_audited {E : Type} `{Host E, GovEnv E, WebText, UrlLib, GovAbi, EvmLib, ConfigLib, CosmosLib, CosmosAccounts,
    MessageLib, HashOrder} jittered lcd_override env_var is_terminal fuel args (e : E) files :
  let t := g_trace (run jittered lcd_override env_var is_terminal fuel args (mkGov e files [])).2 in
  is_Some (audit (pa_yes args && negb (bool_decide (pa_network args = Mainnet))) t) /\
  forall q answer, Observed q answer ∈ t -> told (E := E) q answer.
Proof.
  assert (audited (pa_yes args && negb (bool_decide (pa_network args = Mainnet))) anywhere
    (run jittered lcd_override env_var is_terminal fuel args) (fun _ => anywhere)) as Hr by by apply audited_run.
  specialize (Hr (mkGov e files []) ltac:(by eexists)).
  destruct (run _ _ _ _ _ _ _) as [[u|why] s]; destruct Hr as (st & Hst & Hh & _);
    (split; [by exists st|]); intros q answer Hin;
    by apply (proj1 (list.Forall_forall _ _) Hh (Observed q answer)).
Qed.
