(* ===== verification/ProposeOnce.v ===== *)
(** * A call is submitted once

    The ledger of a call counts the proposals that carry it against the marker
    of the call, over any number of runs, each cut at any point.  A run that
    submits has read the hub's proposals to the end without a match. *)

From Stdlib Require Import Ascii.
From Stdlib Require String.
From S2P Require Import Prelude Monitor Types Retry Journal Chain Plan Config Intent Json Cosmos Target CosmosSteps LoadTest LoadNet LoadDestinations LoadEngine Propose ProposeNet ProposeRun ProposeSafety.

(** ** Quiet programs *)

(** A broadcast that may carry a proposal. *)
Definition is_submission (messages : list Any) : bool :=
  existsb (fun m => bool_decide (type_url m = SUBMIT_PROPOSAL) || bool_decide (type_url m = "/cosmos.authz.v1beta1.MsgExec"))
    messages.

Definition quiet_event (ev : gov_event) : Prop :=
  match ev with
  | Planned _ | Created _ | Removed _ => False
  | SentCosmos _ messages => is_submission messages = false
  | Observed _ _ | Reviewed _ _ | Waived _ _ | SentEvm _ _ _ _ => True
  end.

Create HintDb quiet.

Section Quiet.
Context {E : Type} `{Host E, GovEnv E, WebText, UrlLib, GovAbi, EvmLib, ConfigLib, CosmosLib, CosmosAccounts,
                     MessageLib, HashOrder}.
Abbreviation G := (Gov E).
Variables (jittered : Z -> Z) (lcd_override : option string) (env_var : string -> option string) (is_terminal : bool).

(** Markers stay, and only quiet events are added. *)
Definition quiet {A} (m : M G A) : Prop := forall s,
  g_files (m s).2 = g_files s /\ exists t, g_trace (m s).2 = g_trace s ++ t /\ Forall quiet_event t.

Lemma hushed_id {A} (m : M G A) : (forall s, g_files (m s).2 = g_files s /\ g_trace (m s).2 = g_trace s) -> quiet m.
Proof. intros Hm s. destruct (Hm s) as [Hf Ht]. split; [done|]. exists []. by rewrite Ht, app_nil_r. Qed.

Lemma hushed_bind {A B} (m : M G A) (f : A -> M G B) : quiet m -> (forall a, quiet (f a)) -> quiet (m ≫= f).
Proof.
  intros Hm Hf s. destruct (Hm s) as (Hfm & t & Ht & Hq). unfold mbind, M_bind.
  destruct (m s) as [[a|e] s']; simpl in *; [|eauto]. destruct (Hf a s') as (Hff & u & Hu & Hq').
  split; [congruence|]. exists (t ++ u). rewrite Hu, Ht, app_assoc. split; [done|]. by apply Forall_app.
Qed.

Lemma hushed_ret {A} (a : A) : quiet (mret a).
Proof. by apply hushed_id. Qed.
Lemma hushed_lift {A} (r : result A) : quiet (lift r).
Proof. by apply hushed_id. Qed.
Lemma hushed_throw {A} e : quiet (A := A) (throw e).
Proof. by apply hushed_id. Qed.
Lemma hushed_ensure b msg : quiet (ensure b msg).
Proof. apply hushed_lift. Qed.
Lemma hushed_has m : quiet (has_marker m).
Proof. by apply hushed_id. Qed.
Lemma hushed_ask {A} (m : M E A) : quiet (ask m).
Proof. apply hushed_id. intros s. unfold ask. by destruct (m (g_env s)). Qed.
Lemma hushed_emit ev : quiet_event ev -> quiet (emit ev).
Proof. intros Hq s. split; [done|]. exists [ev]. by repeat constructor. Qed.
Lemma hushed_get {A} (f : G -> M G A) : (forall s, quiet (f s)) -> quiet (s ← get; f s).
Proof. intros Hf s. apply (Hf s s). Qed.
Lemma hushed_caught {A} (m : M G A) : quiet m -> quiet (caught m).
Proof. intros Hm s. specialize (Hm s). unfold caught. by destruct (m s) as [[a|[]] s']. Qed.
Lemma hushed_for_each {A} (f : A -> M G ()) l : (forall x, quiet (f x)) -> quiet (for_each f l).
Proof. intros Hf. induction l; [apply hushed_ret|]. by apply hushed_bind. Qed.

Ltac hush :=
  lazymatch goal with
  | |- quiet (mret _) => apply hushed_ret
  | |- quiet (lift _) => apply hushed_lift
  | |- quiet (ask _) => apply hushed_ask
  | |- quiet (throw _) => apply hushed_throw
  | |- quiet (has_marker _) => apply hushed_has
  | |- quiet (ensure _ _) => apply hushed_ensure
  | |- quiet (emit _) => by apply hushed_emit
  | |- quiet (for_each _ _) => apply hushed_for_each; intros ?; hush
  | |- quiet (caught _) => apply hushed_caught; hush
  | |- quiet (get ≫= _) => apply hushed_get; intros ?; hush
  | |- quiet (_ ≫= _) => apply hushed_bind; [hush|intros ?; hush]
  | |- quiet (match ?x with _ => _ end) => destruct x; hush
  | |- _ => first [done | by eauto with quiet]
  end.

Lemma hushed_observe q m : quiet (observe q m).
Proof. unfold observe. hush. Qed.
Lemma hushed_pause n : quiet (pause n).
Proof. apply hushed_ask. Qed.
Lemma hushed_confirm prompt : quiet (confirm prompt).
Proof. apply hushed_ask. Qed.
Lemma hushed_check m new : quiet (guard_check m new).
Proof. unfold guard_check. hush. Qed.
#[local] Hint Resolve hushed_observe hushed_pause hushed_confirm hushed_check : quiet.
Lemma hushed_coverage p new : quiet (coverage_check p new).
Proof. unfold coverage_check. hush. Qed.
Lemma hushed_simulate lcd raw : quiet (simulate_tx lcd raw).
Proof. unfold simulate_tx. hush. Qed.
Lemma hushed_broadcast lcd raw : quiet (broadcast_tx lcd raw).
Proof. unfold broadcast_tx. hush. Qed.
Lemma hushed_wait_tx n lcd hash : quiet (wait_for_tx n lcd hash).
Proof. induction n; cbn [wait_for_tx]; hush. Qed.
#[local] Hint Resolve hushed_coverage hushed_simulate hushed_broadcast hushed_wait_tx : quiet.
Lemma hushed_send key address lcd chain denom price messages :
  is_submission messages = false -> quiet (sign_and_broadcast_cosmos_tx key address lcd chain denom price messages).
Proof. intros Hm. unfold sign_and_broadcast_cosmos_tx. hush. Qed.
Lemma hushed_funding network h submitter deposit : quiet (resolve_funding network h submitter deposit).
Proof. unfold resolve_funding, check_grant. hush. Qed.
Lemma hushed_funded rpc a : quiet (ensure_funded rpc a).
Proof. unfold ensure_funded. hush. Qed.
#[local] Hint Resolve hushed_send hushed_funding hushed_funded : quiet.
Lemma hushed_preflight cfg : quiet (preflight_relayer env_var cfg).
Proof. unfold preflight_relayer. hush. Qed.
Lemma hushed_confirm_submit args f proposal : quiet (confirm_submit args f proposal).
Proof. unfold confirm_submit. hush. Qed.
Lemma hushed_write cfg from to w : quiet (approved_write Prompt cfg from to w).
Proof. unfold approved_write, approve_evm, send_evm. hush. Qed.
Lemma hushed_proof n first lcd prover id : quiet (wait_for_proof lcd_override n first lcd prover id).
Proof. revert first. induction n; intros first; cbn [wait_for_proof]; hush. Qed.
#[local] Hint Resolve hushed_preflight hushed_confirm_submit hushed_write hushed_proof : quiet.
Lemma hushed_build_proof cfg key address msg : quiet (build_proof lcd_override cfg key address msg Prompt).
Proof. unfold build_proof, approve_cosmos. hush. Qed.
Lemma hushed_wait_approval n rpc gw asg h b : quiet (wait_for_approval jittered n rpc gw asg h b).
Proof. induction n; cbn [wait_for_approval]; hush. Qed.
Lemma hushed_eta n rpc asg rp : quiet (wait_for_eta n rpc asg rp).
Proof. induction n; cbn [wait_for_eta]; hush. Qed.
#[local] Hint Resolve hushed_build_proof hushed_wait_approval hushed_eta : quiet.
Lemma hushed_relay fuel cfg info rp time : quiet (relay jittered lcd_override env_var fuel cfg info rp time).
Proof.
  unfold relay, relay_with_provider, deliver_amplifier, deliver_consensus, execute_operator, execute_timelock,
    pending_on_asg, message_approved, connect. hush.
Qed.
#[local] Hint Resolve hushed_relay : quiet.
Lemma hushed_relay_each fuel t l time : quiet (relay_each jittered lcd_override env_var fuel t l time).
Proof. induction l as [|[c payload] l IH]; cbn [relay_each]; hush. Qed.
#[local] Hint Resolve hushed_relay_each : quiet.
Lemma hushed_follow fuel args p id payloads : quiet (follow jittered lcd_override env_var fuel args p id payloads).
Proof. unfold follow, relay_all. hush. Qed.
End Quiet.

(** ** The ledger of a call *)

Record Ledger : Type := mkLedger {
  ld_present : bool;    (* the marker is on disk *)
  ld_covered : bool;    (* the plan of the run carries the call *)
  ld_credit : Z         (* submissions the run may still make *)
}.

Section Ledger.
Context `{EvmLib, ConfigLib, MessageLib}.
Variable m : Marker.

Definition ledger_step (st : Ledger) (ev : gov_event) : option Ledger :=
  match ev with
  | Planned p => Some (mkLedger (ld_present st) (bool_decide (m ∈ call_markers p)) (ld_credit st))
  | Created x =>
      if decide (x = m) then
        if ld_present st then None else Some (mkLedger true (ld_covered st) (ld_credit st + 1))
      else Some st
  | Removed x =>
      if decide (x = m) then
        if ld_present st && (1 <=? ld_credit st) then Some (mkLedger false (ld_covered st) (ld_credit st - 1)) else None
      else Some st
  | SentCosmos _ messages =>
      if ld_covered st && is_submission messages then
        if 1 <=? ld_credit st then Some (mkLedger (ld_present st) (ld_covered st) (ld_credit st - 1)) else None
      else Some st
  | Observed _ _ | Reviewed _ _ | Waived _ _ | SentEvm _ _ _ _ => Some st
  end.

(** The submissions of a trace that carry the call. *)
Fixpoint carried (covered : bool) (t : list gov_event) : Z :=
  match t with
  | [] => 0
  | Planned p :: t => carried (bool_decide (m ∈ call_markers p)) t
  | SentCosmos _ messages :: t => (if covered && is_submission messages then 1 else 0) + carried covered t
  | _ :: t => carried covered t
  end.

(** The files after a trace. *)
Definition file_step (files : gset Marker) (ev : gov_event) : gset Marker :=
  match ev with
  | Created x => {[x]} ∪ files
  | Removed x => files ∖ {[x]}
  | _ => files
  end.
Definition replay (files : gset Marker) (t : list gov_event) : gset Marker := foldl file_step files t.

Definition absent (b : bool) : Z := if b then 0 else 1.

Lemma ledger_counts t st st' files :
  monitor ledger_step st t = Some st' -> ld_present st = bool_decide (m ∈ files) -> 0 <= ld_credit st ->
  0 <= ld_credit st' /\ ld_present st' = bool_decide (m ∈ replay files t) /\
  carried (ld_covered st) t + absent (ld_present st') + ld_credit st' = absent (ld_present st) + ld_credit st.
Proof.
  revert st files. induction t as [|ev t IH]; intros st files.
  { intros [= <-] Hp Hc. simpl. (split; [done|split; [done|lia]]). }
  change (ev :: t) with ([ev] ++ t). rewrite monitor_app. cbn [monitor foldl mbind option_bind].
  destruct (ledger_step st ev) as [st1|] eqn:Hs; [|done]. cbn [mbind option_bind]. intros Hm Hp Hc.
  assert (ld_present st1 = bool_decide (m ∈ file_step files ev) /\ 0 <= ld_credit st1 /\
    carried (ld_covered st) ([ev] ++ t) + absent (ld_present st1) + ld_credit st1 =
      carried (ld_covered st1) t + absent (ld_present st) + ld_credit st) as (Hp1 & Hc1 & Hsum).
  { destruct ev as [p|q a|r a|pr f|x|x|signer messages|rpc from to w]; simpl in Hs |- *;
      try (injection Hs as <-; simpl; (split; [done|split; [done|lia]])).
    - destruct (decide (x = m)) as [->|Hx]; [destruct (ld_present st) eqn:Hpr; [done|]|]; injection Hs as <-; simpl.
      + rewrite bool_decide_true by set_solver. (split; [done|split; lia]).
      + rewrite Hp. split; [apply bool_decide_ext; set_solver|]. lia.
    - destruct (decide (x = m)) as [->|Hx]; [destruct (ld_present st && _) eqn:Hpr; [|done]|]; injection Hs as <-; simpl.
      + apply andb_true_iff in Hpr as [-> Hcr]. rewrite bool_decide_false by set_solver. simpl. lia.
      + rewrite Hp. split; [apply bool_decide_ext; set_solver|]. lia.
    - destruct (ld_covered st && is_submission messages) eqn:Hcov; [destruct (Z.leb_spec 1 (ld_credit st)); [|done]|];
        injection Hs as <-; simpl; (split; [done|]).
      + apply andb_true_iff in Hcov as [Hcv _]. lia.
      + lia. }
  destruct (IH st1 (file_step files ev) Hm Hp1 Hc1) as (Hc' & Hp' & Hcount). split; [done|]. split; [exact Hp'|]. lia.
Qed.

Lemma hushed_silent ev : quiet_event ev -> silent ledger_step ev.
Proof.
  destruct ev; simpl; try done. intros Hm st. simpl. by rewrite Hm, andb_false_r.
Qed.
End Ledger.

Section Accounted.
Context {E : Type} `{Host E, GovEnv E, WebText, UrlLib, GovAbi, EvmLib, ConfigLib, CosmosLib, CosmosAccounts,
                     MessageLib, HashOrder}.
Abbreviation G := (Gov E).
Variables (jittered : Z -> Z) (lcd_override : option string) (env_var : string -> option string) (is_terminal : bool).
Variables (k : B256) (new : bool) (init : Ledger).
Abbreviation m := (CallMarker k).
Abbreviation allowance := (if new then 1 else 0).

(** The ledger knows the disk, and has at least [c] left. *)
Definition accounts (covered : bool) (c : Z) (st : Ledger) (files : gset Marker) : Prop :=
  ld_present st = bool_decide (m ∈ files) /\ ld_covered st = covered /\ c <= ld_credit st.
Definition keeps {A} (Q : Ledger -> gset Marker -> Prop) (prog : M G A) (Q' : Ledger -> gset Marker -> Prop) : Prop :=
  monitored (@g_trace E) (@g_files E) (ledger_step m) init (fun _ _ => True) Q prog (fun _ => Q').

Lemma keeps_quiet {A} Q (prog : M G A) : quiet prog -> keeps Q prog Q.
Proof.
  intros Hq s (st & Hm & Hst). destruct (Hq s) as (Hf & t & Ht & Hall).
  assert (forall t st, Forall quiet_event t -> monitor (ledger_step m) st t = Some st) as Hsilent.
  { clear. induction t as [|ev t IH]; intros st Ht; [done|]. inversion Ht; subst.
    change (ev :: t) with ([ev] ++ t). rewrite monitor_app. cbn. rewrite hushed_silent by done. simpl. by apply IH. }
  destruct (prog s) as [[a|e] s']; simpl in *; exists st; rewrite Ht, monitor_app, Hm; simpl; rewrite Hsilent by done;
    (split; [done|]); [by rewrite Hf|done].
Qed.

Lemma keeps_bind {A B} Q R Q' (prog : M G A) (f : A -> M G B) :
  keeps Q prog R -> (forall a, keeps R (f a) Q') -> keeps Q (prog ≫= f) Q'.
Proof. apply monitored_bind. Qed.

Lemma keeps_weaken {A} Q R (prog : M G A) (Q' R' : Ledger -> gset Marker -> Prop) :
  keeps Q prog Q' -> (forall st fs, R st fs -> Q st fs) -> (forall st fs, Q' st fs -> R' st fs) -> keeps R prog R'.
Proof. intros Hk Hr Hq. eapply monitored_weaken; [exact Hk|exact Hr|]. intros a. exact Hq. Qed.

(** Claiming another marker leaves the ledger alone. *)
Lemma keeps_other x present cov c : x <> m -> keeps (accounts cov c) (set_marker x present) (accounts cov c).
Proof.
  intros Hx. apply monitored_marker. intros st fs (Hp & Hc). exists st.
  split; [by destruct present; simpl; rewrite decide_False|]. split; [|done]. rewrite Hp. apply bool_decide_ext.
  destruct present; set_solver.
Qed.

Lemma keeps_has x Q (f : bool -> M G ()) Q' :
  (forall b, keeps (fun st fs => b = bool_decide (x ∈ fs) /\ Q st fs) (f b) Q') -> keeps Q (b ← has_marker x; f b) Q'.
Proof. intros Hf. eapply monitored_bind; [apply monitored_has|exact Hf]. Qed.

Lemma keeps_throw {A} Q e Q' : keeps (A := A) Q (throw e) Q'.
Proof. apply monitored_throw. Qed.

Lemma keeps_create_other x cov c : x <> m -> keeps (accounts cov c) (create_marker x) (accounts cov c).
Proof.
  intros Hx. unfold create_marker. eapply keeps_bind; [apply keeps_quiet, hushed_ask|]. intros outcome.
  apply keeps_has. intros [|]; [apply keeps_throw|].
  eapply (keeps_weaken (accounts cov c)); [|by intros st fs [_ Hs]|by intros st fs Hs; exact Hs].
  destruct outcome; [by apply keeps_other|apply keeps_throw|].
  eapply keeps_bind; [by apply keeps_other|intros u; apply keeps_throw].
Qed.

Lemma keeps_remove_other x cov c : x <> m -> keeps (accounts cov c) (remove_marker x) (accounts cov c).
Proof.
  intros Hx. unfold remove_marker. eapply keeps_bind; [apply keeps_quiet, hushed_ask|]. intros outcome.
  eapply keeps_bind; [apply keeps_quiet, hushed_has|]. intros present.
  assert (keeps (accounts cov c) (if present then set_marker x false else mret ()) (accounts cov c)) as Hif
    by (destruct present; [by apply keeps_other|apply keeps_quiet, hushed_ret]).
  destruct outcome; [done|apply keeps_throw|]. eapply keeps_bind; [exact Hif|intros u; apply keeps_throw].
Qed.

Lemma keeps_claim_other x cov c : x <> m -> keeps (accounts cov c) (guard_claim x new) (accounts cov c).
Proof.
  intros Hx. unfold guard_claim. eapply keeps_bind; [apply keeps_quiet, hushed_ask|]. intros _.
  eapply keeps_bind; [destruct new; [by apply keeps_remove_other|apply keeps_quiet, hushed_ret]|]. intros _.
  eapply keeps_bind; [by apply keeps_create_other|]. intros _. apply keeps_quiet, hushed_ask.
Qed.

(** Claiming the marker itself earns a submission. *)
Lemma keeps_create cov c : keeps (accounts cov c) (create_marker m) (accounts cov (c + 1)).
Proof.
  unfold create_marker. eapply keeps_bind; [apply keeps_quiet, hushed_ask|]. intros outcome.
  apply keeps_has. intros [|]; [apply keeps_throw|].
  assert (keeps (fun st fs => false = bool_decide (m ∈ fs) /\ accounts cov c st fs) (set_marker m true)
    (accounts cov (c + 1))) as Hset.
  { apply monitored_marker. intros st fs (Hf & Hp & Hc & Hcr). exists (mkLedger true (ld_covered st) (ld_credit st + 1)).
    simpl. rewrite decide_True by done. rewrite Hp, <- Hf. split; [done|]. (split; [|split; [done|simpl; lia]]). simpl.
    symmetry. apply bool_decide_true. set_solver. }
  destruct outcome; [done|apply keeps_throw|]. eapply keeps_bind; [exact Hset|intros u; apply keeps_throw].
Qed.

Lemma keeps_remove cov : keeps (accounts cov 1) (remove_marker m) (accounts cov 0).
Proof.
  unfold remove_marker. eapply keeps_bind; [apply keeps_quiet, hushed_ask|]. intros outcome.
  apply keeps_has. intros present.
  assert (keeps (fun st fs => present = bool_decide (m ∈ fs) /\ accounts cov 1 st fs)
    (if present then set_marker m false else mret ()) (accounts cov 0)) as Hset.
  { destruct present.
    - apply monitored_marker. intros st fs (Hf & Hp & Hc & Hcr). exists (mkLedger false (ld_covered st) (ld_credit st - 1)).
      simpl. rewrite decide_True by done. rewrite Hp, <- Hf. rewrite (proj2 (Z.leb_le 1 _)) by lia. split; [done|].
      (split; [|split; [done|simpl; lia]]). simpl. symmetry. apply bool_decide_false. set_solver.
    - eapply keeps_weaken; [apply keeps_quiet, hushed_ret|by intros st fs Hs; exact Hs|].
      intros st fs (_ & Hp & Hc & Hcr). (split; [done|split; [done|lia]]). }
  destruct outcome; [done|apply keeps_throw|]. eapply keeps_bind; [exact Hset|intros u; apply keeps_throw].
Qed.

Lemma accounts_less cov c c' st fs : c' <= c -> accounts cov c st fs -> accounts cov c' st fs.
Proof. intros Hc (Hp & Hcv & Hcr). (split; [done|split; [done|lia]]). Qed.

Lemma keeps_claim cov c : allowance <= c -> keeps (accounts cov c) (guard_claim m new) (accounts cov 1).
Proof.
  intros Hc. unfold guard_claim. eapply keeps_bind; [apply keeps_quiet, hushed_ask|]. intros _.
  apply (keeps_bind _ (accounts cov 0)).
  { destruct new; simpl in Hc.
    - eapply keeps_weaken; [apply (keeps_remove cov)|intros st fs; apply accounts_less; lia|done].
    - eapply keeps_weaken; [apply keeps_quiet, hushed_ret|intros st fs Hs; exact Hs|]. intros st fs. apply accounts_less. lia. }
  intros _. eapply keeps_bind; [apply (keeps_create cov 0)|]. intros _. apply keeps_quiet, hushed_ask.
Qed.

Lemma keeps_claims l cov c :
  allowance <= c <= 1 ->
  keeps (accounts cov c) (for_each (fun x => guard_claim x new) l) (accounts cov (if bool_decide (m ∈ l) then 1 else c)).
Proof.
  revert c. induction l as [|x l IH]; intros c Hc; cbn [for_each].
  { rewrite bool_decide_false by apply not_elem_of_nil. apply keeps_quiet, hushed_ret. }
  destruct (decide (x = m)) as [->|Hx].
  - rewrite (bool_decide_true (m ∈ m :: l)) by set_solver. eapply keeps_bind; [apply keeps_claim, Hc|]. intros _.
    eapply keeps_weaken; [apply (IH 1); destruct new; lia|done|]. by destruct (bool_decide (m ∈ l)).
  - eapply keeps_bind; [by apply keeps_claim_other|]. intros _.
    rewrite (bool_decide_ext (m ∈ x :: l) (m ∈ l)) by set_solver. by apply IH.
Qed.

Lemma keeps_send cov key address lcd chain denom price messages c :
  0 <= c -> (cov = true -> 1 <= c) ->
  keeps (accounts cov c) (sign_and_broadcast_cosmos_tx key address lcd chain denom price messages) (accounts cov 0).
Proof.
  intros Hpos Hc. unfold sign_and_broadcast_cosmos_tx.
  eapply keeps_bind; [apply keeps_quiet, hushed_ask|]. intros [number sequence].
  eapply keeps_bind; [apply keeps_quiet, hushed_lift|]. intros sim.
  eapply keeps_bind; [apply keeps_quiet, hushed_simulate|]. intros gas.
  eapply keeps_bind; [apply keeps_quiet, hushed_lift|]. intros raw.
  apply (keeps_bind _ (accounts cov 0)).
  { apply monitored_emit. intros st fs (Hp & Hcov & Hcr). simpl. rewrite Hcov.
    destruct (cov && is_submission messages) eqn:Hs.
    - apply andb_true_iff in Hs as [-> _]. rewrite (proj2 (Z.leb_le 1 _)) by (specialize (Hc eq_refl); lia).
      eexists. split; [done|]. specialize (Hc eq_refl). (split; [done|split; [done|simpl; lia]]).
    - exists st. split; [done|]. (split; [done|split; [done|lia]]). }
  intros _. eapply keeps_bind; [apply keeps_quiet, hushed_broadcast|]. intros v. apply keeps_quiet, hushed_wait_tx.
Qed.

Abbreviation covers p := (bool_decide (m ∈ call_markers p)).

Lemma keeps_submit args p proposal key f :
  pa_new_proposal args = new ->
  keeps (accounts (covers p) allowance) (submit p args proposal key f) (accounts (covers p) 0).
Proof.
  intros Hnew. unfold submit. rewrite Hnew. eapply keeps_bind; [apply keeps_quiet, hushed_lift|]. intros message.
  eapply keeps_bind; [by apply keeps_claim_other|]. intros _. eapply keeps_bind.
  { unfold coverage_claim. eapply keeps_bind; [apply keeps_quiet, hushed_coverage|]. intros _.
    apply keeps_claims. destruct new; lia. }
  intros _. eapply keeps_bind; [apply keeps_send|intros v; apply keeps_quiet, hushed_lift].
  - destruct (covers p), new; lia.
  - by intros ->.
Qed.

Lemma keeps_submit_new args p :
  pa_new_proposal args = new ->
  keeps (accounts (covers p) allowance) (submit_new env_var args p) (fun _ _ => True).
Proof.
  intros Hnew. unfold submit_new.
  eapply keeps_bind; [apply keeps_quiet, hushed_check|]. intros _.
  eapply keeps_bind; [apply keeps_quiet, hushed_coverage|]. intros _.
  eapply keeps_bind; [apply keeps_quiet, hushed_for_each; intros c; apply hushed_ask|]. intros _.
  eapply keeps_bind; [apply keeps_quiet, hushed_lift|]. intros [key submitter].
  eapply keeps_bind; [apply keeps_quiet, hushed_lift|]. intros deposit.
  eapply keeps_bind; [apply keeps_quiet, hushed_funding|]. intros f.
  eapply keeps_bind.
  { apply keeps_quiet. destruct (pa_relay args); [apply hushed_for_each; intros c; apply hushed_preflight|apply hushed_ret]. }
  intros _. apply monitored_get. intros s. eapply keeps_bind; [apply keeps_quiet, hushed_lift|]. intros proposal.
  eapply keeps_bind; [apply keeps_quiet, hushed_confirm_submit|]. intros approved. destruct (negb approved).
  - eapply keeps_weaken; [apply keeps_quiet, hushed_ret|intros st fs Hs; exact Hs|done].
  - eapply keeps_bind; [by apply keeps_submit|]. intros id.
    eapply keeps_weaken; [apply keeps_quiet, hushed_ret|intros st fs Hs; exact Hs|done].
Qed.

Lemma keeps_run fuel args :
  pa_new_proposal args = new ->
  keeps (accounts false allowance) (run jittered lcd_override env_var is_terminal fuel args) (fun _ _ => True).
Proof.
  intros Hnew. unfold run. eapply keeps_bind; [apply keeps_quiet, hushed_lift|]. intros _.
  eapply keeps_bind; [apply keeps_quiet, hushed_ensure|]. intros _.
  eapply keeps_bind; [apply keeps_quiet, hushed_ask|]. intros config.
  eapply keeps_bind; [apply keeps_quiet, hushed_ask|]. intros p. unfold run_plan.
  eapply keeps_bind; [apply keeps_quiet, hushed_ask|]. intros _.
  apply (keeps_bind _ (accounts (covers p) allowance)).
  { apply monitored_emit. intros st fs (Hp & _ & Hc). by eexists. }
  intros _. eapply keeps_bind; [apply keeps_quiet, hushed_ask|].
  assert (forall id payloads, keeps (fun _ _ => True) (follow jittered lcd_override env_var fuel args p id payloads)
    (fun _ _ => True)) as Hfollow by (intros; apply keeps_quiet, hushed_follow).
  intros [[proposal payloads]|].
  - eapply keeps_bind; [apply keeps_quiet, hushed_lift|]. intros id. eapply keeps_weaken; [apply Hfollow|done|done].
  - eapply keeps_bind; [by apply keeps_submit_new|]. intros [[id payloads]|]; [apply Hfollow|apply keeps_quiet, hushed_ret].
Qed.
End Accounted.

(** ** Any number of runs *)

Section Lifetime.
Context {E : Type} `{Host E, GovEnv E, WebText, UrlLib, GovAbi, EvmLib, ConfigLib, CosmosLib, CosmosAccounts,
                     MessageLib, HashOrder}.

(** Runs one after the other on one machine, each cut at any point of its
    trace: the files are what the events so far left. *)
Inductive lifetime (files : gset Marker) : list (ProposeArgs * list gov_event) -> gset Marker -> Prop :=
  | life_start : lifetime files [] files
  | life_run runs files' jittered lcd_override env_var is_terminal fuel args (e : E) t :
      lifetime files runs files' ->
      t `prefix_of` g_trace (run jittered lcd_override env_var is_terminal fuel args (mkGov e files' [])).2 ->
      lifetime files (runs ++ [(args, t)]) (replay files' t).

Definition total (f : ProposeArgs * list gov_event -> Z) (runs : list (ProposeArgs * list gov_event)) : Z :=
  foldr (fun r acc => f r + acc) 0 runs.

Lemma total_app f runs runs' : total f (runs ++ runs') = total f runs + total f runs'.
Proof. induction runs as [|r runs IH]; simpl; [done|]. rewrite IH. lia. Qed.

Definition asks_new (r : ProposeArgs * list gov_event) : Z := if pa_new_proposal r.1 then 1 else 0.

Lemma lifetime_counts k files runs files' :
  lifetime files runs files' ->
  total (fun r => carried (CallMarker k) false r.2) runs + absent (bool_decide (CallMarker k ∈ files')) <=
    absent (bool_decide (CallMarker k ∈ files)) + total asks_new runs.
Proof.
  induction 1 as [|runs files' jittered lcd_override env_var is_terminal fuel args e t Hlife IH Ht]; [simpl; lia|].
  set (init := mkLedger (bool_decide (CallMarker k ∈ files')) false (if pa_new_proposal args then 1 else 0)).
  assert (is_Some (monitor (ledger_step (CallMarker k)) init t)) as [st Hst].
  { eapply monitor_prefix; [exact Ht|].
    pose proof (keeps_run jittered lcd_override env_var is_terminal k (pa_new_proposal args) init fuel args eq_refl
      (mkGov e files' [])) as Hrun.
    specialize (Hrun ltac:(exists init; split; [done|]; split; [done|split; [done|simpl; lia]])).
    destruct (run _ _ _ _ _ _ _) as [[u|why] s]; destruct Hrun as (st & Hst & _); by exists st. }
  destruct (ledger_counts (CallMarker k) t init st files' Hst) as (Hc & Hp & Hcount); [done|by simpl; case_match|].
  rewrite !total_app. simpl in *. rewrite <- Hp. unfold asks_new at 2. simpl. unfold init in Hcount. simpl in Hcount. lia.
Qed.
End Lifetime.

(** C14: a call is submitted at most once, however often the command is run and
    wherever the runs are interrupted: over any number of runs on one machine,
    the proposals broadcast with the call are at most one more than the runs
    that were asked for a new proposal. *)
Theorem submissions_bounded {E : Type} `{Host E, GovEnv E, WebText, UrlLib, GovAbi, EvmLib, ConfigLib, CosmosLib,
    CosmosAccounts, MessageLib, HashOrder} c runs files :
  lifetime (E := E) ∅ runs files ->
  total (fun r => carried (call_marker c) false r.2) runs <= 1 + total asks_new runs.
Proof.
  intros Hlife. assert (exists k, call_marker c = CallMarker k) as [k ->] by by eexists.
  pose proof (lifetime_counts k ∅ runs files Hlife) as Hc. rewrite (bool_decide_false (_ ∈ ∅)) in Hc by set_solver.
  assert (0 <= absent (bool_decide (CallMarker k ∈ files))) by (unfold absent; case_match; lia). simpl in Hc. lia.
Qed.

(** ** A submission follows a complete search *)

Section Search.
Context {E : Type} `{Host E, GovEnv E, WebText, UrlLib, GovAbi, EvmLib, ConfigLib, CosmosLib, CosmosAccounts,
                     MessageLib, HashOrder}.
Abbreviation G := (Gov E).
Variables (jittered : Z -> Z) (lcd_override : option string) (env_var : string -> option string) (is_terminal : bool).

(** The pages of the hub's history from a cursor to the end, newest first. *)
Inductive read_history (p : ProposalPlan) : string -> E -> list ExistingProposal -> E -> Prop :=
  | history_end key e page e' :
      read_page (rc_lcd (hub p)) key e = (Ok page, e') ->
      pg_next_key page = None \/ pg_next_key page = Some "" ->
      read_history p key e (pg_proposals page) e'
  | history_more key e page e1 next rest e' :
      read_page (rc_lcd (hub p)) key e = (Ok page, e1) ->
      pg_next_key page = Some next -> next <> "" -> next <> key ->
      read_history p next e1 rest e' ->
      read_history p key e (pg_proposals page ++ rest) e'.

Definition unmatched (p : ProposalPlan) (l : list ExistingProposal) : Prop :=
  Forall (fun proposal => matching_plan proposal p = None) l.

Lemma first_match_none p l : first_match p l = None -> unmatched p l.
Proof.
  induction l as [|x l IH]; simpl; [constructor|]. destruct (matching_plan x p) eqn:Hm; [done|]. by constructor; [|apply IH].
Qed.

Lemma search_pages_none fuel p key e e' :
  search_pages fuel p key e = (Ok None, e') -> exists l, read_history p key e l e' /\ unmatched p l.
Proof.
  revert key e. induction fuel as [|fuel IH]; intros key e; [done|]. cbn [search_pages]. unfold mbind at 1, M_bind.
  destruct (read_page _ _ _) as [[page|why] e1] eqn:Hpage; [|done].
  destruct (first_match p (pg_proposals page)) as [found|] eqn:Hfirst; [done|]. apply first_match_none in Hfirst.
  destruct (pg_next_key page) as [[|c next]|] eqn:Hnext;
    [intros [= <-]; eexists; (split; [eapply history_end; eauto|done])| |
     intros [= <-]; eexists; (split; [eapply history_end; eauto|done])].
  unfold ensure, lift, mbind, M_bind. destruct (decide (String c next = key)) as [Heq|Hne];
    [by rewrite bool_decide_true by done|rewrite bool_decide_false by done].
  simpl. intros Hs. destruct (IH _ _ Hs) as (rest & Hrest & Hun). exists (pg_proposals page ++ rest).
  split; [by eapply history_more|by apply Forall_app].
Qed.

(** What a search that allows a submission has found. *)
Definition cleared (args : ProposeArgs) (p : ProposalPlan) : Prop :=
  pa_proposal_id args = None /\
  (pa_new_proposal args = true \/ exists e l e', read_history p "" e l e' /\ unmatched p l).

Lemma find_existing_none fuel p args e e' : find_existing fuel p args e = (Ok None, e') -> cleared args p.
Proof.
  unfold find_existing, cleared. destruct (pa_proposal_id args) as [id|].
  - unfold mbind, M_bind, lift. destruct (load_proposal _ _ _) as [[proposal|] e1]; [|done].
    by destruct (matching_plan proposal p).
  - destruct (pa_new_proposal args); [auto|]. intros (l & Hl & Hu)%search_pages_none. split; [done|]. right. eauto.
Qed.

Definition no_submission (s : G) : Prop :=
  forall signer messages, SentCosmos signer messages ∈ g_trace s -> is_submission messages = false.

Lemma hushed_no_submission {A} (prog : M G A) (Found : Prop) :
  quiet prog -> hoare no_submission prog (fun _ => no_submission) (fun s => no_submission s \/ Found).
Proof.
  intros Hq s Hs. destruct (Hq s) as (_ & t & Ht & Hall).
  assert (no_submission (prog s).2) as Hn.
  { intros signer messages. rewrite Ht, elem_of_app. intros [Hin|Hin]; [by eapply Hs|].
    rewrite Forall_forall in Hall. by apply (Hall _ (proj1 (list_elem_of_In _ _) Hin)). }
  destruct (prog s) as [[a|why] s']; auto.
Qed.

Lemma run_searched fuel args :
  let Found := exists config p e0 e1, build_plan lcd_override env_var fuel args config e0 = (Ok p, e1) /\ cleared args p in
  hoare no_submission (run jittered lcd_override env_var is_terminal fuel args)
    (fun _ s => no_submission s \/ Found) (fun s => no_submission s \/ Found).
Proof.
  intros Found. unfold run. eapply hoare_bind; [apply hushed_no_submission, hushed_lift|]. intros ?u.
  eapply hoare_bind; [apply hushed_no_submission, hushed_ensure|]. intros ?u.
  eapply hoare_bind; [apply hushed_no_submission, hushed_ask|]. intros config.
  assert (forall A (prog : M E A), hoare no_submission (ask prog)
    (fun a s => no_submission s /\ exists e e', prog e = (Ok a, e')) (fun s => no_submission s \/ Found)) as Hask.
  { intros A prog s Hs. unfold ask. destruct (prog (g_env s)) as [[a|why] e'] eqn:Hp; [|left; exact Hs].
    split; [exact Hs|]. eauto. }
  eapply hoare_bind; [apply Hask|]. intros p.
  intros s [Hs (e0 & e1 & Hp)]. revert s Hs. change (hoare no_submission (run_plan jittered lcd_override env_var fuel args p)
    (fun _ s => no_submission s \/ Found) (fun s => no_submission s \/ Found)). unfold run_plan.
  eapply hoare_bind; [apply hushed_no_submission, hushed_ask|]. intros ?u.
  eapply (hoare_bind _ _ (fun _ => no_submission)).
  { intros s Hs signer messages. cbn [emit modify g_trace snd]. rewrite elem_of_app, list_elem_of_singleton.
    intros [Hin|Hin]; [by eapply Hs|done]. }
  intros ?u. eapply hoare_bind; [apply Hask|].
  assert (forall id payloads, hoare no_submission (follow jittered lcd_override env_var fuel args p id payloads)
    (fun _ s => no_submission s \/ Found) (fun s => no_submission s \/ Found)) as Hfollow.
  { intros id payloads. eapply hoare_post; [apply hushed_no_submission, hushed_follow|]. auto. }
  intros [[proposal payloads]|] s [Hs (e2 & e3 & Hf)].
  - revert s Hs. eapply hoare_bind; [apply hushed_no_submission, hushed_lift|]. intros id. apply Hfollow.
  - apply find_existing_none in Hf. assert Found as HF by (exists config, p, e0, e1; done).
    match goal with |- match ?x with _ => _ end => destruct x as [[a|why] s'] end; by right.
Qed.
End Search.

(** A run submits a proposal only when it may.  If a run broadcasts one, no
    proposal was named on the command line, and either a new proposal was asked
    for, or the run has read the hub's proposals from the newest to the end of
    the list and none of them matches the plan.  A failed request, a repeated
    cursor or a match ends the run before anything is sent. *)
Theorem submission_after_search {E : Type} `{Host E, GovEnv E, WebText, UrlLib, GovAbi, EvmLib, ConfigLib, CosmosLib,
    CosmosAccounts, MessageLib, HashOrder} jittered lcd_override env_var is_terminal fuel args (e : E) files signer messages :
  SentCosmos signer messages ∈
    g_trace (run jittered lcd_override env_var is_terminal fuel args (mkGov e files [])).2 ->
  is_submission messages = true ->
  exists config p e0 e1, build_plan lcd_override env_var fuel args config e0 = (Ok p, e1) /\ cleared (E := E) args p.
Proof.
  intros Hin Hsub.
  pose proof (run_searched jittered lcd_override env_var is_terminal fuel args (mkGov e files [])) as Hr.
  specialize (Hr ltac:(intros ? ? Hn; by apply not_elem_of_nil in Hn)). cbn zeta in Hr.
  destruct (run _ _ _ _ _ _ _) as [[u|why] s]; (destruct Hr as [Hn|Hf]; [|exact Hf]);
    rewrite (Hn signer messages Hin) in Hsub; done.
Qed.
