(* ===== verification/ProposeSearch.v ===== *)
(** * The block searches of the relay

    Two searches look for a block by its time, doubling their steps and then
    halving an interval.  On a chain whose times do not decrease they find the
    first block at or after the time, within their rounds, for every height that
    fits in 64 bits; the governance message of a passed proposal is then found
    in the blocks that follow the vote. *)

From Stdlib Require Import Ascii.
From Stdlib Require String.
From S2P Require Import Prelude Types Retry Journal Chain Plan Config Intent Json Cosmos Target CosmosSteps LoadTest LoadNet LoadDestinations LoadEngine Propose ProposeNet.

Section Searches.
Context {E : Type}.

(** The program returns this value, whatever the environment. *)
Definition gives {A} (m : M E A) (a : A) : Prop := forall e, exists e', m e = (Ok a, e').

Lemma gives_bind {A B} (m : M E A) (f : A -> M E B) a b : gives m a -> gives (f a) b -> gives (m ≫= f) b.
Proof. intros Hm Hf e. destruct (Hm e) as [e1 H1]. unfold mbind, M_bind. rewrite H1. apply Hf. Qed.
Lemma gives_ret {A} (a : A) : gives (mret a) a.
Proof. intros e. by exists e. Qed.
Lemma gives_lift {A} (r : result A) a : r = Ok a -> gives (lift r) a.
Proof. intros -> e. by exists e. Qed.

Section Halving.
Variables (before : Z -> M E bool) (b : Z -> bool) (latest : Z).
Hypothesis reads : forall n, 0 <= n <= latest -> gives (before n) (b n).
Hypothesis antitone : forall n n', 0 <= n <= n' -> n' <= latest -> b n' = true -> b n = true.

Lemma halve_finds fuel lower upper :
  0 <= lower -> upper <= latest -> upper - lower <= 2 ^ Z.of_nat fuel -> b upper = false \/ upper <= lower ->
  exists h, gives (halve before (S fuel) lower upper) h /\
    (upper <= lower /\ h = upper \/
     lower < h <= upper /\ b h = false /\ forall n, lower < n < h -> b n = true).
Proof.
  revert lower upper. induction fuel as [|fuel IH]; intros lower upper Hl Hu Hsize Hb.
  - exists upper. cbn [halve]. destruct (Z.ltb_spec (lower + 1) upper); [simpl in Hsize; lia|].
    split; [apply gives_ret|]. destruct (Z.leb_spec upper lower); [left; lia|right].
    destruct Hb as [Hb|]; [|lia]. split; [lia|]. split; [done|]. intros n Hn. lia.
  - remember (S fuel) as fuel' eqn:Hfuel. cbn [halve]. subst fuel'. destruct (Z.ltb_spec (lower + 1) upper) as [Hlt|Hge].
    2:{ exists upper. split; [apply gives_ret|]. destruct (Z.leb_spec upper lower); [left; lia|right].
        destruct Hb as [Hb|]; [|lia]. split; [lia|]. split; [done|]. intros n Hn. lia. }
    destruct Hb as [Hb|]; [|lia]. rewrite Nat2Z.inj_succ, Z.pow_succ_r in Hsize by lia.
    set (mid := lower + (upper - lower) / 2).
    assert (lower < mid < upper /\ mid - lower <= 2 ^ Z.of_nat fuel /\ upper - mid <= 2 ^ Z.of_nat fuel) as (Hmid & Hs1 & Hs2).
    { unfold mid. Z.to_euclidean_division_equations. lia. }
    destruct (b mid) eqn:Hbm.
    + destruct (IH mid upper) as (h & Hg & Hh); [lia..|by left|]. exists h. split.
      { eapply gives_bind; [apply reads; lia|]. by rewrite Hbm. }
      right. destruct Hh as [Hh|(Hr & Hbh & Hall)]; [lia|]. split; [lia|]. split; [done|]. intros n Hn.
      destruct (Z.leb_spec n mid); [by apply (antitone n mid); [lia|lia|]|apply Hall; lia].
    + destruct (IH lower mid) as (h & Hg & Hh); [lia..|by left|]. exists h. split.
      { eapply gives_bind; [apply reads; lia|]. by rewrite Hbm. }
      right. destruct Hh as [Hh|(Hr & Hbh & Hall)]; [lia|]. split; [lia|]. split; [done|exact Hall].
Qed.

(** Doubling from a distance covers it all within the rounds. *)
Lemma doubled u d fuel :
  0 <= u < 2 ^ 64 -> 0 < d -> u <= d * (2 ^ Z.of_nat (S fuel) - 1) ->
  Z.max 0 (u - d) <= saturating_mul 64 d 2 * (2 ^ Z.of_nat fuel - 1).
Proof.
  intros Hu Hd Hb. rewrite Nat2Z.inj_succ, Z.pow_succ_r in Hb by lia. unfold saturating_mul.
  destruct (Z.min_spec (d * 2) (2 ^ 64 - 1)) as [[_ ->]|[Hsat ->]].
  - pose proof (Z.pow_pos_nonneg 2 (Z.of_nat fuel) ltac:(lia) ltac:(lia)). nia.
  - destruct fuel as [|fuel]; [simpl in *; lia|]. rewrite Nat2Z.inj_succ, Z.pow_succ_r by lia.
    pose proof (Z.pow_pos_nonneg 2 (Z.of_nat fuel) ltac:(lia) ltac:(lia)). nia.
Qed.

Lemma doubled_positive d : 0 < d -> 0 < saturating_mul 64 d 2.
Proof. intros Hd. unfold saturating_mul. lia. Qed.

Lemma gallop_finds fuel upper distance :
  0 <= upper <= latest -> latest < 2 ^ 64 -> 0 < distance -> upper <= distance * (2 ^ Z.of_nat fuel - 1) -> b upper = false ->
  exists lower' upper', gives (gallop before (S fuel) 0 upper distance) (lower', upper') /\
    0 <= lower' <= upper' /\ upper' <= latest /\ b upper' = false /\ (upper' = 0 \/ b lower' = true).
Proof.
  intros Hu Hw. revert upper distance Hu. induction fuel as [|fuel IH]; intros upper distance Hu Hd Hsize Hb.
  - exists 0, upper. assert (upper = 0) as -> by (simpl in Hsize; lia). cbn [gallop]. simpl.
    split; [apply gives_ret|]. split_and!; try done; try lia; by left.
  - remember (S fuel) as fuel' eqn:Hfuel. cbn [gallop]. subst fuel'. destruct (Z.ltb_spec 0 upper) as [Hlt|Hge].
    2:{ exists 0, upper. split; [apply gives_ret|]. split_and!; try done; try lia; left; lia. }
    unfold saturating_sub. set (probe := Z.max 0 (upper - distance)).
    assert (0 <= probe <= upper) as Hp by (unfold probe; lia).
    destruct (b probe) eqn:Hbp.
    + exists probe, upper. split; [eapply gives_bind; [apply reads; lia|]; rewrite Hbp; apply gives_ret|].
      split_and!; try done; try lia; by right.
    + destruct (IH probe (saturating_mul 64 distance 2)) as (l & u & Hg & Hrest);
        [lia|by apply doubled_positive|apply doubled; [lia|done|done]|done|].
      exists l, u. split; [|exact Hrest]. eapply gives_bind; [apply reads; lia|]. by rewrite Hbp.
Qed.

Lemma descend_finds fuel lower upper distance :
  1 < lower <= upper -> upper <= latest -> latest < 2 ^ 64 -> 0 < distance ->
  lower - 1 <= distance * (2 ^ Z.of_nat fuel - 1) -> b upper = false ->
  exists lower' upper', gives (descend before (S fuel) lower upper distance) (lower', upper') /\
    1 <= lower' <= upper' /\ upper' <= upper /\ (lower' = 1 \/ b lower' = true) /\ b upper' = false.
Proof.
  intros Hl Hu Hw. revert lower upper distance Hl Hu.
  induction fuel as [|fuel IH]; intros lower upper distance Hl Hu Hd Hsize Hb; [simpl in Hsize; lia|].
  remember (S fuel) as fuel' eqn:Hfuel. cbn [descend]. subst fuel'. destruct (Z.ltb_spec 1 lower); [|lia].
  destruct (b lower) eqn:Hbl.
  { exists lower, upper. split; [eapply gives_bind; [apply reads; lia|]; rewrite Hbl; apply gives_ret|].
    split_and!; try lia; try done; by right. }
  unfold saturating_sub. set (next := Z.max (Z.max 0 (lower - distance)) 1).
  assert (Z.max 0 (lower - 1 - distance) <= saturating_mul 64 distance 2 * (2 ^ Z.of_nat fuel - 1)) as Hd2
    by (apply doubled; lia).
  destruct (Z.ltb_spec 1 next) as [Hn|Hn].
  - destruct (IH next lower (saturating_mul 64 distance 2)) as (l & u & Hg & H1 & H2 & H3 & H4);
      [unfold next in *; lia|lia|by apply doubled_positive|unfold next in *; lia|done|].
    exists l, u. split; [eapply gives_bind; [apply reads; lia|]; by rewrite Hbl|]. split_and!; try lia; done.
  - exists 1, lower. assert (next = 1) as Hone by (unfold next in *; lia). split.
    { eapply gives_bind; [apply reads; lia|]. rewrite Hbl. fold next. rewrite Hone. cbn [descend]. apply gives_ret. }
    split_and!; try lia; try done; by left.
Qed.
End Halving.
End Searches.

(** The approval scan of a consensus chain starts at the right block.  On an
    edge chain whose timestamps do not decrease, the search returns, for every
    chain height that fits in 64 bits, the first block whose timestamp is at or
    after the second the vote ended, and the latest block when the chain has
    not reached it. *)
Theorem first_block_at_spec {E : Type} `{GovEnv E} rpc time latest ts :
  0 <= latest < 2 ^ 64 ->
  (forall n n', 0 <= n <= n' -> n' <= latest -> ts n <= ts n') ->
  gives (LoadDestinations.call (get_block_number (PollEnv := edge_poll rpc))) latest ->
  (forall n, 0 <= n <= latest -> gives (edge_timestamp rpc n : M E (option Z)) (Some (ts n))) ->
  exists h, gives (first_block_at (E := E) rpc time) h /\
    (ts latest < Z.max (time / NANOS) 0 /\ h = latest \/
     0 <= h <= latest /\ Z.max (time / NANOS) 0 <= ts h /\ forall n, 0 <= n < h -> ts n < Z.max (time / NANOS) 0).
Proof.
  intros Hlatest Hmono Hblock Hts. unfold first_block_at. set (want := Z.max (time / NANOS) 0).
  set (before := fun n => t ← timestamp rpc n; mret (t <? want)). set (b n := ts n <? want).
  assert (forall n, 0 <= n <= latest -> gives (before n) (b n)) as Hreads.
  { intros n Hn. eapply gives_bind; [|apply gives_ret]. eapply gives_bind; [by apply Hts|]. by apply gives_lift. }
  assert (forall n n', 0 <= n <= n' -> n' <= latest -> b n' = true -> b n = true) as Hanti.
  { intros n n' Hn Hn'. unfold b. rewrite !Z.ltb_lt. specialize (Hmono n n' Hn Hn'). lia. }
  destruct (b latest) eqn:Hb.
  { exists latest. split; [|left; split; [by apply Z.ltb_lt|done]].
    eapply gives_bind; [exact Hblock|]. cbv zeta. eapply gives_bind; [apply Hreads; lia|]. rewrite Hb. apply gives_ret. }
  destruct (gallop_finds before b latest Hreads 65 latest 64) as (lower & upper & Hg & Hl & Hu & Hbu & Hbl);
    [lia|lia|lia|lia|done|].
  destruct (halve_finds before b latest Hreads Hanti 65 lower upper) as (h & Hh & Hspec); [lia|lia|lia|by left|].
  exists h. split.
  { eapply gives_bind; [exact Hblock|]. cbv zeta. eapply gives_bind; [apply Hreads; lia|]. rewrite Hb.
    eapply gives_bind; [exact Hg|exact Hh]. }
  right. assert (0 <= h <= upper /\ b h = false /\ forall n, 0 <= n < h -> b n = true) as (Hr & Hbh & Hall).
  { destruct Hspec as [[Hle ->]|(Hr & Hbh & Hall)].
    - destruct Hbl as [->|Hbl]; [split_and!; [lia|lia|done|intros n Hn; lia]|].
      assert (lower = upper) as -> by lia. congruence.
    - split_and!; [lia|lia|done|]. intros n Hn. destruct (Z.leb_spec n lower) as [Hle|Hgt]; [|apply Hall; lia].
      destruct Hbl as [->|Hbl]; [lia|]. apply (Hanti n lower); [lia|lia|done]. }
  split; [lia|]. split; [by apply Z.ltb_ge|]. intros n Hn. by apply Z.ltb_lt, Hall.
Qed.

Section Message.
Context {E : Type} `{GovEnv E, WebText, UrlLib, GovAbi}.

Lemma execution_height_finds rpc latest end_ times :
  1 <= latest < 2 ^ 64 ->
  (forall n n', 1 <= n <= n' -> n' <= latest -> times n <= times n') ->
  (forall n, 1 <= n <= latest -> gives (E := E) (block_time rpc n) (times n)) ->
  forall g, 1 < g <= latest -> end_ <= times g -> (forall n, 1 <= n < g -> times n < end_) ->
  gives (E := E) (execution_height rpc latest end_) g.
Proof.
  intros Hlatest Hmono Hreads g Hg Hend Hfirst.
  set (before := fun n => t ← block_time (E := E) rpc n; mret (t <? end_)). set (b n := (n <? 1) || (times n <? end_)).
  assert (forall n, 1 <= n <= latest -> gives (before n) (b n)) as Hr.
  { intros n Hn. unfold b. rewrite (proj2 (Z.ltb_ge n 1)) by lia. eapply gives_bind; [by apply Hreads|apply gives_ret]. }
  assert (forall n n', 0 <= n <= n' -> n' <= latest -> b n' = true -> b n = true) as Hanti.
  { intros n n' Hn Hn'. unfold b. rewrite !orb_true_iff, !Z.ltb_lt. destruct (Z.ltb_spec n 1); [by left|].
    specialize (Hmono n n'). intros [?|?]; right; lia. }
  assert (forall n, 1 <= n <= latest -> b n = true <-> n < g) as Hbg.
  { intros n Hn. unfold b. rewrite orb_true_iff, !Z.ltb_lt. split; [|intros Hlt; right; apply Hfirst; lia].
    intros [?|Ht]; [lia|]. destruct (Z.ltb_spec n g); [done|]. specialize (Hmono g n). lia. }
  (* heights of a Tendermint chain start at one; below it nothing is read *)
  set (before' := fun n => if n <? 1 then mret true else before n).
  assert (forall n, 1 <= n -> before' n = before n) as Heq.
  { intros n Hn. unfold before'. by rewrite (proj2 (Z.ltb_ge n 1)). }
  assert (forall n, 0 <= n <= latest -> gives (before' n) (b n)) as Hr'.
  { intros n Hn. unfold before'. destruct (Z.ltb_spec n 1) as [Hlt|Hge]; [|apply Hr; lia].
    unfold b. rewrite (proj2 (Z.ltb_lt n 1)) by done. apply gives_ret. }
  assert (forall fuel lower upper, 1 <= lower -> halve before fuel lower upper = halve before' fuel lower upper) as Hhalve.
  { induction fuel as [|fuel IH]; intros lower upper Hl; [done|]. cbn [halve]. destruct (Z.ltb_spec (lower + 1) upper); [|done].
    assert (1 <= lower + (upper - lower) / 2) by (Z.to_euclidean_division_equations; lia).
    rewrite Heq by done. by rewrite !IH. }
  assert (forall fuel lower upper d, descend before fuel lower upper d = descend before' fuel lower upper d) as Hdescend.
  { induction fuel as [|fuel IH]; intros lower upper d; [done|]. cbn [descend]. destruct (Z.ltb_spec 1 lower); [|done].
    rewrite Heq by lia. by rewrite IH. }
  unfold execution_height. fold before.
  destruct (descend_finds before' b latest Hr' 65 latest latest 64) as (lower & upper & Hgv & Hl & Hu & Hbl & Hbu);
    [lia|lia|lia|lia|lia| |].
  { destruct (b latest) eqn:Hb; [|done]. apply Hbg in Hb; lia. }
  destruct (halve_finds before' b latest Hr' Hanti 65 lower upper) as (h & Hh & Hspec);
    [lia|lia|lia|by left|].
  assert (h = g) as ->.
  { destruct Hspec as [[Hle ->]|(Hrange & Hbh & Hall)].
    - assert (lower = upper) as -> by lia. destruct Hbl as [->|Hbl]; [|congruence].
      pose proof (proj2 (Hbg 1 ltac:(lia)) ltac:(lia)). congruence.
    - assert (~ h < g) as Hhg by (rewrite <- Hbg by lia; by rewrite Hbh).
      destruct (decide (h = g)); [done|]. exfalso.
      assert (b g = true) as Hg' by (apply Hall; destruct Hbl as [->|Hbl]; [lia|apply Hbg in Hbl; lia]).
      apply Hbg in Hg'; lia. }
  rewrite Hdescend. eapply gives_bind; [exact Hgv|]. cbn [fst snd]. rewrite Hhalve by lia. exact Hh.
Qed.

Lemma first_some_gives {A B} (f : A -> M E (option B)) (msg : A -> option B) l :
  (forall x, x ∈ l -> gives (f x) (msg x)) -> gives (first_some f l) (head (omap msg l)).
Proof.
  induction l as [|x l IH]; intros Hf; cbn [first_some omap list_omap]; [apply gives_ret|].
  eapply gives_bind; [apply Hf; set_solver|]. destruct (msg x) as [y|]; [apply gives_ret|].
  apply IH. intros y Hy. apply Hf. set_solver.
Qed.

Lemma heights_first {B} (msg : Z -> option B) a (s n k : nat) m :
  (s <= k < s + n)%nat -> msg (a + Z.of_nat k) = Some m ->
  (forall j, (s <= j < k)%nat -> msg (a + Z.of_nat j) = None) ->
  head (omap msg (map (fun i => a + Z.of_nat i) (seq s n))) = Some m.
Proof.
  revert s. induction n as [|n IH]; intros s Hk Hm Hn; [lia|]. cbn [seq map]. cbn [omap list_omap].
  destruct (decide (s = k)) as [->|Hne]; [by rewrite Hm|]. rewrite Hn by lia.
  apply IH; [lia|done|]. intros j Hj. apply Hn. lia.
Qed.
End Message.

(** The governance message of a passed proposal is found.  On a hub whose block
    times do not decrease, with [g] the first block at or after the end of the
    vote: the search by block times reaches [g], and if the message is emitted
    in [g] or one of the five blocks after it, and in none before, then the
    search of the block results returns it. *)
Theorem governance_message_found {E : Type} `{GovEnv E, WebText, UrlLib, GovAbi, EvmLib} cfg payload_hash end_ status latest
    times msg g height message :
  let rpc := trim_slashes (rc_axelar_rpc cfg) in
  gives (E := E) (get_json Some (rpc +:+ "/status")) status ->
  pointer "/result/sync_info/latest_block_height" status = Some (JStr (to_dec latest)) ->
  1 <= latest < 2 ^ 64 - 5 ->
  (forall n n', 1 <= n <= n' -> n' <= latest -> times n <= times n') ->
  (forall n, 1 <= n <= latest -> gives (E := E) (block_time rpc n) (times n)) ->
  (forall n, 1 <= n <= latest -> gives (E := E) (scan_block cfg n (hex_encode (be_bytes 32 payload_hash))) (msg n)) ->
  1 < g <= latest -> end_ <= times g -> (forall n, 1 <= n < g -> times n < end_) ->
  g <= height <= Z.min latest (g + 5) -> msg height = Some message -> (forall n, n < height -> msg n = None) ->
  gives (E := E) (find_governance_message cfg payload_hash end_) message.
Proof.
  intros rpc Hstatus Hptr Hlatest Hmono Htimes Hscan Hg Hend Hfirst Hheight Hmsg Hnone.
  unfold find_governance_message. fold rpc. eapply gives_bind; [exact Hstatus|].
  eapply gives_bind; [by apply gives_lift; rewrite Hptr|]. eapply gives_bind.
  { apply gives_lift. rewrite parse_to_dec by lia. done. }
  eapply gives_bind; [eapply (execution_height_finds rpc latest end_ times); [lia|done|done|done|done|done]|].
  cbv zeta. eapply gives_bind.
  - apply (first_some_gives _ msg). intros n Hn. apply Hscan. unfold heights in Hn.
    apply list_elem_of_fmap in Hn as (i & -> & Hi). apply elem_of_seq in Hi. unfold saturating_sub, wrapping_add in *.
    rewrite Z.mod_small in * by lia. lia.
  - unfold heights. replace (Z.max 0 (g - 1)) with (g - 1) in * by lia.
    rewrite (heights_first msg _ 0 _ (Z.to_nat (height - (g - 1))) message); [by apply gives_lift|..].
    + unfold saturating_sub, wrapping_add. rewrite Z.mod_small by lia. lia.
    + unfold saturating_sub. rewrite <- Hmsg. f_equal. lia.
    + intros j Hj. apply Hnone. unfold saturating_sub. lia.
Qed.
