(* ===== verification/ProposeResume.v ===== *)
(** * Resuming and paying for a proposal

    The plan of a run comes from one configuration, so the proposal it submits
    is recognized on the hub, and a rerun finds it, follows it and submits
    nothing.  The deposit
    is paid by the signer, or by the multisig that has authorized it. *)

From Stdlib Require Import Ascii.
From Stdlib Require String.
From S2P Require Import Prelude Types Retry Journal Chain Plan Config Intent Json Cosmos Target CosmosSteps LoadTest LoadNet LoadDestinations LoadEngine Propose ProposeFacts ProposeNet ProposeRun ProposeSafety ProposeOnce ProposeSearch.

(** ** Plans come from one configuration *)

Section Plans.
Context {E : Type} `{GovEnv E, WebText, UrlLib, GovAbi, EvmLib, ConfigLib, CosmosAccounts, HashOrder}.
Variables (lcd_override : option string) (env_var : string -> option string).
Implicit Types config : ChainsConfig.

(** What a successful program guarantees of its result. *)
Definition yields {A} (m : M E A) (P : A -> Prop) : Prop := forall e a e', m e = (Ok a, e') -> P a.

Lemma yields_bind {A B} (m : M E A) (f : A -> M E B) (R : A -> Prop) (P : B -> Prop) :
  yields m R -> (forall a, R a -> yields (f a) P) -> yields (m ≫= f) P.
Proof.
  intros Hm Hf e b e'. unfold mbind, M_bind. destruct (m e) as [[a|why] e1] eqn:Ha; [|done]. apply Hf. by eapply Hm.
Qed.
Lemma yields_any {A} (m : M E A) : yields m (fun _ => True).
Proof. done. Qed.
Lemma yields_ret {A} (a : A) (P : A -> Prop) : P a -> yields (mret a) P.
Proof. by intros Ha e b e' [= <- _]. Qed.
Lemma yields_lift {A} (r : result A) : yields (lift r) (fun a => r = Ok a).
Proof. intros e a e'. unfold lift. by intros [= -> _]. Qed.
Lemma yields_throw {A} why (P : A -> Prop) : yields (throw why) P.
Proof. done. Qed.
Lemma yields_caught {A} (m : M E A) P :
  yields m P -> yields (caught m) (fun r => match r with Ok a => P a | Err _ => True end).
Proof.
  intros Hm e r e'. unfold caught. destruct (m e) as [[a|[]] e1] eqn:Ha; intros [= <- _]; try done. by eapply Hm.
Qed.

Definition from_config config (t : EdgeTarget) : Prop := exists chain asg, resolve_with_asg config chain asg = Ok (tg_cfg t).

Lemma resolve_target_from config candidate : yields (resolve_target config candidate) (from_config config).
Proof.
  unfold resolve_target. eapply yields_bind; [apply yields_any|]. intros chain_cfg _.
  eapply yields_bind; [apply yields_any|]. intros its _. eapply yields_bind; [apply yields_any|]. intros u _.
  eapply yields_bind; [apply yields_any|]. intros asg _. eapply yields_bind; [apply yields_lift|]. intros cfg Hcfg.
  apply yields_ret. by exists (cd_key candidate), (Some asg).
Qed.

Lemma resolve_all_from config candidates : yields (resolve_all config candidates) (Forall (from_config config)).
Proof.
  unfold resolve_all. apply (yields_bind _ _ (fun r => Forall (from_config config) r.1)).
  - induction candidates as [|c l IH]; cbn [resolve_each]; [by apply yields_ret; constructor|].
    eapply yields_bind; [apply yields_caught, resolve_target_from|]. intros r Hr.
    eapply yields_bind; [exact IH|]. intros rest Hrest. apply yields_ret. destruct r; [by constructor|done].
  - intros r Hr. eapply yields_bind; [apply yields_any|]. intros u _. by apply yields_ret.
Qed.

Lemma select_from fuel args config : yields (select lcd_override fuel args config) (Forall (from_config config)).
Proof.
  unfold select. destruct (pa_chain args) as [chain|], (pa_chains args) as [|key keys]; try apply yields_throw.
  - eapply yields_bind; [apply yields_lift|]. intros cfg Hcfg. apply yields_ret. constructor; [|constructor].
    by exists chain, None.
  - destruct (decide _); [|apply resolve_all_from]. unfold select_all. eapply yields_bind; [apply yields_any|].
    intros registry _. destruct (classify _ _ _ _ _) as [candidates excluded].
    eapply yields_bind; [apply yields_any|]. intros u _. apply resolve_all_from.
Qed.

Lemma resolve_calls_from args trusted config targets label :
  Forall (from_config config) targets ->
  yields (resolve_calls args trusted targets label) (fun r => Forall (resolved_from config) r.1.1).
Proof.
  intros Ht. revert label. induction Ht as [|target targets Htarget Ht IH]; intros label; cbn [resolve_calls].
  { apply yields_ret. constructor. }
  apply (yields_bind _ _ (fun r => match r with Ok (c, _) => resolved_from config c | Err _ => True end)).
  - assert (yields (resolve_call args target trusted) (fun p => resolved_from config p.1)) as Hc.
    { unfold resolve_call. eapply yields_bind; [apply yields_any|]. intros [[addr calldata] lb] _.
      eapply yields_bind; [apply yields_any|]. intros asg _. apply yields_ret. simpl.
      destruct Htarget as (chain & fallback & Hr). exists chain, fallback, (tg_cfg target), (pa_mnemonic_env args). done. }
    intros e r e' He. pose proof (yields_caught _ _ Hc e r e' He) as Hr. by destruct r as [[c lb]|].
  - intros [[c lb]|why] Hr.
    + eapply yields_bind; [apply IH|]. intros [[l lb'] failures] Hl. apply yields_ret. by constructor.
    + eapply yields_bind; [apply IH|]. intros [[l lb'] failures] Hl. by apply yields_ret.
Qed.

Lemma build_plan_from fuel args config :
  yields (build_plan lcd_override env_var fuel args config) (fun p => Forall (resolved_from config) (calls p)).
Proof.
  unfold build_plan. eapply yields_bind; [apply yields_any|]. intros trusted _.
  eapply yields_bind; [apply select_from|]. intros targets Ht. eapply yields_bind; [apply yields_any|]. intros u _.
  eapply yields_bind; [by apply resolve_calls_from|]. intros [[l label] failures] Hl.
  eapply yields_bind; [apply yields_any|]. intros u' _. eapply yields_bind; [apply yields_lift|]. intros p Hp.
  eapply yields_bind; [apply yields_any|]. intros u2 _. eapply yields_bind; [apply yields_any|]. intros u3 _.
  apply yields_ret. destruct l as [|first others]; [done|]. simpl in Hp. injection Hp as <-. exact Hl.
Qed.
End Plans.

(** ** A rerun finds the proposal *)

Section Served.
Context {E : Type} `{GovEnv E, WebText, UrlLib, GovAbi, MessageLib}.

(** The hub serves these proposals from a cursor on, in so many pages. *)
Inductive served (lcd : string) : string -> nat -> list ExistingProposal -> Prop :=
  | served_last key page :
      gives (E := E) (read_page lcd key) page -> pg_next_key page = None \/ pg_next_key page = Some "" ->
      served lcd key 1 (pg_proposals page)
  | served_more key page next n rest :
      gives (E := E) (read_page lcd key) page -> pg_next_key page = Some next -> next <> "" -> next <> key ->
      served lcd next n rest ->
      served lcd key (S n) (pg_proposals page ++ rest).

Lemma first_match_app p l r :
  first_match p (l ++ r) = match first_match p l with Some found => Some found | None => first_match p r end.
Proof. induction l as [|x l IH]; simpl; [done|]. by destruct (matching_plan x p). Qed.

Lemma first_match_in p l x : x ∈ l -> is_Some (matching_plan x p) -> is_Some (first_match p l).
Proof.
  induction l as [|y l IH]; intros Hin Hx; [by apply not_elem_of_nil in Hin|]. simpl.
  destruct (matching_plan y p) eqn:Hy; [by eexists|]. apply IH; [|done].
  apply elem_of_cons in Hin as [->|Hin]; [|done]. destruct Hx; congruence.
Qed.

Lemma first_match_some p l proposal payloads :
  first_match p l = Some (proposal, payloads) -> proposal ∈ l /\ matching_plan proposal p = Some payloads.
Proof.
  induction l as [|y l IH]; [done|]. simpl. destruct (matching_plan y p) eqn:Hy.
  - intros [= -> ->]. split; [left|done].
  - intros Hf. destruct (IH Hf). split; [by right|done].
Qed.

(** The search returns the first match of the whole list, within as many
    rounds as there are pages. *)
Lemma search_pages_gives p key n l fuel :
  served (rc_lcd (hub p)) key n l -> (n <= fuel)%nat -> gives (E := E) (search_pages fuel p key) (first_match p l).
Proof.
  intros Hs. revert fuel. induction Hs as [key page Hpage Hnext|key page next n rest Hpage Hnext Hne Hkey Hs IH];
    intros [|fuel] Hfuel; try lia; cbn [search_pages]; (eapply gives_bind; [exact Hpage|]).
  - destruct (first_match p (pg_proposals page)); [apply gives_ret|].
    destruct Hnext as [-> | ->]; apply gives_ret.
  - rewrite first_match_app. destruct (first_match p (pg_proposals page)); [apply gives_ret|]. rewrite Hnext.
    destruct next as [|c next]; [done|]. eapply gives_bind; [|apply IH; lia].
    apply gives_lift. by rewrite bool_decide_false.
Qed.
End Served.

(** The rest of a run for a plan, once the hub's lock is held, is to follow this
    proposal with these payloads; and whatever happens, the run submits nothing:
    no marker changes, and no message to the hub carries a proposal. *)
Definition resumes {E : Type} `{Host E, GovEnv E, WebText, UrlLib, GovAbi, EvmLib, ConfigLib, CosmosLib, CosmosAccounts,
    MessageLib, HashOrder} lcd_override env_var fuel args p (found : ExistingProposal) (payloads : list bytes) : Prop :=
  forall jittered (s : Gov E),
    let '(r, s') := run_plan jittered lcd_override env_var fuel args p s in
    g_files s' = g_files s /\
    (exists t, g_trace s' = g_trace s ++ t /\ Forall (fun ev => ev = Planned p \/ quiet_event ev) t) /\
    match fs_lock (rc_chain_id (hub p)) (g_env s) with
    | (Err why, _) => r = Err why
    | (Ok _, _) => exists e,
        (r, s') = (id ← lift (number found); follow jittered lcd_override env_var fuel args p id payloads)
                    (mkGov e (g_files s) (g_trace s ++ [Planned p]))
    end.

Lemma bind_ask {E A B : Type} (m : M E A) (f : A -> M (Gov E) B) s :
  (ask m ≫= f) s = match m (g_env s) with
                   | (Ok a, e) => f a (mkGov e (g_files s) (g_trace s))
                   | (Err why, e) => (Err why, mkGov e (g_files s) (g_trace s))
                   end.
Proof. unfold mbind, M_bind, ask. by destruct (m (g_env s)) as [[a|why] e]. Qed.

Lemma found_resumes {E : Type} `{Host E, GovEnv E, WebText, UrlLib, GovAbi, EvmLib, ConfigLib, CosmosLib, CosmosAccounts,
    MessageLib, HashOrder} lcd_override env_var fuel args p found payloads :
  gives (E := E) (find_existing fuel p args) (Some (found, payloads)) ->
  resumes (E := E) lcd_override env_var fuel args p found payloads.
Proof.
  intros Hg jittered s. destruct (run_plan _ _ _ _ _ _ s) as [r s'] eqn:Hr. unfold run_plan in Hr. rewrite bind_ask in Hr.
  destruct (fs_lock (rc_chain_id (hub p)) (g_env s)) as [[u|why] e1] eqn:Hlock.
  2: { injection Hr as <- <-. split; [done|]. split; [|done]. exists []. by rewrite app_nil_r. }
  destruct (Hg e1) as [e2 He2].
  change ((emit (Planned p) ≫= ?f) ?s) with (f () (mkGov (g_env s) (g_files s) (g_trace s ++ [Planned p]))) in Hr.
  cbn beta in Hr. rewrite bind_ask in Hr. cbn [g_env g_files g_trace] in Hr. rewrite He2 in Hr.
  assert (quiet (E := E) (id ← lift (number found); follow jittered lcd_override env_var fuel args p id payloads)) as Hq.
  { apply hushed_bind; [apply hushed_lift|]. intros id. apply hushed_follow. }
  specialize (Hq (mkGov e2 (g_files s) (g_trace s ++ [Planned p]))). rewrite Hr in Hq. cbn in Hq.
  destruct Hq as (Hf & t & Ht & Hall). split; [done|]. split; [|by exists e2].
  exists ([Planned p] ++ t). rewrite Ht, app_assoc. split; [done|]. apply Forall_app. split; [by repeat constructor|].
  eapply list.Forall_impl; [exact Hall|]. by right.
Qed.

(** C15: a rerun resumes the proposal that was submitted.  Let a run build a plan and
    submit it, and let the hub list a proposal whose messages are the submitted
    ones.  Of that proposal a later search reads back the very payloads that
    were submitted, in the order of the calls.  A later run of the same plan,
    unless it is told to start anew, finds a proposal of the list that matches
    the plan and follows it with its payloads; and it submits nothing, whatever
    else happens: no message to the hub carries a proposal, and no marker is
    created or removed. *)
Theorem rerun_resumes {E : Type} `{Host E, GovEnv E, WebText, UrlLib, GovAbi, EvmLib, ConfigLib, CosmosLib, CosmosAccounts,
    HashOrder, MessageLib, !AbiLaws} lcd_override env_var fuel args now config (e e' : E) p n l proposal :
  build_plan lcd_override env_var fuel args config e = (Ok p, e') ->
  Forall (fun c => 0 <= ed_target c < 2 ^ 160 /\ Forall is_byte (ed_calldata c)) (calls p) ->
  (forall eta, pa_eta args = Some eta -> 0 <= eta < 2 ^ 64) ->
  pa_proposal_id args = None -> pa_new_proposal args = false ->
  let payloads := map (fun c => en_payload (encode_call args (pp_ptype p) now c)) (calls p) in
  Forall2 (fun m shown => lcd_shows (rc_gov_module (hub p)) (rc_axelarnet_gateway (hub p)) m shown)
    (zip_with call_contract_msg (calls p) payloads) (ep_messages proposal) ->
  served (E := E) (rc_lcd (hub p)) "" n l -> proposal ∈ l -> (n <= fuel)%nat ->
  matching_plan proposal p = Some payloads /\
  exists found found_payloads, found ∈ l /\ matching_plan found p = Some found_payloads /\
    resumes (E := E) lcd_override env_var fuel args p found found_payloads.
Proof.
  intros Hplan Hwf Heta Hid Hnew payloads Hshown Hserved Hin Hfuel.
  assert (matching_plan proposal p = Some payloads) as Hm.
  { apply (recognize_submitted config); [by eapply build_plan_from|done|done|done]. }
  split; [exact Hm|]. destruct (first_match_in p l proposal Hin ltac:(by eexists)) as [[found found_payloads] Hf].
  exists found, found_payloads. destruct (first_match_some _ _ _ _ Hf) as [Hfl Hfm].
  split; [done|]. split; [done|]. apply found_resumes.
  unfold find_existing. rewrite Hid, Hnew, <- Hf. by eapply search_pages_gives.
Qed.

(** ** Who pays *)

Section Funding.
Context {E : Type} `{GovEnv E, WebText, UrlLib, GovAbi, MessageLib, CosmosAccounts}.
Abbreviation G := (Gov E).

(** An authorization for proposals that has not expired. *)
Definition active_grant (now : Z) (g : Grant) : Prop :=
  gr_authorization g = Generic SUBMIT_PROPOSAL /\
  match gr_expiration g with None => True | Some text => exists t, parse_rfc3339 text = Some t /\ now < t end.

Lemma has_active_grant_spec grants now :
  Forall (fun g => forall text, gr_expiration g = Some text -> is_Some (parse_rfc3339 text)) grants ->
  exists b, has_active_grant grants now = Ok b /\ (b = true <-> Exists (active_grant now) grants).
Proof.
  induction 1 as [|g grants Hg Hall (b & Hb & Hiff)].
  { exists false. split; [done|]. rewrite Exists_nil. done. }
  assert (forall b', (b' = true <-> active_grant now g \/ Exists (active_grant now) grants) ->
    (b' = true <-> Exists (active_grant now) (g :: grants))) as Hcons by (intros b'; by rewrite Exists_cons).
  assert (gr_authorization g <> Generic SUBMIT_PROPOSAL -> has_active_grant (g :: grants) now = has_active_grant grants now)
    as Hother.
  { intros Hne. cbn [has_active_grant]. destruct (gr_authorization g); [|done]. by rewrite decide_False by congruence. }
  destruct (gr_authorization g) as [msg|] eqn:Ha.
  2:{ exists b. rewrite Hother, Hb by done. split; [done|]. apply Hcons. rewrite Hiff. unfold active_grant. rewrite Ha. naive_solver. }
  destruct (decide (msg = SUBMIT_PROPOSAL)) as [->|Hne].
  2:{ exists b. rewrite Hother, Hb by congruence. split; [done|]. apply Hcons. rewrite Hiff. unfold active_grant.
      rewrite Ha. naive_solver. }
  cbn [has_active_grant]. rewrite Ha, decide_True by done.
  destruct (gr_expiration g) as [text|] eqn:Hx.
  - destruct (Hg text eq_refl) as [t Ht]. rewrite Ht. cbn. destruct (Z.ltb_spec now t).
    + exists true. split; [done|]. apply Hcons. split; [|done]. intros _. left. unfold active_grant. rewrite Ha, Hx. eauto.
    + exists b. split; [done|]. apply Hcons. rewrite Hiff. unfold active_grant. rewrite Ha, Hx. split; [auto|].
      intros [[_ (t' & Ht' & Hlt)]|]; [|done]. assert (t' = t) by congruence. lia.
  - exists true. split; [done|]. apply Hcons. split; [|done]. intros _. left. unfold active_grant. by rewrite Ha, Hx.
Qed.

Lemma ask_gives {A} (m : M E A) a s : gives m a -> exists e', ask m s = (Ok a, mkGov e' (g_files s) (g_trace s)).
Proof. intros Hm. destruct (Hm (g_env s)) as [e' He]. exists e'. unfold ask. by rewrite He. Qed.
End Funding.

(** The multisig may pay. *)
Definition may_delegate `{GovAbi} (network : Network) (h : ResolvedConfig) (deposit own cpi now : Z) (grants : list Grant) : Prop :=
  network = Mainnet /\ rc_chain_id h = "axelar-dojo-1" /\ GAS_BUFFER_UAXL <= own /\ Exists (active_grant now) grants /\
  deposit <= cpi.

(** Who pays for a proposal.  The signer pays when its balance covers the deposit
    and the fee buffer.  Otherwise the CPI multisig pays the deposit, on mainnet
    only, with an authorization that has not expired and a balance that covers
    it, and the signer still covers the fees; and in every other case the run
    stops.  (Balances and grants as the hub reports them.) *)
Theorem funding_spec {E : Type} `{GovEnv E, WebText, UrlLib, GovAbi, MessageLib, CosmosAccounts} network h submitter deposit
    own cpi grants now prefix cpi_prefix (s : Gov E) :
  let base := trim_slashes (rc_lcd h) +:+ "/cosmos/authz/v1beta1/grants" in
  0 <= deposit -> deposit + GAS_BUFFER_UAXL < 2 ^ 128 ->
  account_prefix submitter = Some prefix -> account_prefix CPI_MULTISIG = Some cpi_prefix -> url_ok base = true ->
  gives (E := E) (lcd_query_balance (rc_lcd h) submitter (rc_fee_denom h)) own ->
  gives (E := E) (lcd_query_balance (rc_lcd h) CPI_MULTISIG (rc_fee_denom h)) cpi ->
  gives (E := E) (get_json grants_of (with_query base
    [("granter", CPI_MULTISIG); ("grantee", submitter); ("msg_type_url", SUBMIT_PROPOSAL)])) grants ->
  (forall e : E, utc_now e = now) ->
  Forall (fun g => forall text, gr_expiration g = Some text -> is_Some (parse_rfc3339 text)) grants ->
  match (resolve_funding network h submitter deposit s).1 with
  | Ok (Direct signer) => signer = submitter /\ deposit + GAS_BUFFER_UAXL <= own
  | Ok (Authorized signer granter) => signer = submitter /\ granter = CPI_MULTISIG /\ own < deposit + GAS_BUFFER_UAXL /\
      may_delegate network h deposit own cpi now grants
  | Err why => why <> OutOfFuel /\ own < deposit + GAS_BUFFER_UAXL /\ ~ may_delegate network h deposit own cpi now grants
  end.
Proof.
  intros base Hpos Hwidth Hsub Hcpi Hurl Hown Havail Hgrants Hnow Hparse.
  destruct (has_active_grant_spec grants now Hparse) as (active & Hactive & Hiff).
  unfold resolve_funding, mbind, M_bind. rewrite Hsub. cbn [ok_or lift].
  destruct (ask_gives _ own s Hown) as [e1 ->]. unfold wrapping_add. rewrite Z.mod_small by (unfold GAS_BUFFER_UAXL in *; lia).
  destruct (Z.leb_spec (deposit + GAS_BUFFER_UAXL) own) as [Hd|Hd]; [by simpl|].
  unfold ensure, lift, may_delegate.
  destruct (decide (network = Mainnet)) as [Hn|Hn]; [rewrite (bool_decide_true (network = _)) by done|
    rewrite (bool_decide_false (network = _)) by done; simpl; naive_solver].
  destruct (decide (rc_chain_id h = "axelar-dojo-1")) as [Hc|Hc]; [rewrite (bool_decide_true (rc_chain_id h = _)) by done|
    rewrite (bool_decide_false (rc_chain_id h = _)) by done; simpl; naive_solver].
  cbn [andb ensure_ok]. destruct (Z.leb_spec GAS_BUFFER_UAXL own) as [Hb|Hb]; cbn [ensure_ok fst]; [|split_and!; [done|lia|lia]].
  rewrite Hcpi. cbn [ok_or]. unfold check_grant, mbind, M_bind, lift. fold base. rewrite Hurl. cbn [ensure_ok].
  destruct (ask_gives _ grants (mkGov e1 (g_files s) (g_trace s)) Hgrants) as [e2 ->]. cbn [get g_env]. rewrite Hnow, Hactive.
  unfold ensure, lift. destruct active; cbn [ensure_ok fst].
  2:{ split_and!; [done|lia|]. intros (_ & _ & _ & Hex & _). by apply Hiff in Hex. }
  destruct (ask_gives _ cpi (mkGov e2 (g_files s) (g_trace s)) Havail) as [e3 He3]. cbn [g_files g_trace] in *. rewrite He3.
  destruct (Z.leb_spec deposit cpi) as [Hdc|Hdc]; cbn [ensure_ok fst]; [|split_and!; [done|lia|lia]].
  cbn. split_and!; try done; try lia. by apply Hiff.
Qed.
