(* ===== verification/Asg.v ===== *)
(** * Service governance (commands/its_asg.rs and its_asg/)

    The AxelarServiceGovernance contract (ASG) of a chain is deployed through
    the chain's CREATE3 factory, verified, and made the owner of the gateway and
    of the ITS.  Every transaction is reviewed, signed, written to a journal file
    of its chain, sender and target, and only then broadcast; a rerun recovers
    it from the file.  The state has the environment, the journal and archive
    files, the configuration text under review, and the trace of what was
    verified, asked, written and sent. *)

From Stdlib Require Import Ascii.
From Stdlib Require String.
From S2P Require Import Prelude Types Retry Journal Chain Plan Config Json Cosmos Target Checkpoints EvmSteps CosmosSteps LoadNet LoadEngine Propose.

(** ** Data (its_asg/types.rs) *)

Record Options : Type := mkOptions {
  op_from : Address;
  op_config : option string;
  op_rpc_url : option string;
  op_artifact : option string;
  op_apply : bool;
  op_confirm_mainnet : bool
}.

Inductive AsgAction : Type :=
  | DeployAsg (options : Options) (salt : option string)
  | HandoffAsg (options : Options) (asg : option Address).

Record Settings : Type := mkSettings {
  se_deployer : Address;
  se_salt : string;
  se_legacy_asg : Address;
  se_operator : Address;
  se_delay : Z;
  se_hub_chain_id : string
}.

(** [original], the configuration text, is in the state. *)
Record AsgContext : Type := mkAsgContext {
  cx_network : Network;
  cx_path : string;
  cx_key : string;
  cx_chain_id : Z;
  cx_rpc : string;
  cx_gateway : Address;
  cx_its : Address;
  cx_configured_asg : option Address;
  cx_create3 : option Address;
  cx_artifact_path : string;
  cx_settings : Settings
}.

Inductive TransactionAction : Type := Deploy (asg : Address) | Handoff (asg : Address).

Record Artifact : Type := mkArtifact {
  ar_contract_name : string;
  ar_bytecode : bytes;
  ar_deployed_bytecode : bytes
}.

Record Deployment : Type := mkDeployment {
  de_address : Address;
  de_request : TransactionRequest;
  de_runtime : bytes;
  de_artifact : Artifact
}.

Record Roles : Type := mkRoles {
  ro_gateway_owner : Address;
  ro_gateway_operator : Address;
  ro_its_owner : Address;
  ro_sender_is_its_operator : bool;
  ro_asg_is_its_operator : bool
}.

(** The request, its [transaction_type] field beside it. *)
Record SavedTransaction : Type := mkSaved {
  sv_request : TransactionRequest;
  sv_transaction_type : option Z;
  sv_raw : bytes
}.

(** Why a recorded transaction can no longer execute. *)
Inductive Evidence : Type :=
  | SucceededIn (block : Z)
  | RevertedIn (block : Z)
  | NonceConsumed (nonce head : Z).

#[export] Instance TxKind_eq_dec : EqDecision TxKind.
Proof. solve_decision. Defined.
#[export] Instance TransactionRequest_eq_dec : EqDecision TransactionRequest.
Proof. solve_decision. Defined.
#[export] Instance TransactionAction_eq_dec : EqDecision TransactionAction.
Proof. solve_decision. Defined.

(** ** Interfaces *)

(** Encodings (alloy, serde_json) and URLs (reqwest). *)
Class AsgLib : Type := {
  (** [TxEnvelope::decode_2718(&mut raw)], with the bytes it leaves. *)
  decode_rest : bytes -> option (TxEnvelope * bytes);
  saved_json : SavedTransaction -> bytes;
  saved_of : bytes -> option SavedTransaction;
  (** The tuple a journal file is named after. *)
  identity_json : option Z -> option Address -> option TxKind -> bytes;
  (** Gateway, chain, address, delay, operator. *)
  asg_constructor : Address -> string -> string -> Z -> Address -> bytes;
  artifact_of : bytes -> option Artifact;
  address_of_json : Json -> option Address;
  (** [serde_json::from_slice] and [to_string_pretty]. *)
  json_of : bytes -> option Json;
  pretty_json : Json -> bytes;
  (** The URL parses, with scheme [http] or [https] and a host. *)
  http_url : string -> bool
}.

(** The views of the contracts, at a block hash or at the latest block, the
    files, and a legacy transaction filled and signed with a key. *)
Class AsgNode (E : Type) : Type := {
  resolve_checkout : Network -> option string -> E -> result string * E;
  read_config : string -> E -> result bytes * E;
  write_config : string -> bytes -> E -> result () * E;
  read_artifact_file : string -> E -> result bytes * E;
  code_at : B256 -> Address -> E -> result bytes * E;
  (** The error is its text. *)
  code_finalized : Address -> E -> (string + bytes) * E;
  managed_gateway : Address -> E -> result Address * E;
  is_operator_at : B256 -> Address -> Address -> E -> result bool * E;
  gov_gateway : B256 -> Address -> E -> result Address * E;
  gov_operator : option B256 -> Address -> E -> result Address * E;
  gov_delay : B256 -> Address -> E -> result Z * E;
  gov_chain : B256 -> Address -> E -> result string * E;
  gov_address : B256 -> Address -> E -> result string * E;
  gov_chain_hash : B256 -> Address -> E -> result B256 * E;
  gov_address_hash : B256 -> Address -> E -> result B256 * E;
  count_at : Z -> Address -> E -> result Z * E;
  sign_legacy : string -> TransactionRequest -> E -> result TxEnvelope * E;
  (** [get_receipt] of a pending transaction, within 120 seconds. *)
  pending_receipt : B256 -> E -> result Receipt * E;
  (** A file access that may fail; a lock that may be taken. *)
  file_access : E -> result () * E;
  take_lock : E -> result () * E;
  (** The delay of a retry, in milliseconds. *)
  sleep_ms : Z -> E -> E
}.

(** ** Settings and configuration (its_asg/config.rs, factory.rs, rpc.rs) *)

Definition GOVERNANCE_ADDRESS : string := "axelar10d07y265gmmuvt4z0w9aw880jnsr700j7v9daj".
Definition GOVERNANCE_CHAIN : string := "axelar".

Definition settings (network : Network) : result Settings :=
  match network with
  | Mainnet => Ok (mkSettings 0xB1209B087e544785138784A50933d163A9087a7D "v6.0.4-axelar"
                     0x7Acbae6CBa67d78AAf69e47000884aE00F9B2525 0xc8a8399c3D1207f4e109673be7047604737c1D56
                     259200 "axelar-dojo-1")
  | Testnet => Ok (mkSettings 0x81e63eA8F64FEdB9858EB6E2176B431FBd10d1eC "v6.1.0"
                     0xb55A09E9fde39755c39EF9A7911431Ba0c96332A 0x6e079CD1c6bBb72680DeDF2687d711AE9427eE8e
                     300 "axelar-testnet-lisbon-3")
  | _ => bail "ASG deployment/handoff supports testnet and mainnet only"
  end.

(** [Path::parent] of a path without doubled or trailing slashes. *)
Fixpoint last_slash (s : string) : option (string * string) :=
  match s with
  | EmptyString => None
  | String c rest =>
      match last_slash rest with
      | Some (a, b) => Some (String c a, b)
      | None => if Ascii.eqb c "/"%char then Some (EmptyString, rest) else None
      end
  end.
Definition path_parent (p : string) : option string :=
  match last_slash p with
  | Some (EmptyString, EmptyString) => None
  | Some (EmptyString, _) => Some "/"
  | Some (a, _) => Some a
  | None => if bool_decide (p = "") then None else Some ""
  end.
Definition deployments_root (p : string) : result string :=
  ok_or (a ← path_parent p; b ← path_parent a; path_parent b) "cannot derive deployments root".

Definition SDK_ARTIFACT : string :=
  gmp_sdk +:+ "governance/AxelarServiceGovernance.sol/AxelarServiceGovernance.json".

Section Configuration.
Context `{AsgLib, ConfigLib, CosmosAccounts, HashOrder}.

Definition required_address (cfg : ChainConfig) (name : string) : result Address :=
  text ← contract_address_by_name cfg name;
  value ← ok_or (parse_address text) "invalid address";
  _ ← ensure_ok (negb (value =? 0)) "address is zero";
  Ok value.

Definition optional_address (cfg : ChainConfig) (name : string) : result (option Address) :=
  match contracts ← cc_contracts cfg; entry ← contracts !! name; entry_address entry with
  | None => Ok None
  | Some text => Some <$> ok_or (parse_address text) "invalid address"
  end.

(** [RecordedFactory] of the extra fields. *)
Definition recorded_factory (entry : ContractEntry) : result (option Address) :=
  match entry_extra entry !! "create3Deployer" with
  | None | Some JNull => Ok None
  | Some v => Some <$> ok_or (address_of_json v) "invalid create3Deployer"
  end.

Definition configured_factory (cfg : ChainConfig) : result (option Address) :=
  match cc_contracts cfg with
  | None => Ok None
  | Some contracts =>
      recorded ← match contracts !! "AxelarServiceGovernance" with
                 | Some entry => recorded_factory entry
                 | None => Ok None
                 end;
      selected ← match recorded with
                 | Some address => Ok (Some address)
                 | None =>
                     match entry ← contracts !! "Create3Deployer"; entry_address entry with
                     | None => Ok None
                     | Some text => Some <$> ok_or (parse_address text) "invalid address"
                     end
                 end;
      _ ← ensure_ok (negb (bool_decide (selected = Some 0))) "configured CREATE3 factory is zero";
      Ok selected
  end.

Definition rpc_url (configured selected : option string) : result string :=
  value ← ok_or (match selected with Some v => Some v | None => configured end) "missing EVM rpc";
  _ ← ensure_ok (http_url value) "ASG RPC URL must use HTTP or HTTPS";
  Ok value.

(** The context of a chain in a configuration. *)
Definition context_of (network : Network) (chain : string) (options : Options) (path : string) (config : ChainsConfig)
    : result AsgContext :=
  s ← settings network;
  _ ← ensure_ok (bool_decide (ax_chain_id (cfg_axelar config) = Some (se_hub_chain_id s)))
        "Axelar network mismatch in config";
  '(key, cfg) ← ok_or (List.find (fun '(key, cfg) =>
                   eq_ignore_ascii_case key chain || eq_ignore_ascii_case (axelar_id_or cfg key) chain)
                   (hash_iter (cfg_chains config))) "chain not found";
  _ ← ensure_ok (bool_decide (cc_chain_type cfg = Some "evm")) "ASG handoff requires an EVM chain";
  gateway ← ok_or (contracts ← cc_contracts cfg; contracts !! "AxelarGateway") "not deployed yet";
  _ ← ensure_ok (bool_decide ((v ← entry_extra gateway !! "connectionType"; as_str v) = Some "amplifier"))
        "this command supports amplifier gateways only";
  artifact_path ← match op_artifact options with
                  | Some p => Ok p
                  | None => root ← deployments_root path; Ok (root +:+ "/" +:+ SDK_ARTIFACT)%string
                  end;
  gateway ← required_address cfg "AxelarGateway";
  its ← required_address cfg "InterchainTokenService";
  configured_asg ← optional_address cfg "AxelarServiceGovernance";
  create3 ← configured_factory cfg;
  chain_id ← ok_or (cc_evm_chain_id cfg) "missing EVM chainId";
  rpc ← rpc_url (cc_rpc cfg) (op_rpc_url options);
  Ok (mkAsgContext network path key chain_id rpc gateway its configured_asg create3 artifact_path s).
End Configuration.
