(* ===== verification/AsgRun.v ===== *)
(** * Deploying service governance and handing ownership over
    (commands/its_asg.rs and its_asg/)

    The programs of [DeployAsg] and [HandoffAsg].  The state has the
    environment, the journal directory (a file per chain, sender and target,
    with the copies and the evidence of retired ones), the configuration text
    under review, and the trace of what was verified, asked, written and sent. *)

From Stdlib Require Import Ascii.
From Stdlib Require String.
From S2P Require Import Prelude Types Retry Journal Chain Plan Config Intent Json Cosmos Target Checkpoints EvmSteps LoadNet Propose Asg.

(** ** State and trace *)

(** What the operator is asked. *)
Inductive AsgReview : Type :=
  | SendExactly (request : TransactionRequest) (action : TransactionAction)
  | SendAgain (saved : SavedTransaction) (action : TransactionAction)
  | Retire (identity : B256) (record : bytes) (evidence : Evidence)
  | RecordState.

Inductive asg_event : Type :=
  (* the factory is verified and predicts the address *)
  | Predicted (ctx : AsgContext) (from factory asg : Address)
  (* code and settings of the contract, in a confirmed block *)
  | GovernanceVerified (ctx : AsgContext) (asg : Address) (runtime : bytes) (block : Block)
  (* owners and operators, in a confirmed block *)
  | RolesRead (ctx : AsgContext) (from asg : Address) (roles : Roles) (block : Block)
  | Answered (r : AsgReview) (yes : bool)
  | Journaled (identity : B256) (record : bytes)
  | Copied (identity : B256) (record : bytes)
  | Dropped (identity : B256)
  | Broadcast (raw : bytes)
  | Recorded (updates : list (string * Json)).

Record Asg (E : Type) : Type := mkAsg {
  as_env : E;
  as_journals : gmap B256 bytes;
  as_retired : gmap (B256 * B256) bytes;
  as_evidence : gmap (B256 * B256) bytes;
  as_original : bytes;
  as_trace : list asg_event
}.
Arguments mkAsg {E}.
Arguments as_env {E}.
Arguments as_journals {E}.
Arguments as_retired {E}.
Arguments as_evidence {E}.
Arguments as_original {E}.
Arguments as_trace {E}.

(** ** Requests and keys *)

(** [TransactionRequest::default().from(..).to(..).with_chain_id(..).value(0).input(..)]. *)
Definition plain_request (from to : Address) (chain_id : Z) (input : bytes) : TransactionRequest :=
  mkRequest (Some from) (Some (CallTo to)) None None None None (Some 0) (Some input) None (Some chain_id) None None None.

Definition with_gas_price (price : Z) (r : TransactionRequest) : TransactionRequest :=
  mkRequest (rq_from r) (rq_to r) (Some price) (rq_max_fee_per_gas r) (rq_max_priority_fee_per_gas r) (rq_gas r)
    (rq_value r) (rq_input r) (rq_nonce r) (rq_chain_id r) (rq_access_list r) (rq_authorization_list r)
    (rq_blob_versioned_hashes r).

Definition tx_kind (tx : TxEnvelope) : TxKind := match tx_to tx with None => Create | Some a => CallTo a end.

Definition SENDER_KEY_ENV : string := "ASG_PRIVATE_KEY".
Definition DEPLOYER_KEY_ENV : string := "ASG_DEPLOYER_PRIVATE_KEY".
Definition OPERATOR_KEY_ENV : string := "EVM_GOVERNANCE_OPERATOR_KEY".

Definition key_variable (action : TransactionAction) : string :=
  match action with Deploy _ => DEPLOYER_KEY_ENV | Handoff _ => SENDER_KEY_ENV end.

(** [rpc::unavailable], of the text of an error. *)
Definition unavailable (text : string) : bool :=
  let message := to_lowercase text in
  contains "historical state" message && contains "not available" message.

Definition validate_inputs (s : Settings) (from : Address) (salt : option string) : result () :=
  _ ← ensure_ok (from =? se_deployer s) "ASG deployment requires the network's deployer";
  ensure_ok (match salt with None => true | Some salt => bool_decide (salt = se_salt s) end)
    "ASG deployment requires the network's salt".

Definition validate_prediction (ctx : AsgContext) (predicted : Address) : result () :=
  _ ← ensure_ok (negb (predicted =? 0)) "factory predicted a zero ASG address";
  match cx_configured_asg ctx with
  | None => Ok ()
  | Some configured => ensure_ok (configured =? predicted) "configured ASG differs from predicted, refusing a replacement"
  end.

(** *** Roles (handoff.rs) *)

Definition validate_roles (roles : Roles) (asg from : Address) : result () :=
  _ ← ensure_ok (negb (ro_gateway_operator roles =? asg)) "gateway already has ASG as operator";
  _ ← ensure_ok (negb (ro_asg_is_its_operator roles)) "ASG already has ITS operatorship";
  _ ← ensure_ok ((ro_its_owner roles =? from) || (ro_its_owner roles =? asg)) "ITS owner is not --from";
  ensure_ok ((ro_gateway_owner roles =? from) || (ro_gateway_owner roles =? asg)) "gateway owner is not --from".

Definition operators_unchanged (before after : Roles) : result () :=
  ensure_ok ((ro_gateway_operator before =? ro_gateway_operator after) &&
             Bool.eqb (ro_sender_is_its_operator before) (ro_sender_is_its_operator after) &&
             Bool.eqb (ro_asg_is_its_operator before) (ro_asg_is_its_operator after))
    "operator roles changed during ownership handoff".

(** *** Configuration edits (config.rs) *)

(** [entry.extend(fields)]. *)
Definition extend (entry fields : Fields) : Fields := foldl (fun o '(k, v) => set_field k v o) entry fields.

Definition apply_update (contracts : Fields) (update : string * Json) : result Fields :=
  entry ← ok_or (as_object (default (JObj []) (field update.1 contracts))) "invalid record";
  fields ← ok_or (as_object update.2) "invalid config patch";
  Ok (set_field update.1 (JObj (extend entry fields)) contracts).

Fixpoint apply_updates (contracts : Fields) (updates : list (string * Json)) : result Fields :=
  match updates with
  | [] => Ok contracts
  | u :: updates => contracts ← apply_update contracts u; apply_updates contracts updates
  end.

(** The field of an object, changed in place. *)
Definition edit_key (k : string) (f : Json -> result Json) (v : Json) : result Json :=
  o ← ok_or (as_object v) "missing contracts object";
  x ← ok_or (field k o) "missing contracts object";
  y ← f x;
  Ok (JObj (set_field k y o)).

(** [root["chains"][key]["contracts"]] with the updates. *)
Definition edited (key : string) (updates : list (string * Json)) : Json -> result Json :=
  edit_key "chains" (edit_key key (edit_key "contracts" (fun v =>
    contracts ← ok_or (as_object v) "missing contracts object"; JObj <$> apply_updates contracts updates))).

Section Records.
Context `{EvmLib, ConfigLib}.

(** What [existing::reuse] records. *)
Definition observed_record (ctx : AsgContext) (asg : Address) (runtime : bytes) : Fields :=
  [("address", JStr (address_to_string asg)); ("gateway", JStr (address_to_string (cx_gateway ctx)));
   ("governanceChain", JStr GOVERNANCE_CHAIN); ("governanceAddress", JStr GOVERNANCE_ADDRESS);
   ("minimumTimeDelay", JNum (se_delay (cx_settings ctx)));
   ("operator", JStr (address_to_string (se_operator (cx_settings ctx))));
   ("codehash", JStr (b256_to_string (keccak256 runtime)))].

Definition handoff_record (ctx : AsgContext) (asg : Address) (runtime : bytes) : Fields :=
  [("address", JStr (address_to_string asg)); ("gateway", JStr (address_to_string (cx_gateway ctx)));
   ("governanceChain", JStr GOVERNANCE_CHAIN); ("governanceAddress", JStr GOVERNANCE_ADDRESS);
   ("operator", JStr (address_to_string (se_operator (cx_settings ctx))));
   ("minimumTimeDelay", JNum (se_delay (cx_settings ctx)));
   ("codehash", JStr (b256_to_string (keccak256 runtime)))].

Definition deployment_record (ctx : AsgContext) (from factory : Address) (d : Deployment) (receipt : option Receipt) : Fields :=
  [("address", JStr (address_to_string (de_address d))); ("gateway", JStr (address_to_string (cx_gateway ctx)));
   ("governanceChain", JStr GOVERNANCE_CHAIN); ("governanceAddress", JStr GOVERNANCE_ADDRESS);
   ("minimumTimeDelay", JNum (se_delay (cx_settings ctx)));
   ("operator", JStr (address_to_string (se_operator (cx_settings ctx))));
   ("deployer", JStr (address_to_string from)); ("deploymentMethod", JStr "create3");
   ("salt", JStr (se_salt (cx_settings ctx))); ("create3Deployer", JStr (address_to_string factory));
   ("predeployCodehash", JStr (b256_to_string (keccak256 (ar_deployed_bytecode (de_artifact d)))));
   ("codehash", JStr (b256_to_string (keccak256 (de_runtime d))))] ++
  match receipt with
  | Some r => [("deploymentTx", JStr (b256_to_string (transaction_hash r)))]
  | None => []
  end.

Definition handoff_updates (ctx : AsgContext) (asg : Address) (runtime : bytes) (roles : Roles) : list (string * Json) :=
  [("AxelarServiceGovernance", JObj (handoff_record ctx asg runtime));
   ("AxelarGateway", JObj [("owner", JStr (address_to_string (ro_gateway_owner roles)));
                           ("operator", JStr (address_to_string (ro_gateway_operator roles)))]);
   ("InterchainTokenService", JObj [("owner", JStr (address_to_string (ro_its_owner roles)))])].

(** The text of the evidence (retirement.rs). *)
Definition evidence_text (hash : B256) (e : Evidence) : string :=
  match e with
  | SucceededIn block => (b256_to_string hash +:+ " succeeded in canonical block " +:+ to_dec block)%string
  | RevertedIn block => (b256_to_string hash +:+ " reverted in canonical block " +:+ to_dec block)%string
  | NonceConsumed nonce head =>
      (b256_to_string hash +:+ " unavailable, but nonce " +:+ to_dec nonce +:+ " is consumed at confirmed block "
         +:+ to_dec head +:+ "; signed bytes cannot execute again. Live effects will be re-read")%string
  end.
End Records.

Section Programs.
Context {E : Type} `{Host E, EvmNode E, DeployNode E, StepNode E, AsgNode E, AsgLib, EvmLib, StepLib, ConfigLib,
                     CosmosAccounts, HashOrder}.
Abbreviation A := (Asg E).
Variables (jittered : Z -> Z) (env_var : string -> option string) (is_terminal : bool).

(** Whatever goes wrong outside is an ordinary error. *)
Definition outside {T} (r : result T) : result T :=
  match r with Err (Paused msg) => Err (Failed msg) | Err OutOfFuel => Err (Failed "request failed") | _ => r end.
Definition consult {T} (m : M E T) : M A T := fun s =>
  let '(r, e) := m (as_env s) in
  (outside r, mkAsg e (as_journals s) (as_retired s) (as_evidence s) (as_original s) (as_trace s)).
Definition note (ev : asg_event) : M A () := modify (fun s =>
  mkAsg (as_env s) (as_journals s) (as_retired s) (as_evidence s) (as_original s) (as_trace s ++ [ev])).
Definition put_question (r : AsgReview) (prompt : string) : M A bool :=
  yes ← consult (request (ui_confirm prompt)); note (Answered r yes);; mret yes.
Definition pause_for (secs : Z) : M A () := consult (request (fun e => ((), sleep secs e))).
Definition clock_now : M A Z := s ← get; mret (clock (as_env s)).
Definition journals : M A (gmap B256 bytes) := s ← get; mret (as_journals s).

(** ** Files (hardened/storage.rs, retirement.rs) *)

Definition put_journal (id : B256) (record : bytes) : M A () := modify (fun s =>
  mkAsg (as_env s) (<[id := record]> (as_journals s)) (as_retired s) (as_evidence s) (as_original s)
    (as_trace s ++ [Journaled id record])).
Definition drop_journal (id : B256) : M A () := modify (fun s =>
  mkAsg (as_env s) (delete id (as_journals s)) (as_retired s) (as_evidence s) (as_original s)
    (as_trace s ++ [Dropped id])).
Definition put_retired (id digest : B256) (record : bytes) : M A () := modify (fun s =>
  mkAsg (as_env s) (as_journals s) (<[(id, digest) := record]> (as_retired s)) (as_evidence s) (as_original s)
    (as_trace s ++ [Copied id record])).
Definition put_evidence (id digest : B256) (text : bytes) : M A () := modify (fun s =>
  mkAsg (as_env s) (as_journals s) (as_retired s) (<[(id, digest) := text]> (as_evidence s)) (as_original s)
    (as_trace s)).

(** An access to the disk that changes a file: an error may come before or
    after the effect. *)
Definition on_disk (effect : M A ()) : M A () :=
  outcome ← consult (request disk_write);
  match outcome with
  | Committed => effect
  | FailedBefore => throw (Failed "cannot write")
  | FailedAfter => effect;; throw (Failed "cannot write")
  end.

Definition read_journal (id : B256) : M A bytes :=
  consult file_access;; files ← journals; lift (ok_or (files !! id) "cannot read the journal").
Definition journal_exists (id : B256) : M A bool := files ← journals; mret (bool_decide (is_Some (files !! id))).

(** *** Retirement *)

Definition evidence_json (digest : B256) (reason : string) : bytes :=
  pretty_json (JObj [("journalHash", JStr (b256_to_string digest)); ("reason", JStr reason)]).

Definition persist (id : B256) (record : bytes) (reason : string) : M A () :=
  let digest := keccak256 record in
  current ← read_journal id;
  ensure (bool_decide (current = record)) "journal changed during retirement review";;
  on_disk (put_retired id digest record);;
  on_disk (put_evidence id digest (evidence_json digest reason));;
  on_disk (drop_journal id).

Definition archive (id : B256) (hash : B256) (evidence : Evidence) : M A () :=
  record ← read_journal id;
  yes ← put_question (Retire id record evidence) "Archive this non-executable record and re-evaluate the remaining work?";
  ensure yes "declined; record preserved";;
  persist id record (evidence_text hash evidence).

(** [saturating_sub(1)] of the head, and the count of the account there. *)
Definition nonce_consumed (request : TransactionRequest) : M A (option Evidence) :=
  from ← lift (ok_or (rq_from request) "recorded sender missing");
  nonce ← lift (ok_or (rq_nonce request) "recorded nonce missing");
  block ← consult eth_block_number;
  let head := saturating_sub block 1 in
  count ← consult (count_at head from);
  mret (if count <=? nonce then None else Some (NonceConsumed nonce head)).

(** Up to [n] more looks, a second apart. *)
Fixpoint look_again (n : nat) (hash : B256) : M A (option Receipt) :=
  match n with
  | O => mret None
  | S n =>
      pause_for 1;;
      receipt ← consult (eth_get_transaction_receipt hash);
      match receipt with
      | Some r => mret (Some r)
      | None => look_again n hash
      end
  end.

Definition terminal_receipt (hash : B256) (receipt : Receipt) (retire_success : bool) : M A (option Evidence) :=
  if status receipt && negb retire_success then mret None
  else
    block ← lift (ok_or (block_number receipt) "terminal receipt has no block");
    header ← consult (eth_get_block (TagNumber block));
    header ← lift (ok_or header "receipt block unavailable");
    ensure ((transaction_hash receipt =? hash) && bool_decide (Some (bk_hash header) = block_hash receipt))
      "terminal receipt is not canonically confirmed";;
    head ← consult eth_block_number;
    ensure (Z.min (block + 1) u64_max <=? head) "terminal receipt is not canonically confirmed";;
    mret (Some (if status receipt then SucceededIn block else RevertedIn block)).

Definition evm_terminal (request : TransactionRequest) (raw : bytes) (retire_success : bool) : M A (option Evidence) :=
  let hash := keccak256 raw in
  receipt ← consult (eth_get_transaction_receipt hash);
  match receipt with
  | Some receipt => terminal_receipt hash receipt retire_success
  | None =>
      consumed ← nonce_consumed request;
      match consumed with
      | None => mret None
      | Some _ =>
          receipt ← look_again 3 hash;
          match receipt with
          | Some receipt => terminal_receipt hash receipt retire_success
          | None => nonce_consumed request
          end
      end
  end.

(** ** Confirmations (confirmations.rs) *)

Definition EXTRA_BLOCKS : Z := 1.

Definition observation : M A Block :=
  head ← consult eth_block_number;
  height ← lift (ok_or (checked_sub 64 head EXTRA_BLOCKS) "chain has not reached two confirmations");
  block ← consult (eth_get_block (TagNumber height));
  lift (ok_or block "confirmed block unavailable").

Definition canonical (block : Block) : M A () :=
  current ← consult (eth_get_block (TagNumber (bk_number block)));
  current ← lift (ok_or current "confirmed block disappeared, rerun to verify again");
  ensure (bk_hash current =? bk_hash block) "confirmed block changed, rerun to verify again".

(** [tokio::time::timeout]: what completes after the deadline is cut. *)
Definition before_deadline {T} (deadline : Z) (m : M A T) : M A T :=
  r ← m; now ← clock_now;
  if deadline <? now then throw (Failed "did not reach two confirmations, rerun the same command to recover")
  else mret r.

Fixpoint confirmation_loop (fuel : nat) (receipt : Receipt) (inclusion : Z) (expected_hash : B256) (target deadline poll : Z)
    : M A () :=
  match fuel with
  | O => throw OutOfFuel
  | S fuel =>
      head ← before_deadline deadline (consult eth_block_number);
      if target <=? head then
        observed ← before_deadline deadline (consult (eth_get_transaction_receipt (transaction_hash receipt)));
        observed ← lift (ok_or observed "receipt disappeared, rerun to recover");
        ensure ((transaction_hash observed =? transaction_hash receipt) &&
                bool_decide (block_number observed = Some inclusion) &&
                bool_decide (block_hash observed = Some expected_hash) && status observed)
          "receipt changed or reverted, rerun to recover";;
        block ← before_deadline deadline (consult (eth_get_block (TagNumber inclusion)));
        block ← lift (ok_or block "block disappeared, rerun to recover");
        ensure (bk_hash block =? expected_hash) "block reorganized, rerun to recover"
      else
        before_deadline deadline (pause_for poll);;
        confirmation_loop fuel receipt inclusion expected_hash target deadline poll
  end.

(** A round takes at least [poll] seconds and starts before the deadline. *)
Definition wait_for_confirmations (receipt : Receipt) (timeout poll : Z) : M A () :=
  ensure (status receipt) "transaction reverted";;
  inclusion ← lift (ok_or (block_number receipt) "receipt has no block number");
  expected_hash ← lift (ok_or (block_hash receipt) "receipt has no block hash");
  target ← lift (ok_or (checked_add 64 inclusion EXTRA_BLOCKS) "confirmation height overflow");
  start ← clock_now;
  confirmation_loop (S (S (Z.to_nat (timeout / poll)))) receipt inclusion expected_hash target (start + timeout) poll.

Definition wait (receipt : Receipt) : M A () := wait_for_confirmations receipt 120 1.

(** ** Checks (checks.rs, rpc.rs, factory.rs, signing.rs) *)

Definition check_network (ctx : AsgContext) : M A () :=
  chain_id ← consult eth_chain_id;
  ensure (chain_id =? cx_chain_id ctx) "EVM RPC chain ID mismatch";;
  for_each (fun a => code ← consult (eth_get_code a); ensure (negb (bool_decide (code = []))) "no contract")
    [cx_gateway ctx; cx_its ctx];;
  its_gateway ← consult (managed_gateway (cx_its ctx));
  ensure (its_gateway =? cx_gateway ctx) "ITS points to a different gateway";;
  consult (mc_operator None (cx_gateway ctx));;
  mret ().

Definition artifact (ctx : AsgContext) : M A Artifact :=
  text ← consult (read_artifact_file (cx_artifact_path ctx));
  artifact ← lift (ok_or (artifact_of text) "invalid artifact");
  ensure (bool_decide (ar_contract_name artifact = "AxelarServiceGovernance")) "wrong ASG artifact contractName";;
  ensure (negb (bool_decide (ar_bytecode artifact = [])) && negb (bool_decide (ar_deployed_bytecode artifact = [])))
    "ASG artifact has empty bytecode";;
  mret artifact.

Definition creation (ctx : AsgContext) (a : Artifact) : bytes :=
  ar_bytecode a ++
  asg_constructor (cx_gateway ctx) GOVERNANCE_CHAIN GOVERNANCE_ADDRESS (se_delay (cx_settings ctx))
    (se_operator (cx_settings ctx)).

Definition expected_runtime (init : bytes) (from : Address) : M A bytes :=
  runtime ← consult (eth_call_create from init);
  ensure (negb (bool_decide (runtime = []))) "contract constructor returned empty runtime";;
  mret runtime.

Definition governance_at (ctx : AsgContext) (asg : Address) (runtime : bytes) (block : B256) : M A () :=
  code ← consult (code_at block asg);
  ensure (bool_decide (code = runtime)) "ASG runtime mismatch, use the matching deployment artifact";;
  gateway ← consult (gov_gateway block asg);
  ensure (gateway =? cx_gateway ctx) "ASG gateway mismatch";;
  operator ← consult (gov_operator (Some block) asg);
  ensure (operator =? se_operator (cx_settings ctx)) "ASG operator differs from network policy";;
  operator ← consult (gov_operator None asg);
  ensure (operator =? se_operator (cx_settings ctx)) "ASG operator changed in the latest state";;
  delay ← consult (gov_delay block asg);
  ensure (delay =? se_delay (cx_settings ctx)) "ASG timelock differs from network policy";;
  chain ← consult (gov_chain block asg);
  ensure (bool_decide (chain = GOVERNANCE_CHAIN)) "ASG governance chain mismatch";;
  address ← consult (gov_address block asg);
  ensure (bool_decide (address = GOVERNANCE_ADDRESS)) "ASG governance address mismatch";;
  chain_hash ← consult (gov_chain_hash block asg);
  ensure (chain_hash =? keccak256 (string_bytes GOVERNANCE_CHAIN)) "ASG governance chain hash mismatch";;
  address_hash ← consult (gov_address_hash block asg);
  ensure (address_hash =? keccak256 (string_bytes GOVERNANCE_ADDRESS)) "ASG governance address hash mismatch".

Definition governance (ctx : AsgContext) (asg : Address) (runtime : bytes) : M A () :=
  block ← observation;
  governance_at ctx asg runtime (bk_hash block);;
  canonical block;;
  note (GovernanceVerified ctx asg runtime block).

Definition read_roles (ctx : AsgContext) (from asg : Address) : M A Roles :=
  observed ← observation;
  let block := bk_hash observed in
  gateway_owner ← consult (mc_owner (Some block) (cx_gateway ctx));
  gateway_operator ← consult (mc_operator (Some block) (cx_gateway ctx));
  its_owner ← consult (mc_owner (Some block) (cx_its ctx));
  sender_is_its_operator ← consult (is_operator_at block (cx_its ctx) from);
  asg_is_its_operator ← consult (is_operator_at block (cx_its ctx) asg);
  canonical observed;;
  let roles := mkRoles gateway_owner gateway_operator its_owner sender_is_its_operator asg_is_its_operator in
  note (RolesRead ctx from asg roles observed);;
  mret roles.

Definition finalized_read {T} (op : E -> (string + T) * E) : M E T := fun e =>
  match retry_async jittered sleep_ms unavailable 3 op e with
  | Some (inr t, _, e) => (Ok t, e)
  | Some (inl text, _, e) =>
      (Err (Failed (if unavailable text then "RPC cannot serve finalized historical state after retries" else text)), e)
  | None => (Err OutOfFuel, e)
  end.

Definition selected_factory (ctx : AsgContext) : result Address :=
  ok_or (cx_create3 ctx) "no CREATE3 factory configured".

Definition verify_factory (ctx : AsgContext) (from : Address) : M A Address :=
  factory ← lift (selected_factory ctx);
  latest ← consult (eth_get_code factory);
  ensure (negb (bool_decide (latest = []))) "configured CREATE3 factory is not deployed";;
  root ← lift (deployments_root (cx_path ctx));
  '(path, _) ← lift (ok_or (artifact_paths_for_step "Create3Deployer" root) "missing Create3Deployer artifact path");
  code ← consult (read_artifact_bytecode path);
  expected ← expected_runtime code from;
  ensure (bool_decide (latest = expected)) "CREATE3 factory runtime does not match the checkout artifact";;
  finalized ← consult (finalized_read (code_finalized factory));
  ensure (bool_decide (finalized = expected)) "finalized CREATE3 factory runtime does not match the checkout artifact";;
  mret factory.

(** The key of a signer, by its text. *)
Definition read_signer (variable : string) (expected : Address) : result string :=
  key ← ok_or (match env_var variable with Some k => if blank k then None else Some k | None => None end) "set the key";
  signer ← ok_or (signer_address (trim key)) "invalid key";
  _ ← ensure_ok (signer =? expected) "the key must derive the address";
  Ok (trim key).
Definition sender (from : Address) (action : TransactionAction) : result string := read_signer (key_variable action) from.
Definition require_operator (expected : Address) : result () := _ ← read_signer OPERATOR_KEY_ENV expected; Ok ().

(** ** Configuration file (config.rs) *)

Definition load (network : Network) (chain : string) (options : Options) : M A AsgContext :=
  _ ← lift (settings network);
  path ← consult (resolve_checkout network (op_config options));
  original ← consult (read_config path);
  config ← lift (ok_or (json_of original ≫= chains_config) "invalid chains config");
  ctx ← lift (context_of network chain options path config);
  modify (fun s => mkAsg (as_env s) (as_journals s) (as_retired s) (as_evidence s) original (as_trace s));;
  mret ctx.

Definition unchanged (ctx : AsgContext) : M A () :=
  current ← consult (read_config (cx_path ctx));
  s ← get;
  ensure (bool_decide (current = as_original s)) "chains config changed during review, rerun to rebuild the plan".

Definition newline : bytes := string_bytes (String (ascii_of_N 10) EmptyString).

Definition save (ctx : AsgContext) (updates : list (string * Json)) : M A () :=
  unchanged ctx;;
  s ← get;
  root ← lift (ok_or (json_of (as_original s)) "invalid json");
  root ← lift (edited (cx_key ctx) updates root);
  let text := pretty_json root ++ newline in
  note (Recorded updates);;
  consult (write_config (cx_path ctx) text);;
  modify (fun s => mkAsg (as_env s) (as_journals s) (as_retired s) (as_evidence s) text (as_trace s)).

(** ** Transactions (transactions.rs, deploy.rs) *)

Definition journal_identity (r : TransactionRequest) : B256 := keccak256 (identity_json (rq_chain_id r) (rq_from r) (rq_to r)).

Definition validate (request : TransactionRequest) (saved : SavedTransaction) : result TxEnvelope :=
  '(tx, rest) ← ok_or (decode_rest (sv_raw saved)) "invalid transaction";
  let own := sv_request saved in
  _ ← ensure_ok (bool_decide (rest = []) && (tx_ty tx =? 0) && bool_decide (sv_transaction_type saved = Some 0))
        "saved transaction encoding or type differs from review";
  _ ← ensure_ok (bool_decide (rq_from own = rq_from request) && bool_decide (rq_to own = rq_to request) &&
                 bool_decide (rq_input own = rq_input request) && bool_decide (rq_value own = rq_value request) &&
                 bool_decide (rq_chain_id own = rq_chain_id request)) "saved transaction intent mismatch";
  signer ← ok_or (recover_address tx) "invalid signature";
  input ← ok_or (rq_input request) "missing calldata";
  _ ← ensure_ok (bool_decide (Some signer = rq_from request) && bool_decide (Some (tx_kind tx) = rq_to request) &&
                 bool_decide (tx_input tx = input) && (tx_value tx =? default 0 (rq_value request)) &&
                 bool_decide (tx_chain_id tx = rq_chain_id request) && bool_decide (Some (tx_nonce tx) = rq_nonce own) &&
                 bool_decide (Some (tx_gas_limit tx) = rq_gas own) && bool_decide (tx_gas_price tx = rq_gas_price own))
        "signed transaction does not match reviewed transaction";
  Ok tx.

Definition prepare (ctx : AsgContext) (from : Address) : M A Deployment :=
  deployer ← verify_factory ctx from;
  artifact ← artifact ctx;
  let init := creation ctx artifact in
  runtime ← expected_runtime init from;
  let salt := get_salt_from_key (se_salt (cx_settings ctx)) in
  address ← consult (deployed_address deployer init from salt);
  lift (validate_prediction ctx address);;
  note (Predicted ctx from deployer address);;
  mret (mkDeployment address (plain_request from deployer (cx_chain_id ctx) (create3_calldata init salt)) runtime artifact).

Definition recheck_governance (ctx : AsgContext) (from : Address) (action : TransactionAction) : M A () :=
  match action with
  | Deploy asg =>
      refreshed ← prepare ctx from;
      ensure (de_address refreshed =? asg) "ASG prediction changed during review"
  | Handoff asg =>
      artifact ← artifact ctx;
      runtime ← expected_runtime (creation ctx artifact) from;
      governance ctx asg runtime
  end.

Definition broadcast (raw : bytes) : M A Receipt :=
  let hash := keccak256 raw in
  note (Broadcast raw);;
  pending ← consult (eth_send_raw_transaction raw);
  ensure (pending =? hash) "RPC returned a different transaction hash";;
  receipt ← consult (pending_receipt hash);
  ensure (transaction_hash receipt =? hash) "RPC returned a different receipt";;
  ensure (status receipt) "transaction reverted, inspect the recorded hash before retrying";;
  wait receipt;;
  mret receipt.

Definition same_chain (ctx : AsgContext) : M A () :=
  chain_id ← consult eth_chain_id; ensure (chain_id =? cx_chain_id ctx) "EVM RPC chain ID changed".

Definition resume (ctx : AsgContext) (request : TransactionRequest) (saved : SavedTransaction) (action : TransactionAction)
    : M A Receipt :=
  tx ← lift (validate request saved);
  receipt ← consult (eth_get_transaction_receipt (tx_hash tx));
  match receipt with
  | Some receipt =>
      ensure (transaction_hash receipt =? tx_hash tx) "RPC returned a different receipt";;
      wait receipt;;
      mret receipt
  | None =>
      from ← lift (ok_or (rq_from request) "missing sender");
      count ← consult (eth_get_transaction_count from);
      ensure (count <=? tx_nonce tx) "saved nonce consumed, recover the original transaction receipt before continuing";;
      yes ← put_question (SendAgain saved action) "Rebroadcast this recorded transaction?";
      ensure yes "declined, nothing sent";;
      unchanged ctx;;
      same_chain ctx;;
      recheck_governance ctx from action;;
      broadcast (sv_raw saved)
  end.

Definition recover_existing (ctx : AsgContext) (request : TransactionRequest) (action : TransactionAction) (id : B256)
    : M A Receipt :=
  record ← read_journal id;
  saved ← lift (ok_or (saved_of record) "invalid journal");
  let own := sv_request saved in
  ensure (bool_decide (rq_chain_id own = rq_chain_id request) && bool_decide (rq_from own = rq_from request) &&
          bool_decide (rq_to own = rq_to request)) "ASG journal network/sender/target mismatch";;
  lift (validate own saved);;
  let changed_intent := negb (is_ok (validate request saved)) in
  terminal ← evm_terminal own (sv_raw saved) changed_intent;
  match terminal with
  | Some evidence =>
      archive id (keccak256 (sv_raw saved)) evidence;;
      throw (Failed "recorded ASG action retired; rerun to re-read deployment/ownership before any replacement")
  | None => resume ctx request saved action
  end.

(** The transaction as it is shown: nonce, gas and price of the node. *)
Definition prepare_request (request : TransactionRequest) (from : Address) : M A TransactionRequest :=
  nonce ← consult (eth_pending_count from);
  count ← consult (eth_get_transaction_count from);
  ensure (count =? nonce) "sender has pending transactions; reconcile them before ASG deployment or handoff";;
  let numbered := with_nonce_gas (Some nonce) (rq_gas request) request in
  estimate ← consult (eth_estimate_gas numbered);
  let gas := saturating_mul 64 estimate 12 / 10 in
  price ← consult eth_gas_price;
  balance ← consult (eth_get_balance from);
  ensure (gas * price <=? balance) "sender cannot cover maximum gas cost";;
  mret (with_gas_price price (with_nonce_gas (Some nonce) (Some gas) request)).

Definition send (ctx : AsgContext) (request : TransactionRequest) (action : TransactionAction) : M A Receipt :=
  unchanged ctx;;
  same_chain ctx;;
  from ← lift (ok_or (rq_from request) "missing sender");
  consult take_lock;;
  let id := journal_identity request in
  consult take_lock;;
  exists_ ← journal_exists id;
  if (exists_ : bool) then recover_existing ctx request action id
  else
    key ← lift (sender from action);
    consult (eth_call request);;
    prepared ← prepare_request request from;
    yes ← put_question (SendExactly prepared action) "Send this exact transaction?";
    ensure yes "declined, nothing sent";;
    unchanged ctx;;
    same_chain ctx;;
    recheck_governance ctx from action;;
    count ← consult (eth_pending_count from);
    ensure (bool_decide (Some count = rq_nonce prepared))
      "sender nonce changed during review, rerun to prepare a new transaction";;
    consult (eth_call prepared);;
    envelope ← consult (sign_legacy key prepared);
    let saved := mkSaved prepared (Some 0) (encoded_2718 envelope) in
    lift (validate request saved);;
    on_disk (put_journal id (saved_json saved));;
    broadcast (sv_raw saved).

(** ** Deployment (deploy.rs, existing.rs) *)

Definition existing_address (ctx : AsgContext) : M A (option Address) :=
  configured ← match cx_configured_asg ctx with
               | None => mret None
               | Some configured =>
                   code ← consult (eth_get_code configured);
                   mret (if bool_decide (code = []) then None else Some configured)
               end;
  match configured with
  | Some configured => mret (Some configured)
  | None =>
      let legacy := se_legacy_asg (cx_settings ctx) in
      code ← consult (eth_get_code legacy);
      if bool_decide (code = []) then mret None
      else
        ensure (match cx_configured_asg ctx with None => true | Some configured => configured =? legacy end)
          "an existing shared ASG conflicts with the configured ASG";;
        mret (Some legacy)
  end.

Definition reuse (ctx : AsgContext) (options : Options) (asg : Address) : M A () :=
  artifact ← artifact ctx;
  runtime ← expected_runtime (creation ctx artifact) (op_from options);
  governance ctx asg runtime;;
  let record := JObj (observed_record ctx asg runtime) in
  if negb (op_apply options) then mret ()
  else
    yes ← put_question RecordState "Record this verified ASG in the deployments config?";
    ensure yes "declined";;
    check_network ctx;;
    governance ctx asg runtime;;
    save ctx [("AxelarServiceGovernance", record)].

Definition deploy_new (ctx : AsgContext) (options : Options) : M A () :=
  lift (selected_factory ctx);;
  d ← prepare ctx (op_from options);
  code ← consult (eth_get_code (de_address d));
  let present := negb (bool_decide (code = [])) in
  recover ← journal_exists (journal_identity (de_request d));
  (if present && (negb (op_apply options) || negb recover) then governance ctx (de_address d) (de_runtime d) else mret ());;
  if negb (op_apply options) then mret ()
  else
    receipt ← (if present && negb recover then
                 yes ← put_question RecordState "Record this verified ASG in the deployments config?";
                 ensure yes "declined";; mret None
               else
                 receipt ← send ctx (de_request d) (Deploy (de_address d));
                 mret (Some receipt));
    governance ctx (de_address d) (de_runtime d);;
    factory ← lift (selected_factory ctx);
    save ctx [("AxelarServiceGovernance", JObj (deployment_record ctx (op_from options) factory d receipt))].

Definition deploy (ctx : AsgContext) (options : Options) : M A () :=
  present ← existing_address ctx;
  match present with
  | Some asg => reuse ctx options asg
  | None => deploy_new ctx options
  end.

(** ** Handoff (handoff.rs) *)

Definition ownership_request (ctx : AsgContext) (from target asg : Address) : TransactionRequest :=
  plain_request from target (cx_chain_id ctx) (transfer_ownership_calldata asg).

Definition record_roles (ctx : AsgContext) (asg : Address) (runtime : bytes) (roles : Roles) : M A () :=
  save ctx (handoff_updates ctx asg runtime roles).

(** One round of the loop, for the ITS or the gateway. *)
Definition transfer (ctx : AsgContext) (from asg : Address) (runtime : bytes) (before : Roles) (target owner : Address) : M A () :=
  if owner =? asg then mret ()
  else
    governance ctx asg runtime;;
    current ← read_roles ctx from asg;
    lift (operators_unchanged before current);;
    lift (validate_roles current asg from);;
    send ctx (ownership_request ctx from target asg) (Handoff asg);;
    after ← read_roles ctx from asg;
    lift (operators_unchanged before after);;
    let actual := if target =? cx_its ctx then ro_its_owner after else ro_gateway_owner after in
    ensure (actual =? asg) "ownership transfer did not take effect";;
    record_roles ctx asg runtime after.

Definition handoff_asg (ctx : AsgContext) (selected : option Address) : result Address :=
  asg ← ok_or (match selected with Some a => Some a | None => cx_configured_asg ctx end) "deploy ASG first, or pass --asg";
  _ ← ensure_ok (match cx_configured_asg ctx with None => true | Some configured => configured =? asg end)
        "--asg conflicts with configured ASG";
  Ok asg.

Definition handoff (ctx : AsgContext) (options : Options) (selected : option Address) : M A () :=
  asg ← lift (handoff_asg ctx selected);
  let from := op_from options in
  artifact ← artifact ctx;
  runtime ← expected_runtime (creation ctx artifact) from;
  governance ctx asg runtime;;
  before ← read_roles ctx from asg;
  if negb (op_apply options) then mret ()
  else
    lift (validate_roles before asg from);;
    (if (ro_gateway_owner before =? asg) && (ro_its_owner before =? asg) then
       yes ← put_question RecordState "Both owners are already ASG. Record verified state in config?";
       ensure yes "declined";;
       record_roles ctx asg runtime before
     else mret ());;
    transfer ctx from asg runtime before (cx_its ctx) (ro_its_owner before);;
    transfer ctx from asg runtime before (cx_gateway ctx) (ro_gateway_owner before);;
    governance ctx asg runtime;;
    after ← read_roles ctx from asg;
    ensure ((ro_gateway_owner after =? asg) && (ro_its_owner after =? asg)) "ownership changed before handoff completed";;
    lift (operators_unchanged before after).

(** ** The command (its_asg.rs) *)

Definition action_options (action : AsgAction) : Options :=
  match action with DeployAsg options _ | HandoffAsg options _ => options end.

Definition run (network : Network) (chain : string) (action : AsgAction) : M A () :=
  let options := action_options action in
  (if op_apply options then
     ensure is_terminal "ASG --apply requires an interactive terminal";;
     ensure (negb (bool_decide (network = Mainnet)) || op_confirm_mainnet options)
       "mainnet writes require --confirm-mainnet"
   else mret ());;
  ensure (negb (op_from options =? 0)) "--from cannot be zero";;
  ctx ← load network chain options;
  match action with
  | DeployAsg _ salt => lift (validate_inputs (cx_settings ctx) (op_from options) salt)
  | HandoffAsg _ _ => mret ()
  end;;
  (if op_apply options then lift (require_operator (se_operator (cx_settings ctx))) else mret ());;
  (if op_apply options then consult take_lock else mret ());;
  unchanged ctx;;
  lift (ensure_ok (http_url (cx_rpc ctx)) "invalid RPC URL");;
  check_network ctx;;
  match action with
  | DeployAsg _ _ => deploy ctx options
  | HandoffAsg _ selected => handoff ctx options selected
  end.
End Programs.
