(* ===== verification/AsgSafety.v ===== *)
(** * What a run on service governance may do

    [reads] are the programs that only look.  The auditor reads the trace of a
    run and accepts a broadcast when the transaction was approved as shown, the
    governance contract was verified again after the approval, and the signed
    bytes are on file under its chain, sender and target; it accepts a new
    record where there is none, and the removal of an approved and copied one.
    [truthful] says what the events of a trace mean: verified at a confirmed
    canonical block, predicted by the factory, signed as the request says. *)

From Stdlib Require Import Ascii.
From Stdlib Require String.
From S2P Require Import Prelude Monitor Types Retry Journal Chain Plan Config Intent Json Cosmos Target Checkpoints EvmSteps LoadNet Propose Asg AsgRun.

Create HintDb reads.

(** ** Programs that only look *)

Section Reads.
Context {E : Type} `{Host E, EvmNode E, DeployNode E, StepNode E, AsgNode E, AsgLib, EvmLib, StepLib, ConfigLib,
                     CosmosAccounts, HashOrder}.
Abbreviation A := (Asg E).
Variables (jittered : Z -> Z) (env_var : string -> option string).

Definition in_env (e : E) (s : A) : A :=
  mkAsg e (as_journals s) (as_retired s) (as_evidence s) (as_original s) (as_trace s).
Definition reads {T} (m : M A T) : Prop := forall s, exists e, (m s).2 = in_env e s.

Lemma reads_stay {T} (m : M A T) : (forall s, (m s).2 = s) -> reads m.
Proof. intros Hm s. exists (as_env s). rewrite Hm. by destruct s. Qed.
Lemma reads_ret {T} (t : T) : reads (mret t).
Proof. by apply reads_stay. Qed.
Lemma reads_lift {T} (r : result T) : reads (lift r).
Proof. by apply reads_stay. Qed.
Lemma reads_ensure b msg : reads (ensure b msg).
Proof. by apply reads_stay. Qed.
Lemma reads_throw {T} e : reads (throw (A := T) e).
Proof. by apply reads_stay. Qed.
Lemma reads_consult {T} (m : M E T) : reads (consult m).
Proof. intros s. exists (m (as_env s)).2. unfold consult. by destruct (m (as_env s)). Qed.

Lemma reads_bind {T U} (m : M A T) (f : T -> M A U) : reads m -> (forall t, reads (f t)) -> reads (m ≫= f).
Proof.
  intros Hm Hf s. destruct (Hm s) as [e He]. unfold mbind, M_bind.
  destruct (m s) as [[t|err] s']; simpl in *; subst s'; [|by exists e]. destruct (Hf t (in_env e s)) as [e' ->]. by exists e'.
Qed.

Lemma reads_get {T} (f : A -> M A T) : (forall s, reads (f s)) -> reads (s ← get; f s).
Proof. intros Hf s. exact (Hf s s). Qed.

Lemma reads_for_each {T} (f : T -> M A ()) l : (forall x, reads (f x)) -> reads (for_each f l).
Proof. intros Hf. induction l; [by apply reads_stay|by apply reads_bind]. Qed.

Ltac looks :=
  lazymatch goal with
  | |- reads (mret _) => apply reads_ret
  | |- reads (lift _) => apply reads_lift
  | |- reads (ensure _ _) => apply reads_ensure
  | |- reads (throw _) => apply reads_throw
  | |- reads (consult _) => apply reads_consult
  | |- reads (for_each _ _) => apply reads_for_each; intros ?; looks
  | |- reads (get ≫= _) => apply reads_get; intros ?; looks
  | |- reads (_ ≫= _) => apply reads_bind; [looks|intros ?; looks]
  | |- reads (match ?x with _ => _ end) => destruct x; looks
  | |- _ => by eauto with reads
  end.

Lemma reads_clock : reads clock_now.
Proof. unfold clock_now. looks. Qed.
Lemma reads_pause n : reads (pause_for n).
Proof. apply reads_consult. Qed.
Lemma reads_journal id : reads (read_journal id).
Proof. unfold read_journal, journals. looks. Qed.
Lemma reads_exists id : reads (journal_exists id).
Proof. unfold journal_exists, journals. looks. Qed.
Lemma reads_unchanged ctx : reads (unchanged ctx).
Proof. unfold unchanged. looks. Qed.
Lemma reads_chain ctx : reads (same_chain ctx).
Proof. unfold same_chain. looks. Qed.
Lemma reads_observation : reads observation.
Proof. unfold observation. looks. Qed.
Lemma reads_canonical block : reads (canonical block).
Proof. unfold canonical. looks. Qed.
Lemma reads_network ctx : reads (check_network ctx).
Proof. unfold check_network. looks. Qed.
Lemma reads_artifact ctx : reads (artifact ctx).
Proof. unfold artifact. looks. Qed.
Lemma reads_runtime init from : reads (expected_runtime init from).
Proof. unfold expected_runtime. looks. Qed.
Lemma reads_governance_at ctx asg runtime block : reads (governance_at ctx asg runtime block).
Proof. unfold governance_at. looks. Qed.
Lemma reads_again n hash : reads (look_again n hash).
Proof. induction n as [|n IH]; cbn [look_again]; [looks|]. apply reads_bind; [apply reads_pause|intros _; looks]. Qed.
Lemma reads_nonce rq : reads (nonce_consumed rq).
Proof. unfold nonce_consumed. looks. Qed.
Lemma reads_terminal_receipt hash receipt retire : reads (terminal_receipt hash receipt retire).
Proof. unfold terminal_receipt. looks. Qed.
Lemma reads_prepare_request rq from : reads (prepare_request rq from).
Proof. unfold prepare_request. looks. Qed.
Lemma reads_existing ctx : reads (existing_address ctx).
Proof. unfold existing_address. looks. Qed.
#[local] Hint Resolve reads_clock reads_pause reads_runtime reads_again reads_nonce reads_terminal_receipt : reads.
Lemma reads_terminal rq raw retire : reads (evm_terminal rq raw retire).
Proof. unfold evm_terminal. looks. Qed.
Lemma reads_factory ctx from : reads (verify_factory jittered ctx from).
Proof. unfold verify_factory. looks. Qed.
Lemma reads_deadline {T} deadline (m : M A T) : reads m -> reads (before_deadline deadline m).
Proof. intros Hm. unfold before_deadline. looks. Qed.
#[local] Hint Resolve reads_deadline reads_consult : reads.
Lemma reads_confirmation_loop fuel receipt inclusion hash target deadline poll :
  reads (confirmation_loop fuel receipt inclusion hash target deadline poll).
Proof. induction fuel as [|fuel IH]; cbn [confirmation_loop]; looks. Qed.
#[local] Hint Resolve reads_confirmation_loop : reads.
Lemma reads_wait receipt : reads (wait receipt).
Proof. unfold wait, wait_for_confirmations. looks. Qed.
End Reads.

#[export] Hint Resolve reads_clock reads_pause reads_journal reads_exists reads_unchanged reads_chain reads_observation
  reads_canonical reads_network reads_artifact reads_runtime reads_governance_at reads_prepare_request reads_existing
  reads_terminal reads_factory reads_wait reads_consult reads_lift reads_ensure reads_ret reads_throw : reads.

(** A run that returned, step by step. *)
Lemma consult_ok {E T} (m : M E T) (s s' : Asg E) t :
  consult m s = (Ok t, s') -> m (as_env s) = (Ok t, as_env s') /\ s' = in_env (as_env s') s.
Proof. unfold consult. destruct (m (as_env s)) as [[a|[]] e]; by intros [= -> <-]. Qed.

Ltac runs_in H :=
  lazymatch type of H with
  | (_ ≫= _) _ = _ =>
      let a := fresh "a" in let s := fresh "s" in let Hm := fresh "Hm" in
      apply M_bind_ok in H as (a & s & Hm & H); runs_in Hm; runs_in H
  | lift _ _ = _ => let Hr := fresh "Hr" in apply lift_ok in H as [Hr ->]
  | ensure _ _ _ = _ => let Hb := fresh "Hb" in apply ensure_run_ok in H as [Hb ->]
  | consult _ _ = _ => let Hc := fresh "Hc" in let Hs := fresh "Hs" in apply consult_ok in H as [Hc Hs]
  | _ => idtac
  end.

(** ** What the node has said *)

Section Said.
Context {E : Type} `{Host E, EvmNode E, DeployNode E, StepNode E, AsgNode E, AsgLib, EvmLib, StepLib, ConfigLib,
                     CosmosAccounts, HashOrder}.
Abbreviation A := (Asg E).

(** A request to the outside was answered so. *)
Definition replied {T} (m : M E T) (t : T) : Prop := exists e e' : E, m e = (Ok t, e').

(** The block below a head of the chain, and still the block of its height when
    asked again. *)
Definition below_head (block : Block) : Prop :=
  exists head, 1 <= head /\ replied eth_block_number head /\
    replied (eth_get_block (TagNumber (head - 1))) (Some block).
Definition still_canonical (block : Block) : Prop :=
  exists current, replied (eth_get_block (TagNumber (bk_number block))) (Some current) /\
    bk_hash current = bk_hash block.
Definition confirmed_block (block : Block) : Prop := below_head block /\ still_canonical block.

(** The code and every setting of the contract, as the configuration and the
    policy of the network want them, in the state of that block; and the
    operator in the latest state too. *)
Definition governed_at (ctx : AsgContext) (asg : Address) (runtime : bytes) (block : B256) : Prop :=
  replied (code_at block asg) runtime /\ replied (gov_gateway block asg) (cx_gateway ctx) /\
  replied (gov_operator (Some block) asg) (se_operator (cx_settings ctx)) /\
  replied (gov_operator None asg) (se_operator (cx_settings ctx)) /\
  replied (gov_delay block asg) (se_delay (cx_settings ctx)) /\
  replied (gov_chain block asg) "axelar" /\
  replied (gov_address block asg) "axelar10d07y265gmmuvt4z0w9aw880jnsr700j7v9daj" /\
  replied (gov_chain_hash block asg) (keccak256 (string_bytes "axelar")) /\
  replied (gov_address_hash block asg) (keccak256 (string_bytes "axelar10d07y265gmmuvt4z0w9aw880jnsr700j7v9daj")).

(** The artifact on disk is that of the governance contract. *)
Definition artifact_read (ctx : AsgContext) (a : Artifact) : Prop :=
  exists text, replied (read_artifact_file (cx_artifact_path ctx)) text /\ artifact_of text = Some a /\
    ar_contract_name a = "AxelarServiceGovernance" /\ ar_bytecode a <> [].

(** The runtime code that the constructor of the artifact returns. *)
Definition built (ctx : AsgContext) (runtime : bytes) : Prop :=
  runtime <> [] /\ exists a from, artifact_read ctx a /\ replied (eth_call_create from (creation ctx a)) runtime.

(** The configured CREATE3 factory has the code of the checkout, at the head and
    finalized. *)
Definition factory_checked (ctx : AsgContext) (from factory : Address) : Prop :=
  cx_create3 ctx = Some factory /\
  exists root path deployed code runtime, deployments_root (cx_path ctx) = Ok root /\
    artifact_paths_for_step "Create3Deployer" root = Some (path, deployed) /\
    replied (read_artifact_bytecode path) code /\
    replied (eth_call_create from code) runtime /\ runtime <> [] /\ replied (eth_get_code factory) runtime /\
    exists e e' : E, code_finalized factory e = (inr runtime, e').

(** It predicts the address for the contract's creation code. *)
Definition predicted_by (ctx : AsgContext) (from factory asg : Address) : Prop :=
  factory_checked ctx from factory /\ asg <> 0 /\
  (forall configured, cx_configured_asg ctx = Some configured -> configured = asg) /\
  exists a, artifact_read ctx a /\
    replied (deployed_address factory (creation ctx a) from (get_salt_from_key (se_salt (cx_settings ctx)))) asg.

(** The owners and operators in the state of that block. *)
Definition roles_at (ctx : AsgContext) (from asg : Address) (roles : Roles) (block : B256) : Prop :=
  replied (mc_owner (Some block) (cx_gateway ctx)) (ro_gateway_owner roles) /\
  replied (mc_operator (Some block) (cx_gateway ctx)) (ro_gateway_operator roles) /\
  replied (mc_owner (Some block) (cx_its ctx)) (ro_its_owner roles) /\
  replied (is_operator_at block (cx_its ctx) from) (ro_sender_is_its_operator roles) /\
  replied (is_operator_at block (cx_its ctx) asg) (ro_asg_is_its_operator roles).

(** What an observation in the trace stands for. *)
Definition truthful (ev : asg_event) : Prop :=
  match ev with
  | Predicted ctx from factory asg => predicted_by ctx from factory asg
  | GovernanceVerified ctx asg runtime block =>
      confirmed_block block /\ governed_at ctx asg runtime (bk_hash block) /\ built ctx runtime
  | RolesRead ctx from asg roles block => confirmed_block block /\ roles_at ctx from asg roles (bk_hash block)
  | _ => True
  end.

Lemma consult_replied {T} (m : M E T) (s s' : A) t : consult m s = (Ok t, s') -> replied m t.
Proof. intros [Hm _]%consult_ok. by exists (as_env s), (as_env s'). Qed.

Lemma observation_said (s s' : A) block : observation s = (Ok block, s') -> below_head block.
Proof.
  unfold observation. intros (head & s1 & Hh%consult_replied & Hr)%M_bind_ok.
  apply M_bind_ok in Hr as (height & s2 & [Hc ->]%lift_ok & (found & s3 & Hb%consult_replied & [Ho ->]%lift_ok)%M_bind_ok).
  apply ok_or_ok, checked_Some in Hc as [<- Hw]. apply ok_or_ok in Ho as ->. unfold EXTRA_BLOCKS in *.
  exists head. split; [lia|done].
Qed.

Lemma canonical_said block (s s' : A) u : canonical block s = (Ok u, s') -> still_canonical block.
Proof.
  unfold canonical. intros (found & s1 & Hf%consult_replied & Hr)%M_bind_ok.
  apply M_bind_ok in Hr as (current & s2 & [Hc ->]%lift_ok & [Hh ->]%ensure_run_ok).
  apply ok_or_ok in Hc as ->. apply Z.eqb_eq in Hh. by exists current.
Qed.

Lemma governance_at_said ctx asg runtime block (s s' : A) u :
  governance_at ctx asg runtime block s = (Ok u, s') -> governed_at ctx asg runtime block.
Proof.
  unfold governance_at. intros Hr.
  repeat match type of Hr with (_ ≫= _) _ = _ =>
    let Hm := fresh "Hm" in apply M_bind_ok in Hr as (? & ? & Hm & Hr);
    first [apply consult_replied in Hm|apply ensure_run_ok in Hm as [Hm ->]]
  end.
  apply ensure_run_ok in Hr as [Hr ->].
  rewrite ?bool_decide_eq_true, ?Z.eqb_eq in *. simplify_eq. by repeat split.
Qed.

Lemma artifact_said ctx (s s' : A) a : artifact ctx s = (Ok a, s') -> artifact_read ctx a.
Proof.
  unfold artifact. intros (text & s1 & Ht%consult_replied & Hr)%M_bind_ok.
  apply M_bind_ok in Hr as (b & s2 & [Hb ->]%lift_ok & (u & s3 & [Hn ->]%ensure_run_ok & Hr)%M_bind_ok).
  apply M_bind_ok in Hr as (v & s4 & [He ->]%ensure_run_ok & Hr). injection Hr as <- <-.
  apply ok_or_ok in Hb. apply bool_decide_eq_true in Hn.
  apply andb_prop in He as [He%negb_true_iff%bool_decide_eq_false _]. by exists text.
Qed.

Lemma expected_runtime_said init from (s s' : A) runtime :
  expected_runtime init from s = (Ok runtime, s') -> runtime <> [] /\ replied (eth_call_create from init) runtime.
Proof.
  unfold expected_runtime. intros (r & s1 & Hr%consult_replied & (u & s2 & [Hn ->]%ensure_run_ok & He)%M_bind_ok)%M_bind_ok.
  injection He as <- <-. by apply negb_true_iff, bool_decide_eq_false in Hn.
Qed.

Lemma read_roles_said ctx from asg (s s' : A) roles :
  read_roles ctx from asg s = (Ok roles, s') ->
  exists block, as_trace s' = as_trace s ++ [RolesRead ctx from asg roles block] /\
    confirmed_block block /\ roles_at ctx from asg roles (bk_hash block).
Proof.
  unfold read_roles. intros (block & s1 & Ho & Hr)%M_bind_ok. pose proof (observation_said _ _ _ Ho) as Hb.
  apply M_bind_ok in Hr as (x1 & t1 & Hc1 & (x2 & t2 & Hc2 & (x3 & t3 & Hc3 & Hr)%M_bind_ok)%M_bind_ok).
  apply M_bind_ok in Hr as (x4 & t4 & Hc4 & (x5 & t5 & Hc5 & (u & t6 & Hc & Hr)%M_bind_ok)%M_bind_ok).
  apply M_bind_ok in Hr as (v & t7 & Hn & Hret). injection Hn as _ <-. injection Hret as <- <-.
  exists block. split.
  - destruct (reads_observation s) as [e He]. rewrite Ho in He. destruct (reads_canonical block t5) as [e' He'].
    rewrite Hc in He'. simpl in He, He'. apply consult_ok in Hc1 as [_ H1'], Hc2 as [_ H2'], Hc3 as [_ H3'], Hc4 as [_ H4'], Hc5 as [_ H5'].
    simpl. by rewrite He', H5', H4', H3', H2', H1', He.
  - split; [split; [done|by eapply canonical_said]|]. by repeat split; eapply consult_replied.
Qed.

Lemma governance_said ctx asg runtime (s s' : A) u :
  governance ctx asg runtime s = (Ok u, s') ->
  exists block, as_trace s' = as_trace s ++ [GovernanceVerified ctx asg runtime block] /\
    confirmed_block block /\ governed_at ctx asg runtime (bk_hash block).
Proof.
  unfold governance. intros (block & s1 & Ho & (v & s2 & Hg & (w & s3 & Hc & Hn)%M_bind_ok)%M_bind_ok)%M_bind_ok.
  destruct (reads_observation s) as [e1 He1]. destruct (reads_governance_at ctx asg runtime (bk_hash block) s1) as [e2 He2].
  destruct (reads_canonical block s2) as [e3 He3]. rewrite Ho in He1. rewrite Hg in He2. rewrite Hc in He3. simpl in *.
  subst. injection Hn as _ <-. exists block. split; [done|].
  split; [split; [by eapply observation_said|by eapply canonical_said]|by eapply governance_at_said].
Qed.
End Said.

(** ** The auditor *)

(** What was approved last: a transaction to send, verified again since or not,
    or a record to retire, copied or not. *)
Inductive Approved : Type :=
  | Nothing
  | ToSend (request : TransactionRequest) (action : TransactionAction) (verified : bool)
  | ToRetire (identity : B256) (record : bytes) (copied : bool).

Record AsgAudit : Type := mkAsgAudit {
  aa_files : gmap B256 bytes;
  aa_approved : Approved
}.

Section Auditor.
Context `{AsgLib, EvmLib}.

(** The bytes are one legacy transaction that does what the request says, signed
    by its sender: target, calldata, value, chain, nonce, gas and price. *)
Definition signed_as (request : TransactionRequest) (raw : bytes) : bool :=
  match decode_rest raw with
  | Some (tx, []) =>
      (tx_ty tx =? 0) && bool_decide (is_Some (rq_from request) /\ recover_address tx = rq_from request) &&
      bool_decide (rq_to request = Some (tx_kind tx)) && bool_decide (rq_input request = Some (tx_input tx)) &&
      (tx_value tx =? default 0 (rq_value request)) && bool_decide (tx_chain_id tx = rq_chain_id request) &&
      bool_decide (rq_nonce request = Some (tx_nonce tx)) && bool_decide (rq_gas request = Some (tx_gas_limit tx)) &&
      bool_decide (tx_gas_price tx = rq_gas_price request)
  | _ => false
  end.

(** The record is that of the request, signed by its sender as it was shown. *)
Definition record_of (request : TransactionRequest) (record : bytes) : option bytes :=
  saved ← saved_of record;
  if bool_decide (sv_request saved = request) && signed_as request (sv_raw saved) then Some (sv_raw saved) else None.

Definition approval_of (r : AsgReview) : Approved :=
  match r with
  | SendExactly request action => ToSend request action false
  | SendAgain saved action => ToSend (sv_request saved) action false
  | Retire id record _ => ToRetire id record false
  | RecordState => Nothing
  end.

(** The contract of the approved action was verified, on the request's chain. *)
Definition verified_for (action : TransactionAction) (chain_id : Z) (a : Approved) : Approved :=
  match a with
  | ToSend request wanted v =>
      ToSend request wanted (v || bool_decide (wanted = action) && bool_decide (rq_chain_id request = Some chain_id))
  | _ => a
  end.

Definition asg_step (st : AsgAudit) (ev : asg_event) : option AsgAudit :=
  let files := aa_files st in
  match ev with
  | RolesRead _ _ _ _ _ | Recorded _ => Some st
  | Predicted ctx _ _ asg => Some (mkAsgAudit files (verified_for (Deploy asg) (cx_chain_id ctx) (aa_approved st)))
  | GovernanceVerified ctx asg _ _ =>
      Some (mkAsgAudit files (verified_for (Handoff asg) (cx_chain_id ctx) (aa_approved st)))
  | Answered r yes => Some (mkAsgAudit files (if yes then approval_of r else Nothing))
  | Journaled id record =>
      match aa_approved st with
      | ToSend request _ true =>
          if bool_decide (id = journal_identity request) && bool_decide (files !! id = None) &&
             bool_decide (is_Some (record_of request record))
          then Some (mkAsgAudit (<[id := record]> files) (aa_approved st)) else None
      | _ => None
      end
  | Copied id record =>
      match aa_approved st with
      | ToRetire id' record' _ =>
          if (id =? id') && bool_decide (record = record') then Some (mkAsgAudit files (ToRetire id' record' true)) else None
      | _ => None
      end
  | Dropped id =>
      match aa_approved st with
      | ToRetire id' record true =>
          if (id =? id') && bool_decide (files !! id = Some record) then Some (mkAsgAudit (delete id files) Nothing) else None
      | _ => None
      end
  | Broadcast raw =>
      match aa_approved st with
      | ToSend request _ true =>
          if bool_decide ((files !! journal_identity request ≫= record_of request) = Some raw)
          then Some (mkAsgAudit files Nothing) else None
      | _ => None
      end
  end.
Definition asg_audit (files : gmap B256 bytes) (t : list asg_event) : option AsgAudit :=
  monitor asg_step (mkAsgAudit files Nothing) t.

(** serde: what was written is read back. *)
Class SavedCodec : Prop := {
  saved_roundtrip s : saved_of (saved_json s) = Some s
}.

(** A request with the same intent is validated alike. *)
Lemma validate_intent request request' saved :
  rq_from request' = rq_from request -> rq_to request' = rq_to request -> rq_input request' = rq_input request ->
  rq_value request' = rq_value request -> rq_chain_id request' = rq_chain_id request ->
  validate request' saved = validate request saved.
Proof. intros H1 H2 H3 H4 H5. unfold validate. by rewrite H1, H2, H3, H4, H5. Qed.

Lemma validate_same_intent request saved tx :
  validate request saved = Ok tx ->
  rq_from (sv_request saved) = rq_from request /\ rq_to (sv_request saved) = rq_to request /\
  rq_input (sv_request saved) = rq_input request /\ rq_value (sv_request saved) = rq_value request /\
  rq_chain_id (sv_request saved) = rq_chain_id request.
Proof.
  unfold validate. destruct (decode_rest _) as [[tx' rest]|]; [|done]. cbn -[ensure_ok].
  intros (u & _ & (u' & Hi & _)%result_bind_ok)%result_bind_ok. apply ensure_ok_ok in Hi.
  apply andb_prop in Hi as [[[[Hf Ht]%andb_prop Hn]%andb_prop Hv]%andb_prop Hc].
  by apply bool_decide_eq_true in Hf, Ht, Hn, Hv, Hc.
Qed.

Lemma validate_signed request saved tx :
  validate request saved = Ok tx ->
  decode_rest (sv_raw saved) = Some (tx, []) /\ recover_address tx = rq_from request /\
  Some (tx_kind tx) = rq_to request /\ Some (tx_input tx) = rq_input request /\
  tx_value tx = default 0 (rq_value request) /\ tx_chain_id tx = rq_chain_id request.
Proof.
  unfold validate. destruct (decode_rest _) as [[tx' rest]|]; [|done]. cbn -[ensure_ok].
  intros (u & He & (u' & _ & (signer & Hsig & (input & Hin & (u3 & Hall & [= <-])%result_bind_ok)%result_bind_ok)%result_bind_ok)%result_bind_ok)%result_bind_ok.
  apply ensure_ok_ok in He, Hall. apply ok_or_ok in Hsig, Hin.
  apply andb_prop in He as [[->%bool_decide_eq_true _]%andb_prop _].
  apply andb_prop in Hall as [[[[[[[Hf Ht]%andb_prop Hi]%andb_prop Hv]%andb_prop Hc]%andb_prop _]%andb_prop _]%andb_prop _].
  apply bool_decide_eq_true in Hf, Ht, Hi, Hc. apply Z.eqb_eq in Hv. subst. by rewrite Hsig.
Qed.

Lemma validate_signed_as request saved tx :
  validate request saved = Ok tx -> signed_as (sv_request saved) (sv_raw saved) = true.
Proof.
  intros Hv. destruct (validate_same_intent _ _ _ Hv) as (Hf & Ht & Hi & Hval & Hc). revert Hv.
  unfold validate, signed_as. destruct (decode_rest _) as [[tx' rest]|]; [|done]. cbn -[ensure_ok].
  intros (u & He & (u' & _ & (signer & Hsig & (input & Hin & (u3 & Hall & _)%result_bind_ok)%result_bind_ok)%result_bind_ok)%result_bind_ok)%result_bind_ok.
  apply ensure_ok_ok in He, Hall. apply ok_or_ok in Hsig, Hin.
  apply andb_prop in He as [[->%bool_decide_eq_true Hty]%andb_prop _]. rewrite !andb_true_iff in Hall.
  destruct Hall as [[[[[[[H1' H2'] H3'] H4'] H5'] H6'] H7'] H8'].
  rewrite bool_decide_eq_true in *. rewrite Hf, Ht, Hi, Hval, Hc, Hty, H4', Hsig, Hin. subst.
  rewrite !bool_decide_true by (try done; by split; [eexists|]). done.
Qed.

Lemma record_of_saved `{!SavedCodec} request saved tx :
  validate request saved = Ok tx -> record_of (sv_request saved) (saved_json saved) = Some (sv_raw saved).
Proof.
  intros Hv. unfold record_of. rewrite saved_roundtrip. simpl.
  by rewrite bool_decide_true, (validate_signed_as request saved tx) by done.
Qed.
End Auditor.

Section Audited.
Context {E : Type} `{Host E, EvmNode E, DeployNode E, StepNode E, AsgNode E, AsgLib, EvmLib, StepLib, ConfigLib,
                     CosmosAccounts, HashOrder, !SavedCodec}.
Abbreviation A := (Asg E).
Abbreviation Files := (gmap B256 bytes).
Variables (jittered : Z -> Z) (env_var : string -> option string) (is_terminal : bool) (init : Files).

Definition watched {T} (Q : Approved -> Files -> Prop) (m : M A T) (Q' : T -> Approved -> Files -> Prop) : Prop :=
  monitored (@as_trace E) (fun s => (as_journals s, as_trace s)) asg_step (mkAsgAudit init Nothing)
    (fun st v => aa_files st = v.1 /\ Forall (truthful (E := E)) v.2)
    (fun st v => Q (aa_approved st) v.1) m (fun t st v => Q' t (aa_approved st) v.1).
Definition whatever (a : Approved) (fs : Files) : Prop := True.

Lemma watched_weaken {T} Q P (m : M A T) (Q' P' : T -> Approved -> Files -> Prop) :
  watched Q m Q' -> (forall a fs, P a fs -> Q a fs) -> (forall t a fs, Q' t a fs -> P' t a fs) -> watched P m P'.
Proof. intros Hm Hp Hq. eapply monitored_weaken; [exact Hm|..]; naive_solver. Qed.

Lemma watched_post {T} Q (m : M A T) (Q' : T -> Approved -> Files -> Prop) : watched Q m Q' -> watched Q m (fun _ => whatever).
Proof. intros Hm. by eapply watched_weaken. Qed.

Lemma watched_bind {T U} Q R (m : M A T) (f : T -> M A U) (Q' : U -> Approved -> Files -> Prop) :
  watched Q m R -> (forall t, watched (R t) (f t) Q') -> watched Q (m ≫= f) Q'.
Proof. apply monitored_bind. Qed.

Lemma watched_ret {T} (Q : Approved -> Files -> Prop) (t : T) (Q' : T -> Approved -> Files -> Prop) :
  (forall a fs, Q a fs -> Q' t a fs) -> watched Q (mret t) Q'.
Proof.
  intros Hq. eapply monitored_weaken; [apply monitored_ret|intros st fs Hs; exact Hs|]. intros b st fs (-> & Hs). auto.
Qed.

Lemma watched_reads {T} Q (m : M A T) : reads m -> watched Q m (fun _ => Q).
Proof. intros Hm. apply monitored_quiet. intros s. destruct (Hm s) as [e ->]. done. Qed.

Lemma watched_check Q b msg : watched Q (ensure b msg) (fun _ a fs => b = true /\ Q a fs).
Proof. eapply monitored_weaken; [apply monitored_ensure|intros st fs Hs; exact Hs|]. naive_solver. Qed.

Lemma watched_lift {T} Q (r : result T) : watched Q (lift r) (fun t a fs => r = Ok t /\ Q a fs).
Proof. eapply monitored_weaken; [apply monitored_lift|intros st fs Hs; exact Hs|]. naive_solver. Qed.

Lemma watched_throw {T} Q e (Q' : T -> Approved -> Files -> Prop) : watched Q (throw e) Q'.
Proof. apply monitored_throw. Qed.

(** One event, and its effect on the files. *)
Lemma watched_event Q (m : M A ()) ev (g : Files -> Files) (Q' : Approved -> Files -> Prop) :
  (forall s, (m s).1 = Ok () /\ as_trace (m s).2 = as_trace s ++ [ev] /\ as_journals (m s).2 = g (as_journals s)) ->
  truthful (E := E) ev ->
  (forall a fs, Q a fs -> exists a', asg_step (mkAsgAudit fs a) ev = Some (mkAsgAudit (g fs) a') /\ Q' a' (g fs)) ->
  watched Q m (fun _ => Q').
Proof.
  intros Hm Ht Hs. apply (monitored_event _ _ _ _ _ _ _ () ev (fun v => (g v.1, v.2 ++ [ev]))).
  { intros s. destruct (Hm s) as (Hr & Htr & Hj). simpl. by rewrite Htr, Hj. }
  intros [fs' a] [fs t] [Hf Hall] Hq. simpl in *. subst fs'. destruct (Hs a fs Hq) as (a' & Hst & Hq').
  exists (mkAsgAudit (g fs) a'). split; [done|]. simpl. split; [|done]. split; [done|].
  apply Forall_app. split; [done|]. by constructor.
Qed.

Lemma watched_note Q ev (Q' : Approved -> Files -> Prop) :
  truthful (E := E) ev ->
  (forall a fs, Q a fs -> exists a', asg_step (mkAsgAudit fs a) ev = Some (mkAsgAudit fs a') /\ Q' a' fs) ->
  watched Q (note ev) (fun _ => Q').
Proof. intros Ht Hs. by apply (watched_event _ _ ev (fun fs => fs)). Qed.

(** What a look that returned has established. *)
Lemma watched_fact {T} Q (m : M A T) (φ : T -> Prop) :
  reads m -> (forall s t s', m s = (Ok t, s') -> φ t) -> watched Q m (fun t a fs => φ t /\ Q a fs).
Proof.
  intros Hm Hφ s Hs. pose proof (watched_reads Q m Hm s Hs) as Hw. pose proof (Hφ s) as Hf.
  destruct (m s) as [[t|e] s']; [|done]. specialize (Hf t s' eq_refl). destruct Hw as (st & ? & ? & ?). by exists st.
Qed.

(** A fact of the precondition that does not depend on the state. *)
Lemma watched_known {T} (φ : Prop) Q (m : M A T) (Q' : T -> Approved -> Files -> Prop) :
  (forall a fs, Q a fs -> φ) -> (φ -> watched Q m Q') -> watched Q m Q'.
Proof. intros Hφ Hm s Hs. apply Hm; [|exact Hs]. destruct Hs as (st & _ & _ & Hq). by eapply Hφ. Qed.

Lemma watched_learn {T U} Q (m : M A T) (f : T -> M A U) (φ : T -> Prop) (Q' : U -> Approved -> Files -> Prop) :
  reads m -> (forall s t s', m s = (Ok t, s') -> φ t) -> (forall t, φ t -> watched Q (f t) Q') -> watched Q (m ≫= f) Q'.
Proof.
  intros Hm Hφ Hf. eapply watched_bind; [by apply watched_fact|]. intros t.
  eapply watched_known; [intros a fs [Ht _]; exact Ht|]. intros Ht.
  eapply watched_weaken; [by apply Hf| |done]. by intros a fs [_ Hq].
Qed.

(** A program that looks, then the rest. *)
Lemma watched_look {T U} Q (m : M A T) (f : T -> M A U) (Q' : U -> Approved -> Files -> Prop) :
  reads m -> (forall t, watched Q (f t) Q') -> watched Q (m ≫= f) Q'.
Proof. intros Hm Hf. eapply watched_bind; [by apply watched_reads|exact Hf]. Qed.

Lemma watched_silent Q ev : truthful (E := E) ev -> silent asg_step ev -> watched Q (note ev) (fun _ => Q).
Proof. intros Ht Hs. apply watched_note; [done|]. intros a fs Hq. exists a. by rewrite Hs. Qed.

Ltac look := apply watched_look; [by eauto with reads|intros ?].

Lemma watched_journals Q : watched Q journals (fun files a fs => files = fs /\ Q a fs).
Proof. intros s (st & Hm & Hf & Hq). by exists st. Qed.

Lemma watched_exists Q id :
  watched Q (journal_exists id) (fun b a fs => b = bool_decide (is_Some (fs !! id)) /\ Q a fs).
Proof.
  eapply watched_bind; [apply watched_journals|]. intros files. apply watched_ret. by intros a fs [-> Hq].
Qed.

Lemma watched_read_journal Q id : watched Q (read_journal id) (fun record a fs => fs !! id = Some record /\ Q a fs).
Proof.
  unfold read_journal. look. eapply watched_bind; [apply watched_journals|].
  intros files. eapply watched_weaken; [apply watched_lift|intros a fs Hs; exact Hs|].
  intros record a fs (Hr & -> & Hq). by apply ok_or_ok in Hr.
Qed.

Lemma watched_question Q r prompt :
  watched Q (put_question r prompt)
    (fun yes a fs => a = (if (yes : bool) then approval_of r else Nothing) /\ exists a0, Q a0 fs).
Proof.
  unfold put_question. look. eapply watched_bind; [|intros u; apply watched_ret; intros a fs Ha; exact Ha].
  apply watched_note; [done|]. intros a fs Hq. eexists. split; [done|]. split; [done|]. by exists a.
Qed.

Lemma watched_disk Q effect (Q' : Approved -> Files -> Prop) :
  watched Q effect (fun _ => Q') -> watched Q (on_disk effect) (fun _ => Q').
Proof.
  intros He. unfold on_disk. look. destruct t; [done|apply watched_throw|].
  eapply watched_bind; [exact He|]. intros u. apply watched_throw.
Qed.

Lemma watched_governance Q ctx asg runtime :
  built (E := E) ctx runtime ->
  watched Q (governance ctx asg runtime)
    (fun _ a fs => exists a0, a = verified_for (Handoff asg) (cx_chain_id ctx) a0 /\ Q a0 fs).
Proof.
  intros Hb. unfold governance. eapply watched_learn; [eauto with reads|intros s0 b0 s0'; apply observation_said|]. intros block Hblock.
  eapply watched_learn; [eauto with reads|intros s0 u0 s0'; apply governance_at_said|]. intros u Hg.
  eapply watched_learn; [eauto with reads|intros s0 u0 s0'; apply canonical_said|]. intros u2 Hc.
  apply watched_note; [done|]. intros a fs Hq. eexists. split; [done|]. by exists a.
Qed.

Lemma finalized_read_said (op : E -> (string + bytes) * E) (e e' : E) t :
  finalized_read jittered op e = (Ok t, e') -> exists e1 e2, op e1 = (inr t, e2).
Proof.
  unfold finalized_read, retry_async.
  destruct (retry_loop_spec jittered sleep_ms unavailable op (S (Z.to_nat 3)) 3 0 e)
    as (n & r & slept & e1 & -> & Hc & _); [lia..|]. destruct r as [x|t']; [done|]. intros [= <- <-].
  eapply (calls_post _ _ _ (fun _ => True) (fun r _ => forall t, r = inr t -> exists e1 e2, op e1 = (inr t, e2)) op);
    [|done|exact Hc|done|done].
  intros e0 _. split; [|done]. intros t0 Ht. destruct (op e0) as [r0 e2] eqn:He. simpl in Ht. subst. by exists e0, e2.
Qed.

Lemma verify_factory_said ctx from (s s' : A) factory :
  verify_factory jittered ctx from s = (Ok factory, s') -> factory_checked (E := E) ctx from factory.
Proof.
  unfold verify_factory. intros (f & s1 & [Hf ->]%lift_ok & Hr)%M_bind_ok.
  apply M_bind_ok in Hr as (latest & s2 & Hl%consult_replied & (u & s3 & [_ ->]%ensure_run_ok & Hr)%M_bind_ok).
  apply M_bind_ok in Hr as (root & s4 & [Hroot ->]%lift_ok & ([path deployed] & s5 & [Hp ->]%lift_ok & Hr)%M_bind_ok).
  apply M_bind_ok in Hr as (code & s6 & Hcode%consult_replied & (runtime & s7 & [Hne Hrun]%expected_runtime_said & Hr)%M_bind_ok).
  apply M_bind_ok in Hr as (v & s8 & [Hsame ->]%ensure_run_ok & (fin & s9 & Hfin & Hr)%M_bind_ok).
  apply M_bind_ok in Hr as (w & s10 & [Hsame' ->]%ensure_run_ok & Hr). injection Hr as <- <-.
  apply consult_ok in Hfin as [(e1 & e2 & Hfin)%finalized_read_said _].
  apply bool_decide_eq_true in Hsame, Hsame'. apply ok_or_ok in Hp. unfold selected_factory in Hf. apply ok_or_ok in Hf.
  subst. split; [done|]. exists root, path, deployed, code. by eauto 10.
Qed.

Lemma watched_prepare Q ctx from :
  watched Q (prepare jittered ctx from)
    (fun d a fs => built (E := E) ctx (de_runtime d) /\ rq_chain_id (de_request d) = Some (cx_chain_id ctx) /\
       exists a0, a = verified_for (Deploy (de_address d)) (cx_chain_id ctx) a0 /\ Q a0 fs).
Proof.
  unfold prepare.
  eapply (watched_learn _ _ _ (factory_checked (E := E) ctx from)); [eauto with reads| |].
  { intros s factory s' Hr. by eapply verify_factory_said. }
  intros factory Hf. eapply watched_learn; [eauto with reads|intros s0 b0 s0'; apply artifact_said|]. intros a Ha.
  eapply watched_learn; [eauto with reads|intros s0 r0 s0'; apply expected_runtime_said|]. intros runtime [Hne Hrun].
  eapply watched_learn; [eauto with reads|intros s0 r0 s0'; apply consult_replied|]. intros address Haddr.
  eapply (watched_learn _ _ _ (fun _ => validate_prediction ctx address = Ok ())); [eauto with reads| |].
  { intros s [] s' [Hv _]%lift_ok. exact Hv. }
  intros _ Hv. unfold validate_prediction in Hv. apply result_bind_ok in Hv as (u & Hnz & Hconf).
  apply ensure_ok_ok, negb_true_iff, Z.eqb_neq in Hnz.
  apply (watched_bind _ (fun _ b fs => exists a0, b = verified_for (Deploy address) (cx_chain_id ctx) a0 /\ Q a0 fs)).
  - apply watched_note.
    + split; [done|]. split; [done|]. split; [|by exists a]. intros configured Hcfg. rewrite Hcfg in Hconf.
      by apply ensure_ok_ok, Z.eqb_eq in Hconf.
    + intros b fs Hq. eexists. split; [done|]. by exists b.
  - intros v. apply watched_ret. intros b fs Hb. split; [|done]. split; [done|]. by exists a, from.
Qed.

(** The approved transaction, not yet and then verified again. *)
Lemma watched_recheck ctx from rq action (F : Files -> Prop) :
  rq_chain_id rq = Some (cx_chain_id ctx) ->
  watched (fun a fs => a = ToSend rq action false /\ F fs) (recheck_governance jittered ctx from action)
    (fun _ a fs => a = ToSend rq action true /\ F fs).
Proof.
  intros Hc. destruct action as [asg|asg]; cbn [recheck_governance].
  - eapply watched_bind; [apply watched_prepare|]. intros d.
    eapply watched_weaken; [apply watched_check|intros a fs Hs; exact Hs|].
    intros u a fs (->%Z.eqb_eq & _ & _ & a0 & -> & -> & HF). simpl. by rewrite !bool_decide_true.
  - eapply watched_learn; [eauto with reads|intros s0 b0 s0'; apply artifact_said|]. intros art Hart.
    eapply watched_learn; [eauto with reads|intros s0 r0 s0'; apply expected_runtime_said|]. intros runtime [Hne Hrun].
    eapply watched_weaken; [apply watched_governance|intros a fs Hs; exact Hs|].
    + split; [done|]. by exists art, from.
    + intros u a fs (a0 & -> & -> & HF). simpl. by rewrite !bool_decide_true.
Qed.

Definition sendable (rq : TransactionRequest) (raw : bytes) (fs : Files) : Prop :=
  (fs !! journal_identity rq ≫= record_of rq) = Some raw.

Lemma watched_broadcast rq action raw :
  watched (fun a fs => a = ToSend rq action true /\ sendable rq raw fs) (broadcast raw) (fun _ => whatever).
Proof.
  unfold broadcast. apply (watched_bind _ (fun _ => whatever)).
  - apply watched_note; [done|]. intros a fs [-> Hs]. exists Nothing. simpl. by rewrite bool_decide_true.
  - intros u. do 6 look. by apply watched_ret.
Qed.

(** *** Retirement *)

Lemma watched_persist id record reason :
  watched (fun a _ => exists c, a = ToRetire id record c) (persist id record reason) (fun _ => whatever).
Proof.
  unfold persist. eapply watched_bind; [apply watched_read_journal|]. intros current.
  eapply watched_bind; [apply watched_check|]. intros u. simpl.
  set (Q := fun c a (fs : Files) => a = ToRetire id record c /\ fs !! id = Some record).
  apply (watched_bind _ (fun _ => Q true)).
  { apply watched_disk. apply (watched_event _ _ (Copied id record) (fun fs => fs)); [done..|].
    intros a fs (Hc & Hr & c & ->). simpl in *. apply bool_decide_eq_true in Hc as ->.
    eexists. simpl. rewrite Z.eqb_refl, bool_decide_true by done. done. }
  intros _. apply (watched_bind _ (fun _ => Q true)).
  { apply watched_disk. by apply monitored_quiet. }
  intros _. apply watched_disk. apply (watched_event _ _ (Dropped id) (delete id) whatever); [done..|].
  intros a fs (-> & Hr). eexists. simpl. rewrite Z.eqb_refl, bool_decide_true by done. done.
Qed.

Lemma watched_archive id hash evidence : watched whatever (archive id hash evidence) (fun _ => whatever).
Proof.
  unfold archive. look. eapply watched_bind; [apply watched_question|]. intros yes.
  eapply watched_bind; [apply watched_check|]. intros u.
  eapply watched_weaken; [apply watched_persist| |done]. intros a fs (-> & -> & _). by exists false.
Qed.

(** *** Sending *)

Lemma watched_resume ctx request saved action :
  rq_chain_id request = Some (cx_chain_id ctx) ->
  watched (fun _ fs => exists record, fs !! journal_identity request = Some record /\ saved_of record = Some saved)
    (resume jittered ctx request saved action) (fun _ => whatever).
Proof.
  intros Hchain. unfold resume. eapply watched_bind; [apply watched_lift|]. intros tx.
  eapply watched_known; [intros a fs [Hv _]; exact Hv|]. intros Hok.
  destruct (validate_same_intent _ _ _ Hok) as (Hsf & Hst & _ & _ & Hsc). look. destruct t as [receipt|].
  { do 2 look. by apply watched_ret. }
  do 3 look. eapply watched_bind; [apply watched_question|]. intros yes.
  eapply watched_bind; [apply watched_check|]. intros u. do 2 look.
  eapply (watched_bind _ (fun _ a fs => a = ToSend (sv_request saved) action true /\ sendable (sv_request saved) (sv_raw saved) fs)).
  - eapply watched_weaken; [apply (watched_recheck _ _ (sv_request saved) action (sendable (sv_request saved) (sv_raw saved)))| |done].
    + by rewrite Hsc.
    + intros a fs (-> & -> & a0 & Hv & record & Hr & Hs). split; [done|]. unfold sendable, journal_identity in *.
      rewrite Hsf, Hst, Hsc, Hr. simpl. unfold record_of.
      rewrite Hs. simpl. by rewrite bool_decide_true, (validate_signed_as request saved tx) by done.
  - intros v. apply watched_broadcast.
Qed.

Lemma watched_recover ctx request action id :
  rq_chain_id request = Some (cx_chain_id ctx) -> id = journal_identity request ->
  watched whatever (recover_existing jittered ctx request action id) (fun _ => whatever).
Proof.
  intros Hchain ->. unfold recover_existing. eapply watched_bind; [apply watched_read_journal|]. intros record.
  eapply watched_bind; [apply watched_lift|]. intros saved. do 3 look. destruct t1 as [evidence|].
  - eapply watched_bind; [|intros u; apply watched_throw]. by eapply watched_weaken; [apply watched_archive|..].
  - eapply watched_weaken; [by apply watched_resume| |done]. intros a fs (Hs & Hr & _). apply ok_or_ok in Hs. by exists record.
Qed.

Lemma prepare_request_intent rq from (s : A) p s' :
  prepare_request rq from s = (Ok p, s') ->
  rq_from p = rq_from rq /\ rq_to p = rq_to rq /\ rq_input p = rq_input rq /\ rq_value p = rq_value rq /\
  rq_chain_id p = rq_chain_id rq.
Proof.
  unfold prepare_request, mbind, M_bind. intros Hp.
  repeat match type of Hp with (match ?x with _ => _ end) = _ => destruct x as [[?|?] ?]; try discriminate Hp end.
  injection Hp as <- <-. done.
Qed.

Lemma watched_put_journal rq action id saved tx :
  id = journal_identity rq -> sv_request saved = rq -> validate rq saved = Ok tx ->
  watched (fun a fs => a = ToSend rq action true /\ fs !! id = None) (put_journal id (saved_json saved))
    (fun _ a fs => a = ToSend rq action true /\ sendable rq (sv_raw saved) fs).
Proof.
  intros -> <- Hv. pose proof (record_of_saved _ _ _ Hv) as Hrec.
  apply (watched_event _ _ (Journaled (journal_identity (sv_request saved)) (saved_json saved))
    (fun fs => <[journal_identity (sv_request saved) := saved_json saved]> fs)); [done..|].
  intros a fs (-> & Hn). simpl in *. rewrite Hrec, !bool_decide_true by done. simpl. eexists. split; [done|].
  split; [done|]. unfold sendable. by rewrite lookup_insert_eq.
Qed.

(** The new transaction, once it is approved. *)
Lemma watched_send_new ctx key request prepared from action :
  journal_identity prepared = journal_identity request -> rq_chain_id prepared = Some (cx_chain_id ctx) ->
  (forall saved, validate prepared saved = validate request saved) ->
  watched (fun a fs => a = ToSend prepared action false /\ fs !! journal_identity request = None)
    (recheck_governance jittered ctx from action;;
     count ← consult (eth_pending_count from);
     ensure (bool_decide (Some count = rq_nonce prepared))
       "sender nonce changed during review, rerun to prepare a new transaction";;
     consult (eth_call prepared);;
     envelope ← consult (sign_legacy key prepared);
     let saved := mkSaved prepared (Some 0) (encoded_2718 envelope) in
     lift (validate request saved);;
     on_disk (put_journal (journal_identity request) (saved_json saved));;
     broadcast (sv_raw saved)) (fun _ => whatever).
Proof.
  intros Hi Hchain Hv. eapply watched_bind; [by apply watched_recheck|]. intros ?; cbv beta. do 4 look.
  set (saved := mkSaved prepared (Some 0) _). cbv zeta. eapply watched_bind; [apply watched_lift|]. intros tx.
  eapply watched_known; [intros a fs [Hok _]; exact Hok|]. intros Hok.
  apply (watched_bind _ (fun _ a fs => a = ToSend prepared action true /\ sendable prepared (sv_raw saved) fs)).
  - apply watched_disk. eapply watched_weaken; [apply (watched_put_journal prepared action _ _ tx)| |done]; try done.
    + by rewrite Hv.
    + by intros a fs [_ Ha].
  - intros v. apply watched_broadcast.
Qed.

Lemma watched_send ctx request action :
  rq_chain_id request = Some (cx_chain_id ctx) ->
  watched whatever (send jittered env_var ctx request action) (fun _ => whatever).
Proof.
  intros Hchain. unfold send. do 5 look. eapply watched_bind; [apply watched_exists|]. intros [|].
  { by eapply watched_weaken; [apply watched_recover|..]. }
  do 2 look. eapply watched_bind; [apply watched_fact; [eauto with reads|apply prepare_request_intent]|].
  intros prepared. eapply watched_known; [intros a fs [Hp _]; exact Hp|]. intros (Hf & Ht & Hn & Hv & Hc).
  eapply watched_bind; [apply watched_question|]. intros yes.
  eapply watched_bind; [apply watched_check|]. intros u. do 2 look.
  eapply watched_weaken; [apply (watched_send_new ctx t4 request prepared t1 action)| |done].
  - unfold journal_identity. by rewrite Hf, Ht, Hc.
  - by rewrite Hc.
  - intros saved. by apply validate_intent.
  - intros a fs (-> & -> & a0 & _ & He & _). split; [done|]. symmetry in He.
    by apply bool_decide_eq_false, eq_None_not_Some in He.
Qed.

(** *** Commands *)

Lemma watched_save Q ctx updates : watched Q (save ctx updates) (fun _ => Q).
Proof.
  unfold save. look. apply monitored_get. intros s. do 2 look.
  apply (watched_bind Q (fun _ => Q)); [by apply watched_silent|]. intros u. look. by apply monitored_quiet.
Qed.

Lemma watched_load Q network chain options : watched Q (load network chain options) (fun _ => Q).
Proof.
  unfold load. do 5 look. apply (watched_bind Q (fun _ => Q)); [by apply monitored_quiet|]. intros u. by apply watched_ret.
Qed.

Lemma watched_roles Q ctx from asg : watched Q (read_roles ctx from asg) (fun _ => Q).
Proof.
  unfold read_roles. eapply watched_learn; [eauto with reads|intros s0 b0 s0'; apply observation_said|]. intros block Hb.
  do 5 (eapply watched_learn; [eauto with reads|intros s0 r0 s0'; apply consult_replied|]; intros ? ?).
  eapply watched_learn; [eauto with reads|intros s0 u0 s0'; apply canonical_said|]. intros u2 Hc.
  apply (watched_bind Q (fun _ => Q)); [by apply watched_silent|]. intros u. by apply watched_ret.
Qed.

Lemma watched_loose {T U} Q R (m : M A T) (f : T -> M A U) :
  watched Q m R -> (forall t, watched whatever (f t) (fun _ => whatever)) -> watched Q (m ≫= f) (fun _ => whatever).
Proof. intros Hm Hf. eapply watched_bind; [by eapply watched_post|exact Hf]. Qed.

Ltac roam :=
  first
    [ by apply watched_ret
    | by eapply watched_post, watched_reads; eauto with reads
    | by eapply watched_post; first [apply watched_governance|apply watched_prepare|apply watched_question|apply watched_save|
        apply watched_roles|apply watched_send|apply watched_load]
    | lazymatch goal with
      | |- watched _ (match ?x with _ => _ end) _ => destruct x; roam
      | |- watched _ (_ ≫= _) _ => eapply watched_loose; [roam|intros ?; roam]
      end ].

(** The runtime the contract must have. *)
Lemma watched_runtime {T} ctx from (f : Artifact -> bytes -> M A T) :
  (forall a runtime, built (E := E) ctx runtime -> watched whatever (f a runtime) (fun _ => whatever)) ->
  watched whatever (a ← artifact ctx; runtime ← expected_runtime (creation ctx a) from; f a runtime) (fun _ => whatever).
Proof.
  intros Hf. eapply watched_learn; [eauto with reads|intros s0 b0 s0'; apply artifact_said|]. intros a Ha.
  eapply watched_learn; [eauto with reads|intros s0 r0 s0'; apply expected_runtime_said|]. intros runtime [Hne Hrun].
  apply Hf. split; [done|]. by exists a, from.
Qed.

Lemma watched_reuse ctx options asg : watched whatever (reuse ctx options asg) (fun _ => whatever).
Proof. unfold reuse. apply (watched_runtime ctx (op_from options)). intros a runtime Hb. roam. Qed.
Lemma watched_deploy_new ctx options :
  watched whatever (deploy_new jittered env_var ctx options) (fun _ => whatever).
Proof.
  unfold deploy_new. look. eapply watched_bind; [apply watched_prepare|]. intros d.
  eapply watched_known; [intros a fs (Hb & Hc & _); exact (conj Hb Hc)|]. intros [Hb Hc].
  eapply watched_weaken; [|intros a fs _; exact I|done]. roam.
Qed.
Lemma watched_transfer ctx from asg runtime before target owner :
  built (E := E) ctx runtime ->
  watched whatever (transfer jittered env_var ctx from asg runtime before target owner) (fun _ => whatever).
Proof. intros Hb. unfold transfer, record_roles. roam. Qed.
Lemma watched_handoff ctx options selected :
  watched whatever (handoff jittered env_var ctx options selected) (fun _ => whatever).
Proof.
  unfold handoff, record_roles. look. apply (watched_runtime ctx (op_from options)). intros a runtime Hb.
  eapply watched_loose; [by apply watched_governance|]. intros _.
  eapply watched_loose; [apply watched_roles|]. intros before. destruct (negb _); [roam|].
  eapply watched_loose; [roam|]. intros _. eapply watched_loose; [roam|]. intros _.
  do 2 (eapply watched_loose; [by apply watched_transfer|]; intros _). roam.
Qed.

Lemma watched_run network chain action :
  watched whatever (run jittered env_var is_terminal network chain action) (fun _ => whatever).
Proof.
  unfold run. do 2 (eapply watched_loose; [roam|]; intros _). eapply watched_loose; [apply watched_load|]. intros ctx.
  do 6 (eapply watched_loose; [roam|]; intros _). destruct action; [|apply watched_handoff].
  unfold deploy. apply watched_look; [by eauto with reads|intros found]. destruct found; [apply watched_reuse|apply watched_deploy_new].
Qed.
End Audited.

(** C17: whatever the node, the disk and the operator do, the auditor accepts every
    run of [DeployAsg] and [HandoffAsg]: a transaction leaves the process only
    when the operator approved it exactly as it was shown, the factory and its
    prediction, or the governance contract, were verified again on its chain
    after the approval, and the signed bytes, one legacy transaction of that
    sender with exactly the target, calldata, value, chain, nonce, gas and price
    shown, are on file under its chain, sender and target.  A record is written
    where there is none, and removed when its removal was approved and a copy is
    on disk.  The files the auditor knows of are those on disk.  Verified means:
    the node answered, for a block below the head that was still canonical
    afterwards, the runtime code that the artifact's constructor builds and every
    setting the configuration and the policy want; a prediction is that of the
    configured factory, whose code is the checkout's, at the head and
    finalized. *)
Theorem asg_run_audited {E : Type} `{Host E, EvmNode E, DeployNode E, StepNode E, AsgNode E, AsgLib, EvmLib, StepLib,
    ConfigLib, CosmosAccounts, HashOrder, !SavedCodec} jittered env_var is_terminal network chain action
    (e : E) files retired evidence original :
  let s := (run jittered env_var is_terminal network chain action (mkAsg e files retired evidence original [])).2 in
  (exists st, asg_audit files (as_trace s) = Some st /\ aa_files st = as_journals s) /\
  forall ev, ev ∈ as_trace s -> truthful (E := E) ev.
Proof.
  cbv zeta. pose proof (watched_run jittered env_var is_terminal files network chain action
    (mkAsg e files retired evidence original []) ltac:(by eexists)) as Hr.
  destruct (run _ _ _ _ _ _ _) as [[u|why] s]; destruct Hr as (st & Hst & [Hf Ht] & _);
    (split; [by exists st|]); intros ev Hev; by apply (proj1 (list.Forall_forall _ _) Ht).
Qed.
