(* ===== verification/AsgFacts.v ===== *)
(** * Theorems on service governance

    The custody of recorded transactions over any number of interrupted runs,
    what counts as evidence that one cannot execute any more, the end of the
    wait for confirmations, what a handoff sends and where it ends, what a
    preview leaves alone, and what an edit of the configuration changes. *)

From Stdlib Require Import Ascii.
From Stdlib Require String.
From S2P Require Import Prelude Monitor Types Retry Journal Chain Plan Config Intent Json Cosmos Target Checkpoints EvmSteps LoadNet Propose Asg AsgRun AsgSafety.

(** ** Lifetimes *)

Abbreviation Files := (gmap B256 bytes).

(** The journal directory after a trace. *)
Definition file_effect (fs : Files) (ev : asg_event) : Files :=
  match ev with
  | Journaled id record => <[id := record]> fs
  | Dropped id => delete id fs
  | _ => fs
  end.
Definition replay (fs : Files) (t : list asg_event) : Files := foldl file_effect fs t.

Section Lives.
Context `{AsgLib, EvmLib}.

Lemma asg_step_files st ev st' : asg_step st ev = Some st' -> aa_files st' = file_effect (aa_files st) ev.
Proof.
  destruct ev; simpl; try by intros [= <-].
  all: destruct (aa_approved st) as [|? ? []|? ? []]; try done; case_match; try done; by intros [= <-].
Qed.

Lemma monitor_files t st st' : monitor asg_step st t = Some st' -> aa_files st' = replay (aa_files st) t.
Proof.
  revert st'. induction t as [|ev t IH] using rev_ind; intros st' Hm; [by injection Hm as <-|].
  rewrite monitor_snoc in Hm. destruct (monitor asg_step st t) as [st1|]; [|done]. simpl in Hm.
  unfold replay in *. rewrite foldl_app, <- (IH st1) by done. by apply asg_step_files.
Qed.

(** A forgotten approval accepts no more than a remembered one. *)
Definition forgets (st st2 : AsgAudit) : Prop :=
  aa_files st = aa_files st2 /\ (aa_approved st = Nothing \/ aa_approved st = aa_approved st2).

Lemma asg_step_forgets st st2 ev st' :
  forgets st st2 -> asg_step st ev = Some st' -> exists st2', asg_step st2 ev = Some st2' /\ forgets st' st2'.
Proof.
  destruct st as [fs a], st2 as [fs2 a2]. intros [Hf Ha]. simpl in Hf, Ha. subst fs2. destruct Ha as [-> | ->].
  - destruct ev; simpl; try done; (intros [= <-]); eexists; (split; [done|]); (split; [done|]); simpl; auto.
  - intros Hs. exists st'. split; [done|]. split; auto.
Qed.

Lemma monitor_forgets t st st2 st' :
  forgets st st2 -> monitor asg_step st t = Some st' -> exists st2', monitor asg_step st2 t = Some st2' /\ forgets st' st2'.
Proof.
  revert st'. induction t as [|ev t IH] using rev_ind; intros st' Hf Hm; [injection Hm as <-; by exists st2|].
  rewrite monitor_snoc in Hm. destruct (monitor asg_step st t) as [st1|] eqn:Ht; [|done]. simpl in Hm.
  destruct (IH st1 Hf eq_refl) as (st3 & Hs3 & Hf3). rewrite monitor_snoc, Hs3. simpl. by eapply asg_step_forgets.
Qed.

(** ** Retirement in a trace *)

(** The record of an identity was shown with evidence, its removal approved, a
    copy made, and the file removed. *)
Definition retired_in (id : B256) (record : bytes) (t : list asg_event) : Prop :=
  (exists evidence, Answered (Retire id record evidence) true ∈ t) /\ Copied id record ∈ t /\ Dropped id ∈ t.

Definition pending_retirement (t : list asg_event) (st : AsgAudit) : Prop :=
  forall id record c, aa_approved st = ToRetire id record c ->
    (exists evidence, Answered (Retire id record evidence) true ∈ t) /\ (c = true -> Copied id record ∈ t).

Lemma retirement_step t st ev st' :
  pending_retirement t st -> asg_step st ev = Some st' -> pending_retirement (t ++ [ev]) st'.
Proof.
  intros Hp Hs id record c Ha. destruct ev; simpl in Hs.
  all: try (injection Hs as <-; simpl in Ha).
  - destruct (aa_approved st) as [| |i r d] eqn:E; simpl in Ha; try done. injection Ha as -> -> ->. specialize (Hp _ _ _ E); set_solver.
  - destruct (aa_approved st) as [| |i r d] eqn:E; simpl in Ha; try done. injection Ha as -> -> ->. specialize (Hp _ _ _ E); set_solver.
  - specialize (Hp _ _ _ Ha); set_solver.
  - destruct yes; [|done]. destruct r; try done. simpl in Ha. injection Ha as -> -> <-. set_solver.
  - destruct (aa_approved st) as [|? ? []|]; try done. case_match; [injection Hs as <-|]; done.
  - destruct (aa_approved st) as [| |i r d] eqn:E; try done. case_match eqn:Hc; [injection Hs as <-|done].
    simpl in Ha. injection Ha as -> -> <-. apply andb_prop in Hc as [->%Z.eqb_eq Hr%bool_decide_eq_true]. subst.
    specialize (Hp _ _ _ E). set_solver.
  - destruct (aa_approved st) as [| |? ? []]; try done. case_match; [injection Hs as <-|]; done.
  - destruct (aa_approved st) as [|? ? []|]; try done. case_match; [injection Hs as <-|]; done.
  - specialize (Hp _ _ _ Ha); set_solver.
Qed.

Lemma monitor_retired t st st' id record :
  pending_retirement [] st -> monitor asg_step st t = Some st' ->
  pending_retirement t st' /\
  (aa_files st !! id = Some record -> aa_files st' !! id = Some record \/ retired_in id record t).
Proof.
  intros Hp. revert st'. induction t as [|ev t IH] using rev_ind; intros st' Hm; [injection Hm as <-; auto|].
  rewrite monitor_snoc in Hm. destruct (monitor asg_step st t) as [st1|]; [|done]. simpl in Hm.
  destruct (IH st1 eq_refl) as [Hp1 Hf]. split; [by eapply retirement_step|]. intros Hr.
  destruct (Hf Hr) as [Hr1|(? & ? & ?)]; [|right; split; [|split]; set_solver].
  pose proof (asg_step_files _ _ _ Hm) as He. destruct ev; simpl in He; try (left; by rewrite He).
  - simpl in Hm. destruct (aa_approved st1) as [|? ? []|]; try done. destruct (decide (identity = id)) as [->|Hn].
    + rewrite Hr1, (bool_decide_false (Some record = None)), andb_false_r in Hm by done. done.
    + left. by rewrite He, lookup_insert_ne.
  - destruct (decide (identity = id)) as [->|Hn]; [|left; by rewrite He, lookup_delete_ne].
    right. simpl in Hm. destruct (aa_approved st1) as [| |i r []] eqn:Ea; try done.
    case_match eqn:Hc; [|done]. apply andb_prop in Hc as [->%Z.eqb_eq Hc%bool_decide_eq_true].
    rewrite Hr1 in Hc. injection Hc as <-. destruct (Hp1 _ _ _ Ea) as [Hev Hco]. specialize (Hco eq_refl).
    split; [|split]; set_solver.
Qed.

(** The chain, sender and target a signed transaction is for. *)
Definition raw_identity (raw : bytes) : option B256 :=
  '(tx, _) ← decode_rest raw;
  Some (keccak256 (identity_json (tx_chain_id tx) (recover_address tx) (Some (tx_kind tx)))).

Lemma record_of_identity request record raw :
  record_of request record = Some raw -> raw_identity raw = Some (journal_identity request).
Proof.
  unfold record_of. destruct (saved_of record) as [saved|]; [|done]. simpl. case_match eqn:Hc; [|done]. intros [= <-].
  apply andb_prop in Hc as [_ Hv]. revert Hv. unfold signed_as, raw_identity, journal_identity.
  destruct (decode_rest _) as [[tx [|]]|]; [|done..]. simpl. rewrite !andb_true_iff, !bool_decide_eq_true.
  intros ((((((((_ & _ & Hf) & Ht) & _) & _) & Hi) & _) & _) & _). by rewrite Hf, Ht, Hi.
Qed.

Lemma record_of_raw request record raw : record_of request record = Some raw -> sv_raw <$> saved_of record = Some raw.
Proof. unfold record_of. destruct (saved_of record); [|done]. simpl. by case_match. Qed.

(** What a broadcast finds on file. *)
Lemma broadcast_on_file st raw st' :
  asg_step st (Broadcast raw) = Some st' ->
  exists id record, raw_identity raw = Some id /\ aa_files st !! id = Some record /\
    sv_raw <$> saved_of record = Some raw /\ st' = mkAsgAudit (aa_files st) Nothing.
Proof.
  simpl. destruct (aa_approved st) as [|rq a []|]; try done. case_match eqn:Hc; [|done]. intros [= <-].
  apply bool_decide_eq_true in Hc. destruct (aa_files st !! _) as [record|] eqn:Hr; [|done]. simpl in Hc.
  exists (journal_identity rq), record. split; [by eapply record_of_identity|]. split; [done|].
  split; [by eapply record_of_raw|done].
Qed.
End Lives.

Section Custody.
Context {E : Type} `{Host E, EvmNode E, DeployNode E, StepNode E, AsgNode E, AsgLib, EvmLib, StepLib, ConfigLib,
                     CosmosAccounts, HashOrder}.

(** Runs one after the other, each in any environment and cut at any point of
    its trace, on one journal directory. *)
Inductive asg_lifetime : Files -> list asg_event -> Prop :=
  | life_over files : asg_lifetime files []
  | life_run files jittered env_var is_terminal network chain action (e : E) retired evidence original t rest :
      t `prefix_of` as_trace (run jittered env_var is_terminal network chain action
                                (mkAsg e files retired evidence original [])).2 ->
      asg_lifetime (replay files t) rest ->
      asg_lifetime files (t ++ rest).

Lemma lifetime_audited `{!SavedCodec} files t :
  asg_lifetime files t -> exists st, asg_audit files t = Some st.
Proof.
  induction 1 as [files|files jittered env_var is_terminal network chain action e retired evidence original t rest Ht _ [st Hst]];
    [by eexists|].
  pose proof (watched_run jittered env_var is_terminal files network chain action
    (mkAsg e files retired evidence original []) ltac:(by eexists)) as Hr.
  assert (is_Some (asg_audit files t)) as [st1 Hst1].
  { eapply monitor_prefix; [exact Ht|]. destruct (run _ _ _ _ _ _ _) as [[u|why] s]; destruct Hr as (st1 & Hst1 & _); by exists st1. }
  unfold asg_audit in *. rewrite monitor_app, Hst1. simpl.
  destruct (monitor_forgets rest (mkAsgAudit (replay files t) Nothing) st1 st) as (st2 & Hst2 & _); [|done|by eexists].
  split; [|by left]. symmetry. exact (monitor_files t (mkAsgAudit files Nothing) st1 Hst1).
Qed.
End Custody.

(** C18: over any number of runs, in any environments and cut anywhere, two
    different transactions of one chain, sender and target are broadcast only if
    the first one was retired in between: its record was shown to the operator
    with the evidence that it cannot execute any more, the operator agreed, a
    copy was written, and the file was removed.  So a rerun never replaces a
    pending transaction. *)
Theorem no_silent_replacement {E : Type} `{Host E, EvmNode E, DeployNode E, StepNode E, AsgNode E, AsgLib, EvmLib, StepLib,
    ConfigLib, CosmosAccounts, HashOrder, !SavedCodec} files t1 raw1 t2 raw2 t3 :
  asg_lifetime (E := E) files (t1 ++ [Broadcast raw1] ++ t2 ++ [Broadcast raw2] ++ t3) ->
  raw_identity raw1 = raw_identity raw2 -> raw1 <> raw2 ->
  exists id record, raw_identity raw1 = Some id /\ sv_raw <$> saved_of record = Some raw1 /\ retired_in id record t2.
Proof.
  intros Hl Hid Hne. destruct (lifetime_audited _ _ Hl) as [st Hst]. unfold asg_audit in Hst.
  rewrite monitor_app in Hst. destruct (monitor _ _ t1) as [st1|]; [|done]. simpl in Hst.
  change (Broadcast raw1 :: ?l) with ([Broadcast raw1] ++ l) in Hst.
  rewrite monitor_app in Hst. change (monitor asg_step st1 [Broadcast raw1]) with (asg_step st1 (Broadcast raw1)) in Hst.
  destruct (asg_step st1 (Broadcast raw1)) as [st2|] eqn:H1'; [|done]. simpl in Hst.
  rewrite monitor_app in Hst. destruct (monitor asg_step st2 t2) as [st3|] eqn:H2'; [|done]. simpl in Hst.
  change (Broadcast raw2 :: ?l) with ([Broadcast raw2] ++ l) in Hst.
  rewrite monitor_app in Hst. change (monitor asg_step st3 [Broadcast raw2]) with (asg_step st3 (Broadcast raw2)) in Hst.
  destruct (asg_step st3 (Broadcast raw2)) as [st4|] eqn:H3'; [|done].
  destruct (broadcast_on_file _ _ _ H1') as (id & record & Hi & Hr & Hraw & ->).
  destruct (broadcast_on_file _ _ _ H3') as (id2 & record2 & Hi2 & Hr2 & Hraw2 & _).
  exists id, record. split; [done|]. split; [done|].
  destruct (monitor_retired t2 (mkAsgAudit (aa_files st1) Nothing) st3 id record) as [_ Hf]; [by intros ???|done|].
  destruct (Hf Hr) as [Hr3|]; [|done]. exfalso. rewrite Hi, Hi2 in Hid. injection Hid as <-.
  rewrite Hr2 in Hr3. injection Hr3 as <-. congruence.
Qed.

(** ** Evidence (retirement.rs) *)

Section Evidences.
Context {E : Type} `{Host E, EvmNode E, StepNode E, AsgNode E, EvmLib}.
Abbreviation A := (Asg E).

(** The node's last answers, up to the environment [e']: a receipt of the hash. *)
Definition last_receipt (hash : B256) (receipt : option Receipt) (e' : E) : Prop :=
  exists e, eth_get_transaction_receipt hash e = (Ok receipt, e').

(** A receipt of the hash in a canonical block, with a block on top. *)
Definition confirmed_receipt (hash : B256) (receipt : Receipt) (block : Z) (e' : E) : Prop :=
  transaction_hash receipt = hash /\ block_number receipt = Some block /\
  exists e1 e2 header head, last_receipt hash (Some receipt) e1 /\
    eth_get_block (TagNumber block) e1 = (Ok (Some header), e2) /\ block_hash receipt = Some (bk_hash header) /\
    eth_block_number e2 = (Ok head, e') /\ Z.min (block + 1) u64_max <= head.

(** No receipt, and the transactions the sender had by the block below the
    head. *)
Definition unreceipted (hash : B256) (request : TransactionRequest) (nonce head count : Z) (e' : E) : Prop :=
  exists from e1 e2 block, rq_from request = Some from /\ rq_nonce request = Some nonce /\ last_receipt hash None e1 /\
    eth_block_number e1 = (Ok block, e2) /\ head = Z.max 0 (block - 1) /\ count_at head from e2 = (Ok count, e').

Definition evidence_holds (request : TransactionRequest) (hash : B256) (retire_success : bool) (r : option Evidence) (e' : E) : Prop :=
  match r with
  | Some (SucceededIn block) =>
      retire_success = true /\ exists receipt, confirmed_receipt hash receipt block e' /\ status receipt = true
  | Some (RevertedIn block) => exists receipt, confirmed_receipt hash receipt block e' /\ status receipt = false
  | Some (NonceConsumed nonce head) => exists count, unreceipted hash request nonce head count e' /\ nonce < count
  | None =>
      (retire_success = false /\ exists receipt, last_receipt hash (Some receipt) e' /\ status receipt = true) \/
      (exists nonce head count, unreceipted hash request nonce head count e' /\ count <= nonce)
  end.

Lemma terminal_receipt_holds request hash receipt retire (s s' : A) r :
  terminal_receipt hash receipt retire s = (Ok r, s') -> last_receipt hash (Some receipt) (as_env s) ->
  evidence_holds request hash retire r (as_env s').
Proof.
  unfold terminal_receipt. intros Hr Hl. destruct (status receipt && negb retire) eqn:Hs.
  { injection Hr as <- <-. apply andb_prop in Hs as [Hs ->%negb_true_iff]. left. eauto. }
  runs_in Hr. apply ok_or_ok in Hr0, Hr1. injection Hr as <- <-.
  apply andb_prop in Hb as [Hh%Z.eqb_eq Hbh%bool_decide_eq_true]. apply Z.leb_le in Hb0. subst a0.
  assert (confirmed_receipt hash receipt a (as_env s1)) as Hc'.
  { split; [done|]. split; [done|]. exists (as_env s), (as_env s0), a1, a3. rewrite Hs0 in Hc0. by rewrite <- Hbh. }
  destruct (status receipt) eqn:Hst; simpl; [|eauto]. destruct retire; [eauto|done].
Qed.

Lemma nonce_consumed_holds request hash retire (s s' : A) r :
  nonce_consumed request s = (Ok r, s') -> last_receipt hash None (as_env s) ->
  evidence_holds request hash retire r (as_env s').
Proof.
  unfold nonce_consumed. intros Hr Hl. runs_in Hr. apply ok_or_ok in Hr0, Hr1. injection Hr as <- <-.
  assert (unreceipted hash request a0 (saturating_sub a1 1) a2 (as_env s1)) as Hu.
  { exists a, (as_env s), (as_env s0), a1. rewrite Hs in Hc0. done. }
  destruct (Z.leb_spec a2 a0); simpl; [right|]; eauto 6.
Qed.

Lemma look_again_answer n hash (s s' : A) r :
  look_again (S n) hash s = (Ok r, s') -> last_receipt hash r (as_env s').
Proof.
  revert s. induction n as [|n IH]; intros s; cbn [look_again] in *; intros Hr; runs_in Hr; subst.
  - destruct a0; injection Hr as <- <-; by eexists.
  - destruct a0; [injection Hr as <- <-; by eexists|]. by eapply IH.
Qed.
End Evidences.

(** A recorded transaction is called terminal on the node's last answers only:
    its receipt is in a canonical block with one more on top, or it has no
    receipt, after the looks of the code, and the block below the head counts its
    nonce as used.  Otherwise it is followed: it succeeded and is still wanted,
    or its nonce is free.  A success is evidence only when another intent is to
    replace it. *)
Theorem evm_terminal_spec {E : Type} `{Host E, EvmNode E, StepNode E, AsgNode E, EvmLib} request raw retire_success
    (s s' : Asg E) r :
  evm_terminal request raw retire_success s = (Ok r, s') ->
  evidence_holds request (keccak256 raw) retire_success r (as_env s').
Proof.
  unfold evm_terminal. intros (receipt & s1 & Hc & Hr)%M_bind_ok. apply consult_ok in Hc as [Hc _].
  destruct receipt as [receipt|]; [eapply terminal_receipt_holds; [exact Hr|by eexists]|].
  apply M_bind_ok in Hr as ([ev|] & s2 & Hn & Hr).
  - apply M_bind_ok in Hr as ([receipt|] & s3 & Hl%look_again_answer & Hr).
    + by eapply terminal_receipt_holds.
    + by eapply nonce_consumed_holds.
  - injection Hr as <- <-. eapply (nonce_consumed_holds _ _ _ _ _ None); [exact Hn|by eexists].
Qed.

(** ** Confirmations (confirmations.rs) *)

(** The head of a node takes its time to read, but no negative time. *)
Class HeadClock (E : Type) `{Host E, StepNode E} : Prop := {
  head_advances e : clock e <= clock (eth_block_number e).2
}.

Section Waiting.
Context {E : Type} `{Host E, EvmNode E, StepNode E, !ClockLaws E, !HeadClock E}.
Abbreviation A := (Asg E).

(** The last answers before the wait ended: a block on top of the receipt's, the
    receipt unchanged, and its block canonical, all before the deadline. *)
Definition confirmed_by (receipt : Receipt) (inclusion : Z) (hash : B256) (deadline : Z) (e' : E) : Prop :=
  exists e1 e2 e3 head observed block,
    eth_block_number e1 = (Ok head, e2) /\ inclusion + 1 <= head /\
    eth_get_transaction_receipt (transaction_hash receipt) e2 = (Ok (Some observed), e3) /\
    transaction_hash observed = transaction_hash receipt /\ block_number observed = Some inclusion /\
    block_hash observed = Some hash /\ status observed = true /\
    eth_get_block (TagNumber inclusion) e3 = (Ok (Some block), e') /\ bk_hash block = hash /\
    clock e' <= deadline.

(** The program ends, with [Q] or an ordinary error. *)
Definition ends_in {T} (m : M A T) (s : A) (Q : T -> A -> Prop) : Prop :=
  match m s with (Ok t, s') => Q t s' | (Err e, _) => e <> OutOfFuel end.

Lemma ends_in_bind {T U} (m : M A T) (f : T -> M A U) s Q :
  ends_in m s (fun t s1 => ends_in (f t) s1 Q) -> ends_in (m ≫= f) s Q.
Proof. unfold ends_in, mbind, M_bind. by destruct (m s) as [[t|e] s1]. Qed.
Lemma ends_in_ok_or {T} (o : option T) msg (s : A) (Q : T -> A -> Prop) :
  (forall t, o = Some t -> Q t s) -> ends_in (lift (ok_or o msg)) s Q.
Proof. intros Hq. unfold ends_in, lift. destruct o; simpl; auto. Qed.
Lemma ends_in_ensure b msg (s : A) (Q : () -> A -> Prop) : (b = true -> Q () s) -> ends_in (ensure b msg) s Q.
Proof. intros Hq. unfold ends_in, ensure, lift, ensure_ok. destruct b; simpl; auto. Qed.

Lemma outside_fuel {T} (r : result T) : outside r <> Err OutOfFuel.
Proof. by destruct r as [|[]]. Qed.

(** An answer before the deadline. *)
Lemma ends_in_time {T} deadline (m : M E T) (s : A) (Q : T -> A -> Prop) :
  (forall e, clock e <= clock (m e).2) ->
  (forall t e, m (as_env s) = (Ok t, e) -> clock e <= deadline -> Q t (in_env e s)) ->
  ends_in (before_deadline deadline (consult m)) s Q.
Proof.
  intros Hm Hq. unfold ends_in, before_deadline, consult, clock_now, mbind, M_bind, get, mret, M_ret.
  pose proof (outside_fuel (m (as_env s)).1) as Ho. destruct (m (as_env s)) as [[t|e] e']; simpl in *.
  - destruct (Z.ltb_spec deadline (clock e')); simpl; [done|]. by apply Hq.
  - destruct e; simpl in *; congruence.
Qed.

Lemma confirmation_loop_ends fuel receipt inclusion hash deadline poll (s : A) :
  0 < poll -> clock (as_env s) <= deadline -> deadline - clock (as_env s) < poll * Z.of_nat fuel ->
  ends_in (confirmation_loop fuel receipt inclusion hash (inclusion + 1) deadline poll) s
    (fun _ s' => confirmed_by receipt inclusion hash deadline (as_env s')).
Proof.
  intros Hp. revert s. induction fuel as [|fuel IH]; intros s Hd Hf; [lia|]. cbn [confirmation_loop].
  apply ends_in_bind, ends_in_time; [apply head_advances|]. intros head e1 Hhead He1.
  destruct (Z.leb_spec (inclusion + 1) head) as [Hh|Hh].
  - apply ends_in_bind, ends_in_time; [apply receipt_advances|]. intros o e2 Hrec He2.
    apply ends_in_bind, ends_in_ok_or. intros observed ->. apply ends_in_bind, ends_in_ensure.
    intros [[[Hh1%Z.eqb_eq Hh2%bool_decide_eq_true]%andb_prop Hh3%bool_decide_eq_true]%andb_prop Hh4]%andb_prop.
    apply ends_in_bind, ends_in_time; [apply block_advances|]. intros b e3 Hblk He3.
    apply ends_in_bind, ends_in_ok_or. intros block ->. apply ends_in_ensure. intros Hbh%Z.eqb_eq.
    by exists (as_env s), e1, e2, head, observed, block.
  - pose proof (head_advances (as_env s)) as Hadv. rewrite Hhead in Hadv. simpl in Hadv.
    apply ends_in_bind. unfold pause_for.
    assert (clock e1 + poll <= clock (sleep poll e1)) as Hs by apply sleep_advances.
    apply ends_in_time; [intros e; unfold request; simpl; pose proof (sleep_advances poll e); lia|].
    unfold request. intros u e2 [= _ <-] He2. apply IH; simpl in *; lia.
Qed.
End Waiting.

(** The wait for two confirmations ends, for every node and every timeout: with
    an ordinary error, or with the node's word, given before the deadline, that a
    block is on top of the receipt's, that the receipt is the same and
    successful, and that its block is the canonical one. *)
Theorem wait_for_confirmations_ends {E : Type} `{Host E, EvmNode E, StepNode E, !ClockLaws E, !HeadClock E}
    receipt timeout poll (s : Asg E) :
  0 < poll -> 0 <= timeout ->
  match wait_for_confirmations receipt timeout poll s with
  | (Ok _, s') => exists inclusion hash, status receipt = true /\ block_number receipt = Some inclusion /\
      block_hash receipt = Some hash /\ confirmed_by receipt inclusion hash (clock (as_env s) + timeout) (as_env s')
  | (Err e, _) => e <> OutOfFuel
  end.
Proof.
  intros Hp Ht. change (ends_in (wait_for_confirmations receipt timeout poll) s (fun _ s' =>
    exists inclusion hash, status receipt = true /\ block_number receipt = Some inclusion /\
      block_hash receipt = Some hash /\ confirmed_by receipt inclusion hash (clock (as_env s) + timeout) (as_env s'))).
  unfold wait_for_confirmations. apply ends_in_bind, ends_in_ensure. intros Hst.
  apply ends_in_bind, ends_in_ok_or. intros inclusion Hi. apply ends_in_bind, ends_in_ok_or. intros hash Hh.
  apply ends_in_bind, ends_in_ok_or. intros target [<- _]%checked_Some. apply ends_in_bind.
  change (ends_in clock_now s ?Q) with (Q (clock (as_env s)) s). cbv beta. set (fuel := S (S _)).
  pose proof (Z.div_mod timeout poll ltac:(lia)). pose proof (Z.mod_pos_bound timeout poll Hp).
  pose proof (Z.div_pos timeout poll Ht Hp).
  assert (clock (as_env s) + timeout - clock (as_env s) < poll * Z.of_nat fuel) as Hfuel.
  { unfold fuel. rewrite !Nat2Z.inj_succ, Z2Nat.id by lia. nia. }
  assert (clock (as_env s) <= clock (as_env s) + timeout) as Hd by lia.
  pose proof (confirmation_loop_ends fuel receipt inclusion hash _ poll s Hp Hd Hfuel) as Hl.
  unfold ends_in in *. change (inclusion + EXTRA_BLOCKS) with (inclusion + 1).
  destruct (confirmation_loop _ _ _ _ _ _ _ _) as [[u|e] s']; [|done]. by exists inclusion, hash.
Qed.

(** ** Invariants of a run *)

Definition files_of {E} (s : Asg E) : Files * gmap (B256 * B256) bytes * gmap (B256 * B256) bytes :=
  (as_journals s, as_retired s, as_evidence s).

Definition observation_event (ev : asg_event) : bool :=
  match ev with Predicted _ _ _ _ | GovernanceVerified _ _ _ _ | RolesRead _ _ _ _ _ => true | _ => false end.

Section Through.
Context {E : Type} `{Host E, EvmNode E, DeployNode E, StepNode E, AsgNode E, AsgLib, EvmLib, StepLib, ConfigLib,
                     CosmosAccounts, HashOrder}.
Abbreviation A := (Asg E).
Variables (jittered : Z -> Z) (env_var : string -> option string).

(** An invariant that sees the files and the trace, and allows observations. *)
Variable I : list asg_event -> Files * gmap (B256 * B256) bytes * gmap (B256 * B256) bytes -> Prop.
Hypothesis I_observed : forall t fs ev, observation_event ev = true -> I t fs -> I (t ++ [ev]) fs.

Definition inv (s : A) : Prop := I (as_trace s) (files_of s).
Definition through {T} (m : M A T) : Prop := hoare inv m (fun _ => inv) inv.

Lemma through_bind {T U} (m : M A T) (f : T -> M A U) : through m -> (forall t, through (f t)) -> through (m ≫= f).
Proof. intros Hm Hf. by eapply hoare_bind. Qed.
Lemma through_reads {T} (m : M A T) : reads m -> through m.
Proof. intros Hm s Hs. destruct (Hm s) as [e He]. destruct (m s) as [[t|err] s']; simpl in *; by subst s'. Qed.
Lemma through_observed ev : observation_event ev = true -> through (note ev).
Proof. intros He. apply hoare_modify. intros s Hs. unfold inv. by apply I_observed. Qed.
Lemma through_throw {T} e : through (throw (A := T) e).
Proof. by apply hoare_throw. Qed.

Lemma through_governance ctx asg runtime : through (governance ctx asg runtime).
Proof. unfold governance. do 3 (apply through_bind; [apply through_reads; eauto with reads|intros ?]). by apply through_observed. Qed.
Lemma through_roles ctx from asg : through (read_roles ctx from asg).
Proof.
  unfold read_roles. do 7 (apply through_bind; [apply through_reads; eauto with reads|intros ?]).
  apply through_bind; [by apply through_observed|]. intros _. apply through_reads; eauto with reads.
Qed.
Lemma through_prepare ctx from : through (prepare jittered ctx from).
Proof.
  unfold prepare. do 5 (apply through_bind; [apply through_reads; eauto with reads|intros ?]).
  apply through_bind; [by apply through_observed|]. intros _. apply through_reads; eauto with reads.
Qed.
Lemma through_load network chain options : through (load network chain options).
Proof.
  unfold load. do 5 (apply through_bind; [apply through_reads; eauto with reads|intros ?]).
  apply through_bind; [by apply hoare_modify|]. intros _. apply through_reads; eauto with reads.
Qed.

(** A program of looks, observations and what [extra] proves. *)
Ltac passes extra :=
  first
    [ by apply through_reads; eauto with reads
    | apply through_governance | apply through_roles | apply through_prepare | apply through_load | apply through_throw
    | extra
    | lazymatch goal with
      | |- through (match ?x with _ => _ end) => destruct x; passes extra
      | |- through (_ ≫= _) => apply through_bind; [passes extra|intros ?; passes extra]
      end ].

(** *** Previews *)

Lemma through_reuse_preview ctx options asg : op_apply options = false -> through (reuse ctx options asg).
Proof. intros Ha. unfold reuse. rewrite Ha. cbn [negb]. passes fail. Qed.

Lemma through_deploy_preview ctx options : op_apply options = false -> through (deploy jittered env_var ctx options).
Proof.
  intros Ha. unfold deploy. apply through_bind; [apply through_reads; eauto with reads|]. intros [asg|].
  - by apply through_reuse_preview.
  - unfold deploy_new. rewrite Ha. cbn [negb]. passes fail.
Qed.

Lemma through_handoff_preview ctx options selected :
  op_apply options = false -> through (handoff jittered env_var ctx options selected).
Proof. intros Ha. unfold handoff. rewrite Ha. cbn [negb]. passes fail. Qed.

Lemma through_run_preview is_terminal network chain action :
  op_apply (action_options action) = false -> through (run jittered env_var is_terminal network chain action).
Proof.
  intros Ha. unfold run. rewrite Ha. do 2 (apply through_bind; [apply through_reads; eauto with reads|intros ?]).
  apply through_bind; [apply through_load|]. intros ctx. apply through_bind; [passes fail|]. intros _.
  do 5 (apply through_bind; [apply through_reads; eauto with reads|intros ?]). destruct action; simpl in Ha.
  - by apply through_deploy_preview.
  - by apply through_handoff_preview.
Qed.
End Through.

(** Without [--apply] nothing is asked, written or sent: whatever the node says,
    the journals, the copies and the evidence are as before, and the trace has
    observations only. *)
Theorem preview_changes_nothing {E : Type} `{Host E, EvmNode E, DeployNode E, StepNode E, AsgNode E, AsgLib, EvmLib, StepLib,
    ConfigLib, CosmosAccounts, HashOrder} jittered env_var is_terminal network chain action (e : E) files retired evidence original :
  op_apply (action_options action) = false ->
  let s := (run jittered env_var is_terminal network chain action (mkAsg e files retired evidence original [])).2 in
  files_of s = (files, retired, evidence) /\ Forall (fun ev => observation_event ev = true) (as_trace s).
Proof.
  intros Ha. cbv zeta.
  set (I := fun (t : list asg_event) (fs : Files * gmap (B256 * B256) bytes * gmap (B256 * B256) bytes) =>
    fs = (files, retired, evidence) /\ Forall (fun ev => observation_event ev = true) t).
  assert (through (E := E) I (run jittered env_var is_terminal network chain action)) as Hr.
  { apply through_run_preview; [|done]. intros t fs ev Hev [Hf Ht]. split; [done|]. apply Forall_app. auto. }
  specialize (Hr (mkAsg e files retired evidence original []) ltac:(by split)).
  by destruct (run _ _ _ _ _ _ _) as [[u|why] s].
Qed.

(** ** Handoff (handoff.rs) *)

Section Sends.
Context {E : Type} `{Host E, EvmNode E, DeployNode E, StepNode E, AsgNode E, AsgLib, EvmLib, StepLib, ConfigLib,
                     CosmosAccounts, HashOrder}.
Abbreviation A := (Asg E).
Variables (jittered : Z -> Z) (env_var : string -> option string) (good : bytes -> Prop).

(** An invariant of the trace that allows every event but bad broadcasts. *)
Definition admits (ev : asg_event) : Prop := match ev with Broadcast raw => good raw | _ => True end.
Variable J : list asg_event -> Prop.
Hypothesis J_snoc : forall t ev, admits ev -> J t -> J (t ++ [ev]).
Definition on_trace (t : list asg_event) (fs : Files * gmap (B256 * B256) bytes * gmap (B256 * B256) bytes) : Prop := J t.

Lemma on_trace_observed t fs ev : observation_event ev = true -> on_trace t fs -> on_trace (t ++ [ev]) fs.
Proof. intros He. apply J_snoc. by destruct ev. Qed.

Abbreviation fine := (through (E := E) on_trace).

(** Changes of the state that add at most an event the invariant admits. *)
Lemma fine_modify (f : A -> A) :
  (forall s, as_trace (f s) = as_trace s \/ exists ev, admits ev /\ as_trace (f s) = as_trace s ++ [ev]) ->
  fine (modify f).
Proof.
  intros Hf. apply hoare_modify. intros s Hs. unfold inv, on_trace in *. destruct (Hf s) as [-> | (ev & Hev & ->)].
  - exact Hs.
  - by apply J_snoc.
Qed.
Lemma fine_note ev : admits ev -> fine (note ev).
Proof. intros He. apply fine_modify. intros s. right. by exists ev. Qed.

Ltac passes extra :=
  first
    [ by apply through_reads; eauto with reads
    | apply (through_governance _ on_trace_observed) | apply (through_roles _ on_trace_observed)
    | apply (through_prepare _ _ on_trace_observed) | apply through_throw
    | by apply fine_note
    | extra
    | lazymatch goal with
      | |- through _ (match ?x with _ => _ end) => destruct x; passes extra
      | |- through _ (_ ≫= _) => apply through_bind; [passes extra|intros ?; passes extra]
      end ].

Lemma fine_disk effect : fine effect -> fine (on_disk effect).
Proof. intros He. unfold on_disk. passes ltac:(exact He). Qed.
Lemma fine_put_journal id record : fine (put_journal id record).
Proof. apply fine_modify. intros s. right. by exists (Journaled id record). Qed.
Lemma fine_archive id hash evidence : fine (archive id hash evidence).
Proof.
  unfold archive, put_question, persist. passes ltac:(apply fine_disk, fine_modify; intros s;
    first [by left|right; eexists; by split; [|reflexivity]]).
Qed.
Lemma fine_recheck ctx from action : fine (recheck_governance jittered ctx from action).
Proof. destruct action; cbn [recheck_governance]; passes fail. Qed.
Lemma fine_broadcast raw : good raw -> fine (broadcast raw).
Proof. intros Hg. unfold broadcast. passes fail. Qed.

Lemma through_known {T U} (r : result T) (f : T -> M A U) : (forall t, r = Ok t -> fine (f t)) -> fine (lift r ≫= f).
Proof. intros Hf s Hs. unfold mbind, M_bind, lift. destruct r as [t|e]; [by apply Hf|done]. Qed.

Lemma fine_send ctx request action :
  (forall saved tx, validate request saved = Ok tx -> good (sv_raw saved)) ->
  fine (send jittered env_var ctx request action).
Proof.
  intros Hg. unfold send, put_question. do 5 (apply through_bind; [passes fail|intros ?]).
  apply through_bind; [passes fail|]. intros [|].
  - unfold recover_existing. do 4 (apply through_bind; [passes fail|intros ?]).
    apply through_bind; [passes fail|]. intros [evidence|].
    { apply through_bind; [apply fine_archive|]. intros _. apply through_throw. }
    unfold resume, put_question. apply through_known. intros tx Hv.
    passes ltac:(first [apply fine_recheck|by eapply fine_broadcast, Hg]).
  - do 3 (apply through_bind; [passes fail|intros ?]). do 4 (apply through_bind; [passes fail|intros ?]).
    apply through_bind; [apply fine_recheck|]. intros _. do 4 (apply through_bind; [passes fail|intros ?]).
    apply through_known. intros tx Hv. apply through_bind; [apply fine_disk, fine_put_journal|]. intros _.
    by eapply fine_broadcast, Hg.
Qed.

Lemma fine_save ctx updates : fine (save ctx updates).
Proof. unfold save. passes ltac:(apply fine_modify; by left). Qed.

Lemma fine_transfer ctx from asg runtime before target owner :
  (forall saved tx, validate (ownership_request ctx from target asg) saved = Ok tx -> good (sv_raw saved)) ->
  fine (transfer jittered env_var ctx from asg runtime before target owner).
Proof. intros Hg. unfold transfer, record_roles. passes ltac:(first [by apply fine_send|apply fine_save]). Qed.

Lemma fine_handoff ctx options selected :
  (forall asg target saved tx, handoff_asg ctx selected = Ok asg -> target = cx_its ctx \/ target = cx_gateway ctx ->
     validate (ownership_request ctx (op_from options) target asg) saved = Ok tx -> good (sv_raw saved)) ->
  fine (handoff jittered env_var ctx options selected).
Proof.
  intros Hg. unfold handoff. apply through_known. intros asg Ha.
  do 4 (apply through_bind; [passes fail|intros ?]). destruct (negb _); [passes fail|].
  apply through_bind; [passes fail|]. intros _.
  apply through_bind; [unfold put_question, record_roles; passes ltac:(apply fine_save)|]. intros _.
  do 2 (apply through_bind; [apply fine_transfer; intros saved tx Hv; eapply Hg; [exact Ha| |exact Hv]; auto|]; intros _).
  passes fail.
Qed.
End Sends.

(** Signed bytes of [transferOwnership(asg)], to the ITS or the gateway. *)
Definition is_transfer `{AsgLib, EvmLib, StepLib} (ctx : AsgContext) (from asg : Address) (raw : bytes) : Prop :=
  exists tx, decode_rest raw = Some (tx, []) /\ recover_address tx = Some from /\
    (tx_to tx = Some (cx_its ctx) \/ tx_to tx = Some (cx_gateway ctx)) /\
    tx_input tx = transfer_ownership_calldata asg /\ tx_value tx = 0 /\ tx_chain_id tx = Some (cx_chain_id ctx).

Lemma transfer_validated `{AsgLib, EvmLib, StepLib} ctx from target asg saved tx :
  target = cx_its ctx \/ target = cx_gateway ctx ->
  validate (ownership_request ctx from target asg) saved = Ok tx -> is_transfer ctx from asg (sv_raw saved).
Proof.
  intros Hor Hv. exists tx. destruct (validate_signed _ _ _ Hv) as (Hd & Hf & Hk & Hi & Hvalue & Hc). simpl in *.
  injection Hi as Hi. repeat (split; [done|]). split; [|done].
  unfold tx_kind in Hk. destruct (tx_to tx), Hor; naive_solver.
Qed.

(** Whatever happens, a handoff sends nothing but calls of
    [transferOwnership] with the governance contract, without value, on the chain
    of the configuration, signed by the given sender, to the ITS or to the
    gateway. *)
Theorem handoff_sends_only_transfers {E : Type} `{Host E, EvmNode E, DeployNode E, StepNode E, AsgNode E, AsgLib, EvmLib,
    StepLib, ConfigLib, CosmosAccounts, HashOrder} jittered env_var ctx options selected (s : Asg E) raw :
  as_trace s = [] -> Broadcast raw ∈ as_trace (handoff jittered env_var ctx options selected s).2 ->
  exists asg, handoff_asg ctx selected = Ok asg /\ is_transfer ctx (op_from options) asg raw.
Proof.
  intros Ht Hin. set (good := fun raw => exists asg, handoff_asg ctx selected = Ok asg /\ is_transfer ctx (op_from options) asg raw).
  set (J := fun t : list asg_event => forall raw, Broadcast raw ∈ t -> good raw).
  assert (through (E := E) (on_trace J) (handoff jittered env_var ctx options selected)) as Hr.
  { apply (fine_handoff _ _ good).
    - intros t ev He Hj r [Hr|Hr%list_elem_of_singleton]%elem_of_app; [by apply Hj|]. by subst ev.
    - intros asg target saved tx Ha Hor Hv. exists asg. split; [done|]. by eapply transfer_validated. }
  specialize (Hr s). unfold inv, on_trace in Hr. rewrite Ht in Hr.
  assert (J []) as HJ by by intros r Hr0%not_elem_of_nil.
  destruct (handoff _ _ _ _ _ s) as [[u|why] s']; exact (Hr HJ raw Hin).
Qed.

(** *** Completion *)

Section Completion.
Context {E : Type} `{Host E, EvmNode E, DeployNode E, StepNode E, AsgNode E, AsgLib, EvmLib, StepLib, ConfigLib,
                     CosmosAccounts, HashOrder}.
Abbreviation A := (Asg E).

Lemma reads_trace {T} (m : M A T) (s s' : A) r : reads m -> m s = (r, s') -> as_trace s' = as_trace s.
Proof. intros Hm Hr. destruct (Hm s) as [e He]. rewrite Hr in He. simpl in He. by subst s'. Qed.

(** The trace only grows. *)
Lemma transfer_grows jittered env_var ctx from asg runtime before target owner (s : A) :
  as_trace s `prefix_of` as_trace (transfer jittered env_var ctx from asg runtime before target owner s).2.
Proof.
  assert (through (E := E) (on_trace (prefix (as_trace s))) (transfer jittered env_var ctx from asg runtime before target owner)) as Hr.
  { apply (fine_transfer _ _ (fun _ => True)); [|done]. intros t ev _ Hp. by apply prefix_app_r. }
  specialize (Hr s ltac:(by unfold inv, on_trace)).
  destruct (transfer _ _ _ _ _ _ _ _ _ s) as [[u|why] s']; exact Hr.
Qed.

Lemma record_grows ctx asg runtime roles (s : A) : as_trace s `prefix_of` as_trace (record_roles ctx asg runtime roles s).2.
Proof.
  assert (through (E := E) (on_trace (prefix (as_trace s))) (record_roles ctx asg runtime roles)) as Hr.
  { apply (fine_save (fun _ => True)). intros t ev _ Hp. by apply prefix_app_r. }
  specialize (Hr s ltac:(by unfold inv, on_trace)). destruct (record_roles _ _ _ _ s) as [[u|why] s']; exact Hr.
Qed.

Lemma operators_unchanged_ok before after u :
  operators_unchanged before after = Ok u ->
  ro_gateway_operator after = ro_gateway_operator before /\ ro_sender_is_its_operator after = ro_sender_is_its_operator before /\
  ro_asg_is_its_operator after = ro_asg_is_its_operator before.
Proof.
  intros [[->%Z.eqb_eq ->%Bool.eqb_prop]%andb_prop ->%Bool.eqb_prop]%ensure_ok_ok%andb_prop. done.
Qed.

Lemma validate_roles_ok roles asg from u :
  validate_roles roles asg from = Ok u ->
  ro_gateway_operator roles <> asg /\ ro_asg_is_its_operator roles = false /\
  (ro_its_owner roles = from \/ ro_its_owner roles = asg) /\ (ro_gateway_owner roles = from \/ ro_gateway_owner roles = asg).
Proof.
  unfold validate_roles. intros (u1 & H1' & (u2 & H2' & (u3 & H3' & H4')%result_bind_ok)%result_bind_ok)%result_bind_ok.
  apply ensure_ok_ok in H1', H2', H3', H4'. apply negb_true_iff in H1', H2'. apply Z.eqb_neq in H1'.
  apply orb_true_iff in H3', H4'. rewrite !Z.eqb_eq in H3', H4'. done.
Qed.

(** The part of an applied handoff after the first look at the roles. *)
Lemma handoff_rest_grows jittered env_var ctx from asg runtime before (s1 s2 s3 s4 : A) u1 u2 u3 :
  (if (ro_gateway_owner before =? asg) && (ro_its_owner before =? asg) then
     yes ← put_question RecordState "Both owners are already ASG. Record verified state in config?";
     ensure yes "declined";;
     record_roles ctx asg runtime before
   else mret ()) s1 = (Ok u1, s2) ->
  transfer jittered env_var ctx from asg runtime before (cx_its ctx) (ro_its_owner before) s2 = (Ok u2, s3) ->
  transfer jittered env_var ctx from asg runtime before (cx_gateway ctx) (ro_gateway_owner before) s3 = (Ok u3, s4) ->
  as_trace s1 `prefix_of` as_trace s4.
Proof.
  intros Hq Hi Hg. trans (as_trace s2).
  - destruct (_ && _); [|by injection Hq as _ <-].
    apply M_bind_ok in Hq as (yes & s5 & Hp & (v & s6 & [_ ->]%ensure_run_ok & Hrec)%M_bind_ok).
    pose proof (record_grows ctx asg runtime before s5) as Hgrow. rewrite Hrec in Hgrow. trans (as_trace s5); [|exact Hgrow].
    unfold put_question in Hp. apply M_bind_ok in Hp as (y & s7 & [_ ->]%consult_ok & (w & s8 & Hn & Hret)%M_bind_ok).
    injection Hn as _ <-. injection Hret as _ <-. simpl. by apply prefix_app_r.
  - pose proof (transfer_grows jittered env_var ctx from asg runtime before (cx_its ctx) (ro_its_owner before) s2) as H1'.
    pose proof (transfer_grows jittered env_var ctx from asg runtime before (cx_gateway ctx) (ro_gateway_owner before) s3) as H2'.
    rewrite Hi in H1'. rewrite Hg in H2'. by trans (as_trace s3).
Qed.
End Completion.

(** C19: a handoff that was applied and returns has read the roles twice, at its
    start and at its end, each time right after it verified the governance
    contract, in a block below the head that was still the canonical one of its
    height afterwards.  Verified means that the node's answers for that block are
    the runtime code that the artifact's constructor builds and every setting
    the configuration and the policy want; the roles are the node's answers for
    the block.  At the end the contract owns the gateway and the ITS; the
    operators are as they were at the start, and the contract is an operator of
    neither. *)
Theorem handoff_completes {E : Type} `{Host E, EvmNode E, DeployNode E, StepNode E, AsgNode E, AsgLib, EvmLib,
    StepLib, ConfigLib, CosmosAccounts, HashOrder} jittered env_var ctx options selected (s s' : Asg E) u :
  op_apply options = true -> handoff jittered env_var ctx options selected s = (Ok u, s') ->
  exists asg runtime before t after b1 b2 b3 b4, handoff_asg ctx selected = Ok asg /\
    as_trace s' = as_trace s ++
      [GovernanceVerified ctx asg runtime b1; RolesRead ctx (op_from options) asg before b2] ++ t ++
      [GovernanceVerified ctx asg runtime b3; RolesRead ctx (op_from options) asg after b4] /\
    built (E := E) ctx runtime /\
    Forall (confirmed_block (E := E)) [b1; b2; b3; b4] /\
    governed_at (E := E) ctx asg runtime (bk_hash b1) /\ roles_at (E := E) ctx (op_from options) asg before (bk_hash b2) /\
    governed_at (E := E) ctx asg runtime (bk_hash b3) /\ roles_at (E := E) ctx (op_from options) asg after (bk_hash b4) /\
    ro_gateway_owner after = asg /\ ro_its_owner after = asg /\
    ro_gateway_operator after = ro_gateway_operator before /\ ro_gateway_operator after <> asg /\
    ro_sender_is_its_operator after = ro_sender_is_its_operator before /\ ro_asg_is_its_operator after = false.
Proof.
  intros Ha. unfold handoff. rewrite Ha. intros (asg & s0 & [Hasg ->]%lift_ok & Hr)%M_bind_ok.
  apply M_bind_ok in Hr as (art & s1 & Hart & (runtime & s2 & Hrt & (v & s3 & Hgov & (before & s4 & Hroles & Hr)%M_bind_ok)%M_bind_ok)%M_bind_ok).
  apply M_bind_ok in Hr as (v1 & s5 & [Hval ->]%lift_ok & (v2 & s6 & Hq & (v3 & s7 & Hi & (v4 & s8 & Hg & Hr)%M_bind_ok)%M_bind_ok)%M_bind_ok).
  pose proof (handoff_rest_grows _ _ _ _ _ _ _ _ _ _ _ _ _ _ Hq Hi Hg) as [t Ht].
  apply M_bind_ok in Hr as (v5 & s9 & Hgov2 & (after & s10 & Hroles2 & (v6 & s11 & [Hown ->]%ensure_run_ok & [Hops ->]%lift_ok)%M_bind_ok)%M_bind_ok).
  apply governance_said in Hgov as (b1 & Hgov & Hb1 & Hg1), Hgov2 as (b3 & Hgov2 & Hb3 & Hg3).
  apply read_roles_said in Hroles as (b2 & Hroles & Hb2 & Hr2), Hroles2 as (b4 & Hroles2 & Hb4 & Hr4).
  exists asg, runtime, before, t, after, b1, b2, b3, b4. split; [done|]. split.
  { apply reads_trace in Hart, Hrt; [|eauto with reads..].
    rewrite Hroles2, Hgov2, Ht, Hroles, Hgov, Hrt, Hart. by rewrite <- !app_assoc. }
  split.
  { apply expected_runtime_said in Hrt as [Hne Hrt]. split; [done|]. exists art, (op_from options).
    split; [by eapply artifact_said|done]. }
  split; [by repeat (apply list.Forall_cons; split; [done|])|]. do 4 (split; [done|]).
  apply andb_prop in Hown as [->%Z.eqb_eq ->%Z.eqb_eq]. apply operators_unchanged_ok in Hops as (-> & -> & ->).
  apply validate_roles_ok in Hval as (? & ? & _). done.
Qed.

(** ** Edits of the configuration (config.rs) *)

(** The value below a list of keys. *)
Definition at_keys (ks : list string) (v : Json) : option Json := foldl (fun v k => v ≫= get_key k) (Some v) ks.

(** The patch of a contract, if it is updated. *)
Definition patch_of (updates : list (string * Json)) (name : string) : option Json := field name updates.

Lemma at_keys_none ks : foldl (fun v k => v ≫= get_key k) None ks = None.
Proof. by induction ks. Qed.

Lemma at_keys_cons k ks v : at_keys (k :: ks) v = get_key k v ≫= at_keys ks.
Proof. unfold at_keys. simpl. destruct (get_key k v); [done|]. apply at_keys_none. Qed.

(** An edited field, and all the others. *)
Lemma edit_key_spec k f v v' :
  edit_key k f v = Ok v' ->
  exists x y, get_key k v = Some x /\ f x = Ok y /\ get_key k v' = Some y /\
    forall k', k' <> k -> get_key k' v' = get_key k' v.
Proof.
  unfold edit_key. intros (o & Ho & (x & Hx & (y & Hy & [= <-])%result_bind_ok)%result_bind_ok)%result_bind_ok.
  apply ok_or_ok in Ho, Hx. destruct v; try done. injection Ho as ->. exists x, y. simpl.
  rewrite field_set_field, decide_True by done. repeat (split; [done|]). intros k' Hk.
  by rewrite field_set_field, decide_False by done.
Qed.

Lemma field_not_in f (fields : Fields) : f ∉ fields.*1 -> field f fields = None.
Proof.
  induction fields as [|[k v] fields IH]; [done|]. simpl. intros [Hn Hin]%not_elem_of_cons.
  rewrite decide_False by done. by apply IH.
Qed.

Lemma field_extend entry fields f :
  NoDup fields.*1 ->
  field f (extend entry fields) = match field f fields with Some v => Some v | None => field f entry end.
Proof.
  unfold extend. revert entry. induction fields as [|[k v] fields IH]; intros entry Hnd; [done|]. simpl in *.
  apply list.NoDup_cons in Hnd as [Hk Hnd]. rewrite IH, field_set_field by done. case_decide as Hf; [|done].
  subst k. by rewrite field_not_in.
Qed.

(** Distinct names, patches that are objects with distinct fields. *)
Definition proper_updates (updates : list (string * Json)) : Prop :=
  NoDup updates.*1 /\ Forall (fun u => match u.2 with JObj fields => NoDup fields.*1 | _ => False end) updates.

(** A field of a contract, updated or not. *)
Definition patched (updates : list (string * Json)) (name f : string) (old : option Json) : option Json :=
  match patch_of updates name ≫= get_key f with Some v => Some v | None => old end.

Lemma apply_update_field contracts name fields contracts' n f :
  NoDup fields.*1 -> apply_update contracts (name, JObj fields) = Ok contracts' ->
  field n contracts' ≫= get_key f =
    if decide (n = name) then match field f fields with Some v => Some v | None => field n contracts ≫= get_key f end
    else field n contracts ≫= get_key f.
Proof.
  intros Hnd. unfold apply_update. cbn -[ok_or].
  intros (entry & He%ok_or_ok & [= <-])%result_bind_ok. rewrite field_set_field. case_decide as Hn; [|done]. subst n. simpl.
  rewrite field_extend by done. destruct (field f fields); [done|].
  destruct (field name contracts) as [v|]; simpl in *; [by destruct v; try done; injection He as ->|by injection He as <-].
Qed.

Lemma apply_updates_field contracts updates contracts' name f :
  proper_updates updates -> apply_updates contracts updates = Ok contracts' ->
  field name contracts' ≫= get_key f = patched updates name f (field name contracts ≫= get_key f).
Proof.
  revert contracts. induction updates as [|[n p] updates IH]; intros contracts [Hnd Hall] Hu; [by injection Hu as ->|].
  apply list.Forall_cons in Hall as [Hp Hall]. simpl in Hp. apply list.NoDup_cons in Hnd as [Hn Hnd].
  cbn [apply_updates] in Hu. apply result_bind_ok in Hu as (c1 & Hc1 & Hu). destruct p as [| | | | |fields]; try done.
  rewrite (IH c1) by done. rewrite (apply_update_field _ _ _ _ name f Hp Hc1). unfold patched, patch_of. simpl.
  case_decide as Hd; [|done]. subst name. rewrite field_not_in by done. done.
Qed.

(** Saving writes, over the very text that was reviewed, the reviewed
    configuration with the fields of the updates set in the contracts of the
    chain: every other field of every contract, every other part of the chain,
    every other chain and every other part of the file is as it was. *)
Theorem save_spec {E : Type} `{Host E, EvmNode E, AsgNode E, AsgLib} ctx updates (s s' : Asg E) u :
  proper_updates updates -> save ctx updates s = (Ok u, s') ->
  exists root root' e e', json_of (as_original s) = Some root /\
    read_config (cx_path ctx) (as_env s) = (Ok (as_original s), e) /\
    write_config (cx_path ctx) (pretty_json root' ++ newline) e = (Ok (), e') /\
    as_original s' = pretty_json root' ++ newline /\
    (forall name f, at_keys ["chains"; cx_key ctx; "contracts"; name; f] root' =
       patched updates name f (at_keys ["chains"; cx_key ctx; "contracts"; name; f] root)) /\
    (forall k, k <> "contracts" -> at_keys ["chains"; cx_key ctx; k] root' = at_keys ["chains"; cx_key ctx; k] root) /\
    (forall c, c <> cx_key ctx -> at_keys ["chains"; c] root' = at_keys ["chains"; c] root) /\
    (forall k, k <> "chains" -> at_keys [k] root' = at_keys [k] root).
Proof.
  intros Hp. unfold save, unchanged. intros (u1 & s1 & Hun & Hr)%M_bind_ok.
  apply M_bind_ok in Hun as (cur & s2 & [Hread Hs2]%consult_ok & (s3 & s4 & Hget & [Heq ->]%ensure_run_ok)%M_bind_ok).
  injection Hget as <- <-. apply bool_decide_eq_true in Heq.
  apply M_bind_ok in Hr as (s5 & s6 & Hget & (root & s7 & [Hroot ->]%lift_ok & (root' & s8 & [Hed ->]%lift_ok & Hr)%M_bind_ok)%M_bind_ok).
  injection Hget as <- <-. apply ok_or_ok in Hroot.
  apply M_bind_ok in Hr as (u2 & s9 & Hn & ([] & s10 & [Hw Hs10]%consult_ok & Hm)%M_bind_ok).
  injection Hn as _ <-. injection Hm as _ <-. rewrite Hs2 in Heq, Hroot. simpl in Heq, Hroot. subst cur. simpl in Hw.
  exists root, root', (as_env s2), (as_env s10). repeat (split; [done|]). unfold edited in Hed.
  apply edit_key_spec in Hed as (x & y & Hx & (x1 & y1 & Hx1 & (x2 & y2 & Hx2 & Hup & Hy2 & Ho2)%edit_key_spec & Hy1 & Ho1)%edit_key_spec & Hy & Ho).
  apply result_bind_ok in Hup as (cs & Hcs%ok_or_ok & Hup). destruct x2 as [| | | | |o]; try done. injection Hcs as ->.
  destruct (apply_updates cs updates) as [cs'|] eqn:Hau; [|done]. injection Hup as <-.
  split; [|split; [|split]].
  - intros name f. rewrite !at_keys_cons, Hx, Hy. simpl. rewrite !at_keys_cons, Hx1, Hy1. simpl.
    rewrite !at_keys_cons, Hx2, Hy2. simpl. rewrite !at_keys_cons. simpl.
    exact (apply_updates_field _ _ _ name f Hp Hau).
  - intros k Hk. rewrite !at_keys_cons, Hx, Hy. simpl. rewrite !at_keys_cons, Hx1, Hy1. simpl.
    rewrite !at_keys_cons. by rewrite Ho2.
  - intros c Hc. rewrite !at_keys_cons, Hx, Hy. simpl. rewrite !at_keys_cons. by rewrite Ho1.
  - intros k Hk. rewrite !at_keys_cons. by rewrite Ho.
Qed.
