(* ===== verification/SignedCalls.v ===== *)
(** * What a robust send signs (src/evm.rs)

    Every envelope [send_tx_robust] broadcasts was filled and signed for the
    request it was given: its rounds change the nonce, the gas limit and the
    fees, and nothing else. *)

From S2P Require Import Prelude Types Retry Journal Chain RobustSend.

(** The same call: who, to whom, what, with how much, where. *)
Definition same_call (a b : TransactionRequest) : Prop :=
  rq_from a = rq_from b /\ rq_to a = rq_to b /\ rq_value a = rq_value b /\ rq_input a = rq_input b /\
  rq_chain_id a = rq_chain_id b.

Section Signed.
Context {E : Type} `{PoolNode E, EvmLib}.
Variables (jittered : Z -> Z) (signer : string) (tx : TransactionRequest).
Abbreviation W := (Pool E).

(** An endpoint filled the envelope from the call of [tx]. *)
Definition signed_for (env : TxEnvelope) : Prop :=
  exists url rq (e e' : E), same_call rq tx /\ pool_fill signer url rq e = (inr (Some env), e').

Definition own_event (ev : event) : Prop := match ev with Broadcast _ env _ => signed_for env | Asked _ _ _ => True end.
Definition own_log (s : W) : Prop := Forall own_event (pl_log s).

(** Programs that only add such events. *)
Definition own {A} (m : M W A) (φ : A -> Prop) : Prop := hoare own_log m (fun a s => φ a /\ own_log s) own_log.

Lemma own_quietly {A} (m : M W A) φ : quietly m φ -> own m φ.
Proof.
  intros Hm s Hs. specialize (Hm s) as [Hl Ha]. unfold own_log in *. destruct (m s) as [[a|e] s']; simpl in *; rewrite Hl; auto.
Qed.
Lemma own_bind {A B} (m : M W A) (f : A -> M W B) φ ψ :
  own m φ -> (forall a, φ a -> own (f a) ψ) -> own (m ≫= f) ψ.
Proof. intros Hm Hf. eapply hoare_bind; [exact Hm|]. intros a. apply hoare_pure, Hf. Qed.
Lemma signed_once pool rq : same_call rq tx -> quietly (fill_and_sign_once jittered pool signer rq) signed_for.
Proof.
  intros Hrq. apply quietly_falling_back. intros url.
  eapply (quietly_bind _ _ (fun filled => exists e e', pool_fill signer url rq e = (inr filled, e'))).
  - apply quietly_ask. eauto.
  - intros filled (e & e' & Hf). apply quietly_lift. intros env ->%ok_or_ok. by exists url, rq, e, e'.
Qed.

Lemma signed_prefill pool rq :
  same_call rq tx -> quietly (prefill_from_latest jittered pool rq) (fun rq' => same_call rq' tx).
Proof.
  intros Hrq. unfold prefill_from_latest. apply (quietly_bind _ _ (fun _ => True)); [by apply quietly_lift|]. intros from _.
  eapply (quietly_bind _ _ (fun rq' => same_call rq' tx)).
  - destruct (rq_nonce rq); [by apply quietly_ret|].
    apply (quietly_bind _ _ (fun _ => True)); [|intros nonce _; by apply quietly_ret].
    apply quietly_falling_back. intros url. by apply quietly_ask.
  - intros rq' Hrq'. destruct (rq_gas rq'); [by apply quietly_ret|].
    apply (quietly_bind _ _ (fun _ => True)); [|intros g _; by apply quietly_ret].
    apply quietly_falling_back. intros url. by apply quietly_ask.
Qed.

Lemma signed_fill pool rq : same_call rq tx -> quietly (pool_fill_and_sign jittered pool signer rq) signed_for.
Proof.
  intros Hrq. unfold pool_fill_and_sign, prepare_fill. eapply (quietly_bind _ _ (fun rq' => same_call rq' tx)).
  { case_decide; [by apply signed_prefill|by apply quietly_ret]. }
  intros rq' Hrq'. apply quietly_recovering; [by apply signed_once|]. intros e.
  destruct (is_pending_state_error _); [|destruct (is_missing_base_fee_error _); [|apply quietly_throw]].
  - eapply quietly_bind; [by apply signed_prefill|]. intros pinned Hp. by apply signed_once.
  - apply (quietly_bind _ _ (fun _ => True)); [by apply quietly_lift|]. intros url _.
    apply (quietly_bind _ _ (fun _ => True)); [by apply quietly_ask|]. intros price _. by apply signed_once.
Qed.

Lemma own_logged {A} (f : E -> (string + A) * E) ev : (forall a, own_event (ev a)) -> own (logged f ev) (fun _ => True).
Proof. intros Hev s Hs. unfold logged, own_log in *. destruct (f (pl_env s)) as [a e]. simpl. auto. Qed.

Lemma own_send_to_all pool env : signed_for env -> own (send_to_all pool env) (fun _ => True).
Proof.
  intros He. induction pool as [|url pool IH]; simpl; [by apply own_quietly, quietly_ret|].
  eapply own_bind; [by apply own_logged|]. intros a _. eapply own_bind; [apply IH|]. intros [ok errs] _.
  by apply own_quietly, quietly_ret.
Qed.

Lemma own_broadcast_once pool env : signed_for env -> own (broadcast_once pool env) (fun _ => True).
Proof.
  intros He. unfold broadcast_once. eapply own_bind; [by apply own_send_to_all|]. intros [[] errs] _; apply own_quietly.
  - by apply quietly_ret.
  - eapply (quietly_bind _ _ (fun _ => True)); [by apply quietly_lift|]. intros text _. apply quietly_throw.
Qed.

Lemma own_broadcast pool env : signed_for env -> own (refusal (broadcast_raw jittered pool env)) (fun _ => True).
Proof.
  intros He s Hs. unfold refusal. assert (own_log (broadcast_raw jittered pool env s).2) as Hp.
  - apply (retrying_post jittered own_log (fun _ => own_log)); [|done..]. intros s1 Hs1.
    pose proof (own_broadcast_once pool env He s1 Hs1) as Hb.
    destruct (broadcast_once pool env s1) as [[h|e] s2]; simpl in *; naive_solver.
  - by destruct (broadcast_raw jittered pool env s) as [[h|e] s'].
Qed.

Lemma own_known pool hashes : own (any_tx_known_by_hash pool hashes) (fun _ => True).
Proof.
  assert (forall hash, own (tx_known_by_hash pool hash) (fun _ => True)) as Hk.
  { intros hash. induction pool as [|url pool IH]; simpl; [by apply own_quietly, quietly_ret|].
    eapply own_bind; [by apply own_logged|]. intros [t|[]] _; [apply IH|by apply own_quietly, quietly_ret|apply IH]. }
  induction hashes as [|hash hashes IH]; simpl; [by apply own_quietly, quietly_ret|].
  eapply own_bind; [apply Hk|]. intros [] _; [by apply own_quietly, quietly_ret|apply IH].
Qed.

Definition own_sending (st : Sending) : Prop := forall env, s_envelope st = Some env -> signed_for env.
Definition own_turn (t : turn) : Prop := match t with Continue st => own_sending st | Done _ => True end.

Lemma own_await fuel timeout env st : own (await_receipt fuel timeout env st) own_turn.
Proof.
  unfold await_receipt. eapply own_bind; [apply own_quietly, quietly_wait_receipt|].
  intros [r|] _; by apply own_quietly, quietly_ret.
Qed.

Lemma own_send_turn fuel endpoints timeout st :
  own_sending st -> own (send_turn jittered fuel endpoints signer tx timeout st) own_turn.
Proof.
  intros Hst. unfold send_turn. eapply (own_bind _ _ signed_for).
  { apply own_quietly. unfold next_envelope. destruct (s_envelope st) as [env|] eqn:He; [apply quietly_ret; by apply Hst|].
    apply signed_fill. unfold round_request. by destruct (s_gas_override st), (s_replacement_fees st). }
  intros env He. eapply own_bind; [by apply own_broadcast|]. intros [error|] _; [|apply own_await].
  destruct (send_error_may_mean_landed _); [|destruct (nonce_held_by_pooled_tx _); [destruct (Nat.leb _ _)|]].
  - eapply own_bind; [apply own_known|]. intros [] _; [apply own_await|by apply own_quietly, quietly_ret].
  - apply own_quietly, quietly_throw.
  - eapply (own_bind _ _ (fun _ => True)); [by apply own_quietly, quietly_modify|]. intros u _. by apply own_quietly, quietly_ret.
  - apply own_quietly, quietly_throw.
Qed.

(** Everything a send broadcasts was signed for its request, but for nonce, gas
    and fees. *)
Lemma own_send_tx_robust fuel endpoints timeout :
  own (send_tx_robust jittered fuel endpoints signer tx timeout) (fun _ => True).
Proof.
  unfold send_tx_robust. assert (own_sending (start_sending endpoints tx)) as Hst by done.
  revert Hst. generalize (start_sending endpoints tx) MAX_SEND_ATTEMPTS. intros st n. revert st.
  induction n as [|n IH]; intros st Hst; cbn [send_loop]; [apply own_quietly, quietly_throw|].
  destruct (Nat.leb _ _); [apply own_quietly, quietly_throw|].
  eapply own_bind; [by apply own_send_turn|]. intros [st'|r] Ht; [by apply IH|by apply own_quietly, quietly_ret].
Qed.
End Signed.
