(* ===== verification/Intents.v ===== *)
(** * Intents: assets, quotes and their checks (commands/intents/)

    An intent moves an asset from one chain to another: a solver quotes it over
    the RFQ service, the wallet deposits the input into a settlement contract,
    and the solver pays the output.  This file has the data of types.rs, the
    amounts, the choice of routes and amounts of route.rs, and the checks of
    quotes and of their actions of execution.rs.  All of it is pure. *)

From Stdlib Require Import Ascii.
From Stdlib Require String.
From S2P Require Import Prelude Types Journal Chain Plan Target Json Cosmos Propose.

(** ** Data (types.rs) *)

Inductive OrderType : Type := ExactInput | ExactOutput.
Inductive AssetType : Type := Token | Native.
#[export] Instance order_type_eq_dec : EqDecision OrderType.
Proof. solve_decision. Defined.
#[export] Instance asset_type_eq_dec : EqDecision AssetType.
Proof. solve_decision. Defined.

Record ChainInfo : Type := mkChainInfo { ci_chain_id : string; ci_chain_label : string; ci_chain_type : string }.
Record TokenInfo : Type := mkTokenInfo {
  ti_chain_id : string;
  ti_address : string;
  ti_symbol : string;
  ti_decimals : Z
}.

Record QuoteRequest : Type := mkQuoteRequest {
  qr_from_chain : string;
  qr_from_token : string;
  qr_to_chain : string;
  qr_to_token : string;
  qr_amount : string;
  qr_order_type : OrderType;
  qr_sender : string;
  qr_recipient : string
}.

Inductive BackendType : Type := IntentBackend | ItsBackend | GatewayBackend | GatewayExpressBackend.
#[export] Instance backend_type_eq_dec : EqDecision BackendType.
Proof. solve_decision. Defined.
Record Backend : Type := mkBackend { be_kind : BackendType; be_name : string; be_tracking : Json; be_metadata : Json }.

(** Times are milliseconds. *)
Record Validity : Type := mkValidity {
  va_kind : string;
  va_quote_expires_at : Z;
  va_fulfillment_deadline : option Z
}.
Record QuoteInput : Type := mkQuoteInput {
  qi_chain : string;
  qi_token : string;
  qi_amount : string;
  qi_amount_usd_approx : option string
}.
Record QuoteOutput : Type := mkQuoteOutput {
  qo_chain : string;
  qo_token : string;
  qo_amount : string;
  qo_minimum_amount : option string;
  qo_amount_usd_approx : option string
}.

Inductive ActionKind : Type := Approval | Transaction | DepositAddressKind.
#[export] Instance action_kind_eq_dec : EqDecision ActionKind.
Proof. solve_decision. Defined.
Record EvmTransactionPayload : Type := mkPayload {
  ep_from : option string;
  ep_to : string;
  ep_data : string;
  ep_value : string;
  ep_gas_limit : option string;
  ep_max_fee_per_gas : option string;
  ep_max_priority_fee_per_gas : option string
}.
Inductive ActionPayload : Type :=
  | EvmTransaction (payload : EvmTransactionPayload)
  | SolanaInstructions (instructions : list Json) (address_lookup_table_addresses : list string)
  | DepositAddress (address amount token : string).
Record Action : Type := mkAction {
  ac_id : string;
  ac_label : string;
  ac_kind : ActionKind;
  ac_chain : string;
  ac_payload : ActionPayload
}.

(** A quote, less what is only shown: the selection reason, the estimated time
    and the fees. *)
Record Quote : Type := mkQuote {
  qu_quote_id : string;
  qu_backend : Backend;
  qu_validity : Validity;
  qu_input : QuoteInput;
  qu_output : QuoteOutput;
  qu_actions : list Action
}.

Inductive TransferState : Type := AwaitingDeposit | PendingTransfer | DoneTransfer | RefundedTransfer | FailedTransfer | NotFound.
Record StatusOutput : Type := mkStatusOutput { so_chain : string; so_token : string; so_amount : string }.
Record Refund : Type := mkRefund { re_chain : string; re_token : string; re_amount : string; re_tx_hash : string }.
(** A status, less what is only shown. *)
Record StatusResponse : Type := mkStatus {
  st_quote_id : string;
  st_state : TransferState;
  st_output : option StatusOutput;
  st_refund : option Refund
}.

(** A quote with the time it took, in milliseconds. *)
Record TimedQuote : Type := mkTimedQuote { tq_quote : Quote; tq_latency : Z }.
Inductive QuoteOutcome : Type :=
  | Available (quote : TimedQuote)
  | Unavailable (reason : string).

Record ChainRuntime : Type := mkChainRuntime { cr_label : string; cr_rpc_url : string }.

Record AssetId : Type := mkAssetId { ai_chain_id : string; ai_token_address : string }.

(** [eq_ignore_ascii_case]. *)
Definition same_text (a b : string) : bool := bool_decide (to_lowercase a = to_lowercase b).
(** [PartialEq for AssetId]. *)
Definition same_asset (a b : AssetId) : bool :=
  bool_decide (ai_chain_id a = ai_chain_id b) && same_text (ai_token_address a) (ai_token_address b).

Record WalletAsset : Type := mkAsset {
  wa_id : AssetId;
  wa_chain_label : string;
  wa_symbol : string;
  wa_decimals : Z;
  wa_balance : Z;
  wa_native : bool
}.

Inductive RoundTripInputBudget : Type :=
  | SpendableBalance
  | Capped (forward reverse_top_up : Z).

Record RoutePlan : Type := mkRoutePlan {
  rp_from : WalletAsset;
  rp_to : WalletAsset;
  rp_order_type : OrderType;
  rp_requested_amount : Z;
  rp_input_amount : Z;
  rp_expected_return : Z;
  rp_forward_quote_ms : Z;
  rp_reverse_quote_ms : Z;
  rp_input_budget : RoundTripInputBudget;
  rp_forward_settlement_contract : Address;
  rp_reverse_settlement_contract : Address
}.

Record LegPlan : Type := mkLegPlan {
  lp_from : WalletAsset;
  lp_to : WalletAsset;
  lp_order_type : OrderType;
  lp_requested_amount : Z;
  lp_input_amount : Z;
  lp_expected_output : Z;
  lp_quote_ms : Z;
  lp_settlement_contract : Address;
  lp_request : QuoteRequest;
  lp_quote : TimedQuote
}.

Record LegExecution : Type := mkLeg {
  le_from : WalletAsset;
  le_to : WalletAsset;
  le_order_type : OrderType;
  le_amount : Z;
  le_recipient : Address;
  le_max_input_amount : option Z;
  le_settlement_contract : Address
}.

Record LegResult : Type := mkLegResult {
  lr_input_amount : Z;
  lr_output_amount : Z;
  lr_quote_latency_ms : Z;
  lr_deposit_confirmation_latency_ms : Z;
  lr_fulfillment_latency_ms : Z;
  lr_end_to_end_latency_ms : Z
}.

(** Milliseconds. *)
Record RunLimits : Type := mkRunLimits { li_poll_interval : Z; li_fulfillment_timeout : Z }.

Record ApprovalRequirement : Type := mkRequirement { ap_spender : Address; ap_amount : Z }.

(** [AssetType::matches]. *)
Definition matches (t : AssetType) (asset : WalletAsset) : bool :=
  Bool.eqb (wa_native asset) (bool_decide (t = Native)).

(** ** Amounts (types.rs) *)

(** [value.split('.')]. *)
Fixpoint split_dots (s : string) : list string :=
  match s with
  | EmptyString => [""]
  | String c s =>
      if Ascii.eqb c "." then "" :: split_dots s
      else match split_dots s with
           | [] => [String c EmptyString]
           | part :: parts => String c part :: parts
           end
  end.

Fixpoint all_digits (s : string) : bool :=
  match s with
  | EmptyString => true
  | String c s => bool_decide (is_Some (digit_value c)) && all_digits s
  end.

Definition decimal_parts (value : string) : result (string * string) :=
  let parts := split_dots value in
  let whole := default "" (parts !! 0%nat) in
  let fraction := default "" (parts !! 1%nat) in
  if bool_decide (is_Some (parts !! 2%nat)) || (bool_decide (whole = "") && bool_decide (fraction = "")) ||
     negb (all_digits whole) || negb (all_digits fraction)
  then bail "invalid decimal amount"
  else Ok (whole, fraction).

(** ["0".repeat(n)]. *)
Fixpoint zeros (n : nat) : string := match n with O => "" | S n => String "0" (zeros n) end.

(** [&s[..n]] and [&s[n..]]. *)
Fixpoint split_string (n : nat) (s : string) : string * string :=
  match n, s with
  | S n, String c s => let '(a, b) := split_string n s in (String c a, b)
  | _, _ => ("", s)
  end.

(** [trim_end_matches('0')]. *)
Fixpoint trim_zeros (s : string) : string :=
  match s with
  | EmptyString => ""
  | String c s =>
      let t := trim_zeros s in
      if Ascii.eqb c "0" && bool_decide (t = "") then "" else String c t
  end.

Section Amounts.
Context `{EvmLib}.

(** [HumanAmount::to_base_units]; the amount is its text. *)
Definition to_base_units (amount : string) (decimals : Z) : result Z :=
  '(whole, fraction) ← decimal_parts amount;
  let decimals := Z.to_nat decimals in
  _ ← ensure_ok (Nat.leb (String.length fraction) decimals) "amount has too many decimal places";
  let whole := if bool_decide (whole = "") then "0" else whole in
  ok_or (parse_u256 (whole +:+ fraction +:+ zeros (decimals - String.length fraction))) "amount is too large".

(** [HumanAmount::from_str]. *)
Definition human_amount (value : string) : result string := _ ← decimal_parts value; Ok value.

Definition format_units (amount decimals : Z) : string :=
  let digits := u256_to_string amount in
  let decimals := Z.to_nat decimals in
  if Nat.eqb decimals 0 then digits
  else
    let padded := if Nat.leb (String.length digits) decimals
                  then zeros (decimals + 1 - String.length digits) +:+ digits else digits in
    let '(whole, rest) := split_string (String.length padded - decimals) padded in
    let fraction := trim_zeros rest in
    if bool_decide (fraction = "") then whole else whole +:+ "." +:+ fraction.

Definition parse_amount (value : string) : result Z := ok_or (parse_u256 value) "invalid base-unit amount".
End Amounts.

(** ** Asset names (types.rs) *)

(** [split_once('/')]. *)
Fixpoint split_slash (s : string) : option (string * string) :=
  match s with
  | EmptyString => None
  | String c s =>
      if Ascii.eqb c "/" then Some ("", s)
      else '(a, b) ← split_slash s; Some (String c a, b)
  end.

Section Names.
Context `{EvmLib, CosmosAccounts, ConfigLib}.

Definition is_native_token (address : string) : bool := bool_decide (parse_address address = Some 0).

(** [AssetSpec::from_str]. *)
Definition asset_spec (value : string) : result AssetId :=
  '(chain_id, token_address) ← ok_or (split_slash value) "expected <CAIP-2 chain>/<token address>";
  _ ← ensure_ok (negb (contains "/" token_address)) "expected exactly one '/' between chain and token";
  reference ← ok_or (strip_prefix "eip155:" chain_id) "intent assets currently require an eip155 chain ID";
  _ ← ok_or (parse_uint 64 reference) "invalid EVM chain ID";
  token ← ok_or (parse_address token_address) "invalid EVM token address";
  Ok (mkAssetId chain_id (address_to_string token)).
End Names.

(** ** Choosing routes and amounts (route.rs) *)

Definition BPS_DENOMINATOR : Z := 10000.
Definition EXACT_OUTPUT_HEADROOM_BPS : Z := 9500.
Definition EXACT_OUTPUT_CALIBRATION_ATTEMPTS : nat := 3.
Definition GAS_RESERVE_WEI : Z := 1000000000000000.

Definition is_zero (z : Z) : bool := z =? 0.

Definition directed_cross_chain_pairs (assets : list WalletAsset) (t : AssetType) : list (WalletAsset * WalletAsset) :=
  from ← assets;
  pair from <$> List.filter (fun to =>
    matches t from && matches t to &&
    negb (bool_decide (ai_chain_id (wa_id from) = ai_chain_id (wa_id to))) && negb (is_zero (wa_balance from))) assets.

Fixpoint unordered_cross_chain_pairs (assets : list WalletAsset) (t : AssetType) : list (WalletAsset * WalletAsset) :=
  match assets with
  | [] => []
  | one :: rest =>
      (pair one <$> List.filter (fun other =>
         negb (bool_decide (ai_chain_id (wa_id one) = ai_chain_id (wa_id other))) && matches t one && matches t other &&
         (negb (is_zero (wa_balance one)) || negb (is_zero (wa_balance other)))) rest)
      ++ unordered_cross_chain_pairs rest t
  end.

Definition choose_start (left right : WalletAsset) : WalletAsset * WalletAsset :=
  if is_zero (wa_balance left) && negb (is_zero (wa_balance right)) then (right, left) else (left, right).

Definition asset_key (a : AssetId) : string := ai_chain_id a +:+ "/" +:+ to_lowercase (ai_token_address a).
Definition canonical_pair (left right : AssetId) : string * string :=
  let left := asset_key left in
  let right := asset_key right in
  if String.leb left right then (left, right) else (right, left).

Definition spendable_balance (asset : WalletAsset) : option Z :=
  if wa_native asset then checked_sub 256 (wa_balance asset) GAS_RESERVE_WEI else Some (wa_balance asset).

(** The product wraps at 256 bits, as [U256]'s [*] does. *)
Definition candidate_amount (asset : WalletAsset) (wallet_bps : Z) : option Z :=
  spendable ← spendable_balance asset;
  let amount := ((spendable * wallet_bps) mod 2 ^ 256) / BPS_DENOMINATOR in
  if is_zero amount then None else Some amount.

(** [10^n] by the checked multiplications of the loop. *)
Fixpoint checked_scale (n : nat) (scale : Z) : option Z :=
  match n with O => Some scale | S n => scale ← checked_mul 256 scale 10; checked_scale n scale end.

Definition scale_decimals (amount from_decimals to_decimals : Z) : option Z :=
  scale ← checked_scale (Z.to_nat (Z.abs (from_decimals - to_decimals))) 1;
  scaled ← (if from_decimals <? to_decimals then checked_mul 256 amount scale else Some (amount / scale));
  if is_zero scaled then None else Some scaled.

Definition candidate_quote_amount (source destination : WalletAsset) (order_type : OrderType) (wallet_bps : Z) : option Z :=
  input_amount ← candidate_amount source wallet_bps;
  match order_type with
  | ExactInput => Some input_amount
  | ExactOutput => scale_decimals input_amount (wa_decimals source) (wa_decimals destination)
  end.

Definition capped_input_budget (source destination : WalletAsset) (wallet_bps : Z) : option RoundTripInputBudget :=
  forward ← candidate_amount source wallet_bps;
  Some (Capped forward (default 0 (candidate_amount destination wallet_bps))).

Definition chain_has_gas (assets : list WalletAsset) (chain_id : string) : bool :=
  existsb (fun a => bool_decide (ai_chain_id (wa_id a) = chain_id) && wa_native a && (GAS_RESERVE_WEI <=? wa_balance a)) assets.
Definition chains_have_gas (assets : list WalletAsset) (first second : string) : bool :=
  forallb (chain_has_gas assets) [first; second].

Definition forward_input_limit (budget : RoundTripInputBudget) : option Z :=
  match budget with SpendableBalance => None | Capped forward _ => Some forward end.
Definition forward_input_is_within_budget (input : Z) (budget : RoundTripInputBudget) : bool :=
  match budget with SpendableBalance => true | Capped forward _ => input <=? forward end.
Definition reverse_input_is_within_budget (input received : Z) (budget : RoundTripInputBudget) : bool :=
  match budget with
  | SpendableBalance => true
  | Capped _ reverse_top_up =>
      match checked_add 256 received reverse_top_up with Some maximum => input <=? maximum | None => false end
  end.

(** In 512 bits, where the products of 256-bit numbers fit; the result is cut to
    256 bits. *)
Definition calibrate_exact_output (requested quoted_input input_limit : Z) : option Z :=
  if is_zero quoted_input then None
  else
    let target_input := ((input_limit * EXACT_OUTPUT_HEADROOM_BPS) mod 2 ^ 512) / BPS_DENOMINATOR in
    let adjusted := ((requested * target_input) mod 2 ^ 512) / quoted_input in
    let adjusted := Z.min adjusted (2 ^ 256 - 1) in
    if negb (is_zero adjusted) && (adjusted <? requested) then Some adjusted else None.

Definition with_balance (b : Z) (asset : WalletAsset) : WalletAsset :=
  mkAsset (wa_id asset) (wa_chain_label asset) (wa_symbol asset) (wa_decimals asset) b (wa_native asset).
Definition with_received_balance (asset : WalletAsset) (received : Z) : result WalletAsset :=
  b ← ok_or (checked_add 256 (wa_balance asset) received) "balance overflowed"; Ok (with_balance b asset).

Definition ensure_input_is_spendable (source : WalletAsset) (amount : Z) : result () :=
  spendable ← ok_or (spendable_balance source) "no balance after the gas reserve";
  ensure_ok (amount <=? spendable) "requested more than is spendable".

Definition ensure_source_ready (assets : list WalletAsset) (source : WalletAsset) : result () :=
  _ ← ensure_ok (negb (is_zero (wa_balance source))) "no source balance";
  ensure_ok (chain_has_gas assets (ai_chain_id (wa_id source))) "insufficient native gas".

Definition ensure_roundtrip_ready (assets : list WalletAsset) (from to : WalletAsset) : result () :=
  _ ← ensure_source_ready assets from;
  ensure_ok (chains_have_gas assets (ai_chain_id (wa_id from)) (ai_chain_id (wa_id to)))
    "both round-trip chains need native gas".

Definition explicit_assets (assets : list WalletAsset) (from to : AssetId) (t : AssetType)
    : result (WalletAsset * WalletAsset) :=
  _ ← ensure_ok (negb (bool_decide (ai_chain_id from = ai_chain_id to))) "intent routes must cross chains";
  let find := fun id => ok_or (List.find (fun a => same_asset (wa_id a) id) assets) "asset is not in the resolved RFQ catalog" in
  from ← find from;
  to ← find to;
  _ ← ensure_ok (matches t from && matches t to) "--asset-type requires matching assets for both --from and --to";
  Ok (from, to).

(** ** Quotes (route.rs, execution.rs) *)

(** alloy's [sol!] encoding of [ERC20::approveCall], and the URL parser. *)
Class IntentLib : Type := {
  approve_calldata : Address -> Z -> bytes;
  valid_url : string -> bool;
  (** [reqwest::Url::parse]: the scheme, and whether there is a query or a
      fragment. *)
  url_parts : string -> option (string * bool)
}.

Section Quotes.
Context `{EvmLib, CosmosAccounts, ConfigLib, IntentLib}.

Definition selected_amount (source destination : WalletAsset) (order_type : OrderType) (amount : option string)
    (wallet_bps : Z) : result Z :=
  amount ← match amount with
           | Some amount => to_base_units amount (match order_type with
                                                  | ExactInput => wa_decimals source
                                                  | ExactOutput => wa_decimals destination
                                                  end)
           | None => ok_or (candidate_quote_amount source destination order_type wallet_bps) "no spendable balance"
           end;
  _ ← ensure_ok (negb (is_zero amount)) "requested amount must be greater than zero";
  _ ← (if decide (order_type = ExactInput) then ensure_input_is_spendable source amount else Ok ());
  Ok amount.

Definition quote_request (from to : WalletAsset) (sender recipient : Address) (order_type : OrderType) (amount : Z)
    : QuoteRequest :=
  mkQuoteRequest (ai_chain_id (wa_id from)) (ai_token_address (wa_id from)) (ai_chain_id (wa_id to))
    (ai_token_address (wa_id to)) (u256_to_string amount) order_type (address_to_string sender)
    (address_to_string recipient).

Definition validate_quote_route (q : Quote) (from to : AssetId) (order_type : OrderType) (requested_amount : Z) : result () :=
  fixed_amount ← match order_type with
                 | ExactInput => parse_amount (qi_amount (qu_input q))
                 | ExactOutput => parse_amount (qo_amount (qu_output q))
                 end;
  ensure_ok (bool_decide (be_kind (qu_backend q) = IntentBackend) &&
             bool_decide (qi_chain (qu_input q) = ai_chain_id from) &&
             same_text (qi_token (qu_input q)) (ai_token_address from) &&
             bool_decide (qo_chain (qu_output q) = ai_chain_id to) &&
             same_text (qo_token (qu_output q)) (ai_token_address to) &&
             (fixed_amount =? requested_amount))
    "RFQ returned a quote that does not match the requested route".

Definition validate_quote (q : Quote) (from to : WalletAsset) (order_type : OrderType) (requested_amount : Z) : result () :=
  _ ← validate_quote_route q (wa_id from) (wa_id to) order_type requested_amount;
  input_amount ← parse_amount (qi_amount (qu_input q));
  ensure_input_is_spendable from input_amount.

Definition validate_input_limit (input : Z) (maximum : option Z) : result () :=
  ensure_ok (match maximum with Some maximum => input <=? maximum | None => true end)
    "quote requires more input than the route's wallet safety limit".

(** *** Actions *)

Definition action_payload (a : Action) : result EvmTransactionPayload :=
  match ac_payload a with EvmTransaction payload => Ok payload | _ => bail "not an EVM transaction" end.

(** [hex::decode] of the calldata text; the decoder takes a second prefix. *)
Definition payload_data (p : EvmTransactionPayload) : result bytes :=
  ok_or (alloy_hex_decode (default (ep_data p) (strip_prefix "0x" (ep_data p)))) "invalid calldata".

Definition action_request (a : Action) (signer : Address) (expected_chain : string) : result TransactionRequest :=
  _ ← ensure_ok (bool_decide (ac_chain a = expected_chain)) "action targets another chain";
  payload ← action_payload a;
  _ ← match ep_from payload with
      | Some from =>
          from ← ok_or (parse_address from) "invalid from address";
          ensure_ok (from =? signer) "sender does not match axe wallet"
      | None => Ok ()
      end;
  to ← ok_or (parse_address (ep_to payload)) "invalid target";
  data ← payload_data payload;
  value ← ok_or (parse_u256 (ep_value payload)) "invalid value";
  reference ← ok_or (strip_prefix "eip155:" expected_chain) "expected an EVM chain ID";
  chain_id ← ok_or (parse_uint 64 reference) "invalid EVM chain ID";
  Ok (mkRequest (Some signer) (Some (CallTo to)) None None None None (Some value) (Some data) None (Some chain_id)
        None None None).

(** The selector of [approve]. *)
Definition APPROVE_SELECTOR : bytes := [9; 94; 167; 179].

Definition approval_requirement (a : Action) (source : WalletAsset) (amount : Z) : result ApprovalRequirement :=
  _ ← ensure_ok (negb (wa_native source)) "native-token quote unexpectedly requested approval";
  payload ← action_payload a;
  target ← ok_or (parse_address (ep_to payload)) "invalid target";
  source_token ← ok_or (parse_address (ai_token_address (wa_id source))) "source token has an invalid EVM address";
  value ← ok_or (parse_u256 (ep_value payload)) "invalid value";
  data ← payload_data payload;
  _ ← ensure_ok ((target =? source_token) && is_zero value && Nat.eqb (length data) 68)
        "not a sufficient approval of the source token";
  let requirement := mkRequirement (from_be (take 20 (drop 16 data))) (from_be (drop 36 data)) in
  _ ← ensure_ok (bool_decide (take 4 data = APPROVE_SELECTOR) && (amount <=? ap_amount requirement))
        "not a sufficient approval of the source token";
  Ok requirement.

(** The text of calldata. *)
Definition hex_text (data : bytes) : string := "0x" +:+ hex_encode data.

Definition approval_action (a : Action) (requirement : ApprovalRequirement) (amount : Z) : result Action :=
  _ ← ensure_ok (ap_amount requirement <=? amount) "approval amount is below the quoted input";
  payload ← action_payload a;
  Ok (mkAction (ac_id a) (ac_label a) (ac_kind a) (ac_chain a)
        (EvmTransaction (mkPayload (ep_from payload) (ep_to payload)
           (hex_text (approve_calldata (ap_spender requirement) amount)) (ep_value payload) (ep_gas_limit payload)
           (ep_max_fee_per_gas payload) (ep_max_priority_fee_per_gas payload)))).

Definition validate_deposit_action (a : Action) (source : WalletAsset) (amount : Z) : result Address :=
  payload ← action_payload a;
  target ← ok_or (parse_address (ep_to payload)) "invalid target";
  value ← ok_or (parse_u256 (ep_value payload)) "invalid value";
  let expected_value := if wa_native source then amount else 0 in
  _ ← ensure_ok ((value =? expected_value) && negb (bool_decide (ep_data payload = "0x")) &&
                 negb (bool_decide (ep_data payload = ""))) "deposit value or calldata does not match the quoted input";
  Ok target.

Definition of_kind (k : ActionKind) (q : Quote) : list Action :=
  List.filter (fun a => bool_decide (ac_kind a = k)) (qu_actions q).

Definition validate_quote_actions (q : Quote) (source : WalletAsset) (input_amount : Z) : result Address :=
  match of_kind Transaction q with
  | [deposit] =>
      settlement ← validate_deposit_action deposit source input_amount;
      let approvals := of_kind Approval q in
      if wa_native source then
        _ ← ensure_ok (bool_decide (length approvals = 0%nat)) "native-token quote unexpectedly requested approval";
        Ok settlement
      else
        _ ← ensure_ok (Nat.leb (length approvals) 1) "token quote returned several approval actions";
        _ ← match head approvals with
            | Some approval =>
                requirement ← approval_requirement approval source input_amount;
                ensure_ok (ap_spender requirement =? settlement)
                  "intent approval spender does not match the deposit contract"
            | None => Ok ()
            end;
        Ok settlement
  | _ => bail "intent quote returned several transaction actions; expected exactly one deposit"
  end.

Definition deposit_action (q : Quote) (source : WalletAsset) (amount : Z) : result Action :=
  match of_kind Transaction q with
  | [] => bail "intent quote had no deposit transaction"
  | [deposit] => _ ← validate_deposit_action deposit source amount; Ok deposit
  | _ => bail "intent quote returned multiple deposit transactions"
  end.

(** *** Statuses *)

Definition validate_refund (refund : Refund) (q : Quote) : result () :=
  _ ← ensure_ok (bool_decide (re_chain refund = qi_chain (qu_input q)) && same_text (re_token refund) (qi_token (qu_input q)))
        "RFQ refund does not match the deposited input";
  refunded ← parse_amount (re_amount refund);
  deposited ← parse_amount (qi_amount (qu_input q));
  ensure_ok (refunded =? deposited) "RFQ refund does not match the deposited input".

Definition promised (q : Quote) : string := default (qo_amount (qu_output q)) (qo_minimum_amount (qu_output q)).

Definition validate_status_output (output : StatusOutput) (expected : WalletAsset) (q : Quote) : result () :=
  _ ← ensure_ok (bool_decide (so_chain output = ai_chain_id (wa_id expected)) &&
                 same_text (so_token output) (ai_token_address (wa_id expected)))
        "RFQ DONE output does not match the requested destination asset";
  got ← parse_amount (so_amount output);
  minimum ← parse_amount (promised q);
  ensure_ok (minimum <=? got) "RFQ DONE output is below the quoted minimum".
End Quotes.
