(* ===== verification/IntentAmounts.v ===== *)
(** * Intents: amounts in text

    What [format_units] shows reads back as the same amount of base units. *)

From Stdlib Require Import Ascii.
From Stdlib Require String.
From S2P Require Import Prelude Types Chain Intents.

(** ruint's text of a [U256]: decimal digits, and a text of digits is read as
    the number they spell, when it fits. *)
Class AmountText `{EvmLib} : Prop := {
  amount_text a : 0 <= a < 2 ^ 256 -> u256_to_string a = to_dec a;
  amount_read s : s <> "" -> all_digits s = true -> parse_u256 s = (z ← parse_digits s 0; checked 256 z)
}.

(** ** Strings *)

#[local] Arguments String.append !_ _ / : simpl nomatch.

Lemma text_app_assoc (a b c : string) : (a +:+ b) +:+ c = a +:+ (b +:+ c).
Proof. induction a as [|x a IH]; simpl; [done|]. by rewrite IH. Qed.
Lemma text_app_nil (a : string) : a +:+ "" = a.
Proof. induction a as [|x a IH]; simpl; [done|]. by rewrite IH. Qed.
Lemma text_length_app (a b : string) : String.length (a +:+ b) = (String.length a + String.length b)%nat.
Proof. induction a as [|x a IH]; simpl; [done|]. by rewrite IH. Qed.
Lemma zeros_length n : String.length (zeros n) = n.
Proof. induction n as [|n IH]; simpl; [done|]. by rewrite IH. Qed.

Lemma all_digits_app a b : all_digits (a +:+ b) = all_digits a && all_digits b.
Proof. induction a as [|x a IH]; simpl; [done|]. by rewrite IH, andb_assoc. Qed.
Lemma all_digits_zeros n : all_digits (zeros n) = true.
Proof. by induction n. Qed.
Lemma all_digits_dec_loop fuel z acc : 0 <= z -> all_digits acc = true -> all_digits (dec_loop fuel z acc) = true.
Proof.
  revert z acc. induction fuel as [|fuel IH]; intros z acc Hz Hacc; simpl; [done|].
  pose proof (Z.mod_pos_bound z 10 ltac:(lia)) as Hm.
  assert (all_digits (String (digit_char (z mod 10)) acc) = true) as Hnext by (cbn [all_digits]; by rewrite digit_value_char).
  destruct (z <? 10); [done|]. apply IH; [|done]. apply Z.div_pos; lia.
Qed.

Lemma to_dec_text a : 0 <= a < 2 ^ 256 -> to_dec a <> "" /\ all_digits (to_dec a) = true /\ parse_digits (to_dec a) 0 = Some a.
Proof.
  intros Ha. split; [|split; [apply all_digits_dec_loop; [lia|done]|]]; unfold to_dec.
  - destruct (dec_loop_head (Z.to_nat (Z.log2 a)) a "") as (c & s & -> & _); [lia|done].
  - rewrite parse_dec_loop; [done|]. rewrite Nat2Z.inj_succ, Z2Nat.id by apply Z.log2_nonneg.
    destruct (decide (a = 0)) as [->|]; [done|]. pose proof (Z.log2_spec a). lia.
Qed.
Lemma parse_digits_zeros n s : parse_digits (zeros n +:+ s) 0 = parse_digits s 0.
Proof. induction n as [|n IH]; simpl; [done|]. exact IH. Qed.

Lemma split_string_spec n s a b :
  split_string n s = (a, b) -> (n <= String.length s)%nat -> s = a +:+ b /\ String.length a = n.
Proof.
  revert s a b. induction n as [|n IH]; intros s a b; simpl; [by intros [= <- <-]|].
  destruct s as [|c s]; simpl; [lia|]. destruct (split_string n s) as [a' b'] eqn:Hs. intros [= <- <-] Hl.
  destruct (IH _ _ _ Hs ltac:(lia)) as [-> Hn]. simpl. by rewrite Hn.
Qed.

Lemma trim_zeros_spec s : s = trim_zeros s +:+ zeros (String.length s - String.length (trim_zeros s)) /\
  (String.length (trim_zeros s) <= String.length s)%nat.
Proof.
  induction s as [|c s [IH Hl]]; simpl; [done|]. destruct (Ascii.eqb_spec c "0") as [->|]; simpl.
  - destruct (bool_decide_reflect (trim_zeros s = "")) as [Ht|]; simpl.
    + rewrite Ht in IH. simpl in IH. rewrite Nat.sub_0_r in IH. rewrite IH at 1. split; [done|lia].
    + split; [|lia]. by rewrite <- IH.
  - split; [|lia]. by rewrite <- IH.
Qed.

Lemma split_dots_digits s : all_digits s = true -> split_dots s = [s].
Proof.
  induction s as [|c s IH]; simpl; [done|]. intros [Hc%bool_decide_eq_true Hs]%andb_prop. rewrite IH by done.
  destruct (Ascii.eqb_spec c ".") as [->|]; [by destruct Hc|done].
Qed.
Lemma split_dots_point a b : all_digits a = true -> all_digits b = true -> split_dots (a +:+ "." +:+ b) = [a; b].
Proof.
  intros Ha Hb. induction a as [|c a IH]; simpl in *; [by rewrite split_dots_digits|].
  apply andb_prop in Ha as [Hc%bool_decide_eq_true Ha]. rewrite IH by done.
  destruct (Ascii.eqb_spec c ".") as [->|]; [by destruct Hc|done].
Qed.

(** ** Reading *)

Section Reading.
Context `{EvmLib, !AmountText}.

Lemma read_parts text whole fraction decimals a :
  decimal_parts text = Ok (whole, fraction) -> (String.length fraction <= Z.to_nat decimals)%nat -> whole <> "" ->
  all_digits whole = true -> all_digits fraction = true -> 0 <= a < 2 ^ 256 ->
  parse_digits (whole +:+ fraction +:+ zeros (Z.to_nat decimals - String.length fraction)) 0 = Some a ->
  to_base_units text decimals = Ok a.
Proof.
  intros Hp Hl Hw Hdw Hdf Ha Hz. unfold to_base_units. rewrite Hp. simpl. apply Nat.leb_le in Hl as ->. simpl.
  rewrite bool_decide_false by done. rewrite amount_read.
  - rewrite Hz. simpl. by rewrite (proj2 (checked_Some 256 a a)).
  - by destruct whole.
  - by rewrite !all_digits_app, Hdw, Hdf, all_digits_zeros.
Qed.

Lemma decimal_parts_whole s : s <> "" -> all_digits s = true -> decimal_parts s = Ok (s, "").
Proof.
  intros Hs Hd. unfold decimal_parts. rewrite split_dots_digits by done. simpl. rewrite Hd. by rewrite (bool_decide_false (s = "")).
Qed.
Lemma decimal_parts_point a b : a <> "" -> all_digits a = true -> all_digits b = true ->
  decimal_parts (a +:+ "." +:+ b) = Ok (a, b).
Proof.
  intros Hs Hda Hdb. unfold decimal_parts. rewrite split_dots_point by done. simpl. rewrite Hda, Hdb.
  by rewrite (bool_decide_false (a = "")).
Qed.

(** An amount that was read is a 256-bit number. *)
Lemma to_base_units_range text decimals a : to_base_units text decimals = Ok a -> 0 <= a < 2 ^ 256.
Proof.
  unfold to_base_units. intros ([whole fraction] & Hp & Hr)%result_bind_ok. apply result_bind_ok in Hr as (u & _ & Ha%ok_or_ok).
  unfold decimal_parts in Hp. destruct (_ || _) eqn:Hbad in Hp; [done|]. injection Hp as Hw Hf. rewrite Hw, Hf in Hbad.
  apply orb_false_iff in Hbad as [[_ Hdw%negb_false_iff]%orb_false_iff Hdf%negb_false_iff].
  rewrite amount_read in Ha.
  - destruct (parse_digits _ 0) as [z|]; [|done]. simpl in Ha. by apply checked_Some in Ha as [_ ?].
  - case_bool_decide; [done|]. by destruct whole.
  - rewrite !all_digits_app, Hdf, all_digits_zeros. case_bool_decide; [done|]. by rewrite Hdw.
Qed.
End Reading.

(** C33: what [format_units] prints is read back.  Any 256-bit amount of an asset with
    any number of decimals is shown as a decimal text that
    [HumanAmount::to_base_units] reads as the same amount. *)
Theorem format_units_round_trip `{EvmLib, !AmountText} a decimals :
  0 <= a < 2 ^ 256 -> to_base_units (format_units a decimals) decimals = Ok a.
Proof.
  intros Ha. unfold format_units. rewrite amount_text by done. destruct (to_dec_text a Ha) as (Hne & Hdig & Hval).
  destruct (Nat.eqb_spec (Z.to_nat decimals) 0) as [Hd|Hd].
  { apply (read_parts _ (to_dec a) ""); try done; [by apply decimal_parts_whole|simpl; lia|]. by rewrite Hd, !text_app_nil. }
  set (padded := if Nat.leb _ _ then _ else _).
  assert (all_digits padded = true /\ parse_digits padded 0 = Some a /\ (Z.to_nat decimals < String.length padded)%nat)
    as (Hpd & Hpv & Hpl).
  { unfold padded. destruct (Nat.leb_spec (String.length (to_dec a)) (Z.to_nat decimals)); [|done].
    rewrite all_digits_app, all_digits_zeros, parse_digits_zeros, text_length_app, zeros_length. split; [done|]. split; [done|lia]. }
  clearbody padded. destruct (split_string _ padded) as [whole rest] eqn:Hs.
  apply split_string_spec in Hs as [-> Hlen]; [|lia]. rewrite text_length_app in Hlen, Hpl.
  rewrite all_digits_app in Hpd. apply andb_prop in Hpd as [Hdw Hdr].
  assert (whole <> "") as Hw by (intros ->; simpl in *; lia). destruct (trim_zeros_spec rest) as [Hr Hle].
  assert (all_digits (trim_zeros rest) = true) as Hdt
    by (rewrite Hr, all_digits_app in Hdr; by apply andb_prop in Hdr as [? _]).
  replace (String.length rest) with (Z.to_nat decimals) in * by lia. rewrite Hr in Hpv.
  case_bool_decide as Hf.
  - rewrite Hf in Hpv. apply (read_parts _ whole ""); try done; [by apply decimal_parts_whole|simpl; lia].
  - apply (read_parts _ whole (trim_zeros rest)); try done. by apply decimal_parts_point.
Qed.
