(* ===== verification/IntentRun.v ===== *)
(** * Intents: planning, execution, sweeps and traffic (commands/intents/)

    The programs of intents.rs, client.rs, route.rs, execution.rs and
    traffic.rs.  The state has the environment, the results of the run, the
    counters of traffic, and the trace of what was handed to the sender, what
    the sender put on the wire, and what was asked of the operator.
    Transactions go out through [send_tx_robust]. *)

From S2P Require Import Prelude Types Retry Journal Chain Plan Config Target Json LoadNet Propose RobustSend Intents.

(** ** State and environment *)

(** What an HTTP request gets: nothing, or a status and the body where it
    matches the schema. *)
Inductive HttpAnswer (A : Type) : Type :=
  | NoResponse
  | Response (status : Z) (body : option A).
Arguments NoResponse {A}.
Arguments Response {A} status body.

Class IntentNode (E : Type) : Type := {
  (** The RFQ service, by its URLs. *)
  get_chains : string -> E -> HttpAnswer (list ChainInfo) * E;
  get_tokens : string -> E -> HttpAnswer (list TokenInfo) * E;
  post_quote : string -> QuoteRequest -> E -> HttpAnswer (list Quote) * E;
  get_status : string -> string -> E -> HttpAnswer StatusResponse * E;
  (** The chains, by the URLs of their nodes. *)
  node_chain_id : string -> E -> (string + Z) * E;
  native_balance : string -> Address -> E -> (string + Z) * E;
  token_balance : string -> Address -> Address -> E -> (string + Z) * E;
  token_allowance : string -> Address -> Address -> Address -> E -> (string + Z) * E;
  (** The machine: wall clock, configuration file, [shuffle], the lock of a
      wallet, the operator, the interrupt, a sleep an interrupt ends. *)
  utc_now : E -> Z;
  config_file : string -> E -> option Json * E;
  shuffle : list (WalletAsset * WalletAsset) -> E -> list (WalletAsset * WalletAsset) * E;
  wallet_lock : Address -> E -> bool * E;
  consent : string -> E -> bool * E;
  interrupted : E -> bool * E;
  doze : Z -> E -> E
}.

Inductive intent_event : Type :=
  | Handed (label : string) (request : TransactionRequest)   (* given to the sender *)
  | OnWire (ev : event)
  | Consented (prompt : string) (yes : bool).

Record TrafficStats : Type := mkStats {
  ts_intents : Z;
  ts_failures : Z;
  ts_intent_latency_ms : Z;
  ts_route_cursors : list Z
}.

Record Desk (E : Type) : Type := mkDesk {
  dk_env : E;
  dk_results : list LegResult;
  dk_stats : TrafficStats;
  dk_trace : list intent_event
}.
Arguments mkDesk {E}.
Arguments dk_env {E}.
Arguments dk_results {E}.
Arguments dk_stats {E}.
Arguments dk_trace {E}.

Record IntentRuntime : Type := mkRuntime {
  ir_signer : string;
  ir_wallet : Address;
  ir_config : ChainsConfig;
  ir_base_url : string;
  ir_limits : RunLimits;
  ir_auto_confirm : bool;
  ir_allowed_chains : list string
}.

Record IntentRuntimeArgs : Type := mkRuntimeArgs {
  ia_network : Network;
  ia_rfq_url : option string;
  ia_config : string;
  ia_private_key : string;
  ia_poll_interval_secs : Z;
  ia_fulfillment_timeout_secs : Z;
  ia_yes : bool;
  ia_allowed_chains : list string
}.

Inductive RouteChoice : Type :=
  | RandomRoute (wallet_bps : Z) (order_type : OrderType) (asset_type : AssetType)
  | ExplicitRoute (from to : AssetId) (amount : option string) (wallet_bps : Z) (order_type : OrderType)
      (asset_type : AssetType).

(** [RouteChoice::new]. *)
Definition route_choice (from to : option AssetId) (amount : option string) (wallet_bps : Z) (order_type : OrderType)
    (asset_type : AssetType) : result RouteChoice :=
  match from, to, amount with
  | None, None, None => Ok (RandomRoute wallet_bps order_type asset_type)
  | Some from, Some to, amount => Ok (ExplicitRoute from to amount wallet_bps order_type asset_type)
  | None, None, Some _ => bail "--amount requires --from and --to"
  | _, _, _ => bail "--from and --to must be provided together"
  end.

Record RouteDiscovery : Type := mkDiscovery { di_chains : gmap string ChainRuntime; di_assets : list WalletAsset }.

(** ** Configuration (client.rs, intents.rs, config.rs) *)

Definition rfq_environment (n : Network) : result string :=
  match n with
  | DevnetAmplifier => Ok "https://devnet.api.axelar.network/rfq/v1"
  | Testnet => Ok "https://testnet.api.axelar.network/rfq/v1"
  | Mainnet => Ok "https://api.axelar.network/rfq/v1"
  | Stagenet => bail "Axelar RFQ has no stagenet endpoint; use devnet-amplifier, testnet, or mainnet"
  end.

(** [ChainsConfig::retain_chains]. *)
Definition allowed_chain (allowed : list string) (key : string) (chain : ChainConfig) : bool :=
  existsb (fun a => same_text a key || same_text a (default key (cc_axelar_id chain))) allowed.
Definition retain_chains (allowed : list string) (config : ChainsConfig) : ChainsConfig :=
  if bool_decide (allowed = []) then config
  else mkChainsConfig (filter (fun kc => allowed_chain allowed kc.1 kc.2 = true) (cfg_chains config)) (cfg_axelar config).

Section Config.
Context `{EvmLib, ConfigLib, IntentLib}.

Definition normalize_base_url (value : string) : result string :=
  let value := trim_slashes (trim value) in
  '(scheme, extra) ← ok_or (url_parts value) "INTENTS_API_URL must be an absolute HTTP or HTTPS URL";
  _ ← ensure_ok (bool_decide (scheme = "http") || bool_decide (scheme = "https")) "INTENTS_API_URL must use HTTP or HTTPS";
  _ ← ensure_ok (negb extra) "INTENTS_API_URL must not contain a query or fragment";
  Ok value.

(** [RfqClient::new], by its base URL. *)
Definition rfq_client (network : Network) (base_url : option string) : result string :=
  match base_url with
  | Some url => if bool_decide (trim url = "") then rfq_environment network else normalize_base_url url
  | None => rfq_environment network
  end.

Definition resolve_private_key (override_key evm_private_key default_private_key : option string) : result string :=
  ok_or (List.find (fun key => negb (bool_decide (trim key = "")))
           (omap id [override_key; evm_private_key; default_private_key]))
    "intent execution needs an EVM signing key".

Definition resolve_quote_sender (sender : option Address) (private_key : option string) : result Address :=
  match sender, private_key with
  | Some sender, _ => Ok sender
  | None, None => Ok 0
  | None, Some key => ok_or (signer_address key) "EVM_PRIVATE_KEY is not a valid hex private key"
  end.

(** [IntentRuntime::knows_evm_chain] and [check_named_route]. *)
Definition knows_evm_chain (config : ChainsConfig) (caip2 : string) : option bool :=
  reference ← strip_prefix "eip155:" caip2;
  chain_id ← parse_uint 64 reference;
  Some (existsb (fun kc => bool_decide (cc_evm_chain_id kc.2 = Some chain_id)) (map_to_list (cfg_chains config))).

Definition check_named_route (rt : IntentRuntime) (route : RouteChoice) : result () :=
  match route with
  | RandomRoute _ _ _ => Ok ()
  | ExplicitRoute from to _ _ _ _ =>
      if bool_decide (ir_allowed_chains rt = []) then Ok ()
      else ensure_ok (forallb (fun id => negb (bool_decide (knows_evm_chain (ir_config rt) (ai_chain_id id) = Some false)))
                        [from; to]) "chain is not one of the chains this server may use"
  end.
End Config.

Section Programs.
Context {E : Type} `{PoolNode E, IntentNode E, EvmLib, CosmosAccounts, ConfigLib, IntentLib}.
Abbreviation D := (Desk E).
Variables (jittered : Z -> Z) (env_var : string -> option string).

(** ** Effects *)

Definition set_env (e : E) (s : D) : D := mkDesk e (dk_results s) (dk_stats s) (dk_trace s).
Definition consult {T} (f : E -> T * E) : M D T := fun s => let '(r, e) := f (dk_env s) in (Ok r, set_env e s).
Definition note (ev : intent_event) : M D () := modify (fun s =>
  mkDesk (dk_env s) (dk_results s) (dk_stats s) (dk_trace s ++ [ev])).
(** A program of the sender; what it put on the wire joins the trace. *)
Definition on_pool {T} (m : M (Pool E) T) : M D T := fun s =>
  let '(r, p) := m (mkPool (dk_env s) []) in
  (r, mkDesk (pl_env p) (dk_results s) (dk_stats s) (dk_trace s ++ map OnWire (reverse (pl_log p)))).
Definition instant : M D Z := s ← get; mret (now_ms (dk_env s)).
Definition wall_clock : M D Z := s ← get; mret (utc_now (dk_env s)).
Definition elapsed_ms (duration : Z) : Z := Z.min duration u64_max.
Definition push_result (r : LegResult) : M D () := modify (fun s =>
  mkDesk (dk_env s) (dk_results s ++ [r]) (dk_stats s) (dk_trace s)).
Definition fresh_results : M D () := modify (fun s => mkDesk (dk_env s) [] (dk_stats s) (dk_trace s)).
Definition update_stats (f : TrafficStats -> TrafficStats) : M D () := modify (fun s =>
  mkDesk (dk_env s) (dk_results s) (f (dk_stats s)) (dk_trace s)).
(** A [match] on the outcome of a call. *)
Definition trying {T} (m : M D T) : M D (result T) := fun s =>
  match m s with
  | (Err OutOfFuel, s) => (Err OutOfFuel, s)
  | (r, s) => (Ok r, s)
  end.

(** ** The RFQ service (client.rs) *)

Definition success (status : Z) : bool := (200 <=? status) && (status <=? 299).

Definition get_json {T} (answer : HttpAnswer T) : result T :=
  match answer with
  | NoResponse => bail "RFQ GET request failed"
  | Response status body =>
      _ ← ensure_ok (success status) "RFQ GET returned an HTTP error";
      ok_or body "RFQ response did not match the expected schema"
  end.

Definition rfq_chains (base : string) : M D (list ChainInfo) :=
  answer ← consult (get_chains (base +:+ "/chains")); lift (get_json answer).
Definition rfq_tokens (base : string) : M D (list TokenInfo) :=
  answer ← consult (get_tokens (base +:+ "/tokens?backend=intent")); lift (get_json answer).
Definition rfq_status (base quote_id : string) : M D StatusResponse :=
  answer ← consult (get_status (base +:+ "/status") quote_id); lift (get_json answer).

Definition rfq_quote (base : string) (request : QuoteRequest) : M D QuoteOutcome :=
  started ← instant;
  answer ← consult (post_quote (base +:+ "/quote") request);
  match answer with
  | NoResponse => throw (Failed "RFQ POST request failed")
  | Response status body =>
      if status =? 422 then mret (Unavailable "")
      else
        ensure (success status) "RFQ POST returned an HTTP error";;
        quotes ← lift (ok_or body "RFQ quote response did not match the expected schema");
        match List.find (fun q => bool_decide (be_kind (qu_backend q) = IntentBackend)) quotes with
        | None => mret (Unavailable "no intent quote returned")
        | Some q => finished ← instant; mret (Available (mkTimedQuote q (finished - started)))
        end
  end.

(** ** Discovery (route.rs) *)

(** [IntentRpcOverride]. *)
Definition rpc_override (chain_id : Z) : option string :=
  name ← (if chain_id =? 11155111 then Some "SEP_RPC_URL"
          else if chain_id =? 421614 then Some "ARB_SEPOLIA_RPC_URL"
          else if chain_id =? 84532 then Some "BASE_SEPOLIA_RPC_URL"
          else if chain_id =? 43113 then Some "FUJI_RPC_URL"
          else None);
  url ← env_var name;
  if bool_decide (trim url = "") then None else Some url.

(** ASCII letters and digits, in lower case. *)
Definition is_alphanumeric (c : Ascii.ascii) : bool := is_alphabetic c || bool_decide (is_Some (digit_value c)).
Fixpoint keep_alphanumeric (s : string) : string :=
  match s with
  | String.EmptyString => ""
  | String.String c s => if is_alphanumeric c then String.String c (keep_alphanumeric s) else keep_alphanumeric s
  end.
Definition normalize_chain_name (value : string) : string := to_lowercase (keep_alphanumeric value).

Definition label_match (label : string) (kc : string * ChainConfig) : bool :=
  existsb (fun candidate => bool_decide (normalize_chain_name candidate = normalize_chain_name label))
    [kc.1; default "" (cc_name kc.2); default "" (cc_axelar_id kc.2)].
(** The sort key: matching labels first, then by name. *)
Definition candidate_le (label : string) (a b : string * ChainConfig) : Prop :=
  match label_match label a, label_match label b with
  | true, false => True
  | false, true => False
  | _, _ => String.leb a.1 b.1 = true
  end.
#[local] Instance candidate_le_dec label a b : Decision (candidate_le label a b).
Proof. unfold candidate_le. destruct (label_match label a), (label_match label b); apply _. Defined.

Definition evm_chain_candidates (config : ChainsConfig) (chain_id : Z) (label : string) : list (string * ChainConfig) :=
  merge_sort (candidate_le label)
    (List.filter (fun kc => bool_decide (cc_evm_chain_id kc.2 = Some chain_id)) (map_to_list (cfg_chains config))).

Definition intent_rpc_candidates (configured : list (string * ChainConfig)) (override : option string) : list string :=
  match override with Some url => [url] | None => [] end ++ omap (fun kc => cc_rpc kc.2) configured.

Definition validate_rpc_candidate (expected_chain_id : Z) (rpc_url : string) : M D (option string) :=
  match connect valid_url [rpc_url] with
  | Err _ => mret None
  | Ok _ =>
      answer ← consult (node_chain_id rpc_url);
      mret (match answer with
            | inr actual => if actual =? expected_chain_id then Some rpc_url else None
            | inl _ => None
            end)
  end.

Definition first_working_rpc (expected_chain_id : Z) (candidates : list (string * ChainConfig)) : M D (option string) :=
  first_some (validate_rpc_candidate expected_chain_id)
    (intent_rpc_candidates candidates (rpc_override expected_chain_id)).

(** One chain of the catalog. *)
Definition resolve_chain (config : ChainsConfig) (chain : ChainInfo) : M D (option ChainRuntime) :=
  match strip_prefix "eip155:" (ci_chain_id chain) ≫= parse_uint 64 with
  | None => mret None
  | Some chain_id =>
      match evm_chain_candidates config chain_id (ci_chain_label chain) with
      | [] => mret None
      | candidates =>
          url ← first_working_rpc chain_id candidates;
          mret (mkChainRuntime (ci_chain_label chain) <$> url)
      end
  end.

Fixpoint resolve_evm_chains (config : ChainsConfig) (catalog : list ChainInfo) (resolved : gmap string ChainRuntime)
    : M D (gmap string ChainRuntime) :=
  match catalog with
  | [] => mret resolved
  | chain :: catalog =>
      if bool_decide (ci_chain_type chain = "evm") then
        runtime ← resolve_chain config chain;
        resolve_evm_chains config catalog
          (match runtime with Some r => <[ci_chain_id chain := r]> resolved | None => resolved end)
      else resolve_evm_chains config catalog resolved
  end.

(** A view call at the one endpoint of a chain, with the retries of
    [retry_with_fallback_all]. *)
Definition view {T} (rpc_url : string) (f : string -> E -> (string + T) * E) : M D T :=
  pool ← lift (connect valid_url [rpc_url]);
  on_pool (falling_back jittered (fun _ => true) pool (fun url => ask (f url))).

Definition read_asset_balance (chain : ChainRuntime) (asset : WalletAsset) (wallet : Address) : M D Z :=
  if wa_native asset then view (cr_rpc_url chain) (fun url => native_balance url wallet)
  else
    lift (connect valid_url [cr_rpc_url chain]);;
    token ← lift (ok_or (parse_address (ai_token_address (wa_id asset))) "invalid EVM token address");
    view (cr_rpc_url chain) (fun url => token_balance url token wallet).

Definition token_asset (chain : ChainRuntime) (token : TokenInfo) (balance : Z) : WalletAsset :=
  mkAsset (mkAssetId (ti_chain_id token) (ti_address token)) (cr_label chain) (ti_symbol token) (ti_decimals token) balance
    (is_native_token (ti_address token)).

Fixpoint read_wallet_assets (chains : gmap string ChainRuntime) (tokens : list TokenInfo) (wallet : Address)
    : M D (list WalletAsset) :=
  match tokens with
  | [] => mret []
  | token :: tokens =>
      match chains !! ti_chain_id token with
      | None => read_wallet_assets chains tokens wallet
      | Some chain =>
          balance ← trying (read_asset_balance chain (token_asset chain token 0) wallet);
          assets ← read_wallet_assets chains tokens wallet;
          mret (match balance with Ok balance => token_asset chain token balance :: assets | Err _ => assets end)
      end
  end.

Definition discover_wallet (base : string) (config : ChainsConfig) (wallet : Address) : M D RouteDiscovery :=
  catalog_chains ← rfq_chains base;
  catalog_tokens ← rfq_tokens base;
  chains ← resolve_evm_chains config catalog_chains ∅;
  assets ← read_wallet_assets chains catalog_tokens wallet;
  ensure (negb (bool_decide (length assets = 0%nat)))
    "RFQ catalog has no EVM tokens whose chains resolve through the axe config";;
  mret (mkDiscovery chains assets).

(** ** Planning (route.rs) *)

Definition preflight_leg (base : string) (from to : WalletAsset) (sender recipient : Address) (order_type : OrderType)
    (requested_amount : Z) : M D (option LegPlan) :=
  let request := quote_request from to sender recipient order_type requested_amount in
  outcome ← rfq_quote base request;
  match outcome with
  | Unavailable _ => mret None
  | Available quote =>
      let q := tq_quote quote in
      lift (validate_quote q from to order_type requested_amount);;
      input_amount ← lift (parse_amount (qi_amount (qu_input q)));
      expected_output ← lift (parse_amount (qo_amount (qu_output q)));
      settlement_contract ← lift (validate_quote_actions q from input_amount);
      mret (Some (mkLegPlan from to order_type requested_amount input_amount expected_output (elapsed_ms (tq_latency quote))
                    settlement_contract request quote))
  end.

Record ForwardPreflight : Type := mkForward {
  fp_requested : Z;
  fp_input : Z;
  fp_output : Z;
  fp_quote_ms : Z;
  fp_settlement_contract : Address
}.

Fixpoint preflight_forward (attempts : nat) (base : string) (from to : WalletAsset) (signer : Address) (order_type : OrderType)
    (requested : Z) (input_budget : RoundTripInputBudget) : M D (option ForwardPreflight) :=
  match attempts with
  | O => mret None
  | S attempts =>
      outcome ← rfq_quote base (quote_request from to signer signer order_type requested);
      match outcome with
      | Unavailable _ => mret None
      | Available quote =>
          let q := tq_quote quote in
          lift (validate_quote_route q (wa_id from) (wa_id to) order_type requested);;
          input ← lift (parse_amount (qi_amount (qu_input q)));
          if forward_input_is_within_budget input input_budget then
            lift (validate_quote q from to order_type requested);;
            settlement_contract ← lift (validate_quote_actions q from input);
            output ← lift (parse_amount (qo_amount (qu_output q)));
            mret (Some (mkForward requested input output (elapsed_ms (tq_latency quote)) settlement_contract))
          else if negb (bool_decide (order_type = ExactOutput)) then mret None
          else
            match forward_input_limit input_budget ≫= calibrate_exact_output requested input with
            | None => mret None
            | Some adjusted => preflight_forward attempts base from to signer order_type adjusted input_budget
            end
      end
  end.

Definition preflight_pair (base : string) (from to : WalletAsset) (signer : Address) (order_type : OrderType)
    (requested_amount : Z) (input_budget : RoundTripInputBudget) : M D (option RoutePlan) :=
  forward ← preflight_forward EXACT_OUTPUT_CALIBRATION_ATTEMPTS base from to signer order_type requested_amount input_budget;
  match forward with
  | None => mret None
  | Some forward =>
      let reverse_amount := match order_type with ExactInput => fp_output forward | ExactOutput => fp_input forward end in
      outcome ← rfq_quote base (quote_request to from signer signer order_type reverse_amount);
      match outcome with
      | Unavailable _ => mret None
      | Available reverse =>
          let q := tq_quote reverse in
          reverse_source ← lift (with_received_balance to (fp_output forward));
          lift (validate_quote q reverse_source from order_type reverse_amount);;
          reverse_input ← lift (parse_amount (qi_amount (qu_input q)));
          if negb (reverse_input_is_within_budget reverse_input (fp_output forward) input_budget) then mret None
          else
            expected_return ← lift (parse_amount (qo_amount (qu_output q)));
            reverse_settlement_contract ← lift (validate_quote_actions q reverse_source reverse_input);
            mret (Some (mkRoutePlan from to order_type (fp_requested forward) (fp_input forward) expected_return
                          (fp_quote_ms forward) (elapsed_ms (tq_latency reverse)) input_budget
                          (fp_settlement_contract forward) reverse_settlement_contract))
      end
  end.

(** The first pair with a plan; an error of one pair is passed over. *)
Fixpoint first_plan {P T} (f : P -> M D (option T)) (pairs : list P) : M D (option T) :=
  match pairs with
  | [] => mret None
  | p :: pairs =>
      plan ← trying (f p);
      match plan with
      | Ok (Some plan) => mret (Some plan)
      | _ => first_plan f pairs
      end
  end.

Definition random_send_plan (base : string) (di : RouteDiscovery) (signer recipient : Address) (t : AssetType) (wallet_bps : Z)
    (order_type : OrderType) : M D LegPlan :=
  pairs ← consult (shuffle (directed_cross_chain_pairs (di_assets di) t));
  plan ← first_plan (fun '(from, to) =>
    if negb (is_ok (ensure_source_ready (di_assets di) from)) then mret None
    else match candidate_quote_amount from to order_type wallet_bps with
         | None => mret None
         | Some amount => preflight_leg base from to signer recipient order_type amount
         end) pairs;
  lift (ok_or plan "No route is both funded and quoted").

Definition random_roundtrip_plan (base : string) (di : RouteDiscovery) (signer : Address) (t : AssetType) (wallet_bps : Z)
    (order_type : OrderType) : M D RoutePlan :=
  pairs ← consult (shuffle (directed_cross_chain_pairs (di_assets di) t));
  plan ← first_plan (fun '(from, to) =>
    if negb (is_ok (ensure_roundtrip_ready (di_assets di) from to)) then mret None
    else match candidate_quote_amount from to order_type wallet_bps, capped_input_budget from to wallet_bps with
         | Some amount, Some input_budget => preflight_pair base from to signer order_type amount input_budget
         | _, _ => mret None
         end) pairs;
  lift (ok_or plan "No round-trip route is both funded and quoted").

Definition plan_send (base : string) (di : RouteDiscovery) (signer recipient : Address) (choice : RouteChoice) : M D LegPlan :=
  match choice with
  | RandomRoute wallet_bps order_type t => random_send_plan base di signer recipient t wallet_bps order_type
  | ExplicitRoute from to amount wallet_bps order_type t =>
      '(from, to) ← lift (explicit_assets (di_assets di) from to t);
      lift (ensure_source_ready (di_assets di) from);;
      amount ← lift (selected_amount from to order_type amount wallet_bps);
      plan ← preflight_leg base from to signer recipient order_type amount;
      lift (ok_or plan "the solver returned no quote for the explicit route")
  end.

Definition plan_roundtrip (base : string) (di : RouteDiscovery) (signer : Address) (choice : RouteChoice) : M D RoutePlan :=
  match choice with
  | RandomRoute wallet_bps order_type t => random_roundtrip_plan base di signer t wallet_bps order_type
  | ExplicitRoute from to amount wallet_bps order_type t =>
      '(from, to) ← lift (explicit_assets (di_assets di) from to t);
      lift (ensure_roundtrip_ready (di_assets di) from to);;
      input_budget ← lift (match amount with
                           | Some _ => Ok SpendableBalance
                           | None => ok_or (capped_input_budget from to wallet_bps) "no balance after the gas reserve"
                           end);
      amount ← lift (selected_amount from to order_type amount wallet_bps);
      plan ← preflight_pair base from to signer order_type amount input_budget;
      lift (ok_or plan "the solver returned no bidirectional quote for the route")
  end.

(** The loop of [plan_sweep]; [seen] has the pairs that were looked at. *)
Fixpoint sweep_plans (base : string) (di : RouteDiscovery) (signer : Address) (wallet_bps : Z) (order_type : OrderType)
    (pairs : list (WalletAsset * WalletAsset)) (seen : list (string * string)) : M D (list RoutePlan) :=
  match pairs with
  | [] => mret []
  | (one, other) :: pairs =>
      let '(from, to) := choose_start one other in
      let key := canonical_pair (wa_id from) (wa_id to) in
      let rest := sweep_plans base di signer wallet_bps order_type pairs (key :: seen) in
      if bool_decide (key ∈ seen) || is_zero (wa_balance from) then rest
      else
        match candidate_quote_amount from to order_type wallet_bps, capped_input_budget from to wallet_bps with
        | Some amount, Some input_budget =>
            if negb (chains_have_gas (di_assets di) (ai_chain_id (wa_id from)) (ai_chain_id (wa_id to))) then rest
            else
              plan ← trying (preflight_pair base from to signer order_type amount input_budget);
              plans ← rest;
              mret (match plan with Ok (Some plan) => plan :: plans | _ => plans end)
        | _, _ => rest
        end
  end.

Definition plan_sweep (base : string) (di : RouteDiscovery) (signer : Address) (t : AssetType) (wallet_bps : Z)
    (order_type : OrderType) : M D (list RoutePlan) :=
  sweep_plans base di signer wallet_bps order_type (unordered_cross_chain_pairs (di_assets di) t) [].

(** ** Execution (execution.rs) *)

Definition RECEIPT_TIMEOUT : Z := 90000.
Definition MIN_QUOTE_LIFETIME : Z := 10000.
(** Polls of a receipt wait, two seconds apart. *)
Definition RECEIPT_FUEL : nat := 46.

(** [quote_expires_in]: no time once the quote has expired. *)
Definition validate_quote_lifetime (q : Quote) : M D () :=
  now ← wall_clock;
  ensure (MIN_QUOTE_LIFETIME <=? Z.max 0 (va_quote_expires_at (qu_validity q) - now)) "quote has too little validity remaining".

Definition require_quote (base : string) (request : QuoteRequest) : M D TimedQuote :=
  outcome ← rfq_quote base request;
  match outcome with
  | Available quote => mret quote
  | Unavailable _ => throw (Failed "intent quote unavailable")
  end.

Definition quote_for_execution (base : string) (sender : Address) (leg : LegExecution) : M D (TimedQuote * Z) :=
  selected ← require_quote base
    (quote_request (le_from leg) (le_to leg) sender (le_recipient leg) (le_order_type leg) (le_amount leg));
  let q := tq_quote selected in
  lift (validate_quote q (le_from leg) (le_to leg) (le_order_type leg) (le_amount leg));;
  validate_quote_lifetime q;;
  input_amount ← lift (parse_amount (qi_amount (qu_input q)));
  lift (validate_input_limit input_amount (le_max_input_amount leg));;
  settlement ← lift (validate_quote_actions q (le_from leg) input_amount);
  ensure (settlement =? le_settlement_contract leg) "intent quote changed its settlement contract";;
  mret (selected, input_amount).

(** Each action in turn; the hash of the last one. *)
Fixpoint send_actions (pool : list string) (signer : string) (wallet : Address) (source : WalletAsset) (actions : list Action)
    (label : string) (last_hash : option B256) : M D (option B256) :=
  match actions with
  | [] => mret last_hash
  | a :: actions =>
      request ← lift (action_request a wallet (ai_chain_id (wa_id source)));
      note (Handed label request);;
      receipt ← on_pool (send_tx_robust jittered RECEIPT_FUEL pool signer request RECEIPT_TIMEOUT);
      ensure (status receipt) "action reverted";;
      send_actions pool signer wallet source actions label (Some (transaction_hash receipt))
  end.

Definition chain_endpoints (chains : gmap string ChainRuntime) (source : WalletAsset) : result (list string) :=
  chain ← ok_or (chains !! ai_chain_id (wa_id source)) "no RPC resolved";
  connect valid_url [cr_rpc_url chain].

Definition execute_actions (chains : gmap string ChainRuntime) (signer : string) (wallet : Address) (source : WalletAsset)
    (actions : list Action) (label : string) : M D (option B256) :=
  pool ← lift (chain_endpoints chains source);
  send_actions pool signer wallet source actions label None.

Fixpoint approvals_below (pool : list string) (wallet token : Address) (source : WalletAsset) (actions : list Action)
    (amount : Z) (approval_amount : option Z) : M D (list Action) :=
  match actions with
  | [] => mret []
  | a :: actions =>
      requirement ← lift (approval_requirement a source amount);
      allowance ← map_err (Failed "could not read intent token allowance")
        (on_pool (falling_back jittered (fun _ => true) pool
           (fun url => ask (token_allowance url token wallet (ap_spender requirement)))));
      let needed := default (ap_amount requirement) approval_amount in
      ensure (ap_amount requirement <=? needed) "approval cap is below the quoted input";;
      this ← lift (if allowance <? needed then (fun x => [x]) <$> approval_action a requirement needed else Ok []);
      rest ← approvals_below pool wallet token source actions amount approval_amount;
      mret (this ++ rest)
  end.

Definition required_approvals (chains : gmap string ChainRuntime) (wallet : Address) (source : WalletAsset)
    (actions : list Action) (amount : Z) (approval_amount : option Z) : M D (list Action) :=
  pool ← lift (chain_endpoints chains source);
  token ← lift (ok_or (parse_address (ai_token_address (wa_id source))) "source token has an invalid EVM address");
  approvals_below pool wallet token source actions amount approval_amount.

Definition APPROVAL_LABEL : string := "intent approval".
Definition DEPOSIT_LABEL : string := "intent deposit".

Definition ensure_input_approval (chains : gmap string ChainRuntime) (signer : string) (wallet : Address)
    (source : WalletAsset) (selected : TimedQuote) (input_amount : Z) : M D () :=
  match of_kind Approval (tq_quote selected) with
  | [] => mret ()
  | approvals =>
      required ← required_approvals chains wallet source approvals input_amount None;
      match required with
      | [] => mret ()
      | _ =>
          execute_actions chains signer wallet source required APPROVAL_LABEL;;
          validate_quote_lifetime (tq_quote selected)
      end
  end.

Record SubmittedIntent : Type := mkSubmitted {
  su_from : WalletAsset;
  su_to : WalletAsset;
  su_selected : TimedQuote;
  su_input_amount : Z;
  su_started : Z;
  su_deposit_confirmation_latency_ms : Z
}.

Definition submit_selected_leg (chains : gmap string ChainRuntime) (signer : string) (wallet : Address)
    (from to : WalletAsset) (selected : TimedQuote) (input_amount started : Z) : M D SubmittedIntent :=
  ensure_input_approval chains signer wallet from selected input_amount;;
  deposit ← lift (deposit_action (tq_quote selected) from input_amount);
  deposit_started ← instant;
  hash ← execute_actions chains signer wallet from [deposit] DEPOSIT_LABEL;
  lift (ok_or hash "intent quote had no deposit transaction");;
  deposited ← instant;
  mret (mkSubmitted from to selected input_amount started (elapsed_ms (deposited - deposit_started))).

Definition submit_leg (base : string) (chains : gmap string ChainRuntime) (signer : string) (wallet : Address)
    (leg : LegExecution) : M D SubmittedIntent :=
  started ← instant;
  '(selected, input_amount) ← quote_for_execution base wallet leg;
  submit_selected_leg chains signer wallet (le_from leg) (le_to leg) selected input_amount started.

(** What remains of the fulfillment deadline, with half a minute more, at most
    the configured time. *)
Definition effective_timeout (q : Quote) (configured now : Z) : Z :=
  match va_fulfillment_deadline (qu_validity q) with
  | Some deadline => if now <=? deadline then Z.min (deadline - now + 30000) configured else configured
  | None => configured
  end.

(** One look at the status: the output, or the refund that was checked last. *)
Definition look_at_status (base : string) (q : Quote) (expected_output : WalletAsset) (refund_tx : option string)
    : M D (StatusOutput + option string) :=
  answer ← trying (rfq_status base (qu_quote_id q));
  match answer with
  | Err _ => mret (inr refund_tx)
  | Ok status =>
      ensure (bool_decide (st_quote_id status = qu_quote_id q)) "RFQ status returned a different quote ID";;
      refund_tx ← match st_refund status with
                  | Some refund =>
                      if bool_decide (refund_tx = Some (re_tx_hash refund)) then mret refund_tx
                      else lift (validate_refund refund q);; mret (Some (re_tx_hash refund))
                  | None => mret refund_tx
                  end;
      match st_state status with
      | DoneTransfer =>
          output ← lift (ok_or (st_output status) "DONE status omitted output");
          lift (validate_status_output output expected_output q);;
          mret (inl output)
      | RefundedTransfer => throw (Failed "intent was refunded")
      | FailedTransfer => throw (Failed "intent failed")
      | AwaitingDeposit | PendingTransfer | NotFound => mret (inr refund_tx)
      end
  end.

(** The loop of [wait_for_fulfillment]. *)
Fixpoint fulfillment_loop (fuel : nat) (base : string) (q : Quote) (expected_output : WalletAsset) (poll deadline : Z)
    (refund_tx : option string) : M D StatusOutput :=
  match fuel with
  | O => throw OutOfFuel
  | S fuel =>
      seen ← look_at_status base q expected_output refund_tx;
      match seen with
      | inl output => mret output
      | inr refund_tx =>
          now ← instant;
          if deadline <=? now then throw (Failed "intent did not fulfill before timeout")
          else
            modify (fun s => set_env (nap_ms poll (dk_env s)) s);;
            fulfillment_loop fuel base q expected_output poll deadline refund_tx
      end
  end.

(** A round sleeps [poll] milliseconds and starts before the deadline. *)
Definition wait_for_fulfillment (base : string) (q : Quote) (expected_output : WalletAsset) (limits : RunLimits)
    : M D StatusOutput :=
  start ← instant;
  now ← wall_clock;
  let timeout := effective_timeout q (li_fulfillment_timeout limits) now in
  fulfillment_loop (S (S (Z.to_nat (timeout / li_poll_interval limits)))) base q expected_output (li_poll_interval limits)
    (start + timeout) None.

Definition finish_submitted_intent (base : string) (submitted : SubmittedIntent) (limits : RunLimits) : M D LegResult :=
  fulfillment_started ← instant;
  output ← wait_for_fulfillment base (tq_quote (su_selected submitted)) (su_to submitted) limits;
  finished ← instant;
  output_amount ← lift (parse_amount (so_amount output));
  mret (mkLegResult (su_input_amount submitted) output_amount (elapsed_ms (tq_latency (su_selected submitted)))
          (su_deposit_confirmation_latency_ms submitted) (elapsed_ms (finished - fulfillment_started))
          (elapsed_ms (finished - su_started submitted))).

Definition execute_leg (base : string) (chains : gmap string ChainRuntime) (signer : string) (wallet : Address)
    (leg : LegExecution) (limits : RunLimits) : M D LegResult :=
  submitted ← submit_leg base chains signer wallet leg;
  finish_submitted_intent base submitted limits.

Definition execute_planned_leg (base : string) (chains : gmap string ChainRuntime) (signer : string) (wallet : Address)
    (plan : LegPlan) (limits : RunLimits) : M D LegResult :=
  let q := tq_quote (lp_quote plan) in
  lift (validate_quote q (lp_from plan) (lp_to plan) (lp_order_type plan) (lp_requested_amount plan));;
  validate_quote_lifetime q;;
  input_amount ← lift (parse_amount (qi_amount (qu_input q)));
  lift (validate_input_limit input_amount None);;
  settlement ← lift (validate_quote_actions q (lp_from plan) input_amount);
  ensure (settlement =? lp_settlement_contract plan) "intent quote changed its settlement contract";;
  started ← instant;
  submitted ← submit_selected_leg chains signer wallet (lp_from plan) (lp_to plan) (lp_quote plan) input_amount started;
  finish_submitted_intent base submitted limits.

(** The two legs of a round trip. *)
Definition forward_leg (wallet : Address) (plan : RoutePlan) : LegExecution :=
  mkLeg (rp_from plan) (rp_to plan) (rp_order_type plan) (rp_requested_amount plan) wallet
    (forward_input_limit (rp_input_budget plan)) (rp_forward_settlement_contract plan).

Definition reverse_leg (wallet : Address) (plan : RoutePlan) (forward : LegResult) : result LegExecution :=
  let reverse_amount := match rp_order_type plan with
                        | ExactInput => lr_output_amount forward
                        | ExactOutput => lr_input_amount forward
                        end in
  reverse_source ← with_received_balance (rp_to plan) (lr_output_amount forward);
  reverse_input_limit ← match rp_input_budget plan with
                        | SpendableBalance => Ok None
                        | Capped _ reverse_top_up =>
                            Some <$> ok_or (checked_add 256 (lr_output_amount forward) reverse_top_up) "input limit overflowed"
                        end;
  Ok (mkLeg reverse_source (rp_from plan) (rp_order_type plan) reverse_amount wallet reverse_input_limit
        (rp_reverse_settlement_contract plan)).

Definition execute_round_trip (base : string) (chains : gmap string ChainRuntime) (signer : string) (wallet : Address)
    (plan : RoutePlan) (limits : RunLimits) : M D () :=
  forward ← execute_leg base chains signer wallet (forward_leg wallet plan) limits;
  reverse ← lift (reverse_leg wallet plan forward);
  push_result forward;;
  result ← execute_leg base chains signer wallet reverse limits;
  push_result result.

(** ** Commands (intents.rs, traffic.rs) *)

Definition prepare_runtime (args : IntentRuntimeArgs) : M D IntentRuntime :=
  wallet ← lift (ok_or (signer_address (ia_private_key args)) "intent EVM private key is not valid hex");
  file ← consult (config_file (ia_config args));
  config ← lift (ok_or (file ≫= chains_config) "invalid chains config");
  base ← lift (rfq_client (ia_network args) (ia_rfq_url args));
  mret (mkRuntime (ia_private_key args) wallet (retain_chains (ia_allowed_chains args) config) base
          (mkRunLimits (1000 * ia_poll_interval_secs args) (1000 * ia_fulfillment_timeout_secs args)) (ia_yes args)
          (ia_allowed_chains args)).

Definition prompt_operator (prompt : string) : M D bool :=
  yes ← consult (consent prompt); note (Consented prompt yes);; mret yes.

Definition confirm_execution (auto_confirm : bool) (prompt : string) : M D () :=
  if auto_confirm then mret ()
  else yes ← prompt_operator prompt; ensure yes "execution not confirmed; pass --yes for non-interactive runs".

Definition acquire_lock (wallet : Address) : M D () :=
  free ← consult (wallet_lock wallet); ensure free "another axe intent execution command is using the wallet".

Definition discover (rt : IntentRuntime) (wallet : Address) : M D RouteDiscovery :=
  discover_wallet (ir_base_url rt) (ir_config rt) wallet.

Definition quote (args : IntentRuntimeArgs) (route : RouteChoice) (sender recipient : option Address) (json : bool)
    : M D (option LegResult) :=
  rt ← prepare_runtime args;
  lift (check_named_route rt route);;
  let sender := default (ir_wallet rt) sender in
  di ← discover rt sender;
  plan ← plan_send (ir_base_url rt) di sender (default sender recipient) route;
  if json || negb (sender =? ir_wallet rt) then mret None
  else
    yes ← prompt_operator "Deposit this quote and watch it to fulfillment?";
    if negb yes then mret None
    else
      acquire_lock (ir_wallet rt);;
      result ← execute_planned_leg (ir_base_url rt) (di_chains di) (ir_signer rt) (ir_wallet rt) plan (ir_limits rt);
      mret (Some result).

Definition send (args : IntentRuntimeArgs) (route : RouteChoice) (recipient : option Address) : M D LegResult :=
  rt ← prepare_runtime args;
  lift (check_named_route rt route);;
  di ← discover rt (ir_wallet rt);
  plan ← plan_send (ir_base_url rt) di (ir_wallet rt) (default (ir_wallet rt) recipient) route;
  confirm_execution (ir_auto_confirm rt) "Execute this intent?";;
  acquire_lock (ir_wallet rt);;
  execute_planned_leg (ir_base_url rt) (di_chains di) (ir_signer rt) (ir_wallet rt) plan (ir_limits rt).

Definition roundtrip (args : IntentRuntimeArgs) (route : RouteChoice) : M D (list LegResult) :=
  rt ← prepare_runtime args;
  lift (check_named_route rt route);;
  di ← discover rt (ir_wallet rt);
  plan ← plan_roundtrip (ir_base_url rt) di (ir_wallet rt) route;
  acquire_lock (ir_wallet rt);;
  fresh_results;;
  execute_round_trip (ir_base_url rt) (di_chains di) (ir_signer rt) (ir_wallet rt) plan (ir_limits rt);;
  s ← get;
  mret (dk_results s).

(** *** Sweeps *)

Record SweepArgs : Type := mkSweepArgs {
  sw_runtime : IntentRuntimeArgs;
  sw_sweeps : Z;
  sw_continuous : bool;
  sw_dry_run : bool;
  sw_wallet_bps : Z;
  sw_order_type : OrderType;
  sw_asset_type : AssetType;
  sw_max_intents : option Z
}.

Definition would_exceed (max_intents : option Z) (so_far next : Z) : bool :=
  match max_intents with Some max => max <? Z.min (so_far + next) u64_max | None => false end.

(** [false] when an interrupt stopped the pass. *)
Fixpoint execute_sweep_pass (rt : IntentRuntime) (di : RouteDiscovery) (plans : list RoutePlan) : M D bool :=
  match plans with
  | [] => mret true
  | plan :: plans =>
      stop ← consult interrupted;
      if (stop : bool) then mret false
      else
        execute_round_trip (ir_base_url rt) (di_chains di) (ir_signer rt) (ir_wallet rt) plan (ir_limits rt);;
        execute_sweep_pass rt di plans
  end.

Definition swept : M D (list LegResult) := s ← get; mret (dk_results s).

Fixpoint sweep_loop (fuel : nat) (args : SweepArgs) (rt : IntentRuntime) (planned_intents sweep : Z) : M D (list LegResult) :=
  match fuel with
  | O => throw OutOfFuel
  | S fuel =>
      let sweep := sweep + 1 in
      di ← discover rt (ir_wallet rt);
      plans ← plan_sweep (ir_base_url rt) di (ir_wallet rt) (sw_asset_type args) (sw_wallet_bps args) (sw_order_type args);
      ensure (negb (bool_decide (length plans = 0%nat))) "No round-trip routes are funded and quoted";;
      if sw_dry_run args then swept
      else
        let pass_intents := Z.of_nat (length plans) * 2 in
        if would_exceed (sw_max_intents args) planned_intents pass_intents then swept
        else
          let planned_intents := planned_intents + pass_intents in
          completed ← execute_sweep_pass rt di plans;
          if negb completed then swept
          else if negb (sw_continuous args) && (sw_sweeps args <=? sweep) then swept
          else
            stop ← consult interrupted;
            if (stop : bool) then swept else sweep_loop fuel args rt planned_intents sweep
  end.

Definition sweep (fuel : nat) (args : SweepArgs) : M D (list LegResult) :=
  rt ← prepare_runtime (sw_runtime args);
  (if sw_dry_run args then mret () else acquire_lock (ir_wallet rt));;
  fresh_results;;
  sweep_loop fuel args rt 0 0.

(** *** Traffic *)

Definition RETRY_DELAY : Z := 5000.
Definition INTENTS_PER_ROUND_TRIP : Z := 2.

Record TrafficArgs : Type := mkTrafficArgs {
  ta_runtime : IntentRuntimeArgs;
  ta_wallet_bps : Z;
  ta_asset_type : option AssetType;
  ta_duration : option Z;
  ta_max_intents : option Z
}.

Record TrafficBounds : Type := mkBounds { tb_max_intents : option Z; tb_deadline : option Z }.
Record TrafficSummary : Type := mkSummary { tm_intents : Z; tm_failures : Z; tm_stopped_by : string }.

(** [TrafficBounds::reached]. *)
Definition reached (bounds : TrafficBounds) (sent : Z) : M D (option string) :=
  now ← instant;
  mret (if match tb_max_intents bounds with
           | Some max => max <? Z.min (sent + INTENTS_PER_ROUND_TRIP) u64_max
           | None => false
           end then Some "intent limit"
        else if match tb_deadline bounds with Some deadline => deadline <=? now | None => false end then Some "duration"
        else None).

Definition TRAFFIC_MODES : list (AssetType * OrderType) :=
  [(Token, ExactInput); (Token, ExactOutput); (Native, ExactInput); (Native, ExactOutput)].
Definition traffic_modes (asset_type : option AssetType) : list (nat * (AssetType * OrderType)) :=
  List.filter (fun im => match asset_type with Some t => bool_decide (im.2.1 = t) | None => true end)
    (imap pair TRAFFIC_MODES).

(** [record_intents]. *)
Definition record_intents (results : list LegResult) (st : TrafficStats) : TrafficStats :=
  mkStats (Z.min (ts_intents st + Z.of_nat (length results)) u64_max) (ts_failures st)
    (foldl (fun acc r => Z.min (acc + lr_end_to_end_latency_ms r) u64_max) (ts_intent_latency_ms st) results)
    (ts_route_cursors st).
Definition next_cursor (mode : nat) (st : TrafficStats) : TrafficStats :=
  mkStats (ts_intents st) (ts_failures st) (ts_intent_latency_ms st)
    (alter (fun c => (c + 1) mod 2 ^ 64) mode (ts_route_cursors st)).
Definition add_failure (st : TrafficStats) : TrafficStats :=
  mkStats (ts_intents st) (ts_failures st + 1) (ts_intent_latency_ms st) (ts_route_cursors st).

Definition next_plan_index (cursor : Z) (available : nat) : nat := Z.to_nat (cursor mod Z.of_nat available).

Fixpoint run_modes (rt : IntentRuntime) (wallet_bps : Z) (bounds : TrafficBounds)
    (modes : list (nat * (AssetType * OrderType))) (found_routes : bool) : M D bool :=
  match modes with
  | [] => mret found_routes
  | (mode_index, (t, order_type)) :: modes =>
      stop ← consult interrupted;
      if (stop : bool) then mret found_routes
      else
        s ← get;
        limit ← reached bounds (ts_intents (dk_stats s));
        match limit with
        | Some _ => mret found_routes
        | None =>
            di ← discover rt (ir_wallet rt);
            plans ← plan_sweep (ir_base_url rt) di (ir_wallet rt) t wallet_bps order_type;
            stop ← consult interrupted;
            if (stop : bool) then mret true
            else
              s ← get;
              let cursor := default 0 (ts_route_cursors (dk_stats s) !! mode_index) in
              match plans !! next_plan_index cursor (length plans) with
              | None => run_modes rt wallet_bps bounds modes found_routes
              | Some plan =>
                  update_stats (next_cursor mode_index);;
                  fresh_results;;
                  outcome ← trying (execute_round_trip (ir_base_url rt) (di_chains di) (ir_signer rt) (ir_wallet rt) plan
                                      (ir_limits rt));
                  s ← get;
                  update_stats (record_intents (dk_results s));;
                  lift outcome;;
                  run_modes rt wallet_bps bounds modes true
              end
        end
  end.

Definition run_cycle (rt : IntentRuntime) (wallet_bps : Z) (asset_type : option AssetType) (bounds : TrafficBounds) : M D bool :=
  run_modes rt wallet_bps bounds (traffic_modes asset_type) false.

Definition wait_before_retry : M D () := modify (fun s => set_env (doze RETRY_DELAY (dk_env s)) s).

(** The loop has no bound of its own when nothing is quoted or sent. *)
Fixpoint traffic_loop (fuel : nat) (args : TrafficArgs) (rt : IntentRuntime) (bounds : TrafficBounds) : M D string :=
  match fuel with
  | O => throw OutOfFuel
  | S fuel =>
      stop ← consult interrupted;
      if (stop : bool) then mret "interrupted"
      else
        s ← get;
        limit ← reached bounds (ts_intents (dk_stats s));
        match limit with
        | Some reason => mret reason
        | None =>
            outcome ← trying (run_cycle rt (ta_wallet_bps args) (ta_asset_type args) bounds);
            match outcome with
            | Ok true => mret ()
            | Ok false => wait_before_retry
            | Err _ => update_stats add_failure;; wait_before_retry
            end;;
            traffic_loop fuel args rt bounds
        end
  end.

Definition traffic (fuel : nat) (args : TrafficArgs) : M D TrafficSummary :=
  rt ← prepare_runtime (ta_runtime args);
  acquire_lock (ir_wallet rt);;
  now ← instant;
  let bounds := mkBounds (ta_max_intents args) ((fun d => now + d) <$> ta_duration args) in
  update_stats (fun _ => mkStats 0 0 0 [0; 0; 0; 0]);;
  stopped_by ← traffic_loop fuel args rt bounds;
  s ← get;
  mret (mkSummary (ts_intents (dk_stats s)) (ts_failures (dk_stats s)) stopped_by).
End Programs.
