(* ===== verification/IntentSafety.v ===== *)
(** * Intents: what a leg sends

    What the programs of IntentRun add to the trace.  A leg sends an approval
    of the source token for the settlement contract of the plan and one deposit
    into it, no more, both from one quote that was offered for the leg and passed
    the checks, whatever the RFQ service and the nodes answer. *)

From S2P Require Import Prelude Types Retry Journal Chain Plan Config Target Json Cosmos LoadNet Propose ProposeFacts RobustSend SignedCalls Intents IntentRun.

(** ** Traces *)

(** The requests handed to the sender. *)
Definition handed (t : list intent_event) : list (string * TransactionRequest) :=
  omap (fun ev => match ev with Handed label rq => Some (label, rq) | _ => None end) t.

Section Traces.
Context {E : Type} `{PoolNode E, IntentNode E, EvmLib, CosmosAccounts, ConfigLib, IntentLib}.
Abbreviation D := (Desk E).

(** The program adds [t] to the trace and [rs] to the results, with [Q], and
    leaves the counters alone. *)
Definition leaves {T} (m : M D T) (Q : result T -> list intent_event -> list LegResult -> Prop) : Prop :=
  forall s, exists t rs, dk_trace (m s).2 = dk_trace s ++ t /\ dk_results (m s).2 = dk_results s ++ rs /\
    dk_stats (m s).2 = dk_stats s /\ Q (m s).1 t rs.

(** The program adds nothing, and what it returns satisfies [φ]. *)
Definition silently {T} (m : M D T) (φ : T -> Prop) : Prop :=
  leaves m (fun r t rs => t = [] /\ rs = [] /\ forall a, r = Ok a -> φ a).

Lemma leaves_weaken {T} (m : M D T) (Q Q' : result T -> list intent_event -> list LegResult -> Prop) :
  leaves m Q -> (forall r t rs, Q r t rs -> Q' r t rs) -> leaves m Q'.
Proof. intros Hm Hq s. destruct (Hm s) as (t & rs & ? & ? & ? & ?). exists t, rs. auto. Qed.

Lemma leaves_bind {T U} (m : M D T) (f : T -> M D U) Q R :
  leaves m Q -> (forall e t rs, Q (Err e) t rs -> R (Err e) t rs) ->
  (forall a t rs, Q (Ok a) t rs -> leaves (f a) (fun r t' rs' => R r (t ++ t') (rs ++ rs'))) -> leaves (m ≫= f) R.
Proof.
  intros Hm He Hf s. destruct (Hm s) as (t & rs & Ht & Hr & Hs & HQ). unfold mbind, M_bind.
  destruct (m s) as [[a|e] s1]; simpl in *; [|exists t, rs; auto].
  destruct (Hf a t rs HQ s1) as (t' & rs' & Ht' & Hr' & Hs' & HR). exists (t ++ t'), (rs ++ rs').
  by rewrite Ht', Hr', Hs', Ht, Hr, !app_assoc.
Qed.

(** After a silent program nothing is added yet. *)
Lemma leaves_after {T U} (m : M D T) (f : T -> M D U) (φ : T -> Prop) R :
  silently m φ -> (forall e, R (Err e) [] []) -> (forall a, φ a -> leaves (f a) R) -> leaves (m ≫= f) R.
Proof.
  intros Hm He Hf. eapply leaves_bind; [exact Hm|by intros e t rs (-> & -> & _)|].
  intros a t rs (-> & -> & Ha). apply Hf. auto.
Qed.

Lemma leaves_ret {T} (a : T) (Q : result T -> list intent_event -> list LegResult -> Prop) : Q (Ok a) [] [] -> leaves (mret a) Q.
Proof. intros HQ s. exists [], []. by rewrite !app_nil_r. Qed.

Lemma silently_ret {T} (a : T) (φ : T -> Prop) : φ a -> silently (mret a) φ.
Proof. intros Ha. apply leaves_ret. do 2 (split; [done|]). by intros ? [= <-]. Qed.
Lemma silently_lift {T} (r : result T) : silently (lift r) (fun a => r = Ok a).
Proof. intros s. exists [], []. by rewrite !app_nil_r. Qed.
Lemma silently_throw {T} e (φ : T -> Prop) : silently (throw e) φ.
Proof. intros s. exists [], []. by rewrite !app_nil_r. Qed.
Lemma silently_ensure b msg : silently (ensure b msg) (fun _ => b = true).
Proof. intros s. exists [], []. rewrite !app_nil_r. repeat (split; [done|]). by intros u ?%ensure_ok_ok. Qed.
Lemma silently_weaken {T} (m : M D T) (φ ψ : T -> Prop) : silently m φ -> (forall a, φ a -> ψ a) -> silently m ψ.
Proof. intros Hm Hi. eapply leaves_weaken; [exact Hm|]. naive_solver. Qed.
Lemma silently_bind {T U} (m : M D T) (f : T -> M D U) (φ : T -> Prop) ψ :
  silently m φ -> (forall a, φ a -> silently (f a) ψ) -> silently (m ≫= f) ψ.
Proof. intros Hm Hf. eapply leaves_after; [exact Hm|done|done]. Qed.
Lemma silently_consult {T} (f : E -> T * E) : silently (consult f) (fun a => exists e, a = (f e).1).
Proof.
  intros s. exists [], []. unfold consult. destruct (f (dk_env s)) as [a e] eqn:Hf. simpl. rewrite !app_nil_r.
  repeat (split; [done|]). intros b [= <-]. exists (dk_env s). by rewrite Hf.
Qed.
Lemma silently_look {T} (g : D -> T) : silently (s ← get; mret (g s)) (fun _ => True).
Proof. intros s. exists [], []. by rewrite !app_nil_r. Qed.
Lemma silently_instant : silently instant (fun _ => True).
Proof. apply silently_look. Qed.
Lemma silently_wall_clock : silently wall_clock (fun _ => True).
Proof. apply silently_look. Qed.
Lemma silently_nap (f : E -> E) : silently (modify (fun s => set_env (f (dk_env s)) s)) (fun _ => True).
Proof. intros s. exists [], []. by rewrite !app_nil_r. Qed.
Lemma silently_trying {T} (m : M D T) φ : silently m φ -> silently (trying m) (fun r => forall a, r = Ok a -> φ a).
Proof.
  intros Hm s. destruct (Hm s) as (t & rs & Ht & Hr & Hs & Hq). exists t, rs. unfold trying.
  destruct (m s) as [[a|[]] s']; simpl in *; naive_solver.
Qed.
Lemma silently_map_err {T} e (m : M D T) φ : silently m φ -> silently (map_err e m) φ.
Proof.
  intros Hm s. destruct (Hm s) as (t & rs & Ht & Hr & Hs & Hq). exists t, rs. unfold map_err.
  destruct (m s) as [[a|e'] s']; simpl in *; naive_solver.
Qed.
Lemma silently_on_pool {T} (m : M (Pool E) T) φ : quietly m φ -> silently (on_pool m) φ.
Proof.
  intros Hm s. specialize (Hm (mkPool (dk_env s) [])) as [Hl Ha]. exists [], []. unfold on_pool.
  destruct (m _) as [r p]. simpl in *. rewrite Hl. simpl. by rewrite !app_nil_r.
Qed.
Lemma silently_first_some {A B} (f : A -> M D (option B)) (φ : B -> Prop) l :
  (forall a, silently (f a) (fun o => forall b, o = Some b -> φ b)) ->
  silently (first_some f l) (fun o => forall b, o = Some b -> φ b).
Proof.
  intros Hf. induction l as [|a l IH]; simpl; [by apply silently_ret|].
  eapply silently_bind; [apply Hf|]. intros [b|] Hb; [by apply silently_ret|apply IH].
Qed.
End Traces.

Create HintDb silent.
#[export] Hint Resolve silently_ret silently_lift silently_throw silently_ensure silently_consult silently_instant
  silently_wall_clock silently_nap : silent.

(** Read a bind of silent programs step by step. *)
Ltac hush :=
  repeat first
    [ by eauto with silent
    | match goal with
      | |- silently (mret _) _ => apply silently_ret; try done
      | |- silently (throw _) _ => apply silently_throw
      | |- silently (mbind _ _) _ => eapply silently_bind; [solve [eauto with silent]|intros ? ?]
      | |- silently (match ?x with _ => _ end) _ => destruct x eqn:?
      | |- silently (if ?x then _ else _) _ => destruct x eqn:?
      end
    | eapply silently_weaken; [solve [eauto with silent]|done] ].

Section Reading.
Context {E : Type} `{PoolNode E, IntentNode E, EvmLib, CosmosAccounts, ConfigLib, IntentLib}.
Abbreviation D := (Desk E).
Variables (jittered : Z -> Z) (env_var : string -> option string).

(** ** What is only read *)

(** The RFQ service offered the quote, in its answer to that request. *)
Definition offered (base : string) (request : QuoteRequest) (q : Quote) : Prop :=
  exists status quotes (e e' : E), post_quote (base +:+ "/quote") request e = (Response status (Some quotes), e') /\
    success status = true /\ q ∈ quotes /\ be_kind (qu_backend q) = IntentBackend.

Lemma silently_offered base request :
  silently (E := E) (rfq_quote base request) (fun outcome => forall tq, outcome = Available tq -> offered base request (tq_quote tq)).
Proof.
  unfold rfq_quote. eapply silently_bind; [apply silently_instant|]. intros started _.
  eapply silently_bind; [apply silently_consult|]. intros answer [e Ha]. destruct answer as [|status body]; [apply silently_throw|].
  destruct (status =? 422); [by apply silently_ret|]. eapply silently_bind; [apply silently_ensure|]. intros u Hok. cbv beta in Hok.
  eapply silently_bind; [apply silently_lift|]. intros quotes Hq%ok_or_ok. subst body.
  destruct (List.find _ quotes) as [q|] eqn:Hf; [|by apply silently_ret]. apply List.find_some in Hf as [Hin%list_elem_of_In Hk].
  apply bool_decide_eq_true in Hk. eapply silently_bind; [apply silently_instant|]. intros finished _. apply silently_ret.
  intros tq [= <-]. exists status, quotes, e, (post_quote (base +:+ "/quote") request e).2. rewrite Ha.
  by destruct (post_quote _ _ _).
Qed.

Lemma silently_rfq_quote base request : silently (E := E) (rfq_quote base request) (fun _ => True).
Proof. eapply silently_weaken; [apply silently_offered|done]. Qed.

Lemma silently_view {T} url (f : string -> E -> (string + T) * E) : silently (view jittered url f) (fun _ => True).
Proof.
  unfold view. eapply silently_bind; [apply silently_lift|]. intros pool _. apply silently_on_pool.
  apply quietly_falling_back. intros u. by apply quietly_ask.
Qed.

Lemma silently_lifetime q : silently (E := E) (validate_quote_lifetime q) (fun _ => True).
Proof. unfold validate_quote_lifetime. hush. Qed.
End Reading.
#[export] Hint Resolve silently_rfq_quote silently_view silently_lifetime : silent.

(** ** What goes out *)

Section Sending.
Context {E : Type} `{PoolNode E, IntentNode E, EvmLib, CosmosAccounts, ConfigLib, IntentLib}.
Abbreviation D := (Desk E).
Variables (jittered : Z -> Z) (signer : string).

(** Every envelope on the wire was signed for a request handed over before. *)
Fixpoint wired (known : list TransactionRequest) (t : list intent_event) : Prop :=
  match t with
  | [] => True
  | Handed _ rq :: t => wired (rq :: known) t
  | OnWire (Broadcast _ env _) :: t => (exists rq, rq ∈ known /\ signed_for (E := E) signer rq env) /\ wired known t
  | _ :: t => wired known t
  end.

Lemma wired_mono known known' t : known ⊆ known' -> wired known t -> wired known' t.
Proof.
  revert known known'. induction t as [|[l rq|[url env a|url h a]|p y] t IH]; intros known known' Hk; simpl; [done|..].
  - apply IH. set_solver.
  - intros [(rq & Hin & Hs) Ht]. split; [set_solver|by eapply IH].
  - by apply IH.
  - by apply IH.
Qed.
Lemma wired_app known t u : wired known t -> wired known u -> wired known (t ++ u).
Proof.
  revert known. induction t as [|[l rq|[url env a|url h a]|p y] t IH]; intros known; simpl; [done|..].
  - intros Ht Hu. apply IH; [done|]. eapply wired_mono; [|exact Hu]. set_solver.
  - naive_solver.
  - apply IH.
  - apply IH.
Qed.
Lemma wired_wire known rq evs : rq ∈ known -> Forall (own_event (E := E) signer rq) evs -> wired known (map OnWire evs).
Proof.
  intros Hin. induction 1 as [|[url env a|url h a] evs Hev _ IH]; simpl; [done| |done]. split; [by exists rq|done].
Qed.
Lemma handed_wire evs : handed (map OnWire evs) = [].
Proof. by induction evs. Qed.
Lemma handed_app t u : handed (t ++ u) = handed t ++ handed u.
Proof. apply omap_app. Qed.

Lemma leaves_sender fuel pool rq timeout :
  leaves (on_pool (E := E) (send_tx_robust jittered fuel pool signer rq timeout)) (fun _ t rs =>
    rs = [] /\ handed t = [] /\ wired [rq] t).
Proof.
  intros s. unfold on_pool. pose proof (own_send_tx_robust jittered signer rq fuel pool timeout (mkPool (dk_env s) [])) as Ho.
  destruct (send_tx_robust _ _ _ _ _ _ _) as [r p]. exists (map OnWire (reverse (pl_log p))), []. simpl.
  rewrite app_nil_r. repeat (split; [done|]). split; [apply handed_wire|]. apply (wired_wire _ rq); [by left|].
  apply Forall_reverse. destruct r; apply Ho; constructor.
Qed.

(** Actions are handed over in order, until one fails. *)
Lemma leaves_send_actions pool wallet source actions label last :
  leaves (E := E) (send_actions jittered pool signer wallet source actions label last) (fun r t rs =>
    rs = [] /\ wired [] t /\ exists acts rqs, acts `prefix_of` actions /\ handed t = map (pair label) rqs /\
      Forall2 (fun a rq => action_request a wallet (ai_chain_id (wa_id source)) = Ok rq) acts rqs /\
      forall h, r = Ok h -> acts = actions).
Proof.
  revert last. induction actions as [|a actions IH]; intros last; cbn [send_actions].
  { apply leaves_ret. do 2 (split; [done|]). by exists [], []. }
  eapply leaves_after; [apply silently_lift| |].
  { intros e. do 2 (split; [done|]). exists [], []. split; [apply prefix_nil|done]. }
  intros rq Hrq. eapply (leaves_bind _ _ (fun r t rs => t = [Handed label rq] /\ rs = [])).
  { intros s. exists [Handed label rq], []. by rewrite !app_nil_r. }
  { intros e t rs [-> ->]. do 2 (split; [done|]). exists [a], [rq]. split; [by exists actions|]. split; [done|].
    split; [by repeat constructor|done]. }
  intros [] t rs [-> ->]. eapply leaves_bind; [apply leaves_sender|..].
  { intros e t rs (-> & Hh & Hw). split; [done|]. split; [exact Hw|]. exists [a], [rq]. split; [by exists actions|].
    simpl. rewrite Hh. split; [done|]. split; [by repeat constructor|done]. }
  intros receipt t rs (-> & Hh & Hw). eapply leaves_after; [apply silently_ensure|..].
  { intros e. split; [done|]. simpl. rewrite app_nil_r. split; [exact Hw|]. exists [a], [rq]. split; [by exists actions|].
    rewrite Hh. split; [done|]. split; [by repeat constructor|done]. }
  intros _ _. eapply leaves_weaken; [apply IH|]. intros r t' rs' (-> & Hw' & acts & rqs & Hp & Hh' & Hf & Hall).
  split; [done|]. split. { simpl. apply wired_app; [exact Hw|]. eapply wired_mono; [|exact Hw']. set_solver. }
  exists (a :: acts), (rq :: rqs). split; [by apply prefix_cons|]. simpl. rewrite handed_app, Hh, Hh'. split; [done|].
  split; [by constructor|]. intros h Hr. by rewrite (Hall h Hr).
Qed.

Lemma leaves_execute_actions chains wallet source actions label :
  leaves (E := E) (execute_actions jittered chains signer wallet source actions label) (fun r t rs =>
    rs = [] /\ wired [] t /\ exists acts rqs, acts `prefix_of` actions /\ handed t = map (pair label) rqs /\
      Forall2 (fun a rq => action_request a wallet (ai_chain_id (wa_id source)) = Ok rq) acts rqs /\
      forall h, r = Ok h -> acts = actions).
Proof.
  unfold execute_actions. eapply leaves_after; [apply silently_lift| |intros pool _; apply leaves_send_actions].
  intros e. do 2 (split; [done|]). exists [], []. split; [apply prefix_nil|done].
Qed.
End Sending.

(** ** What a checked quote asks for *)

(** alloy encodes calls as bytes. *)
Class ApproveBytes `{IntentLib} : Prop := { approve_bytes spender amount : Forall is_byte (approve_calldata spender amount) }.

Section Asked.
Context `{EvmLib, CosmosAccounts, ConfigLib, IntentLib, !ApproveBytes}.

(** The chain of an asset, by its number. *)
Definition on_chain_of (asset : WalletAsset) (rq : TransactionRequest) : Prop :=
  exists reference id, strip_prefix "eip155:" (ai_chain_id (wa_id asset)) = Some reference /\
    parse_uint 64 reference = Some id /\ rq_chain_id rq = Some id.

(** The input a quote is for. *)
Definition quoted_input (q : Quote) (input : Z) : Prop := parse_amount (qi_amount (qu_input q)) = Ok input.

(** The deposit of the quote, into the settlement contract: the calldata of the
    one transaction the quote has, with its input as the value of a native asset
    and no value otherwise. *)
Definition is_deposit (wallet : Address) (from : WalletAsset) (settlement : Address) (q : Quote) (rq : TransactionRequest) : Prop :=
  rq_from rq = Some wallet /\ rq_to rq = Some (CallTo settlement) /\ on_chain_of from rq /\
  (exists input, quoted_input q input /\ rq_value rq = Some (if wa_native from then input else 0)) /\
  exists a payload data, of_kind Transaction q = [a] /\ ac_payload a = EvmTransaction payload /\
    payload_data payload = Ok data /\ rq_input rq = Some data.

(** An approval of the source token, for the settlement contract and at least
    [input]. *)
Definition is_approval (wallet : Address) (from : WalletAsset) (settlement : Address) (input : Z) (rq : TransactionRequest) : Prop :=
  wa_native from = false /\ rq_from rq = Some wallet /\ rq_value rq = Some 0 /\ on_chain_of from rq /\
  CallTo <$> parse_address (ai_token_address (wa_id from)) = rq_to rq /\
  exists amount, input <= amount /\ rq_input rq = Some (approve_calldata settlement amount).

(** What [quote_for_execution] established about a quote. *)
Definition checked_quote (from : WalletAsset) (settlement : Address) (maximum : option Z) (q : Quote) (input : Z) : Prop :=
  parse_amount (qi_amount (qu_input q)) = Ok input /\ validate_quote_actions q from input = Ok settlement /\
  (exists spendable, spendable_balance from = Some spendable /\ input <= spendable) /\
  (forall cap, maximum = Some cap -> input <= cap).

Lemma validate_quote_spendable q from to order_type requested u input :
  validate_quote q from to order_type requested = Ok u -> parse_amount (qi_amount (qu_input q)) = Ok input ->
  exists spendable, spendable_balance from = Some spendable /\ input <= spendable.
Proof.
  unfold validate_quote, ensure_input_is_spendable. intros (u1 & _ & Hv)%result_bind_ok Hi. rewrite Hi in Hv. simpl in Hv.
  apply result_bind_ok in Hv as (spendable & Hsp%ok_or_ok & Hle%ensure_ok_ok). apply Z.leb_le in Hle. by exists spendable.
Qed.

Lemma action_request_ok a wallet chain rq :
  action_request a wallet chain = Ok rq ->
  exists payload to data value reference id, ac_payload a = EvmTransaction payload /\
    parse_address (ep_to payload) = Some to /\ payload_data payload = Ok data /\ parse_u256 (ep_value payload) = Some value /\
    strip_prefix "eip155:" chain = Some reference /\ parse_uint 64 reference = Some id /\
    rq_from rq = Some wallet /\ rq_to rq = Some (CallTo to) /\ rq_input rq = Some data /\ rq_value rq = Some value /\
    rq_chain_id rq = Some id.
Proof.
  unfold action_request, action_payload. intros ([] & _ & Hr)%result_bind_ok.
  apply result_bind_ok in Hr as (payload & Hp & Hr). destruct (ac_payload a) as [p| |] eqn:Ha; try done. injection Hp as ->.
  apply result_bind_ok in Hr as ([] & _ & Hr). apply result_bind_ok in Hr as (to & Hto%ok_or_ok & Hr).
  apply result_bind_ok in Hr as (data & Hd & Hr). apply result_bind_ok in Hr as (value & Hv%ok_or_ok & Hr).
  apply result_bind_ok in Hr as (reference & Href%ok_or_ok & Hr). apply result_bind_ok in Hr as (id & Hid%ok_or_ok & Hr).
  injection Hr as <-. by exists payload, to, data, value, reference, id.
Qed.

Lemma deposit_request from settlement maximum q input dep wallet rq :
  checked_quote from settlement maximum q input -> deposit_action q from input = Ok dep ->
  action_request dep wallet (ai_chain_id (wa_id from)) = Ok rq -> is_deposit wallet from settlement q rq.
Proof.
  intros (Hin & Hv & _) Hd Hrq. unfold validate_quote_actions, deposit_action, is_deposit in *.
  destruct (of_kind Transaction q) as [|d [|d' l]]; try done.
  apply result_bind_ok in Hd as (set & Hset & [= ->]). apply result_bind_ok in Hv as (set' & Hset' & Hv).
  assert (set' = settlement) as ->.
  { destruct (wa_native from); apply result_bind_ok in Hv as (? & _ & Hv); [by injection Hv|].
    apply result_bind_ok in Hv as (? & _ & Hv). by injection Hv. }
  clear Hset Hv. unfold validate_deposit_action, action_payload in Hset'.
  apply action_request_ok in Hrq as (p & to & data & value & ref & id & Hp & Hto & Hdata & Hval & Href & Hid & Hf & Ht & Hi & Hv & Hc).
  rewrite Hp in Hset'. simpl in Hset'. rewrite Hto, Hval in Hset'. simpl in Hset'.
  apply result_bind_ok in Hset' as (u & Hok%ensure_ok_ok & [= ->]).
  apply andb_prop in Hok as [[Heq%Z.eqb_eq _]%andb_prop _]. subst value. do 2 (split; [done|]).
  split; [by exists ref, id|]. split; [by exists input|]. by exists dep, p, data.
Qed.

Lemma payload_hex_text p data :
  ep_data p = hex_text data -> Forall is_byte data -> payload_data p = Ok data.
Proof.
  intros Hp Hb. unfold payload_data. rewrite Hp. unfold hex_text.
  assert (strip_prefix "0x" ("0x" +:+ hex_encode data) = Some (hex_encode data)) as -> by done. simpl.
  by rewrite alloy_hex_encode.
Qed.

Lemma approval_request from settlement maximum q input a requirement b wallet rq :
  checked_quote from settlement maximum q input -> of_kind Approval q = [a] -> approval_requirement a from input = Ok requirement ->
  approval_action a requirement (ap_amount requirement) = Ok b ->
  action_request b wallet (ai_chain_id (wa_id from)) = Ok rq -> is_approval wallet from settlement input rq.
Proof.
  intros (_ & Hv & _) Ha Hreq Hb Hrq. unfold validate_quote_actions in Hv. rewrite Ha in Hv.
  destruct (of_kind Transaction q) as [|d [|d' l]]; try done. apply result_bind_ok in Hv as (set & _ & Hv).
  destruct (wa_native from) eqn:Hnat; [by destruct a|]. simpl in Hv. rewrite Hreq in Hv.
  apply result_bind_ok in Hv as (u & Hs%ensure_ok_ok & [= ->]). apply Z.eqb_eq in Hs.
  unfold approval_action, action_payload in Hb. apply result_bind_ok in Hb as (u1 & _ & Hb).
  unfold approval_requirement, action_payload in Hreq. rewrite Hnat in Hreq. simpl in Hreq.
  destruct (ac_payload a) as [p| |] eqn:Hp; try done. simpl in Hb, Hreq. injection Hb as <-.
  apply result_bind_ok in Hreq as (target & Ht%ok_or_ok & Hreq). apply result_bind_ok in Hreq as (token & Htok%ok_or_ok & Hreq).
  apply result_bind_ok in Hreq as (value & Hval%ok_or_ok & Hreq). apply result_bind_ok in Hreq as (data & Hd & Hreq).
  apply result_bind_ok in Hreq as (u2 & Hok%ensure_ok_ok & Hreq).
  apply result_bind_ok in Hreq as (u3 & Hok3%ensure_ok_ok & [= <-]). simpl in *.
  apply andb_prop in Hok as [[->%Z.eqb_eq ->%Z.eqb_eq]%andb_prop _]. apply andb_prop in Hok3 as [_ Hle%Z.leb_le].
  apply action_request_ok in Hrq as (p' & to & data' & v' & ref & id & Hp' & Hto & Hd' & Hv' & Href & Hid & Hf & Hrt & Hri & Hrv & Hc).
  simpl in Hp'. injection Hp' as <-. simpl in *. erewrite payload_hex_text in Hd'; [|reflexivity|apply approve_bytes].
  injection Hd' as <-. rewrite Ht in Hto. injection Hto as <-. rewrite Hval in Hv'. injection Hv' as <-.
  split; [done|]. do 2 (split; [done|]). split; [by exists ref, id|]. rewrite Htok. split; [by rewrite Hrt|].
  exists (from_be (drop 36 data)). split; [done|]. by rewrite Hri, <- Hs.
Qed.
End Asked.

(** ** Legs *)

Section Legs.
Context {E : Type} `{PoolNode E, IntentNode E, EvmLib, CosmosAccounts, ConfigLib, IntentLib, !ApproveBytes}.
Abbreviation D := (Desk E).
Variables (jittered : Z -> Z) (base : string) (chains : gmap string ChainRuntime) (signer : string) (wallet : Address).

(** The wallet can spend the input, and the leg's limit allows it. *)
Definition affordable (from : WalletAsset) (maximum : option Z) (input : Z) : Prop :=
  (exists spendable, spendable_balance from = Some spendable /\ input <= spendable) /\
  (forall cap, maximum = Some cap -> input <= cap).

(** What a leg adds to the trace: at most one approval, then at most one deposit,
    those of one offered quote with an affordable input, and nothing else goes on
    the wire. *)
Definition leg_trace (offer : Quote -> Prop) (from : WalletAsset) (settlement : Address) (maximum : option Z)
    (t : list intent_event) : Prop :=
  wired (E := E) signer [] t /\
  (handed t = [] \/
   exists q input approvals deposits, offer q /\ quoted_input q input /\ affordable from maximum input /\
     handed t = map (pair APPROVAL_LABEL) approvals ++ map (pair DEPOSIT_LABEL) deposits /\
     (length approvals <= 1)%nat /\ Forall (is_approval wallet from settlement input) approvals /\
     (length deposits <= 1)%nat /\ Forall (is_deposit wallet from settlement q) deposits).

(** The request for the quote of a leg. *)
Definition leg_request (leg : LegExecution) : QuoteRequest :=
  mkQuoteRequest (ai_chain_id (wa_id (le_from leg))) (ai_token_address (wa_id (le_from leg)))
    (ai_chain_id (wa_id (le_to leg))) (ai_token_address (wa_id (le_to leg))) (u256_to_string (le_amount leg))
    (le_order_type leg) (address_to_string wallet) (address_to_string (le_recipient leg)).
Definition for_leg (leg : LegExecution) : Quote -> Prop := offered (E := E) base (leg_request leg).

Lemma silently_approvals_below pool token source actions amount :
  silently (E := E) (approvals_below jittered pool wallet token source actions amount None) (fun required =>
    exists kept, kept `sublist_of` actions /\ Forall2 (fun a b => exists requirement,
      approval_requirement a source amount = Ok requirement /\
      approval_action a requirement (ap_amount requirement) = Ok b) kept required).
Proof.
  induction actions as [|a actions IH]; cbn [approvals_below]; [apply silently_ret; by exists []|].
  eapply silently_bind; [apply silently_lift|]. intros requirement Hreq.
  eapply silently_bind.
  { apply silently_map_err, silently_on_pool, quietly_falling_back. intros url. by apply (quietly_ask _ (fun _ => True)). }
  intros allowance _. eapply silently_bind; [apply silently_ensure|]. intros _ _.
  eapply silently_bind; [apply silently_lift|]. intros this Hthis.
  eapply silently_bind; [apply IH|]. intros rest (kept & Hsub & Hf). apply silently_ret. cbn [default] in Hthis.
  destruct (allowance <? ap_amount requirement).
  - destruct (approval_action a requirement (ap_amount requirement)) as [b|] eqn:Hb; [|done]. injection Hthis as <-.
    exists (a :: kept). split; [by apply sublist_skip|]. constructor; [by exists requirement|done].
  - injection Hthis as <-. exists kept. split; [by apply sublist_cons|done].
Qed.

(** At most one approval. *)
Definition approval_trace (from : WalletAsset) (settlement : Address) (input : Z) (t : list intent_event) : Prop :=
  wired (E := E) signer [] t /\ exists approvals, handed t = map (pair APPROVAL_LABEL) approvals /\
    (length approvals <= 1)%nat /\ Forall (is_approval wallet from settlement input) approvals.

Lemma approval_trace_nil from settlement input : approval_trace from settlement input [].
Proof. split; [done|]. exists []. split; [done|]. split; [simpl; lia|done]. Qed.

Lemma one_approval from settlement maximum q input :
  checked_quote from settlement maximum q input -> (length (of_kind Approval q) <= 1)%nat.
Proof.
  intros (_ & Hv & _). unfold validate_quote_actions in Hv.
  destruct (of_kind Transaction _) as [|d [|]]; try done. apply result_bind_ok in Hv as (? & _ & Hv).
  destruct (wa_native from); apply result_bind_ok in Hv as (? & Hok%ensure_ok_ok & _);
    [apply bool_decide_eq_true in Hok; lia|by apply Nat.leb_le].
Qed.

Lemma leaves_one_approval from settlement maximum q input a requirement b :
  checked_quote from settlement maximum q input -> of_kind Approval q = [a] ->
  approval_requirement a from input = Ok requirement -> approval_action a requirement (ap_amount requirement) = Ok b ->
  leaves (E := E) (execute_actions jittered chains signer wallet from [b] APPROVAL_LABEL) (fun _ t rs =>
    rs = [] /\ approval_trace from settlement input t).
Proof.
  intros Hq Ha Hreq Hb. eapply leaves_weaken; [apply leaves_execute_actions|].
  intros r t rs (-> & Hw & acts & rqs & Hp & Hh & Hf & _). split; [done|]. split; [done|]. exists rqs. split; [done|].
  pose proof (prefix_length _ _ Hp) as Hlen. pose proof (Forall2_length Hf). simpl in Hlen. split; [lia|].
  destruct Hf as [|b' rq acts rqs Hrq Hf]; [done|]. apply prefix_cons_inv_1 in Hp as ->.
  destruct Hf; [|simpl in *; lia]. apply Forall_singleton. by eapply approval_request.
Qed.

Lemma leaves_input_approval from settlement maximum selected input :
  checked_quote from settlement maximum (tq_quote selected) input ->
  leaves (E := E) (ensure_input_approval jittered chains signer wallet from selected input) (fun _ t rs =>
    rs = [] /\ approval_trace from settlement input t).
Proof.
  intros Hq. unfold ensure_input_approval. pose proof (approval_trace_nil from settlement input) as Hnil.
  pose proof (one_approval _ _ _ _ _ Hq) as Hone.
  destruct (of_kind Approval (tq_quote selected)) as [|a more] eqn:Ha; [by apply leaves_ret|].
  assert (more = []) as -> by (destruct more; simpl in Hone; [done|lia]). unfold required_approvals.
  eapply (leaves_after _ _ (fun required => exists kept, kept `sublist_of` [a] /\ Forall2 (fun a b => exists requirement,
      approval_requirement a from input = Ok requirement /\
      approval_action a requirement (ap_amount requirement) = Ok b) kept required)); [|done|].
  { eapply silently_bind; [apply silently_lift|]. intros pool _. eapply silently_bind; [apply silently_lift|]. intros token _.
    apply silently_approvals_below. }
  intros required (kept & Hsub & Hf). destruct Hf as [|a' b kept required (requirement & Hreq & Hb) Hf]; [by apply leaves_ret; split|].
  apply sublist_cons_l in Hsub as (k1 & k2 & Hk & Hsub). destruct k1 as [|? k1]; [|by destruct k1].
  injection Hk as <- <-. apply sublist_nil_r in Hsub as ->. inversion Hf; subst.
  eapply leaves_bind; [by eapply leaves_one_approval|done|].
  intros u t rs [-> Ht]. eapply leaves_weaken; [apply silently_lifetime|]. intros r t' rs' (-> & -> & _). by rewrite !app_nil_r.
Qed.
Lemma leaves_deposit from settlement maximum q input dep :
  checked_quote from settlement maximum q input -> deposit_action q from input = Ok dep ->
  leaves (E := E) (execute_actions jittered chains signer wallet from [dep] DEPOSIT_LABEL) (fun r t rs =>
    rs = [] /\ wired (E := E) signer [] t /\ exists deposits, handed t = map (pair DEPOSIT_LABEL) deposits /\
      (length deposits <= 1)%nat /\ Forall (is_deposit wallet from settlement q) deposits /\
      forall h, r = Ok h -> length deposits = 1%nat).
Proof.
  intros Hq Hd. eapply leaves_weaken; [apply leaves_execute_actions|].
  intros r t rs (-> & Hw & acts & rqs & Hp & Hh & Hf & Hall). do 2 (split; [done|]). exists rqs. split; [done|].
  pose proof (prefix_length _ _ Hp) as Hlen. pose proof (Forall2_length Hf) as Hl. simpl in Hlen. split; [lia|].
  split; [|intros h Hr; rewrite <- Hl; by rewrite (Hall h Hr)].
  destruct Hf as [|b' rq acts rqs Hrq Hf]; [done|]. apply prefix_cons_inv_1 in Hp as ->.
  destruct Hf; [|simpl in *; lia]. apply Forall_singleton. by eapply deposit_request.
Qed.

Lemma leg_trace_nil offer from settlement maximum : leg_trace offer from settlement maximum [].
Proof. split; [done|]. by left. Qed.

(** The deposit of the quote was handed over. *)
Definition deposited (from : WalletAsset) (settlement : Address) (q : Quote) (t : list intent_event) : Prop :=
  exists rq, (DEPOSIT_LABEL, rq) ∈ handed t /\ is_deposit wallet from settlement q rq.

Lemma leaves_selected_leg (offer : Quote -> Prop) from to settlement maximum selected input started :
  offer (tq_quote selected) -> checked_quote from settlement maximum (tq_quote selected) input ->
  leaves (E := E) (submit_selected_leg jittered chains signer wallet from to selected input started) (fun r t rs =>
    rs = [] /\ leg_trace offer from settlement maximum t /\ forall su, r = Ok su ->
      su_selected su = selected /\ su_to su = to /\ su_input_amount su = input /\
      deposited from settlement (tq_quote selected) t).
Proof.
  intros Hoffer Hq. assert (quoted_input (tq_quote selected) input) as Hin by apply Hq. assert (affordable from maximum input) as Haff by apply Hq. unfold submit_selected_leg.
  assert (forall t u, approval_trace from settlement input t -> wired (E := E) signer [] u ->
    (exists deposits, handed u = map (pair DEPOSIT_LABEL) deposits /\ (length deposits <= 1)%nat /\
      Forall (is_deposit wallet from settlement (tq_quote selected)) deposits /\ True) ->
    leg_trace offer from settlement maximum (t ++ u)) as Hleg.
  { intros t u (Hw & aps & Hh & Hl & Ha) Hw' (ds & Hh' & Hl' & Hd & _). split; [by apply wired_app|]. right.
    exists (tq_quote selected), input, aps, ds. rewrite handed_app, Hh, Hh'. done. }
  assert (forall t, approval_trace from settlement input t -> leg_trace offer from settlement maximum t) as Hleg0.
  { intros t Ht. rewrite <- (app_nil_r t). apply Hleg; [done|done|]. exists []. split; [done|]. split; [simpl; lia|done]. }
  eapply leaves_bind; [by eapply leaves_input_approval|intros e t rs [-> Ht]; split; [done|]; split; [by apply Hleg0|done]|].
  intros u t rs [-> Ht]. eapply leaves_after; [apply silently_lift| |].
  { intros e. rewrite !app_nil_r. split; [done|]. split; [by apply Hleg0|done]. }
  intros dep Hdep. eapply leaves_after; [apply silently_instant| |].
  { intros e. rewrite !app_nil_r. split; [done|]. split; [by apply Hleg0|done]. }
  intros t0 _. eapply leaves_bind; [by eapply leaves_deposit|..].
  { intros e t' rs (-> & Hw & Hd). split; [done|]. split; [apply Hleg; naive_solver|done]. }
  intros hash t' rs (-> & Hw & Hd). apply (leaves_weaken _ (fun r t'' rs => t'' = [] /\ rs = [] /\ forall su, r = Ok su ->
    su_selected su = selected /\ su_to su = to /\ su_input_amount su = input)).
  { eapply silently_bind; [apply silently_lift|]. intros h _. eapply silently_bind; [apply silently_instant|].
    intros t1 _. by apply silently_ret. }
  intros r t'' rs (-> & -> & Hr). rewrite !app_nil_r. split; [done|]. split; [apply Hleg; naive_solver|]. intros su Hsu.
  destruct (Hr su Hsu) as (-> & -> & ->). do 3 (split; [done|]).
  destruct Hd as ([|rq ds] & Hh & _ & Hf & Hone); [by specialize (Hone hash eq_refl)|]. exists rq. rewrite handed_app, Hh.
  split; [|by inversion Hf]. apply elem_of_app. right. by left.
Qed.

Lemma silently_quote_for_execution leg :
  silently (E := E) (quote_for_execution base wallet leg) (fun '(selected, input) =>
    for_leg leg (tq_quote selected) /\ checked_quote (le_from leg) (le_settlement_contract leg) (le_max_input_amount leg) (tq_quote selected) input).
Proof.
  unfold quote_for_execution, require_quote. eapply (silently_bind _ _ (fun selected => for_leg leg (tq_quote selected))).
  { eapply silently_bind; [apply silently_offered|]. intros [q|reason] Hq; [|apply silently_throw].
    apply silently_ret. by apply Hq. }
  intros selected Hoffer. eapply silently_bind; [apply silently_lift|]. intros u Hv.
  eapply silently_bind; [apply silently_lifetime|]. intros _ _. eapply silently_bind; [apply silently_lift|]. intros input Hi.
  eapply silently_bind; [apply silently_lift|]. intros u1 Hl. eapply silently_bind; [apply silently_lift|]. intros settlement Ha.
  eapply silently_bind; [apply silently_ensure|]. intros _ Hs%Z.eqb_eq. subst settlement. apply silently_ret.
  split; [done|]. split; [done|]. split; [done|]. split; [exact (validate_quote_spendable _ _ _ _ _ _ _ Hv Hi)|]. intros cap Hcap. unfold validate_input_limit in Hl. rewrite Hcap in Hl.
  apply ensure_ok_ok in Hl. by apply Z.leb_le.
Qed.

Lemma silently_rfq_status id :
  silently (E := E) (rfq_status base id) (fun body => exists status e e',
    get_status (base +:+ "/status") id e = (Response status (Some body), e')).
Proof.
  unfold rfq_status. eapply silently_bind; [apply silently_consult|]. intros answer [e Ha].
  eapply silently_weaken; [apply silently_lift|]. intros body Hb. destruct answer as [|status [b|]]; try done.
  - simpl in Hb. apply result_bind_ok in Hb as (u & _ & [= ->]). exists status, e, (get_status (base +:+ "/status") id e).2.
    rewrite Ha. by destruct (get_status _ _ _).
  - simpl in Hb. by apply result_bind_ok in Hb as (u & _ & ?).
Qed.

(** The service answered that the transfer of the quote is done. *)
Definition reported_done (q : Quote) (to : WalletAsset) (output : StatusOutput) : Prop :=
  validate_status_output output to q = Ok () /\
  exists status body e e', get_status (E := E) (base +:+ "/status") (qu_quote_id q) e = (Response status (Some body), e') /\
    st_quote_id body = qu_quote_id q /\ st_state body = DoneTransfer /\ st_output body = Some output.

Lemma silently_look_at_status q to refund :
  silently (E := E) (look_at_status base q to refund) (fun seen => forall output, seen = inl output -> reported_done q to output).
Proof.
  unfold look_at_status. eapply silently_bind; [apply silently_trying, silently_rfq_status|].
  intros [body|e] Hbody; [|by apply silently_ret]. destruct (Hbody body eq_refl) as (status & e & e' & Hget).
  eapply silently_bind; [apply silently_ensure|]. intros _ Hid%bool_decide_eq_true.
  eapply (silently_bind _ _ (fun _ => True)); [hush|]. intros refund' _. destruct (st_state body) eqn:Hstate; [hush|hush| |hush..].
  eapply silently_bind; [apply silently_lift|]. intros output Ho%ok_or_ok.
  eapply silently_bind; [apply silently_lift|]. intros [] Hv. apply silently_ret. intros o [= <-]. split; [done|].
  by exists status, body, e, e'.
Qed.

Lemma silently_fulfillment fuel q to poll deadline refund :
  silently (E := E) (fulfillment_loop fuel base q to poll deadline refund) (reported_done q to).
Proof.
  revert refund. induction fuel as [|fuel IH]; intros refund; cbn [fulfillment_loop]; [apply silently_throw|].
  eapply silently_bind; [apply silently_look_at_status|]. intros [output|refund'] Hs; [apply silently_ret; by apply Hs|].
  eapply silently_bind; [apply silently_instant|]. intros now _. destruct (deadline <=? now); [apply silently_throw|].
  eapply silently_bind; [apply silently_nap|]. intros _ _. apply IH.
Qed.

(** The service reported the transfer done, with this amount of the asset [to],
    and it is the quoted minimum or more. *)
Definition fulfilled (q : Quote) (to : WalletAsset) (amount : Z) : Prop :=
  exists status body output minimum e e',
    get_status (E := E) (base +:+ "/status") (qu_quote_id q) e = (Response status (Some body), e') /\
    st_quote_id body = qu_quote_id q /\ st_state body = DoneTransfer /\ st_output body = Some output /\
    so_chain output = ai_chain_id (wa_id to) /\ same_text (so_token output) (ai_token_address (wa_id to)) = true /\
    parse_amount (so_amount output) = Ok amount /\ parse_amount (promised q) = Ok minimum /\ minimum <= amount.

Lemma silently_finish submitted limits :
  silently (E := E) (finish_submitted_intent base submitted limits) (fun r =>
    lr_input_amount r = su_input_amount submitted /\
    fulfilled (tq_quote (su_selected submitted)) (su_to submitted) (lr_output_amount r)).
Proof.
  unfold finish_submitted_intent, wait_for_fulfillment. eapply silently_bind; [apply silently_instant|]. intros t0 _.
  eapply silently_bind.
  { eapply silently_bind; [apply silently_instant|]. intros t1 _. eapply silently_bind; [apply silently_wall_clock|].
    intros t2 _. apply silently_fulfillment. }
  intros output (Hv & status & body & e & e' & Hget & Hid & Hst & Hout). eapply silently_bind; [apply silently_instant|].
  intros t3 _. eapply silently_bind; [apply silently_lift|]. intros amount Ha. apply silently_ret. split; [done|].
  unfold validate_status_output in Hv. apply result_bind_ok in Hv as (u & Hok%ensure_ok_ok & Hv).
  apply andb_prop in Hok as [Hc%bool_decide_eq_true Ht]. rewrite Ha in Hv. simpl in Hv.
  apply result_bind_ok in Hv as (minimum & Hm & Hle%ensure_ok_ok). apply Z.leb_le in Hle.
  by exists status, body, output, minimum, e, e'.
Qed.

(** A leg that returned: the service offered a quote for it, its deposit was
    handed over, and the service reported that quote done. *)
Definition leg_done (leg : LegExecution) (res : LegResult) (t : list intent_event) : Prop :=
  exists q, for_leg leg q /\ quoted_input q (lr_input_amount res) /\
    affordable (le_from leg) (le_max_input_amount leg) (lr_input_amount res) /\
    deposited (le_from leg) (le_settlement_contract leg) q t /\ fulfilled q (le_to leg) (lr_output_amount res).

Definition within_leg (leg : LegExecution) (t : list intent_event) : Prop :=
  leg_trace (for_leg leg) (le_from leg) (le_settlement_contract leg) (le_max_input_amount leg) t.

Lemma leaves_leg leg limits :
  leaves (E := E) (execute_leg jittered base chains signer wallet leg limits) (fun r t rs =>
    rs = [] /\ within_leg leg t /\ forall res, r = Ok res -> leg_done leg res t).
Proof.
  assert (within_leg leg []) as Hnil by apply leg_trace_nil.
  unfold execute_leg, submit_leg. eapply (leaves_bind _ _ (fun r t rs => rs = [] /\ within_leg leg t /\
    forall su, r = Ok su -> su_to su = le_to leg /\ for_leg leg (tq_quote (su_selected su)) /\
      checked_quote (le_from leg) (le_settlement_contract leg) (le_max_input_amount leg) (tq_quote (su_selected su))
        (su_input_amount su) /\
      deposited (le_from leg) (le_settlement_contract leg) (tq_quote (su_selected su)) t)).
  - eapply leaves_after; [apply silently_instant|done|]. intros t0 _.
    eapply leaves_after; [apply silently_quote_for_execution|done|].
    intros [selected input] [Hoffer Hq]. eapply leaves_weaken; [by eapply (leaves_selected_leg (for_leg leg))|].
    intros r t rs (-> & Ht & Hsu). split; [done|]. split; [done|]. intros su Hr.
    by destruct (Hsu su Hr) as (-> & -> & -> & Hd).
  - by intros e t rs (-> & Ht & _).
  - intros su t rs (-> & Ht & Hsu). eapply leaves_weaken; [apply silently_finish|].
    intros r t' rs (-> & -> & Hr). rewrite !app_nil_r. split; [done|]. split; [done|]. intros res ->.
    destruct (Hr _ eq_refl) as [Hin Hf]. destruct (Hsu su eq_refl) as (Hto & Hoffer & Hq & Hd). rewrite Hto in Hf.
    exists (tq_quote (su_selected su)). rewrite Hin. destruct Hq as (? & _ & ?). done.
Qed.

Lemma leaves_planned_leg plan limits :
  leaves (E := E) (execute_planned_leg jittered base chains signer wallet plan limits) (fun r t rs =>
    rs = [] /\ leg_trace (eq (tq_quote (lp_quote plan))) (lp_from plan) (lp_settlement_contract plan) None t /\
    forall res, r = Ok res -> fulfilled (tq_quote (lp_quote plan)) (lp_to plan) (lr_output_amount res)).
Proof.
  unfold execute_planned_leg. pose proof (leg_trace_nil (eq (tq_quote (lp_quote plan))) (lp_from plan) (lp_settlement_contract plan) None) as Hnil.
  eapply leaves_after; [apply silently_lift|done|]. intros u Hv. eapply leaves_after; [apply silently_lifetime|done|]. intros _ _.
  eapply leaves_after; [apply silently_lift|done|]. intros input Hi. eapply leaves_after; [apply silently_lift|done|]. intros u1 _.
  eapply leaves_after; [apply silently_lift|done|]. intros settlement Ha.
  eapply leaves_after; [apply silently_ensure|done|]. intros _ Hs%Z.eqb_eq. subst settlement.
  eapply leaves_after; [apply silently_instant|done|]. intros t0 _.
  eapply leaves_bind; [eapply (leaves_selected_leg (eq (tq_quote (lp_quote plan))) _ _ _ None); [done|]|..].
  - split; [done|]. split; [done|]. split; [exact (validate_quote_spendable _ _ _ _ _ _ _ Hv Hi)|done].
  - by intros e t rs (-> & Ht & _).
  - intros su t rs (-> & Ht & Hsu). eapply leaves_weaken; [apply silently_finish|].
    intros r t' rs (-> & -> & Hr). rewrite !app_nil_r. split; [done|]. split; [done|]. intros res ->.
    destruct (Hr _ eq_refl) as [_ Hf]. destruct (Hsu su eq_refl) as (Hs1 & Hs2 & _). by rewrite Hs1, Hs2 in Hf.
Qed.

(** The two legs of a round trip; the second one starts when the first is done. *)
Definition round_trip_trace (plan : RoutePlan) (t : list intent_event) : Prop :=
  exists t1 t2, t = t1 ++ t2 /\ within_leg (forward_leg wallet plan) t1 /\
    (t2 = [] \/ exists forward leg, leg_done (forward_leg wallet plan) forward t1 /\
       reverse_leg wallet plan forward = Ok leg /\ within_leg leg t2).

Lemma leaves_push r : leaves (E := E) (push_result r) (fun _ t rs => t = [] /\ rs = [r]).
Proof. intros s. exists [], [r]. by rewrite app_nil_r. Qed.

Lemma leaves_round_trip plan limits :
  leaves (E := E) (execute_round_trip jittered base chains signer wallet plan limits) (fun _ t rs =>
    (length rs <= 2)%nat /\ round_trip_trace plan t).
Proof.
  assert (forall t1, within_leg (forward_leg wallet plan) t1 -> round_trip_trace plan t1) as Hone.
  { intros t1 Ht. exists t1, []. rewrite app_nil_r. split; [done|]. split; [done|]. by left. }
  unfold execute_round_trip. eapply leaves_bind; [apply leaves_leg|..].
  { intros e t rs (-> & Ht & _). split; [simpl; lia|by apply Hone]. }
  intros forward t rs (-> & Ht & Hr). specialize (Hr _ eq_refl). eapply leaves_after; [apply silently_lift|..].
  { intros e. rewrite !app_nil_r. split; [simpl; lia|by apply Hone]. }
  intros leg Hleg. eapply leaves_bind; [apply leaves_push|..].
  { intros e t' rs [-> ->]. rewrite !app_nil_r. split; [simpl; lia|by apply Hone]. }
  intros [] t' rs [-> ->]. eapply leaves_bind; [apply leaves_leg|..].
  all: intros x t2 rs (-> & Ht2 & _).
  all: assert (round_trip_trace plan (t ++ t2)) as Hall
    by (exists t, t2; split; [done|]; split; [done|]; right; by exists forward, leg).
  - split; [simpl; lia|done].
  - eapply leaves_weaken; [apply leaves_push|]. intros r t3 rs [-> ->]. rewrite !app_nil_r. split; [simpl; lia|done].
Qed.
End Legs.

(** ** Legs and round trips *)

(** C20: whatever the RFQ service and the nodes answer, a leg hands the sender at
    most one approval and then at most one deposit, both those of one quote that
    the service offered in its answer to the request of the leg, with an input
    that the wallet can spend and the leg's limit allows.  The deposit has the
    calldata of the quote's only transaction; it goes to the settlement contract
    of the plan, from the wallet, on the chain of the source asset, with the
    quoted input as its value for a native asset and no value for a token.  The
    approval is of the source token, for that contract.  Every envelope on the
    wire was signed for one of them.  A leg that returns has handed over the
    deposit of such a quote; asked for the status of that quote's id, the service
    answered that it is done, with an amount of the destination asset that is at
    least the minimum of that quote; and the result of the leg has the quoted
    input and that amount. *)
Theorem leg_spends_as_quoted {E : Type} `{PoolNode E, IntentNode E, EvmLib, CosmosAccounts, ConfigLib, IntentLib, !ApproveBytes}
    jittered base chains signer wallet leg limits (s : Desk E) :
  let p := execute_leg jittered base chains signer wallet leg limits s in
  exists t, dk_trace p.2 = dk_trace s ++ t /\
    leg_trace (E := E) signer wallet (offered (E := E) base (leg_request wallet leg)) (le_from leg) (le_settlement_contract leg)
      (le_max_input_amount leg) t /\
    forall r, p.1 = Ok r -> leg_done (E := E) base wallet leg r t.
Proof.
  destruct (leaves_leg jittered base chains signer wallet leg limits s) as (t & rs & Ht & _ & _ & _ & Hl & Hr). by exists t.
Qed.

(** C22: an automatic round trip stays within its budget.  The deposit of its first
    leg is that of a quote the service offered for the forward leg, with a quoted
    input of at most the forward cap.  Its second leg starts only after the first
    one is done, that is, the service reported an amount received for the very
    quote that was deposited; and its deposit is that of a quote offered for the
    way back, with a quoted input of at most the amount received and the top-up,
    and within the destination's balance with that amount.  (What the calldata of
    a token deposit moves is up to the service: the code caps the quoted input.) *)
Theorem round_trip_within_budget {E : Type} `{PoolNode E, IntentNode E, EvmLib, CosmosAccounts, ConfigLib, IntentLib, !ApproveBytes}
    jittered base chains signer wallet plan limits (s : Desk E) forward top_up :
  rp_input_budget plan = Capped forward top_up ->
  exists t1 t2, dk_trace (execute_round_trip jittered base chains signer wallet plan limits s).2 = dk_trace s ++ t1 ++ t2 /\
    within_leg (E := E) base signer wallet
      (mkLeg (rp_from plan) (rp_to plan) (rp_order_type plan) (rp_requested_amount plan) wallet (Some forward)
         (rp_forward_settlement_contract plan)) t1 /\
    (t2 = [] \/ exists res, let received := lr_output_amount res in
       leg_done (E := E) base wallet
         (mkLeg (rp_from plan) (rp_to plan) (rp_order_type plan) (rp_requested_amount plan) wallet (Some forward)
            (rp_forward_settlement_contract plan)) res t1 /\
       within_leg (E := E) base signer wallet
         (mkLeg (with_balance (wa_balance (rp_to plan) + received) (rp_to plan)) (rp_from plan) (rp_order_type plan)
            (match rp_order_type plan with ExactInput => received | ExactOutput => lr_input_amount res end) wallet
            (Some (received + top_up)) (rp_reverse_settlement_contract plan)) t2).
Proof.
  intros Hb. destruct (leaves_round_trip jittered base chains signer wallet plan limits s)
    as (t & rs & Ht & _ & _ & _ & t1 & t2 & -> & Ht1 & Hr2). exists t1, t2. split; [done|].
  unfold forward_leg in *. rewrite Hb in Ht1, Hr2. split; [done|].
  destruct Hr2 as [?|(fwd & leg & Hf & Hleg & Ht2)]; [by left|]. right. exists fwd. split; [done|].
  unfold reverse_leg, with_received_balance in Hleg. rewrite Hb in Hleg.
  destruct (checked_add 256 (wa_balance (rp_to plan)) _) as [b|] eqn:Hadd; [|done]. apply checked_Some in Hadd as [<- _].
  destruct (checked_add 256 (lr_output_amount fwd) top_up) as [c|] eqn:Hcap; [|done]. apply checked_Some in Hcap as [<- _].
  simpl in Hleg. injection Hleg as <-. exact Ht2.
Qed.
