(* ===== verification/IntentBounds.v ===== *)
(** * Intents: plans, caps and the chains of a run

    What planning returns, what bounds a sweep and a traffic run, and that a
    run restricted to some chains stays on them. *)

From S2P Require Import Prelude Types Retry Journal Chain Plan Config Target Json Cosmos LoadNet Propose ProposeFacts RobustSend SignedCalls Intents IntentRun IntentSafety.

(** ** Shares of a balance (route.rs) *)

Lemma spendable_le asset spendable : spendable_balance asset = Some spendable -> spendable <= wa_balance asset.
Proof.
  unfold spendable_balance. destruct (wa_native asset); [|intros [= ->]; lia].
  intros [<- _]%checked_Some. unfold GAS_RESERVE_WEI. lia.
Qed.

(** The share is at most [wallet_bps] of the spendable balance, also where the
    product wraps. *)
Lemma candidate_amount_share asset wallet_bps a :
  0 <= wa_balance asset -> 0 <= wallet_bps -> candidate_amount asset wallet_bps = Some a ->
  exists spendable, spendable_balance asset = Some spendable /\ 0 < a /\ a * BPS_DENOMINATOR <= spendable * wallet_bps.
Proof.
  intros Hb Hw. unfold candidate_amount. destruct (spendable_balance asset) as [spendable|] eqn:Hs; [|done]. simpl.
  assert (0 <= spendable).
  { unfold spendable_balance in Hs. destruct (wa_native asset); [apply checked_Some in Hs as [_ [? _]]; done|]. by injection Hs as <-. }
  unfold is_zero. destruct (Z.eqb_spec ((spendable * wallet_bps) mod 2 ^ 256 / BPS_DENOMINATOR) 0) as [|Hn]; [done|].
  intros [= <-]. exists spendable. split; [done|].
  pose proof (Z.mod_pos_bound (spendable * wallet_bps) (2 ^ 256) ltac:(lia)) as Hm.
  pose proof (Z.mod_le (spendable * wallet_bps) (2 ^ 256) ltac:(nia) ltac:(lia)) as Hle.
  set (m := (spendable * wallet_bps) mod 2 ^ 256) in *. unfold BPS_DENOMINATOR in *.
  pose proof (Z.div_pos m 10000 ltac:(lia) ltac:(lia)). pose proof (Z.mul_div_le m 10000 ltac:(lia)). lia.
Qed.

(** A correction of an exact output asks for less, and for something. *)
Lemma calibrate_exact_output_less requested input limit a :
  0 <= limit -> 0 < requested -> 0 < input -> calibrate_exact_output requested input limit = Some a -> 0 < a < requested.
Proof.
  intros Hl Hr Hi. unfold calibrate_exact_output, is_zero. destruct (Z.eqb_spec input 0); [lia|]. cbv zeta.
  set (target := _ / BPS_DENOMINATOR). set (adjusted := Z.min _ _).
  destruct (negb (adjusted =? 0) && (adjusted <? requested)) eqn:Hok; [|done]. intros [= <-].
  apply andb_prop in Hok as [Hn%negb_true_iff%Z.eqb_neq Hlt%Z.ltb_lt].
  assert (0 <= adjusted); [|lia]. unfold adjusted. apply Z.min_glb; [|lia]. apply Z.div_pos; [|lia].
  by apply Z.mod_pos_bound.
Qed.

(** ** Plans *)

Section Plans.
Context {E : Type} `{PoolNode E, IntentNode E, EvmLib, CosmosAccounts, ConfigLib, IntentLib}.
Variables (base : string) (signer : Address).

(** A plan for a round trip between two assets, within its budget. *)
Definition planned (from to : WalletAsset) (order_type : OrderType) (budget : RoundTripInputBudget) (plan : RoutePlan) : Prop :=
  rp_from plan = from /\ rp_to plan = to /\ rp_order_type plan = order_type /\ rp_input_budget plan = budget /\
  forward_input_is_within_budget (rp_input_amount plan) budget = true /\
  exists spendable, spendable_balance from = Some spendable /\ rp_input_amount plan <= spendable.

Lemma silently_preflight_forward n from to order_type requested budget :
  silently (E := E) (preflight_forward n base from to signer order_type requested budget) (fun o => forall f, o = Some f ->
    forward_input_is_within_budget (fp_input f) budget = true /\
    exists spendable, spendable_balance from = Some spendable /\ fp_input f <= spendable).
Proof.
  revert requested. induction n as [|n IH]; intros requested; cbn [preflight_forward]; [by apply silently_ret|].
  eapply silently_bind; [apply silently_rfq_quote|]. intros [quote|reason] _; [|by apply silently_ret]. cbv zeta.
  eapply silently_bind; [apply silently_lift|]. intros u _. eapply silently_bind; [apply silently_lift|]. intros input Hi.
  destruct (forward_input_is_within_budget input budget) eqn:Hin.
  - eapply silently_bind; [apply silently_lift|]. intros u1 Hv. eapply silently_bind; [apply silently_lift|]. intros settlement _.
    eapply silently_bind; [apply silently_lift|]. intros output _. apply silently_ret. intros f [= <-]. simpl. split; [done|].
    exact (validate_quote_spendable _ _ _ _ _ _ _ Hv Hi).
  - destruct (negb _); [by apply silently_ret|].
    destruct (forward_input_limit budget ≫= _) as [adjusted|]; [apply IH|by apply silently_ret].
Qed.

Lemma silently_preflight_pair from to order_type requested budget :
  silently (E := E) (preflight_pair base from to signer order_type requested budget) (fun o => forall plan, o = Some plan ->
    planned from to order_type budget plan).
Proof.
  unfold preflight_pair. eapply silently_bind; [apply silently_preflight_forward|].
  intros [f|] Hf; [|by apply silently_ret]. destruct (Hf f eq_refl) as [Hin Hsp]. cbv zeta.
  eapply silently_bind; [apply silently_rfq_quote|]. intros [quote|reason] _; [|by apply silently_ret].
  eapply silently_bind; [apply silently_lift|]. intros src _. eapply silently_bind; [apply silently_lift|]. intros u _.
  eapply silently_bind; [apply silently_lift|]. intros input _. destruct (negb _); [by apply silently_ret|].
  eapply silently_bind; [apply silently_lift|]. intros ret _. eapply silently_bind; [apply silently_lift|]. intros settlement _.
  apply silently_ret. by intros plan [= <-].
Qed.

Lemma validate_quote_fixed q from to requested u input :
  validate_quote q from to ExactInput requested = Ok u -> parse_amount (qi_amount (qu_input q)) = Ok input -> input = requested.
Proof.
  unfold validate_quote, validate_quote_route. intros (u1 & Hr & _)%result_bind_ok Hi. rewrite Hi in Hr. simpl in Hr.
  apply ensure_ok_ok in Hr. apply andb_prop in Hr as [_ Heq]. by apply Z.eqb_eq.
Qed.

Lemma silently_preflight_leg from to sender recipient order_type requested :
  silently (E := E) (preflight_leg base from to sender recipient order_type requested) (fun o => forall plan, o = Some plan ->
    lp_from plan = from /\ lp_to plan = to /\ (order_type = ExactInput -> lp_input_amount plan = requested)).
Proof.
  unfold preflight_leg. eapply silently_bind; [apply silently_rfq_quote|]. intros [quote|reason] _; [|by apply silently_ret].
  cbv zeta. eapply silently_bind; [apply silently_lift|]. intros u Hv. eapply silently_bind; [apply silently_lift|]. intros input Hi.
  eapply silently_bind; [apply silently_lift|]. intros output _. eapply silently_bind; [apply silently_lift|]. intros settlement _.
  apply silently_ret. intros plan [= <-]. do 2 (split; [done|]). intros ->. by eapply validate_quote_fixed.
Qed.

Lemma silently_first_plan {P T} (f : P -> M (Desk E) (option T)) (φ : T -> Prop) pairs :
  (forall p, p ∈ pairs -> silently (f p) (fun o => forall plan, o = Some plan -> φ plan)) ->
  silently (first_plan f pairs) (fun o => forall plan, o = Some plan -> φ plan).
Proof.
  induction pairs as [|p pairs IH]; intros Hf; cbn [first_plan]; [by apply silently_ret|].
  eapply silently_bind; [apply silently_trying, Hf; by left|]. intros [[plan|]|e] Hp.
  - apply silently_ret. intros plan' [= <-]. by eapply Hp.
  - apply IH. intros p' Hp'. apply Hf. by right.
  - apply IH. intros p' Hp'. apply Hf. by right.
Qed.

Definition pair_key (plan : RoutePlan) : string * string := canonical_pair (wa_id (rp_from plan)) (wa_id (rp_to plan)).

(** A plan of a sweep: a pair of the list, started at its funded side, with the
    shares of the wallet as its budget. *)
Definition swept_plan (di : RouteDiscovery) (wallet_bps : Z) (order_type : OrderType) (pairs : list (WalletAsset * WalletAsset))
    (plan : RoutePlan) : Prop :=
  exists one other budget, (one, other) ∈ pairs /\ choose_start one other = (rp_from plan, rp_to plan) /\
    capped_input_budget (rp_from plan) (rp_to plan) wallet_bps = Some budget /\
    planned (rp_from plan) (rp_to plan) order_type budget plan /\
    chains_have_gas (di_assets di) (ai_chain_id (wa_id (rp_from plan))) (ai_chain_id (wa_id (rp_to plan))) = true.

Lemma swept_plan_cons di wallet_bps order_type p pairs plan :
  swept_plan di wallet_bps order_type pairs plan -> swept_plan di wallet_bps order_type (p :: pairs) plan.
Proof. intros (one & other & budget & Hin & Hrest). exists one, other, budget. split; [by right|done]. Qed.

Lemma silently_sweep_plans di wallet_bps order_type pairs seen :
  silently (E := E) (sweep_plans base di signer wallet_bps order_type pairs seen) (fun plans =>
    Forall (swept_plan di wallet_bps order_type pairs) plans /\ NoDup (map pair_key plans) /\
    forall plan, plan ∈ plans -> pair_key plan ∉ seen).
Proof.
  revert seen. induction pairs as [|[one other] pairs IH]; intros seen; cbn [sweep_plans].
  { apply silently_ret. split; [done|]. split; [constructor|]. by intros plan ?%not_elem_of_nil. }
  destruct (choose_start one other) as [from to] eqn:Hstart.
  set (key := canonical_pair (wa_id from) (wa_id to)).
  assert (forall plans, Forall (swept_plan di wallet_bps order_type pairs) plans /\ NoDup (map pair_key plans) /\
    (forall plan, plan ∈ plans -> pair_key plan ∉ key :: seen) ->
    Forall (swept_plan di wallet_bps order_type ((one, other) :: pairs)) plans /\ NoDup (map pair_key plans) /\
    (forall plan, plan ∈ plans -> pair_key plan ∉ seen)) as Hskip.
  { intros plans (Hf & Hn & Hs). split; [eapply Forall_impl; [|exact Hf]; intros plan; apply swept_plan_cons|]. split; [done|].
    intros plan Hp Hin. apply (Hs plan Hp). by right. }
  pose proof (silently_weaken _ _ _ (IH (key :: seen)) Hskip) as Hrest.
  destruct (bool_decide (key ∈ seen)) eqn:Hseen; [exact Hrest|]. apply bool_decide_eq_false in Hseen.
  destruct (is_zero (wa_balance from)); [exact Hrest|]. simpl.
  destruct (candidate_quote_amount from to order_type wallet_bps) as [amount|]; [|exact Hrest].
  destruct (capped_input_budget from to wallet_bps) as [budget|] eqn:Hbudget; [|exact Hrest].
  destruct (chains_have_gas _ _ _) eqn:Hgas; [|exact Hrest]. simpl.
  eapply silently_bind; [apply silently_trying, silently_preflight_pair|]. intros plan Hplan.
  eapply silently_bind; [apply IH|]. intros plans Hplans. apply silently_ret.
  destruct plan as [[plan|]|e]; [|by apply Hskip..].
  pose proof (Hplan _ eq_refl _ eq_refl) as Hp. pose proof Hp as (Hfrom & Hto & _). subst from to.
  destruct (Hskip _ Hplans) as (Hf & Hn & Hs). destruct Hplans as (_ & _ & Hs').
  split; [|split].
  - constructor; [|done]. exists one, other, budget. split; [by left|done].
  - simpl. constructor; [|done]. intros (plan' & Heq & Hin)%list_elem_of_fmap. apply (Hs' plan' Hin). rewrite <- Heq. by left.
  - intros plan' [->|Hin]%elem_of_cons; [done|]. by apply Hs.
Qed.
End Plans.

Lemma elem_unordered assets t one other :
  (one, other) ∈ unordered_cross_chain_pairs assets t ->
  one ∈ assets /\ other ∈ assets /\ ai_chain_id (wa_id one) <> ai_chain_id (wa_id other) /\
  matches t one = true /\ matches t other = true.
Proof.
  induction assets as [|a rest IH]; cbn [unordered_cross_chain_pairs]; [by intros ?%not_elem_of_nil|].
  intros [Hin|Hin]%elem_of_app.
  - apply list_elem_of_fmap in Hin as (b & [= -> ->] & [Hb Hok]%list_elem_of_In%filter_In).
    apply andb_prop in Hok as [[[Hne%negb_true_iff%bool_decide_eq_false H1]%andb_prop H2]%andb_prop _].
    split; [by left|]. split; [right; by apply list_elem_of_In|done].
  - destruct (IH Hin) as (? & ? & ?). split; [by right|]. split; [by right|done].
Qed.

Lemma elem_directed assets t from to :
  (from, to) ∈ directed_cross_chain_pairs assets t ->
  from ∈ assets /\ to ∈ assets /\ ai_chain_id (wa_id from) <> ai_chain_id (wa_id to).
Proof.
  unfold directed_cross_chain_pairs. intros (a & Hin & Ha)%list_elem_of_bind.
  apply list_elem_of_fmap in Hin as (b & [= -> ->] & [Hb Hok]%list_elem_of_In%filter_In).
  apply andb_prop in Hok as [[_ Hne%negb_true_iff%bool_decide_eq_false]%andb_prop _].
  split; [done|]. split; [by apply list_elem_of_In|done].
Qed.

Lemma chosen one other from to :
  choose_start one other = (from, to) -> (from = one /\ to = other) \/ (from = other /\ to = one).
Proof. unfold choose_start. destruct (_ && _); intros [= <- <-]; auto. Qed.

(** Every plan of a sweep is a round trip between two assets of the wallet on
    different chains and of the asked kind; its budget is [wallet_bps] of the
    spendable balance of the source, and at most as much of the destination for
    the way back; what the quote of its first leg takes is within that budget;
    both chains have gas; and no pair is planned twice. *)
Theorem sweep_plans_spec {E : Type} `{PoolNode E, IntentNode E, EvmLib, CosmosAccounts, ConfigLib, IntentLib}
    base di signer t wallet_bps order_type (s s' : Desk E) plans :
  Forall (fun a => 0 <= wa_balance a) (di_assets di) -> 0 <= wallet_bps ->
  plan_sweep base di signer t wallet_bps order_type s = (Ok plans, s') ->
  NoDup (map pair_key plans) /\
  Forall (fun plan => let from := rp_from plan in let to := rp_to plan in
    from ∈ di_assets di /\ to ∈ di_assets di /\ ai_chain_id (wa_id from) <> ai_chain_id (wa_id to) /\
    matches t from = true /\ matches t to = true /\
    chains_have_gas (di_assets di) (ai_chain_id (wa_id from)) (ai_chain_id (wa_id to)) = true /\
    exists forward top_up spendable, rp_input_budget plan = Capped forward top_up /\ rp_input_amount plan <= forward /\
      spendable_balance from = Some spendable /\ forward * BPS_DENOMINATOR <= spendable * wallet_bps /\
      (top_up = 0 \/ exists spare, spendable_balance to = Some spare /\ top_up * BPS_DENOMINATOR <= spare * wallet_bps)) plans.
Proof.
  intros Hbal Hbps Hrun.
  destruct (silently_sweep_plans (E := E) base signer di wallet_bps order_type (unordered_cross_chain_pairs (di_assets di) t) [] s)
    as (tr & rs & _ & _ & _ & _ & _ & Hplans).
  unfold plan_sweep in Hrun. rewrite Hrun in Hplans. destruct (Hplans _ eq_refl) as (Hf & Hn & _). split; [done|].
  eapply Forall_impl; [|exact Hf]. intros plan (one & other & budget & Hin & Hstart & Hbudget & Hp & Hgas). cbv zeta.
  apply elem_unordered in Hin as (Hone & Hother & Hne & Hm1 & Hm2).
  assert (rp_from plan ∈ di_assets di /\ rp_to plan ∈ di_assets di /\
    ai_chain_id (wa_id (rp_from plan)) <> ai_chain_id (wa_id (rp_to plan)) /\
    matches t (rp_from plan) = true /\ matches t (rp_to plan) = true) as (Hfrom & Hto & Hne' & Hm1' & Hm2').
  { apply chosen in Hstart as [[-> ->]|[-> ->]]; auto. }
  repeat (split; [done|]). assert (forall a, a ∈ di_assets di -> 0 <= wa_balance a) as Hpos.
  { intros a Ha%list_elem_of_In. by apply (proj1 (List.Forall_forall _ _) Hbal). }
  destruct Hp as (_ & _ & _ & Hb & Hin & _).
  unfold capped_input_budget in Hbudget. destruct (candidate_amount (rp_from plan) wallet_bps) as [forward|] eqn:Hc; [|done].
  injection Hbudget as <-. destruct (candidate_amount_share _ _ _ (Hpos _ Hfrom) Hbps Hc) as (spendable & Hs & _ & Hle).
  exists forward, (default 0 (candidate_amount (rp_to plan) wallet_bps)), spendable. split; [done|].
  split; [by apply Z.leb_le|]. do 2 (split; [done|]).
  destruct (candidate_amount (rp_to plan) wallet_bps) as [top|] eqn:Hc2; [right|by left].
  destruct (candidate_amount_share _ _ _ (Hpos _ Hto) Hbps Hc2) as (spare & Hs2 & _ & Hle2). by exists spare.
Qed.

(** ** Discovery *)

Section Discovery.
Context {E : Type} `{PoolNode E, IntentNode E, EvmLib, CosmosAccounts, ConfigLib, IntentLib}.
Variables (jittered : Z -> Z) (env_var : string -> option string).

(** The configuration has a chain with the number of this identifier. *)
Definition known_chain (config : ChainsConfig) (caip2 : string) : Prop :=
  exists reference id key chain, strip_prefix "eip155:" caip2 = Some reference /\ parse_uint 64 reference = Some id /\
    cfg_chains config !! key = Some chain /\ cc_evm_chain_id chain = Some id.

Definition resolved_in (config : ChainsConfig) (chains : gmap string ChainRuntime) : Prop :=
  forall caip2 rt, chains !! caip2 = Some rt -> known_chain config caip2.

Lemma silently_resolve_chain config chain :
  silently (E := E) (resolve_chain env_var config chain) (fun o => forall rt, o = Some rt -> known_chain config (ci_chain_id chain)).
Proof.
  unfold resolve_chain. destruct (strip_prefix "eip155:" (ci_chain_id chain)) as [reference|] eqn:Hs; simpl;
    [|by apply silently_ret]. destruct (parse_uint 64 reference) as [id|] eqn:Hid; [|by apply silently_ret].
  destruct (evm_chain_candidates config id (ci_chain_label chain)) as [|[key c] rest] eqn:Hc; [by apply silently_ret|].
  assert (known_chain config (ci_chain_id chain)) as Hknown.
  { assert ((key, c) ∈ evm_chain_candidates config id (ci_chain_label chain)) as Hin by (rewrite Hc; by left).
    unfold evm_chain_candidates in Hin. rewrite merge_sort_Permutation in Hin.
    apply list_elem_of_In, filter_In in Hin as [Hin%list_elem_of_In%elem_of_map_to_list Hok%bool_decide_eq_true].
    by exists reference, id, key, c. }
  eapply (silently_bind _ _ (fun _ => True)); [|intros url _; by apply silently_ret].
  eapply silently_weaken; [apply (silently_first_some _ (fun _ => True))|done]. intros url.
  unfold validate_rpc_candidate. destruct (connect _ _); [|by apply silently_ret].
  eapply silently_bind; [apply silently_consult|]. intros answer _. by apply silently_ret.
Qed.

Lemma silently_resolve config catalog chains :
  resolved_in config chains -> silently (E := E) (resolve_evm_chains env_var config catalog chains) (resolved_in config).
Proof.
  revert chains. induction catalog as [|chain catalog IH]; intros chains Hc; cbn [resolve_evm_chains]; [by apply silently_ret|].
  destruct (bool_decide _); [|by apply IH]. eapply silently_bind; [apply silently_resolve_chain|]. intros [rt|] Hrt; [|by apply IH].
  apply IH. intros caip2 rt' [[<- <-]|[_ Hl]]%lookup_insert_Some; [by eapply Hrt|by eapply Hc].
Qed.

Lemma silently_balance chain asset wallet : silently (E := E) (read_asset_balance jittered chain asset wallet) (fun _ => True).
Proof. unfold read_asset_balance. hush. Qed.

Lemma silently_wallet_assets chains tokens wallet :
  silently (E := E) (read_wallet_assets jittered chains tokens wallet) (fun assets =>
    forall a, a ∈ assets -> is_Some (chains !! ai_chain_id (wa_id a))).
Proof.
  induction tokens as [|token tokens IH]; cbn [read_wallet_assets]; [apply silently_ret; by intros a ?%not_elem_of_nil|].
  destruct (chains !! ti_chain_id token) as [chain|] eqn:Hc; [|apply IH].
  eapply silently_bind; [apply silently_trying, silently_balance|]. intros balance _.
  eapply silently_bind; [apply IH|]. intros assets Ha. apply silently_ret. destruct balance as [b|]; [|done].
  intros a [->|Hin]%elem_of_cons; [by exists chain|by apply Ha].
Qed.

Definition discovered (config : ChainsConfig) (di : RouteDiscovery) : Prop :=
  forall a, a ∈ di_assets di -> known_chain config (ai_chain_id (wa_id a)).

Lemma silently_discover config base wallet :
  silently (E := E) (discover_wallet jittered env_var base config wallet) (discovered config).
Proof.
  unfold discover_wallet, rfq_chains, rfq_tokens. eapply (silently_bind _ _ (fun _ => True)); [hush|]. intros cs _.
  eapply (silently_bind _ _ (fun _ => True)); [hush|]. intros ts _.
  eapply silently_bind; [apply silently_resolve; by intros c rt ?|]. intros chains Hc.
  eapply silently_bind; [apply silently_wallet_assets|]. intros assets Ha.
  eapply silently_bind; [apply silently_ensure|]. intros _ _. apply silently_ret. intros a Hin.
  destruct (Ha a Hin) as [rt Hrt]. by eapply Hc.
Qed.
End Discovery.

(** ** Plans use the assets of the wallet *)

(** [shuffle] permutes. *)
Class ShuffleLaw (E : Type) `{IntentNode E} : Prop := { shuffle_perm l (e : E) : (shuffle l e).1 ≡ₚ l }.

Section Sources.
Context {E : Type} `{PoolNode E, IntentNode E, EvmLib, CosmosAccounts, ConfigLib, IntentLib, !ShuffleLaw E}.
Variables (base : string).

Lemma explicit_assets_in assets from to t from' to' :
  explicit_assets assets from to t = Ok (from', to') -> from' ∈ assets /\ to' ∈ assets.
Proof.
  unfold explicit_assets. intros (u & _ & Hr)%result_bind_ok. cbv zeta in Hr.
  apply result_bind_ok in Hr as (a & Ha%ok_or_ok & Hr). apply result_bind_ok in Hr as (b & Hb%ok_or_ok & Hr).
  apply result_bind_ok in Hr as (u1 & _ & [= <- <-]). apply find_some in Ha as [Ha _]. apply find_some in Hb as [Hb _].
  split; by apply list_elem_of_In.
Qed.

Lemma silently_shuffled assets t :
  silently (E := E) (consult (shuffle (directed_cross_chain_pairs assets t))) (fun pairs =>
    forall from to, (from, to) ∈ pairs -> from ∈ assets /\ to ∈ assets).
Proof.
  eapply silently_weaken; [apply silently_consult|]. intros pairs [e ->] from to Hin. rewrite shuffle_perm in Hin.
  apply elem_directed in Hin as (? & ? & _). done.
Qed.

Lemma silently_plan_send di signer recipient choice :
  silently (E := E) (plan_send base di signer recipient choice) (fun plan => lp_from plan ∈ di_assets di).
Proof.
  destruct choice as [bps ot t|from to amount bps ot t]; cbn [plan_send].
  - unfold random_send_plan. eapply silently_bind; [apply silently_shuffled|]. intros pairs Hpairs.
    eapply silently_bind; [apply (silently_first_plan _ (fun plan => lp_from plan ∈ di_assets di))|].
    + intros [from to] Hin. destruct (negb _); [by apply silently_ret|].
      destruct (candidate_quote_amount _ _ _ _) as [amount|]; [|by apply silently_ret].
      eapply silently_weaken; [apply silently_preflight_leg|]. intros o Ho plan Hplan. destruct (Ho plan Hplan) as [-> _].
      by apply (Hpairs from to).
    + intros plan Hplan. eapply silently_weaken; [apply silently_lift|]. intros p Hp%ok_or_ok. by apply Hplan.
  - eapply silently_bind; [apply silently_lift|]. intros [a b] Hab%explicit_assets_in.
    eapply silently_bind; [apply silently_lift|]. intros u _. eapply silently_bind; [apply silently_lift|]. intros x _.
    eapply silently_bind; [apply silently_preflight_leg|]. intros plan Hplan.
    eapply silently_weaken; [apply silently_lift|]. intros p Hp%ok_or_ok. destruct (Hplan p Hp) as [-> _]. apply Hab.
Qed.

Definition between (di : RouteDiscovery) (plan : RoutePlan) : Prop := rp_from plan ∈ di_assets di /\ rp_to plan ∈ di_assets di.

Lemma silently_plan_roundtrip di signer choice :
  silently (E := E) (plan_roundtrip base di signer choice) (between di).
Proof.
  destruct choice as [bps ot t|from to amount bps ot t]; cbn [plan_roundtrip].
  - unfold random_roundtrip_plan. eapply silently_bind; [apply silently_shuffled|]. intros pairs Hpairs.
    eapply silently_bind; [apply (silently_first_plan _ (between di))|].
    + intros [from to] Hin. destruct (negb _); [by apply silently_ret|].
      destruct (candidate_quote_amount _ _ _ _) as [amount|]; [|by apply silently_ret].
      destruct (capped_input_budget _ _ _) as [budget|]; [|by apply silently_ret].
      eapply silently_weaken; [apply silently_preflight_pair|]. intros o Ho plan Hplan.
      destruct (Ho plan Hplan) as (Hf & Ht & _). unfold between. rewrite Hf, Ht. by apply Hpairs.
    + intros plan Hplan. eapply silently_weaken; [apply silently_lift|]. intros p Hp%ok_or_ok. by apply Hplan.
  - eapply silently_bind; [apply silently_lift|]. intros [a b] Hab%explicit_assets_in.
    eapply silently_bind; [apply silently_lift|]. intros u _. eapply silently_bind; [apply silently_lift|]. intros budget _.
    eapply silently_bind; [apply silently_lift|]. intros x _.
    eapply silently_bind; [apply silently_preflight_pair|]. intros plan Hplan.
    eapply silently_weaken; [apply silently_lift|]. intros p Hp%ok_or_ok. destruct (Hplan p Hp) as (Hf & Ht & _).
    unfold between. by rewrite Hf, Ht.
Qed.

Lemma silently_plan_sweep di signer t wallet_bps order_type :
  silently (E := E) (plan_sweep base di signer t wallet_bps order_type) (Forall (between di)).
Proof.
  eapply silently_weaken; [apply silently_sweep_plans|]. intros plans (Hf & _ & _). eapply Forall_impl; [|exact Hf].
  intros plan (one & other & budget & (? & ? & _)%elem_unordered & Hc%chosen & _). unfold between.
  destruct Hc as [[-> ->]|[-> ->]]; done.
Qed.
End Sources.

(** ** Staying on the allowed chains *)

Section Inside.
Context {E : Type} `{PoolNode E, IntentNode E, EvmLib, CosmosAccounts, ConfigLib, IntentLib, !ApproveBytes, !ShuffleLaw E}.
Abbreviation D := (Desk E).
Variables (jittered : Z -> Z) (env_var : string -> option string).

(** The program adds events that satisfy [good]. *)
Definition only {T} (good : intent_event -> Prop) (m : M D T) (φ : T -> Prop) : Prop :=
  forall s, exists t, dk_trace (m s).2 = dk_trace s ++ t /\ Forall good t /\ forall a, (m s).1 = Ok a -> φ a.

Lemma only_bind {T U} good (m : M D T) (f : T -> M D U) φ ψ :
  only good m φ -> (forall a, φ a -> only good (f a) ψ) -> only good (m ≫= f) ψ.
Proof.
  intros Hm Hf s. destruct (Hm s) as (t & Ht & Hg & Ha). unfold mbind, M_bind.
  destruct (m s) as [[a|e] s1]; simpl in *; [|by exists t].
  destruct (Hf a (Ha a eq_refl) s1) as (t' & Ht' & Hg' & Ha'). exists (t ++ t'). rewrite Ht', Ht, app_assoc.
  split; [done|]. split; [by apply Forall_app|done].
Qed.
Lemma only_yields {T} good (m : M D T) Q :
  leaves m Q -> (forall r t rs, Q r t rs -> Forall good t) -> only good m (fun _ => True).
Proof. intros Hm Hq s. destruct (Hm s) as (t & rs & Ht & _ & _ & HQ). exists t. split; [done|]. by split; [eapply Hq|]. Qed.
Lemma only_silently {T} good (m : M D T) φ : silently m φ -> only good m φ.
Proof. intros Hm s. destruct (Hm s) as (t & rs & Ht & _ & _ & -> & _ & Ha). by exists []. Qed.
Lemma only_modify good f : (forall s : D, dk_trace (f s) = dk_trace s) -> only good (modify f) (fun _ => True).
Proof. intros Hf s. exists []. simpl. by rewrite Hf, app_nil_r. Qed.
Lemma only_trying {T} good (m : M D T) φ : only good m φ -> only good (trying m) (fun _ => True).
Proof. intros Hm s. destruct (Hm s) as (t & Ht & Hg & _). exists t. unfold trying. by destruct (m s) as [[a|[]] s']. Qed.
Lemma only_get {T} good (f : D -> M D T) φ : (forall s, only good (f s) φ) -> only good (s ← get; f s) φ.
Proof. intros Hf s. exact (Hf s s). Qed.

(** A request on a chain of the configuration. *)
Definition inside (config : ChainsConfig) (ev : intent_event) : Prop :=
  match ev with
  | Handed _ rq => exists key chain id, cfg_chains config !! key = Some chain /\ cc_evm_chain_id chain = Some id /\
                     rq_chain_id rq = Some id
  | _ => True
  end.

Lemma handed_elem label rq t : Handed label rq ∈ t -> (label, rq) ∈ handed t.
Proof. intros Hin. apply list_elem_of_omap. by exists (Handed label rq). Qed.

Lemma on_chain_inside config asset label rq :
  known_chain config (ai_chain_id (wa_id asset)) -> on_chain_of asset rq -> inside config (Handed label rq).
Proof.
  intros (ref & id & key & chain & Hs & Hp & Hk & Hc) (ref' & id' & Hs' & Hp' & Hrq). exists key, chain, id.
  rewrite Hs in Hs'. injection Hs' as <-. rewrite Hp in Hp'. by injection Hp' as <-.
Qed.

Lemma leg_inside config signer wallet offer from settlement maximum t :
  known_chain config (ai_chain_id (wa_id from)) -> leg_trace (E := E) signer wallet offer from settlement maximum t ->
  Forall (inside config) t.
Proof.
  intros Hk (_ & Hh). apply List.Forall_forall. intros [label rq|ev|p y] Hin%list_elem_of_In; [|done..].
  apply handed_elem in Hin. destruct Hh as [Hh|(q & input & aps & ds & _ & _ & _ & Hh & _ & Ha & _ & Hd)].
  { rewrite Hh in Hin. by apply not_elem_of_nil in Hin. }
  rewrite Hh in Hin. apply (on_chain_inside _ from); [done|].
  apply elem_of_app in Hin as [Hin|Hin]; apply list_elem_of_fmap in Hin as (rq' & [= -> ->] & Hin%list_elem_of_In).
  - by apply (proj1 (List.Forall_forall _ _) Ha) in Hin as (_ & _ & _ & ? & _).
  - by apply (proj1 (List.Forall_forall _ _) Hd) in Hin as (_ & _ & ? & _).
Qed.

Lemma round_trip_inside config base signer wallet plan t :
  known_chain config (ai_chain_id (wa_id (rp_from plan))) -> known_chain config (ai_chain_id (wa_id (rp_to plan))) ->
  round_trip_trace (E := E) base signer wallet plan t -> Forall (inside config) t.
Proof.
  intros Hf Ht (t1 & t2 & -> & Hl1 & Hr2). apply Forall_app. split; [exact (leg_inside _ _ _ _ _ _ _ _ Hf Hl1)|].
  destruct Hr2 as [->|(fwd & leg & _ & Hleg & Hl2)]; [done|]. eapply leg_inside; [|exact Hl2].
  unfold reverse_leg, with_received_balance in Hleg. destruct (checked_add _ _ _); [|done]. simpl in Hleg.
  destruct (match rp_input_budget plan with SpendableBalance => _ | _ => _ end) as [lim|]; [|done]. simpl in Hleg.
  by injection Hleg as <-.
Qed.
End Inside.

Section Restricted.
Context {E : Type} `{PoolNode E, IntentNode E, EvmLib, CosmosAccounts, ConfigLib, IntentLib, !ApproveBytes, !ShuffleLaw E}.
Abbreviation D := (Desk E).
Variables (jittered : Z -> Z) (env_var : string -> option string).

(** A request on a chain of the configuration file that the run may use. *)
Definition permitted (args : IntentRuntimeArgs) (ev : intent_event) : Prop :=
  match ev with
  | Handed _ rq => exists (e : E) config key chain id, (config_file (ia_config args) e).1 ≫= chains_config = Some config /\
      cfg_chains config !! key = Some chain /\ allowed_chain (ia_allowed_chains args) key chain = true /\
      cc_evm_chain_id chain = Some id /\ rq_chain_id rq = Some id
  | _ => True
  end.

(** The runtime works with the chains it may use. *)
Definition narrowed (args : IntentRuntimeArgs) (rt : IntentRuntime) : Prop :=
  forall ev, inside (ir_config rt) ev -> permitted args ev.

Lemma silently_prepare args : ia_allowed_chains args <> [] -> silently (E := E) (prepare_runtime args) (narrowed args).
Proof.
  intros Ha. unfold prepare_runtime. eapply silently_bind; [apply silently_lift|]. intros wallet _.
  eapply silently_bind; [apply silently_consult|]. intros file [e He].
  eapply silently_bind; [apply silently_lift|]. intros config Hc%ok_or_ok.
  eapply silently_bind; [apply silently_lift|]. intros base _. apply silently_ret. intros [label rq|ev|p y]; [|done..].
  cbn [inside ir_config]. unfold retain_chains. rewrite bool_decide_eq_false_2 by done. cbn [cfg_chains].
  intros (key & chain & id & [Hk Hok]%map_lookup_filter_Some & Hid & Hrq). simpl in Hok.
  exists e, config, key, chain, id. by rewrite <- He.
Qed.

Lemma only_weaken {T} (good good' : intent_event -> Prop) (m : M D T) (φ ψ : T -> Prop) :
  only good m φ -> (forall ev, good ev -> good' ev) -> (forall a, φ a -> ψ a) -> only good' m ψ.
Proof.
  intros Hm Hg Hp s. destruct (Hm s) as (t & Ht & Hgt & Ha). exists t. split; [done|]. split; [|eauto].
  eapply Forall_impl; [|exact Hgt]. exact Hg.
Qed.

Lemma only_round_trip rt di plan :
  discovered (ir_config rt) di -> between di plan ->
  only (inside (ir_config rt)) (execute_round_trip (E := E) jittered (ir_base_url rt) (di_chains di) (ir_signer rt)
    (ir_wallet rt) plan (ir_limits rt)) (fun _ => True).
Proof.
  intros Hd [Hf Ht]. eapply only_yields; [apply leaves_round_trip|]. intros r t rs [_ Hr].
  eapply round_trip_inside; [by apply Hd|by apply Hd|exact Hr].
Qed.

Lemma only_planned_leg rt di plan :
  discovered (ir_config rt) di -> lp_from plan ∈ di_assets di ->
  only (inside (ir_config rt)) (execute_planned_leg (E := E) jittered (ir_base_url rt) (di_chains di) (ir_signer rt)
    (ir_wallet rt) plan (ir_limits rt)) (fun _ => True).
Proof.
  intros Hd Hf. eapply only_yields; [apply leaves_planned_leg|]. intros r t rs (_ & Hl & _).
  eapply leg_inside; [by apply Hd|exact Hl].
Qed.

Lemma only_prompt good prompt : (forall p y, good (Consented p y)) -> only good (prompt_operator (E := E) prompt) (fun _ => True).
Proof.
  intros Hg. unfold prompt_operator. eapply only_bind; [apply only_silently, silently_consult|]. intros yes _.
  eapply (only_bind _ _ _ (fun _ => True)); [|intros _ _; by apply only_silently, silently_ret].
  intros s. exists [Consented prompt yes]. split; [done|]. split; [by apply Forall_singleton|done].
Qed.

Lemma silently_lock wallet : silently (E := E) (acquire_lock wallet) (fun _ => True).
Proof. unfold acquire_lock. hush. Qed.

Lemma only_sweep_pass rt di plans :
  discovered (ir_config rt) di -> Forall (between di) plans ->
  only (inside (ir_config rt)) (execute_sweep_pass (E := E) jittered rt di plans) (fun _ => True).
Proof.
  intros Hd. induction 1 as [|plan plans Hp _ IH]; cbn [execute_sweep_pass]; [by apply only_silently, silently_ret|].
  eapply only_bind; [apply only_silently, silently_consult|]. intros [] _; [by apply only_silently, silently_ret|].
  eapply only_bind; [by apply only_round_trip|]. intros _ _. apply IH.
Qed.

Lemma only_sweep_loop fuel args rt planned n :
  only (inside (ir_config rt)) (sweep_loop (E := E) jittered env_var fuel args rt planned n) (fun _ => True).
Proof.
  revert planned n. induction fuel as [|fuel IH]; intros planned n; cbn [sweep_loop]; [apply only_silently, silently_throw|].
  assert (only (inside (ir_config rt)) (swept (E := E)) (fun _ => True)) as Hswept by apply only_silently, silently_look.
  cbv zeta. eapply only_bind; [apply only_silently, silently_discover|]. intros di Hd.
  eapply only_bind; [apply only_silently, silently_plan_sweep|]. intros plans Hp.
  eapply only_bind; [apply only_silently, silently_ensure|]. intros _ _.
  destruct (sw_dry_run args); [done|]. destruct (would_exceed _ _ _); [done|].
  eapply only_bind; [by apply only_sweep_pass|]. intros completed _.
  destruct (negb completed); [done|]. destruct (_ && _); [done|].
  eapply only_bind; [apply only_silently, silently_consult|]. intros [] _; [done|apply IH].
Qed.

Lemma only_modes rt bps bounds modes found :
  only (inside (ir_config rt)) (run_modes (E := E) jittered env_var rt bps bounds modes found) (fun _ => True).
Proof.
  revert found. induction modes as [|[i [t ot]] modes IH]; intros found; cbn [run_modes]; [by apply only_silently, silently_ret|].
  eapply only_bind; [apply only_silently, silently_consult|]. intros [] _; [by apply only_silently, silently_ret|].
  apply only_get. intros s0. eapply (only_bind _ _ _ (fun _ => True)); [apply only_silently; unfold reached; hush|].
  intros [r|] _; [by apply only_silently, silently_ret|].
  eapply only_bind; [apply only_silently, silently_discover|]. intros di Hd.
  eapply only_bind; [apply only_silently, silently_plan_sweep|]. intros plans Hp.
  eapply only_bind; [apply only_silently, silently_consult|]. intros [] _; [by apply only_silently, silently_ret|].
  apply only_get. intros s1. cbv zeta. destruct (plans !! _) as [plan|] eqn:Hplan; [|apply IH].
  assert (between di plan) as Hb by by eapply Forall_lookup_1.
  eapply only_bind; [by apply only_modify|]. intros _ _. eapply only_bind; [by apply only_modify|]. intros _ _.
  eapply only_bind; [by eapply only_trying, only_round_trip|]. intros outcome _. apply only_get. intros s2.
  eapply only_bind; [by apply only_modify|]. intros _ _. eapply only_bind; [apply only_silently, silently_lift|]. intros _ _. apply IH.
Qed.

Lemma only_traffic_loop fuel args rt bounds :
  only (inside (ir_config rt)) (traffic_loop (E := E) jittered env_var fuel args rt bounds) (fun _ => True).
Proof.
  induction fuel as [|fuel IH]; cbn [traffic_loop]; [apply only_silently, silently_throw|].
  eapply only_bind; [apply only_silently, silently_consult|]. intros [] _; [by apply only_silently, silently_ret|].
  apply only_get. intros s0. eapply (only_bind _ _ _ (fun _ => True)); [apply only_silently; unfold reached; hush|].
  intros [r|] _; [by apply only_silently, silently_ret|].
  eapply only_bind; [by eapply only_trying, only_modes|]. intros outcome _.
  eapply (only_bind _ _ _ (fun _ => True)); [|intros _ _; apply IH].
  destruct outcome as [[]|e]; [by apply only_silently, silently_ret|by apply only_modify|].
  eapply only_bind; [by apply only_modify|]. intros _ _. by apply only_modify.
Qed.
End Restricted.

(** C21: a run that may use some chains only sends on these.  Every transaction that
    a quote, a send, a round trip, a sweep or a traffic run hands to the sender
    is for a chain of the configuration file whose name or Axelar id is in the
    list, whatever the RFQ service offers and whatever route was named. *)
Theorem restricted_run_stays_inside {E : Type} `{PoolNode E, IntentNode E, EvmLib, CosmosAccounts, ConfigLib, IntentLib, !ApproveBytes,
    !ShuffleLaw E} jittered env_var args :
  ia_allowed_chains args <> [] ->
  (forall route sender recipient json,
     only (permitted (E := E) args) (quote jittered env_var args route sender recipient json) (fun _ => True)) /\
  (forall route recipient, only (permitted (E := E) args) (send jittered env_var args route recipient) (fun _ => True)) /\
  (forall route, only (permitted (E := E) args) (roundtrip jittered env_var args route) (fun _ => True)) /\
  (forall fuel sw, sw_runtime sw = args -> only (permitted (E := E) args) (sweep jittered env_var fuel sw) (fun _ => True)) /\
  (forall fuel ta, ta_runtime ta = args -> only (permitted (E := E) args) (traffic jittered env_var fuel ta) (fun _ => True)).
Proof.
  intros Ha. split; [|split; [|split; [|split]]].
  - intros route sender recipient json. unfold quote. eapply only_bind; [by apply only_silently, silently_prepare|]. intros rt Hrt.
    eapply only_bind; [apply only_silently, silently_lift|]. intros _ _. cbv zeta.
    eapply only_bind; [apply only_silently, silently_discover|]. intros di Hd.
    eapply only_bind; [apply only_silently, silently_plan_send|]. intros plan Hp.
    destruct (json || _); [by apply only_silently, silently_ret|]. eapply only_bind; [by apply only_prompt|]. intros [] _; simpl;
      [|by apply only_silently, silently_ret]. eapply only_bind; [apply only_silently, silently_lock|]. intros _ _.
    eapply (only_bind _ _ _ (fun _ => True)); [|intros r _; by apply only_silently, silently_ret].
    eapply only_weaken; [by apply only_planned_leg|exact Hrt|done].
  - intros route recipient. unfold send. eapply only_bind; [by apply only_silently, silently_prepare|]. intros rt Hrt.
    eapply only_bind; [apply only_silently, silently_lift|]. intros _ _.
    eapply only_bind; [apply only_silently, silently_discover|]. intros di Hd.
    eapply only_bind; [apply only_silently, silently_plan_send|]. intros plan Hp.
    eapply (only_bind _ _ _ (fun _ => True)).
    { unfold confirm_execution. destruct (ir_auto_confirm rt); [by apply only_silently, silently_ret|].
      eapply only_bind; [by apply only_prompt|]. intros yes _. eapply only_silently, silently_weaken; [apply silently_ensure|done]. }
    intros _ _. eapply only_bind; [apply only_silently, silently_lock|]. intros _ _.
    eapply only_weaken; [by apply only_planned_leg|exact Hrt|done].
  - intros route. unfold roundtrip. eapply only_bind; [by apply only_silently, silently_prepare|]. intros rt Hrt.
    eapply only_bind; [apply only_silently, silently_lift|]. intros _ _.
    eapply only_bind; [apply only_silently, silently_discover|]. intros di Hd.
    eapply only_bind; [apply only_silently, silently_plan_roundtrip|]. intros plan Hp.
    eapply only_bind; [apply only_silently, silently_lock|]. intros _ _. eapply only_bind; [by apply only_modify|]. intros _ _.
    eapply (only_bind _ _ _ (fun _ => True)); [|intros _ _; apply only_silently, silently_look].
    eapply only_weaken; [by apply only_round_trip|exact Hrt|done].
  - intros fuel sw <-. unfold sweep. eapply only_bind; [by apply only_silently, silently_prepare|]. intros rt Hrt.
    eapply (only_bind _ _ _ (fun _ => True)).
    { destruct (sw_dry_run sw); apply only_silently; [by apply silently_ret|apply silently_lock]. }
    intros _ _. eapply only_bind; [by apply only_modify|]. intros _ _. eapply only_weaken; [apply only_sweep_loop|exact Hrt|done].
  - intros fuel ta <-. unfold traffic. eapply only_bind; [by apply only_silently, silently_prepare|]. intros rt Hrt.
    eapply only_bind; [apply only_silently, silently_lock|]. intros _ _.
    eapply only_bind; [apply only_silently, silently_instant|]. intros now _. cbv zeta.
    eapply only_bind; [by apply only_modify|]. intros _ _.
    eapply (only_bind _ _ _ (fun _ => True)); [|intros r _; apply only_silently, silently_look].
    eapply only_weaken; [apply only_traffic_loop|exact Hrt|done].
Qed.
