(* ===== verification/IntentCaps.v ===== *)
(** * Intents: what bounds a sweep and a traffic run, and that a leg ends *)

From S2P Require Import Prelude Types Retry Journal Chain Plan Config Target Json Cosmos LoadNet Propose ProposeFacts RobustSend SignedCalls Intents IntentRun IntentSafety IntentBounds.

(** ** Counting deposits *)

Definition deposits (t : list intent_event) : nat :=
  length (List.filter (fun lr => bool_decide (lr.1 = DEPOSIT_LABEL)) (handed t)).

Lemma deposits_app t u : deposits (t ++ u) = (deposits t + deposits u)%nat.
Proof. unfold deposits. by rewrite handed_app, List.filter_app, length_app. Qed.

Section Counting.
Context {E : Type} `{PoolNode E, IntentNode E, EvmLib, CosmosAccounts, ConfigLib, IntentLib, !ApproveBytes}.
Abbreviation D := (Desk E).
Variables (jittered : Z -> Z) (env_var : string -> option string).

Lemma leg_deposits signer wallet offer from settlement maximum t :
  leg_trace (E := E) signer wallet offer from settlement maximum t -> (deposits t <= 1)%nat.
Proof.
  unfold deposits. intros (_ & [->|(q & input & aps & ds & _ & _ & _ & -> & _ & _ & Hd & _)]); [simpl; lia|].
  rewrite List.filter_app, length_app.
  assert (forall l : list TransactionRequest,
    List.filter (fun lr => bool_decide (lr.1 = DEPOSIT_LABEL)) (map (pair APPROVAL_LABEL) l) = []) as -> by (by induction l).
  assert (forall l : list TransactionRequest,
    List.filter (fun lr => bool_decide (lr.1 = DEPOSIT_LABEL)) (map (pair DEPOSIT_LABEL) l) = map (pair DEPOSIT_LABEL) l) as ->
    by (induction l; simpl; by f_equal). rewrite length_map. simpl. lia.
Qed.

Lemma round_trip_deposits base signer wallet plan t :
  round_trip_trace (E := E) base signer wallet plan t -> (deposits t <= 2)%nat.
Proof.
  intros (t1 & t2 & -> & Hl1%leg_deposits & Hr2). rewrite deposits_app.
  destruct Hr2 as [->|(fwd & leg & _ & _ & Hl2%leg_deposits)]; [change (deposits []) with 0%nat; lia|lia].
Qed.

(** The number of deposits a program hands over. *)
Definition counts {T} (m : M D T) (Q : result T -> Z -> Prop) : Prop :=
  forall s, exists t, dk_trace (m s).2 = dk_trace s ++ t /\ Q (m s).1 (Z.of_nat (deposits t)).

Lemma counts_yields {T} (m : M D T) Q R :
  leaves m Q -> (forall r t rs, Q r t rs -> R r (Z.of_nat (deposits t))) -> counts m R.
Proof. intros Hm Hq s. destruct (Hm s) as (t & rs & Ht & _ & _ & HQ). exists t. eauto. Qed.
Lemma counts_bind {T U} (m : M D T) (f : T -> M D U) Q R :
  counts m Q -> (forall e n, Q (Err e) n -> R (Err e) n) ->
  (forall a n, Q (Ok a) n -> counts (f a) (fun r n' => R r (n + n'))) -> counts (m ≫= f) R.
Proof.
  intros Hm He Hf s. destruct (Hm s) as (t & Ht & HQ). unfold mbind, M_bind.
  destruct (m s) as [[a|e] s1]; simpl in *; [|exists t; auto].
  destruct (Hf a _ HQ s1) as (t' & Ht' & HR). exists (t ++ t'). by rewrite Ht', Ht, app_assoc, deposits_app, Nat2Z.inj_add.
Qed.
(** After a program that hands over nothing. *)
Lemma counts_after {T U} (m : M D T) (f : T -> M D U) φ R :
  silently m φ -> (forall e, R (Err e) 0) -> (forall a, φ a -> counts (f a) R) -> counts (m ≫= f) R.
Proof.
  intros Hm He Hf. eapply (counts_bind _ _ (fun r n => n = 0 /\ forall a, r = Ok a -> φ a)).
  - eapply counts_yields; [exact Hm|]. by intros r t rs (-> & _ & ?).
  - by intros e n [-> _].
  - intros a n [-> Ha]. apply Hf. auto.
Qed.
Lemma counts_silently {T} (m : M D T) φ (R : result T -> Z -> Prop) : silently m φ -> (forall r, R r 0) -> counts m R.
Proof. intros Hm HR. eapply counts_yields; [exact Hm|]. intros r t rs (-> & _). apply HR. Qed.

Lemma counts_sweep_pass rt di plans :
  counts (execute_sweep_pass (E := E) jittered rt di plans) (fun _ n => n <= Z.of_nat (length plans) * 2).
Proof.
  induction plans as [|plan plans IH]; cbn [execute_sweep_pass]; [eapply counts_silently; [by apply (silently_ret _ (fun _ => True))|done]|].
  eapply counts_after; [apply silently_consult|intros e; lia|].
  intros [] _; [eapply counts_silently; [by apply (silently_ret _ (fun _ => True))|intros; lia]|].
  eapply (counts_bind _ _ (fun _ n => n <= 2)).
  - eapply counts_yields; [apply leaves_round_trip|]. intros r t rs [_ Hr%round_trip_deposits]. lia.
  - intros e n Hn. simpl length. lia.
  - intros u n Hn s. destruct (IH s) as (t & Ht & Hle). exists t. split; [done|]. simpl length. lia.
Qed.

Lemma counts_sweep_loop fuel args rt planned k max :
  sw_max_intents args = Some max -> max < u64_max -> planned <= max ->
  counts (sweep_loop (E := E) jittered env_var fuel args rt planned k) (fun _ n => planned + n <= max).
Proof.
  intros Hmax Hw. revert planned k. induction fuel as [|fuel IH]; intros planned k Hp; cbn [sweep_loop].
  { eapply counts_silently; [by apply (silently_throw _ (fun _ => True))|intros; lia]. }
  assert (forall p, p <= max -> counts (swept (E := E)) (fun _ n => p + n <= max)) as Hswept.
  { intros p Hle. eapply counts_silently; [apply silently_look|intros; lia]. }
  cbv zeta. eapply counts_after; [apply silently_discover|intros; lia|]. intros di _.
  eapply counts_after; [apply silently_sweep_plans|intros; lia|]. intros plans _.
  eapply counts_after; [apply silently_ensure|intros; lia|]. intros _ _.
  destruct (sw_dry_run args); [by apply Hswept|].
  destruct (would_exceed (sw_max_intents args) planned _) eqn:Hex; [by apply Hswept|].
  unfold would_exceed in Hex. rewrite Hmax in Hex. apply Z.ltb_ge in Hex.
  assert (planned + Z.of_nat (length plans) * 2 <= max) as Hnext by lia.
  eapply counts_bind; [apply counts_sweep_pass|intros e n Hn; cbv beta in Hn; lia|].
  intros completed n Hn. cbv beta in Hn.
  assert (forall m : M D (list LegResult), counts m (fun _ n' => planned + Z.of_nat (length plans) * 2 + n' <= max) ->
    counts m (fun _ n' => planned + (n + n') <= max)) as Hrest.
  { intros m Hm s. destruct (Hm s) as (t & Ht & Hle). exists t. split; [done|]. lia. }
  destruct (negb completed); [by apply Hrest, Hswept|]. destruct (_ && _); [by apply Hrest, Hswept|].
  eapply counts_after; [apply silently_consult|intros; lia|]. intros [] _; apply Hrest; [by apply Hswept|by apply IH].
Qed.
Lemma silently_runtime args : silently (E := E) (prepare_runtime args) (fun _ => True).
Proof.
  unfold prepare_runtime. eapply silently_bind; [apply silently_lift|]. intros wallet _.
  eapply silently_bind; [apply silently_consult|]. intros file _. eapply silently_bind; [apply silently_lift|]. intros config _.
  eapply silently_bind; [apply silently_lift|]. intros base _. by apply (silently_ret _ (fun _ => True)).
Qed.

Lemma counts_sweep fuel args max :
  sw_max_intents args = Some max -> 0 <= max < u64_max ->
  counts (sweep (E := E) jittered env_var fuel args) (fun _ n => n <= max).
Proof.
  intros Hmax Hw. unfold sweep. eapply counts_after; [apply silently_runtime|intros; lia|].
  intros rt _. eapply counts_after; [|intros; lia|].
  { destruct (sw_dry_run args); [by apply (silently_ret _ (fun _ => True))|apply silently_lock]. }
  intros _ _. eapply (counts_bind _ _ (fun _ n => n = 0)); [intros s0; by exists []; rewrite app_nil_r|intros e n ->; lia|].
  intros u n ->. eapply counts_sweep_loop; [done|lia|lia].
Qed.
End Counting.

(** A sweep with a cap hands over at most that many deposits, in all its passes
    and however it ends. *)
Theorem sweep_within_cap {E : Type} `{PoolNode E, IntentNode E, EvmLib, CosmosAccounts, ConfigLib, IntentLib, !ApproveBytes}
    jittered env_var fuel args max (s : Desk E) :
  sw_max_intents args = Some max -> 0 <= max < u64_max ->
  exists t, dk_trace (sweep jittered env_var fuel args s).2 = dk_trace s ++ t /\ Z.of_nat (deposits t) <= max.
Proof.
  intros Hmax Hw. by apply counts_sweep.
Qed.

(** ** What traffic counts *)

Section Traffic.
Context {E : Type} `{PoolNode E, IntentNode E, EvmLib, CosmosAccounts, ConfigLib, IntentLib, !ApproveBytes}.
Abbreviation D := (Desk E).
Variables (jittered : Z -> Z) (env_var : string -> option string) (max : Z).
Hypothesis max_range : 0 <= max < u64_max.
Implicit Types P : TrafficStats -> Prop.

Definition stats_in P (s : D) : Prop := P (dk_stats s).
(** Room for [k] more intents. *)
Definition room (k : Z) (st : TrafficStats) : Prop := ts_intents st + k <= max.

Lemma hoare_silently {T} (m : M D T) φ P : silently m φ -> hoare (stats_in P) m (fun a s => φ a /\ stats_in P s) (stats_in P).
Proof.
  intros Hm s Hs. unfold stats_in in *. destruct (Hm s) as (t & rs & _ & _ & Hst & _ & _ & Ha).
  destruct (m s) as [[a|e] s']; simpl in *; rewrite Hst; auto.
Qed.

Lemma hoare_skip {T U} (m : M D T) (f : T -> M D U) φ P Q F :
  silently m φ -> (forall s, stats_in P s -> F s) -> (forall a, φ a -> hoare (stats_in P) (f a) Q F) ->
  hoare (stats_in P) (m ≫= f) Q F.
Proof.
  intros Hm HF Hf. eapply hoare_bind; [|intros a; apply hoare_pure, Hf].
  eapply hoare_conseq; [by apply hoare_silently|done|done|exact HF].
Qed.

Lemma silently_reached bounds sent :
  tb_max_intents bounds = Some max -> silently (E := E) (reached bounds sent) (fun o => o = None -> sent + 2 <= max).
Proof.
  intros Hb. unfold reached. eapply silently_bind; [apply silently_instant|]. intros now _. apply silently_ret.
  rewrite Hb. unfold INTENTS_PER_ROUND_TRIP. destruct (Z.ltb_spec max (Z.min (sent + 2) u64_max)); [done|]. lia.
Qed.

(** Asking whether the limit is reached. *)
Lemma hoare_limit {T} bounds (f : option string -> M D T) Q F :
  tb_max_intents bounds = Some max -> (forall s, stats_in (room 0) s -> F s) ->
  (forall reason, hoare (stats_in (room 0)) (f (Some reason)) Q F) -> hoare (stats_in (room 2)) (f None) Q F ->
  hoare (stats_in (room 0)) (s ← get; limit ← reached bounds (ts_intents (dk_stats s)); f limit) Q F.
Proof.
  intros Hb HF Hs Hn s Hr. change ((limit ← reached bounds (ts_intents (dk_stats s)); f limit) s) with
    ((reached bounds (ts_intents (dk_stats s)) ≫= f) s).
  apply (hoare_skip (reached bounds (ts_intents (dk_stats s))) f (fun o => o = None -> ts_intents (dk_stats s) + 2 <= max)
    (fun st => st = dk_stats s) Q F); [by apply silently_reached| | |done].
  - intros s' Heq. apply HF. unfold stats_in in *. by rewrite Heq.
  - intros [reason|] Ho; eapply hoare_pre; [apply Hs| |apply Hn|]; intros s' Heq; unfold stats_in, room in *; rewrite Heq; auto.
Qed.

Lemma hoare_any {T} (f : D -> M D T) Pre Q F : (forall s, hoare Pre (f s) Q F) -> hoare Pre (s ← get; f s) Q F.
Proof. intros Hf s Hs. exact (Hf s s Hs). Qed.

(** A round trip, and its results counted. *)
Lemma hoare_counted_trip {T} base chains signer wallet plan limits (f : result () -> M D T) Q F :
  (forall r, hoare (stats_in (room 0)) (f r) Q F) -> (forall s, stats_in (room 0) s -> F s) ->
  hoare (stats_in (room 2)) (fresh_results;;
    outcome ← trying (execute_round_trip (E := E) jittered base chains signer wallet plan limits);
    s ← get; update_stats (record_intents (dk_results s));; f outcome) Q F.
Proof.
  intros Hf HF s Hs. unfold fresh_results, modify. unfold mbind at 1. unfold M_bind at 1. set (s0 := mkDesk _ _ _ _).
  destruct (leaves_round_trip jittered base chains signer wallet plan limits s0) as (t & rs & _ & Hr & Hst & Hlen & _).
  unfold mbind at 1. unfold M_bind at 1. unfold trying.
  assert (stats_in (room 2) (execute_round_trip jittered base chains signer wallet plan limits s0).2) as Hs1.
  { unfold stats_in. rewrite Hst. exact Hs. }
  assert (forall s1 : D, stats_in (room 2) s1 -> (length (dk_results s1) <= 2)%nat -> forall r,
    match ((s ← get; update_stats (record_intents (dk_results s));; f r) : M D T) s1 with
    | (Ok a, s') => Q a s' | (Err _, s') => F s' end) as Hgo.
  { intros s1 Hroom2 Hshort r. apply (Hf r). unfold stats_in, room in *. simpl. lia. }
  assert (length (dk_results (execute_round_trip jittered base chains signer wallet plan limits s0).2) <= 2)%nat as Hl.
  { rewrite Hr. simpl. exact Hlen. }
  destruct (execute_round_trip jittered base chains signer wallet plan limits s0) as [[u|[msg|msg|]] s1]; simpl in Hs1, Hl.
  1-3: by apply Hgo. apply HF. unfold stats_in, room in *. lia.
Qed.

Lemma modes_capped rt bps bounds modes found :
  tb_max_intents bounds = Some max ->
  hoare (stats_in (room 0)) (run_modes (E := E) jittered env_var rt bps bounds modes found) (fun _ => stats_in (room 0)) (stats_in (room 0)).
Proof.
  intros Hb. assert (forall st, room 2 st -> room 0 st) as Hroom by (unfold room; intros; lia).
  assert (forall found, hoare (stats_in (room 0)) (mret found : M D bool) (fun _ => stats_in (room 0)) (stats_in (room 0))) as Hret.
  { intros x s Hs. exact Hs. }
  revert found. induction modes as [|[i [t ot]] modes IH]; intros found; cbn [run_modes]; [apply Hret|].
  eapply hoare_skip; [apply silently_consult|done|]. intros [] _; [apply Hret|].
  apply (hoare_limit bounds); [done|done|intros; apply Hret|].
  eapply hoare_skip; [apply silently_discover|by intros s; apply Hroom|]. intros di _.
  eapply hoare_skip; [apply silently_sweep_plans|by intros s; apply Hroom|]. intros plans _.
  eapply hoare_skip; [apply silently_consult|by intros s; apply Hroom|].
  intros [] _; [eapply hoare_pre; [apply Hret|intros s; apply Hroom]|].
  apply hoare_any. intros s1. cbv zeta. destruct (plans !! _) as [plan|]; [|eapply hoare_pre; [apply IH|intros s; apply Hroom]].
  eapply (hoare_bind _ _ (fun _ => stats_in (room 2))); [intros s Hs; exact Hs|]. intros _.
  apply hoare_counted_trip; [|done]. intros r. eapply hoare_skip; [apply silently_lift|done|]. intros _ _. apply IH.
Qed.

Lemma traffic_loop_capped fuel args rt bounds :
  tb_max_intents bounds = Some max ->
  hoare (stats_in (room 0)) (traffic_loop (E := E) jittered env_var fuel args rt bounds) (fun _ => stats_in (room 0)) (stats_in (room 0)).
Proof.
  intros Hb. induction fuel as [|fuel IH]; cbn [traffic_loop]; [by intros s Hs|].
  eapply hoare_skip; [apply silently_consult|done|]. intros [] _; [by intros s Hs|].
  apply (hoare_limit bounds); [done|done|by intros r s Hs|]. eapply hoare_pre.
  2: { intros s Hs. unfold stats_in, room in *. instantiate (1 := stats_in (room 0)). unfold stats_in, room. lia. }
  eapply (hoare_bind _ _ (fun _ => stats_in (room 0))).
  - intros s Hs. pose proof (modes_capped rt (ta_wallet_bps args) bounds (traffic_modes (ta_asset_type args)) false Hb s Hs) as Hm.
    unfold trying, run_cycle. destruct (run_modes _ _ _ _ _ _ _ s) as [[b|[]] s']; exact Hm.
  - intros outcome. eapply (hoare_bind _ _ (fun _ => stats_in (room 0))); [|intros _; apply IH].
    destruct outcome as [[]|e]; intros s Hs; exact Hs.
Qed.
End Traffic.

(** A traffic run with a cap reports at most that many intents: the fulfilled
    ones. *)
Theorem traffic_reports_within_cap {E : Type} `{PoolNode E, IntentNode E, EvmLib, CosmosAccounts, ConfigLib, IntentLib, !ApproveBytes}
    jittered env_var fuel args max (s s' : Desk E) summary :
  ta_max_intents args = Some max -> 0 <= max < u64_max ->
  traffic jittered env_var fuel args s = (Ok summary, s') -> tm_intents summary <= max.
Proof.
  intros Hmax Hr. unfold traffic. intros (rt & s1 & _ & Hrun)%M_bind_ok. apply M_bind_ok in Hrun as (u & s2 & _ & Hrun).
  apply M_bind_ok in Hrun as (now & s3 & _ & Hrun). cbv zeta in Hrun. apply M_bind_ok in Hrun as (u1 & s4 & Hst & Hrun).
  injection Hst as _ <-. apply M_bind_ok in Hrun as (why & s5 & Hloop & Hrun).
  apply M_bind_ok in Hrun as (s6 & s7 & [= <- <-] & [= <- <-]). simpl.
  set (bounds := mkBounds _ _) in Hloop. match type of Hloop with _ ?x = _ => set (s0 := x) in Hloop end.
  pose proof (traffic_loop_capped jittered env_var max Hr fuel args rt bounds Hmax s0) as Hc. rewrite Hloop in Hc.
  assert (stats_in (room max 0) s5) as Hs5 by (apply Hc; unfold stats_in, room; simpl; lia).
  unfold stats_in, room in Hs5. lia.
Qed.

(** ** A leg ends *)

(** Asking the RFQ service takes no negative time. *)
Class IntentClock (E : Type) `{PoolNode E, IntentNode E} : Prop := {
  now_status url id (e : E) : now_ms e <= now_ms (get_status url id e).2
}.

(** An ordinary outcome. *)
Definition plain {T} (r : result T) : Prop := r <> Err OutOfFuel.
Lemma plain_ok {T} (a : T) : plain (Ok a).
Proof. done. Qed.
Lemma plain_ok_or {T} (o : option T) msg : plain (ok_or o msg).
Proof. by destruct o. Qed.
Lemma plain_ensure b msg : plain (ensure_ok b msg).
Proof. by destruct b. Qed.
Lemma plain_bail {T} msg : plain (bail (A := T) msg).
Proof. done. Qed.
Lemma plain_bind {T U} (r : result T) (f : T -> result U) : plain r -> (forall a, plain (f a)) -> plain (r ≫= f).
Proof. intros Hr Hf. destruct r; simpl; [apply Hf|unfold plain in *; congruence]. Qed.
Lemma plain_fmap {T U} (r : result T) (f : T -> U) : plain r -> plain (f <$> r).
Proof. destruct r; [done|]. unfold plain. simpl. congruence. Qed.
Create HintDb plain.
#[export] Hint Resolve plain_ok plain_ok_or plain_ensure plain_bail plain_fmap : plain.
Ltac plainly :=
  repeat first
    [ by auto with plain
    | apply plain_bind; [|intros ?]
    | match goal with |- plain (match ?x with _ => _ end) => destruct x end ].

Section PlainChecks.
Context `{EvmLib, CosmosAccounts, ConfigLib, IntentLib}.

Lemma plain_parse_amount v : plain (parse_amount v).
Proof. unfold parse_amount. plainly. Qed.
Lemma plain_payload a : plain (action_payload a).
Proof. unfold action_payload. plainly. Qed.
Lemma plain_data p : plain (payload_data p).
Proof. unfold payload_data. plainly. Qed.
#[local] Hint Resolve plain_parse_amount plain_payload plain_data : plain.
Lemma plain_validate_quote q from to ot n : plain (validate_quote q from to ot n).
Proof. unfold validate_quote, validate_quote_route, ensure_input_is_spendable. plainly. Qed.
Lemma plain_requirement a source n : plain (approval_requirement a source n).
Proof. unfold approval_requirement. plainly. Qed.
Lemma plain_deposit a source n : plain (validate_deposit_action a source n).
Proof. unfold validate_deposit_action. plainly. Qed.
#[local] Hint Resolve plain_requirement plain_deposit : plain.
Lemma plain_actions q source n : plain (validate_quote_actions q source n).
Proof. unfold validate_quote_actions. plainly. Qed.
Lemma plain_deposit_action q source n : plain (deposit_action q source n).
Proof. unfold deposit_action. plainly. Qed.
Lemma plain_action_request a wallet chain : plain (action_request a wallet chain).
Proof. unfold action_request. plainly. Qed.
Lemma plain_approval_action a r n : plain (approval_action a r n).
Proof. unfold approval_action. plainly. Qed.
Lemma plain_endpoints chains source : plain (chain_endpoints chains source).
Proof. unfold chain_endpoints, connect. plainly. Qed.
Lemma plain_refund r q : plain (validate_refund r q).
Proof. unfold validate_refund. plainly. Qed.
Lemma plain_status_output o a q : plain (validate_status_output o a q).
Proof. unfold validate_status_output. plainly. Qed.
Lemma plain_get_json {T} (a : HttpAnswer T) : plain (get_json a).
Proof. unfold get_json. plainly. Qed.
Lemma plain_limit n m : plain (validate_input_limit n m).
Proof. unfold validate_input_limit. plainly. Qed.
End PlainChecks.
#[export] Hint Resolve plain_parse_amount plain_validate_quote plain_requirement plain_actions plain_deposit_action
  plain_action_request plain_approval_action plain_endpoints plain_refund plain_status_output plain_get_json plain_limit : plain.

Section Ending.
Context {E : Type} `{PoolNode E, IntentNode E, EvmLib, CosmosAccounts, ConfigLib, IntentLib, !PoolClock E, !IntentClock E}.
Abbreviation D := (Desk E).
Variables (jittered : Z -> Z).

Definition over {T} (m : M D T) : Prop := forall s, plain (m s).1.

Lemma over_ret {T} (a : T) : over (mret a).
Proof. done. Qed.
Lemma over_failed {T} msg : over (throw (A := T) (Failed msg)).
Proof. done. Qed.
Lemma over_lift {T} (r : result T) : plain r -> over (lift r).
Proof. by intros Hr s. Qed.
Lemma over_ensure b msg : over (ensure b msg).
Proof. intros s. apply plain_ensure. Qed.
Lemma over_consult {T} (f : E -> T * E) : over (consult f).
Proof. intros s. unfold consult. by destruct (f (dk_env s)). Qed.
Lemma over_note ev : over (note ev).
Proof. done. Qed.
Lemma over_instant : over instant.
Proof. done. Qed.
Lemma over_wall_clock : over wall_clock.
Proof. done. Qed.
Lemma over_map_err {T} msg (m : M D T) : over (map_err (Failed msg) m).
Proof. intros s. unfold map_err. by destruct (m s) as [[a|e] s']. Qed.
Lemma over_on_pool {T} (m : M (Pool E) T) : ends m -> over (on_pool m).
Proof. intros Hm s. unfold on_pool. specialize (Hm (mkPool (dk_env s) [])). by destruct (m _) as [r p]. Qed.
Lemma over_bind {T U} (m : M D T) (f : T -> M D U) : over m -> (forall a, over (f a)) -> over (m ≫= f).
Proof.
  intros Hm Hf s. specialize (Hm s). unfold mbind, M_bind. destruct (m s) as [[a|e] s']; simpl in *; [apply Hf|].
  unfold plain in *. congruence.
Qed.
Create HintDb over.
Hint Resolve over_ret over_failed over_lift over_ensure over_consult over_note over_instant over_wall_clock over_map_err : over.
Ltac finish :=
  repeat first
    [ solve [auto with over plain]
    | apply over_bind; [|intros ?]
    | match goal with
      | |- over (let '(_, _) := ?x in _) => destruct x
      | |- over (match ?x with _ => _ end) => destruct x
      end ].

Lemma over_rfq_quote base request : over (rfq_quote (E := E) base request).
Proof. unfold rfq_quote. finish. Qed.
Lemma over_lifetime q : over (validate_quote_lifetime (E := E) q).
Proof. unfold validate_quote_lifetime. finish. Qed.
Hint Resolve over_rfq_quote over_lifetime : over.

Lemma over_send_actions pool signer wallet source actions label last :
  over (send_actions (E := E) jittered pool signer wallet source actions label last).
Proof.
  revert last. induction actions as [|a actions IH]; intros last; cbn [send_actions]; [done|].
  apply over_bind; [finish|]. intros rq. apply over_bind; [finish|]. intros u.
  apply over_bind; [by apply over_on_pool, send_ends|]. intros receipt. apply over_bind; [finish|]. intros u1. apply IH.
Qed.
Lemma over_execute_actions chains signer wallet source actions label :
  over (execute_actions (E := E) jittered chains signer wallet source actions label).
Proof. unfold execute_actions. apply over_bind; [finish|]. intros pool. apply over_send_actions. Qed.
Lemma over_approvals pool wallet token source actions amount cap :
  over (approvals_below (E := E) jittered pool wallet token source actions amount cap).
Proof.
  induction actions as [|a actions IH]; cbn [approvals_below]; [done|]. finish. apply over_lift. destruct (_ <? _); plainly.
Qed.
Hint Resolve over_execute_actions over_approvals : over.

Lemma over_submit_leg base chains signer wallet leg : over (submit_leg (E := E) jittered base chains signer wallet leg).
Proof.
  unfold submit_leg, quote_for_execution, require_quote, submit_selected_leg, ensure_input_approval, required_approvals. finish.
Qed.

(** The clock does not run backwards in the program. *)
Definition onward {T} (m : M D T) : Prop := forall s, now_ms (dk_env s) <= now_ms (dk_env (m s).2).
Lemma onward_still {T} (m : M D T) : (forall s, dk_env (m s).2 = dk_env s) -> onward m.
Proof. intros Hm s. by rewrite Hm. Qed.
Lemma onward_bind {T U} (m : M D T) (f : T -> M D U) : onward m -> (forall a, onward (f a)) -> onward (m ≫= f).
Proof.
  intros Hm Hf s. specialize (Hm s). unfold mbind, M_bind. destruct (m s) as [[a|e] s']; simpl in *; [|done].
  specialize (Hf a s'). lia.
Qed.
Lemma onward_status base id : onward (trying (rfq_status (E := E) base id)).
Proof.
  intros s. unfold trying, rfq_status, consult, mbind, M_bind. pose proof (now_status (base +:+ "/status") id (dk_env s)) as Ht.
  destruct (get_status (base +:+ "/status") id (dk_env s)) as [answer e]. simpl in *. unfold lift. by destruct (get_json answer) as [|[]].
Qed.
Lemma onward_look base q to refund : onward (look_at_status (E := E) base q to refund).
Proof.
  unfold look_at_status. apply onward_bind; [apply onward_status|]. intros [status|e]; [|by apply onward_still].
  apply onward_bind; [by apply onward_still|]. intros u. apply onward_bind.
  { destruct (st_refund status) as [r|]; [|by apply onward_still]. destruct (bool_decide _); [by apply onward_still|].
    apply onward_bind; by intros; apply onward_still. }
  intros refund'. destruct (st_state status); try by apply onward_still.
  apply onward_bind; [by apply onward_still|]. intros o. apply onward_bind; by intros; apply onward_still.
Qed.

Lemma over_trying {T} (m : M D T) : over m -> over (trying m).
Proof. intros Hm s. specialize (Hm s). unfold trying. by destruct (m s) as [[a|[]] s']. Qed.
Lemma over_look base q to refund : over (look_at_status (E := E) base q to refund).
Proof. unfold look_at_status, rfq_status. apply over_bind; [apply over_trying; finish|]. intros answer. finish. Qed.

Lemma fulfillment_round fuel base q to poll deadline refund (s : D) :
  fulfillment_loop (S fuel) base q to poll deadline refund s =
  match look_at_status base q to refund s with
  | (Ok (inl output), s1) => (Ok output, s1)
  | (Ok (inr refund), s1) =>
      if deadline <=? now_ms (dk_env s1) then (Err (Failed "intent did not fulfill before timeout"), s1)
      else fulfillment_loop fuel base q to poll deadline refund (set_env (nap_ms poll (dk_env s1)) s1)
  | (Err e, s1) => (Err e, s1)
  end.
Proof.
  cbn [fulfillment_loop]. unfold mbind at 1. unfold M_bind at 1.
  destruct (look_at_status base q to refund s) as [[[output|refund']|e] s1]; try done.
  unfold instant, get, mret, M_ret, mbind, M_bind. by destruct (deadline <=? now_ms (dk_env s1)).
Qed.

Lemma over_fulfillment fuel base q to poll deadline refund (s : D) :
  0 < poll -> deadline - now_ms (dk_env s) <= poll * Z.of_nat fuel ->
  plain (fulfillment_loop (S fuel) base q to poll deadline refund s).1.
Proof.
  intros Hp. revert refund s. induction fuel as [|fuel IH]; intros refund s Hd; rewrite fulfillment_round;
    pose proof (over_look base q to refund s) as Ho; pose proof (onward_look base q to refund s) as Ht;
    destruct (look_at_status base q to refund s) as [[[output|refund']|e] s1]; simpl in Ho, Ht; try done;
    try (unfold plain in *; simpl in *; congruence); destruct (Z.leb_spec deadline (now_ms (dk_env s1))); try done; [lia|].
  apply IH. simpl. pose proof (now_nap poll (dk_env s1)). lia.
Qed.

Lemma over_finish base su limits :
  0 < li_poll_interval limits -> 0 <= li_fulfillment_timeout limits -> over (finish_submitted_intent (E := E) base su limits).
Proof.
  intros Hp Ht. unfold finish_submitted_intent, wait_for_fulfillment. apply over_bind; [finish|]. intros t0.
  apply over_bind; [|intros x; finish]. intros s. unfold instant, wall_clock, get, mret, M_ret. unfold mbind, M_bind.
  set (timeout := effective_timeout _ _ _). apply over_fulfillment; [done|].
  assert (0 <= timeout) as Hnn.
  { unfold timeout, effective_timeout. destruct (va_fulfillment_deadline _) as [d|]; [|done].
    destruct (Z.leb_spec (utc_now (dk_env s)) d); lia. }
  rewrite Nat2Z.inj_succ, Z2Nat.id by (apply Z.div_pos; lia).
  pose proof (Z.div_mod timeout (li_poll_interval limits) ltac:(lia)).
  pose proof (Z.mod_pos_bound timeout (li_poll_interval limits) Hp). nia.
Qed.
End Ending.

(** C23: an intent ends.  On a clock that does not run backwards, with a positive
    poll interval, a leg returns a result or an ordinary error, whatever the RFQ
    service and the nodes answer. *)
Theorem intent_ends {E : Type} `{PoolNode E, IntentNode E, EvmLib, CosmosAccounts, ConfigLib, IntentLib, !PoolClock E, !IntentClock E}
    jittered base chains signer wallet leg limits (s : Desk E) :
  0 < li_poll_interval limits -> 0 <= li_fulfillment_timeout limits ->
  (execute_leg jittered base chains signer wallet leg limits s).1 <> Err OutOfFuel.
Proof.
  intros Hp Ht. apply (over_bind (submit_leg jittered base chains signer wallet leg)); [apply over_submit_leg|].
  intros su. by apply over_finish.
Qed.
