(* ===== verification/Pipeline.v ===== *)
(** * The pipelined sender (evm/pipeline.rs)

    One sender per chain, shared by the deposits of a stress test.  A deposit
    holds the sender's lock while it is prepared and broadcast, waits for its
    receipt without the lock, and takes it again to settle.  The two locked
    parts, [broadcast] and [settle], are programs on the sender's state; the
    trace of what the sender put on the wire is its [ps_log], newest first. *)

From S2P Require Import Prelude Types Retry Journal Chain Plan RobustSend Intents IntentRun.

Record PipelineLimits : Type := mkPipelineLimits {
  pk_native_reserve : Z;
  pk_gas_budget : option Z;
  pk_receipt_timeout : Z
}.

Record PipelineTransaction : Type := mkPipelineTx {
  pt_request : TransactionRequest;
  pt_token : Address;
  pt_amount : Z;
  pt_deadline : Z
}.

Inductive PipelineError : Type :=
  | NotSent (reason : string)
  | Uncertain (reason : string).

Record NonceState : Type := mkNonceState {
  ns_next : option Z;
  ns_gas_reserved : Z;
  ns_gas_spent : Z;
  ns_tokens_reserved : gmap Address Z;
  ns_stopped : option string
}.

Record PendingDeposit : Type := mkPending {
  pd_hash : B256;
  pd_gas_reserved : Z;
  pd_token : Address;
  pd_amount : Z
}.

Record PipelinedSender : Type := mkPipelined {
  ps_endpoints : list string;
  ps_signer : string;
  ps_owner : Address;
  ps_limits : PipelineLimits;
  ps_state : NonceState;
  ps_broadcasts : Z;
  ps_stopped : bool;
  ps_log : list event
}.

(** [PipelinedSender::new]. *)
Definition pipelined_sender (endpoints : list string) (signer : string) (owner : Address) (limits : PipelineLimits)
    : PipelinedSender :=
  mkPipelined endpoints signer owner limits (mkNonceState None 0 0 ∅ None) 0 false [].

(** ** The reservations ([NonceState]) *)

Definition saturating_add (w a b : Z) : Z := Z.min (a + b) (2 ^ w - 1).

Definition exceeds (cap : option Z) (amount : Z) : bool := match cap with Some cap => cap <? amount | None => false end.

Definition check_funding (st : NonceState) (limits : PipelineLimits) (native tokens : Z) (token : Address) (amount gas : Z)
    : result () :=
  let reserved := saturating_add 256 (ns_gas_reserved st) gas in
  _ ← ensure_ok (negb (exceeds (pk_gas_budget limits) (saturating_add 256 (ns_gas_spent st) reserved)))
        "waiting for pending gas reservations";
  _ ← ensure_ok (saturating_add 256 (pk_native_reserve limits) reserved <=? native)
        "native balance is reserved for pending deposits";
  ensure_ok (saturating_add 256 (default 0 (ns_tokens_reserved st !! token)) amount <=? tokens)
    "token balance is reserved for pending deposits".

Definition reserve (pending : PendingDeposit) (st : NonceState) : NonceState :=
  mkNonceState (ns_next st) (saturating_add 256 (ns_gas_reserved st) (pd_gas_reserved pending)) (ns_gas_spent st)
    (<[pd_token pending := saturating_add 256 (default 0 (ns_tokens_reserved st !! pd_token pending)) (pd_amount pending)]>
       (ns_tokens_reserved st)) (ns_stopped st).

Definition release (pending : PendingDeposit) (gas_paid : Z) (st : NonceState) : NonceState :=
  mkNonceState (ns_next st) (saturating_sub (ns_gas_reserved st) (pd_gas_reserved pending))
    (saturating_add 256 (ns_gas_spent st) gas_paid)
    (<[pd_token pending := saturating_sub (default 0 (ns_tokens_reserved st !! pd_token pending)) (pd_amount pending)]>
       (ns_tokens_reserved st)) (ns_stopped st).

Definition set_next (n : option Z) (st : NonceState) : NonceState :=
  mkNonceState n (ns_gas_reserved st) (ns_gas_spent st) (ns_tokens_reserved st) (ns_stopped st).
Definition set_stopped (reason : string) (st : NonceState) : NonceState :=
  mkNonceState (ns_next st) (ns_gas_reserved st) (ns_gas_spent st) (ns_tokens_reserved st) (Some reason).

(** [U256::from(a) * U256::from(b)]. *)
Definition wrapping_mul (a b : Z) : Z := (a * b) mod 2 ^ 256.
Definition gas_of (env : TxEnvelope) : Z := wrapping_mul (tx_gas_limit env) (tx_max_fee_per_gas env).

(** ** Programs *)

Record Lane (E : Type) : Type := mkLane { ln_env : E; ln_sender : PipelinedSender }.
Arguments mkLane {E}.
Arguments ln_env {E}.
Arguments ln_sender {E}.

(** What the pipeline reads of a chain and of a receipt besides. *)
Class PipeNode (E : Type) : Type := {
  (** [get_transaction_count(owner).pending()]. *)
  pending_count : string -> Address -> E -> (string + Z) * E;
  (** [gas_used] and [effective_gas_price]. *)
  receipt_gas : Receipt -> Z * Z
}.

Definition edit_state (f : NonceState -> NonceState) (sd : PipelinedSender) : PipelinedSender :=
  mkPipelined (ps_endpoints sd) (ps_signer sd) (ps_owner sd) (ps_limits sd) (f (ps_state sd)) (ps_broadcasts sd) (ps_stopped sd)
    (ps_log sd).
Definition set_flag (b : bool) (sd : PipelinedSender) : PipelinedSender :=
  mkPipelined (ps_endpoints sd) (ps_signer sd) (ps_owner sd) (ps_limits sd) (ps_state sd) (ps_broadcasts sd) b (ps_log sd).
Definition add_broadcast (sd : PipelinedSender) : PipelinedSender :=
  mkPipelined (ps_endpoints sd) (ps_signer sd) (ps_owner sd) (ps_limits sd) (ps_state sd) ((ps_broadcasts sd + 1) mod 2 ^ 64)
    (ps_stopped sd) (ps_log sd).
Definition set_log (l : list event) (sd : PipelinedSender) : PipelinedSender :=
  mkPipelined (ps_endpoints sd) (ps_signer sd) (ps_owner sd) (ps_limits sd) (ps_state sd) (ps_broadcasts sd) (ps_stopped sd) l.

Section Programs.
Context {E : Type} `{PoolNode E, IntentNode E, PipeNode E, EvmLib}.
Variable jittered : Z -> Z.
Abbreviation L := (Lane E).

Definition the_sender : M L PipelinedSender := s ← get; mret (ln_sender s).
Definition edit (f : PipelinedSender -> PipelinedSender) : M L () := modify (fun s => mkLane (ln_env s) (f (ln_sender s))).
Definition on_endpoints {T} (m : M (Pool E) T) : M L T := fun s =>
  let '(r, p) := m (mkPool (ln_env s) (ps_log (ln_sender s))) in (r, mkLane (pl_env p) (set_log (pl_log p) (ln_sender s))).
(** A [match] on the outcome of a call. *)
Definition attempt {T} (m : M L T) : M L (result T) := fun s => let '(r, s) := m s in (Ok r, s).

Definition halt (reason : string) : M L () := edit (fun sd => set_flag true (edit_state (set_stopped reason) sd)).

Definition starting_nonce (sd : PipelinedSender) : M (Pool E) Z :=
  falling_back jittered (fun _ => true) (ps_endpoints sd) (fun url =>
    recovering (ask (pending_count url (ps_owner sd))) (fun error =>
      if is_pending_state_error (error_text error) then ask (pool_transaction_count url (ps_owner sd)) else throw error)).

Definition balances (sd : PipelinedSender) (token : Address) : M (Pool E) (Z * Z) :=
  falling_back jittered (fun _ => true) (ps_endpoints sd) (fun url =>
    native ← ask (native_balance url (ps_owner sd));
    tokens ← ask (token_balance url token (ps_owner sd));
    mret (native, tokens)).

Definition prepare (tx : PipelineTransaction) : M L TxEnvelope :=
  sd ← the_sender;
  next ← match ns_next (ps_state sd) with
         | Some next => mret next
         | None =>
             next ← on_endpoints (starting_nonce sd);
             edit (edit_state (set_next (Some next)));;
             mret next
         end;
  envelope ← on_endpoints (pool_fill_and_sign jittered (ps_endpoints sd) (ps_signer sd) (set_nonce (Some next) (pt_request tx)));
  let gas := gas_of envelope in
  sd ← the_sender;
  if exceeds (pk_gas_budget (ps_limits sd)) (saturating_add 256 (ns_gas_spent (ps_state sd)) gas) then
    edit (edit_state (set_stopped "source gas budget reached"));;
    throw (Failed "source gas budget reached")
  else
    '(native, tokens) ← on_endpoints (balances sd (pt_token tx));
    lift (check_funding (ps_state sd) (ps_limits sd) native tokens (pt_token tx) (pt_amount tx) gas);;
    s ← get;
    ensure (now_ms (ln_env s) <? pt_deadline tx) "quote expired before broadcast";;
    mret envelope.

(** Whether the envelope may or may not be out. *)
Definition broadcast_lost (sd : PipelinedSender) (envelope : TxEnvelope) : M L bool :=
  sent ← attempt (on_endpoints (broadcast_raw jittered (ps_endpoints sd) envelope));
  match sent with
  | Ok _ => mret false
  | Err _ => known ← on_endpoints (tx_known_by_hash (ps_endpoints sd) (tx_hash envelope)); mret (negb known)
  end.

(** [PipelinedSender::broadcast], under the lock. *)
Definition broadcast (tx : PipelineTransaction) : M L (PipelineError + PendingDeposit) :=
  sd ← the_sender;
  match ns_stopped (ps_state sd) with
  | Some reason => mret (inl (NotSent reason))
  | None =>
      prepared ← attempt (prepare tx);
      match prepared with
      | Err error =>
          edit (fun sd => set_flag (bool_decide (is_Some (ns_stopped (ps_state sd)))) sd);;
          mret (inl (NotSent (error_text error)))
      | Ok envelope =>
          let pending := mkPending (tx_hash envelope) (gas_of envelope) (pt_token tx) (pt_amount tx) in
          edit (edit_state (reserve pending));;
          lost ← broadcast_lost sd envelope;
          if (lost : bool) then
            halt "broadcast uncertain";;
            mret (inl (Uncertain "broadcast uncertain"))
          else
            edit (edit_state (set_next (checked_add 64 (tx_nonce envelope) 1)));;
            sd ← the_sender;
            match ns_next (ps_state sd) with
            | None => halt "nonce space exhausted"
            | Some _ => mret ()
            end;;
            edit add_broadcast;;
            mret (inr pending)
      end
  end.

(** The end of [PipelinedSender::send], under the lock. *)
Definition settle (pending : PendingDeposit) (receipt : option Receipt) : M L (PipelineError + Receipt) :=
  match receipt with
  | Some receipt =>
      let '(gas_used, price) := receipt_gas receipt in
      edit (edit_state (release pending (wrapping_mul gas_used price)));;
      mret (inr receipt)
  | None => halt "deposit is unconfirmed";; mret (inl (Uncertain "deposit is unconfirmed"))
  end.

(** [PipelinedSender::send], when nothing else uses the sender meanwhile. *)
Definition pipeline_send (fuel : nat) (tx : PipelineTransaction) : M L (PipelineError + Receipt) :=
  pending ← broadcast tx;
  match pending with
  | inl error => mret (inl error)
  | inr pending =>
      sd ← the_sender;
      receipt ← on_endpoints (wait_receipt_any fuel (ps_endpoints sd) [pd_hash pending] (pk_receipt_timeout (ps_limits sd)));
      settle pending receipt
  end.
End Programs.
