(* ===== verification/PipelineFacts.v ===== *)
(** * The pipelined sender: nonces, budget and stops *)

From S2P Require Import Prelude Types Retry Journal Chain Plan RobustSend SignedCalls Intents IntentRun Pipeline.

(** The envelopes in the trace, newest first and with repetitions. *)
Definition wire (sd : PipelinedSender) : list TxEnvelope :=
  omap (fun ev => match ev with Broadcast _ env _ => Some env | Asked _ _ _ => None end) (ps_log sd).

(** The sender has put exactly the envelopes [envs] on the wire, in this order
    and at consecutive nonces; while it is not stopped, the next one gets the
    next nonce. *)
Record orderly (sd : PipelinedSender) (envs : list TxEnvelope) : Prop := mkOrderly {
  or_pool : ps_endpoints sd <> [];
  or_wire : forall env, env ∈ wire sd <-> env ∈ envs;
  or_nonces : exists start, map tx_nonce envs = seqZ start (Z.of_nat (length envs)) /\
    (ns_stopped (ps_state sd) = None -> envs <> [] -> ns_next (ps_state sd) = Some (start + Z.of_nat (length envs)));
  or_flag : ps_stopped sd = bool_decide (is_Some (ns_stopped (ps_state sd)))
}.

(** [paid] gas is counted as spent, [total] gas is reserved for pending deposits,
    and what is spent and reserved is within the budget. *)
Definition within_budget (paid total : Z) (sd : PipelinedSender) : Prop :=
  let st := ps_state sd in
  forall cap, pk_gas_budget (ps_limits sd) = Some cap -> cap < 2 ^ 256 - 1 ->
    0 <= paid <= ns_gas_spent st /\ total <= ns_gas_reserved st /\ 0 <= ns_gas_reserved st /\
    ns_gas_spent st + ns_gas_reserved st <= cap.

(** The parts of a sender that are fixed. *)
Definition same_sender (sd sd' : PipelinedSender) : Prop :=
  ps_endpoints sd' = ps_endpoints sd /\ ps_signer sd' = ps_signer sd /\ ps_owner sd' = ps_owner sd /\ ps_limits sd' = ps_limits sd.

Lemma gas_of_range env : 0 <= gas_of env < 2 ^ 256.
Proof. apply Z.mod_pos_bound. lia. Qed.

Section Facts.
Context {E : Type} `{PoolNode E, IntentNode E, PipeNode E, EvmLib}.
Variable jittered : Z -> Z.
Abbreviation L := (Lane E).
Implicit Types (s : L) (sd : PipelinedSender).

(** alloy's fillers leave a field alone that the request sets. *)
Hypothesis fill_keeps_nonce : forall signer url rq (e : E) env e' n,
  pool_fill signer url rq e = (inr (Some env), e') -> rq_nonce rq = Some n -> tx_nonce env = n.

(** ** Reading *)

Lemma reading {T} (m : M (Pool E) T) φ s :
  quietly m φ -> ln_sender (on_endpoints m s).2 = ln_sender s /\ forall a, (on_endpoints m s).1 = Ok a -> φ a.
Proof.
  intros Hm. unfold on_endpoints. destruct (Hm (mkPool (ln_env s) (ps_log (ln_sender s)))) as [Hl Ha].
  destruct (m _) as [r p]. simpl in *. rewrite Hl. by destruct s as [e []].
Qed.

Lemma quietly_starting_nonce sd : quietly (E := E) (starting_nonce jittered sd) (fun _ => True).
Proof.
  apply quietly_falling_back. intros url. apply quietly_recovering; [by apply quietly_ask|]. intros e.
  destruct (is_pending_state_error _); [by apply quietly_ask|apply quietly_throw].
Qed.
Lemma quietly_balances sd token : quietly (E := E) (balances jittered sd token) (fun _ => True).
Proof.
  apply quietly_falling_back. intros url. apply (quietly_bind _ _ (fun _ => True)); [by apply quietly_ask|]. intros n _.
  apply (quietly_bind _ _ (fun _ => True)); [by apply quietly_ask|]. intros t _. by apply quietly_ret.
Qed.

(** What preparing may change: the first nonce, and a stop. *)
Definition prepared_from sd sd' : Prop :=
  same_sender sd sd' /\ ps_log sd' = ps_log sd /\ ps_broadcasts sd' = ps_broadcasts sd /\ ps_stopped sd' = ps_stopped sd /\
  ns_gas_reserved (ps_state sd') = ns_gas_reserved (ps_state sd) /\ ns_gas_spent (ps_state sd') = ns_gas_spent (ps_state sd) /\
  ns_tokens_reserved (ps_state sd') = ns_tokens_reserved (ps_state sd) /\
  (is_Some (ns_next (ps_state sd)) -> ns_next (ps_state sd') = ns_next (ps_state sd)).

Definition held sd (s : L) : Prop := ln_sender s = sd.

Lemma hoare_sender sd F : hoare (held sd) (the_sender (E := E)) (fun a s => a = sd /\ held sd s) F.
Proof. by intros s <-. Qed.
Lemma hoare_edit f sd F : hoare (held sd) (edit (E := E) f) (fun _ => held (f sd)) F.
Proof. by intros s <-. Qed.
Lemma hoare_reading {T} (m : M (Pool E) T) φ sd F :
  quietly m φ -> (forall s, held sd s -> F s) -> hoare (held sd) (on_endpoints m) (fun a s => φ a /\ held sd s) F.
Proof.
  intros Hm HF s Hs. destruct (reading m φ s Hm) as [Hl Ha]. unfold held in *. rewrite Hs in Hl.
  destruct (on_endpoints m s) as [[a|e] s']; simpl in *; auto.
Qed.
Lemma hoare_attempt {T} P (m : M L T) Q F G :
  hoare P m Q F -> hoare P (attempt m) (fun r s => match r with Ok a => Q a s | Err _ => F s end) G.
Proof. intros Hm s Hs. specialize (Hm s Hs). unfold attempt. by destruct (m s) as [[a|e] s']. Qed.

(** What a prepared envelope has: the call it was asked for, the next nonce, and
    room in the budget. *)
Definition prepared_for sd (tx : PipelineTransaction) env : Prop :=
  signed_for (E := E) (ps_signer sd) (pt_request tx) env /\ ns_next (ps_state sd) = Some (tx_nonce env) /\
  forall cap, pk_gas_budget (ps_limits sd) = Some cap ->
    saturating_add 256 (ns_gas_spent (ps_state sd)) (saturating_add 256 (ns_gas_reserved (ps_state sd)) (gas_of env)) <= cap.

Lemma prepare_first_nonce sd n : ns_next (ps_state sd) = None -> prepared_from sd (edit_state (set_next (Some n)) sd).
Proof. intros Hn. do 7 (split; [done|]). rewrite Hn. by intros [? ?]. Qed.
Lemma prepared_refl sd : prepared_from sd sd.
Proof. done. Qed.

Lemma exceeds_false budget amount : exceeds budget amount = false -> forall cap, budget = Some cap -> amount <= cap.
Proof. intros Hx cap ->. by apply Z.ltb_ge. Qed.

Lemma filled pool signer rq next :
  quietly (pool_fill_and_sign jittered pool signer (set_nonce (Some next) rq)) (fun env =>
    signed_for (E := E) signer rq env /\ tx_nonce env = next).
Proof.
  intros s. destruct (signed_fill jittered signer rq pool (set_nonce (Some next) rq) ltac:(done) s) as [Hl Hs].
  destruct (quietly_pool_fill jittered fill_keeps_nonce pool signer (set_nonce (Some next) rq) s) as [_ Hn].
  split; [done|]. intros env He. split; [by apply Hs|by apply Hn].
Qed.

Lemma prepare_spec tx sd :
  hoare (held sd) (prepare jittered tx)
    (fun env s => prepared_from sd (ln_sender s) /\ ns_stopped (ps_state (ln_sender s)) = ns_stopped (ps_state sd) /\
                  prepared_for (ln_sender s) tx env)
    (fun s => prepared_from sd (ln_sender s)).
Proof.
  unfold prepare. eapply hoare_bind; [apply hoare_sender|]. intros sd0. apply hoare_pure. intros ->.
  eapply (hoare_bind _ _ (fun next s => exists sd1, prepared_from sd sd1 /\ ns_stopped (ps_state sd1) = ns_stopped (ps_state sd) /\
    ns_next (ps_state sd1) = Some next /\ held sd1 s)).
  { destruct (ns_next (ps_state sd)) as [n|] eqn:Hn.
    - eapply hoare_post; [apply hoare_ret|]. intros a s [-> Hs]. by exists sd.
    - eapply hoare_bind; [apply hoare_reading; [apply quietly_starting_nonce|by intros s ->]|]. intros n. apply hoare_pure.
      intros _. eapply hoare_bind; [apply hoare_edit|]. intros u. eapply hoare_post; [apply hoare_ret|]. intros a s [-> Hs].
      exists (edit_state (set_next (Some n)) sd). split; [by apply prepare_first_nonce|done]. }
  intros next. apply hoare_exists. intros sd1. apply hoare_pure. intros Hp. do 2 (apply hoare_pure; intros ?).
  assert (forall s, held sd1 s -> prepared_from sd (ln_sender s)) as Hfrom by (by intros s ->).
  eapply hoare_bind; [apply hoare_reading; [by apply (filled (ps_endpoints sd) (ps_signer sd) (pt_request tx) next)|done]|].
  intros env. apply hoare_pure. intros [Hsigned Hnonce]. eapply hoare_bind; [apply hoare_sender|]. intros sd2. apply hoare_pure. intros ->.
  destruct (exceeds _ _).
  { eapply hoare_bind; [apply hoare_edit|]. intros u. apply hoare_throw. by intros s ->. }
  eapply hoare_bind; [apply hoare_reading; [apply quietly_balances|done]|]. intros [native tokens]. apply hoare_pure. intros _.
  eapply hoare_bind; [by apply hoare_lift|]. intros u. apply hoare_pure. intros Hfund.
  eapply (hoare_bind _ _ (fun _ => held sd1)); [by intros s Hs|]. intros s0.
  eapply hoare_bind; [by apply hoare_ensure|]. intros v. apply hoare_pure. intros _.
  eapply hoare_post; [apply hoare_ret|]. intros a s [-> Hs]. unfold held in Hs. rewrite Hs. split; [done|]. split; [done|].
  assert (ps_signer sd1 = ps_signer sd) as Hsg by apply Hp. split; [by rewrite Hsg|].
  split; [congruence|]. unfold check_funding in Hfund. apply result_bind_ok in Hfund as (w & Hb%ensure_ok_ok & _).
  apply negb_true_iff in Hb. by apply exceeds_false.
Qed.

(** ** Broadcasting *)

Definition about (env : TxEnvelope) (ev : event) : Prop := match ev with Broadcast _ e _ => e = env | Asked _ _ _ => True end.

Lemma broadcast_lost_spec pool_of sd env :
  ps_endpoints pool_of <> [] ->
  hoare (held sd) (broadcast_lost jittered pool_of env)
    (fun _ s => exists new, ln_sender s = set_log (new ++ ps_log sd) sd /\ Forall (about env) new /\ Exists (broadcast_of env) new)
    (fun _ => False).
Proof.
  intros Hpool s Hs. unfold broadcast_lost, attempt, on_endpoints, mbind, M_bind.
  destruct (broadcast_raw_log jittered (ps_endpoints pool_of) env (mkPool (ln_env s) (ps_log (ln_sender s))) Hpool)
    as (new & Hl & Hof & Hne & _).
  assert (Forall (about env) new) as Habout by (eapply Forall_impl; [|exact Hof]; by intros []).
  assert (Exists (broadcast_of env) new) as Hex by (destruct Hof; [done|by constructor]).
  destruct (broadcast_raw jittered (ps_endpoints pool_of) env _) as [[h|e] p]; cbn [snd pl_log] in Hl.
  - exists new. simpl. by rewrite Hl, Hs.
  - destruct (tx_known_log jittered (ps_endpoints pool_of) (tx_hash env) (mkPool (pl_env p) (pl_log p))) as (asks & known & Heq & Hasks & _).
    simpl. rewrite Heq. exists (asks ++ new). simpl. rewrite Hl, Hs, app_assoc. split; [done|]. split.
    + apply Forall_app. split; [|done]. eapply Forall_impl; [|exact Hasks]. by intros [].
    + apply Exists_app. by right.
Qed.

Lemma wire_app log new sd :
  wire (set_log (new ++ log) sd) = omap (fun ev => match ev with Broadcast _ env _ => Some env | Asked _ _ _ => None end) new ++ wire (set_log log sd).
Proof. unfold wire. simpl. apply omap_app. Qed.

(** One more envelope, at the next nonce. *)
Lemma orderly_push sd envs env new sd' :
  orderly sd envs -> ns_stopped (ps_state sd) = None -> ns_next (ps_state sd) = Some (tx_nonce env) ->
  Forall (about env) new -> Exists (broadcast_of env) new ->
  ps_endpoints sd' = ps_endpoints sd -> ps_log sd' = new ++ ps_log sd ->
  ps_stopped sd' = bool_decide (is_Some (ns_stopped (ps_state sd'))) ->
  (ns_stopped (ps_state sd') = None -> ns_next (ps_state sd') = Some (tx_nonce env + 1)) ->
  orderly sd' (envs ++ [env]).
Proof.
  intros [Hpool Hwire (start & Hmap & Hnext) Hflag] Hrun Hn Habout Hex Hep Hlog Hflag' Hnext'. split.
  - by rewrite Hep.
  - intros e. unfold wire in *. rewrite Hlog, omap_app, elem_of_app, (Hwire e), elem_of_app, list_elem_of_singleton.
    split; [|intros [? | ->]; [by right|left]].
    + intros [(ev & Hin & Hev)%list_elem_of_omap|?]; [right|by left]. rewrite list.Forall_forall in Habout.
      specialize (Habout ev Hin). destruct ev; [simpl in *; congruence|done].
    + apply list.Exists_exists in Hex as (ev & Hin & Hev). apply list_elem_of_omap. exists ev. split; [done|].
      destruct ev; [by simpl in *; subst|done].
  - rewrite length_app. simpl. rewrite Nat.add_1_r. destruct (decide (envs = [])) as [->|Hne].
    + exists (tx_nonce env). split; [done|]. simpl. intros Hs _. by rewrite (Hnext' Hs).
    + specialize (Hnext Hrun Hne). rewrite Hn in Hnext. injection Hnext as Hnext. exists start. split.
      * rewrite map_app, Hmap, seqZ_S. simpl. by rewrite Hnext.
      * intros Hs _. rewrite (Hnext' Hs). f_equal. lia.
  - done.
Qed.

Lemma prepared_orderly sd sd' envs :
  prepared_from sd sd' -> ns_stopped (ps_state sd') = ns_stopped (ps_state sd) -> orderly sd envs -> orderly sd' envs.
Proof.
  intros ((Hep & _) & Hlog & _ & Hfl & _ & _ & _ & Hkeep) Hst [Hpool Hwire (start & Hmap & Hnext) Hflag]. split.
  - by rewrite Hep.
  - unfold wire in *. by rewrite Hlog.
  - exists start. split; [done|]. rewrite Hst. intros Hs Hne. rewrite Hkeep; [by apply Hnext|]. rewrite (Hnext Hs Hne). by eexists.
  - by rewrite Hfl, Hst.
Qed.

(** A prepare that failed may have stopped the sender. *)
Lemma failed_orderly sd sd' envs :
  prepared_from sd sd' -> ns_stopped (ps_state sd) = None -> orderly sd envs ->
  orderly (set_flag (bool_decide (is_Some (ns_stopped (ps_state sd')))) sd') envs.
Proof.
  intros ((Hep & _) & Hlog & _ & _ & _ & _ & _ & Hkeep) Hrun [Hpool Hwire (start & Hmap & Hnext) _]. split; simpl.
  - by rewrite Hep.
  - unfold wire in *. simpl. by rewrite Hlog.
  - exists start. split; [done|]. intros _ Hne. rewrite Hkeep; [by apply Hnext|]. rewrite (Hnext Hrun Hne). by eexists.
  - done.
Qed.

Lemma budget_frame paid total sd sd' :
  ps_limits sd' = ps_limits sd -> ns_gas_reserved (ps_state sd') = ns_gas_reserved (ps_state sd) ->
  ns_gas_spent (ps_state sd') = ns_gas_spent (ps_state sd) -> within_budget paid total sd -> within_budget paid total sd'.
Proof. unfold within_budget. intros -> -> -> Hb. exact Hb. Qed.
Lemma budget_less paid total total' sd : total' <= total -> within_budget paid total sd -> within_budget paid total' sd.
Proof. intros Ht Hb cap Hc Hlt. destruct (Hb cap Hc Hlt) as (?&?&?&?). lia. Qed.

Lemma budget_reserve paid total sd tx env sd' :
  within_budget paid total sd -> prepared_for sd tx env -> ps_limits sd' = ps_limits sd ->
  ns_gas_reserved (ps_state sd') = saturating_add 256 (ns_gas_reserved (ps_state sd)) (gas_of env) ->
  ns_gas_spent (ps_state sd') = ns_gas_spent (ps_state sd) -> within_budget paid (gas_of env + total) sd'.
Proof.
  intros Hb (_ & _ & Hroom) Hlim Hres Hsp. intros cap. rewrite Hlim, Hres, Hsp. intros Hc Hlt. destruct (Hb cap Hc Hlt) as (?&?&?&?).
  specialize (Hroom cap Hc). pose proof (gas_of_range env). unfold saturating_add in *. lia.
Qed.

(** What [broadcast] does to a sender that was [orderly]. *)
Definition broadcast_post sd envs (tx : PipelineTransaction) (r : PipelineError + PendingDeposit) sd' : Prop :=
  same_sender sd sd' /\
  match r with
  | inl (NotSent _) => orderly sd' envs /\ forall paid total, within_budget paid total sd -> within_budget paid total sd'
  | inl (Uncertain _) => exists env, orderly sd' (envs ++ [env]) /\ signed_for (E := E) (ps_signer sd) (pt_request tx) env /\
      forall paid total, within_budget paid total sd -> within_budget paid total sd'
  | inr pending => exists env, orderly sd' (envs ++ [env]) /\ signed_for (E := E) (ps_signer sd) (pt_request tx) env /\
      pd_hash pending = tx_hash env /\
      pd_gas_reserved pending = gas_of env /\ pd_amount pending = pt_amount tx /\
      forall paid total, within_budget paid total sd -> within_budget paid (gas_of env + total) sd'
  end.

(** The sender after the envelope was put on the wire. *)
Definition sent_post sd envs env sd' : Prop :=
  orderly sd' (envs ++ [env]) /\ same_sender sd sd' /\
  forall paid total, within_budget paid total sd -> within_budget paid (gas_of env + total) sd'.

Lemma sent_after sd sd1 envs env tx new sd' :
  prepared_from sd sd1 -> ns_stopped (ps_state sd1) = None -> prepared_for sd1 tx env -> orderly sd1 envs ->
  Forall (about env) new -> Exists (broadcast_of env) new ->
  let sd2 := edit_state (reserve (mkPending (tx_hash env) (gas_of env) (pt_token tx) (pt_amount tx))) sd1 in
  same_sender sd2 sd' -> ps_log sd' = new ++ ps_log sd2 ->
  ns_gas_reserved (ps_state sd') = ns_gas_reserved (ps_state sd2) -> ns_gas_spent (ps_state sd') = ns_gas_spent (ps_state sd2) ->
  ps_stopped sd' = bool_decide (is_Some (ns_stopped (ps_state sd'))) ->
  (ns_stopped (ps_state sd') = None -> ns_next (ps_state sd') = Some (tx_nonce env + 1)) ->
  sent_post sd envs env sd'.
Proof.
  intros ((Hs1 & Hs2 & Hs3 & Hs4) & _ & _ & _ & Hres & Hsp & _) Hst Hfor Ho1 Habout Hex sd2 (He1 & He2 & He3 & He4) Hlog Hr' Hsp' Hfl Hnx.
  split; [|split].
  - eapply (orderly_push sd1 envs env new); try done. apply Hfor.
  - unfold same_sender. rewrite He1, He2, He3, He4. done.
  - intros paid total Hb. eapply (budget_reserve paid total sd1); [by apply (budget_frame paid total sd)|done..].
Qed.

Lemma broadcast_spec tx sd envs :
  orderly sd envs ->
  hoare (held sd) (broadcast jittered tx) (fun r s => broadcast_post sd envs tx r (ln_sender s)) (fun _ => False).
Proof.
  intros Ho. unfold broadcast. eapply hoare_bind; [apply hoare_sender|]. intros sd0. apply hoare_pure. intros ->.
  destruct (ns_stopped (ps_state sd)) as [reason|] eqn:Hrun.
  { eapply hoare_post; [apply hoare_ret|]. intros r s [-> ->]. split; [done|]. by split. }
  eapply hoare_bind; [apply hoare_attempt, prepare_spec|]. intros [env|error]; simpl.
  2: { apply (hoare_pre _ (fun s => exists sd1, prepared_from sd sd1 /\ held sd1 s)); [|intros s Hp; by exists (ln_sender s)].
    apply hoare_exists. intros sd1. apply hoare_pure. intros Hp. eapply hoare_bind; [apply hoare_edit|]. intros u.
    eapply hoare_post; [apply hoare_ret|]. intros r s [-> ->]. pose proof (failed_orderly _ _ _ Hp Hrun Ho) as Ho'.
    destruct Hp as (Hsame & _ & _ & _ & Hres & Hsp & _). split; [done|]. split; [done|]. intros paid total. by apply budget_frame; [apply Hsame|..]. }
  apply (hoare_pre _ (fun s => exists sd1, (prepared_from sd sd1 /\ ns_stopped (ps_state sd1) = ns_stopped (ps_state sd) /\
    prepared_for sd1 tx env) /\ held sd1 s)); [|intros s Hp; by exists (ln_sender s)].
  apply hoare_exists. intros sd1. apply hoare_pure. intros (Hp & Hst & Hfor).
  pose proof (prepared_orderly _ _ _ Hp Hst Ho) as Ho1. rewrite Hrun in Hst.
  eapply hoare_bind; [apply hoare_edit|]. intros u.
  eapply hoare_bind; [eapply hoare_conseq; [apply (broadcast_lost_spec sd)| | |done]|]; [apply Ho|by intros s Hs|by intros a s Hs|].
  intros lost. apply hoare_exists. intros new. set (sd2 := edit_state _ sd1).
  apply (hoare_pre _ (fun s => (Forall (about env) new /\ Exists (broadcast_of env) new) /\ held (set_log (new ++ ps_log sd1) sd2) s));
    [|by intros s (? & ? & ?)]. apply hoare_pure. intros [Habout Hex].
  assert (forall sd', sent_post sd envs env sd' ->
    broadcast_post sd envs tx (inr (mkPending (tx_hash env) (gas_of env) (pt_token tx) (pt_amount tx))) sd' /\
    broadcast_post sd envs tx (inl (Uncertain "broadcast uncertain")) sd') as Hpost.
  { intros sd' (Hs1 & Hs2 & Hs3). destruct Hfor as [Hsigned _]. replace (ps_signer sd1) with (ps_signer sd) in Hsigned by (symmetry; apply Hp).
    split; (split; [done|]); exists env; [done|]. do 2 (split; [done|]). intros paid total Hb.
    apply (budget_less paid (gas_of env + total)); [pose proof (gas_of_range env); lia|by apply Hs3]. }
  destruct lost.
  - unfold halt. eapply hoare_bind; [apply hoare_edit|]. intros v. eapply hoare_post; [apply hoare_ret|]. intros r s [-> ->].
    apply Hpost. by eapply (sent_after sd sd1 envs env tx new).
  - eapply hoare_bind; [apply hoare_edit|]. intros v. eapply hoare_bind; [apply hoare_sender|]. intros sd3. apply hoare_pure.
    intros ->. eapply (hoare_bind _ _ (fun _ s => sent_post sd envs env (ln_sender s))).
    + simpl. unfold checked_add, checked. destruct (in_width 64 (tx_nonce env + 1)).
      * eapply hoare_post; [apply hoare_ret|]. intros r s [_ ->]. eapply (sent_after sd sd1 envs env tx new); try done.
        simpl. destruct Ho1 as [_ _ _ ->]. done.
      * unfold halt. eapply hoare_post; [apply hoare_edit|]. intros r s ->. by eapply (sent_after sd sd1 envs env tx new).
    + intros w. eapply (hoare_bind _ _ (fun _ s => sent_post sd envs env (ln_sender s))).
      { intros s ([] & Hss & Hbs). by split; [split|]. }
      intros x. eapply hoare_post; [apply hoare_ret|]. intros r s (-> & Hs). by apply Hpost.
Qed.

(** ** Settling *)

Lemma settle_some pending receipt sd :
  hoare (held sd) (settle (E := E) pending (Some receipt))
    (fun r s => r = inr receipt /\
       held (edit_state (release pending (wrapping_mul (receipt_gas receipt).1 (receipt_gas receipt).2)) sd) s) (fun _ => False).
Proof.
  unfold settle. destruct (receipt_gas receipt) as [gas price]. eapply hoare_bind; [apply hoare_edit|]. intros u.
  eapply hoare_post; [apply hoare_ret|]. by intros r s [-> Hs].
Qed.
Lemma settle_none pending sd :
  hoare (held sd) (settle (E := E) pending None) (fun r s => (exists reason, r = inl (Uncertain reason)) /\
    held (set_flag true (edit_state (set_stopped "deposit is unconfirmed") sd)) s) (fun _ => False).
Proof.
  unfold settle, halt. eapply hoare_bind; [apply hoare_edit|]. intros u. eapply hoare_post; [apply hoare_ret|].
  intros r s [-> Hs]. split; [by eexists|done].
Qed.

Lemma settle_orderly pending gas sd envs :
  orderly sd envs -> orderly (edit_state (release pending gas) sd) envs /\
    orderly (set_flag true (edit_state (set_stopped "deposit is unconfirmed") sd)) envs.
Proof.
  intros [Hpool Hwire (start & Hmap & Hnext) Hflag]. split; split; try done; by exists start.
Qed.

(** A receipt pays at most what was reserved for its transaction. *)
Lemma budget_release pending gas paid total sd :
  within_budget paid (pd_gas_reserved pending + total) sd -> 0 <= total -> 0 <= gas <= pd_gas_reserved pending ->
  within_budget (paid + gas) total (edit_state (release pending gas) sd).
Proof.
  intros Hb Ht Hg cap Hc Hlt. destruct (Hb cap Hc Hlt) as (?&?&?&?). simpl. unfold saturating_add, saturating_sub. lia.
Qed.
End Facts.
