(* ===== verification/Stress.v ===== *)
(** * The deposit stress test (commands/intents/stress.rs, stress/)

    Many deposits at once: a scheduler admits deposits while its caps allow,
    each one is a task that asks for a quote and sends the deposit over the
    pipelined sender of its source chain.  Setting up is a program on the
    [Desk]; the run is a step relation, whose steps are one turn of the
    scheduler's loop, or one part of a task that nothing can interleave. *)

From S2P Require Import Prelude Types Retry Journal Chain Plan Config Target Json Propose RobustSend Intents IntentRun Pipeline.

(** ** Data (stress/types.rs) *)

(** Amounts are texts, durations milliseconds. *)
Record StressArgs : Type := mkStressArgs {
  sa_runtime : IntentRuntimeArgs;
  sa_symbol : string;
  sa_amount : string;
  sa_duration : option Z;
  sa_max_intents : option Z;
  sa_max_in_flight : Z;
  sa_max_volume : option string;
  sa_max_native_spend : option string;
  sa_min_native_balance : string
}.

Record StressLimits : Type := mkStressLimits {
  sl_duration : option Z;
  sl_max_intents : option Z;
  sl_max_in_flight : Z;
  sl_amount : Z;
  sl_max_volume : option Z;
  sl_max_native_spend : option Z;
  sl_min_native_balance : Z;
  sl_decimals : Z;
  sl_symbol : string
}.

(** [StressLimits::approval_amount]. *)
Definition approval_amount (limits : StressLimits) : Z :=
  let count_volume := (fun count => saturating_mul 256 count (sl_amount limits)) <$> sl_max_intents limits in
  match sl_max_volume limits, count_volume with
  | Some volume, Some count => Z.min volume count
  | Some volume, None => volume
  | None, Some count => count
  | None, None => 2 ^ 256 - 1
  end.

Inductive StopReason : Type := DurationReached | MaxIntents | MaxVolume | InterruptedRun | SourcesStopped.

Record DepositRecord : Type := mkDepositRecord {
  dr_quote_id : string;
  dr_transaction_hash : B256;
  dr_quote_latency_ms : Z;
  dr_deposit_latency_ms : Z
}.

Inductive DepositOutcome : Type :=
  | ConfirmedDeposit (record : DepositRecord)
  | SkippedDeposit (reason : string)
  | FailedDeposit (reason : string).

Record TaskCompletion : Type := mkCompletion { tc_source : nat; tc_outcome : DepositOutcome }.

Record SourceReport : Type := mkSourceReport {
  so_label : string;
  so_confirmed : Z;
  so_skipped : Z;
  so_failed : Z;
  so_last_issue : option string
}.

Record SourceState : Type := mkSource {
  ss_routes : list LegPlan;
  ss_sender : PipelinedSender;
  ss_cursor : Z;
  ss_ready_at : Z;
  ss_report : SourceReport
}.

(** Without the time it started, which is only shown. *)
Record AdmissionState : Type := mkAdmission {
  ad_attempts : Z;
  ad_committed : Z;
  ad_broadcast : Z;
  ad_confirmed : Z;
  ad_skipped : Z;
  ad_failed : Z;
  ad_active : Z;
  ad_peak_active : Z
}.

(** [AdmissionState::new]. *)
Definition fresh_admission : AdmissionState := mkAdmission 0 0 0 0 0 0 0 0.

Definition permanent_stop (st : AdmissionState) (limits : StressLimits) : option StopReason :=
  if match sl_max_intents limits with Some cap => cap <=? ad_committed st | None => false end then Some MaxIntents
  else if match sl_max_volume limits with
          | Some cap => cap <? saturating_mul 256 (saturating_add 64 (ad_committed st) 1) (sl_amount limits)
          | None => false
          end then Some MaxVolume
  else None.

Definition can_admit (st : AdmissionState) (limits : StressLimits) : bool :=
  let reserved := saturating_add 64 (saturating_add 64 (ad_committed st) (ad_active st)) 1 in
  (ad_active st <? sl_max_in_flight limits) &&
  match sl_max_intents limits with Some cap => reserved <=? cap | None => true end &&
  match sl_max_volume limits with Some cap => saturating_mul 256 reserved (sl_amount limits) <=? cap | None => true end.

Definition admit_deposit (st : AdmissionState) : AdmissionState :=
  mkAdmission (ad_attempts st + 1) (ad_committed st) (ad_broadcast st) (ad_confirmed st) (ad_skipped st) (ad_failed st)
    (ad_active st + 1) (Z.max (ad_peak_active st) (ad_active st + 1)).

Definition complete (outcome : DepositOutcome) (st : AdmissionState) : AdmissionState :=
  let active := saturating_sub (ad_active st) 1 in
  match outcome with
  | SkippedDeposit _ =>
      mkAdmission (ad_attempts st) (ad_committed st) (ad_broadcast st) (ad_confirmed st) (ad_skipped st + 1) (ad_failed st) active
        (ad_peak_active st)
  | ConfirmedDeposit _ =>
      mkAdmission (ad_attempts st) (ad_committed st + 1) (ad_broadcast st) (ad_confirmed st + 1) (ad_skipped st) (ad_failed st)
        active (ad_peak_active st)
  | FailedDeposit _ =>
      mkAdmission (ad_attempts st) (ad_committed st + 1) (ad_broadcast st) (ad_confirmed st) (ad_skipped st) (ad_failed st + 1)
        active (ad_peak_active st)
  end.

(** A task that could not be joined. *)
Definition untracked (st : AdmissionState) : AdmissionState :=
  mkAdmission (ad_attempts st) (ad_committed st + 1) (ad_broadcast st) (ad_confirmed st) (ad_skipped st) (ad_failed st + 1)
    (saturating_sub (ad_active st) 1) (ad_peak_active st).

(** ** Setting up *)

Record PreparedDeposit : Type := mkPrepared {
  pp_transaction : PipelineTransaction;
  pp_quote_id : string;
  pp_quote_latency_ms : Z
}.

Section Limits.
Context `{EvmLib}.

Definition optional_units (value : option string) (decimals : Z) : result (option Z) :=
  match value with Some value => Some <$> to_base_units value decimals | None => Ok None end.

Definition resolve_limits (args : StressArgs) (routes : list LegPlan) : result StressLimits :=
  first ← ok_or (head routes) "no funded source routes returned quotes";
  let decimals := wa_decimals (lp_from first) in
  _ ← ensure_ok (forallb (fun route => wa_decimals (lp_from route) =? decimals) routes)
        "stress input assets must have consistent decimals";
  amount ← to_base_units (sa_amount args) decimals;
  max_volume ← optional_units (sa_max_volume args) decimals;
  max_native_spend ← optional_units (sa_max_native_spend args) 18;
  _ ← ensure_ok (negb (is_zero amount || match max_volume with Some cap => cap <? amount | None => false end ||
                       match max_native_spend with Some cap => is_zero cap | None => false end))
        "amount and gas budget must be positive, and max-volume must cover one deposit";
  min_native_balance ← to_base_units (sa_min_native_balance args) 18;
  Ok (mkStressLimits (sa_duration args) (sa_max_intents args) (sa_max_in_flight args) amount max_volume max_native_spend
        min_native_balance decimals (trim (sa_symbol args))).
End Limits.

Section Setup.
Context {E : Type} `{PoolNode E, IntentNode E, EvmLib, CosmosAccounts, ConfigLib, IntentLib}.
Abbreviation D := (Desk E).
Variables (jittered : Z -> Z) (env_var : string -> option string).

(** The loop of [plan_stress_routes] (route.rs). *)
Fixpoint stress_routes (base : string) (di : RouteDiscovery) (signer : Address) (symbol amount : string)
    (pairs : list (WalletAsset * WalletAsset)) : M D (list LegPlan) :=
  match pairs with
  | [] => mret []
  | (from, to) :: pairs =>
      let rest := stress_routes base di signer symbol amount pairs in
      if negb (same_text (wa_symbol from) symbol) || negb (same_text (wa_symbol to) symbol) ||
         negb (wa_decimals from =? wa_decimals to) || negb (is_ok (ensure_source_ready (di_assets di) from)) then rest
      else
        input_amount ← lift (to_base_units amount (wa_decimals from));
        ensure (negb (is_zero input_amount)) "stress intent amount must be greater than zero";;
        if negb (is_ok (ensure_input_is_spendable from input_amount)) then rest
        else
          plan ← trying (preflight_leg base from to signer signer ExactInput input_amount);
          plans ← rest;
          mret (match plan with Ok (Some plan) => plan :: plans | _ => plans end)
  end.

Definition plan_stress_routes (base : string) (di : RouteDiscovery) (signer : Address) (symbol amount : string)
    : M D (list LegPlan) :=
  stress_routes base di signer symbol amount (directed_cross_chain_pairs (di_assets di) Token).

Definition STRESS_APPROVAL_LABEL : string := "intent stress approval".

Definition stress_approval_action (plan : LegPlan) (signer : Address) (amount : Z) : Action :=
  mkAction "axe-stress-approval" "Approve bounded intent stress volume" Approval (ai_chain_id (wa_id (lp_from plan)))
    (EvmTransaction (mkPayload (Some (address_to_string signer)) (ai_token_address (wa_id (lp_from plan)))
       (hex_text (approve_calldata (lp_settlement_contract plan) amount)) "0" None None None)).

Definition prepare_stress_approval (chains : gmap string ChainRuntime) (signer : string) (wallet : Address) (plan : LegPlan)
    (amount : Z) : M D () :=
  let approvals := match of_kind Approval (tq_quote (lp_quote plan)) with
                   | [] => [stress_approval_action plan wallet amount]
                   | approvals => approvals
                   end in
  required ← required_approvals jittered chains wallet (lp_from plan) approvals (lp_input_amount plan) (Some amount);
  match required with
  | [] => mret ()
  | _ => execute_actions jittered chains signer wallet (lp_from plan) required STRESS_APPROVAL_LABEL;; mret ()
  end.

(** The approvals, one per source asset and settlement contract. *)
Fixpoint stress_approvals (chains : gmap string ChainRuntime) (signer : string) (wallet : Address) (amount : Z)
    (routes : list LegPlan) (approved : list (AssetId * Address)) : M D () :=
  match routes with
  | [] => mret ()
  | plan :: routes =>
      let key := (wa_id (lp_from plan), lp_settlement_contract plan) in
      if existsb (fun k => same_asset k.1 key.1 && (k.2 =? key.2)) approved
      then stress_approvals chains signer wallet amount routes approved
      else
        prepare_stress_approval chains signer wallet plan amount;;
        stress_approvals chains signer wallet amount routes (key :: approved)
  end.

(** A [BTreeMap] of the routes by source chain, in the order of its keys. *)
Definition group_routes (routes : list LegPlan) : gmap string (list LegPlan) :=
  foldl (fun m plan => let key := ai_chain_id (wa_id (lp_from plan)) in <[key := default [] (m !! key) ++ [plan]]> m) ∅ routes.
Definition key_le (a b : string * list LegPlan) : Prop := String.leb a.1 b.1 = true.
#[local] Instance key_le_dec a b : Decision (key_le a b).
Proof. unfold key_le. apply _. Defined.
Definition grouped_routes (routes : list LegPlan) : list (string * list LegPlan) :=
  merge_sort key_le (map_to_list (group_routes routes)).

Definition stress_source (chains : gmap string ChainRuntime) (signer : string) (wallet : Address) (limits : StressLimits) (now : Z)
    (group : string * list LegPlan) : result SourceState :=
  chain ← ok_or (chains !! group.1) "missing RPC";
  endpoints ← connect valid_url [cr_rpc_url chain];
  Ok (mkSource group.2
        (pipelined_sender endpoints signer wallet
           (mkPipelineLimits (sl_min_native_balance limits) (sl_max_native_spend limits) 90000))
        0 now (mkSourceReport (cr_label chain) 0 0 0 None)).

Fixpoint stress_sources (chains : gmap string ChainRuntime) (signer : string) (wallet : Address) (limits : StressLimits)
    (groups : list (string * list LegPlan)) : M D (list SourceState) :=
  match groups with
  | [] => mret []
  | group :: groups =>
      now ← instant;
      source ← lift (stress_source chains signer wallet limits now group);
      sources ← stress_sources chains signer wallet limits groups;
      mret (source :: sources)
  end.

Definition prepare_sources (rt : IntentRuntime) (chains : gmap string ChainRuntime) (routes : list LegPlan) (limits : StressLimits)
    : M D (list SourceState) :=
  stress_approvals chains (ir_signer rt) (ir_wallet rt) (approval_amount limits) routes [];;
  stress_sources chains (ir_signer rt) (ir_wallet rt) limits (grouped_routes routes).

(** [run_stress], up to the scheduler. *)
Definition setup_stress (args : StressArgs) : M D (IntentRuntime * StressLimits * list SourceState) :=
  ensure (bool_decide (ia_network (sa_runtime args) = Testnet)) "intent stress is testnet-only";;
  rt ← prepare_runtime (sa_runtime args);
  acquire_lock (ir_wallet rt);;
  di ← discover_wallet jittered env_var (ir_base_url rt) (ir_config rt) (ir_wallet rt);
  routes ← plan_stress_routes (ir_base_url rt) di (ir_wallet rt) (trim (sa_symbol args)) (sa_amount args);
  limits ← lift (resolve_limits args routes);
  sources ← prepare_sources rt (di_chains di) routes limits;
  mret (rt, limits, sources).

(** *** A deposit (execution.rs) *)

Definition prepare_deposit (base : string) (sender : Address) (leg : LegExecution) : M D PreparedDeposit :=
  '(selected, input_amount) ← quote_for_execution base sender leg;
  let q := tq_quote selected in
  action ← lift (deposit_action q (le_from leg) input_amount);
  request ← lift (action_request action sender (ai_chain_id (wa_id (le_from leg))));
  token ← lift (ok_or (parse_address (ai_token_address (wa_id (le_from leg)))) "invalid address");
  now ← instant;
  utc ← wall_clock;
  let expires_in := Z.max 0 (va_quote_expires_at (qu_validity q) - utc) in
  mret (mkPrepared (mkPipelineTx request token input_amount (now + saturating_sub expires_in 2000)) (qu_quote_id q)
          (elapsed_ms (tq_latency selected))).

Definition stress_leg (wallet : Address) (plan : LegPlan) : LegExecution :=
  mkLeg (lp_from plan) (lp_to plan) (lp_order_type plan) (lp_requested_amount plan) wallet (Some (lp_input_amount plan))
    (lp_settlement_contract plan).
End Setup.

(** ** The scheduler (stress/scheduler.rs) *)

(** A task, by what it does next. *)
Inductive Task : Type :=
  | Quoting (source : nat) (plan : LegPlan)
  | Depositing (source : nat) (prepared : PreparedDeposit)
  | Waiting (source : nat) (prepared : PreparedDeposit) (pending : PendingDeposit) (started : Z)
  | Finished (completion : TaskCompletion).

Record Sched : Type := mkSched {
  sc_sources : list SourceState;
  sc_admission : AdmissionState;
  sc_tasks : list Task;
  sc_records : list DepositRecord;
  sc_cursor : nat;
  sc_stop : option StopReason
}.

Definition start_sched (sources : list SourceState) : Sched := mkSched sources fresh_admission [] [] 0 None.

Definition set_stop (stop : option StopReason) (s : Sched) : Sched :=
  mkSched (sc_sources s) (sc_admission s) (sc_tasks s) (sc_records s) (sc_cursor s) stop.
Definition set_tasks (tasks : list Task) (s : Sched) : Sched :=
  mkSched (sc_sources s) (sc_admission s) tasks (sc_records s) (sc_cursor s) (sc_stop s).
Definition edit_source (i : nat) (f : SourceState -> SourceState) (s : Sched) : Sched :=
  mkSched (alter f i (sc_sources s)) (sc_admission s) (sc_tasks s) (sc_records s) (sc_cursor s) (sc_stop s).
Definition edit_admission (f : AdmissionState -> AdmissionState) (s : Sched) : Sched :=
  mkSched (sc_sources s) (f (sc_admission s)) (sc_tasks s) (sc_records s) (sc_cursor s) (sc_stop s).

Definition set_sender (sd : PipelinedSender) (src : SourceState) : SourceState :=
  mkSource (ss_routes src) sd (ss_cursor src) (ss_ready_at src) (ss_report src).
Definition next_route (src : SourceState) : SourceState :=
  mkSource (ss_routes src) (ss_sender src) ((ss_cursor src + 1) mod 2 ^ 64) (ss_ready_at src) (ss_report src).
Definition report_on (f : SourceReport -> SourceReport) (ready_at : Z) (src : SourceState) : SourceState :=
  mkSource (ss_routes src) (ss_sender src) (ss_cursor src) ready_at (f (ss_report src)).

Definition source_ready (now : Z) (src : SourceState) : bool := negb (ps_stopped (ss_sender src)) && (ss_ready_at src <=? now).

Definition next_source (sources : list SourceState) (cursor : nat) (now : Z) : option nat :=
  List.find (fun i => match sources !! i with Some src => source_ready now src | None => false end)
    (map (fun offset => Nat.modulo (cursor + offset) (length sources)) (seq 0 (length sources))).

(** [admit_deposits]: each round adds an active task, so [n] rounds are enough
    for [n] free places.  A source has routes: they made it. *)
Fixpoint admit_deposits (n : nat) (limits : StressLimits) (now : Z) (s : Sched) : Sched :=
  match n with
  | O => s
  | S n =>
      if negb (can_admit (sc_admission s) limits) then s
      else
        match next_source (sc_sources s) (sc_cursor s) now with
        | None => s
        | Some i =>
            match sc_sources s !! i with
            | None => s
            | Some src =>
                match ss_routes src !! Z.to_nat (ss_cursor src mod Z.of_nat (length (ss_routes src))) with
                | None => s
                | Some plan =>
                    admit_deposits n limits now
                      (mkSched (alter next_route i (sc_sources s)) (admit_deposit (sc_admission s)) (sc_tasks s ++ [Quoting i plan])
                         (sc_records s) (Nat.modulo (i + 1) (length (sc_sources s))) (sc_stop s))
                end
            end
        end
  end.

(** The top of the loop: whether to stop, and what to admit. *)
Definition choose_stop (limits : StressLimits) (deadline : option Z) (interrupted : bool) (now : Z) (s : Sched) : option StopReason :=
  match sc_stop s with
  | Some reason => Some reason
  | None =>
      if interrupted then Some InterruptedRun
      else if match deadline with Some deadline => deadline <=? now | None => false end then Some DurationReached
      else permanent_stop (sc_admission s) limits
  end.

Definition count_broadcasts (s : Sched) : Sched :=
  edit_admission (fun st => mkAdmission (ad_attempts st) (ad_committed st)
    (foldr (fun src acc => ps_broadcasts (ss_sender src) + acc) 0 (sc_sources s)) (ad_confirmed st) (ad_skipped st) (ad_failed st)
    (ad_active st) (ad_peak_active st)) s.

Definition loop_top (limits : StressLimits) (deadline : option Z) (interrupted : bool) (now : Z) (s : Sched) : Sched :=
  let s := set_stop (choose_stop limits deadline interrupted now s) s in
  count_broadcasts
    match sc_stop s with
    | Some _ => s
    | None =>
        let s := admit_deposits (Z.to_nat (sl_max_in_flight limits - ad_active (sc_admission s))) limits now s in
        if bool_decide (length (sc_tasks s) = 0%nat) && forallb (fun src => ps_stopped (ss_sender src)) (sc_sources s)
        then set_stop (Some SourcesStopped) s else s
    end.

Definition complete_deposit (now : Z) (c : TaskCompletion) (s : Sched) : Sched :=
  let s := edit_admission (complete (tc_outcome c)) s in
  match tc_outcome c with
  | ConfirmedDeposit record =>
      let s := edit_source (tc_source c) (fun src => report_on (fun r =>
        mkSourceReport (so_label r) (so_confirmed r + 1) (so_skipped r) (so_failed r) (so_last_issue r)) (ss_ready_at src) src) s in
      mkSched (sc_sources s) (sc_admission s) (sc_tasks s) (sc_records s ++ [record]) (sc_cursor s) (sc_stop s)
  | SkippedDeposit reason =>
      edit_source (tc_source c) (report_on (fun r =>
        mkSourceReport (so_label r) (so_confirmed r) (so_skipped r + 1) (so_failed r) (Some reason)) (now + 1000)) s
  | FailedDeposit reason =>
      edit_source (tc_source c) (fun src => report_on (fun r =>
        mkSourceReport (so_label r) (so_confirmed r) (so_skipped r) (so_failed r + 1) (Some reason)) (ss_ready_at src) src) s
  end.

Section Tasks.
Context {E : Type} `{PoolNode E, IntentNode E, PipeNode E, EvmLib, CosmosAccounts, ConfigLib, IntentLib}.
Variables (jittered : Z -> Z) (base : string) (wallet : Address) (limits : StressLimits) (deadline : option Z).

Definition skipped (source : nat) (reason : string) : Task := Finished (mkCompletion source (SkippedDeposit reason)).

(** The parts of [run_deposit]: the quote, *)
Definition quoted (e : E) (source : nat) (plan : LegPlan) : Task :=
  match (prepare_deposit base wallet (stress_leg wallet plan) (mkDesk e [] (mkStats 0 0 0 []) [])).1 with
  | Ok prepared => Depositing source prepared
  | Err error => skipped source (error_text error)
  end.

(** the broadcast under the lock, *)
Definition deposited_task (now : Z) (source : nat) (prepared : PreparedDeposit) (r : PipelineError + PendingDeposit) : Task :=
  match r with
  | inr pending => Waiting source prepared pending now
  | inl (NotSent reason) => skipped source reason
  | inl (Uncertain reason) => Finished (mkCompletion source (FailedDeposit reason))
  end.

(** and the settlement under the lock. *)
Definition settled_task (now : Z) (source : nat) (prepared : PreparedDeposit) (started : Z) (r : PipelineError + Receipt) : Task :=
  Finished (mkCompletion source
    match r with
    | inr receipt =>
        if status receipt then
          ConfirmedDeposit (mkDepositRecord (pp_quote_id prepared) (transaction_hash receipt) (pp_quote_latency_ms prepared)
                              (Z.min (now - started) u64_max))
        else FailedDeposit "deposit reverted"
    | inl (NotSent reason) => SkippedDeposit reason
    | inl (Uncertain reason) => FailedDeposit reason
    end).

(** One step, in whatever environment it runs: the loop comes to its top; a task
    takes a quote, broadcasts or settles; a finished task is joined; a task
    cannot be joined; an interrupt or the deadline stops the run.  A step is
    labelled with the receipt it settles, and the source that paid for it. *)
Inductive stress_step : Sched -> list (nat * Receipt) -> Sched -> Prop :=
  | step_top interrupted now s : stress_step s [] (loop_top limits deadline interrupted now s)
  | step_quote e s before source plan after :
      sc_tasks s = before ++ Quoting source plan :: after ->
      stress_step s [] (set_tasks (before ++ quoted e source plan :: after) s)
  | step_broadcast e s before source prepared after src r lane :
      sc_tasks s = before ++ Depositing source prepared :: after -> sc_sources s !! source = Some src ->
      broadcast jittered (pp_transaction prepared) (mkLane e (ss_sender src)) = (Ok r, lane) ->
      stress_step s [] (edit_source source (set_sender (ln_sender lane))
                          (set_tasks (before ++ deposited_task (now_ms e) source prepared r :: after) s))
  | step_settle e e' s before source prepared pending started after src found r lane :
      sc_tasks s = before ++ Waiting source prepared pending started :: after -> sc_sources s !! source = Some src ->
      (wait_receipt_any RECEIPT_FUEL (ps_endpoints (ss_sender src)) [pd_hash pending]
         (pk_receipt_timeout (ps_limits (ss_sender src))) (mkPool e [])).1 = Ok found ->
      settle pending found (mkLane e' (ss_sender src)) = (Ok r, lane) ->
      stress_step s (match found with Some receipt => [(source, receipt)] | None => [] end)
        (edit_source source (set_sender (ln_sender lane))
           (set_tasks (before ++ settled_task (now_ms e') source prepared started r :: after) s))
  | step_join now s before completion after :
      sc_tasks s = before ++ Finished completion :: after ->
      stress_step s [] (complete_deposit now completion (set_tasks (before ++ after) s))
  | step_untracked s before task after :
      sc_tasks s = before ++ task :: after ->
      stress_step s [] (set_stop (Some SourcesStopped) (edit_admission untracked (set_tasks (before ++ after) s)))
  | step_stop reason s :
      sc_stop s = None -> reason = InterruptedRun \/ reason = DurationReached -> stress_step s [] (set_stop (Some reason) s).

(** Steps one after the other, with the receipts they settle. *)
Inductive stress_path : Sched -> list (nat * Receipt) -> Sched -> Prop :=
  | path_end s : stress_path s [] s
  | path_step s receipts s' more s'' : stress_step s receipts s' -> stress_path s' more s'' -> stress_path s (receipts ++ more) s''.

(** The loop ends when it is to stop and no task is left. *)
Definition ended (s : Sched) : Prop := is_Some (sc_stop s) /\ sc_tasks s = [].

Definition stress_run (sources : list SourceState) (s : Sched) : Prop := exists receipts, stress_path (start_sched sources) receipts s.
End Tasks.
