(* ===== verification/StressFacts.v ===== *)
(** * The deposit stress test: caps, nonces, gas and accounts *)

From S2P Require Import Prelude Types Retry Journal Chain Plan Config Target Json Propose ProposeFacts RobustSend SignedCalls Intents IntentAmounts IntentRun IntentSafety Pipeline PipelineFacts Stress.

(** ** Steps that admit deposits *)

(** What an admission does. *)
Definition admitted (i : nat) (plan : LegPlan) (s : Sched) : Sched :=
  mkSched (alter next_route i (sc_sources s)) (admit_deposit (sc_admission s)) (sc_tasks s ++ [Quoting i plan]) (sc_records s)
    (Nat.modulo (i + 1) (length (sc_sources s))) (sc_stop s).

Lemma admit_deposits_ind limits now (I : Sched -> Prop) n s :
  (forall s i src plan, I s -> can_admit (sc_admission s) limits = true -> sc_sources s !! i = Some src -> plan ∈ ss_routes src ->
     I (admitted i plan s)) -> I s -> I (admit_deposits n limits now s).
Proof.
  intros Hstep. revert s. induction n as [|n IH]; intros s Hs; simpl; [done|].
  destruct (can_admit _ _) eqn:Hcan; simpl; [|done]. destruct (next_source _ _ _) as [i|]; [|done].
  destruct (sc_sources s !! i) as [src|] eqn:Hsrc; [|done]. destruct (ss_routes src !! _) as [plan|] eqn:Hplan; [|done].
  apply IH. eapply Hstep; eauto. by eapply list_elem_of_lookup_2.
Qed.

Lemma loop_top_ind limits deadline interrupted now (I : Sched -> Prop) s :
  (forall s i src plan, I s -> can_admit (sc_admission s) limits = true -> sc_sources s !! i = Some src -> plan ∈ ss_routes src ->
     I (admitted i plan s)) ->
  (forall stop s, I s -> I (set_stop stop s)) -> (forall s, I s -> I (count_broadcasts s)) ->
  I s -> I (loop_top limits deadline interrupted now s).
Proof.
  intros Hadmit Hstop Hcount Hs. unfold loop_top. apply Hcount. destruct (sc_stop _); [by apply Hstop|].
  destruct (_ && _); [apply Hstop|]; apply (admit_deposits_ind limits now); auto.
Qed.

(** ** Accounts *)

Record accounts (limits : StressLimits) (s : Sched) : Prop := mkAccounts {
  ac_active : ad_active (sc_admission s) = Z.of_nat (length (sc_tasks s));
  ac_attempts : ad_attempts (sc_admission s) =
    ad_confirmed (sc_admission s) + ad_skipped (sc_admission s) + ad_failed (sc_admission s) + ad_active (sc_admission s);
  ac_committed : ad_committed (sc_admission s) = ad_confirmed (sc_admission s) + ad_failed (sc_admission s);
  ac_records : ad_confirmed (sc_admission s) = Z.of_nat (length (sc_records s));
  ac_failed : 0 <= ad_failed (sc_admission s);
  ac_skipped : 0 <= ad_skipped (sc_admission s);
  ac_peak : ad_active (sc_admission s) <= ad_peak_active (sc_admission s) <= Z.max 0 (sl_max_in_flight limits);
  ac_intents : forall cap, sl_max_intents limits = Some cap -> 0 <= cap < u64_max ->
    ad_committed (sc_admission s) + ad_active (sc_admission s) <= cap;
  ac_volume : forall volume, sl_max_volume limits = Some volume -> 0 <= volume < 2 ^ 256 - 1 -> 0 <= sl_amount limits ->
    ad_attempts (sc_admission s) < u64_max ->
    (ad_committed (sc_admission s) + ad_active (sc_admission s)) * sl_amount limits <= volume
}.

Lemma accounts_start limits sources : accounts limits (start_sched sources).
Proof. split; simpl; lia. Qed.

Lemma can_admit_room limits st :
  can_admit st limits = true -> 0 <= ad_committed st + ad_active st ->
  ad_active st < sl_max_in_flight limits /\
  (forall cap, sl_max_intents limits = Some cap -> cap < u64_max -> ad_committed st + ad_active st + 1 <= cap) /\
  (forall volume, sl_max_volume limits = Some volume -> volume < 2 ^ 256 - 1 -> 0 <= sl_amount limits ->
     ad_committed st + ad_active st + 1 < u64_max -> (ad_committed st + ad_active st + 1) * sl_amount limits <= volume).
Proof.
  unfold can_admit. intros [[Hfl%Z.ltb_lt Hint]%andb_prop Hvol]%andb_prop Hnn. unfold saturating_add, u64_max in *. split; [done|]. split.
  - intros cap Hcap Hlt. rewrite Hcap in Hint. apply Z.leb_le in Hint. lia.
  - intros volume Hv Hlt Ha Hfit. rewrite Hv in Hvol. apply Z.leb_le in Hvol. unfold saturating_mul in Hvol.
    rewrite (Z.min_l (ad_committed st + ad_active st)), Z.min_l in Hvol by lia. lia.
Qed.

Lemma accounts_admitted limits i plan s :
  accounts limits s -> can_admit (sc_admission s) limits = true -> accounts limits (admitted i plan s).
Proof.
  intros [] Hcan. destruct (can_admit_room limits _ Hcan) as (Hfl & Hint & Hvol); [lia|].
  split; simpl; try rewrite length_app; simpl; try lia.
  - intros cap Hc Hr. specialize (Hint cap Hc). lia.
  - intros v Hv Hr Ha Hfit. specialize (Hvol v Hv). lia.
Qed.

(** A task leaves: it counts as confirmed, skipped or failed. *)
Lemma accounts_leave limits s s' :
  accounts limits s -> S (length (sc_tasks s')) = length (sc_tasks s) ->
  ad_active (sc_admission s') = saturating_sub (ad_active (sc_admission s)) 1 ->
  ad_attempts (sc_admission s') = ad_attempts (sc_admission s) -> ad_peak_active (sc_admission s') = ad_peak_active (sc_admission s) ->
  ad_committed (sc_admission s') = ad_confirmed (sc_admission s') + ad_failed (sc_admission s') ->
  ad_confirmed (sc_admission s') = Z.of_nat (length (sc_records s')) ->
  ad_confirmed (sc_admission s') + ad_skipped (sc_admission s') + ad_failed (sc_admission s') =
    ad_confirmed (sc_admission s) + ad_skipped (sc_admission s) + ad_failed (sc_admission s) + 1 ->
  ad_failed (sc_admission s) <= ad_failed (sc_admission s') -> ad_skipped (sc_admission s) <= ad_skipped (sc_admission s') ->
  accounts limits s'.
Proof.
  intros [] Hlen Ha Hat Hp Hc Hr Hsum Hf Hs. unfold saturating_sub in Ha.
  assert (ad_active (sc_admission s') = ad_active (sc_admission s) - 1) as Ha' by lia. split; try lia.
  - intros cap Hcap Hfit. specialize (ac_intents0 cap Hcap Hfit). lia.
  - intros v Hv Hw Ham Hfit. specialize (ac_volume0 v Hv Hw Ham ltac:(lia)). nia.
Qed.

Lemma middle_length {A} (before after : list A) x y : length (before ++ x :: after) = length (before ++ y :: after).
Proof. rewrite !length_app. done. Qed.
Lemma middle_out {A} (before after : list A) x : S (length (before ++ after)) = length (before ++ x :: after).
Proof. rewrite !length_app. simpl. lia. Qed.

Section Run.
Context {E : Type} `{PoolNode E, IntentNode E, PipeNode E, EvmLib, CosmosAccounts, ConfigLib, IntentLib}.
Variables (jittered : Z -> Z) (base : string) (wallet : Address) (limits : StressLimits) (deadline : option Z).
Abbreviation step := (stress_step (E := E) jittered base wallet limits deadline).

Lemma accounts_same s s' :
  accounts limits s -> sc_admission s' = sc_admission s -> length (sc_tasks s') = length (sc_tasks s) ->
  sc_records s' = sc_records s -> accounts limits s'.
Proof. intros [] Ha Ht Hr. split; rewrite ?Ha, ?Hr, ?Ht; done. Qed.

(** What every step keeps, a run keeps. *)
Lemma path_keeps (I : Sched -> Prop) s receipts s' :
  (forall s receipts s', I s -> step s receipts s' -> I s') -> stress_path (E := E) jittered base wallet limits deadline s receipts s' ->
  I s -> I s'.
Proof. intros Hstep. induction 1 as [|s receipts s1 more s2 Hs _ IH]; [done|]. intros Hi. by eapply IH, Hstep. Qed.

Lemma accounts_step s receipts s' : accounts limits s -> step s receipts s' -> accounts limits s'.
Proof.
  intros Ha. destruct 1 as [intr now s|e s b i plan a Ht|e s b i p a src r lane Ht _ _|e e' s b i p pd st a src f r lane Ht _ _ _
    |now s b c a Ht|s b t a Ht|reason s Hs _].
  - apply loop_top_ind; [intros; by apply accounts_admitted| | |done].
    + intros stop s0 Hs0. by apply (accounts_same s0).
    + intros s0 []. by split.
  - apply (accounts_same s); [done..| |done]. simpl. rewrite Ht. apply middle_length.
  - apply (accounts_same s); [done..| |done]. simpl. rewrite Ht. apply middle_length.
  - apply (accounts_same s); [done..| |done]. simpl. rewrite Ht. apply middle_length.
  - destruct Ha. unfold complete_deposit. destruct c as [i [record|reason|reason]];
      (eapply (accounts_leave limits s); [by split| |try done; simpl; try rewrite length_app; simpl; lia..]);
      simpl; rewrite Ht; apply middle_out.
  - destruct Ha. eapply (accounts_leave limits s); [by split| |try done; simpl; lia..]. simpl. rewrite Ht. apply middle_out.
  - by apply (accounts_same s).
Qed.

Lemma accounts_run sources s : stress_run (E := E) jittered base wallet limits deadline sources s -> accounts limits s.
Proof.
  intros [receipts Hr]. eapply path_keeps; [apply accounts_step|exact Hr|apply accounts_start].
Qed.

(** ** Lanes *)

Hypothesis fill_keeps_nonce : forall signer url rq (e : E) env e' n,
  pool_fill signer url rq e = (inr (Some env), e') -> rq_nonce rq = Some n -> tx_nonce env = n.

(** The parts of a source that are fixed. *)
Definition same_source (a b : SourceState) : Prop := ss_routes b = ss_routes a /\ same_sender (ss_sender a) (ss_sender b).

(** What is said of the sources otherwise. *)
Variable good : SourceState -> Prop.
Hypothesis good_same : forall src src', same_source src src' -> good src -> good src'.

(** The deposit of a quote that the service offered for a planned route, with a
    quoted input of at most the planned one. *)
Definition planned (src : SourceState) (rq : TransactionRequest) (amount : Z) : Prop :=
  exists plan q, plan ∈ ss_routes src /\ for_leg (E := E) base wallet (stress_leg wallet plan) q /\
    quoted_input q amount /\ amount <= lp_input_amount plan /\
    is_deposit wallet (lp_from plan) (lp_settlement_contract plan) q rq.

(** An envelope signed for such a deposit. *)
Definition planned_envelope (src : SourceState) (env : TxEnvelope) : Prop :=
  exists rq amount, planned src rq amount /\ signed_for (E := E) (ps_signer (ss_sender src)) rq env.

Definition lane_ok (src : SourceState) (envs : list TxEnvelope) : Prop :=
  orderly (ss_sender src) envs /\ Forall (planned_envelope src) envs /\ good src.

Definition task_ok (sources : list SourceState) (t : Task) : Prop :=
  match t with
  | Quoting i plan => exists src, sources !! i = Some src /\ plan ∈ ss_routes src
  | Depositing i p => exists src, sources !! i = Some src /\
      planned src (pt_request (pp_transaction p)) (pt_amount (pp_transaction p))
  | Waiting i p pending _ => exists src env, sources !! i = Some src /\ pd_hash pending = tx_hash env /\
      pd_gas_reserved pending = gas_of env /\ planned_envelope src env
  | Finished _ => True
  end.

(** Tasks that put an envelope on the wire and were not joined yet. *)
Definition sent_task (t : Task) : nat :=
  match t with
  | Waiting _ _ _ _ => 1
  | Finished c => match tc_outcome c with SkippedDeposit _ => 0 | _ => 1 end
  | _ => 0
  end.

Definition total_sent (envs : list (list TxEnvelope)) : nat := sum_list_with length envs.

Record lanes_inv (s : Sched) (envs : list (list TxEnvelope)) : Prop := mkLanesInv {
  li_lanes : Forall2 lane_ok (sc_sources s) envs;
  li_tasks : Forall (task_ok (sc_sources s)) (sc_tasks s);
  li_sent : Z.of_nat (total_sent envs) <= ad_committed (sc_admission s) + Z.of_nat (sum_list_with sent_task (sc_tasks s))
}.

Lemma same_source_refl src : same_source src src.
Proof. by repeat split. Qed.
Lemma planned_same src src' rq amount : same_source src src' -> planned src rq amount -> planned src' rq amount.
Proof. intros [Hr _] (plan & q & Hin & Hp). exists plan, q. by rewrite Hr. Qed.
Lemma planned_envelope_same src src' env : same_source src src' -> planned_envelope src env -> planned_envelope src' env.
Proof.
  intros Hs (rq & amount & Hp & Hsg). exists rq, amount. split; [by eapply planned_same|]. destruct Hs as [_ (_ & -> & _)]. done.
Qed.

Lemma task_ok_alter f i sources t :
  (forall src, sources !! i = Some src -> same_source src (f src)) -> task_ok sources t -> task_ok (alter f i sources) t.
Proof.
  intros Hf. assert (forall j src, sources !! j = Some src -> exists src', alter f i sources !! j = Some src' /\ same_source src src') as Hlook.
  { intros j src Hj. destruct (decide (i = j)) as [->|Hne].
    - exists (f src). rewrite list_lookup_alter_eq, Hj. split; [done|by apply Hf].
    - exists src. rewrite list_lookup_alter_ne by done. split; [done|apply same_source_refl]. }
  destruct t as [j plan|j p|j p pd st|c]; simpl; [..|done].
  - intros (src & Hj & Hin). destruct (Hlook j src Hj) as (src' & Hj' & Hr & _). exists src'. by rewrite Hr.
  - intros (src & Hj & Hp). destruct (Hlook j src Hj) as (src' & Hj' & Hs). exists src'. split; [done|by eapply planned_same].
  - intros (src & env & Hj & Hh & Hg & Hp). destruct (Hlook j src Hj) as (src' & Hj' & Hs). exists src', env.
    do 3 (split; [done|]). by eapply planned_envelope_same.
Qed.

Lemma lane_ok_same src src' envs : same_source src src' -> orderly (ss_sender src') envs -> lane_ok src envs -> lane_ok src' envs.
Proof.
  intros Hs Ho (_ & Hf & Hg). split; [done|]. split; [|by eapply good_same]. eapply Forall_impl; [|exact Hf]. intros env.
  by apply planned_envelope_same.
Qed.

(** A change of one source that keeps what is fixed, and its lane in order. *)
Lemma lanes_alter f i sources envs :
  Forall2 lane_ok sources envs ->
  (forall src l, sources !! i = Some src -> envs !! i = Some l -> lane_ok src l -> lane_ok (f src) l) ->
  Forall2 lane_ok (alter f i sources) envs.
Proof. intros Hf Hi. apply Forall2_alter_l; [done|]. intros src l Hs Hl. by apply Hi. Qed.
Lemma lanes_push f i sources envs env :
  Forall2 lane_ok sources envs ->
  (forall src l, sources !! i = Some src -> envs !! i = Some l -> lane_ok src l -> lane_ok (f src) (l ++ [env])) ->
  Forall2 lane_ok (alter f i sources) (alter (fun l => l ++ [env]) i envs).
Proof. intros Hf Hi. apply Forall2_alter; [done|]. intros src l Hs Hl. by apply Hi. Qed.

Lemma total_sent_push i envs env : (total_sent (alter (fun l => l ++ [env]) i envs) <= S (total_sent envs))%nat.
Proof.
  unfold total_sent, alter. revert i. induction envs as [|l envs IH]; intros [|i]; cbn [list_alter sum_list_with]; [lia..| |].
  - rewrite length_app. simpl. lia.
  - specialize (IH i). lia.
Qed.

Lemma sent_middle before t after :
  sum_list_with sent_task (before ++ t :: after) = (sent_task t + sum_list_with sent_task (before ++ after))%nat.
Proof. rewrite !sum_list_with_app. simpl. lia. Qed.

(** *** A quote makes a planned deposit *)

Lemma silently_prepare_deposit plan :
  silently (E := E) (prepare_deposit base wallet (stress_leg wallet plan)) (fun p =>
    exists q, for_leg (E := E) base wallet (stress_leg wallet plan) q /\ quoted_input q (pt_amount (pp_transaction p)) /\
    pt_amount (pp_transaction p) <= lp_input_amount plan /\
    is_deposit wallet (lp_from plan) (lp_settlement_contract plan) q (pt_request (pp_transaction p))).
Proof.
  unfold prepare_deposit. eapply silently_bind; [apply silently_quote_for_execution|]. intros [selected input] [Hoffer Hq].
  eapply silently_bind; [apply silently_lift|]. intros action Ha. eapply silently_bind; [apply silently_lift|]. intros rq Hrq.
  eapply silently_bind; [apply silently_lift|]. intros token _. eapply silently_bind; [apply silently_instant|]. intros now _.
  eapply silently_bind; [apply silently_wall_clock|]. intros utc _. apply silently_ret. simpl.
  exists (tq_quote selected). split; [done|]. split; [by destruct Hq|].
  split; [|exact (deposit_request _ _ _ _ _ _ _ _ Hq Ha Hrq)]. destruct Hq as (_ & _ & _ & Hmax). by apply Hmax.
Qed.

Lemma quoted_ok e i plan sources src :
  sources !! i = Some src -> plan ∈ ss_routes src ->
  task_ok sources (quoted base wallet e i plan) /\ sent_task (quoted base wallet e i plan) = 0%nat.
Proof.
  intros Hi Hin. unfold quoted. set (s := mkDesk e [] _ []). destruct (silently_prepare_deposit plan s) as (t & rs & _ & _ & _ & _ & _ & Hp).
  destruct (prepare_deposit _ _ _ s) as [[p|err] s']; [|done]. simpl. split; [|done]. exists src. split; [done|].
  destruct (Hp p eq_refl) as (q & ? & ? & ? & ?). by exists plan, q.
Qed.

(** *** Steps *)

Lemma lanes_admitted s envs i src plan :
  lanes_inv s envs -> sc_sources s !! i = Some src -> plan ∈ ss_routes src -> lanes_inv (admitted i plan s) envs.
Proof.
  intros [Hl Ht Hs] Hi Hin. split; simpl.
  - apply lanes_alter; [done|]. intros src' l _ _ Hok. eapply lane_ok_same; [|apply Hok|exact Hok]. by repeat split.
  - apply Forall_app. split.
    + eapply Forall_impl; [|exact Ht]. intros t. apply task_ok_alter. intros src' _. by repeat split.
    + apply Forall_singleton. exists (next_route src). rewrite list_lookup_alter_eq, Hi. done.
  - rewrite sum_list_with_app. simpl. lia.
Qed.

(** A task that goes on without its source changing. *)
Lemma lanes_task s envs before t t' after :
  lanes_inv s envs -> sc_tasks s = before ++ t :: after -> task_ok (sc_sources s) t' -> (sent_task t <= sent_task t')%nat ->
  lanes_inv (set_tasks (before ++ t' :: after) s) envs.
Proof.
  intros [Hl Ht Hs] Htasks Hok Hle. rewrite Htasks in *. apply Forall_app in Ht as [Hb [_ Ha]%Forall_cons_iff]. split; simpl; [done| |].
  - apply Forall_app. split; [done|]. by constructor.
  - rewrite sent_middle in Hs |- *. lia.
Qed.

(** A source whose sender changes and keeps its lane. *)
Lemma lanes_sender s envs i src sd :
  lanes_inv s envs -> sc_sources s !! i = Some src -> same_sender (ss_sender src) sd ->
  (forall l, envs !! i = Some l -> orderly sd l) -> lanes_inv (edit_source i (set_sender sd) s) envs.
Proof.
  intros [Hl Ht Hs] Hi Hsame Ho. assert (forall src', sc_sources s !! i = Some src' -> same_source src' (set_sender sd src')) as Hsrc.
  { intros src' Hi'. rewrite Hi in Hi'. by injection Hi' as <-. }
  split; simpl; [|eapply Forall_impl; [|exact Ht]; intros t; by apply task_ok_alter|done].
  apply lanes_alter; [done|]. intros src' l Hi' Hl' Hok. eapply lane_ok_same; [by apply Hsrc| |exact Hok].
  by apply Ho.
Qed.

(** One more envelope on the wire of a source. *)
Lemma lanes_sent s envs i src sd env n before t t' after :
  lanes_inv s envs -> sc_sources s !! i = Some src -> envs !! i = Some n -> same_sender (ss_sender src) sd ->
  orderly sd (n ++ [env]) -> planned_envelope src env -> sc_tasks s = before ++ t :: after -> sent_task t = 0%nat ->
  sent_task t' = 1%nat -> task_ok (sc_sources s) t' ->
  lanes_inv (edit_source i (set_sender sd) (set_tasks (before ++ t' :: after) s)) (alter (fun l => l ++ [env]) i envs).
Proof.
  intros [Hl Ht Hs] Hi Hn Hsame Ho Hp Htasks H0' H1' Hok.
  assert (forall src', sc_sources s !! i = Some src' -> same_source src' (set_sender sd src')) as Hsrc.
  { intros src' Hi'. rewrite Hi in Hi'. by injection Hi' as <-. }
  rewrite Htasks in *. apply Forall_app in Ht as [Hb [_ Ha]%Forall_cons_iff]. split; simpl.
  - apply lanes_push; [done|]. intros src' l Hi' Hl' (_ & Hf & Hgd). rewrite Hi in Hi'. injection Hi' as <-. rewrite Hn in Hl'.
    injection Hl' as <-. split; [done|]. split; [|eapply good_same; [by apply Hsrc|done]]. apply Forall_app. split; [|apply Forall_singleton; by eapply planned_envelope_same; [apply Hsrc|]].
    eapply Forall_impl; [|exact Hf]. intros e. apply planned_envelope_same. by apply Hsrc.
  - assert (Forall (task_ok (sc_sources s)) (before ++ t' :: after)) as Hall by (apply Forall_app; split; [done|by constructor]).
    eapply Forall_impl; [|exact Hall]. intros x. by apply task_ok_alter.
  - pose proof (total_sent_push i envs env). rewrite sent_middle in Hs |- *. lia.
Qed.

Lemma task_of s envs before t after : lanes_inv s envs -> sc_tasks s = before ++ t :: after -> task_ok (sc_sources s) t.
Proof. intros [_ Ht _] Htasks. rewrite Htasks in Ht. by apply Forall_app in Ht as [_ [? _]%Forall_cons_iff]. Qed.

Lemma lane_of s envs i src : lanes_inv s envs -> sc_sources s !! i = Some src -> exists l, envs !! i = Some l /\ lane_ok src l.
Proof. intros [Hl _ _] Hi. destruct (Forall2_lookup_l _ _ _ _ _ Hl Hi) as (l & ? & ?). by exists l. Qed.

Lemma lanes_broadcast s envs e before i p after src r lane :
  lanes_inv s envs -> sc_tasks s = before ++ Depositing i p :: after -> sc_sources s !! i = Some src ->
  broadcast jittered (pp_transaction p) (mkLane e (ss_sender src)) = (Ok r, lane) ->
  exists envs', lanes_inv (edit_source i (set_sender (ln_sender lane))
    (set_tasks (before ++ deposited_task (now_ms e) i p r :: after) s)) envs'.
Proof.
  intros Hinv Htasks Hi Hb. destruct (lane_of _ _ _ _ Hinv Hi) as (l & Hl & Ho & Hf & _).
  pose proof (broadcast_spec jittered fill_keeps_nonce (pp_transaction p) (ss_sender src) l Ho (mkLane e (ss_sender src)) eq_refl) as Hpost.
  rewrite Hb in Hpost. destruct Hpost as [Hsame Hpost].
  destruct (task_of _ _ _ _ _ Hinv Htasks) as (src' & Hi' & Hplan). rewrite Hi in Hi'. injection Hi' as <-.
  assert (forall env, signed_for (E := E) (ps_signer (ss_sender src)) (pt_request (pp_transaction p)) env -> planned_envelope src env) as Henv
    by (intros env; by exists (pt_request (pp_transaction p)), (pt_amount (pp_transaction p))).
  destruct r as [[reason|reason]|pending]; simpl.
  - destruct Hpost as [Ho' _]. exists envs. eapply (lanes_sender (set_tasks _ s)); [by eapply lanes_task|done..|].
    intros l' Hl'. rewrite Hl in Hl'. by injection Hl' as <-.
  - destruct Hpost as (env & Ho' & Hs & _). eexists. eapply lanes_sent; eauto. done.
  - destruct Hpost as (env & Ho' & Hs & Hh & Hg & _). eexists. eapply lanes_sent; eauto. exists src, env. by repeat (split; [done|]); apply Henv.
Qed.

Lemma lanes_settle s envs e before i p pending started after src found r lane :
  lanes_inv s envs -> sc_tasks s = before ++ Waiting i p pending started :: after -> sc_sources s !! i = Some src ->
  settle (E := E) pending found (mkLane e (ss_sender src)) = (Ok r, lane) ->
  lanes_inv (edit_source i (set_sender (ln_sender lane))
    (set_tasks (before ++ settled_task (now_ms e) i p started r :: after) s)) envs.
Proof.
  intros Hinv Htasks Hi Hs. destruct (lane_of _ _ _ _ Hinv Hi) as (l & Hl & Ho & Hf & _).
  assert (same_sender (ss_sender src) (ln_sender lane) /\ orderly (ln_sender lane) l /\ forall reason, r <> inl (NotSent reason)) as (Hsame & Ho' & Hr).
  { destruct found as [receipt|].
    - pose proof (settle_some (E := E) pending receipt (ss_sender src) (mkLane e (ss_sender src)) eq_refl) as Hp. rewrite Hs in Hp.
      destruct Hp as [-> ->]. split; [done|]. split; [by apply settle_orderly|done].
    - pose proof (settle_none (E := E) pending (ss_sender src) (mkLane e (ss_sender src)) eq_refl) as Hp. rewrite Hs in Hp.
      destruct Hp as [[reason ->] ->]. split; [done|]. split; [by apply (settle_orderly pending 0)|done]. }
  eapply (lanes_sender (set_tasks _ s)); [eapply lanes_task; [done..|]|done..|].
  - simpl. destruct r as [[reason|reason]|receipt]; [by destruct (Hr reason)|done|]. by destruct (status receipt).
  - intros l' Hl'. rewrite Hl in Hl'. by injection Hl' as <-.
Qed.

(** A task leaves; if it had sent, it is counted. *)
Lemma lanes_leave s envs before t after s' :
  lanes_inv s envs -> sc_tasks s = before ++ t :: after -> sc_tasks s' = before ++ after ->
  ad_committed (sc_admission s) + Z.of_nat (sent_task t) <= ad_committed (sc_admission s') ->
  (exists f i, sc_sources s' = alter f i (sc_sources s) /\ forall src, same_source src (f src) /\ ss_sender (f src) = ss_sender src) ->
  lanes_inv s' envs.
Proof.
  intros [Hl Ht Hs] Htasks Htasks' Hc (f & i & Hsrc & Hf). rewrite Htasks in *. apply Forall_app in Ht as [Hb [_ Ha]%Forall_cons_iff].
  split; rewrite ?Hsrc, ?Htasks'.
  - apply lanes_alter; [done|]. intros src l _ _ Hok. destruct (Hf src) as [Hsame Hsd].
    eapply lane_ok_same; [exact Hsame| |exact Hok]. rewrite Hsd. apply Hok.
  - assert (Forall (task_ok (sc_sources s)) (before ++ after)) as Hall by (by apply Forall_app).
    eapply Forall_impl; [|exact Hall]. intros x. apply task_ok_alter. intros src _. apply Hf.
  - rewrite sent_middle in Hs. lia.
Qed.

Lemma lanes_step s receipts s' : (exists envs, lanes_inv s envs) -> step s receipts s' -> exists envs, lanes_inv s' envs.
Proof.
  intros [envs Hinv]. destruct 1 as [intr now s|e s b i plan a Ht|e s b i p a src r lane Ht Hi Hb|e e' s b i p pd st a src f r lane Ht Hi _ Hs
    |now s b c a Ht|s b t a Ht|reason s Hs _].
  - exists envs. apply loop_top_ind; [intros; by eapply lanes_admitted|by intros stop s0 []|by intros s0 []|done].
  - destruct (task_of _ _ _ _ _ Hinv Ht) as (src & Hi & Hin). destruct (quoted_ok e i plan _ _ Hi Hin) as [Hok Hz].
    exists envs. eapply lanes_task; [done..|simpl; lia].
  - by eapply lanes_broadcast.
  - exists envs. by eapply lanes_settle.
  - exists envs. eapply (lanes_leave s); [done|done|..].
    + by destruct c as [i []].
    + destruct c as [i []]; simpl; lia.
    + destruct c as [i []]; simpl; eexists _, i; (split; [reflexivity|]); by repeat split.
  - exists envs. eapply (lanes_leave s); [done|done|done|destruct t as [| | |[i []]]; simpl; lia|].
    exists id, 0%nat. simpl. split; [by rewrite list_alter_id|]. by repeat split.
  - exists envs. by destruct Hinv.
Qed.

(** Sources as the setup makes them. *)
Definition fresh_source (src : SourceState) : Prop :=
  exists endpoints signer owner k, endpoints <> [] /\ ss_sender src = pipelined_sender endpoints signer owner k.

Lemma lanes_start sources : Forall fresh_source sources -> Forall good sources -> lanes_inv (start_sched sources) ((fun _ => []) <$> sources).
Proof.
  intros Hf Hg. split; simpl.
  - apply Forall2_fmap_r. apply Forall_Forall2_diag. eapply Forall_impl; [|exact (List.Forall_and Hf Hg)].
    intros src [(endpoints & signer & owner & k & Hne & Hsd) Hgd]. split; [|done]. rewrite Hsd. split; simpl; [done|done| |done].
    exists 0. by split.
  - done.
  - unfold total_sent. assert (sum_list_with length ((fun _ => [] : list TxEnvelope) <$> sources) = 0%nat) as ->; [|done].
    clear. by induction sources.
Qed.

Lemma lanes_run sources s :
  Forall fresh_source sources -> Forall good sources ->
  stress_run (E := E) jittered base wallet limits deadline sources s -> exists envs, lanes_inv s envs.
Proof.
  intros Hf Hg [receipts Hr]. eapply (path_keeps (fun s => exists envs, lanes_inv s envs)); [apply lanes_step|exact Hr|].
  eexists. by apply lanes_start.
Qed.
End Run.

(** ** Gas *)

(** A receipt uses at most the gas limit of its transaction, at no more than its
    highest price, and both fit their widths. *)
Class FairReceipts (E : Type) `{PoolNode E, PipeNode E} : Prop := {
  fair_receipt signer url rq (e e1 : E) env url' (e' e1' : E) receipt :
    pool_fill signer url rq e = (inr (Some env), e1) -> pool_receipt url' (tx_hash env) e' = (inr (Some receipt), e1') ->
    0 <= (receipt_gas receipt).1 <= tx_gas_limit env /\ 0 <= (receipt_gas receipt).2 <= tx_max_fee_per_gas env /\
    tx_gas_limit env * tx_max_fee_per_gas env < 2 ^ 256
}.

Definition task_gas (i : nat) (t : Task) : Z :=
  match t with Waiting j _ pending _ => if decide (j = i) then pd_gas_reserved pending else 0 | _ => 0 end.
(** The gas reserved for the deposits of a source that wait for their receipts. *)
Definition pending_gas (i : nat) (tasks : list Task) : Z := foldr (fun t acc => task_gas i t + acc) 0 tasks.

Lemma pending_gas_app i l k : pending_gas i (l ++ k) = pending_gas i l + pending_gas i k.
Proof. induction l as [|t l IH]; simpl; [done|]. lia. Qed.
Lemma pending_gas_middle i before t after : pending_gas i (before ++ t :: after) = task_gas i t + pending_gas i (before ++ after).
Proof. rewrite !pending_gas_app. simpl. lia. Qed.

(** The gas that receipts of a source paid for: gas used, at the price paid. *)
Definition paid_gas {E} `{PipeNode E} (i : nat) (receipts : list (nat * Receipt)) : Z :=
  foldr (fun p acc => (if decide (p.1 = i) then (receipt_gas p.2).1 * (receipt_gas p.2).2 else 0) + acc) 0 receipts.

Lemma paid_gas_app {E} `{PipeNode E} i l k : paid_gas i (l ++ k) = paid_gas i l + paid_gas i k.
Proof. induction l as [|p l IH]; simpl; [done|]. lia. Qed.

Section Gas.
Context {E : Type} `{PoolNode E, IntentNode E, PipeNode E, EvmLib, CosmosAccounts, ConfigLib, IntentLib, !FairReceipts E}.
Variables (jittered : Z -> Z) (base : string) (wallet : Address) (limits : StressLimits) (deadline : option Z).
Hypothesis fill_keeps_nonce : forall signer url rq (e : E) env e' n,
  pool_fill signer url rq e = (inr (Some env), e') -> rq_nonce rq = Some n -> tx_nonce env = n.
Abbreviation step := (stress_step (E := E) jittered base wallet limits deadline).
Abbreviation task_fine := (task_ok (E := E) base wallet).

Variable good : SourceState -> Prop.
Hypothesis good_same : forall src src', same_source src src' -> good src -> good src'.
Definition gas_inv (receipts : list (nat * Receipt)) (s : Sched) : Prop :=
  forall i src, sc_sources s !! i = Some src -> within_budget (paid_gas i receipts) (pending_gas i (sc_tasks s)) (ss_sender src).

Lemma task_gas_nonneg sources i t : task_fine sources t -> 0 <= task_gas i t.
Proof.
  destruct t as [| |j p pending st|]; simpl; try done. intros (src & env & _ & _ & -> & _). pose proof (gas_of_range env).
  destruct (decide (j = i)); lia.
Qed.
Lemma pending_gas_nonneg sources i l : Forall (task_fine sources) l -> 0 <= pending_gas i l.
Proof. induction 1 as [|t l Ht _ IH]; simpl; [done|]. pose proof (task_gas_nonneg _ i _ Ht). lia. Qed.

(** What a receipt pays was reserved. *)
Lemma receipt_pays src env pool hash receipt :
  planned_envelope (E := E) base wallet src env -> hash = tx_hash env -> has_receipt (E := E) pool [hash] receipt ->
  wrapping_mul (receipt_gas receipt).1 (receipt_gas receipt).2 = (receipt_gas receipt).1 * (receipt_gas receipt).2 /\
  0 <= (receipt_gas receipt).1 * (receipt_gas receipt).2 <= gas_of env.
Proof.
  intros (rq & amount & _ & url & rq' & e & e1 & _ & Hfill) -> (url' & h & e' & e1' & _ & Hh & Hr).
  apply list_elem_of_singleton in Hh as ->. destruct (fair_receipt _ _ _ _ _ _ _ _ _ _ Hfill Hr) as (Hg & Hp & Hw).
  unfold wrapping_mul, gas_of, wrapping_mul. rewrite !Z.mod_small by nia. split; [done|nia].
Qed.

(** A step that changes one task and the sender of one source. *)
Lemma gas_move receipts more s i src sd before t t' after :
  gas_inv receipts s -> sc_tasks s = before ++ t :: after -> sc_sources s !! i = Some src ->
  (forall j, j <> i -> task_gas j t' = task_gas j t) -> (forall j, j <> i -> paid_gas j more = 0) ->
  within_budget (paid_gas i receipts + paid_gas i more) (task_gas i t' + pending_gas i (before ++ after)) sd ->
  gas_inv (receipts ++ more) (edit_source i (set_sender sd) (set_tasks (before ++ t' :: after) s)).
Proof.
  intros Hg Htasks Hi Hother Hpaid Hb j src'. simpl. rewrite paid_gas_app. destruct (decide (i = j)) as [<-|Hne].
  - rewrite list_lookup_alter_eq, Hi. intros [= <-]. simpl. by rewrite pending_gas_middle.
  - rewrite list_lookup_alter_ne by done. intros Hj. specialize (Hg j src' Hj). rewrite Htasks in Hg.
    rewrite pending_gas_middle in Hg |- *. by rewrite Hother, Hpaid, Z.add_0_r.
Qed.

(** A task leaves. *)
Lemma gas_leave receipts s s' before t after :
  gas_inv receipts s -> sc_tasks s = before ++ t :: after -> sc_tasks s' = before ++ after -> task_fine (sc_sources s) t ->
  (forall j src', sc_sources s' !! j = Some src' -> exists src, sc_sources s !! j = Some src /\ ss_sender src' = ss_sender src) ->
  gas_inv receipts s'.
Proof.
  intros Hg Htasks Htasks' Hok Hsrc j src' Hj. destruct (Hsrc j src' Hj) as (src & Hj' & ->). specialize (Hg j src Hj').
  rewrite Htasks, pending_gas_middle in Hg. rewrite Htasks'. eapply budget_less; [|exact Hg].
  pose proof (task_gas_nonneg _ j _ Hok). lia.
Qed.

Lemma alter_sender f i (sources : list SourceState) j src' :
  (forall src, ss_sender (f src) = ss_sender src) -> alter f i sources !! j = Some src' ->
  exists src, sources !! j = Some src /\ ss_sender src' = ss_sender src.
Proof.
  intros Hf. rewrite list_lookup_alter. case_decide as Hij; [subst|by exists src'].
  destruct (sources !! j) as [src|]; [|done]. intros [= <-]. exists src. by rewrite Hf.
Qed.

Lemma gas_settle receipts s envs e e' b i p pd st a src f r lane :
  lanes_inv (E := E) base wallet good s envs -> gas_inv receipts s ->
  sc_tasks s = b ++ Waiting i p pd st :: a -> sc_sources s !! i = Some src ->
  (wait_receipt_any RECEIPT_FUEL (ps_endpoints (ss_sender src)) [pd_hash pd]
     (pk_receipt_timeout (ps_limits (ss_sender src))) (mkPool e [])).1 = Ok f ->
  settle pd f (mkLane (E := E) e' (ss_sender src)) = (Ok r, lane) ->
  gas_inv (receipts ++ match f with Some receipt => [(i, receipt)] | None => [] end)
    (edit_source i (set_sender (ln_sender lane)) (set_tasks (b ++ settled_task (now_ms e') i p st r :: a) s)).
Proof.
  intros Hinv Hg Ht Hi Hf Hs.
  destruct (task_of _ _ _ _ _ _ _ _ Hinv Ht) as (src' & env & Hi' & Hh & Hgas & Hp). rewrite Hi in Hi'. injection Hi' as <-.
  pose proof (Hg i src Hi) as Hgi. rewrite Ht, pending_gas_middle in Hgi. simpl in Hgi. rewrite decide_True in Hgi by done.
  eapply gas_move; [done..|intros j Hj; simpl; by rewrite decide_False|intros j Hj; destruct f; simpl; by rewrite ?decide_False|].
  simpl. destruct f as [receipt|].
  - pose proof (settle_some (E := E) pd receipt (ss_sender src) (mkLane e' (ss_sender src)) eq_refl) as Hset. rewrite Hs in Hset.
    destruct Hset as [_ ->]. simpl. rewrite decide_True, Z.add_0_r by done.
    destruct (quietly_wait_receipt RECEIPT_FUEL (ps_endpoints (ss_sender src)) [pd_hash pd]
      (pk_receipt_timeout (ps_limits (ss_sender src))) (mkPool e [])) as [_ Hw].
    destruct (receipt_pays src env _ _ receipt Hp Hh (Hw _ Hf _ eq_refl)) as [Heq Hle]. rewrite <- Heq in Hle |- *.
    apply budget_release; [done| |by rewrite Hgas]. destruct Hinv as [_ Htk _]. rewrite Ht in Htk.
    apply Forall_app in Htk as [? [_ ?]%Forall_cons_iff]. eapply pending_gas_nonneg. by apply Forall_app.
  - pose proof (settle_none (E := E) pd (ss_sender src) (mkLane e' (ss_sender src)) eq_refl) as Hset. rewrite Hs in Hset.
    destruct Hset as [_ ->]. simpl. rewrite Z.add_0_r. eapply budget_frame; [done..|]. eapply budget_less; [|exact Hgi].
    rewrite Hgas. pose proof (gas_of_range env). lia.
Qed.

Lemma gas_step receipts s more s' :
  (exists envs, lanes_inv (E := E) base wallet good s envs) -> gas_inv receipts s -> step s more s' -> gas_inv (receipts ++ more) s'.
Proof.
  intros [envs Hinv] Hg. destruct 1 as [intr now s|e s b i plan a Ht|e s b i p a src r lane Ht Hi Hb
    |e e' s b i p pd st a src f r lane Ht Hi Hf Hs|now s b c a Ht|s b t a Ht|reason s Hs _]; rewrite ?app_nil_r.
  - apply loop_top_ind; [|done|done|done]. intros s0 i src plan Hg0 _ Hi _ j src' Hj. simpl in *.
    rewrite pending_gas_app. simpl. rewrite Z.add_0_r. destruct (alter_sender next_route i _ j src' ltac:(done) Hj) as (src0 & Hj0 & ->).
    by apply Hg0.
  - intros j src Hj. simpl in *. specialize (Hg j src Hj). rewrite Ht in Hg. rewrite pending_gas_middle in Hg |- *.
    assert (task_gas j (quoted base wallet e i plan) = 0) as -> by (unfold quoted; by destruct (prepare_deposit _ _ _ _) as [[] ?]). exact Hg.
  - destruct (lane_of _ _ _ _ _ _ _ Hinv Hi) as (l & Hl & Ho & _).
    pose proof (broadcast_spec jittered fill_keeps_nonce (pp_transaction p) (ss_sender src) l Ho (mkLane e (ss_sender src)) eq_refl) as Hpost.
    rewrite Hb in Hpost. destruct Hpost as [_ Hpost]. pose proof (Hg i src Hi) as Hgi. rewrite Ht, pending_gas_middle in Hgi. simpl in Hgi.
    rewrite <- (app_nil_r receipts).
    destruct r as [[reason|reason]|pending]; (eapply gas_move; [done..|intros j Hj; simpl; by rewrite ?decide_False|done|]);
      simpl; rewrite Z.add_0_r.
    + by apply Hpost.
    + destruct Hpost as (env & _ & _ & Hk). by apply Hk.
    + destruct Hpost as (env & _ & _ & _ & Hgas & _ & Hk). rewrite decide_True, Hgas by done. by apply Hk.
  - by eapply gas_settle.
  - eapply (gas_leave _ s _ b (Finished c) a); [done|done|by destruct c as [i []]|done|]. intros j src' Hj.
    destruct c as [i []]; simpl in Hj; (eapply alter_sender; [|exact Hj]); done.
  - eapply (gas_leave _ s _ b t a); [done|done|done|by eapply task_of|]. intros j src' Hj. by exists src'.
  - exact Hg.
Qed.

Lemma gas_run sources receipts s :
  Forall fresh_source sources -> Forall good sources ->
  (forall i src, sources !! i = Some src -> within_budget 0 0 (ss_sender src)) ->
  stress_path (E := E) jittered base wallet limits deadline (start_sched sources) receipts s -> gas_inv receipts s.
Proof.
  intros Hf Hg Hb Hr.
  assert (exists envs, lanes_inv (E := E) base wallet good (start_sched sources) envs) as Hi by (eexists; by apply lanes_start).
  assert (gas_inv [] (start_sched sources)) as Hgas by exact Hb. change receipts with ([] ++ receipts). revert Hi Hgas. generalize (@nil (nat * Receipt)).
  induction Hr as [s|s0 new s1 more s2 Hstep _ IH]; intros earlier Hi Hgas; [by rewrite app_nil_r|].
  rewrite app_assoc. apply IH; [by eapply lanes_step|by eapply gas_step].
Qed.
End Gas.
