(* ===== verification/StressBounds.v ===== *)
(** * The deposit stress test, from its setup

    What the setup establishes about routes, limits and sources, and the
    theorems on whole runs. *)

From S2P Require Import Prelude Types Retry Journal Chain Plan Config Target Json Propose ProposeFacts RobustSend SignedCalls Intents IntentAmounts IntentRun IntentSafety IntentBounds Pipeline PipelineFacts Stress StressFacts.

Section Setup.
Context {E : Type} `{PoolNode E, IntentNode E, EvmLib, CosmosAccounts, ConfigLib, IntentLib}.
Variables (jittered : Z -> Z) (env_var : string -> option string).

(** A route that deposits [amount], as text, of its source asset. *)
Definition sized (amount : string) (plan : LegPlan) : Prop :=
  to_base_units amount (wa_decimals (lp_from plan)) = Ok (lp_input_amount plan).

Lemma silently_stress_routes base di signer symbol amount pairs :
  silently (E := E) (stress_routes base di signer symbol amount pairs) (Forall (sized amount)).
Proof.
  induction pairs as [|[from to] pairs IH]; cbn [stress_routes]; [by apply silently_ret|]. cbv zeta.
  destruct (_ || _ || _ || _); [exact IH|]. eapply silently_bind; [apply silently_lift|]. intros input Hi.
  eapply silently_bind; [apply silently_ensure|]. intros _ _. destruct (negb _); [exact IH|].
  eapply silently_bind; [apply silently_trying, silently_preflight_leg|]. intros plan Hplan.
  eapply silently_bind; [exact IH|]. intros plans Hplans. apply silently_ret. destruct plan as [[plan|]|e]; [|done..].
  constructor; [|done]. destruct (Hplan _ eq_refl plan eq_refl) as (Hf & _ & Hin). unfold sized. by rewrite Hf, Hin.
Qed.

(** The limits are those of the arguments, and every route deposits their amount. *)
Lemma resolve_limits_ok args routes limits :
  resolve_limits args routes = Ok limits -> Forall (sized (sa_amount args)) routes ->
  Forall (fun plan => lp_input_amount plan = sl_amount limits) routes /\
  sl_max_intents limits = sa_max_intents args /\ sl_max_in_flight limits = sa_max_in_flight args /\
  (exists text d, to_base_units text d = Ok (sl_amount limits)) /\
  (forall v, sl_max_volume limits = Some v -> exists text d, to_base_units text d = Ok v) /\
  (forall v, sl_max_native_spend limits = Some v -> exists text d, to_base_units text d = Ok v).
Proof.
  unfold resolve_limits. intros (first & _ & Hr)%result_bind_ok Hsized. apply result_bind_ok in Hr as (u & Hdec%ensure_ok_ok & Hr).
  apply result_bind_ok in Hr as (amount & Ha & Hr). apply result_bind_ok in Hr as (volume & Hv & Hr).
  apply result_bind_ok in Hr as (spend & Hs & Hr). apply result_bind_ok in Hr as (u1 & _ & Hr).
  apply result_bind_ok in Hr as (floor & _ & [= <-]). simpl. split; [|split; [done|]; split; [done|]; split; [by eauto|]].
  - rewrite forallb_forall in Hdec. rewrite list.Forall_forall in Hsized |- *. intros plan Hin. specialize (Hsized plan Hin).
    unfold sized in Hsized. specialize (Hdec plan (proj1 (list_elem_of_In _ _) Hin)). apply Z.eqb_eq in Hdec. rewrite Hdec, Ha in Hsized.
    by injection Hsized.
  - unfold optional_units in *. split.
    + intros v ->. destruct (sa_max_volume args) as [text|]; [|done]. destruct (to_base_units text _) as [z|] eqn:Hz; [|done].
      injection Hv as <-. by eauto.
    + intros v ->. destruct (sa_max_native_spend args) as [text|]; [|done]. destruct (to_base_units text _) as [z|] eqn:Hz; [|done].
      injection Hs as <-. by eauto.
Qed.

Lemma grouped_routes_in routes key l : (key, l) ∈ grouped_routes routes -> l ⊆ routes.
Proof.
  unfold grouped_routes. rewrite merge_sort_Permutation, elem_of_map_to_list. unfold group_routes.
  assert (forall earlier (m : gmap string (list LegPlan)), (forall k l, m !! k = Some l -> l ⊆ earlier) ->
    forall k l, foldl (fun m plan => <[ai_chain_id (wa_id (lp_from plan)) := default [] (m !! ai_chain_id (wa_id (lp_from plan))) ++ [plan]]> m)
      m routes !! k = Some l -> l ⊆ earlier ++ routes) as Hgen; [|intros Hl; apply (Hgen [] ∅) in Hl; [done|]; intros k l'; by rewrite lookup_empty].
  clear key l. induction routes as [|plan routes IH]; intros earlier m Hm k l; simpl; [rewrite app_nil_r; apply Hm|].
  intros Hl. apply (IH (earlier ++ [plan])) in Hl; [set_solver|]. clear l Hl k. intros k l.
  rewrite lookup_insert. case_decide as Hk; [|intros Hl; specialize (Hm _ _ Hl); set_solver].
  intros [= <-]. destruct (m !! _) as [l|] eqn:Hml; simpl; [specialize (Hm _ _ Hml)|]; set_solver.
Qed.

(** A source of the setup. *)
Definition setup_source (signer : string) (limits : StressLimits) (src : SourceState) : Prop :=
  ps_signer (ss_sender src) = signer /\ pk_gas_budget (ps_limits (ss_sender src)) = sl_max_native_spend limits /\
  Forall (fun plan => lp_input_amount plan = sl_amount limits) (ss_routes src).

Lemma setup_source_same signer limits src src' : same_source src src' -> setup_source signer limits src -> setup_source signer limits src'.
Proof. intros [Hr (_ & Hs & _ & Hl)] (? & ? & ?). unfold setup_source. by rewrite Hr, Hs, Hl. Qed.

Lemma stress_sources_ok chains signer wallet limits groups (s s' : Desk E) sources :
  stress_sources chains signer wallet limits groups s = (Ok sources, s') ->
  Forall (fun g => Forall (fun plan => lp_input_amount plan = sl_amount limits) g.2) groups ->
  Forall fresh_source sources /\ Forall (setup_source signer limits) sources.
Proof.
  revert s s' sources. induction groups as [|g groups IH]; intros s s' sources; cbn [stress_sources]; [by intros [= <- _]|].
  intros (now & s1 & _ & Hr)%M_bind_ok Hg. apply Forall_cons_iff in Hg as [Hg Hgs]. apply M_bind_ok in Hr as (src & s2 & Hsrc & Hr).
  apply M_bind_ok in Hr as (rest & s3 & Hrest & [= <- _]). destruct (IH _ _ _ Hrest Hgs) as [Hf Hok].
  injection Hsrc as Hsrc _. unfold stress_source in Hsrc. apply result_bind_ok in Hsrc as (chain & _ & Hsrc).
  apply result_bind_ok in Hsrc as (endpoints & Hc & [= <-]).
  assert (endpoints <> []) as Hne.
  { unfold connect in Hc. apply result_bind_ok in Hc as (u0 & Hpool%ensure_ok_ok & Hc).
    apply result_bind_ok in Hc as (u1 & _ & [= <-]). apply negb_true_iff in Hpool. by apply bool_decide_eq_false in Hpool. }
  split; (constructor; [|done]); [by eexists endpoints, signer, wallet, _|]. by repeat split.
Qed.

Lemma setup_ok args (s s' : Desk E) rt limits sources :
  setup_stress jittered env_var args s = (Ok (rt, limits, sources), s') ->
  Forall fresh_source sources /\ Forall (setup_source (ir_signer rt) limits) sources /\
  exists routes, resolve_limits args routes = Ok limits /\ Forall (sized (sa_amount args)) routes.
Proof.
  unfold setup_stress. intros (u & s1 & _ & Hr)%M_bind_ok. apply M_bind_ok in Hr as (rt' & s2 & _ & Hr).
  apply M_bind_ok in Hr as (u1 & s3 & _ & Hr). apply M_bind_ok in Hr as (di & s4 & _ & Hr).
  apply M_bind_ok in Hr as (routes & s5 & Hroutes & Hr). apply M_bind_ok in Hr as (limits' & s6 & Hlim & Hr).
  apply M_bind_ok in Hr as (sources' & s7 & Hsrc & [= <- <- <- _]).
  destruct (silently_stress_routes (ir_base_url rt') di (ir_wallet rt') (trim (sa_symbol args)) (sa_amount args)
    (directed_cross_chain_pairs (di_assets di) Token) s4) as (t & rs & _ & _ & _ & _ & _ & Hsized).
  unfold plan_stress_routes in Hroutes. rewrite Hroutes in Hsized. specialize (Hsized routes eq_refl). injection Hlim as Hlim _.
  unfold prepare_sources in Hsrc. apply M_bind_ok in Hsrc as (u2 & s8 & _ & Hsrc).
  destruct (resolve_limits_ok _ _ _ Hlim Hsized) as [Hin _]. rewrite list.Forall_forall in Hin.
  eapply stress_sources_ok in Hsrc as [Hf Hok]; [split; [done|]; split; [done|by exists routes]|].
  apply list.Forall_forall. intros [key l] Hkl. apply list.Forall_forall. intros plan Hp. apply Hin. by eapply grouped_routes_in.
Qed.
End Setup.

(** ** Runs *)

Section Runs.
Context {E : Type} `{PoolNode E, IntentNode E, PipeNode E, EvmLib, CosmosAccounts, ConfigLib, IntentLib, !AmountText}.
Variables (jittered : Z -> Z) (env_var : string -> option string).

(** alloy's fillers leave a nonce alone that the request sets. *)
Definition fill_keeps_nonce : Prop := forall signer url rq (e : E) env e' n,
  pool_fill signer url rq e = (inr (Some env), e') -> rq_nonce rq = Some n -> tx_nonce env = n.

(** A run of the stress test: the setup succeeded, and the scheduler came to [s]. *)
Definition stressed (args : StressArgs) (s0 : Desk E) (rt : IntentRuntime) (limits : StressLimits) (deadline : option Z) (s : Sched) : Prop :=
  exists sources s1, setup_stress jittered env_var args s0 = (Ok (rt, limits, sources), s1) /\
    stress_run (E := E) jittered (ir_base_url rt) (ir_wallet rt) limits deadline sources s.

Lemma stressed_lanes args s0 rt limits deadline s :
  fill_keeps_nonce -> stressed args s0 rt limits deadline s ->
  exists envs, lanes_inv (E := E) (ir_base_url rt) (ir_wallet rt) (setup_source (ir_signer rt) limits) s envs.
Proof.
  intros Hfill (sources & s1 & Hsetup & Hrun). destruct (setup_ok _ _ _ _ _ _ _ _ Hsetup) as (Hf & Hg & _).
  eapply lanes_run; [exact Hfill|apply setup_source_same|done..].
Qed.

Lemma stressed_limits args s0 rt limits deadline s :
  stressed args s0 rt limits deadline s ->
  accounts limits s /\ sl_max_intents limits = sa_max_intents args /\ sl_max_in_flight limits = sa_max_in_flight args /\
  0 <= sl_amount limits /\ (forall v, sl_max_volume limits = Some v -> 0 <= v < 2 ^ 256) /\
  (forall v, sl_max_native_spend limits = Some v -> 0 <= v < 2 ^ 256).
Proof.
  intros (sources & s1 & Hsetup & Hrun). destruct (setup_ok _ _ _ _ _ _ _ _ Hsetup) as (_ & _ & routes & Hlim & Hsized).
  destruct (resolve_limits_ok _ _ _ Hlim Hsized) as (_ & Hi & Hfl & (text & d & Ha) & Hv & Hn).
  split; [by eapply accounts_run|]. do 2 (split; [done|]). split; [pose proof (to_base_units_range _ _ _ Ha); lia|].
  split; intros v Hv'; [destruct (Hv v Hv') as (t & dd & Hz)|destruct (Hn v Hv') as (t & dd & Hz)]; by eapply to_base_units_range.
Qed.
End Runs.

Lemma sent_tasks_length tasks : (sum_list_with sent_task tasks <= length tasks)%nat.
Proof.
  induction tasks as [|t tasks IH]; simpl; [lia|]. assert (sent_task t <= 1)%nat by (destruct t as [| | |[i []]]; simpl; lia). lia.
Qed.

(** C24: a stress run keeps its caps, in every state of every interleaving of its
    tasks: what each source put on the wire are envelopes at consecutive nonces,
    one for each deposit; over all sources they are at most [max_intents], their
    inputs add up to at most [max_volume], and at most [max_in_flight] deposits
    are under way.  (Caps below the largest number of their width; fewer
    attempts than 64 bits count.) *)
Theorem stress_within_caps {E : Type} `{PoolNode E, IntentNode E, PipeNode E, EvmLib, CosmosAccounts, ConfigLib, IntentLib, !AmountText}
    jittered env_var args (s0 : Desk E) rt limits deadline s :
  fill_keeps_nonce (E := E) -> stressed jittered env_var args s0 rt limits deadline s ->
  exists envs, Forall2 (fun src => orderly (ss_sender src)) (sc_sources s) envs /\
    (forall cap, sa_max_intents args = Some cap -> 0 <= cap < u64_max -> Z.of_nat (total_sent envs) <= cap) /\
    (forall volume, sl_max_volume limits = Some volume -> volume < 2 ^ 256 - 1 -> ad_attempts (sc_admission s) < u64_max ->
       Z.of_nat (total_sent envs) * sl_amount limits <= volume) /\
    Z.of_nat (length (sc_tasks s)) <= Z.max 0 (sa_max_in_flight args).
Proof.
  intros Hfill Hs. destruct (stressed_lanes _ _ _ _ _ _ _ _ Hfill Hs) as (envs & [Hl _ Hsent]).
  destruct (stressed_limits _ _ _ _ _ _ _ _ Hs) as ([] & Hi & Hfl & Ha & Hv & _). pose proof (sent_tasks_length (sc_tasks s)).
  exists envs. split; [eapply Forall2_impl; [|exact Hl]; by intros src l []|]. rewrite <- Hi, <- Hfl. split; [|split].
  - intros cap Hc Hr. specialize (ac_intents cap Hc Hr). lia.
  - intros v Hc Hlt Hfit. specialize (Hv v Hc). specialize (ac_volume v Hc ltac:(lia) Ha Hfit). nia.
  - lia.
Qed.

(** C26: every envelope a stress run puts on the wire is a planned deposit: signed
    with the key of the run for the deposit of a quote, which the RFQ service
    offered when it was asked for a route of the source, and whose quoted input is
    at most the asked amount.  It has the calldata of that quote's only
    transaction, and goes from the wallet into the settlement contract of the
    route, on the route's source chain, with no value for a token.  (What the
    calldata moves is up to the service: the code caps the quoted input.) *)
Theorem stress_deposits_as_planned {E : Type} `{PoolNode E, IntentNode E, PipeNode E, EvmLib, CosmosAccounts, ConfigLib, IntentLib, !AmountText}
    jittered env_var args (s0 : Desk E) rt limits deadline s src env :
  fill_keeps_nonce (E := E) -> stressed jittered env_var args s0 rt limits deadline s ->
  src ∈ sc_sources s -> env ∈ wire (ss_sender src) ->
  exists plan q rq amount, plan ∈ ss_routes src /\
    offered (E := E) (ir_base_url rt) (leg_request (ir_wallet rt) (stress_leg (ir_wallet rt) plan)) q /\
    quoted_input q amount /\ amount <= sl_amount limits /\
    is_deposit (ir_wallet rt) (lp_from plan) (lp_settlement_contract plan) q rq /\
    signed_for (E := E) (ir_signer rt) rq env.
Proof.
  intros Hfill Hs Hin Henv. destruct (stressed_lanes _ _ _ _ _ _ _ _ Hfill Hs) as (envs & [Hl _ _]).
  apply list_elem_of_lookup in Hin as [i Hi]. destruct (Forall2_lookup_l _ _ _ _ _ Hl Hi) as (l & _ & Ho & Hf & Hsg & _ & Hsize).
  apply Ho in Henv. rewrite list.Forall_forall in Hf. rewrite list.Forall_forall in Hsize. destruct (Hf env Henv) as (rq & amount & (plan & q & Hp & Hoffer & Hq & Hle & Hdep) & Hsigned).
  exists plan, q, rq, amount. rewrite (Hsize plan Hp) in Hle. rewrite Hsg in Hsigned. done.
Qed.

(** C25: the gas of a stress run stays within the budget of each source.  In every
    state of every interleaving, what the receipts that a source settled paid,
    gas used at the price paid, and what its deposits that wait for a receipt may
    still pay, gas limit at the highest price, add up to at most
    [max_native_spend]. *)
Theorem stress_gas_within_budget {E : Type} `{PoolNode E, IntentNode E, PipeNode E, EvmLib, CosmosAccounts, ConfigLib, IntentLib, !AmountText,
    !FairReceipts E} jittered env_var args (s0 s1 : Desk E) rt limits sources deadline receipts s i cap :
  fill_keeps_nonce (E := E) ->
  setup_stress jittered env_var args s0 = (Ok (rt, limits, sources), s1) ->
  stress_path (E := E) jittered (ir_base_url rt) (ir_wallet rt) limits deadline (start_sched sources) receipts s ->
  sl_max_native_spend limits = Some cap -> cap < 2 ^ 256 - 1 -> is_Some (sc_sources s !! i) ->
  0 <= paid_gas i receipts /\ paid_gas i receipts + pending_gas i (sc_tasks s) <= cap.
Proof.
  intros Hfill Hsetup Hrun Hcap Hlt [src Hi].
  assert (stressed jittered env_var args s0 rt limits deadline s) as Hs by (exists sources, s1; split; [done|by exists receipts]).
  destruct (stressed_limits _ _ _ _ _ _ _ _ Hs) as (_ & _ & _ & _ & _ & Hn). specialize (Hn cap Hcap).
  destruct (setup_ok _ _ _ _ _ _ _ _ Hsetup) as (Hf & Hg & _).
  assert (gas_inv (E := E) receipts s) as Hgas.
  { eapply gas_run; [exact Hfill|apply (setup_source_same (ir_signer rt) limits)|done|done| |exact Hrun].
    intros j src' Hj c Hc. rewrite list.Forall_forall in Hf. rewrite list.Forall_forall in Hg. apply list_elem_of_lookup_2 in Hj.
    destruct (Hf src' Hj) as (endpoints & signer & owner & k & _ & Hsd). destruct (Hg src' Hj) as (_ & Hb & _). simpl.
    rewrite Hb in Hc. simplify_eq. rewrite Hsd. simpl. lia. }
  destruct (stressed_lanes _ _ _ _ _ _ _ _ Hfill Hs) as (envs & [Hl _ _]).
  destruct (Forall2_lookup_l _ _ _ _ _ Hl Hi) as (l & _ & _ & _ & _ & Hb & _).
  specialize (Hgas i src Hi cap). rewrite Hb in Hgas. specialize (Hgas Hcap Hlt). lia.
Qed.

(** C27: the accounts of a stress run balance.  Attempts are the confirmed, skipped,
    failed and active ones; the confirmed ones are the records; and when the run
    has ended, no deposit is left out: what is on the wire was reported as
    confirmed or failed. *)
Theorem stress_accounts {E : Type} `{PoolNode E, IntentNode E, PipeNode E, EvmLib, CosmosAccounts, ConfigLib, IntentLib, !AmountText}
    jittered env_var args (s0 : Desk E) rt limits deadline s :
  fill_keeps_nonce (E := E) -> stressed jittered env_var args s0 rt limits deadline s -> ended s ->
  ad_attempts (sc_admission s) = ad_confirmed (sc_admission s) + ad_skipped (sc_admission s) + ad_failed (sc_admission s) /\
  ad_confirmed (sc_admission s) = Z.of_nat (length (sc_records s)) /\
  exists envs, Forall2 (fun src => orderly (ss_sender src)) (sc_sources s) envs /\
    Z.of_nat (total_sent envs) <= ad_confirmed (sc_admission s) + ad_failed (sc_admission s).
Proof.
  intros Hfill Hs [_ Hend]. destruct (stressed_lanes _ _ _ _ _ _ _ _ Hfill Hs) as (envs & [Hl _ Hsent]).
  destruct (stressed_limits _ _ _ _ _ _ _ _ Hs) as ([] & _). rewrite Hend in *. simpl in *. split; [lia|]. split; [done|].
  exists envs. split; [eapply Forall2_impl; [|exact Hl]; by intros src l []|lia].
Qed.
