(* ===== verification/Mcp.v ===== *)
(** * The MCP server: caps, runs and the tools that spend (mcp/)

    A server offers axe's commands to an agent.  What spends funds is admitted
    by the operator's caps (policy.rs), whose count survives restarts in a
    ledger file, and by the run registry (runs.rs), which lets one flow at a
    time spend on a machine.  The functions are the parts of the code that run
    under one lock; [mcp_step] interleaves them over any number of servers,
    calls, flows and crashes. *)

From S2P Require Import Prelude Types Retry Journal Chain Plan Config Target Json Cosmos LoadNet Propose RobustSend SignedCalls Intents IntentRun IntentSafety IntentBounds IntentCaps Pipeline Stress.

(** ** Caps (policy.rs) *)

Definition DEFAULT_MAX_TXS_PER_RUN : Z := 10.

Record SpendLimits : Type := mkSpendLimits {
  sp_max_txs_per_run : Z;
  sp_max_txs_total : option Z;
  sp_allowed_chains : list string
}.

Definition default_limits : SpendLimits := mkSpendLimits DEFAULT_MAX_TXS_PER_RUN None [].

Inductive PolicyViolation : Type :=
  | RunTooLarge (requested max : Z)
  | BudgetExhausted (requested remaining max : Z)
  | ChainNotAllowed (chain : string) (allowed : list string)
  | LedgerUnavailable (error : string).

(** [se_ledger]: whether the count is kept in the ledger file. *)
Record Spent : Type := mkSpent { se_count : Z; se_ledger : bool }.
Record SpendPolicy : Type := mkPolicy { po_limits : SpendLimits; po_spent : Spent }.

(** The text of a ledger and of a report, by serde_json. *)
Class McpText : Type := {
  ledger_text : Z -> string;
  parse_ledger : string -> option Z;
  parse_report : string -> option Json
}.

(** How a write of a file goes.  [std::fs::write] truncates the file and writes:
    one that fails has left the file alone, or a part of the new text. *)
Inductive WriteOutcome : Type := Written | WriteFailed (error : string) (left : option nat).

Definition cut (k : nat) (text : string) : string := String.substring 0 (Nat.min k (pred (String.length text))) text.

Definition written (w : WriteOutcome) (text : string) (file : option string) : option string :=
  match w with
  | Written => Some text
  | WriteFailed _ None => file
  | WriteFailed _ (Some k) => Some (cut k text)
  end.

Section Policy.
Context `{McpText}.

(** [SpendPolicy::new]. *)
Definition in_memory (limits : SpendLimits) : SpendPolicy := mkPolicy limits (mkSpent 0 false).

(** [readable]: the file system lets the file be read; [None] is [NotFound]. *)
Definition read_ledger (readable : bool) (file : option string) : result Z :=
  if readable then
    match file with
    | Some text => ok_or (parse_ledger text) "spend ledger is not readable"
    | None => Ok 0
    end
  else bail "could not read the spend ledger".

Definition persistent (limits : SpendLimits) (readable : bool) (file : option string) : result SpendPolicy :=
  count ← read_ledger readable file;
  Ok (mkPolicy limits (mkSpent count true)).

Definition write_ledger (w : WriteOutcome) (spent : Spent) (file : option string) : (PolicyViolation + ()) * option string :=
  if se_ledger spent then
    (match w with Written => inr () | WriteFailed error _ => inl (LedgerUnavailable error) end,
     written w (ledger_text (se_count spent)) file)
  else (inr (), file).

Definition check_chain (p : SpendPolicy) (chain : string) : PolicyViolation + () :=
  let allowed := sp_allowed_chains (po_limits p) in
  if bool_decide (allowed = []) || existsb (fun a => eq_ignore_ascii_case a chain) allowed then inr ()
  else inl (ChainNotAllowed chain allowed).

Definition exceeded (cap : option Z) (total : Z) : option Z := max ← cap; if max <? total then Some max else None.
Definition set_count (n : Z) (p : SpendPolicy) : SpendPolicy := mkPolicy (po_limits p) (mkSpent n (se_ledger (po_spent p))).

Definition reserve (p : SpendPolicy) (num_txs : Z) (w : WriteOutcome) (file : option string)
    : (PolicyViolation + ()) * SpendPolicy * option string :=
  if sp_max_txs_per_run (po_limits p) <? num_txs then (inl (RunTooLarge num_txs (sp_max_txs_per_run (po_limits p))), p, file)
  else
    let before := se_count (po_spent p) in
    let total := saturating_add 64 before num_txs in
    match exceeded (sp_max_txs_total (po_limits p)) total with
    | Some max => (inl (BudgetExhausted num_txs (saturating_sub max before) max), p, file)
    | None =>
        let p := set_count total p in
        match write_ledger w (po_spent p) file with
        | (inl violation, file) => (inl violation, set_count before p, file)
        | (inr _, file) => (inr (), p, file)
        end
    end.

Definition release (p : SpendPolicy) (num_txs : Z) (w : WriteOutcome) (file : option string) : SpendPolicy * option string :=
  let p := set_count (saturating_sub (se_count (po_spent p)) num_txs) p in
  (p, (write_ledger w (po_spent p) file).2).
End Policy.

(** ** Runs (runs.rs) *)

Inductive RunKind : Type := LoadTestRun | IntentsSend | IntentsRoundtrip | IntentsSweep | IntentsTraffic | IntentsStress.
#[export] Instance RunKind_eq_dec : EqDecision RunKind.
Proof. solve_decision. Defined.

Definition ALL_KINDS : list RunKind := [LoadTestRun; IntentsSend; IntentsRoundtrip; IntentsSweep; IntentsTraffic; IntentsStress].

Definition slug (kind : RunKind) : string :=
  match kind with
  | LoadTestRun => "load-test"
  | IntentsSend => "intents-send"
  | IntentsRoundtrip => "intents-roundtrip"
  | IntentsSweep => "intents-sweep"
  | IntentsTraffic => "intents-traffic"
  | IntentsStress => "intents-stress"
  end.
Definition prefix (kind : RunKind) : string := "axe-" +:+ slug kind +:+ "-".

Abbreviation RunId := string.

(** [RunId::mint] at [now], with the last identifier's milliseconds; the second
    component is [LAST_RUN_MILLIS] after. *)
Definition mint (kind : RunKind) (now last : Z) : RunId * Z :=
  let now := Z.min now u64_max in
  let millis := Z.max now (saturating_add 64 last 1) in
  (prefix kind +:+ to_dec millis, millis).

Definition starts_with (needle text : string) : bool := match strip_prefix needle text with Some _ => true | None => false end.
Definition kind_of (text : string) : option RunKind := List.find (fun kind => starts_with (prefix kind) text) ALL_KINDS.
(** [RunId::parse]. *)
Definition parse_id (text : string) : option RunId := (fun _ => text) <$> kind_of text.
Definition minted_millis (id : RunId) : Z :=
  default 0 (kind ← kind_of id; millis ← strip_prefix (prefix kind) id; parse_uint 64 millis).
Definition from_report_file_name (name : string) : option RunId := strip_suffix ".json" name ≫= parse_id.
Definition report_file (id : RunId) : string := id +:+ ".json".

Inductive RunState : Type := RunningNow (id : RunId) | FinishedWith (id : RunId) (report : Json) | UnknownRun (text : string).
Inductive RunStatus : Type := StatusRunning | StatusFinished.
Record RunListEntry : Type := mkEntry { re_run_id : RunId; re_kind : option RunKind; re_state : RunStatus }.

Inductive StartRefused : Type :=
  | RunInFlight (run_id : RunId)
  | SlotHeldHere
  | HeldByAnotherProcess
  | LockUnavailable (error : string).

(** [rr_in_flight]: the handles, by whether they have finished. *)
Record RunRegistry : Type := mkRegistry { rr_claims : Z; rr_in_flight : gmap RunId bool }.
Definition new_registry : RunRegistry := mkRegistry 0 ∅.

(** Creating and opening the lock file, before it is locked. *)
Inductive LockFile : Type := LockOpened | LockError (error : string).

Definition lock_machine_slot (r : RunRegistry) (file : LockFile) (locked : bool) : StartRefused + () :=
  if 0 <? rr_claims r then inl SlotHeldHere
  else
    match file with
    | LockError error => inl (LockUnavailable error)
    | LockOpened => if locked then inl HeldByAnotherProcess else inr ()
    end.

(** [retain(|_, handle| !handle.is_finished())]. *)
Definition unfinished (runs : gmap RunId bool) : gmap RunId bool := filter (fun kv => kv.2 = false) runs.

(** [RunRegistry::start], with [LAST_RUN_MILLIS].  The flow starts when this
    returns an identifier, and holds the lock. *)
Definition start (r : RunRegistry) (kind : RunKind) (file : LockFile) (locked : bool) (now last : Z)
    : (StartRefused + RunId) * RunRegistry * Z :=
  let runs := unfinished (rr_in_flight r) in
  let r := mkRegistry (rr_claims r) runs in
  match map_to_list runs with
  | (run_id, _) :: _ => (inl (RunInFlight run_id), r, last)
  | [] =>
      match lock_machine_slot r file locked with
      | inl refused => (inl refused, r, last)
      | inr _ =>
          let '(run_id, last) := mint kind now last in
          (inr run_id, mkRegistry (rr_claims r) (<[run_id := false]> runs), last)
      end
  end.

Definition claim_slot (r : RunRegistry) (file : LockFile) (locked : bool) : (StartRefused + ()) * RunRegistry :=
  match lock_machine_slot r file locked with
  | inl refused => (inl refused, r)
  | inr _ => (inr (), mkRegistry (rr_claims r + 1) (rr_in_flight r))
  end.
(** [RunSlot::drop]. *)
Definition drop_slot (r : RunRegistry) : RunRegistry := mkRegistry (rr_claims r - 1) (rr_in_flight r).
(** What the end of a flow does to the registry: a detached run keeps its handle. *)
Definition leave_slot (id : option RunId) (r : RunRegistry) : RunRegistry := match id with Some _ => r | None => drop_slot r end.
(** The thread of a run has returned. *)
Definition handle_finished (id : RunId) (r : RunRegistry) : RunRegistry :=
  mkRegistry (rr_claims r) (alter (fun _ => true) id (rr_in_flight r)).

Definition running (r : RunRegistry) : list RunId := map fst (map_to_list (unfinished (rr_in_flight r))).
Definition is_running (r : RunRegistry) (id : RunId) : bool := bool_decide (rr_in_flight r !! id = Some false).

Section Reports.
Context `{McpText}.
(** The files of the reports directory. *)
Abbreviation Reports := (gmap string string).

Definition read_report (files : Reports) (id : RunId) : option Json := files !! report_file id ≫= parse_report.

Definition run_state (r : RunRegistry) (files : Reports) (text : string) : RunState :=
  match parse_id text with
  | None => UnknownRun text
  | Some id =>
      match read_report files id with
      | Some report => FinishedWith id report
      | None => if is_running r id then RunningNow id else UnknownRun text
      end
  end.

Definition id_le (a b : RunId) : Prop :=
  minted_millis b < minted_millis a \/ (minted_millis a = minted_millis b /\ String.leb a b = true).
#[export] Instance id_le_dec a b : Decision (id_le a b).
Proof. unfold id_le. apply _. Defined.

(** [RunRegistry::list]: the identifiers in the directory, those in flight beside
    them, newest first; the finished handles are dropped. *)
Definition known_ids (r : RunRegistry) (files : Reports) : list RunId :=
  let ids := omap (fun kv => from_report_file_name kv.1) (map_to_list files) in
  ids ++ List.filter (fun id => negb (bool_decide (id ∈ ids))) (running r).
Definition list_runs (r : RunRegistry) (files : Reports) : list RunListEntry * RunRegistry :=
  let r := mkRegistry (rr_claims r) (unfinished (rr_in_flight r)) in
  (map (fun id => mkEntry id (kind_of id) (if is_running r id then StatusRunning else StatusFinished))
     (merge_sort id_le (known_ids r files)), r).
End Reports.

(** ** Arguments of the tools (args.rs, args/intents.rs) *)

Definition DEFAULT_WALLET_BPS : Z := 100.
Definition DEFAULT_TRAFFIC_WALLET_BPS : Z := 10.
Definition DEFAULT_STRESS_DURATION_SECS : Z := 900.
Definition DEFAULT_STRESS_IN_FLIGHT : Z := 32.
Definition INTENT_POLL_INTERVAL_SECS : Z := 2.
Definition INTENT_FULFILLMENT_TIMEOUT_SECS : Z := 1200.

Record RouteArgs : Type := mkRouteArgs {
  ra_from : option string;
  ra_to : option string;
  ra_amount : option string;
  ra_order_type : option OrderType;
  ra_asset_type : option AssetType;
  ra_wallet_bps : option Z
}.

Record RouteParts : Type := mkParts {
  rp_part_from : option AssetId;
  rp_part_to : option AssetId;
  rp_part_amount : option string;
  rp_part_order_type : OrderType;
  rp_part_asset_type : AssetType
}.

Record StressToolArgs : Type := mkStressTool {
  sx_max_intents : Z;
  sx_symbol : option string;
  sx_amount : option string;
  sx_duration_secs : option Z;
  sx_max_in_flight : option Z;
  sx_max_volume : option string;
  sx_max_native_spend : option string;
  sx_min_native_balance : option string
}.

Record StressPlan : Type := mkStressPlan {
  sn_symbol : string;
  sn_amount : string;
  sn_duration : Z;
  sn_max_intents : Z;
  sn_max_in_flight : Z;
  sn_max_volume : string;
  sn_max_native_spend : string;
  sn_min_native_balance : string
}.

(** [map] and [transpose]. *)
Definition traverse {A B} (f : A -> result B) (o : option A) : result (option B) :=
  match o with Some a => Some <$> f a | None => Ok None end.

Section Arguments.
Context `{EvmLib, CosmosAccounts, ConfigLib, IntentLib}.

Definition parts (args : RouteArgs) : result RouteParts :=
  from ← traverse asset_spec (ra_from args);
  to ← traverse asset_spec (ra_to args);
  amount ← traverse human_amount (ra_amount args);
  Ok (mkParts from to amount (default ExactInput (ra_order_type args)) (default Token (ra_asset_type args))).

Definition choice (args : RouteArgs) : result RouteChoice :=
  parts ← parts args;
  route_choice (rp_part_from parts) (rp_part_to parts) (rp_part_amount parts) (default DEFAULT_WALLET_BPS (ra_wallet_bps args))
    (rp_part_order_type parts) (rp_part_asset_type parts).

Definition stress_plan (args : StressToolArgs) : result StressPlan :=
  amount ← human_amount (default "0.1" (sx_amount args));
  max_volume ← human_amount (default "20" (sx_max_volume args));
  max_native_spend ← human_amount (default "0.01" (sx_max_native_spend args));
  min_native_balance ← human_amount (default "0.01" (sx_min_native_balance args));
  Ok (mkStressPlan (default "USDC" (sx_symbol args)) amount (1000 * default DEFAULT_STRESS_DURATION_SECS (sx_duration_secs args))
        (sx_max_intents args) (default DEFAULT_STRESS_IN_FLIGHT (sx_max_in_flight args)) max_volume max_native_spend
        min_native_balance).

Definition into_flow (plan : StressPlan) (runtime : IntentRuntimeArgs) : StressArgs :=
  mkStressArgs runtime (sn_symbol plan) (sn_amount plan) (Some (sn_duration plan)) (Some (sn_max_intents plan))
    (sn_max_in_flight plan) (Some (sn_max_volume plan)) (Some (sn_max_native_spend plan)) (sn_min_native_balance plan).

(** ** The tools that spend (server.rs) *)

(** A call, as the agent makes it. *)
Inductive ToolCall : Type :=
  | CallLoadTest (source destination : string) (num_txs : option Z)
  | CallExpress (source destination : string)
  | CallSend (route : RouteArgs) (recipient : option string)
  | CallRoundtrip (route : RouteArgs)
  | CallSweep (max_intents : Z) (sweeps : option Z) (asset_type : option AssetType) (order_type : option OrderType)
      (wallet_bps : option Z)
  | CallTraffic (max_intents duration_secs : Z) (asset_type : option AssetType) (wallet_bps : option Z)
  | CallStress (args : StressToolArgs).

(** What it asks for, once its arguments are read. *)
Inductive Flow : Type :=
  | LoadTestFlow (source destination : string) (num_txs : Z)
  | ExpressFlow (source destination : string)
  | SendFlow (route : RouteChoice) (recipient : option Address)
  | RoundtripFlow (route : RouteChoice)
  | SweepFlow (max_intents sweeps wallet_bps : Z) (order_type : OrderType) (asset_type : AssetType)
  | TrafficFlow (max_intents duration wallet_bps : Z) (asset_type : option AssetType)
  | StressFlow (plan : StressPlan).

(** [key]: EVM_PRIVATE_KEY in the server's environment. *)
Definition read_call (key : option string) (call : ToolCall) : result Flow :=
  match call with
  | CallLoadTest source destination num_txs =>
      let num_txs := default 1 num_txs in
      _ ← ensure_ok (negb (num_txs =? 0)) "num_txs must be at least 1";
      Ok (LoadTestFlow source destination num_txs)
  | CallExpress source destination =>
      _ ← ok_or key "EVM_PRIVATE_KEY is not set in the server's environment";
      Ok (ExpressFlow source destination)
  | CallSend route recipient =>
      route ← choice route;
      recipient ← traverse (fun address => ok_or (parse_address address) "recipient") recipient;
      Ok (SendFlow route recipient)
  | CallRoundtrip route => RoundtripFlow <$> choice route
  | CallSweep max_intents sweeps asset_type order_type wallet_bps =>
      Ok (SweepFlow max_intents (default 1 sweeps) (default DEFAULT_WALLET_BPS wallet_bps) (default ExactInput order_type)
            (default Token asset_type))
  | CallTraffic max_intents duration_secs asset_type wallet_bps =>
      Ok (TrafficFlow max_intents (1000 * duration_secs) (default DEFAULT_TRAFFIC_WALLET_BPS wallet_bps) asset_type)
  | CallStress args => StressFlow <$> stress_plan args
  end.
End Arguments.

(** What a flow reserves, and the run it detaches as: an express transfer blocks. *)
Definition reserved (flow : Flow) : Z :=
  match flow with
  | LoadTestFlow _ _ num_txs => num_txs
  | ExpressFlow _ _ | SendFlow _ _ => 1
  | RoundtripFlow _ => 2
  | SweepFlow max_intents _ _ _ _ | TrafficFlow max_intents _ _ _ => max_intents
  | StressFlow plan => sn_max_intents plan
  end.
Definition flow_kind (flow : Flow) : option RunKind :=
  match flow with
  | LoadTestFlow _ _ _ => Some LoadTestRun
  | ExpressFlow _ _ => None
  | SendFlow _ _ => Some IntentsSend
  | RoundtripFlow _ => Some IntentsRoundtrip
  | SweepFlow _ _ _ _ _ => Some IntentsSweep
  | TrafficFlow _ _ _ _ => Some IntentsTraffic
  | StressFlow _ => Some IntentsStress
  end.

(** A server process: [sv_last_millis] is its [LAST_RUN_MILLIS]. *)
Record Server : Type := mkServer {
  sv_network : Network;
  sv_policy : SpendPolicy;
  sv_runs : RunRegistry;
  sv_last_millis : Z
}.
Definition set_policy (p : SpendPolicy) (sv : Server) : Server := mkServer (sv_network sv) p (sv_runs sv) (sv_last_millis sv).
Definition set_runs (r : RunRegistry) (sv : Server) : Server := mkServer (sv_network sv) (sv_policy sv) r (sv_last_millis sv).

Section Tools.
Context `{McpText, EvmLib, CosmosAccounts, ConfigLib, IntentLib}.

(** [mcp::serve] up to the transport, with [McpContext::new]. *)
Definition serve (network : Network) (deny_mainnet : bool) (limits : SpendLimits) (readable : bool) (ledger : option string)
    : result Server :=
  policy ← persistent limits readable ledger;
  _ ← ensure_ok (negb (bool_decide (network = Mainnet) && deny_mainnet)) "refusing to serve mainnet";
  Ok (mkServer network policy new_registry 0).

(** The caps: chains that the call names, then the reservation. *)
Definition claim (p : SpendPolicy) (flow : Flow) (w : WriteOutcome) (ledger : option string)
    : (PolicyViolation + ()) * SpendPolicy * option string :=
  match flow with
  | LoadTestFlow source destination _ | ExpressFlow source destination =>
      match check_chain p source, check_chain p destination with
      | inl violation, _ => (inl violation, p, ledger)
      | inr _, inl violation => (inl violation, p, ledger)
      | inr _, inr _ => reserve p (reserved flow) w ledger
      end
  | _ => reserve p (reserved flow) w ledger
  end.

(** Taking the slot: a detached run, with its identifier, or a blocking tool. *)
Definition begin (sv : Server) (flow : Flow) (file : LockFile) (locked : bool) (now : Z) : (StartRefused + option RunId) * Server :=
  match flow_kind flow with
  | Some kind =>
      match start (sv_runs sv) kind file locked now (sv_last_millis sv) with
      | (inl refused, runs, last) => (inl refused, mkServer (sv_network sv) (sv_policy sv) runs last)
      | (inr id, runs, last) => (inr (Some id), mkServer (sv_network sv) (sv_policy sv) runs last)
      end
  | None =>
      match claim_slot (sv_runs sv) file locked with
      | (inl refused, runs) => (inl refused, set_runs runs sv)
      | (inr _, runs) => (inr None, set_runs runs sv)
      end
  end.

(** What is handed back when a flow that reserved [reserved flow] claims to have
    sent [claimed]; load tests and express transfers keep their reservation. *)
Definition refund (flow : Flow) (claimed : Z) : option Z :=
  match flow with
  | LoadTestFlow _ _ _ | ExpressFlow _ _ => None
  | _ => Some (saturating_sub (reserved flow) (Z.min claimed (reserved flow)))
  end.
Definition settle_flow (p : SpendPolicy) (flow : Flow) (claimed : Z) (w : WriteOutcome) (ledger : option string)
    : SpendPolicy * option string :=
  match refund flow claimed with
  | Some unspent => release p unspent w ledger
  | None => (p, ledger)
  end.

(** [intents_runtime], with the path of the configuration and the key it found. *)
Definition intents_runtime (sv : Server) (config key : string) : IntentRuntimeArgs :=
  mkRuntimeArgs (sv_network sv) None config key INTENT_POLL_INTERVAL_SECS INTENT_FULFILLMENT_TIMEOUT_SECS true
    (sp_allowed_chains (po_limits (sv_policy sv))).
End Tools.

(** The flows of the intent tools: how many intents each claims to have sent. *)
Section Flows.
Context {E : Type} `{PoolNode E, IntentNode E, EvmLib, CosmosAccounts, ConfigLib, IntentLib}.
Variables (jittered : Z -> Z) (env_var : string -> option string).
Abbreviation D := (Desk E).

(** [claimed]: what the result tells, or the whole reservation after an error. *)
Definition claims_of {T} (flow : Flow) (count : T -> Z) (m : M D T) : M D Z :=
  r ← trying m;
  mret match r with Ok a => count a | Err _ => reserved flow end.

Definition run_flow (fuel : nat) (runtime : IntentRuntimeArgs) (flow : Flow) : option (M D Z) :=
  match flow with
  | SendFlow route recipient => Some (claims_of flow (fun _ => 1) (send jittered env_var runtime route recipient))
  | RoundtripFlow route =>
      Some (claims_of flow (fun results => Z.of_nat (length results)) (roundtrip jittered env_var runtime route))
  | SweepFlow max_intents sweeps wallet_bps order_type asset_type =>
      Some (claims_of flow (fun results => Z.of_nat (length results))
        (sweep jittered env_var fuel (mkSweepArgs runtime sweeps false false wallet_bps order_type asset_type (Some max_intents))))
  | TrafficFlow max_intents duration wallet_bps asset_type =>
      Some (claims_of flow tm_intents
        (traffic jittered env_var fuel (mkTrafficArgs runtime wallet_bps asset_type (Some duration) (Some max_intents))))
  | LoadTestFlow _ _ _ | ExpressFlow _ _ | StressFlow _ => None
  end.

(** The stress tool claims what was broadcast. *)
Definition stress_claim (flow : Flow) (outcome : result Sched) : Z :=
  match outcome with Ok s => ad_broadcast (sc_admission s) | Err _ => reserved flow end.
End Flows.

(** ** A machine with servers on it *)

(** A flow that has the slot: [av_id] is the identifier of a detached run, [None]
    for a blocking tool; [av_sent] counts what it has sent. *)
Record Active : Type := mkActive {
  av_server : nat;
  av_flow : Flow;
  av_id : option RunId;
  av_sent : Z
}.

(** The servers share the ledger file, the reports directory and the run lock.
    [mc_calls]: calls that have their reservation and have not started;
    [mc_sent]: what was ever sent. *)
Record Machine : Type := mkMachine {
  mc_ledger : option string;
  mc_reports : gmap string string;
  mc_locked : bool;
  mc_servers : gmap nat Server;
  mc_calls : list (nat * Flow);
  mc_active : list Active;
  mc_sent : Z
}.

Definition fresh_machine : Machine := mkMachine None ∅ false ∅ [] [] 0.

Definition with_server (i : nat) (sv : Server) (ledger : option string) (m : Machine) : Machine :=
  mkMachine ledger (mc_reports m) (mc_locked m) (<[i := sv]> (mc_servers m)) (mc_calls m) (mc_active m) (mc_sent m).
Definition with_calls (calls : list (nat * Flow)) (m : Machine) : Machine :=
  mkMachine (mc_ledger m) (mc_reports m) (mc_locked m) (mc_servers m) calls (mc_active m) (mc_sent m).
Definition with_slot (locked : bool) (active : list Active) (m : Machine) : Machine :=
  mkMachine (mc_ledger m) (mc_reports m) locked (mc_servers m) (mc_calls m) active (mc_sent m).
Definition with_report (file : option (string * string)) (m : Machine) : Machine :=
  mkMachine (mc_ledger m) (match file with Some (name, text) => <[name := text]> (mc_reports m) | None => mc_reports m end)
    (mc_locked m) (mc_servers m) (mc_calls m) (mc_active m) (mc_sent m).
Definition count_sent (m : Machine) : Machine :=
  mkMachine (mc_ledger m) (mc_reports m) (mc_locked m) (mc_servers m) (mc_calls m) (mc_active m) (mc_sent m + 1).

(** The kernel ends a process: its calls and flows are gone, its lock is free. *)
Definition without_server (i : nat) (m : Machine) : Machine :=
  mkMachine (mc_ledger m) (mc_reports m) (mc_locked m && negb (existsb (fun a => Nat.eqb (av_server a) i) (mc_active m)))
    (delete i (mc_servers m)) (List.filter (fun c => negb (Nat.eqb c.1 i)) (mc_calls m))
    (List.filter (fun a => negb (Nat.eqb (av_server a) i)) (mc_active m)) (mc_sent m).

Section Machines.
Context {E : Type} `{PoolNode E, IntentNode E, McpText, EvmLib, CosmosAccounts, ConfigLib, IntentLib}.
Variables (jittered : Z -> Z) (env_var : string -> option string).
(** Limits an operator may start a server with, tools that are used, and whether
    servers run beside each other. *)
Variables (operator : SpendLimits -> Prop) (used : Flow -> Prop) (shared : bool).
(** Load tests, express transfers and stress runs: what they may have sent, and
    what they claim when they end. *)
Variable elsewhere : Flow -> Z -> option Z -> Prop.

(** A flow may have sent [sent], and has ended with the claim, if there is one. *)
Inductive flow_runs (sv : Server) (flow : Flow) : Z -> option Z -> Prop :=
  | runs_here fuel config key m (s : Desk E) t :
      run_flow jittered env_var fuel (intents_runtime sv config key) flow = Some m -> dk_trace (m s).2 = dk_trace s ++ t ->
      flow_runs sv flow (Z.of_nat (deposits t)) (match (m s).1 with Ok claimed => Some claimed | Err _ => None end)
  | runs_elsewhere sent claimed :
      run_flow (E := E) jittered env_var 0 (intents_runtime sv "" "") flow = None -> elsewhere flow sent claimed ->
      flow_runs sv flow sent claimed.

Inductive mcp_step : Machine -> Machine -> Prop :=
  (** A server starts, or dies at any point. *)
  | step_serve i network deny_mainnet limits readable sv m :
      mc_servers m !! i = None -> operator limits -> shared = true \/ mc_servers m = ∅ ->
      serve network deny_mainnet limits readable (mc_ledger m) = Ok sv ->
      mcp_step m (with_server i sv (mc_ledger m) m)
  | step_die i m : mcp_step m (without_server i m)
  (** A call is held against the caps: admitted, or refused. *)
  | step_call i sv key call flow w p ledger m :
      mc_servers m !! i = Some sv -> read_call key call = Ok flow -> used flow -> 0 <= reserved flow ->
      claim (sv_policy sv) flow w (mc_ledger m) = (inr (), p, ledger) ->
      mcp_step m (with_calls (mc_calls m ++ [(i, flow)]) (with_server i (set_policy p sv) ledger m))
  | step_refuse i sv key call flow w violation p ledger m :
      mc_servers m !! i = Some sv -> read_call key call = Ok flow -> used flow -> 0 <= reserved flow ->
      claim (sv_policy sv) flow w (mc_ledger m) = (inl violation, p, ledger) ->
      mcp_step m (with_server i (set_policy p sv) ledger m)
  (** Its preparation fails and the reservation is released; or the request is
      cancelled, and it is not. *)
  | step_give_up i sv before flow after w p ledger m :
      mc_servers m !! i = Some sv -> mc_calls m = before ++ (i, flow) :: after ->
      release (sv_policy sv) (reserved flow) w (mc_ledger m) = (p, ledger) ->
      mcp_step m (with_calls (before ++ after) (with_server i (set_policy p sv) ledger m))
  | step_cancel before call after m :
      mc_calls m = before ++ call :: after -> mcp_step m (with_calls (before ++ after) m)
  (** It takes the slot, or is refused it and releases its reservation. *)
  | step_begin i sv before flow after file now id sv' m :
      mc_servers m !! i = Some sv -> mc_calls m = before ++ (i, flow) :: after ->
      begin sv flow file (mc_locked m) now = (inr id, sv') ->
      mcp_step m (with_slot true (mc_active m ++ [mkActive i flow id 0])
                    (with_calls (before ++ after) (with_server i sv' (mc_ledger m) m)))
  | step_no_slot i sv before flow after file now refused sv' w p ledger m :
      mc_servers m !! i = Some sv -> mc_calls m = before ++ (i, flow) :: after ->
      begin sv flow file (mc_locked m) now = (inl refused, sv') ->
      release (sv_policy sv') (reserved flow) w (mc_ledger m) = (p, ledger) ->
      mcp_step m (with_calls (before ++ after) (with_server i (set_policy p sv') ledger m))
  (** A flow sends; it ends with its refund, and its report if that can be written; or its thread dies,
      or its request is cancelled, without either. *)
  | step_send i sv before flow id n after sent claimed m :
      mc_servers m !! i = Some sv -> mc_active m = before ++ mkActive i flow id n :: after ->
      flow_runs sv flow sent claimed -> n + 1 <= sent ->
      mcp_step m (count_sent (with_slot (mc_locked m) (before ++ mkActive i flow id (n + 1) :: after) m))
  | step_finish i sv before flow id n after claimed report w p ledger m :
      mc_servers m !! i = Some sv -> mc_active m = before ++ mkActive i flow id n :: after ->
      flow_runs sv flow n (Some claimed) -> settle_flow (sv_policy sv) flow claimed w (mc_ledger m) = (p, ledger) ->
      mcp_step m (with_report (id ← id; text ← report; Some (report_file id, text))
                    (with_slot false (before ++ after)
                       (with_server i (set_runs (leave_slot id (sv_runs sv)) (set_policy p sv)) ledger m)))
  | step_lose i sv before flow id n after m :
      mc_servers m !! i = Some sv -> mc_active m = before ++ mkActive i flow id n :: after ->
      mcp_step m (with_slot false (before ++ after)
                    (with_server i (set_runs (leave_slot id (sv_runs sv)) sv) (mc_ledger m) m))
  (** The handle of a run that is over reads as finished. *)
  | step_reap i sv id m :
      mc_servers m !! i = Some sv -> Forall (fun a => av_server a = i -> av_id a <> Some id) (mc_active m) ->
      mcp_step m (with_server i (set_runs (handle_finished id (sv_runs sv)) sv) (mc_ledger m) m)
  (** The runs are listed, which drops the finished handles. *)
  | step_list i sv m :
      mc_servers m !! i = Some sv ->
      mcp_step m (with_server i (set_runs (list_runs (sv_runs sv) (mc_reports m)).2 sv) (mc_ledger m) m).

Definition mcp_run (m : Machine) : Prop := rtc mcp_step fresh_machine m.
End Machines.
