(* ===== verification/McpFacts.v ===== *)
(** * The MCP server: one flow at a time, within the budget *)

From S2P Require Import Prelude Types Retry Journal Chain Plan Config Target Json Cosmos LoadNet Propose RobustSend SignedCalls Intents IntentRun IntentSafety IntentBounds IntentCaps Pipeline Stress Mcp.

(** A ledger that was written whole is read back, and a part of one is not a
    ledger: no proper prefix of a JSON object is a document. *)
Class McpTextLaws `{McpText} : Prop := {
  parse_ledger_text n : 0 <= n <= u64_max -> parse_ledger (ledger_text n) = Some n;
  parse_ledger_cut k n : 0 <= n <= u64_max -> parse_ledger (cut k (ledger_text n)) = None
}.

(** ** Lists with one element replaced or removed *)

Lemma sum_app {A} (f : A -> Z) l k : foldr (fun a acc => f a + acc) 0 (l ++ k) =
  foldr (fun a acc => f a + acc) 0 l + foldr (fun a acc => f a + acc) 0 k.
Proof. induction l as [|a l IH]; simpl; [done|lia]. Qed.

Lemma sum_filter {A} (f : A -> Z) (b : A -> bool) l : Forall (fun a => 0 <= f a) l ->
  0 <= foldr (fun a acc => f a + acc) 0 (List.filter b l) <= foldr (fun a acc => f a + acc) 0 l.
Proof. induction 1 as [|a l Ha Hl IH]; simpl; [lia|]. destruct (b a); simpl; lia. Qed.

Lemma Forall_list_filter {A} (P : A -> Prop) (b : A -> bool) l : Forall P l -> Forall P (List.filter b l).
Proof. induction 1 as [|a l Ha Hl IH]; simpl; [done|]. destruct (b a); [by constructor|done]. Qed.

(** ** The slot *)

(** The claims of server [i] on the slot while [a] has it. *)
Definition claimed_by (i : nat) (a : Active) : Z := if bool_decide (av_server a = i /\ av_id a = None) then 1 else 0.

(** The lock is held exactly while a flow is active, there is at most one, and the
    registry of its server knows it. *)
Definition slot_inv (m : Machine) : Prop :=
  match mc_active m with
  | [] => mc_locked m = false /\ forall i sv, mc_servers m !! i = Some sv -> rr_claims (sv_runs sv) = 0
  | [a] =>
      mc_locked m = true /\ is_Some (mc_servers m !! av_server a) /\
      forall i sv, mc_servers m !! i = Some sv -> rr_claims (sv_runs sv) = claimed_by i a /\
        forall id, av_server a = i -> av_id a = Some id -> rr_in_flight (sv_runs sv) !! id = Some false
  | _ => False
  end.

Lemma one_active m before a after : slot_inv m -> mc_active m = before ++ a :: after -> before = [] /\ after = [].
Proof.
  unfold slot_inv. intros Hi He. rewrite He in Hi. destruct before as [|b [|c before]]; simpl in Hi; [|done..].
  by destruct after.
Qed.

Lemma slot_inv_server i sv sv' ledger m :
  mc_servers m !! i = Some sv -> rr_claims (sv_runs sv') = rr_claims (sv_runs sv) ->
  (forall a id, a ∈ mc_active m -> av_server a = i -> av_id a = Some id -> rr_in_flight (sv_runs sv) !! id = Some false ->
     rr_in_flight (sv_runs sv') !! id = Some false) ->
  slot_inv m -> slot_inv (with_server i sv' ledger m).
Proof.
  intros Hi Hc Hf. unfold slot_inv. simpl. destruct (mc_active m) as [|a [|]]; [|destruct 1 as (Hl & Hs & Hall)|done].
  - intros [Hl Hall]. split; [done|]. intros j svj [[<- <-]|[_ Hj]]%lookup_insert_Some; [rewrite Hc|]; by eapply Hall.
  - split; [done|]. split; [destruct (decide (i = av_server a)) as [<-|]; [by rewrite lookup_insert_eq|by rewrite lookup_insert_ne]|].
    intros j svj [[<- <-]|[_ Hj]]%lookup_insert_Some; [|by apply Hall]. destruct (Hall _ _ Hi) as [Hcl Hfl].
    split; [by rewrite Hc|]. intros id Ha Hid. eapply Hf; [by apply list_elem_of_singleton|done|done|by apply Hfl].
Qed.

Lemma unfinished_Some (runs : gmap RunId bool) id : unfinished runs !! id = Some false <-> runs !! id = Some false.
Proof. unfold unfinished. rewrite map_lookup_filter_Some. simpl. naive_solver. Qed.

(** Starting: what the slot looked like when it was taken, and what it is like after. *)
Lemma start_spec r kind file locked now last res r' last' :
  start r kind file locked now last = (res, r', last') ->
  rr_claims r' = rr_claims r /\ (forall id, rr_in_flight r !! id = Some false -> rr_in_flight r' !! id = Some false) /\
  match res with
  | inr id => locked = false /\ rr_claims r <= 0 /\ unfinished (rr_in_flight r) = ∅ /\ rr_in_flight r' !! id = Some false
  | inl (RunInFlight id) => rr_in_flight r !! id = Some false
  | inl SlotHeldHere => 0 < rr_claims r
  | inl HeldByAnotherProcess => locked = true /\ rr_claims r <= 0 /\ unfinished (rr_in_flight r) = ∅
  | inl (LockUnavailable error) => file = LockError error
  end.
Proof.
  unfold start, lock_machine_slot. cbv zeta. destruct (map_to_list _) as [|[id b] l] eqn:Hm.
  - apply map_to_list_empty_iff in Hm. cbn [rr_claims rr_in_flight]. destruct (Z.ltb_spec 0 (rr_claims r)).
    { intros [= <- <- <-]. simpl. split; [done|]. split; [intros id Hid; by apply unfinished_Some|done]. }
    destruct file as [|error]; [destruct locked|]; simpl; intros [= <- <- <-]; simpl.
    all: split; [done|]; split; [intros id Hid; try by apply unfinished_Some|done||idtac].
    + apply unfinished_Some in Hid. by rewrite Hm in Hid.
    + split; [done|]. split; [done|]. split; [done|]. by rewrite lookup_insert_eq.
  - intros [= <- <- <-]. simpl. split; [done|]. split; [intros id' Hid; by apply unfinished_Some|].
    assert ((id, b) ∈ map_to_list (unfinished (rr_in_flight r))) as He by (rewrite Hm; left).
    apply elem_of_map_to_list in He. unfold unfinished in He. apply map_lookup_filter_Some in He as [He Hb]. simpl in Hb. by subst b.
Qed.

Lemma begin_spec sv flow file locked now res sv' :
  begin sv flow file locked now = (res, sv') ->
  sv_policy sv' = sv_policy sv /\
  (forall id, rr_in_flight (sv_runs sv) !! id = Some false -> rr_in_flight (sv_runs sv') !! id = Some false) /\
  match res with
  | inr id =>
      locked = false /\ rr_claims (sv_runs sv') = rr_claims (sv_runs sv) + (if bool_decide (id = None) then 1 else 0) /\
      forall x, id = Some x -> rr_in_flight (sv_runs sv') !! x = Some false
  | inl _ => rr_claims (sv_runs sv') = rr_claims (sv_runs sv)
  end.
Proof.
  unfold begin. destruct (flow_kind flow) as [kind|].
  - destruct (start _ _ _ _ _ _) as [[res0 r] last] eqn:Hs. apply start_spec in Hs as (Hc & Hf & Hr).
    destruct res0 as [refused|id]; intros [= <- <-]; simpl; [done|]. split; [done|]. split; [done|].
    destruct Hr as (Hl & _ & _ & Hid). split; [done|]. split; [lia|]. by intros x [= <-].
  - unfold claim_slot, lock_machine_slot. destruct (0 <? _); [by intros [= <- <-]|]. destruct file; [|by intros [= <- <-]].
    destruct locked; intros [= <- <-]; [done|]. by simpl.
Qed.

Section Machines.
Context {E : Type} `{PoolNode E, IntentNode E, McpText, EvmLib, CosmosAccounts, ConfigLib, IntentLib}.
Variables (jittered : Z -> Z) (env_var : string -> option string).
Variables (operator : SpendLimits -> Prop) (used : Flow -> Prop) (shared : bool) (elsewhere : Flow -> Z -> option Z -> Prop).

Abbreviation step := (mcp_step (E := E) jittered env_var operator used shared elsewhere).

(** Changes that do not touch the slot. *)
Lemma slot_inv_policy i sv p ledger m :
  mc_servers m !! i = Some sv -> slot_inv m -> slot_inv (with_server i (set_policy p sv) ledger m).
Proof. intros Hi. by apply (slot_inv_server i sv). Qed.

Lemma slot_inv_leave i sv before flow id n after p ledger m :
  mc_servers m !! i = Some sv -> mc_active m = before ++ mkActive i flow id n :: after -> slot_inv m ->
  slot_inv (with_slot false (before ++ after) (with_server i (set_runs (leave_slot id (sv_runs sv)) (set_policy p sv)) ledger m)).
Proof.
  intros Hi Ha Hinv. destruct (one_active _ _ _ _ Hinv Ha) as [-> ->]. unfold slot_inv in *. rewrite Ha in Hinv. simpl in *.
  destruct Hinv as (_ & _ & Hall). split; [done|]. intros j svj [[<- <-]|[Hne Hj]]%lookup_insert_Some.
  - destruct (Hall _ _ Hi) as [Hc _]. unfold claimed_by in Hc. simpl in Hc. destruct id as [id|]; simpl.
    + rewrite bool_decide_eq_false_2 in Hc by (by intros []). done.
    + rewrite bool_decide_eq_true_2 in Hc by done. lia.
  - destruct (Hall _ _ Hj) as [Hc _]. unfold claimed_by in Hc. simpl in Hc. rewrite bool_decide_eq_false_2 in Hc; [done|].
    by intros [].
Qed.

Lemma slot_inv_die i m : slot_inv m -> slot_inv (without_server i m).
Proof.
  unfold slot_inv. simpl. destruct (mc_active m) as [|a [|]]; simpl; [|destruct 1 as (Hl & Hs & Hall)|done].
  - intros [-> Hall]. split; [done|]. intros j sv [_ Hj]%lookup_delete_Some. by eapply Hall.
  - destruct (Nat.eqb_spec (av_server a) i) as [<-|Hne]; simpl.
    + rewrite andb_false_r. split; [done|]. intros j sv [Hne Hj]%lookup_delete_Some. destruct (Hall _ _ Hj) as [-> _].
      unfold claimed_by. by rewrite bool_decide_eq_false_2 by (by intros []).
    + rewrite andb_true_r. split; [done|]. split; [by rewrite lookup_delete_ne|].
      intros j sv [_ Hj]%lookup_delete_Some. by apply Hall.
Qed.

Lemma slot_inv_begin i sv flow file now id sv' before after m :
  mc_servers m !! i = Some sv -> begin sv flow file (mc_locked m) now = (inr id, sv') -> slot_inv m ->
  slot_inv (with_slot true (mc_active m ++ [mkActive i flow id 0]) (with_calls (before ++ after) (with_server i sv' (mc_ledger m) m))).
Proof.
  intros Hi (_ & _ & Hl & Hc & Hid)%begin_spec Hinv. unfold slot_inv in *. simpl.
  destruct (mc_active m) as [|a [|]]; simpl; [|exfalso; by destruct Hinv as [Hl' _]; rewrite Hl in Hl'|done].
  destruct Hinv as [_ Hall]. split; [done|]. split; [by rewrite lookup_insert_eq|].
  intros j svj [[<- <-]|[Hne Hj]]%lookup_insert_Some.
  - rewrite (Hall _ _ Hi) in Hc. split; [|intros x _ Hx; by apply Hid]. rewrite Hc. unfold claimed_by. simpl.
    destruct id; [|by rewrite !bool_decide_eq_true_2]. rewrite (bool_decide_eq_false_2 (_ /\ _)) by (by intros []). done.
  - split; [|by intros x Hx]. rewrite (Hall _ _ Hj). unfold claimed_by. by rewrite bool_decide_eq_false_2 by (by intros []).
Qed.

Lemma slot_step m m' : step m m' -> slot_inv m -> slot_inv m'.
Proof.
  destruct 1 as [i network deny limits readable sv m Hi _ _ Hserve|i m|i sv key call flow w p ledger m Hi|
    i sv key call flow w v p ledger m Hi|i sv before flow after w p ledger m Hi|before call after m|
    i sv before flow after file now id sv' m Hi Hc Hb|i sv before flow after file now refused sv' w p ledger m Hi _ Hb|
    i sv before flow id n after sent claimed m Hi Ha|i sv before flow id n after claimed report w p ledger m Hi Ha|
    i sv before flow id n after m Hi Ha|i sv id m Hi Hid|i sv m Hi]; intros Hinv.
  - unfold serve in Hserve. apply result_bind_ok in Hserve as (p & _ & Hserve). apply result_bind_ok in Hserve as (u & _ & [= <-]).
    unfold slot_inv in *. simpl. destruct (mc_active m) as [|a [|]]; [|destruct Hinv as (Hl & [sva Hs] & Hall)|done].
    + destruct Hinv as [Hl Hall]. split; [done|]. intros j svj [[<- <-]|[_ Hj]]%lookup_insert_Some; [done|by eapply Hall].
    + assert (i <> av_server a) as Hne by (intros ->; congruence). split; [done|]. split; [by rewrite lookup_insert_ne|].
      intros j svj [[<- <-]|[_ Hj]]%lookup_insert_Some; [|by apply Hall]. simpl. unfold claimed_by.
      rewrite bool_decide_eq_false_2 by (by intros []). by split; [|intros id Hx].
  - by apply slot_inv_die.
  - change (slot_inv (with_server i (set_policy p sv) ledger m)). by apply slot_inv_policy.
  - by apply slot_inv_policy.
  - change (slot_inv (with_server i (set_policy p sv) ledger m)). by apply slot_inv_policy.
  - exact Hinv.
  - by eapply slot_inv_begin.
  - change (slot_inv (with_server i (set_policy p sv') ledger m)). apply begin_spec in Hb as (_ & Hf & Hc).
    apply (slot_inv_server i sv); [done|done| |done]. intros a x _ _ _ Hx. by apply Hf.
  - destruct (one_active _ _ _ _ Hinv Ha) as [-> ->]. unfold slot_inv in *. rewrite Ha in Hinv. exact Hinv.
  - change (slot_inv (with_slot false (before ++ after) (with_server i (set_runs (leave_slot id (sv_runs sv)) (set_policy p sv)) ledger m))).
    by eapply slot_inv_leave.
  - pose proof (slot_inv_leave i sv before flow id n after (sv_policy sv) (mc_ledger m) m Hi Ha Hinv) as Hl. by destruct sv.
  - apply (slot_inv_server i sv); [done|done| |done]. intros a x Ha Hs Hx Hrun. simpl.
    rewrite list.Forall_forall in Hid. rewrite lookup_alter_ne; [done|]. intros <-. by apply (Hid a Ha).
  - apply (slot_inv_server i sv); [done|done| |done]. intros a x _ _ _ Hrun. simpl. by apply unfinished_Some.
Qed.

Lemma slot_run m : mcp_run (E := E) jittered env_var operator used shared elsewhere m -> slot_inv m.
Proof.
  unfold mcp_run. intros Hr. assert (slot_inv fresh_machine) as Hfresh by (by split).
  revert Hfresh. induction Hr as [|x y z Hxy _ IH]; [done|]. intros Hx. apply IH. by eapply slot_step.
Qed.
End Machines.

(** ** What the intent flows claim *)

Section Claims.
Context {E : Type} `{PoolNode E, IntentNode E, EvmLib, CosmosAccounts, ConfigLib, IntentLib, !ApproveBytes, !ShuffleLaw E}.
Variables (jittered : Z -> Z) (env_var : string -> option string).
Abbreviation D := (Desk E).

(** A program that returns has added a result for each deposit. *)
Definition fair {T} (r : result T) (t : list intent_event) (rs : list LegResult) : Prop :=
  forall a, r = Ok a -> (deposits t <= length rs)%nat.

Lemma fair_bind {T U} (m : M D T) (f : T -> M D U) : leaves m fair -> (forall a, leaves (f a) fair) -> leaves (m ≫= f) fair.
Proof.
  intros Hm Hf. eapply leaves_bind; [exact Hm|done|]. intros a t rs Ha. eapply leaves_weaken; [apply Hf|].
  intros r t' rs' Hr b Hb. specialize (Ha _ eq_refl). specialize (Hr _ Hb). rewrite deposits_app, length_app. lia.
Qed.
Lemma fair_silent {T} (m : M D T) φ : silently m φ -> leaves m fair.
Proof. intros Hm. eapply leaves_weaken; [exact Hm|]. intros r t rs (-> & _) a _. change (deposits []) with 0%nat. lia. Qed.
Lemma fair_after {T U} (m : M D T) (f : T -> M D U) φ : silently m φ -> (forall a, leaves (f a) fair) -> leaves (m ≫= f) fair.
Proof. intros Hm. apply fair_bind. by eapply fair_silent. Qed.

Lemma fair_round_trip base chains signer wallet plan limits :
  leaves (E := E) (execute_round_trip jittered base chains signer wallet plan limits) fair.
Proof.
  unfold execute_round_trip.
  eapply (leaves_bind _ _ (fun r t rs => rs = [] /\ (deposits t <= 1)%nat)); [|done|].
  { eapply leaves_weaken; [apply leaves_leg|]. by intros r t rs (-> & Ht%leg_deposits & _). }
  intros forward t rs [-> Ht]. eapply leaves_after; [apply silently_lift|done|]. intros leg _.
  eapply leaves_bind; [apply leaves_push|done|]. intros u t' rs [-> ->].
  eapply (leaves_bind _ _ (fun r t rs => rs = [] /\ (deposits t <= 1)%nat)); [|done|].
  { eapply leaves_weaken; [apply leaves_leg|]. by intros r t1 rs (-> & Ht1%leg_deposits & _). }
  intros res t1 rs [-> Ht1]. eapply leaves_weaken; [apply leaves_push|]. intros r t2 rs [-> ->] a _.
  rewrite !deposits_app. change (deposits []) with 0%nat. simpl. lia.
Qed.

Lemma fair_sweep_pass rt di plans : leaves (E := E) (execute_sweep_pass jittered rt di plans) fair.
Proof.
  induction plans as [|plan plans IH]; cbn [execute_sweep_pass]; [eapply fair_silent; by apply (silently_ret _ (fun _ => True))|].
  eapply fair_after; [apply silently_consult|]. intros []; [eapply fair_silent; by apply (silently_ret _ (fun _ => True))|].
  apply fair_bind; [apply fair_round_trip|done].
Qed.

Lemma fair_swept : leaves (E := E) swept fair.
Proof. eapply fair_silent, silently_look. Qed.

Lemma fair_sweep_loop fuel args rt planned k : leaves (E := E) (sweep_loop jittered env_var fuel args rt planned k) fair.
Proof.
  revert planned k. induction fuel as [|fuel IH]; intros planned k; cbn [sweep_loop].
  { eapply fair_silent. by apply (silently_throw _ (fun _ => True)). }
  cbv zeta. eapply fair_after; [apply silently_discover|]. intros di. eapply fair_after; [apply silently_sweep_plans|]. intros plans.
  eapply fair_after; [apply silently_ensure|]. intros _. destruct (sw_dry_run args); [apply fair_swept|].
  destruct (would_exceed _ _ _); [apply fair_swept|]. apply fair_bind; [apply fair_sweep_pass|]. intros completed.
  destruct (negb completed); [apply fair_swept|]. destruct (_ && _); [apply fair_swept|].
  eapply fair_after; [apply silently_consult|]. intros []; [apply fair_swept|apply IH].
Qed.

(** What it returns are the results. *)
Lemma swept_results fuel args rt planned k (s s' : D) results :
  sweep_loop jittered env_var fuel args rt planned k s = (Ok results, s') -> results = dk_results s'.
Proof.
  assert (forall s : D, swept s = (Ok results, s') -> results = dk_results s') as Hswept by (by intros s0 [= <- <-]).
  revert planned k s. induction fuel as [|fuel IH]; intros planned k s; cbn [sweep_loop]; [done|]. cbv zeta.
  intros (di & s1 & _ & Hr)%M_bind_ok. apply M_bind_ok in Hr as (plans & s2 & _ & Hr). apply M_bind_ok in Hr as (u & s3 & _ & Hr).
  destruct (sw_dry_run args); [by eapply Hswept|]. destruct (would_exceed _ _ _); [by eapply Hswept|].
  apply M_bind_ok in Hr as (completed & s4 & _ & Hr). destruct (negb completed); [by eapply Hswept|].
  destruct (_ && _); [by eapply Hswept|]. apply M_bind_ok in Hr as (stop & s5 & _ & Hr). destruct stop; [by eapply Hswept|by eapply IH].
Qed.

(** A program that starts with no results and returns the ones it has. *)
Lemma counts_fresh (m : M D (list LegResult)) :
  leaves m fair -> (forall s s' results, m s = (Ok results, s') -> results = dk_results s') ->
  counts (fresh_results;; m) (fun r n => forall results, r = Ok results -> n <= Z.of_nat (length results)).
Proof.
  intros Hm Hr s. set (s1 := mkDesk (dk_env s) [] (dk_stats s) (dk_trace s)). change ((fresh_results;; m) s) with (m s1).
  destruct (Hm s1) as (t & rs & Ht & Hrs & _ & Hf). exists t. split; [exact Ht|]. intros results Hok. specialize (Hf _ Hok).
  rewrite (Hr s1 (m s1).2 results) by (by rewrite <- Hok; destruct (m s1)). rewrite Hrs. simpl. lia.
Qed.

Lemma counts_both {T} (m : M D T) (Q R : result T -> Z -> Prop) : counts m Q -> counts m R -> counts m (fun r n => Q r n /\ R r n).
Proof.
  intros HQ HR s. destruct (HQ s) as (t & Ht & Hq), (HR s) as (t' & Ht' & Hr). rewrite Ht in Ht'. apply app_inv_head in Ht' as <-.
  by exists t.
Qed.

(** The flow sends no more than it reserved, and claims what it sent. *)
Definition honest {T} (bound : Z) (count : T -> Z) (r : result T) (n : Z) : Prop := n <= bound /\ forall a, r = Ok a -> n <= count a.

Lemma honest_sweep fuel args max :
  sw_max_intents args = Some max -> 0 <= max < u64_max ->
  counts (sweep (E := E) jittered env_var fuel args) (honest max (fun results => Z.of_nat (length results))).
Proof.
  intros Hmax Hw. apply counts_both; [by apply counts_sweep|]. unfold sweep. eapply counts_after; [apply silently_runtime|done|].
  intros rt _. eapply counts_after; [|done|].
  { destruct (sw_dry_run args); [by apply (silently_ret _ (fun _ => True))|apply silently_lock]. }
  intros _ _. apply counts_fresh; [apply fair_sweep_loop|apply swept_results].
Qed.

Lemma honest_roundtrip runtime route :
  counts (roundtrip (E := E) jittered env_var runtime route) (honest 2 (fun results => Z.of_nat (length results))).
Proof.
  unfold roundtrip. eapply counts_after; [apply silently_runtime|done|]. intros rt _.
  eapply counts_after; [apply silently_lift|done|]. intros _ _. eapply counts_after; [apply silently_discover|done|]. intros di _.
  eapply counts_after; [apply silently_plan_roundtrip|done|]. intros plan _. eapply counts_after; [apply silently_lock|done|]. intros _ _.
  apply counts_both.
  - eapply (counts_bind _ _ (fun _ n => n = 0)); [intros s0; by exists []; rewrite app_nil_r|intros e n ->; lia|]. intros u n ->.
    eapply (counts_bind _ _ (fun _ n => n <= 2)); [|done|].
    { eapply counts_yields; [apply leaves_round_trip|]. intros r t rs [_ Hr%round_trip_deposits]. lia. }
    intros u' n Hn. eapply counts_silently; [apply silently_look|]. intros r. lia.
  - apply counts_fresh; [apply fair_bind; [apply fair_round_trip|]; intros u; eapply fair_silent, silently_look|].
    intros s s' results. intros (u & s1 & _ & [= <- <-])%M_bind_ok. done.
Qed.

Lemma counts_confirm auto prompt : counts (E := E) (confirm_execution auto prompt) (fun _ n => n = 0).
Proof.
  unfold confirm_execution. destruct auto; [eapply counts_silently; [by apply (silently_ret _ (fun _ => True))|done]|].
  eapply (counts_bind _ _ (fun _ n => n = 0)); [|done|].
  - unfold prompt_operator. eapply counts_after; [apply silently_consult|done|]. intros yes _ s. by exists [Consented prompt yes].
  - intros yes n ->. eapply counts_silently; [apply silently_ensure|done].
Qed.

Lemma honest_send runtime route recipient : counts (send (E := E) jittered env_var runtime route recipient) (honest 1 (fun _ => 1)).
Proof.
  assert (forall r n, n <= 1 -> honest (T := LegResult) 1 (fun _ => 1) r n) as Hone by (by intros r n Hn; split).
  unfold send. eapply counts_after; [apply silently_runtime|by intros; apply Hone|]. intros rt _.
  eapply counts_after; [apply silently_lift|by intros; apply Hone|]. intros _ _.
  eapply counts_after; [apply silently_discover|by intros; apply Hone|]. intros di _.
  eapply counts_after; [apply silently_plan_send|by intros; apply Hone|]. intros plan _.
  eapply counts_bind; [apply counts_confirm|intros e n ->; by apply Hone|]. intros u n ->.
  eapply counts_after; [apply silently_lock|by intros; apply Hone|]. intros _ _.
  eapply counts_yields; [apply leaves_planned_leg|]. intros r t rs (_ & Hl%leg_deposits & _). apply Hone. lia.
Qed.

Lemma honest_claims {T} flow (count : T -> Z) (m : M D T) :
  counts m (honest (reserved flow) count) -> counts (claims_of flow count m) (honest (reserved flow) id).
Proof.
  intros Hm s. destruct (Hm s) as (t & Ht & Hn & Hc). exists t. unfold claims_of, trying, mbind, M_bind.
  destruct (m s) as [[a|[msg|msg|]] s1]; simpl in *; (split; [done|]); (split; [done|]); try done.
  all: intros c [= <-]; first [exact Hn|by apply Hc].
Qed.

Lemma honest_flow fuel runtime flow m :
  run_flow (E := E) jittered env_var fuel runtime flow = Some m -> (forall n d b t, flow <> TrafficFlow n d b t) ->
  0 <= reserved flow < u64_max -> counts m (honest (reserved flow) id).
Proof.
  intros Hm Ht Hr. destruct flow; simpl in Hm; try done; injection Hm as <-.
  - apply honest_claims, honest_send.
  - apply honest_claims, honest_roundtrip.
  - apply honest_claims. by apply honest_sweep.
  - by destruct (Ht max_intents duration wallet_bps asset_type).
Qed.
End Claims.

(** ** The budget *)

Section Ledger.
Context `{McpTextLaws}.
Variable max : Z.
Hypothesis max_range : 0 <= max < u64_max.

(** The ledger covers [floor]: what it is read as, if it is, is between it and the cap. *)
Definition covers (file : option string) (floor : Z) : Prop :=
  match file with
  | None => floor = 0
  | Some text => forall k, parse_ledger text = Some k -> floor <= k <= max
  end.

Lemma covers_written w count floor file :
  0 <= floor <= count -> count <= max -> covers file floor ->
  covers (written w (ledger_text count) file) (match w with Written => count | WriteFailed _ _ => floor end).
Proof.
  intros Hf Hc Ho. unfold covers. destruct w as [|error [k|]]; simpl; [|by rewrite parse_ledger_cut by lia|done].
  rewrite parse_ledger_text by lia. intros k [= <-]. lia.
Qed.

Lemma covers_less file floor floor' : 0 <= floor' <= floor -> covers file floor -> covers file floor'.
Proof. unfold covers. destruct file; [|lia]. intros Hf Ho k Hk. specialize (Ho k Hk). lia. Qed.

Definition capped (p : SpendPolicy) : Prop :=
  se_ledger (po_spent p) = true /\ sp_max_txs_total (po_limits p) = Some max /\ 0 <= se_count (po_spent p) <= max.

Lemma reserve_capped p n w file res p' file' :
  capped p -> covers file (se_count (po_spent p)) -> 0 <= n -> reserve p n w file = (res, p', file') ->
  capped p' /\ po_limits p' = po_limits p /\ covers file' (se_count (po_spent p')) /\
  match res with
  | inr _ => se_count (po_spent p') = se_count (po_spent p) + n /\ n <= sp_max_txs_per_run (po_limits p)
  | inl _ => se_count (po_spent p') = se_count (po_spent p)
  end.
Proof.
  intros (Hl & Ht & Hc) Ho Hn. unfold reserve, exceeded. destruct (Z.ltb_spec (sp_max_txs_per_run (po_limits p)) n).
  { by intros [= <- <- <-]. }
  rewrite Ht. cbv zeta. simpl. destruct (Z.ltb_spec max (saturating_add 64 (se_count (po_spent p)) n)) as [|Hle].
  { by intros [= <- <- <-]. }
  assert (saturating_add 64 (se_count (po_spent p)) n = se_count (po_spent p) + n) as Hs.
  { unfold saturating_add in *. change (2 ^ 64 - 1) with u64_max in *. lia. }
  rewrite Hs in *. unfold write_ledger. simpl. rewrite Hl.
  pose proof (covers_written w (se_count (po_spent p) + n) (se_count (po_spent p)) file ltac:(lia) Hle Ho) as Hw.
  unfold capped. destruct w as [|error left]; intros [= <- <- <-]; simpl; rewrite Hl; (split; [split; [done|]; split; [done|]; simpl; lia|]).
  all: split; [done|]; split; [exact Hw|]; first [done|split; [done|lia]].
Qed.

Lemma release_capped p n w file p' file' :
  capped p -> covers file (se_count (po_spent p)) -> 0 <= n -> release p n w file = (p', file') ->
  capped p' /\ po_limits p' = po_limits p /\ covers file' (se_count (po_spent p')) /\
  se_count (po_spent p) - n <= se_count (po_spent p').
Proof.
  intros (Hl & Ht & Hc) Ho Hn [= <- <-]. unfold write_ledger, capped. simpl. rewrite Hl. simpl.
  assert (0 <= saturating_sub (se_count (po_spent p)) n <= se_count (po_spent p)) as Hs by (unfold saturating_sub; lia).
  split; [split; [done|]; split; [done|]; lia|]. split; [done|]. split; [|unfold saturating_sub; lia].
  pose proof (covers_written w _ _ file (conj (proj1 Hs) (Z.le_refl _)) ltac:(lia) (covers_less _ _ _ Hs Ho)) as Hw.
  by destruct w.
Qed.

Lemma persistent_capped limits readable file floor p :
  sp_max_txs_total limits = Some max -> 0 <= floor <= max -> covers file floor -> persistent limits readable file = Ok p ->
  capped p /\ floor <= se_count (po_spent p) /\ covers file (se_count (po_spent p)).
Proof.
  intros Ht Hf Ho. unfold persistent, read_ledger. intros (count & Hr & [= <-])%result_bind_ok. unfold capped. simpl.
  destruct readable; [|done]. destruct file as [text|]; simpl in *; [|by injection Hr as <-; split_and!; try done; lia].
  apply ok_or_ok in Hr. destruct (Ho _ Hr). split_and!; try done; try lia. intros k Hk. rewrite Hr in Hk. injection Hk as <-. lia.
Qed.
End Ledger.

Section Budget.
Context {E : Type} `{PoolNode E, IntentNode E, McpText, !McpTextLaws, EvmLib, CosmosAccounts, ConfigLib, IntentLib, !ApproveBytes,
  !ShuffleLaw E}.
Variables (jittered : Z -> Z) (env_var : string -> option string).
Variables (max : Z) (elsewhere : Flow -> Z -> option Z -> Prop).
Hypothesis max_range : 0 <= max < u64_max.

Definition any_but_traffic (flow : Flow) : Prop := forall n d b t, flow <> TrafficFlow n d b t.
(** The intent tools that count what they send: one intent, a round trip, a sweep. *)
Definition counting_tool (flow : Flow) : Prop :=
  match flow with SendFlow _ _ | RoundtripFlow _ | SweepFlow _ _ _ _ _ => True | _ => False end.
Definition with_cap (limits : SpendLimits) : Prop := sp_max_txs_total limits = Some max.
Abbreviation step := (mcp_step (E := E) jittered env_var with_cap counting_tool false elsewhere).

Lemma runs_honest sv flow sent claimed :
  flow_runs (E := E) jittered env_var elsewhere sv flow sent claimed -> counting_tool flow -> 0 <= reserved flow <= max ->
  sent <= reserved flow /\ forall c, claimed = Some c -> sent <= c.
Proof.
  intros [fuel config key m s t Hm Ht|sent' claimed' Hnone _] Hflow Hr; [|by destruct flow].
  destruct (honest_flow jittered env_var fuel _ flow m Hm ltac:(by intros n d b t' ->) ltac:(lia) s) as (t' & Ht' & Hn & Hc).
  rewrite Ht in Ht'. apply app_inv_head in Ht' as <-. split; [done|]. intros c Hcl. apply Hc. destruct (m s).1; congruence.
Qed.

(** The flow was admitted by its server. *)
Definition admitted_flow (servers : gmap nat Server) (i : nat) (flow : Flow) : Prop :=
  counting_tool flow /\ 0 <= reserved flow <= max /\
  exists sv, servers !! i = Some sv /\ reserved flow <= sp_max_txs_per_run (po_limits (sv_policy sv)).

Definition calls_total (calls : list (nat * Flow)) : Z := foldr (fun c acc => reserved c.2 + acc) 0 calls.
Definition active_total (active : list Active) : Z := foldr (fun a acc => (reserved (av_flow a) - av_sent a) + acc) 0 active.

Record budget_inv (m : Machine) : Prop := mkBudgetInv {
  bi_floor : exists floor, 0 <= floor <= max /\ covers max (mc_ledger m) floor /\
    mc_sent m + calls_total (mc_calls m) + active_total (mc_active m) <= floor /\
    forall i sv, mc_servers m !! i = Some sv -> capped max (sv_policy sv) /\ se_count (po_spent (sv_policy sv)) = floor;
  bi_one i j : is_Some (mc_servers m !! i) -> is_Some (mc_servers m !! j) -> i = j;
  bi_calls : Forall (fun c => admitted_flow (mc_servers m) c.1 c.2) (mc_calls m);
  bi_active : Forall (fun a => admitted_flow (mc_servers m) (av_server a) (av_flow a) /\ av_sent a <= reserved (av_flow a)) (mc_active m)
}.

Lemma admitted_update servers i sv sv' j flow :
  servers !! i = Some sv -> po_limits (sv_policy sv') = po_limits (sv_policy sv) ->
  admitted_flow servers j flow -> admitted_flow (<[i := sv']> servers) j flow.
Proof.
  intros Hi Hl (Hu & Hr & svj & Hj & Hle). split; [done|]. split; [done|]. destruct (decide (i = j)) as [<-|Hne].
  - exists sv'. rewrite lookup_insert_eq, Hl. by simplify_eq.
  - exists svj. by rewrite lookup_insert_ne.
Qed.

(** The server, the ledger and the flows change together. *)
Lemma budget_update i sv sv' ledger reports locked calls active sent m :
  budget_inv m -> mc_servers m !! i = Some sv -> po_limits (sv_policy sv') = po_limits (sv_policy sv) ->
  capped max (sv_policy sv') -> covers max ledger (se_count (po_spent (sv_policy sv'))) ->
  sent + calls_total calls + active_total active <= se_count (po_spent (sv_policy sv')) ->
  Forall (fun c => admitted_flow (mc_servers m) c.1 c.2) calls ->
  Forall (fun a => admitted_flow (mc_servers m) (av_server a) (av_flow a) /\ av_sent a <= reserved (av_flow a)) active ->
  budget_inv (mkMachine ledger reports locked (<[i := sv']> (mc_servers m)) calls active sent).
Proof.
  intros [_ Hone _ _] Hi Hl Hcap Hcov Hsum Hcalls Hact.
  assert (forall j, is_Some (<[i := sv']> (mc_servers m) !! j) -> j = i) as Hji.
  { intros j [svj [[-> _]|[_ Hj]]%lookup_insert_Some]; [done|]. apply Hone; [by exists svj|by exists sv]. }
  constructor; simpl.
  - exists (se_count (po_spent (sv_policy sv'))). split; [apply Hcap|]. split; [done|]. split; [done|].
    intros j svj Hj. assert (j = i) as -> by (apply Hji; by exists svj). rewrite lookup_insert_eq in Hj. by injection Hj as <-.
  - intros j k Hj%Hji Hk%Hji. congruence.
  - eapply List.Forall_impl; [|exact Hcalls]. intros c. by apply (admitted_update _ _ sv).
  - eapply List.Forall_impl; [|exact Hact]. intros a [Ha Hs]. split; [by eapply admitted_update|done].
Qed.

Lemma inv_server i sv m : budget_inv m -> mc_servers m !! i = Some sv ->
  capped max (sv_policy sv) /\ covers max (mc_ledger m) (se_count (po_spent (sv_policy sv))) /\
  mc_sent m + calls_total (mc_calls m) + active_total (mc_active m) <= se_count (po_spent (sv_policy sv)).
Proof. intros [(floor & Hr & Hc & Hs & Hall) _ _ _] Hi. by destruct (Hall _ _ Hi) as [? ->]. Qed.

Lemma calls_total_middle before c after : calls_total (before ++ c :: after) = reserved c.2 + calls_total (before ++ after).
Proof. unfold calls_total. rewrite !(sum_app (fun c => reserved c.2)). simpl. lia. Qed.
Lemma active_total_middle before a after :
  active_total (before ++ a :: after) = (reserved (av_flow a) - av_sent a) + active_total (before ++ after).
Proof. unfold active_total. rewrite !(sum_app (fun a => reserved (av_flow a) - av_sent a)). simpl. lia. Qed.
Lemma calls_total_nonneg servers calls : Forall (fun c => admitted_flow servers c.1 c.2) calls -> 0 <= calls_total calls.
Proof. induction 1 as [|c l (_ & ? & _) _ IH]; unfold calls_total in *; simpl; lia. Qed.
Lemma Forall_middle {A} (P : A -> Prop) before a after : Forall P (before ++ a :: after) -> P a /\ Forall P (before ++ after).
Proof. intros [Hb [Ha Hr]%list.Forall_cons]%list.Forall_app. split; [done|]. by apply list.Forall_app. Qed.

Lemma claim_capped p flow w ledger res p' ledger' :
  capped max p -> covers max ledger (se_count (po_spent p)) -> 0 <= reserved flow -> claim p flow w ledger = (res, p', ledger') ->
  capped max p' /\ po_limits p' = po_limits p /\ covers max ledger' (se_count (po_spent p')) /\
  match res with
  | inr _ => se_count (po_spent p') = se_count (po_spent p) + reserved flow /\ reserved flow <= sp_max_txs_per_run (po_limits p)
  | inl _ => se_count (po_spent p') = se_count (po_spent p)
  end.
Proof.
  intros Hp Hc Hn. unfold claim. destruct flow; try by apply (reserve_capped max max_range).
  all: destruct (check_chain p source); [by intros [= <- <- <-]|]; destruct (check_chain p destination); [by intros [= <- <- <-]|].
  all: by apply (reserve_capped max max_range).
Qed.

(** A call that is over hands its reservation back. *)
Lemma budget_give_back i sv sv' before flow after w p ledger m :
  budget_inv m -> mc_servers m !! i = Some sv -> sv_policy sv' = sv_policy sv -> mc_calls m = before ++ (i, flow) :: after ->
  release (sv_policy sv') (reserved flow) w (mc_ledger m) = (p, ledger) ->
  budget_inv (with_calls (before ++ after) (with_server i (set_policy p sv') ledger m)).
Proof.
  intros Hinv Hi Hp Hc Hr. destruct (inv_server _ _ _ Hinv Hi) as (Hcap & Hcov & Hsum). pose proof Hinv as [_ _ Hcalls Hact].
  rewrite Hc in Hcalls, Hsum. apply Forall_middle in Hcalls as [(_ & Hn & _) Hcalls]. rewrite calls_total_middle in Hsum. simpl in *.
  rewrite Hp in Hr. destruct (release_capped max max_range _ _ _ _ _ _ Hcap Hcov (proj1 Hn) Hr) as (Hcap' & Hl & Hcov' & Hle).
  by apply (budget_update i sv); simpl; auto; lia.
Qed.

(** A flow that is over hands back what it did not send. *)
Lemma budget_settle i sv before flow id n after claimed w p ledger runs reports m :
  budget_inv m -> mc_servers m !! i = Some sv -> mc_active m = before ++ mkActive i flow id n :: after ->
  flow_runs (E := E) jittered env_var elsewhere sv flow n (Some claimed) ->
  settle_flow (sv_policy sv) flow claimed w (mc_ledger m) = (p, ledger) ->
  budget_inv (mkMachine ledger reports false (<[i := set_runs runs (set_policy p sv)]> (mc_servers m)) (mc_calls m) (before ++ after)
                (mc_sent m)).
Proof.
  intros Hinv Hi Ha Hf Hr. destruct (inv_server _ _ _ Hinv Hi) as (Hcap & Hcov & Hsum). pose proof Hinv as [_ _ Hcalls Hact].
  rewrite Ha in Hact, Hsum. apply Forall_middle in Hact as [[(Hu & Hn & _) Hsn] Hact]. rewrite active_total_middle in Hsum. simpl in *.
  destruct (runs_honest _ _ _ _ Hf Hu Hn) as [_ Hcl]. specialize (Hcl _ eq_refl). unfold settle_flow in Hr.
  assert (forall x, refund flow claimed = Some x -> 0 <= x <= reserved flow - n) as Hx.
  { intros x Hx. assert (x = saturating_sub (reserved flow) (Z.min claimed (reserved flow))) as -> by (destruct flow; simpl in *; congruence).
    unfold saturating_sub. lia. }
  destruct (refund flow claimed) as [x|].
  - destruct (release_capped max max_range _ _ _ _ _ _ Hcap Hcov (proj1 (Hx x eq_refl)) Hr) as (Hcap' & Hl & Hcov' & Hle).
    specialize (Hx x eq_refl). apply (budget_update i sv); simpl; auto; lia.
  - injection Hr as <- <-. apply (budget_update i sv); simpl; auto; lia.
Qed.

Lemma budget_lose i sv before flow id n after runs m :
  budget_inv m -> mc_servers m !! i = Some sv -> mc_active m = before ++ mkActive i flow id n :: after ->
  budget_inv (with_slot false (before ++ after) (with_server i (set_runs runs sv) (mc_ledger m) m)).
Proof.
  intros Hinv Hi Ha. destruct (inv_server _ _ _ Hinv Hi) as (Hcap & Hcov & Hsum). pose proof Hinv as [_ _ Hcalls Hact].
  rewrite Ha in Hact, Hsum. apply Forall_middle in Hact as [[_ Hsn] Hact]. rewrite active_total_middle in Hsum. simpl in *.
  apply (budget_update i sv); simpl; auto; lia.
Qed.

Lemma budget_registry i sv runs last m :
  budget_inv m -> mc_servers m !! i = Some sv ->
  budget_inv (with_server i (mkServer (sv_network sv) (sv_policy sv) runs last) (mc_ledger m) m).
Proof.
  intros Hinv Hi. destruct (inv_server _ _ _ Hinv Hi) as (Hcap & Hcov & Hsum). destruct Hinv as [? ? Hcalls Hact] eqn:?.
  by apply (budget_update i sv).
Qed.

Lemma budget_die i m : budget_inv m -> budget_inv (without_server i m).
Proof.
  intros [(floor & Hr & Hc & Hs & Hall) Hone Hcalls Hact].
  assert (forall j flow, j <> i -> admitted_flow (mc_servers m) j flow -> admitted_flow (delete i (mc_servers m)) j flow) as Hkeep.
  { intros j flow Hne (Hu & Hn & sv & Hj & Hle). split; [done|]. split; [done|]. exists sv. by rewrite lookup_delete_ne. }
  constructor; simpl.
  - exists floor. split; [done|]. split; [done|]. split; [|by intros j sv [_ Hj]%lookup_delete_Some; apply (Hall j)].
    assert (Forall (fun c : nat * Flow => 0 <= reserved c.2) (mc_calls m)) as Hpos by (eapply List.Forall_impl; [|exact Hcalls]; intros c (_ & ? & _); lia).
    assert (Forall (fun a => 0 <= reserved (av_flow a) - av_sent a) (mc_active m)) as Hleft
      by (eapply List.Forall_impl; [|exact Hact]; intros a [_ ?]; lia).
    pose proof (sum_filter _ (fun c => negb (Nat.eqb c.1 i)) _ Hpos). pose proof (sum_filter _ (fun a => negb (Nat.eqb (av_server a) i)) _ Hleft).
    unfold calls_total, active_total in *. lia.
  - intros j k [svj [_ Hj]%lookup_delete_Some] [svk [_ Hk]%lookup_delete_Some]. apply Hone; [by exists svj|by exists svk].
  - rewrite list.Forall_forall in Hcalls |- *. intros c [Hc0 Hne]%list_elem_of_In%List.filter_In. apply Hkeep; [|by apply Hcalls, list_elem_of_In].
    intros <-. by rewrite Nat.eqb_refl in Hne.
  - rewrite list.Forall_forall in Hact |- *. intros a [Ha0 Hne]%list_elem_of_In%List.filter_In.
    destruct (Hact a) as [Hadm ?]; [by apply list_elem_of_In|]. split; [|done]. apply Hkeep; [|done].
    intros <-. by rewrite Nat.eqb_refl in Hne.
Qed.
Lemma budget_serve i network deny limits readable sv m :
  with_cap limits -> mc_servers m = ∅ -> serve network deny limits readable (mc_ledger m) = Ok sv -> budget_inv m ->
  budget_inv (with_server i sv (mc_ledger m) m).
Proof.
  intros Hl He Hs [(floor & Hr & Hc & Hsum & _) _ Hcalls Hact]. unfold serve in Hs. apply result_bind_ok in Hs as (p & Hp & Hs).
  apply result_bind_ok in Hs as (u & _ & [= <-]). destruct (persistent_capped max max_range _ _ _ _ _ Hl Hr Hc Hp) as (Hcap & Hle & Hcov).
  assert (mc_calls m = []) as Hnc.
  { destruct (mc_calls m) as [|c l]; [done|]. apply list.Forall_cons in Hcalls as [(_ & _ & sv & Hsv & _) _]. by rewrite He in Hsv. }
  assert (mc_active m = []) as Hna.
  { destruct (mc_active m) as [|a l]; [done|]. apply list.Forall_cons in Hact as [[(_ & _ & sv & Hsv & _) _] _]. by rewrite He in Hsv. }
  constructor; simpl; [|rewrite He|by rewrite Hnc|by rewrite Hna].
  - exists (se_count (po_spent p)). split; [apply Hcap|]. split; [done|]. split; [lia|].
    intros j svj [[<- <-]|[_ Hj]]%lookup_insert_Some; [done|]. by rewrite He in Hj.
  - intros j k [svj Hj] [svk Hk]. apply lookup_insert_Some in Hj as [[<- _]|[_ Hj]]; [|done].
    by apply lookup_insert_Some in Hk as [[<- _]|[_ Hk]].
Qed.

Lemma budget_call i sv flow w p ledger m :
  mc_servers m !! i = Some sv -> counting_tool flow -> 0 <= reserved flow ->
  claim (sv_policy sv) flow w (mc_ledger m) = (inr (), p, ledger) -> budget_inv m ->
  budget_inv (with_calls (mc_calls m ++ [(i, flow)]) (with_server i (set_policy p sv) ledger m)).
Proof.
  intros Hi Hu Hn Hcl Hinv. destruct (inv_server _ _ _ Hinv Hi) as (Hcap & Hcov & Hsum). pose proof Hinv as [_ _ Hcalls Hact].
  destruct (claim_capped _ _ _ _ _ _ _ Hcap Hcov Hn Hcl) as (Hcap' & Hl & Hcov' & Hcount & Hrun).
  apply (budget_update i sv); simpl; auto.
  - rewrite calls_total_middle, app_nil_r. simpl. lia.
  - apply list.Forall_app. split; [done|]. apply Forall_singleton. split; [done|]. destruct Hcap as (_ & _ & ?), Hcap' as (_ & _ & ?).
    split; [simpl; lia|]. by exists sv.
Qed.

Lemma budget_send i sv before flow id n after sent claimed m :
  mc_servers m !! i = Some sv -> mc_active m = before ++ mkActive i flow id n :: after ->
  flow_runs (E := E) jittered env_var elsewhere sv flow sent claimed -> n + 1 <= sent -> budget_inv m ->
  budget_inv (count_sent (with_slot (mc_locked m) (before ++ mkActive i flow id (n + 1) :: after) m)).
Proof.
  intros Hi Ha Hf Hn [(floor & Hr & Hc & Hsum & Hall) Hone Hcalls Hact]. rewrite Ha in Hact, Hsum.
  pose proof (Forall_middle _ _ _ _ Hact) as [[Hadm Hsn] Hrest]. destruct (runs_honest _ _ _ _ Hf (proj1 Hadm) (proj1 (proj2 Hadm))) as [Hle _].
  constructor; simpl; [|done|done|].
  - exists floor. split; [done|]. split; [done|]. split; [|done]. rewrite active_total_middle in *. simpl in *. lia.
  - apply list.Forall_app in Hrest as [Hb Hr']. apply list.Forall_app. split; [done|]. constructor; [|done]. simpl. split; [done|lia].
Qed.

Lemma budget_step m m' : step m m' -> budget_inv m -> budget_inv m'.
Proof.
  destruct 1 as [i network deny limits readable sv m Hi Hl [|He] Hserve|i m|i sv key call flow w p ledger m Hi _ Hu Hn Hcl|
    i sv key call flow w v p ledger m Hi _ Hu Hn Hcl|i sv before flow after w p ledger m Hi Hc Hr|before call after m Hc|
    i sv before flow after file now id sv' m Hi Hc Hb|i sv before flow after file now refused sv' w p ledger m Hi Hc Hb Hr|
    i sv before flow id n after sent claimed m Hi Ha Hf Hn|i sv before flow id n after claimed report w p ledger m Hi Ha Hf Hs|
    i sv before flow id n after m Hi Ha|i sv id m Hi Hid|i sv m Hi]; intros Hinv; [done|..].
  - by eapply budget_serve.
  - by apply budget_die.
  - by eapply budget_call.
  - destruct (inv_server _ _ _ Hinv Hi) as (Hcap & Hcov & Hsum). pose proof Hinv as [_ _ Hcalls Hact].
    destruct (claim_capped _ _ _ _ _ _ _ Hcap Hcov Hn Hcl) as (Hcap' & Hl & Hcov' & Hcount).
    apply (budget_update i sv); simpl; auto; lia.
  - by eapply budget_give_back.
  - destruct Hinv as [(floor & Hr & Hcov & Hsum & Hall) Hone Hcalls Hact]. rewrite Hc in Hcalls, Hsum.
    apply Forall_middle in Hcalls as [(_ & ? & _) Hcalls]. rewrite calls_total_middle in Hsum.
    constructor; simpl; [|done..]. exists floor. split; [done|]. split; [done|]. split; [lia|done].
  - destruct (begin_spec _ _ _ _ _ _ _ Hb) as (Hp & _). destruct (inv_server _ _ _ Hinv Hi) as (Hcap & Hcov & Hsum).
    pose proof Hinv as [_ _ Hcalls Hact]. rewrite Hc in Hcalls, Hsum. apply Forall_middle in Hcalls as [Hadm Hcalls].
    rewrite calls_total_middle in Hsum. simpl in *.
    apply (budget_update i sv); simpl; rewrite ?Hp; auto.
    + rewrite active_total_middle, app_nil_r. simpl. lia.
    + apply list.Forall_app. split; [done|]. apply Forall_singleton. split; [done|]. destruct Hadm as (_ & ? & _). simpl. lia.
  - destruct (begin_spec _ _ _ _ _ _ _ Hb) as (Hp & _). by eapply budget_give_back.
  - by eapply budget_send.
  - unfold with_report, with_slot, with_server. simpl. by eapply budget_settle.
  - by eapply budget_lose.
  - by apply budget_registry.
  - by apply budget_registry.
Qed.

Lemma budget_run m : mcp_run (E := E) jittered env_var with_cap counting_tool false elsewhere m -> budget_inv m.
Proof.
  unfold mcp_run. intros Hr. assert (budget_inv fresh_machine) as Hfresh.
  { constructor; simpl; [exists 0|..]; try done; [split; [lia|]|]; [by split|]. by intros i j [? Hi]. }
  revert Hfresh. induction Hr as [|x y z Hxy _ IH]; [done|]. intros Hx. apply IH. by eapply budget_step.
Qed.
End Budget.

(** ** One flow at a time *)

(** A claim of a server on the slot is that of the active flow. *)
Lemma claims_active m i sv :
  slot_inv m -> mc_servers m !! i = Some sv -> 0 < rr_claims (sv_runs sv) ->
  exists a, mc_active m = [a] /\ av_server a = i /\ av_id a = None.
Proof.
  unfold slot_inv. intros Hinv Hi Hpos. destruct (mc_active m) as [|a [|]]; [|destruct Hinv as (_ & _ & Hall)|done].
  - destruct Hinv as [_ Hall]. specialize (Hall i sv Hi). lia.
  - exists a. destruct (Hall i sv Hi) as [Hc _]. unfold claimed_by in Hc. case_bool_decide; [naive_solver|lia].
Qed.

Lemma lock_active m : slot_inv m -> mc_locked m = true -> exists a, mc_active m = [a].
Proof. unfold slot_inv. intros Hinv Hl. destruct (mc_active m) as [|a [|]]; [by destruct Hinv; congruence|by exists a|done]. Qed.
Lemma unlocked_idle m : slot_inv m -> mc_locked m = false -> mc_active m = [].
Proof. unfold slot_inv. intros Hinv Hl. destruct (mc_active m) as [|a [|]]; [done|by destruct Hinv; congruence|done]. Qed.

Lemma begin_outcome m i sv flow file now res sv' :
  slot_inv m -> mc_servers m !! i = Some sv -> begin sv flow file (mc_locked m) now = (res, sv') ->
  match res with
  | inr _ => mc_active m = []
  | inl SlotHeldHere => exists a, mc_active m = [a] /\ av_server a = i /\ av_id a = None
  | inl HeldByAnotherProcess => exists a, mc_active m = [a] /\ (is_Some (flow_kind flow) -> av_server a <> i)
  | inl (RunInFlight _) | inl (LockUnavailable _) => True
  end.
Proof.
  intros Hinv Hi. unfold begin. destruct (flow_kind flow) as [kind|].
  - destruct (start _ _ _ _ _ _) as [[r runs] last] eqn:Hs. apply start_spec in Hs as (_ & _ & Hr).
    destruct r as [[id| | |error]|id]; intros [= <- <-]; [done|by eapply claims_active| |done|].
    + destruct Hr as (Hl & Hc & Hu). destruct (lock_active m Hinv Hl) as [a Ha]. exists a. split; [done|]. intros _ Hsv.
      unfold slot_inv in Hinv. rewrite Ha in Hinv. destruct Hinv as (_ & _ & Hall). destruct (Hall i sv Hi) as [Hcl Hf].
      unfold claimed_by in Hcl. destruct (av_id a) as [id|] eqn:Hid; [|rewrite bool_decide_eq_true_2 in Hcl by done; lia].
      specialize (Hf id Hsv eq_refl). apply unfinished_Some in Hf. by rewrite Hu in Hf.
    + destruct Hr as (Hl & _). by apply unlocked_idle.
  - unfold claim_slot, lock_machine_slot. destruct (Z.ltb_spec 0 (rr_claims (sv_runs sv))).
    + intros [= <- <-]. by eapply claims_active.
    + destruct file; [|by intros [= <- <-]]. destruct (mc_locked m) eqn:Hl; intros [= <- <-].
      * destruct (lock_active m Hinv Hl) as [a Ha]. exists a. split; [done|]. by intros [].
      * by apply unlocked_idle.
Qed.

(** C29: one flow spends at a time on a machine, over any number of servers, calls
    and crashes.  In every state at most one flow is active, and the run lock is
    held exactly when one is.  A tool gets the slot, detached or blocking, only
    when no flow is active.  A refusal that blames a blocking tool of this server
    is right.  A refusal that blames another process means that some flow has the
    slot, and one of another server when the refused tool detaches. *)
Theorem one_flow_at_a_time {E : Type} `{PoolNode E, IntentNode E, McpText, EvmLib, CosmosAccounts, ConfigLib, IntentLib}
    jittered env_var operator used shared elsewhere m :
  mcp_run (E := E) jittered env_var operator used shared elsewhere m ->
  (length (mc_active m) <= 1)%nat /\ (mc_locked m = true <-> mc_active m <> []) /\
  forall i sv flow file now res sv', mc_servers m !! i = Some sv -> begin sv flow file (mc_locked m) now = (res, sv') ->
    match res with
    | inr _ => mc_active m = []
    | inl SlotHeldHere => exists a, mc_active m = [a] /\ av_server a = i /\ av_id a = None
    | inl HeldByAnotherProcess => exists a, mc_active m = [a] /\ (is_Some (flow_kind flow) -> av_server a <> i)
    | inl (RunInFlight _) | inl (LockUnavailable _) => True
    end.
Proof.
  intros Hinv%slot_run. split; [|split].
  - unfold slot_inv in Hinv. by destruct (mc_active m) as [|a [|]]; simpl; [lia..|].
  - unfold slot_inv in Hinv.
    destruct (mc_active m) as [|a [|]]; [destruct Hinv as [-> _]|destruct Hinv as (-> & _)|done]; naive_solver.
  - intros i sv flow file now res sv' Hi Hb. by eapply begin_outcome.
Qed.

(** C28: a lifetime budget holds over any number of restarts and crashes.  When one
    server runs at a time, started with the same cap on its transactions, then
    whatever the agent calls of the tools that send one intent, a round trip or a
    sweep, and whatever the service, the nodes and the disk do, the deposits ever
    handed over are at most the cap, and each flow hands over at most the cap of
    one run.  A ledger that cannot be written or was cut off counts against the
    agent, never for it. *)
Theorem lifetime_budget_holds {E : Type} `{PoolNode E, IntentNode E, McpText, !McpTextLaws, EvmLib, CosmosAccounts, ConfigLib, IntentLib,
    !ApproveBytes, !ShuffleLaw E} jittered env_var max elsewhere m :
  0 <= max < u64_max ->
  mcp_run (E := E) jittered env_var (with_cap max) counting_tool false elsewhere m ->
  mc_sent m <= max /\
  forall a sv, a ∈ mc_active m -> mc_servers m !! av_server a = Some sv ->
    av_sent a <= sp_max_txs_per_run (po_limits (sv_policy sv)).
Proof.
  intros Hmax Hrun. destruct (budget_run jittered env_var max elsewhere Hmax m Hrun) as [(floor & Hf & _ & Hsum & _) _ Hcalls Hact].
  split.
  - pose proof (calls_total_nonneg _ _ _ Hcalls).
    assert (0 <= active_total (mc_active m)); [|lia]. clear -Hact. unfold active_total.
    induction Hact as [|a l [_ Ha] _ IH]; simpl; lia.
  - intros a sv Ha Hsv. rewrite list.Forall_forall in Hact. destruct (Hact a Ha) as [(_ & _ & sv' & Hsv' & Hle) Hsent].
    rewrite Hsv in Hsv'. injection Hsv' as <-. lia.
Qed.
