(* ===== verification/McpRuns.v ===== *)
(** * The MCP server: identifiers of runs and their listing *)

From S2P Require Import Prelude Types Retry Journal Chain Plan Config Target Json Cosmos LoadNet Propose RobustSend SignedCalls Intents IntentRun IntentSafety IntentBounds IntentCaps Pipeline Stress Mcp.

(** ** Prefixes and suffixes of text *)

Lemma strip_prefix_app p s : strip_prefix p (p +:+ s) = Some s.
Proof. induction p as [|c p IH]; simpl; [done|]. by rewrite Ascii.eqb_refl. Qed.

Lemma substring_whole s : String.substring 0 (String.length s) s = s.
Proof. induction s as [|c s IH]; simpl; [done|by rewrite IH]. Qed.
Lemma substring_left x y : String.substring 0 (String.length x) (x +:+ y) = x.
Proof. induction x as [|c x IH]; simpl; [by destruct y|by rewrite IH]. Qed.
Lemma substring_right x y : String.substring (String.length x) (String.length y) (x +:+ y) = y.
Proof. induction x as [|c x IH]; simpl; [apply substring_whole|done]. Qed.
Lemma string_length_app x y : String.length (x +:+ y) = (String.length x + String.length y)%nat.
Proof. induction x as [|c x IH]; simpl; [done|by rewrite IH]. Qed.
Lemma substring_split n s : (n <= String.length s)%nat ->
  s = String.substring 0 n s +:+ String.substring n (String.length s - n) s.
Proof.
  revert n. induction s as [|c s IH]; intros [|n] Hn; simpl in *; try lia; [done| |].
  - change (String c s = String c (String.substring 0 (String.length s) s)). by rewrite substring_whole.
  - change (String c s = String c (String.substring 0 n s +:+ String.substring n (String.length s - n) s)).
    f_equal. apply IH. lia.
Qed.

Lemma strip_suffix_Some suffix s x : strip_suffix suffix s = Some x <-> s = x +:+ suffix.
Proof.
  unfold strip_suffix. split.
  - destruct (Nat.leb_spec (String.length suffix) (String.length s)) as [Hle|]; [|done]. simpl.
    destruct (String.eqb_spec (String.substring (String.length s - String.length suffix) (String.length suffix) s) suffix) as [He|];
      [|done]. intros [= <-]. rewrite <- He at 2. rewrite (substring_split (String.length s - String.length suffix) s) at 1 by lia.
    by replace (String.length s - (String.length s - String.length suffix))%nat with (String.length suffix) by lia.
  - intros ->. rewrite string_length_app. destruct (Nat.leb_spec (String.length suffix) (String.length x + String.length suffix)) as [_|]; [|lia].
    replace (String.length x + String.length suffix - String.length suffix)%nat with (String.length x) by lia.
    by rewrite substring_right, String.eqb_refl, substring_left.
Qed.

(** ** Identifiers *)

Lemma kind_of_prefix kind rest : kind_of (prefix kind +:+ rest) = Some kind.
Proof. by destruct kind. Qed.

Lemma report_file_id name id : from_report_file_name name = Some id <-> name = report_file id /\ is_Some (kind_of id).
Proof.
  unfold from_report_file_name, report_file. split.
  - intros (x & Hx & Hp)%bind_Some. apply strip_suffix_Some in Hx. unfold parse_id in Hp. apply fmap_Some in Hp as (k & Hk & ->).
    split; [done|by exists k].
  - intros [-> [k Hk]]. apply bind_Some. exists id. split; [by apply strip_suffix_Some|]. unfold parse_id. by rewrite Hk.
Qed.

(** An identifier names its kind and the time it was minted, is accepted back, and
    its report file is found again; identifiers of one process ascend. *)
Theorem run_ids_round_trip kind now last :
  0 <= now -> 0 <= last <= u64_max ->
  let '(id, last') := mint kind now last in
  kind_of id = Some kind /\ parse_id id = Some id /\ minted_millis id = last' /\
  from_report_file_name (report_file id) = Some id /\ last <= last' <= u64_max /\ (last < u64_max -> last < last').
Proof.
  intros Hn Hl. unfold mint. cbv zeta. set (millis := Z.max _ _).
  assert (0 <= millis <= u64_max /\ last <= millis /\ (last < u64_max -> last < millis)) as (Hm & Hle & Hlt).
  { unfold millis, saturating_add. change (2 ^ 64 - 1) with u64_max. assert (0 < u64_max) by done. lia. }
  pose proof (kind_of_prefix kind (to_dec millis)) as Hk. split; [done|]. split; [by unfold parse_id; rewrite Hk|]. split.
  - unfold minted_millis. rewrite Hk. simpl. rewrite strip_prefix_app. simpl. rewrite parse_to_dec; [done|].
    change (2 ^ 64) with (u64_max + 1). lia.
  - split; [|by split; [lia|]]. apply report_file_id. split; [done|by exists kind].
Qed.

(** ** The listing *)

#[local] Instance id_le_total : Total id_le.
Proof.
  intros a b. unfold id_le. destruct (Z.lt_total (minted_millis a) (minted_millis b)) as [|[He|]]; [right; by left| |left; by left].
  destruct (String.leb_total a b); [left; by right|right; right; split; [lia|done]].
Qed.

Lemma elem_of_running r id : id ∈ running r <-> rr_in_flight r !! id = Some false.
Proof.
  unfold running. rewrite list_elem_of_fmap. split.
  - intros ([id' b] & -> & Hin). apply elem_of_map_to_list in Hin. unfold unfinished in Hin.
    apply map_lookup_filter_Some in Hin as [Hin Hb]. simpl in *. by subst b.
  - intros Hid. exists (id, false). split; [done|]. apply elem_of_map_to_list. unfold unfinished. by apply map_lookup_filter_Some.
Qed.

(** The identifiers of the report files in the directory. *)
Lemma elem_of_reported (files : gmap string string) id :
  id ∈ omap (fun kv => from_report_file_name kv.1) (map_to_list files) <-> is_Some (files !! report_file id) /\ is_Some (kind_of id).
Proof.
  rewrite list_elem_of_omap. split.
  - intros ([name text] & Hin & Hf). apply elem_of_map_to_list in Hin. simpl in Hf. apply report_file_id in Hf as [-> Hk]. by rewrite Hin.
  - intros [[text Hin] Hk]. exists (report_file id, text). split; [by apply elem_of_map_to_list|]. by apply report_file_id.
Qed.

Lemma NoDup_reported (l : list (string * string)) : NoDup l.*1 -> NoDup (omap (fun kv => from_report_file_name kv.1) l).
Proof.
  induction l as [|[name text] l IH]; simpl; [constructor|]. intros [Hn Hl]%list.NoDup_cons.
  destruct (from_report_file_name name) as [id|] eqn:Hid; [|by apply IH]. apply list.NoDup_cons. split; [|by apply IH].
  intros Hin. apply list_elem_of_omap in Hin as ([name' text'] & Hin & Hid'). simpl in *.
  apply report_file_id in Hid as [-> _]. apply report_file_id in Hid' as [-> _]. apply Hn. apply list_elem_of_fmap.
  by exists (report_file id, text').
Qed.

(** C32: the listing of runs is complete, without repetitions and newest first: a
    run is listed exactly when the directory has its report or its thread is
    still executing here, and it reads as running exactly when it is. *)
Theorem listing_spec r files :
  let entries := (list_runs r files).1 in
  Sorted id_le (map re_run_id entries) /\ NoDup (map re_run_id entries) /\
  (forall id, id ∈ map re_run_id entries <->
     (is_Some (files !! report_file id) /\ is_Some (kind_of id)) \/ rr_in_flight r !! id = Some false) /\
  (forall e, e ∈ entries -> (re_state e = StatusRunning <-> rr_in_flight r !! re_run_id e = Some false) /\ re_kind e = kind_of (re_run_id e)).
Proof.
  cbv zeta. unfold list_runs. set (r' := mkRegistry _ _). cbn [fst].
  assert (forall id, rr_in_flight r' !! id = Some false <-> rr_in_flight r !! id = Some false) as Hsame.
  { intros id. unfold r', unfinished. simpl. rewrite map_lookup_filter_Some. simpl. naive_solver. }
  rewrite map_map. simpl. rewrite map_id. split; [apply Sorted_merge_sort, _|]. split; [|split].
  - rewrite merge_sort_Permutation. unfold known_ids. apply list.NoDup_app. split; [apply NoDup_reported, NoDup_fst_map_to_list|].
    split; [|apply NoDup_ListNoDup, List.NoDup_filter, NoDup_ListNoDup, NoDup_fst_map_to_list].
    intros id Hin Hf. apply list_elem_of_In, List.filter_In in Hf as [_ Hf]. by rewrite bool_decide_eq_true_2 in Hf.
  - intros id. rewrite merge_sort_Permutation. unfold known_ids. rewrite elem_of_app, elem_of_reported. split.
    + intros [Hl|Hr]; [by left|]. apply list_elem_of_In, List.filter_In in Hr as [Hr _]. right. apply Hsame, elem_of_running.
      by apply list_elem_of_In.
    + intros [Hl|Hr]; [by left|].
      destruct (decide (is_Some (files !! report_file id) /\ is_Some (kind_of id))) as [Hl|Hl]; [by left|]. right.
      apply list_elem_of_In, List.filter_In. split; [by apply list_elem_of_In, elem_of_running, Hsame|].
      rewrite bool_decide_eq_false_2; [done|]. by rewrite elem_of_reported.
  - intros e He. apply list_elem_of_In, List.in_map_iff in He as (id & <- & _). simpl. split; [|done]. rewrite <- Hsame. unfold is_running.
    case_bool_decide; naive_solver.
Qed.
