(* ===== verification/Witnesses.v ===== *)
(** * Concrete runs

    Instances of the interfaces on which the theorems are applied: a small
    chain that accepts every transaction at nonce 3, an Axelar network on which
    every contract has one address, an operator who agrees, and a disk that
    always writes.  The environment is a clock and a flag that says whether the
    chain has included the transaction and it failed. *)

From Stdlib Require Ascii String.
From stdpp Require Import pretty.
From S2P Require Import Prelude Types Journal Chain Machine Session Funding State Plan Config Intent EvmRecovery Json Cosmos Target Recovery Verifiers Checkpoints Context EvmSteps CosmosSteps Inputs Steps Checks Preflight Runner Safety Progress Approvals Termination RobustSend.

Module Toy.
Record env0 : Type := mkEnv { time : Z; failing : bool }.

#[export] Instance host : Host env0 := {
  clock := time;
  sleep d e := mkEnv (time e + Z.max 0 d) (failing e);
  ui_confirm _ e := (true, e);
  disk_write e := (Committed, e)
}.

(** A codec for messages: values in a row, lists with their length.  Its
    decoder inverts its encoder. *)
Class Ser (A : Type) : Type := {
  enc : A -> bytes;
  dec : bytes -> option (A * bytes);
  dec_enc a rest : dec (enc a ++ rest) = Some (a, rest)
}.

#[export] Program Instance ser_z : Ser Z := {
  enc z := [z];
  dec l := match l with z :: l => Some (z, l) | [] => None end
}.
Solve Obligations with done.

Fixpoint dec_n {A} (d : bytes -> option (A * bytes)) (n : nat) (l : bytes)
    : option (list A * bytes) :=
  match n with
  | O => Some ([], l)
  | S n =>
      match d l with
      | Some (a, l) => match dec_n d n l with Some (r, l) => Some (a :: r, l) | None => None end
      | None => None
      end
  end.

#[export] Program Instance ser_list `{Ser A} : Ser (list A) := {
  enc l := Z.of_nat (length l) :: concat (map enc l);
  dec b := match b with n :: b => dec_n dec (Z.to_nat n) b | [] => None end
}.
Next Obligation.
  intros A HA l rest. simpl. rewrite Nat2Z.id. induction l as [|x l IH]; simpl; [done|].
  by rewrite <- app_assoc, dec_enc, IH.
Qed.

#[export] Program Instance ser_prod `{Ser A, Ser B} : Ser (A * B) := {
  enc p := enc p.1 ++ enc p.2;
  dec b := match dec b with
           | Some (x, b) => match dec b with Some (y, b) => Some ((x, y), b) | None => None end
           | None => None
           end
}.
Next Obligation. intros A HA B HB [x y] rest. simpl. by rewrite <- app_assoc, !dec_enc. Qed.

(** A type that maps to one with a codec and back. *)
Definition ser_map {A B} `{Ser B} (f : A -> B) (g : B -> A) (Hg : forall a, g (f a) = a) : Ser A.
Proof.
  refine {| enc a := enc (f a);
            dec b := match dec b with Some (x, b) => Some (g x, b) | None => None end |}.
  intros a rest. by rewrite dec_enc, Hg.
Defined.

#[export] Instance ser_option `{Ser A} : Ser (option A).
Proof.
  refine (ser_map (B := list A) option_list (fun l => match l with x :: _ => Some x | [] => None end) _).
  by intros [].
Defined.

Definition string_chars (s : string) : list Z :=
  map (fun c => Z.of_N (Ascii.N_of_ascii c)) (String.list_ascii_of_string s).
Definition chars_string (l : list Z) : string :=
  String.string_of_list_ascii (map (fun z => Ascii.ascii_of_N (Z.to_N z)) l).

Lemma chars_string_chars s : chars_string (string_chars s) = s.
Proof.
  unfold chars_string, string_chars. rewrite map_map.
  rewrite <- (String.string_of_list_ascii_of_string s) at 2. f_equal.
  rewrite <- (map_id (String.list_ascii_of_string s)) at 2. apply map_ext. intros c.
  by rewrite N2Z.id, Ascii.ascii_N_embedding.
Qed.

#[export] Instance ser_string : Ser string.
Proof. exact (ser_map string_chars chars_string chars_string_chars). Defined.
#[export] Instance ser_any : Ser Any.
Proof.
  refine (ser_map (fun a => (type_url a, any_value a)) (fun p => mkAny p.1 p.2) _). by intros [].
Defined.
#[export] Instance ser_coin : Ser Coin.
Proof.
  refine (ser_map (fun c => (coin_denom c, coin_amount c)) (fun p => mkCoin p.1 p.2) _). by intros [].
Defined.
#[export] Instance ser_fee : Ser Fee.
Proof.
  refine (ser_map (fun f => (fee_amount f, fee_gas_limit f, fee_payer f, fee_granter f))
    (fun p => mkFee p.1.1.1 p.1.1.2 p.1.2 p.2) _). by intros [].
Defined.
#[export] Instance ser_info : Ser SignerInfo.
Proof.
  refine (ser_map (fun i => (si_public_key i, si_mode_info i, si_sequence i))
    (fun p => mkSignerInfo p.1.1 p.1.2 p.2) _). by intros [].
Defined.
#[export] Instance ser_auth : Ser AuthInfo.
Proof.
  refine (ser_map (fun a => (signer_infos a, auth_fee a, auth_tip a))
    (fun p => mkAuthInfo p.1.1 p.1.2 p.2) _). by intros [].
Defined.
#[export] Instance ser_tx_raw : Ser TxRaw.
Proof.
  refine (ser_map (fun t => (body_bytes t, auth_info_bytes t, signatures t))
    (fun p => mkTxRaw p.1.1 p.1.2 p.2) _). by intros [].
Defined.

Definition unpack `{Ser A} (b : bytes) : option A := fst <$> dec b.

Lemma unpack_pack `{Ser A} (a : A) : unpack (enc a) = Some a.
Proof. unfold unpack. rewrite <- (app_nil_r (enc a)), dec_enc. done. Qed.

Definition envelope (body : Z * option Z * bytes) : TxEnvelope :=
  mkEnvelope body.1.1 body.1.1 (Some 5) body.1.2 0 body.2 1 1 None None 2 None None None.

#[export] Instance evm_lib : EvmLib := {
  keccak256 b := default 0 (head b);
  b256_to_string := pretty;
  parse_u256 := parse_uint 256;
  u256_to_string := to_dec;
  signer_address _ := Some 7;
  decode_2718 raw := envelope <$> unpack raw;
  encoded_2718 e := enc (tx_nonce e, tx_to e, tx_input e);
  recover_address _ := Some 7;
  from_transaction_with_sender e s :=
    mkRequest (Some s) (Some (match tx_to e with Some a => CallTo a | None => Create end)) None
      (Some (tx_max_fee_per_gas e)) None (Some (tx_gas_limit e)) (Some (tx_value e))
      (Some (tx_input e)) (Some (tx_nonce e)) (tx_chain_id e) None None None
}.

Definition failed_receipt (h : B256) : Receipt := mkReceipt h (Some 1) (Some 77) false None [].

#[export] Instance evm_node : EvmNode env0 := {
  eth_chain_id e := (Ok 5, e);
  eth_get_transaction_count _ e := (Ok 3, e);
  eth_get_transaction_receipt h e :=
    (Ok (if failing e then Some (failed_receipt h) else None), e);
  eth_knows_transaction _ e := (Ok false, e);
  eth_send_raw_transaction raw e := (Ok (default 0 (head raw)), e);
  eth_get_block t e :=
    (Ok (Some (mkBlock (match t with TagNumber n => n | _ => 100 end) 77)), e);
  eth_gas_price e := (Ok 1, e);
  eth_get_balance _ e := (Ok 1000, e);
  eth_call _ e := (Ok (), e);
  fill_and_sign _ r e :=
    (Ok (envelope (3, match rq_to r with Some (CallTo a) => Some a | _ => None end,
                   default [] (rq_input r))), e)
}.

#[export] Instance clock_laws : ClockLaws env0.
Proof. split; intros; simpl; lia. Qed.

#[export] Instance lcd_node : LcdNode env0 := {
  lcd_get_account _ _ e := (Ok (Some (1, 0)), e);
  lcd_get_balance _ _ _ e := (Ok 5000, e);
  lcd_post_tx _ _ e := (Ok (Some 0), e);
  lcd_post_simulate _ _ e := (Ok (None, Some "5"), e);
  lcd_get_tx _ _ e := (Ok (404, None), e);
  lcd_node_network _ e := (Ok (Some "axelar-dojo"), e);
  lcd_voting_period _ e := (Ok "1d", e)
}.

#[export] Instance accounts : CosmosAccounts := {
  account_prefix _ := Some "axelar";
  wallet_address m := Some m;
  parse_address v := parse_uint 160 v
}.

#[export] Instance signer_lib : SignerLib := {
  pubkey_address v := parse_uint 160 v;
  signers_abi l t n := t :: n :: concat (map (fun s => [s.1; s.2]) l)
}.

#[export] Instance deploy_node : DeployNode env0 := {
  eth_get_code _ e := (Ok [1], e);
  mc_owner _ _ e := (Ok 1, e);
  mc_implementation _ _ e := (Ok 1, e);
  mc_operator _ _ e := (Ok 1, e);
  mc_epoch _ _ e := (Ok 1, e);
  mc_signers_hash _ _ _ e := (Ok 1, e);
  mc_rotation_delay _ _ e := (Ok 0, e);
  prover_set _ _ e := (Ok None, e);
  registry_service _ _ _ _ e := (Ok (mkService 1 None), e)
}.

(** The target file: one address for every contract. *)
Definition contract0 : Json :=
  JObj [("address", JStr "addr"); ("storeCodeProposalCodeHash", JStr "ab")].
Definition root0 : Json :=
  JObj [ ("chains", JObj [("toy", JObj [("chainId", JNum 5); ("axelarId", JStr "toy");
                                        ("contracts", JObj [])])]);
         ("axelar", JObj
           [ ("governanceAddress", JStr "axelar1admin");
             ("contracts", JObj ((fun n => (n, contract0)) <$>
                (protocol_names ++ ["Gateway"; "VotingVerifier"; "MultisigProver"]))) ]) ].

#[export] Instance target_file : TargetFile env0 := {
  read_target_file e := (Ok root0, e);
  write_target_file _ e := (Ok (), e)
}.

#[export] Instance config_lib : ConfigLib := {
  chains_config _ := Some (mkChainsConfig (<["toy" := mkChainConfig (Some "toy") None None None None None]> ∅)
    (mkAxelarConfig (Some "axelar-dojo") (Some "lcd") None (Some "1uaxl") None None None None));
  parse_price _ := Some (mkGasPrice true (fun gas => gas));
  address_to_string := to_dec;
  address_json := pretty
}.

#[export] Instance step_lib : StepLib := {
  abi_address a := [a];
  abi_string s := string_chars s;
  abi_gateway_constructor a b c := [a; b; c];
  abi_proxy_constructor a b c := a :: b :: c;
  abi_its_constructor a b c d e f g h i := [a; b; c; d; e; h; i];
  abi_its_setup a _ _ := [a];
  abi_setup_params a _ t n := [a; t; n];
  deploy_calldata b salt := salt :: b;
  deploy_and_init_calldata b salt i := salt :: b ++ i;
  create3_calldata b salt := salt :: b;
  init_calldata a b c := a :: b :: c;
  add_operator_calldata a := [a];
  transfer_ownership_calldata a := [a];
  update_value_calldata z := [z];
  data_dir := "/data"
}.

#[export] Instance step_node : StepNode env0 := {
  read_artifact_bytecode _ e := (Ok [1], e);
  read_artifact_runtime_hash _ e := (Ok 1, e);
  deployed_address _ _ _ _ e := (Ok 1, e);
  is_operator _ _ e := (Ok true, e);
  eth_get_storage_at _ _ e := (Ok 0, e);
  eth_call_create _ _ e := (Ok [1], e);
  eth_pending_count _ e := (Ok 3, e);
  system_time e := (1000, e);
  eth_syncing e := (inr (JBool false), e);
  eth_block_number e := (Ok 100, e);
  eth_header _ e := (Ok (Some (mkHeader 100 1000 77 76)), e);
  eth_fee_history e := (Ok 2, e);
  eth_estimate_gas _ e := (Ok 50000, e);
  probe_value _ e := (Ok 42, e);
  eth_transaction_to _ e := (Ok None, e);
  eth_get_logs _ _ _ e := (Ok [], e)
}.

#[export] Instance ser_execute : Ser ExecuteContract.
Proof.
  refine (ser_map (fun e => (ex_sender e, ex_contract e, ex_msg e, ex_funds e))
    (fun p => mkExecute p.1.1.1 p.1.1.2 p.1.2 p.2) _). by intros [].
Defined.
#[export] Instance ser_bool : Ser bool.
Proof. refine (ser_map (fun b : bool => if b then 1 else 0) (fun z => z =? 1) _). by intros []. Defined.
#[export] Instance ser_proposal : Ser SubmitProposal.
Proof.
  refine (ser_map (fun p => (pr_messages p, pr_initial_deposit p, pr_proposer p, pr_title p, pr_summary p,
                             pr_expedited p))
    (fun p => mkProposal p.1.1.1.1.1 p.1.1.1.1.2 p.1.1.1.2 p.1.1.2 p.1.2 p.2) _). by intros [].
Defined.

(** Text of the JSON values the messages below use. *)
Definition json_text (v : Json) : bytes := match v with JStr s => 2 :: string_chars s | _ => [1] end.
Definition text_json (b : bytes) : option Json :=
  match b with 2 :: l => Some (JStr (chars_string l)) | [1] => Some JNull | _ => None end.

#[export] Instance message_lib : MessageLib := {
  json_bytes := json_text;
  json_of_bytes := text_json;
  base64_encode := chars_string;
  base64_decode s := Some (string_chars s);
  encode_execute := enc;
  decode_execute := unpack;
  encode_proposal := enc;
  decode_proposal := unpack;
  active_verifiers _ := Some []
}.

(** A proposal of one execution, as governance shows it. *)
Definition execution0 : Execution := mkExecution "axelar1gov" "coordinator" (JStr "instantiate") [mkCoin "uaxl" "3"].
Definition proposal0 : Json :=
  JObj [ ("status", JStr "PROPOSAL_STATUS_PASSED"); ("title", JStr "connect toy"); ("expedited", JBool false);
         ("messages", JArr [JObj
           [ ("@type", JStr "/cosmwasm.wasm.v1.MsgExecuteContract"); ("sender", JStr "axelar1gov");
             ("contract", JStr "coordinator"); ("msg", JStr (chars_string (json_text (JStr "instantiate"))));
             ("funds", JArr [JObj [("denom", JStr "uaxl"); ("amount", JStr "3")]]) ]]) ].

Definition answer0 (query : Json) : QueryError + Json :=
  match query with
  | JObj [("chains", _)] => inr (JArr [])
  | JObj [("its_chain", _)] => inr JNull
  | JObj [("deployment", JObj [("deployment_name", JStr name)])] =>
      inl (Some (500, Some (2, "deployment " +:+ name +:+ " not found: none")%string))
  | _ => inl None
  end.

#[export] Instance cosmos_node : CosmosNode env0 := {
  smart_query _ _ q e := (answer0 q, e);
  lcd_proposal _ id e := (Ok (if id =? 9 then proposal0 else JNull), e);
  lcd_min_deposit _ e := (Ok [mkCoin "uaxl" "10"], e);
  lcd_code_page _ _ e := (Ok (mkCodePage (Some [(Some "AB", Some "1")]) None), e);
  lcd_code_permissions _ _ e := (Ok (Everybody, []), e);
  lcd_contract_info _ _ e := (Ok (404, Some (5, "not found"), None), e);
  lcd_prover_admin _ _ e := (Ok "axelar1admin", e)
}.

#[export] Instance check_node : CheckNode env0 := {
  raw_gateway_config _ _ e := (Ok ("addr", "addr"), e);
  raw_verifier_config _ _ e := (Err (Failed "absent"), e);
  raw_prover_config _ _ e := (Err (Failed "absent"), e);
  raw_protocol _ _ e := (Ok (mkProtocolContracts "addr" "addr" "addr"), e);
  raw_proxy_coordinator _ _ e := (Ok "addr", e);
  raw_rewards_denom _ _ e := (Ok "uaxl", e);
  raw_governor _ _ e := (Ok "axelar1admin", e);
  lcd_contract_meta _ _ e := (Ok (mkContractMeta "1" "c" "a"), e);
  lcd_code_meta _ _ e := (Ok ("1", "00112233445566778899aabbccddeeff00112233445566778899aabbccddeeff"), e)
}.

Definition abi0 : Json :=
  JArr ((fun f => JObj [("type", JStr "function"); ("name", JStr f)]) <$>
    ["epoch"; "signersHashByEpoch"; "owner"; "operator"; "transferOwnership"; "implementation";
     "isOperator"; "addOperator"]).
Definition artifact0 : Json :=
  JObj [("abi", abi0); ("bytecode", JStr "01"); ("deployedBytecode", JStr "01")].

#[export] Instance artifact_files : ArtifactFiles env0 := { read_artifact_json _ e := (Ok artifact0, e) }.

#[export] Instance input_files : InputFiles env0 := {
  read_source_artifact _ e := (Ok artifact0, e);
  read_inputs_file e := (Ok [1], e);
  write_inputs_file _ e := (Ok (), e);
  write_artifact_file _ _ e := (Ok (), e)
}.

Definition pins0 : Pins :=
  <["Gateway" := "ab"]> (<["VotingVerifier" := "ab"]> (<["MultisigProver" := "ab"]> ∅)).
#[export] Instance input_lib : InputLib := {
  decode_snapshot _ := Some (mkSnapshot 1 ∅ pins0 None);
  encode_snapshot _ := [1]
}.

#[export] Instance cosmos_lib : CosmosLib := {
  cosmos_tx_hash _ := "HASH";
  decode_tx_raw := unpack;
  encode_tx_raw := enc;
  decode_auth_info := unpack;
  encode_auth_info := enc;
  encode_body := enc;
  decode_body := unpack;
  encode_sign_doc d := sd_body_bytes d ++ sd_auth_info_bytes d;
  decode_proposal_deposit _ := Some [];
  decode_execute_funds _ := Some [];
  previewable _ := true;
  key_account k := Some k;
  key_any k := Some (mkAny k []);
  mode_direct := [1];
  sign_bytes _ _ := Some [9];
  verify_bytes _ _ _ := true;
  valid_denom _ := true;
  valid_chain_id _ := true;
  intent_json _ _ _ _ := [2]
}.

#[export] Instance cosmos_codec : CosmosCodec.
Proof. split; intros; apply unpack_pack. Qed.

(** ** A deployment *)

Definition plan0 : Plan :=
  mkPlan 5 "axelar-dojo" 11 12 13 14 15 16 "axelar1admin" [] "1000" "1000" "10" (2, 3) (2, 3) 10 1.

Definition state0 : State :=
  mkState "toy" "http://rpc" "target.json" "" (Some plan0) None DevnetAmplifier "salt"
    None None None None None None None None None None None ∅ (approved_steps plan0).

Definition lookup0 (name : string) : option string :=
  if decide (name = "AXELAR_LCD_URL") then None else Some "axelar1admin".
Definition scheme0 (_ : string) : option string := Some "http".

Definition fuel0 : nat := 4.
Definition probe : string := "deploy compatibility probe".
Definition probe_key : string := "EvmCompatibilityCheck/deploy compatibility probe".
Definition probe_code : bytes := default [] (hex_decode TEST_CONTRACT_BYTECODE).
Definition request0 : TransactionRequest := with_deploy_code probe_code.
Definition probe_raw : bytes := enc (3, @None Z, probe_code).

Definition options0 : Options := mkOptions false None 10 None None None None None.
Definition options1 : Options := mkOptions false None 10 None None (Some probe_key) None None.

Definition init0 : Journal := fresh_journal 1.

(** A first run sends the probe and pauses while it is pending. *)
Abbreviation trace0 :=
  (run_trace lookup0 scheme0 fuel0 options0 None (mkEnv 0 false) init0 state0 None).
Definition journal1 : Journal := disk_of init0 trace0.

(** A second run finds that it failed, and retires it on request. *)
Abbreviation trace1 :=
  (run_trace lookup0 scheme0 fuel0 options1 (Some journal1) (mkEnv 100 true)
    journal1 state0 None).
Definition journal2 : Journal := disk_of journal1 trace1.
End Toy.

(** ** Witnesses of the theorems on runs *)

Section RunWitnesses.
Import Toy.

Definition life (init : Journal) (hist : list Session.event) (j : Journal) : Prop :=
  lifetime lookup0 scheme0 init hist j.

Lemma life_run od o e t init hist j :
  life init hist j -> starts od j ->
  run_trace lookup0 scheme0 fuel0 o od e j state0 None = t ->
  life init (t ++ hist) (disk_of j t).
Proof. intros Hl Hs Ht. eapply (lt_run _ _ init hist j od fuel0 o e state0 None []); [done|done|exact Ht]. Qed.

Lemma life1 : life init0 (trace0 ++ []) journal1.
Proof.
  unfold journal1. apply (life_run None options0 (mkEnv 0 false)); [constructor| |reflexivity].
  exact (conj eq_refl (conj eq_refl eq_refl)).
Qed.

Lemma life2 : life journal1 (trace1 ++ []) journal2.
Proof.
  unfold journal2. apply (life_run (Some journal1) options1 (mkEnv 100 true)); [constructor|exact eq_refl|reflexivity].
Qed.

Lemma no_journal : starts None init0.
Proof. exact (conj eq_refl (conj eq_refl eq_refl)). Qed.

(** The probe is sent, and its bytes are on disk by then. *)
Lemma write_ahead_witness :
  trace0 = [] ++ SentEvm probe_raw :: tail trace0 /\ on_record probe_raw (disk_of init0 (tail trace0)).
Proof.
  assert (trace0 = [] ++ SentEvm probe_raw :: tail trace0) as Ht by (vm_compute; reflexivity).
  split; [exact Ht|].
  exact (write_ahead lookup0 scheme0
    fuel0 options0 None (mkEnv 0 false) init0 state0 None [] (SentEvm probe_raw) (tail trace0)
    no_journal Ht).
Defined.

Lemma journal_refines_machine_witness :
  exists j1, absorbs (observed (drop 2 trace0)) (disk_of init0 (drop 2 trace0)) j1 /\
    jstep (observed (drop 2 trace0)) j1 journal1.
Proof.
  assert (trace0 = [SentEvm probe_raw] ++ Wrote journal1 :: drop 2 trace0) as Ht
    by (vm_compute; reflexivity).
  exact (journal_refines_machine lookup0
    scheme0 fuel0 options0 None (mkEnv 0 false) init0 state0 None [SentEvm probe_raw] journal1
    (drop 2 trace0) no_journal Ht).
Defined.

(** After the first run the probe may yet succeed; no node answered anything
    that disproves it. *)
Lemma nothing_disproved h c : ~ (known init0 (trace0 ++ []) h c /\ proves_failure c = true).
Proof.
  intros [[Hc|Hc] _].
  - by vm_compute in Hc.
  - assert (forallb (fun ev => negb (is_answer ev)) (trace0 ++ []) = true) as Hno by (vm_compute; reflexivity).
    rewrite forallb_forall in Hno.
    destruct c as [r|n k response]; [destruct Hc as (_ & Hin & _)|destruct Hc as (lcd & http & actual & text & Hin & _)];
      apply list_elem_of_In, Hno in Hin; discriminate Hin.
Qed.

Lemma at_most_once_witness :
  (exists tx, tx ∈ recorded journal1 probe_key /\ raw_of tx = probe_raw) /\
  forall key a b, a ∈ recorded journal1 key -> b ∈ recorded journal1 key ->
    raw_of a = probe_raw -> raw_of b = probe_raw -> raw_of a = raw_of b.
Proof.
  split.
  { unfold recorded. destruct (actions journal1 !! probe_key) as [tx|] eqn:Htx.
    - exists tx. split; [apply elem_of_app; right; by apply list_elem_of_singleton|]. vm_compute in Htx. by injection Htx as <-.
    - vm_compute in Htx. discriminate Htx. }
  apply (at_most_once lookup0 scheme0 init0 (trace0 ++ []) journal1 (fun tx => raw_of tx = probe_raw)
    life1 eq_refl).
  - intros a b Ha Hb _. congruence.
  - intros key failed c _ Hk Hf. destruct (nothing_disproved _ _ (conj Hk Hf)).
Defined.

Lemma recorded_forever_witness : recorded journal1 probe_key ⊆ recorded journal2 probe_key.
Proof.
  exact (recorded_forever lookup0 scheme0
    journal1 (trace1 ++ []) journal2 probe_key life2).
Defined.

Lemma cleared_only_on_proof_witness :
  exists tx, actions journal1 !! probe_key = Some tx /\
  exists failed c,
    failed ∈ recorded journal2 probe_key /\ group_of failed = group_of tx /\
    known journal1 (trace1 ++ []) (hash_key failed) c /\ proves_failure c = true.
Proof.
  assert (exists tx, actions journal1 !! probe_key = Some tx) as [tx Htx].
  { destruct (actions journal1 !! probe_key) as [tx|] eqn:Htx; [by exists tx|].
    vm_compute in Htx. discriminate Htx. }
  assert (actions journal2 !! probe_key = None) as Hnone by (vm_compute; reflexivity).
  exists tx. split; [exact Htx|].
  exact (cleared_only_on_proof lookup0
    scheme0 journal1 (trace1 ++ []) journal2 probe_key tx life2 Htx Hnone).
Defined.

(** The same first run over a saved state. *)
Definition file0 : State := persisted state0.
Abbreviation after0 := (file_after lookup0 scheme0 fuel0 options0 None (mkEnv 0 false) init0 state0 (Some file0)).

Lemma run_keeps_plan_witness :
  exists f', after0 = Some f' /\ hardened_fingerprint f' = Some 1 /\ validate_steps f' = Ok ().
Proof.
  assert (validate_steps file0 = Ok ()) as Hv by (vm_compute; reflexivity).
  destruct (run_keeps_plan lookup0 scheme0 fuel0 options0 None (mkEnv 0 false) init0 state0 file0 Hv)
    as (f' & Hf & Hv' & _).
  exists f'. split; [exact Hf|]. split; [|exact Hv'].
  assert (hardened_fingerprint <$> after0 = Some (Some 1)) as Hfp by (vm_compute; reflexivity).
  rewrite Hf in Hfp. injection Hfp as Hfp. exact Hfp.
Defined.

Definition checkpoint_index : nat :=
  default 0%nat (position (fun s => bool_decide (step_name s = "WaitForVerifierSet")) (approved_steps plan0)).

Lemma checkpoint_witness :
  exists f', after0 = Some f' /\
    exists s', steps f' !! checkpoint_index = Some s' /\ step_name s' = "WaitForVerifierSet" /\
      step_status s' = Pending.
Proof.
  destruct after0 as [f'|] eqn:Hf; [|vm_compute in Hf; discriminate Hf].
  exists f'. split; [reflexivity|].
  refine (checkpoint_needs_activate lookup0 scheme0 fuel0 options0 None (mkEnv 0 false) init0 state0
    file0 f' checkpoint_index (mkStep "WaitForVerifierSet" Pending WaitVerifierSet) _ _ _ Hf);
    [reflexivity|vm_compute; reflexivity|reflexivity].
Defined.

Lemma run_ok_saved_witness :
  exists r', run lookup0 scheme0 fuel0 options0 None (start_run (mkEnv 0 false) init0 state0 None)
               = (Ok (), r') /\ state_file r' = Some (persisted (rs r')).
Proof.
  destruct (run lookup0 scheme0 fuel0 options0 None (start_run (mkEnv 0 false) init0 state0 None))
    as [[[]|e] r'] eqn:Hr; [|exfalso; apply (f_equal fst) in Hr; vm_compute in Hr; discriminate Hr].
  exists r'. split; [reflexivity|].
  exact (proj1 (run_ok_saved lookup0 scheme0 fuel0 options0 None _ r' Hr)).
Defined.

Definition session0 : Session := mkSession plan0 options0.
Definition scope0 : Scope := mkScope (Some session0) "EvmCompatibilityCheck" "key".

Lemma send_terminates_witness :
  configured_wait scope0 <= 5 * Z.of_nat 3 /\
  (send 4 true scope0 request0 probe (mkWorld (mkEnv 0 false) init0 init0 [])).1 <> Err OutOfFuel.
Proof.
  split; [vm_compute; discriminate|].
  apply (send_terminates 3 true scope0 request0 probe). vm_compute. discriminate.
Defined.
End RunWitnesses.

(** ** Witnesses of the component theorems *)

Section ComponentWitnesses.
Import Toy.

Definition evm_tx (nonce : Z) (cost : string) : Transaction := EvmTx 1 [nonce] nonce 7 nonce cost.
Definition two_actions : Journal :=
  set_actions (<["a" := evm_tx 3 "5"]> (<["b" := evm_tx 4 "6"]> ∅)) (fresh_journal 1).

Lemma liability_bounds_spend_witness :
  liability two_actions 7 None = Ok 11 /\ zsum [(3, 5); (4, 6)].*2 <= 11.
Proof.
  assert (liability two_actions 7 None = Ok 11) as Hl by (vm_compute; reflexivity).
  split; [exact Hl|].
  apply (liability_bounds_spend two_actions 7 11 [(3, 5); (4, 6)] Hl).
  - repeat constructor; set_solver.
  - intros nonce cost [Heq|[Heq|Hin]%elem_of_cons]%elem_of_cons; [| |set_solver]; injection Heq as -> ->.
    + exists (evm_tx 3 "5"). split; [|reflexivity]. vm_compute. left.
    + exists (evm_tx 4 "6"). split; [|reflexivity]. vm_compute. right. left.
Defined.

Lemma check_budget_witness :
  exists t budget, parse_u256 (evm_gas_budget plan0) = Some budget /\ t <= budget /\
    liability (set_actions (<["c" := evm_tx 5 "7"]> (actions two_actions)) two_actions) 7 None = Ok t.
Proof.
  refine (proj1 (check_budget_keeps_budget plan0 two_actions 7 7 "c" (evm_tx 5 "7") 1 [5] 5 5 "7"
    eq_refl _ _) _).
  - vm_compute. reflexivity.
  - lia.
  - split; vm_compute; reflexivity.
Defined.

Definition cosmos_tx (fee : string) : Transaction := CosmosTx 1 [1] "HASH" "axelar1me" fee 4.

Lemma check_fee_budget_witness :
  exists t budget, parse_uint 128 (cosmos_fee_budget plan0) = Some budget /\ t <= budget /\
    (actions two_actions !! "c" = None ->
     fee_liability (set_actions (<["c" := cosmos_tx "7"]> (actions two_actions)) two_actions)
       "axelar1me" None = Ok t) /\
    (forall old, actions two_actions !! "c" = Some old ->
     fee_liability (push_attempt "c" old
       (set_actions (<["c" := cosmos_tx "7"]> (actions two_actions)) two_actions)) "axelar1me" None
       = Ok t).
Proof.
  apply (check_fee_budget_keeps_budget plan0 two_actions "axelar1me" 4 7 "c" (cosmos_tx "7")
    1 [1] "HASH" "7" eq_refl); vm_compute; reflexivity.
Defined.

Definition full_request (value : Z) : TransactionRequest :=
  mkRequest (Some 7) (Some (CallTo 9)) None (Some 2) None (Some 21000) (Some value) (Some [1; 2])
    (Some 3) (Some 5) None None None.

Lemma intent_bytes_injective_witness :
  exists b b', intent_bytes (full_request 1) = Ok b /\ intent_bytes (full_request 2) = Ok b' /\
    (b = b' <-> same_execution (full_request 1) (full_request 2)).
Proof.
  eexists _, _. split; [reflexivity|]. split; [reflexivity|].
  apply (intent_bytes_injective (full_request 1) (full_request 2));
    [vm_compute; intuition discriminate..|reflexivity|reflexivity].
Defined.

Definition signed_tx (fee : Z) : Transaction :=
  match build_and_sign_cosmos_tx "axelar1me"
          (mkSignInput "axelar-dojo" 1 4 10 fee "uaxl" [mkAny "/m" [1]]) with
  | Ok raw => CosmosTx 1 raw "HASH" "axelar1me" (to_dec fee) 4
  | Err _ => cosmos_tx "0"
  end.

Lemma resign_fee_only_witness :
  exists new, resign (signed_tx 5) "axelar1me" "axelar-dojo" 1 8 = Ok new /\
  exists intent raw hash sender old_fee sequence raw' body info tip denom gas payer granter old,
    signed_tx 5 = CosmosTx intent raw hash sender old_fee sequence /\
    new = CosmosTx intent raw' (cosmos_tx_hash raw') sender (to_dec 8) sequence /\
    signed_as raw body info tip denom old_fee gas payer granter /\
    signed_as raw' body info tip denom (to_dec 8) gas payer granter /\
    si_sequence info = sequence /\
    parse_uint 128 old_fee = Some old /\ parse_uint 128 (to_dec 8) = Some 8 /\ old < 8.
Proof.
  destruct (resign (signed_tx 5) "axelar1me" "axelar-dojo" 1 8) as [new|e] eqn:Hr;
    [|vm_compute in Hr; discriminate Hr].
  exists new. split; [reflexivity|].
  apply (resign_fee_only (signed_tx 5) "axelar1me" "axelar-dojo" 1 8 new Hr). lia.
Defined.

Definition prover_set0 : ProverSet :=
  mkProverSet "set" (<["axelar1a" := mkSigner "axelar1a" "30" (ANumber 2)]>
    (<["axelar1b" := mkSigner "axelar1b" "20" (AText "1")]> ∅)) (ANumber 2) 9.

Lemma validate_set_witness :
  exists r, validate_set prover_set0 (mkService 1 (Some 5)) (2, 3) = Ok r /\
    signers r = [(20, 1); (30, 2)] /\ threshold r <= zsum (map snd (signers r)) < 2 * threshold r.
Proof.
  destruct (validate_set prover_set0 (mkService 1 (Some 5)) (2, 3)) as [r|e] eqn:Hr;
    [|vm_compute in Hr; discriminate Hr].
  exists r. split; [reflexivity|]. split; [vm_compute in Hr; injection Hr as <-; reflexivity|].
  assert (valid_threshold (2, 3) = true) as Ht by reflexivity.
  pose proof (validate_set_spec prover_set0 (mkService 1 (Some 5)) 2 3 r Hr Ht) as Hs.
  destruct Hs as (_ & _ & _ & _ & _ & Hq & _). exact Hq.
Defined.

Lemma policy_roundtrip_witness :
  Policy.from_str (Policy.fmt (Confirmations 12)) = Ok (Confirmations 12).
Proof. apply (PolicyFacts.policy_roundtrip (Confirmations 12)). simpl. lia. Defined.

Lemma read_paths_witness :
  exists r, read_paths (Some DevnetAmplifier) [mkCandidate "a" true true state0] = Ok r /\
    r = Some state0.
Proof.
  eexists. split; [reflexivity|].
  apply (read_paths_keeps_history (Some DevnetAmplifier) [mkCandidate "a" true true state0] _ eq_refl)
    with (c := mkCandidate "a" true true state0); [left|reflexivity|vm_compute; reflexivity].
Defined.

(** An environment that spells every setting out. *)
Definition settings (name : string) : option string :=
  if decide (name ∈ ["CHAIN_ID"; "GATEWAY_OWNER"; "OPERATORS_OWNER"; "GAS_SERVICE_OWNER";
                     "ITS_OWNER"; "FACTORY_OWNER"; "GATEWAY_OPERATOR"; "EVM_GAS_BUDGET";
                     "COSMOS_FEE_BUDGET"; "REWARD_AMOUNT"; "BLOCK_EXPIRY"; "CONFIRMATION_HEIGHT"])
  then Some "7" else Some "axelar-dojo".

Lemma load_witness :
  exists p, load settings Testnet None = Ok p /\
    validate p = Ok () /\ validate_network_thresholds p Testnet = Ok () /\
    Forall (fun name => value settings name <> "") FIELDS.
Proof.
  destruct (load settings Testnet None) as [p|e] eqn:Hl; [|vm_compute in Hl; discriminate Hl].
  exists p. split; [reflexivity|]. exact (load_spec settings Testnet None p Hl).
Defined.

Lemma validate_state_witness :
  exists s', validate_state scheme0 (load_missing_environment lookup0 state0) = Ok s' /\
    has_role_keys s'.
Proof.
  destruct (validate_state scheme0 (load_missing_environment lookup0 state0)) as [s'|e] eqn:Hv;
    [|vm_compute in Hv; discriminate Hv].
  exists s'. split; [reflexivity|].
  exact (proj1 (validate_state_spec scheme0 (load_missing_environment lookup0 state0) s' Hv)).
Defined.

Lemma progress_keeps_plan_witness :
  exists s', mark_step_completed state0 0 = Some s' /\ validate_steps s' = Ok ().
Proof.
  eexists. split; [reflexivity|].
  refine (progress_keeps_plan state0 _ _ _); [|vm_compute; reflexivity].
  eapply rtc_once, (pg_complete state0 0); reflexivity.
Defined.

Lemma signer_for_witness :
  exists key, signer_for (load_missing_environment lookup0 state0) "AxelarGateway" = Ok key /\
    ("AxelarGateway" ∈ unsigned_steps -> key = "").
Proof.
  apply (signer_for_total (load_missing_environment lookup0 state0) plan0
    (pending_step "AxelarGateway" (DeployGateway None))).
  - repeat split; vm_compute; eexists; reflexivity.
  - do 10 (apply elem_of_cons; right). apply elem_of_cons. left. reflexivity.
Defined.

Lemma create_address_witness :
  compute_create_address 7 300 =
    keccak256 (Rlp.encode (Rlp.Lst [be_bytes 20 7; Rlp.uint 300])) mod 2 ^ 160.
Proof. apply (compute_create_address_rlp 7 300). lia. Defined.

Lemma gateway_prediction_witness :
  validate_gateway_prediction 7 3 (compute_create_address 7 4) = Ok () /\ (7 = 7 /\ 3 = 3).
Proof.
  assert (validate_gateway_prediction 7 3 (compute_create_address 7 4) = Ok ()) as Hv
    by (vm_compute; reflexivity).
  split; [exact Hv|].
  refine (gateway_prediction_pins 7 3 7 3 (compute_create_address 7 4) _ _ _ _ _ Hv Hv); try lia.
  intros _. reflexivity.
Defined.

Definition signers0 : InitialSigners := snapshot ["axelar1a"] [(20, 1)] 1 9 "set".

Lemma save_decision_witness :
  match save_decision scope0 signers0 true (mkWorld (mkEnv 0 false) init0 init0 []) with
  | (Ok _, w') =>
      actions init0 !! gateway_proxy_key = None /\ actions (journal w') = actions init0 /\
      initial_signers (disk w') = Some signers0 /\ initial_set scope0 w' = (Ok signers0, w')
  | (Err _, w') =>
      is_Some (actions init0 !! gateway_proxy_key) ->
      w' = mkWorld (mkEnv 0 false) init0 init0 []
  end.
Proof.
  exact (save_decision_spec scope0 signers0 (mkWorld (mkEnv 0 false) init0 init0 []) eq_refl).
Defined.

Lemma insert_contract_witness :
  exists root', insert_contract "toy" "Operators" (JStr "x") root0 = Ok root' /\
    walk ["chains"; "toy"; "contracts"; "Operators"] root' = Some (JStr "x") /\
    walk ["chains"; "toy"; "chainId"] root' = Some (JNum 5).
Proof.
  eexists. split; [reflexivity|].
  assert (plain_token "toy") as Ht by (split; reflexivity).
  assert (objects_along ["chains"; "toy"; "contracts"] root0) as Ho by (vm_compute; tauto).
  destruct (insert_contract_spec "toy" "Operators" (JStr "x") root0 _ Ht Ho eq_refl) as (Hd & _ & _).
  split; [exact Hd|reflexivity].
Defined.
End ComponentWitnesses.

(** ** Witnesses of the approval theorems *)

Section ApprovalWitnesses.
Import Toy.

#[local] Instance text_laws : TextLaws.
Proof. split; intros a b Hab; by apply (inj pretty) in Hab. Qed.

Definition predicted : State := set_predicted_gateway 77 state0.

Lemma config_edit_witness :
  exists root', config_edit_root predicted root0 = Ok root' /\
  exists verifier prover,
    pointer (contract_path "VotingVerifier" "toy") root' = Some verifier /\
    pointer (contract_path "MultisigProver" "toy") root' = Some prover /\
    validate_settings predicted "axelar1admin" verifier prover = Ok ().
Proof.
  destruct (config_edit_root predicted root0) as [root'|e] eqn:He; [|vm_compute in He; discriminate He].
  exists root'. split; [reflexivity|].
  refine (config_edit_validates predicted root0 root' "axelar1admin" _ eq_refl He). split; reflexivity.
Defined.

Definition inputs0 (denom : string) : FingerprintInputs :=
  mkFingerprintInputs plan0 Testnet "toy" ∅ "salt" None (Some "x") (JObj [("name", JStr "Toy")]) ∅
    (mkProtocolContracts "r" "m" "s") denom (<["A.json" := 5]> ∅) ["ab"] (JStr "axelar1gov").

Lemma pinned_inputs_witness :
  check_fingerprint (mkSnapshot 1 ∅ ∅ (Some (fingerprint_json (inputs0 "uaxl")))) (fingerprint_json (inputs0 "uaxl"))
    = Ok () /\ fi_artifacts (inputs0 "uaxl") = fi_artifacts (inputs0 "uaxl").
Proof.
  assert (check_fingerprint (set_snap_fingerprint (fingerprint_json (inputs0 "uaxl")) (mkSnapshot 1 ∅ ∅ None))
    (fingerprint_json (inputs0 "uaxl")) = Ok ()) as Hc by (vm_compute; reflexivity).
  split; [exact Hc|].
  pose proof (pinned_inputs_bind (mkSnapshot 1 ∅ ∅ None) (inputs0 "uaxl") (inputs0 "uaxl") Hc) as Hall.
  apply Hall.
Defined.

Definition message0 : Any :=
  mkAny "/cosmos.gov.v1.MsgSubmitProposal"
    (encode_proposal (mkProposal [execution_any execution0] [mkCoin "uaxl" "10"] "axelar1me" "connect toy"
                        "connects the toy chain" true)).
Definition submission0 : TxRaw := mkTxRaw (encode_body [message0]) [] [].
Definition submission_raw : bytes := encode_tx_raw submission0.

Lemma readable0 : Forall readable [execution0].
Proof. repeat constructor; apply unpack_pack. Qed.

Lemma validate_payload_witness :
  validate_payload submission_raw proposal0 = Ok () /\
  exists actual, as_array (index proposal0 "messages") = Some actual /\ Forall2 executes actual [execution0].
Proof.
  assert (validate_payload submission_raw proposal0 = Ok ()) as Hv by (vm_compute; reflexivity).
  split; [exact Hv|].
  refine (proj2 (proj2 (proj1 (validate_payload_spec submission_raw submission0 "axelar1me" [execution0]
    "connect toy" "connects the toy chain" "10" "uaxl" true message0 proposal0 readable0 _ _ _ _) Hv)));
    [vm_compute; reflexivity|apply unpack_pack..].
Defined.



Lemma resume_command_witness :
  suggests_activation state0 = false /\ validate_activation state0 <> Ok ().
Proof.
  split; [vm_compute; reflexivity|]. intros Hv.
  apply (resume_command_activates state0 0 (default (pending_step "" WaitVerifierSet) (head (approved_steps plan0)))
    eq_refl) in Hv. vm_compute in Hv. discriminate Hv.
Defined.

Lemma payments_witness :
  exists m, payments_by_account "a" "b" "a" 10 20 = Ok m /\ m !! "a" = Some 30 /\ m !! "b" = Some 0.
Proof.
  pose proof (payments_by_account_spec "a" "b" "a" 10 20 ltac:(lia) ltac:(lia)) as Hp.
  destruct (payments_by_account "a" "b" "a" 10 20) as [m|e] eqn:Hm; [|vm_compute in Hm; discriminate Hm].
  exists m. split; [reflexivity|]. rewrite !Hp. split; reflexivity.
Defined.
End ApprovalWitnesses.

(** ** The pool of endpoints *)

Module PoolWitnesses.
Import ZeroTip.

Definition first_tx : TxEnvelope := signed no_tip 5.
Definition replacement : TxEnvelope :=
  signed (round_request no_tip (Some 5) (Some 21000) (Some (doubled_from first_tx))) 6.

Lemma robust_send_one_nonce_witness :
  tx_nonce first_tx = tx_nonce replacement \/ excused ["https://node"] first_tx [].
Proof.
  refine (robust_send_one_nonce (fun d => d) fill_keeps_nonce ["https://node"] "key" no_tip 60000 _ 31
    (mkPool (mkNode 0 []) []) (take 3 (pl_log sent)) "https://node" replacement
    (inl "replacement transaction underpriced") [] "https://node" first_tx 5000100 [] eq_refl _).
  - discriminate.
  - vm_compute. reflexivity.
Defined.

Lemma robust_send_ends_witness :
  (send_tx_robust (fun d => d) 31 ["https://node"] "key" no_tip 60000 (mkPool (mkNode 0 []) [])).1 <> Err OutOfFuel.
Proof. refine (robust_send_ends (fun d => d) 30 ["https://node"] "key" no_tip 60000 (mkPool (mkNode 0 []) []) _). lia. Defined.

Definition mined_receipt (h : B256) : Receipt := mkReceipt h (Some 1) (Some 77) true None [].

(** The same node, which mines what it knows. *)
Definition mining : PoolNode Node := {|
  pool_fill := @pool_fill Node node;
  pool_transaction_count := @pool_transaction_count Node node;
  pool_estimate_gas := @pool_estimate_gas Node node;
  pool_gas_price := @pool_gas_price Node node;
  pool_send_raw := @pool_send_raw Node node;
  pool_receipt _ hash n := (inr (if knows hash n then Some (mined_receipt hash) else None), n);
  pool_knows := @pool_knows Node node;
  now_ms := node_time;
  nap_ms := @nap_ms Node node
|}.

Lemma robust_send_receipt_witness :
  exists url hash e e',
    url ∈ ["https://node"] /\ @pool_receipt Node mining url hash e = (inr (Some (mined_receipt 5000100)), e').
Proof.
  destruct (@send_tx_robust Node mining lib (fun d => d) 31 ["https://node"] "key" no_tip 60000 (mkPool (mkNode 0 []) []))
    as [[r|e] s'] eqn:Hs; [|exfalso; apply (f_equal fst) in Hs; vm_compute in Hs; discriminate Hs].
  assert (r = mined_receipt 5000100) as ->.
  { apply (f_equal fst) in Hs. vm_compute in Hs. by injection Hs. }
  destruct (@robust_send_receipt Node mining lib (fun d => d) fill_keeps_nonce ["https://node"] "key" no_tip 60000
    ltac:(discriminate) 31 (mkPool (mkNode 0 []) []) _ s' eq_refl Hs) as (u & h & e & e' & Hu & Hr & _).
  by exists u, h, e, e'.
Defined.
End PoolWitnesses.
