(* ===== verification/LoadWitnesses.v ===== *)
(** * Concrete verifications

    Instances of the interfaces on which the theorems about load-test
    verifications are applied: a clock, a sender that is done, Axelar endpoints
    that do not answer, a gateway that has approved one message in block 5 and
    executed none. *)

From S2P Require Import Witnesses Prelude Types Retry Journal Chain Intent Json Cosmos Target LoadTest LoadNet LoadPipeline LoadFacts LoadVerdicts LoadEnds LoadDestinations LoadEngine.

Module LoadToy.
Import Toy.
Definition call0 : ApprovedCall := mkApprovedCall 77 "ethereum" "0xsource".
Definition log0 : ApprovedLog := mkApprovedLog call0 8 9.
Definition emitted0 : list (Z * ApprovedLog) := [(5, log0)].

Definition logs_in (a b : Z) : list ApprovedLog :=
  map snd (List.filter (fun p => (a <=? p.1) && (p.1 <=? b)) emitted0).

#[export] Instance poll : PollEnv Z := {
  poll_now e := e;
  poll_sleep d e := e + Z.max 0 d;
  received e := ([], e);
  send_done _ := true;
  http_get _ e := (None, e);
  gmp_post _ _ e := (inr [], e);
  is_message_approved _ _ _ _ _ e := (inr false, e);
  is_message_executed _ _ e := (inr false, e);
  is_command_executed _ e := (inr false, e);
  get_block_number e := (inr 1000, e);
  get_approved_logs _ _ a b e := (inr (logs_in a b), e);
  unordered _ l e := (l, e)
}.
#[export] Instance text : WebText := { json_text _ := ""; parse_json _ := None; base64_text s := s }.
#[export] Instance views : ChainViews Z := {
  get_incoming_messages _ cs e := (inr (map (fun _ => None) cs), e);
  stellar_is_message_approved _ _ _ _ _ e := (inr (Some false), e);
  stellar_is_message_executed _ _ e := (inr (Some false), e);
  has_message_approved _ _ _ e := (inr false, e);
  has_message_executed _ _ _ e := (inr false, e);
  find_inbound_with_message_id _ _ e := (inr false, e)
}.

#[export] Instance later_respects : Respects (E := Z) (later (fun _ => O)).
Proof.
  split; try by (intros; split; simpl; lia).
  split; [by split|]. intros a b c [? ?] [? ?]. split; lia.
Qed.
#[export] Instance laws : StreamLaws Z.
Proof.
  refine {| arriving := fun _ => O; done_by := 0; stream_respects := later_respects |}; intros; simpl; first [lia|done].
Defined.
#[export] Instance views_later : ViewsRespect (E := Z) (later arriving).
Proof. by split; intros; split; simpl. Qed.
#[export] Instance completion : Completion Z.
Proof. by split. Qed.

Definition parse_addr0 (s : string) : option Address := Some 8.
Definition input0 (p : Phase) : PendingTxInput :=
  mkInput 0 "0x01-0" 0 "0x02" 8 (Some 7) "07" None "axelar" "hub" p.
Definition start (p : Phase) : Poll Z := mkPoll 0 [new_pending (input0 p)] 0 0.
Definition args0 : PollPipelineArgs :=
  mkPipelineArgs "lcd" None (Some "gateway") "src" "dst" "0x08" None DevnetAmplifier.
Definition hub0 : ItsHubVerifier := mkHub "lcd" None "src" "gateway" "rpc" "dest" TargetRouted false.

Abbreviation gmp_run := (poll_pipeline id None (Some "0") parse_addr0 (H1 := gmp_destination id (GmpEvm (Amplifier false)))
  2 false false args0).
Abbreviation hub_run := (poll_its_hub id None None (Some "0") (H1 := its_destination id parse_addr0 (ItsEvm 1 ItsAmplifier))
  2 false false hub0 DevnetAmplifier).

Lemma gmp_run_lives_witness : exists tx',
  po_txs (gmp_run (start Approved)).2 !! 0%nat = Some tx' /\ rtc life (Active Approved) (p_state tx').
Proof.
  destruct (gmp_run_lives (H1 := gmp_destination id (GmpEvm (Amplifier false))) id None (Some "0") parse_addr0
    2 false false args0 (start Approved) 0 (new_pending (input0 Approved))) as (tx' & Htx' & Hl & _); [reflexivity|].
  exists tx'. by split.
Defined.

Lemma gmp_run_reports_witness : exists peak s',
  gmp_run (start Approved) = (Ok peak, s') /\ complete_report (po_txs s') (compute_verification_report (po_txs s') [] peak).1.
Proof.
  eexists _, _. split; [vm_compute; reflexivity|].
  eapply (gmp_run_reports (H1 := gmp_destination id (GmpEvm (Amplifier false))) id None (Some "0") parse_addr0
    2 false false args0 (start Approved)); [|vm_compute; reflexivity].
  constructor; [by eexists|constructor].
Defined.

Lemma its_run_reports_witness : exists peak s',
  hub_run (start HubApproved) = (Ok peak, s') /\ complete_report (po_txs s') (compute_verification_report (po_txs s') [] peak).1.
Proof.
  eexists _, _. split; [vm_compute; reflexivity|].
  eapply (its_run_reports (H1 := its_destination id parse_addr0 (ItsEvm 1 ItsAmplifier)) id None None (Some "0")
    2 false false hub0 DevnetAmplifier (start HubApproved)); [|vm_compute; reflexivity].
  constructor; [by eexists|constructor].
Defined.

Lemma its_run_legs_witness :
  Forall (fun tx => match phase tx with
                    | Some (Routed | Approved | Executed) => exists leg, required_second_leg tx = Ok leg
                    | _ => True
                    end) (po_txs (hub_run (start HubApproved)).2).
Proof.
  apply (its_run_legs (H1 := its_destination id parse_addr0 (ItsEvm 1 ItsAmplifier)) id None None (Some "0")
    2 false false hub0 DevnetAmplifier (start HubApproved)); [|by constructor].
  constructor; [|constructor]. eexists. split; [reflexivity|by right].
Defined.

Lemma gmp_verification_ends_witness :
  verdict (poll_pipeline id None (Some "0") parse_addr0 (H1 := gmp_destination id (GmpEvm (Legacy 1 5 true)))
    (Z.to_nat 20000) false false args0 (start Approved)).
Proof.
  apply (gmp_verification_ends id None (Some "0") parse_addr0 (GmpEvm (Legacy 1 5 true)) 0); [simpl; lia|by intros []|lia|].
  unfold enough. change (gmp_units (start Approved)) with 5. change (poll_now (po_env (start Approved))) with 0.
  unfold POLL_INTERVAL. simpl done_by. lia.
Defined.

Lemma its_verification_ends_witness :
  verdict (poll_its_hub id None None (Some "0") (H1 := its_destination id parse_addr0 ItsStellar)
    (Z.to_nat 20000) false false hub0 DevnetAmplifier (start HubApproved)).
Proof.
  apply (its_verification_ends id None None (Some "0") parse_addr0 ItsStellar 0); [done|by intros []|lia|].
  unfold enough. change (its_units (start HubApproved)) with 6. change (poll_now (po_env (start HubApproved))) with 0.
  unfold POLL_INTERVAL. simpl done_by. lia.
Defined.

Lemma window0 a b : window_of emitted0 a b (logs_in a b).
Proof.
  intros log. unfold logs_in, emitted0, window_of. simpl. split.
  - destruct (Z.leb_spec a 5), (Z.leb_spec 5 b); simpl; intros Hl; try by apply elem_of_nil in Hl.
    apply list_elem_of_singleton in Hl as ->. exists 5. split; [by left|lia].
  - intros (n & Hin%list_elem_of_singleton & Hn). injection Hin as -> ->.
    destruct (Z.leb_spec a 5), (Z.leb_spec 5 b); simpl; try lia. by left.
Qed.

(** The approval in block 5 is found from block 1000, ten windows down. *)
Lemma approval_search_complete_witness :
  match (find_contract_call_approved id 1 8 7 (Some 9) 0 (0 : Z)).1 with
  | Ok found => found = Some call0 /\ search_result 8 (Some 9) 0 emitted0 1000 found
  | Err _ => False
  end.
Proof.
  pose proof (approval_search_complete (E := Z) (H := poll) id 1 8 7 (Some 9) 0 1000 emitted0 0
    ltac:(intros a b e logs Hl; injection Hl as <-; apply window0) ltac:(intros e n Hn; by injection Hn as <-) ltac:(done)) as Hs.
  assert ((find_contract_call_approved id 1 8 7 (Some 9) 0 (0 : Z)).1 = Ok (Some call0)) as Hf by (vm_compute; reflexivity).
  rewrite Hf in Hs |- *. by split.
Defined.

(** The gateway has approved and executed nothing, and the message succeeds. *)
Lemma unapproved_conclusion_witness : exists tx',
  po_txs (check_destination (H1 := evm_destination id (Amplifier false)) "src" [0%nat] (start Approved)).2 !! 0%nat = Some tx' /\
  p_state tx' = Succeeded false.
Proof.
  destruct (unapproved_conclusion (E := Z) id false "src" (start Approved) 0 (new_pending (input0 Approved)) 7)
    as (tx' & Htx' & Hs & _); [reflexivity..|]. exists tx'. split; [exact Htx'|exact Hs].
Defined.

(** A message whose approval was observed and is gone. *)
Lemma execution_observed_witness : exists tx, po_txs (start Executed) !! 0%nat = Some tx /\ execution_reported (E := Z) "src" tx.
Proof.
  apply (execution_observed (E := Z) id "src" (po_txs (start Executed)) [0%nat] 0
    [mkObservation 0 (ExecutedAt None)] 0 None); [vm_compute; reflexivity|by left].
Defined.

#[export] Instance file : TargetFile Z := {
  read_target_file e := (Ok JNull, e);
  write_target_file _ e := (Ok (), e)
}.
#[export] Instance config : ConfigLib := {
  chains_config _ := Some (mkChainsConfig ∅ (mkAxelarConfig (Some "axelar") (Some "lcd") None (Some "1uaxl") None None None
    (Some (<["VotingVerifier" := {["dst" := JObj [("address", JStr "verifier")]]}]>
           {["Gateway" := {["dst" := JObj [("address", JStr "gateway")]]}]}))));
  parse_price _ := parse_price "1";
  address_to_string _ := "";
  address_json _ := ""
}.
#[export] Instance urls : UrlLib := { url_ok _ := true }.
Definition route0 : VerificationRoute := mkRoute "src" "dst" DevnetAmplifier.
Definition hash0 : string := "0x0000000000000000000000000000000000000000000000000000000000000007".
Definition metrics0 : list TxMetrics :=
  [mkMetrics "0x01-0" TxSucceeded hash0 "0x02" (Some 0) "dst" "0x08" None;
   mkMetrics "" (outcome_failed "429") "" "" None "" "" None].

Definition batch0 : result (VerificationReport * list TxMetrics) * Z :=
  verify_onchain id None (Some "0") parse_addr0 2 route0 "0x08" 1 SourceEvm metrics0 0.

(** One transaction confirmed and one that failed to be sent. *)
Lemma batch_verifications_report_witness : exists r e', batch0 = (Ok r, e') /\
  reported (E := Z) id None None (Some "0") parse_addr0 2 metrics0 r.
Proof.
  pose proof (proj1 (batch_verifications_report (E := Z) id None None (Some "0") parse_addr0 2 route0 "0x08" "" "" 1 SourceEvm)
    metrics0 0) as Hv.
  assert (match batch0 with (Ok r, _) => total_verified r.1 =? 1 | _ => false end = true) as Hb by (vm_compute; reflexivity).
  unfold batch0 in *. destruct (verify_onchain _ _ _ _ _ _ _ _ _ _ _) as [[r|] e'] eqn:Hr; [|discriminate Hb].
  exists r, e'. split; [reflexivity|]. by apply (Hv r e').
Defined.
End LoadToy.
