(* ===== verification/ProposeWitnesses.v ===== *)
(** * Concrete proposals

    Instances of the interfaces on which the theorems about proposals are
    applied: a hub of eight blocks with a nexus that knows one consensus chain,
    a signer that can pay, an LCD with no proposals ("lcd") and one that lists a
    submitted proposal ("old"), and an edge chain of a thousand blocks whose ASG
    holds the approval once the call has been delivered. *)

From Stdlib Require Import Ascii.
From Stdlib Require String.
From stdpp Require Import pretty.
From S2P Require Import Witnesses Prelude Types Retry Journal Chain Intent Plan Config Json Cosmos Target Verifiers CosmosSteps LoadTest LoadNet LoadDestinations LoadEngine Propose ProposeFacts ProposeNet ProposeRun ProposeSafety ProposeOnce ProposeSearch ProposeResume.

Module GovToy.
Import Toy.

Record world : Type := mkWorld { tick : Z; held : bool }.

#[export] Instance gov_host : Host world := {
  clock := tick;
  sleep d e := mkWorld (tick e + Z.max 0 d) (held e);
  ui_confirm _ e := (true, e);
  disk_write e := (Committed, e)
}.

(** ** ABI parameters: four words and the calldata *)

Lemma from_be_be_bytes n z : 0 <= z < 256 ^ Z.of_nat n -> from_be (be_bytes n z) = z.
Proof.
  revert z. induction n as [|n IH]; intros z Hz; [simpl in *; unfold from_be; simpl; lia|].
  rewrite Nat2Z.inj_succ, Z.pow_succ_r in Hz by lia. simpl. unfold from_be in *. rewrite foldl_app. simpl.
  rewrite IH; Z.to_euclidean_division_equations; lia.
Qed.

Definition word (b : bytes) : Z := from_be (take 32 b).

Lemma word_app z b : 0 <= z < 2 ^ 256 -> word (be_bytes 32 z ++ b) = z.
Proof.
  intros Hz. unfold word. rewrite take_app_length' by (symmetry; apply be_bytes_length). apply from_be_be_bytes.
  change (256 ^ Z.of_nat 32) with (2 ^ 256). done.
Qed.
Lemma drop_word z b : drop 32 (be_bytes 32 z ++ b) = b.
Proof. by rewrite drop_app_length' by (symmetry; apply be_bytes_length). Qed.

Definition query_text (pairs : list (string * string)) : string :=
  String.concat "&" (map (fun p => p.1 +:+ "=" +:+ p.2)%string pairs).

#[export] Instance gov_abi : GovAbi := {
  encode_params c t d v eta := be_bytes 32 c ++ be_bytes 32 t ++ be_bytes 32 v ++ be_bytes 32 eta ++ d;
  decode_params b :=
    let b1 := drop 32 b in let b2 := drop 32 b1 in let b3 := drop 32 b2 in
    Some (word b, word b1, drop 32 b3, word b2, word b3);
  set_pause_calldata on := [if on then 1 else 0];
  set_trusted_chain_calldata s := 2 :: string_chars s;
  remove_trusted_chain_calldata s := 3 :: string_chars s;
  set_trusted_address_calldata s a := 4 :: string_chars (s +:+ a);
  remove_trusted_address_calldata s := 5 :: string_chars s;
  execute_calldata id s a p := id :: string_chars (s +:+ a) ++ p;
  execute_operator_calldata t d v := t :: v :: d;
  execute_proposal_calldata t d v := t :: v :: d;
  encode_exec grantee msgs := string_chars grantee ++ enc msgs;
  with_query base pairs := base +:+ "?" +:+ query_text pairs;
  scaled_gas g := g * 3;
  parse_rfc3339 := parse_uint 64
}.

#[export] Instance gov_abi_laws : AbiLaws.
Proof.
  split.
  - intros c target calldata value eta Hc Ht Hd Hv He. cbn [decode_params encode_params gov_abi].
    rewrite !drop_word, !word_app by lia. done.
  - intros c target calldata value eta Hd. cbn [encode_params gov_abi].
    repeat (apply Forall_app; split; [apply be_bytes_range|]). exact Hd.
Qed.

#[export] Instance gov_order : HashOrder := { hash_iter V m := map_to_list m; hash_iter_perm V m := reflexivity _ }.
#[export] Instance gov_urls : UrlLib := { url_ok _ := true }.

(** ** The hub *)

Definition submitted_call : Json :=
  JObj [("call_contract", JObj
    [("destination_chain", JStr "Edge"); ("destination_address", JStr "11");
     ("payload", JStr (hex_encode (encode_params 2 12 [1] 0 0)))])].
Definition submitted_proposal : Json :=
  JObj [("id", JStr "9"); ("status", JStr "PROPOSAL_STATUS_PASSED"); ("voting_end_time", JStr "45");
        ("messages", JArr [JObj
          [("@type", JStr "/cosmwasm.wasm.v1.MsgExecuteContract"); ("sender", JStr "axelar1gov");
           ("contract", JStr "axelarnet"); ("msg", submitted_call); ("funds", JArr [])]])].

(** The block of the execution emits the call. *)
Definition attribute (key value : string) : Json := JObj [("key", JStr key); ("value", JStr value)].
Definition zero_hash : string := hex_encode (be_bytes 32 0).
Definition called_event : Json :=
  JObj [("type", JStr "wasm-contract_called");
        ("attributes", JArr
          [attribute "payload_hash" zero_hash; attribute "_contract_address" "axelarnet";
           attribute "source_chain" "axelar"; attribute "source_address" "axelar1gov";
           attribute "destination_chain" "Edge"; attribute "destination_address" "11";
           attribute "message_id" "0x01-6"])].

Definition page (proposals : list Json) : Json :=
  JObj [("proposals", JArr proposals); ("pagination", JObj [("next_key", JNull)])].
Definition coins (amount : string) : Json := JObj [("balance", JObj [("denom", JStr "uaxl"); ("amount", JStr amount)])].

(** What the hub's endpoints answer, by URL. *)
Definition answers (url : string) : Json :=
  if contains "/status" url then
    JObj [("result", JObj [("sync_info", JObj [("latest_block_height", JStr "8")])])]
  else match strip_prefix "rpc/block?height=" url with
  | Some h =>
      JObj [("result", JObj [("block", JObj [("header", JObj
        [("time", JStr (to_dec (10 * default 0 (parse_uint 64 h))))])])])]
  | None =>
  match strip_prefix "rpc/block_results?height=" url with
  | Some h =>
      JObj [("result", JObj [("finalize_block_events",
        JArr (if bool_decide (h = "6") then [called_event] else []))])]
  | None =>
  if contains "/by_denom" url then
    coins (if contains CPI_MULTISIG url then "5000000000" else if contains "/poor/" url then "20000000" else "9000000000")
  else if contains "/authz/" url then
    JObj [("grants", JArr [JObj
      [("authorization", JObj [("@type", JStr "/cosmos.authz.v1beta1.GenericAuthorization"); ("msg", JStr SUBMIT_PROPOSAL)]);
       ("expiration", JStr "100")]])]
  else if contains "/accounts/" url then
    JObj [("account", JObj [("account_number", JStr "1"); ("sequence", JStr "0")])]
  else if contains "/nexus/" url then JObj [("chains", JArr [JStr "Edge"])]
  else if contains "/txs/" url then
    JObj [("tx_response", JObj [("code", JNum 0);
      ("events", JArr [JObj [("type", JStr "submit_proposal"); ("attributes", JArr [attribute "proposal_id" "9"])]])])]
  else if contains "/proposals/" url then JObj [("proposal", submitted_proposal)]
  else page (match strip_prefix "old" url with Some _ => [submitted_proposal] | None => [] end)
  end end.

#[export] Instance gov_text : WebText := {
  LoadNet.json_text _ := "";
  parse_json url := Some (answers url);
  base64_text s := s
}.

(** ** The edge chain *)

Definition approval0 : ApprovedLog := mkApprovedLog (mkApprovedCall 77 "axelar" "axelar1gov") 11 9.
Definition gov_poll0 : PollEnv world := {|
  poll_now := tick;
  poll_sleep d e := mkWorld (tick e + Z.max 0 d) (held e);
  received e := ([], e);
  send_done _ := true;
  http_get url e := (Some (200, Some url), e);
  gmp_post _ _ e := (inr [], e);
  is_message_approved _ _ _ _ _ e := (inr false, e);
  is_message_executed _ _ e := (inr false, e);
  is_command_executed _ e := (inr false, e);
  get_block_number e := (inr 1000, e);
  get_approved_logs _ _ a b e := (inr (if (a <=? 5) && (5 <=? b) then [approval0] else []), e);
  unordered _ l e := (l, e)
|}.

Definition post_answer (url : string) : Json :=
  if contains "simulate" url then JObj [("gas_info", JObj [("gas_used", JStr "5")])]
  else JObj [("tx_response", JObj [("code", JNum 0); ("txhash", JStr "HASH")])].

Definition contracts_of (l : list (string * string)) : gmap string ContractEntry :=
  list_to_map (map (fun p => (p.1, mkEntry (Some p.2) ∅)) l).
Definition edge_config : ChainConfig :=
  mkChainConfig (Some "Edge") None (Some 5) (Some "edge-rpc") (Some "evm")
    (Some (contracts_of [("AxelarServiceGovernance", "11"); ("AxelarGateway", "12")])).
Definition config_of (lcd : string) : ChainsConfig :=
  mkChainsConfig (<["edge" := edge_config]> (<["moonbeam" := mkChainConfig None None None None (Some "evm") None]> ∅))
    (mkAxelarConfig (Some "axelar-testnet") (Some lcd) (Some "rpc") (Some "1uaxl") (Some "axelar1gov") None None
       (Some (<["AxelarnetGateway" := <["address" := JStr "axelarnet"]> ∅]>
             (<["Router" := <["address" := JStr "router"]> ∅]> ∅)))).

#[export] Instance gov_env : GovEnv world := {
  gov_poll := gov_poll0;
  edge_poll _ := gov_poll0;
  utc_now _ := 50;
  load_chains_config e := (Ok (config_of "lcd"), e);
  http_post url _ e := (Ok (post_answer url), e);
  edge_timestamp _ n e := (Ok (Some (10 * n)), e);
  edge_code _ _ e := (Ok [1], e);
  edge_balance _ _ e := (Ok 5, e);
  asg_operator _ _ e := (Ok 7, e);
  asg_governance_chain _ _ e := (Ok "axelar", e);
  asg_governance_address _ _ e := (Ok "axelar1gov", e);
  asg_minimum_delay _ _ e := (Ok 0, e);
  asg_operator_approved _ _ _ _ e := (Ok (held e), e);
  asg_proposal_eta _ _ _ _ e := (Ok 0, e);
  its_owner_view _ _ e := (Ok 11, e);
  its_is_trusted_chain _ _ _ e := (inr true, e);
  its_trusted_address _ _ _ e := (inr "", e);
  gateway_message_executed _ _ _ _ e := (Ok false, e);
  gateway_message_approved _ _ _ _ _ _ _ e := (Ok false, e);
  gateway_command_executed _ _ _ e := (Ok false, e);
  gateway_call_approved _ _ _ _ _ _ _ e := (Ok true, e);
  edge_send _ _ _ _ e := (Ok 1, mkWorld (tick e) true);
  edge_receipt _ _ e := (Ok (), e);
  fs_read e := (Ok (), e);
  fs_make_dir e := (Ok (), e);
  fs_sync e := (Ok (), e);
  fs_lock _ e := (Ok (), e)
}.

(** ** Runs *)

Definition world0 : world := mkWorld 0 false.
Definition gov_args : ProposeArgs :=
  mkArgs Testnet "MNEMONIC" (Some "edge") [] [] (Some Pause) None None None Operator true None false true None false true.
Definition vars (name : string) : option string := Some "rich".
Abbreviation gov_run := (run (E := world) id None vars false 3 gov_args).

(** The plans of the two LCDs. *)
Definition call_failed : EdgeCall :=
  mkEdgeCall "" (mkResolved "" "" "" "" None "" None "" "" "" "" "" "" (mkGasPrice true (fun g => g)) "" "")
    (mkAsgInfo 0 "" "" 0) 0 [].
Definition plan_of (lcd : string) : ProposalPlan :=
  match (build_plan (E := world) None vars 3 gov_args (config_of lcd) world0).1 with
  | Ok p => p
  | Err _ => mkPlan Timelock "" call_failed []
  end.
Definition plan_lcd : ProposalPlan := plan_of "lcd".
Definition plan_old : ProposalPlan := plan_of "old".

Definition first_trace : list gov_event := g_trace (gov_run (mkGov world0 ∅ [])).2.
Definition second_trace : list gov_event := g_trace (gov_run (mkGov world0 (replay ∅ first_trace) [])).2.

(** ** Submissions *)

(** Two runs in a row: the first submits, relays and executes, the second is
    refused by the markers. *)
Lemma submissions_bounded_witness : exists runs files,
  lifetime (E := world) ∅ runs files /\ length runs = 2%nat /\
  total (fun r => carried (call_marker (mkEdgeCall "edge" (ed_cfg (pp_first plan_lcd)) (ed_asg (pp_first plan_lcd)) 12 [1]))
           false r.2) runs = 1 /\
  total (fun r => carried (call_marker (mkEdgeCall "edge" (ed_cfg (pp_first plan_lcd)) (ed_asg (pp_first plan_lcd)) 12 [1]))
           false r.2) runs <= 1 + total asks_new runs.
Proof.
  assert (lifetime (E := world) ∅ [(gov_args, first_trace); (gov_args, second_trace)]
            (replay (replay ∅ first_trace) second_trace)) as Hlife.
  { apply (life_run ∅ [(gov_args, first_trace)] (replay ∅ first_trace) id None vars false 3 gov_args world0 second_trace);
      [|done].
    apply (life_run ∅ [] ∅ id None vars false 3 gov_args world0 first_trace); [constructor|done]. }
  eexists _, _. split; [exact Hlife|]. split; [done|]. split; [vm_compute; reflexivity|].
  exact (submissions_bounded _ _ _ Hlife).
Defined.

Definition sent_of (t : list gov_event) : option (string * list Any) :=
  head (omap (fun ev => match ev with SentCosmos signer messages => Some (signer, messages) | _ => None end) t).

Lemma sent_of_in t signer messages : sent_of t = Some (signer, messages) -> SentCosmos signer messages ∈ t.
Proof.
  unfold sent_of. induction t as [|ev t IH]; [done|]. simpl.
  destruct ev; try (intros Hs; right; by apply IH). intros [= -> ->]. left.
Qed.

Definition sent0 : string * list Any := default ("", []) (sent_of first_trace).

Lemma submission_after_search_witness : exists config p e0 e1,
  build_plan (E := world) None vars 3 gov_args config e0 = (Ok p, e1) /\ cleared (E := world) gov_args p.
Proof.
  apply (submission_after_search id None vars false 3 gov_args world0 ∅ sent0.1 sent0.2).
  - apply sent_of_in. vm_compute. reflexivity.
  - vm_compute. reflexivity.
Defined.

(** ** Block searches *)

Lemma first_block_at_witness : exists h,
  gives (first_block_at (E := world) "edge-rpc" (4567 * NANOS)) h /\ 0 <= h <= 1000 /\ 4567 <= 10 * h /\
  forall n, 0 <= n < h -> 10 * n < 4567.
Proof.
  destruct (first_block_at_spec (E := world) "edge-rpc" (4567 * NANOS) 1000 (fun n => 10 * n)) as (h & Hg & Hh).
  - lia.
  - intros n n' Hn Hn'. lia.
  - intros e. by exists e.
  - intros n Hn e. by exists e.
  - change (Z.max (4567 * NANOS / NANOS) 0) with 4567 in Hh. exists h. destruct Hh as [[Hlt _]|(Hr & Hge & Hall)]; [lia|done].
Defined.

Lemma up_to_eight (P : Z -> Prop) : Forall P (seqZ 1 8) -> forall n, 1 <= n <= 8 -> P n.
Proof. rewrite Forall_forall. intros HP n Hn. apply HP, list_elem_of_In, elem_of_seqZ. lia. Qed.

Definition gov_message : GovMessage := mkGovMessage "0x01-6" "axelar" "axelar1gov".

Lemma governance_message_found_witness :
  gives (E := world) (find_governance_message (hub plan_lcd) 0 45) gov_message.
Proof.
  apply (governance_message_found (E := world) (hub plan_lcd) 0 45
    (answers "rpc/status") 8 (fun n => 10 * n) (fun n => if n =? 6 then Some gov_message else None) 5 6 gov_message).
  - intros e. exists e. vm_compute. reflexivity.
  - vm_compute. reflexivity.
  - lia.
  - intros n n' Hn Hn'. lia.
  - apply up_to_eight. repeat constructor; intros e; exists e; vm_compute; reflexivity.
  - apply up_to_eight. repeat constructor; intros e; exists e; vm_compute; reflexivity.
  - lia.
  - lia.
  - intros n Hn. lia.
  - lia.
  - done.
  - intros n Hn. destruct (Z.eqb_spec n 6); [lia|done].
Defined.

(** ** Resuming and paying *)

Definition existing0 : ExistingProposal := default (mkExisting "" "" None []) (existing_of submitted_proposal).

Lemma rerun_resumes_witness : exists found payloads,
  found ∈ [existing0] /\ matching_plan found plan_old = Some payloads /\
  resumes (E := world) None vars 3 gov_args plan_old found payloads.
Proof.
  apply (rerun_resumes (E := world) None vars 3 gov_args 0 (config_of "old") world0 world0 plan_old 1 [existing0] existing0).
  - vm_compute. reflexivity.
  - constructor; [|constructor]. split; [vm_compute; done|]. by repeat constructor.
  - done.
  - reflexivity.
  - reflexivity.
  - constructor; [|constructor]. apply (shows_message _ _ _ submitted_call). left. split; reflexivity.
  - apply (served_last (E := world) _ "" (mkPage [existing0] None)); [|by left]. intros e. exists e. vm_compute. reflexivity.
  - left.
  - lia.
Defined.

(** A signer with the fees only, on mainnet, with an authorization. *)
Definition mainnet_hub : ResolvedConfig :=
  mkResolved "MNEMONIC" "Edge" "11" "12" None "edge-rpc" None "rpc" "axelarnet" "axelar1gov" "lcd" "axelar-dojo-1" "uaxl"
    (mkGasPrice true (fun gas => gas)) DEFAULT_DEPOSIT DEFAULT_EXPEDITED_DEPOSIT.

Lemma funding_witness :
  (resolve_funding (E := world) Mainnet mainnet_hub "poor" 3000000000 (mkGov world0 ∅ [])).1 =
    Ok (Authorized "poor" CPI_MULTISIG) /\
  may_delegate Mainnet mainnet_hub 3000000000 20000000 5000000000 50 [mkGrant (Generic SUBMIT_PROPOSAL) (Some "100")].
Proof.
  assert ((resolve_funding (E := world) Mainnet mainnet_hub "poor" 3000000000 (mkGov world0 ∅ [])).1 =
    Ok (Authorized "poor" CPI_MULTISIG)) as Hr by (vm_compute; reflexivity).
  split; [exact Hr|].
  pose proof (funding_spec (E := world) Mainnet mainnet_hub "poor" 3000000000 20000000 5000000000
    [mkGrant (Generic SUBMIT_PROPOSAL) (Some "100")] 50 "axelar" "axelar" (mkGov world0 ∅ [])) as Hf.
  cbv zeta in Hf. rewrite Hr in Hf. apply Hf.
  - lia.
  - unfold GAS_BUFFER_UAXL. lia.
  - reflexivity.
  - reflexivity.
  - reflexivity.
  - intros e. exists e. vm_compute. reflexivity.
  - intros e. exists e. vm_compute. reflexivity.
  - intros e. exists e. vm_compute. reflexivity.
  - reflexivity.
  - constructor; [|constructor]. intros text [= <-]. eexists. vm_compute. reflexivity.
Defined.

(** ** Markers and targets *)

Definition second_call : EdgeCall := mkEdgeCall "other" mainnet_hub (mkAsgInfo 7 "axelar" "axelar1gov" 0) 13 [1; 2].
Definition forward : ProposalPlan := mkPlan Operator "pause gateway" (pp_first plan_lcd) [second_call].
Definition backward : ProposalPlan :=
  mkPlan Operator "pause gateway" (mkEdgeCall "other" (ed_cfg (pp_first plan_lcd)) (ed_asg second_call) 13 [1; 2])
    [mkEdgeCall "edge" mainnet_hub (ed_asg (pp_first plan_lcd)) 12 [1]].

Lemma plan_marker_witness : plan_marker forward = plan_marker backward.
Proof.
  apply (plan_marker_spec forward backward).
  - intros _. vm_compute. reflexivity.
  - intros a b. apply (inj (pretty (A := Z))).
  - by repeat constructor.
  - split; [vm_compute; reflexivity|]. vm_compute. apply Permutation_swap.
Defined.

Definition registry0 : list RegisteredChain :=
  [mkRegistered "Edge" "13" false; mkRegistered "moonbeam" "14" false; mkRegistered "frozen" "15" true].

Lemma classify_witness : exists sorted : list (RegisteredChain * (Exclusion + Candidate)),
  map fst sorted = registry0 /\
  ([mkCandidate "edge" "13"], [mkExclusion "moonbeam" "deprecated"; mkExclusion "frozen" "frozen on the ITS Hub"]) =
    (omap chosen sorted, omap left_out sorted) /\
  Forall (fun s => match s.2 with
                   | inr c => eligible (config_of "lcd") Mainnet [] "" s.1 c
                   | inl x => xc_chain x = rg_chain s.1 /\ forall c, ~ eligible (config_of "lcd") Mainnet [] "" s.1 c
                   end) sorted.
Proof.
  destruct (classify_spec registry0 (config_of "lcd") Mainnet [] "") as (sorted & Hfst & Hc & Hall).
  - apply (bool_decide_unpack _). vm_compute. exact I.
  - exists sorted. split; [exact Hfst|]. split; [|exact Hall]. rewrite <- Hc. vm_compute. reflexivity.
Defined.
End GovToy.
