(* ===== verification/AsgWitnesses.v ===== *)
(** * Concrete runs on service governance

    Instances of the interfaces on which the theorems about service governance
    are applied: a chain with a gateway (10) and an ITS (11), both owned by the
    sender (7), a governance contract (50), and an operator who agrees.  The
    environment has the clock, the sender's nonce, the targets that were called,
    whether receipts report a revert, and the configuration file. *)

From Stdlib Require Import Ascii.
From Stdlib Require String.
From stdpp Require Import pretty.
From S2P Require Import Witnesses Prelude Monitor Types Retry Journal Chain Plan Config Intent Json Cosmos Target Verifiers Checkpoints EvmSteps LoadNet Propose Asg AsgRun AsgSafety AsgFacts.

Module AsgToy.
Import Toy.

Record aenv : Type := mkAenv {
  at_time : Z;
  at_nonce : Z;
  at_called : list Address;
  at_reverting : bool;
  at_config : bytes
}.

#[export] Instance asg_host : Host aenv := {
  clock := at_time;
  sleep d e := mkAenv (at_time e + Z.max 0 d) (at_nonce e) (at_called e) (at_reverting e) (at_config e);
  ui_confirm _ e := (true, e);
  disk_write e := (Committed, e)
}.

Definition mix (b : bytes) : Z := foldl (fun h x => h * 1009 + x + 1) 7 b.

(** Nonce, target, calldata, gas and price; chain 5, no value, legacy. *)
Definition legacy (raw : bytes) (body : Z * Address * bytes * Z * Z) : TxEnvelope :=
  let '(nonce, to, input, gas, price) := body in
  mkEnvelope (mix raw) nonce (Some 5) (Some to) 0 input gas price (Some price) None 0 None None None.

#[export] Instance asg_evm_lib : EvmLib := {
  keccak256 := mix;
  b256_to_string := pretty;
  parse_u256 := parse_uint 256;
  u256_to_string := to_dec;
  signer_address := parse_uint 160;
  decode_2718 raw := legacy raw <$> unpack raw;
  encoded_2718 t := enc (tx_nonce t, default 0 (tx_to t), tx_input t, tx_gas_limit t, default 0 (tx_gas_price t));
  recover_address _ := Some 7;
  from_transaction_with_sender _ _ := empty_request
}.

(** ** Records of transactions *)

#[export] Instance ser_kind : Ser TxKind.
Proof.
  refine (ser_map (fun k => match k with Create => None | CallTo a => Some a end)
    (fun o => match o with None => Create | Some a => CallTo a end) _). by intros [].
Defined.
#[export] Instance ser_request : Ser TransactionRequest.
Proof.
  refine (ser_map
    (fun r => (rq_from r, rq_to r, rq_gas_price r, rq_max_fee_per_gas r, rq_max_priority_fee_per_gas r, rq_gas r, rq_value r,
               (rq_input r, rq_nonce r, rq_chain_id r, rq_access_list r, rq_authorization_list r, rq_blob_versioned_hashes r)))
    (fun '(a, b, c, d, e, f, g, (h, i, j, k, l, m)) => mkRequest a b c d e f g h i j k l m) _).
  by intros [].
Defined.
#[export] Instance ser_saved : Ser SavedTransaction.
Proof.
  refine (ser_map (fun s => (sv_request s, sv_transaction_type s, sv_raw s)) (fun '(r, t, b) => mkSaved r t b) _). by intros [].
Defined.

Definition artifact1 : Artifact := mkArtifact "AxelarServiceGovernance" [1; 2] [3].

(** The configuration as JSON. *)
Definition chain_json : Json :=
  JObj [("chainId", JNum 5); ("contracts", JObj [("AxelarGateway", JObj [("address", JStr "10"); ("owner", JStr "7")]);
                                               ("InterchainTokenService", JObj [("address", JStr "11")])])].
Definition root1 : Json := JObj [("axelar", JObj []); ("chains", JObj [("toy", chain_json); ("other", JNum 1)])].

#[export] Instance asg_lib : AsgLib := {
  decode_rest raw := '(body, rest) ← dec raw; Some (legacy raw body, rest);
  saved_json := enc;
  saved_of := unpack;
  identity_json c f t := enc (c, f, t);
  asg_constructor a _ _ d o := [a; d; o];
  artifact_of _ := Some artifact1;
  address_of_json v := as_str v ≫= parse_uint 160;
  json_of _ := Some root1;
  pretty_json _ := [1];
  http_url _ := true
}.

#[export] Instance asg_codec : SavedCodec.
Proof. split. intros s. apply unpack_pack. Qed.

Definition contracts1 : gmap string ContractEntry :=
  <["AxelarGateway" := mkEntry (Some "10") (<["connectionType" := JStr "amplifier"]> ∅)]>
    (<["InterchainTokenService" := mkEntry (Some "11") ∅]> ∅).
#[export] Instance asg_config : ConfigLib := {
  chains_config _ := Some (mkChainsConfig
    (<["toy" := mkChainConfig (Some "toy") None (Some 5) (Some "http://node") (Some "evm") (Some contracts1)]> ∅)
    (mkAxelarConfig (Some "axelar-testnet-lisbon-3") None None None None None None None));
  parse_price _ := None;
  address_to_string := to_dec;
  address_json := pretty
}.
#[export] Instance asg_order : HashOrder := { hash_iter V m := map_to_list m; hash_iter_perm V m := reflexivity _ }.

(** ** The node *)

Definition receipt_at (h : B256) (ok : bool) : Receipt := mkReceipt h (Some 90) (Some 1090) ok None [].
Definition call_of (raw : bytes) : option Address := '(body, _) ← dec (A := Z * Address * bytes * Z * Z) raw; Some body.1.1.1.2.
Definition owner_of (target : Address) (e : aenv) : Address := if bool_decide (target ∈ at_called e) then 50 else 7.

#[export] Instance asg_evm_node : EvmNode aenv := {
  eth_chain_id e := (Ok 5, e);
  eth_get_transaction_count _ e := (Ok (at_nonce e), e);
  eth_get_transaction_receipt h e := (Ok (Some (receipt_at h (negb (at_reverting e)))), e);
  eth_knows_transaction _ e := (Ok false, e);
  eth_send_raw_transaction raw e :=
    (Ok (mix raw), mkAenv (at_time e) (at_nonce e + 1) (option_list (call_of raw) ++ at_called e) (at_reverting e) (at_config e));
  eth_get_block t e := (Ok (Some (mkBlock (match t with TagNumber n => n | _ => 100 end)
                                          (1000 + match t with TagNumber n => n | _ => 100 end))), e);
  eth_gas_price e := (Ok 1, e);
  eth_get_balance _ e := (Ok 1000000, e);
  eth_call _ e := (Ok (), e);
  fill_and_sign _ _ e := (bail "not used", e)
}.
#[export] Instance asg_deploy_node : DeployNode aenv := {
  eth_get_code _ e := (Ok [9], e);
  mc_owner _ a e := (Ok (owner_of a e), e);
  mc_implementation _ _ e := (Ok 1, e);
  mc_operator _ _ e := (Ok 8, e);
  mc_epoch _ _ e := (Ok 1, e);
  mc_signers_hash _ _ _ e := (Ok 1, e);
  mc_rotation_delay _ _ e := (Ok 0, e);
  prover_set _ _ e := (Ok None, e);
  registry_service _ _ _ _ e := (Ok (mkService 1 None), e)
}.
#[export] Instance asg_step_node : StepNode aenv := {
  read_artifact_bytecode _ e := (Ok [1], e);
  read_artifact_runtime_hash _ e := (Ok 1, e);
  deployed_address _ _ _ _ e := (Ok 50, e);
  is_operator _ _ e := (Ok true, e);
  eth_get_storage_at _ _ e := (Ok 0, e);
  eth_call_create _ _ e := (Ok [9], e);
  eth_pending_count _ e := (Ok (at_nonce e), e);
  system_time e := (1000, e);
  eth_syncing e := (inr (JBool false), e);
  eth_block_number e := (Ok 100, e);
  eth_header _ e := (Ok (Some (mkHeader 100 1000 77 76)), e);
  eth_fee_history e := (Ok 2, e);
  eth_estimate_gas _ e := (Ok 50000, e);
  probe_value _ e := (Ok 42, e);
  eth_transaction_to _ e := (Ok None, e);
  eth_get_logs _ _ _ e := (Ok [], e)
}.

Definition policy : Settings :=
  mkSettings 0x81e63eA8F64FEdB9858EB6E2176B431FBd10d1eC "v6.1.0" 0xb55A09E9fde39755c39EF9A7911431Ba0c96332A
    0x6e079CD1c6bBb72680DeDF2687d711AE9427eE8e 300 "axelar-testnet-lisbon-3".

#[export] Instance asg_node : AsgNode aenv := {
  resolve_checkout _ _ e := (Ok "/a/b/c/testnet.json", e);
  read_config _ e := (Ok (at_config e), e);
  write_config _ b e := (Ok (), mkAenv (at_time e) (at_nonce e) (at_called e) (at_reverting e) b);
  read_artifact_file _ e := (Ok [2], e);
  code_at _ _ e := (Ok [9], e);
  code_finalized _ e := (inr [9], e);
  managed_gateway _ e := (Ok 10, e);
  is_operator_at _ _ _ e := (Ok false, e);
  gov_gateway _ _ e := (Ok 10, e);
  gov_operator _ _ e := (Ok (se_operator policy), e);
  gov_delay _ _ e := (Ok 300, e);
  gov_chain _ _ e := (Ok GOVERNANCE_CHAIN, e);
  gov_address _ _ e := (Ok GOVERNANCE_ADDRESS, e);
  gov_chain_hash _ _ e := (Ok (mix (string_bytes GOVERNANCE_CHAIN)), e);
  gov_address_hash _ _ e := (Ok (mix (string_bytes GOVERNANCE_ADDRESS)), e);
  count_at _ _ e := (Ok (at_nonce e), e);
  sign_legacy _ r e :=
    (Ok (legacy [] (default 0 (rq_nonce r), match rq_to r with Some (CallTo a) => a | _ => 0 end, default [] (rq_input r),
                    default 0 (rq_gas r), default 0 (rq_gas_price r))), e);
  pending_receipt h e := (Ok (receipt_at h true), e);
  file_access e := (Ok (), e);
  take_lock e := (Ok (), e);
  sleep_ms _ e := e
}.

#[export] Instance asg_clock_laws : ClockLaws aenv.
Proof. split; intros; simpl; lia. Qed.
#[export] Instance asg_head_clock : HeadClock aenv.
Proof. split. intros e. simpl. lia. Qed.

Definition keys (name : string) : option string :=
  if bool_decide (name = OPERATOR_KEY_ENV) then Some (to_dec (se_operator policy)) else Some "7".

Definition applied : Options := mkOptions 7 None None None true false.
Definition previewed : Options := mkOptions 7 None None None false false.
Definition start (nonce : Z) (reverting : bool) : aenv := mkAenv 0 nonce [] reverting [42].
Definition go (o : Options) (files : Files) (e : aenv) : result () * Asg aenv :=
  run (fun d => d) keys true Testnet "toy" (HandoffAsg o (Some 50)) (mkAsg e files ∅ ∅ [] []).

Definition first_run : Asg aenv := (go applied ∅ (start 3 false)).2.

(** A handoff runs to its end, and the auditor accepts it. *)
Lemma asg_run_audited_witness :
  (go applied ∅ (start 3 false)).1 = Ok () /\
  (exists st, asg_audit ∅ (as_trace first_run) = Some st /\ aa_files st = as_journals first_run) /\
  forall ev, ev ∈ as_trace first_run -> truthful (E := aenv) ev.
Proof.
  split; [vm_compute; reflexivity|].
  exact (asg_run_audited (fun d => d) keys true Testnet "toy" (HandoffAsg applied (Some 50)) (start 3 false) ∅ ∅ ∅ []).
Defined.

(** ** Three runs: cut at the broadcast, retired after a revert, sent anew *)

Fixpoint until_broadcast (t : list asg_event) : list asg_event :=
  match t with
  | [] | Broadcast _ :: _ => []
  | ev :: t => ev :: until_broadcast t
  end.
Fixpoint from_broadcast (t : list asg_event) : list asg_event :=
  match t with
  | [] => []
  | Broadcast raw :: t => t
  | _ :: t => from_broadcast t
  end.
Fixpoint first_broadcast (t : list asg_event) : bytes :=
  match t with
  | [] => []
  | Broadcast raw :: _ => raw
  | _ :: t => first_broadcast t
  end.

Definition t1 : list asg_event := until_broadcast (as_trace first_run).
Definition raw1 : bytes := first_broadcast (as_trace first_run).
Definition files1 : Files := replay ∅ (t1 ++ [Broadcast raw1]).
Definition second_run : Asg aenv := (go applied files1 (start 4 true)).2.
Definition files2 : Files := replay files1 (as_trace second_run).
Definition third_run : Asg aenv := (go applied files2 (start 4 false)).2.
Definition t2 : list asg_event := as_trace second_run ++ until_broadcast (as_trace third_run).
Definition raw2 : bytes := first_broadcast (as_trace third_run).
Definition t3 : list asg_event := from_broadcast (as_trace third_run).

Lemma three_runs : asg_lifetime (E := aenv) ∅ (t1 ++ [Broadcast raw1] ++ t2 ++ [Broadcast raw2] ++ t3).
Proof.
  rewrite app_assoc. eapply life_run with (e := start 3 false) (action := HandoffAsg applied (Some 50)) (env_var := keys)
    (is_terminal := true) (network := Testnet) (chain := "toy") (jittered := fun d => d) (retired := ∅) (evidence := ∅) (original := []).
  { exists (from_broadcast (as_trace first_run)). vm_compute. reflexivity. }
  unfold t2. rewrite <- app_assoc. eapply life_run with (e := start 4 true) (action := HandoffAsg applied (Some 50)) (env_var := keys)
    (is_terminal := true) (network := Testnet) (chain := "toy") (jittered := fun d => d) (retired := ∅) (evidence := ∅) (original := []).
  { reflexivity. }
  rewrite <- (app_nil_r (until_broadcast _ ++ _)).
  eapply life_run with (e := start 4 false) (action := HandoffAsg applied (Some 50)) (env_var := keys)
    (is_terminal := true) (network := Testnet) (chain := "toy") (jittered := fun d => d) (retired := ∅) (evidence := ∅) (original := []).
  { exists []. vm_compute. reflexivity. }
  constructor.
Qed.

Lemma no_silent_replacement_witness :
  raw1 <> raw2 /\ exists id record, raw_identity raw1 = Some id /\ sv_raw <$> saved_of record = Some raw1 /\ retired_in id record t2.
Proof.
  assert (raw1 <> raw2) as Hne by (vm_compute; discriminate). split; [exact Hne|].
  apply (no_silent_replacement (E := aenv) ∅ t1 raw1 t2 raw2 t3); [exact three_runs|vm_compute; reflexivity|exact Hne].
Defined.

(** ** Evidence and confirmations *)

Definition at_start (reverting : bool) : Asg aenv := mkAsg (start 4 reverting) ∅ ∅ ∅ [] [].
Definition sent_request : TransactionRequest := plain_request 7 11 5 [50].

Lemma evm_terminal_witness :
  (evm_terminal sent_request raw1 false (at_start true)).1 = Ok (Some (RevertedIn 90)) /\
  evidence_holds sent_request (keccak256 raw1) false (Some (RevertedIn 90)) (start 4 true).
Proof.
  split; [vm_compute; reflexivity|].
  apply (evm_terminal_spec sent_request raw1 false (at_start true) (at_start true) (Some (RevertedIn 90))).
  vm_compute. reflexivity.
Defined.

Lemma wait_for_confirmations_ends_witness :
  exists inclusion hash, status (receipt_at 6 true) = true /\ block_number (receipt_at 6 true) = Some inclusion /\
    block_hash (receipt_at 6 true) = Some hash /\ confirmed_by (receipt_at 6 true) inclusion hash 120 (start 4 false).
Proof.
  exact (wait_for_confirmations_ends (receipt_at 6 true) 120 1 (at_start false) ltac:(lia) ltac:(lia)).
Defined.

(** ** Previews and handoffs *)

Lemma preview_changes_nothing_witness :
  (go previewed ∅ (start 3 false)).1 = Ok () /\
  files_of (go previewed ∅ (start 3 false)).2 = (∅, ∅, ∅) /\
  Forall (fun ev => observation_event ev = true) (as_trace (go previewed ∅ (start 3 false)).2).
Proof.
  split; [vm_compute; reflexivity|].
  apply (preview_changes_nothing (fun d => d) keys true Testnet "toy" (HandoffAsg previewed (Some 50)) (start 3 false) ∅ ∅ ∅ []).
  reflexivity.
Defined.

Definition ctx1 : AsgContext :=
  mkAsgContext Testnet "/a/b/c/testnet.json" "toy" 5 "http://node" 10 11 None None "artifact.json" policy.
Definition before_handoff : Asg aenv := mkAsg (start 3 false) ∅ ∅ ∅ [42] [].
Abbreviation after_handoff := (handoff (fun d => d) keys ctx1 applied (Some 50) before_handoff).2.

Lemma raw1_sent : Broadcast raw1 ∈ as_trace after_handoff.
Proof.
  assert (as_trace after_handoff =
    until_broadcast (as_trace after_handoff) ++ Broadcast raw1 :: from_broadcast (as_trace after_handoff)) as -> by (vm_compute; reflexivity).
  apply elem_of_app. right. left.
Qed.

Lemma handoff_sends_only_transfers_witness :
  Broadcast raw1 ∈ as_trace after_handoff /\
  exists asg, handoff_asg ctx1 (Some 50) = Ok asg /\ is_transfer ctx1 7 asg raw1.
Proof.
  split; [exact raw1_sent|].
  exact (handoff_sends_only_transfers (fun d => d) keys ctx1 applied (Some 50) before_handoff raw1 eq_refl raw1_sent).
Defined.

Lemma handoff_completes_witness :
  exists asg runtime before t after b1 b2 b3 b4, handoff_asg ctx1 (Some 50) = Ok asg /\
    as_trace after_handoff = [] ++
      [GovernanceVerified ctx1 asg runtime b1; RolesRead ctx1 7 asg before b2] ++ t ++
      [GovernanceVerified ctx1 asg runtime b3; RolesRead ctx1 7 asg after b4] /\
    built (E := aenv) ctx1 runtime /\
    Forall (confirmed_block (E := aenv)) [b1; b2; b3; b4] /\
    governed_at (E := aenv) ctx1 asg runtime (bk_hash b1) /\ roles_at (E := aenv) ctx1 7 asg before (bk_hash b2) /\
    governed_at (E := aenv) ctx1 asg runtime (bk_hash b3) /\ roles_at (E := aenv) ctx1 7 asg after (bk_hash b4) /\
    ro_gateway_owner after = asg /\ ro_its_owner after = asg /\
    ro_gateway_operator after = ro_gateway_operator before /\ ro_gateway_operator after <> asg /\
    ro_sender_is_its_operator after = ro_sender_is_its_operator before /\ ro_asg_is_its_operator after = false.
Proof.
  apply (handoff_completes (fun d => d) keys ctx1 applied (Some 50) before_handoff after_handoff ()); [reflexivity|].
  vm_compute. reflexivity.
Defined.

(** ** The configuration *)

Definition updates1 : list (string * Json) := [("AxelarGateway", JObj [("owner", JStr "50"); ("operator", JStr "8")])].

Lemma save_witness :
  exists root root' e e', json_of [42] = Some root /\
    read_config (cx_path ctx1) (start 3 false) = (Ok [42], e) /\
    write_config (cx_path ctx1) (pretty_json root' ++ newline) e = (Ok (), e') /\
    as_original (save ctx1 updates1 before_handoff).2 = pretty_json root' ++ newline /\
    (forall name f, at_keys ["chains"; "toy"; "contracts"; name; f] root' =
       patched updates1 name f (at_keys ["chains"; "toy"; "contracts"; name; f] root)) /\
    (forall k, k <> "contracts" -> at_keys ["chains"; "toy"; k] root' = at_keys ["chains"; "toy"; k] root) /\
    (forall c, c <> "toy" -> at_keys ["chains"; c] root' = at_keys ["chains"; c] root) /\
    (forall k, k <> "chains" -> at_keys [k] root' = at_keys [k] root).
Proof.
  apply (save_spec ctx1 updates1 before_handoff (save ctx1 updates1 before_handoff).2 ()).
  - split; [apply (bool_decide_unpack _); vm_compute; reflexivity|].
    repeat constructor; apply (bool_decide_unpack _); vm_compute; reflexivity.
  - vm_compute. reflexivity.
Defined.
End AsgToy.
