(* ===== verification/IntentWitnesses.v ===== *)
(** * Concrete intents

    Instances of the interfaces on which the theorems about intents are applied:
    two chains with a native asset and a token each, an RFQ service that quotes
    one unit less than it takes and answers every status query with the state of
    the environment, and a node that mines what it is sent. *)

From S2P Require Import Prelude Types Retry Journal Chain Plan Config Intent Verifiers Target Json Cosmos LoadNet Propose ProposeFacts RobustSend SignedCalls Intents IntentAmounts IntentRun IntentSafety IntentBounds IntentCaps.

Module IntentToy.

Record desk : Type := mkToy { ie_time : Z; ie_mined : list B256; ie_state : TransferState }.

(** ** The node and the libraries *)

Definition receipt0 (h : B256) : Receipt := mkReceipt h (Some 1) (Some 77) true None [].
Definition signed0 (rq : TransactionRequest) (count : Z) : TxEnvelope :=
  let nonce := default count (rq_nonce rq) in
  mkEnvelope nonce nonce (rq_chain_id rq) (match rq_to rq with Some (CallTo a) => Some a | _ => None end)
    (default 0 (rq_value rq)) (default [] (rq_input rq)) 21000 100 None (Some 1) 2 None None None.
Definition mine (h : B256) (e : desk) : desk := mkToy (ie_time e) (h :: ie_mined e) (ie_state e).
Definition pass (d : Z) (e : desk) : desk := mkToy (ie_time e + Z.max 0 d) (ie_mined e) (ie_state e).

#[export] Instance toy_pool : PoolNode desk := {
  pool_fill _ _ rq e := (inr (Some (signed0 rq (5 + Z.of_nat (length (ie_mined e))))), e);
  pool_transaction_count _ _ e := (inr (5 + Z.of_nat (length (ie_mined e))), e);
  pool_estimate_gas _ _ e := (inr 21000, e);
  pool_gas_price _ e := (inr 100, e);
  pool_send_raw _ raw e := (inr (default 0 (head raw)), mine (default 0 (head raw)) e);
  pool_receipt _ h e := (inr (if bool_decide (h ∈ ie_mined e) then Some (receipt0 h) else None), e);
  pool_knows _ h e := (inr (bool_decide (h ∈ ie_mined e)), e);
  now_ms := ie_time;
  nap_ms := pass
}.

#[export] Instance toy_evm : EvmLib := {
  keccak256 _ := 0;
  b256_to_string := to_dec;
  parse_u256 := parse_uint 256;
  u256_to_string := to_dec;
  signer_address := parse_uint 160;
  decode_2718 _ := None;
  encoded_2718 t := [tx_nonce t];
  recover_address _ := None;
  from_transaction_with_sender _ _ := mkRequest None None None None None None None None None None None None None
}.
#[export] Instance toy_accounts : CosmosAccounts := {
  account_prefix _ := None;
  wallet_address _ := None;
  parse_address := parse_uint 160
}.

#[export] Instance toy_amounts : AmountText.
Proof.
  split; [done|]. intros [|c s] Hs Hd; [done|]. simpl in Hd. apply andb_prop in Hd as [[d Hc]%bool_decide_eq_true _].
  apply parse_uint_digits. by rewrite Hc.
Qed.

Definition chain0 (name url : string) (id : Z) : ChainConfig :=
  mkChainConfig (Some name) (Some name) (Some id) (Some url) (Some "evm") None.
#[export] Instance toy_config : ConfigLib := {
  chains_config _ := Some (mkChainsConfig
    (<["alpha" := chain0 "alpha" "http://alpha" 5]> (<["beta" := chain0 "beta" "http://beta" 6]>
      (<["gamma" := chain0 "gamma" "http://gamma" 9]> ∅)))
    (mkAxelarConfig None None None None None None None None));
  parse_price _ := None;
  address_to_string := to_dec;
  address_json := to_dec
}.

#[export] Instance toy_lib : IntentLib := {
  approve_calldata spender amount := APPROVE_SELECTOR ++ be_bytes 32 spender ++ be_bytes 32 amount;
  valid_url _ := true;
  url_parts _ := Some ("https", false)
}.
#[export] Instance toy_bytes : ApproveBytes.
Proof.
  split. intros spender amount. apply Forall_app. split; [repeat constructor; unfold is_byte; lia|].
  apply Forall_app. split; apply be_bytes_range.
Qed.

(** ** The RFQ service *)

Definition alpha : string := "eip155:5".
Definition beta : string := "eip155:6".
Definition catalog0 : list ChainInfo :=
  [mkChainInfo alpha "Alpha" "evm"; mkChainInfo beta "Beta" "evm"; mkChainInfo "eip155:9" "Gamma" "evm"].
Definition tokens0 : list TokenInfo :=
  [mkTokenInfo alpha "0" "ETH" 18; mkTokenInfo alpha "50" "USD" 6; mkTokenInfo beta "0" "ETH" 18;
   mkTokenInfo beta "60" "USD" 6; mkTokenInfo "eip155:9" "0" "ETH" 18].

(** The settlement contract is 90. *)
Definition payload0 (to data value : string) : ActionPayload := EvmTransaction (mkPayload None to data value None None None).
Definition actions0 (chain token : string) (input : Z) : list Action :=
  (if bool_decide (token = "0") then []
   else [mkAction "1" "" Approval chain (payload0 token (hex_text (approve_calldata 90 input)) "0")]) ++
  [mkAction "2" "" Transaction chain (payload0 "90" "0x01" (if bool_decide (token = "0") then to_dec input else "0"))].

Definition quote0 (rq : QuoteRequest) (now : Z) : Quote :=
  let amount := default 0 (parse_uint 256 (qr_amount rq)) in
  let input := match qr_order_type rq with ExactInput => amount | ExactOutput => amount + 1 end in
  let output := match qr_order_type rq with ExactInput => amount - 1 | ExactOutput => amount end in
  mkQuote (qr_to_chain rq +:+ "/" +:+ qr_to_token rq +:+ "/" +:+ to_dec output)
    (mkBackend IntentBackend "rfq" JNull JNull)
    (mkValidity "firm" (now + 60000) None)
    (mkQuoteInput (qr_from_chain rq) (qr_from_token rq) (to_dec input) None)
    (mkQuoteOutput (qr_to_chain rq) (qr_to_token rq) (to_dec output) None None)
    (actions0 (qr_from_chain rq) (qr_from_token rq) input).

(** The identifier of a quote says what it promises. *)
Definition status0 (id : string) (state : TransferState) : StatusResponse :=
  mkStatus id state
    (match split_slash id with
     | Some (chain, rest) => '(token, amount) ← split_slash rest; Some (mkStatusOutput chain token amount)
     | None => None
     end) None.

Definition balance0 (token : Address) : Z := if token =? 0 then 2 * 10 ^ 18 else 1000000.

#[export] Instance toy_node : IntentNode desk := {
  get_chains _ e := (Response 200 (Some catalog0), e);
  get_tokens _ e := (Response 200 (Some tokens0), e);
  post_quote _ rq e := (Response 200 (Some [quote0 rq (ie_time e)]), e);
  get_status _ id e := (Response 200 (Some (status0 id (ie_state e))), e);
  node_chain_id url e := (inr (if bool_decide (url = "http://alpha") then 5 else if bool_decide (url = "http://beta") then 6 else 9), e);
  native_balance _ _ e := (inr (balance0 0), e);
  token_balance _ token _ e := (inr (balance0 token), e);
  token_allowance _ _ _ _ e := (inr 0, e);
  utc_now := ie_time;
  config_file _ e := (Some JNull, e);
  shuffle l e := (reverse l, e);
  wallet_lock _ e := (true, e);
  consent _ e := (true, e);
  interrupted e := (false, e);
  doze := pass
}.

#[export] Instance toy_shuffle : ShuffleLaw desk.
Proof. split. intros l e. simpl. apply reverse_Permutation. Qed.
#[export] Instance toy_pool_clock : PoolClock desk.
Proof. split; intros; simpl; lia. Qed.
#[export] Instance toy_intent_clock : IntentClock desk.
Proof. split. intros. simpl. lia. Qed.

(** ** Runs *)

Definition args0 : IntentRuntimeArgs := mkRuntimeArgs Testnet None "config.json" "7" 2 60 true ["alpha"; "beta"].
Definition no_env (name : string) : option string := None.
Definition same (d : Z) : Z := d.
Definition idle (state : TransferState) : Desk desk := mkDesk (mkToy 0 [] state) [] (mkStats 0 0 0 []) [].
Definition chains0 : gmap string ChainRuntime :=
  <[alpha := mkChainRuntime "Alpha" "http://alpha"]> (<[beta := mkChainRuntime "Beta" "http://beta"]> ∅).
Definition usd (chain token : string) : WalletAsset := mkAsset (mkAssetId chain token) "" "USD" 6 1000000 false.
Definition limits0 : RunLimits := mkRunLimits 2000 60000.
Definition leg0 : LegExecution := mkLeg (usd alpha "50") (usd beta "60") ExactInput 1000 7 (Some 5000) 90.
Definition leg_run (state : TransferState) := execute_leg same "rfq" chains0 "7" 7 leg0 limits0 (idle state).
Definition traffic_args : TrafficArgs := mkTrafficArgs args0 100 None (Some 12000) (Some 2).
Definition traffic_run (state : TransferState) := traffic same no_env 10 traffic_args (idle state).
Definition sweep_args : SweepArgs := mkSweepArgs args0 3 false false 100 ExactInput Token (Some 5).
Definition sweep_run := sweep same no_env 10 sweep_args (idle DoneTransfer).

Lemma format_units_round_trip_witness : to_base_units "0.0105" 6 = Ok 10500.
Proof. refine (format_units_round_trip 10500 6 _). lia. Defined.

Lemma leg_spends_as_quoted_witness :
  exists t, dk_trace (leg_run DoneTransfer).2 = dk_trace (idle DoneTransfer) ++ t /\
    leg_done (E := desk) "rfq" 7 leg0 (mkLegResult 1000 999 0 0 0 0) t.
Proof.
  destruct (leg_spends_as_quoted same "rfq" chains0 "7" 7 leg0 limits0 (idle DoneTransfer)) as (t & Ht & _ & Hr).
  exists t. split; [exact Ht|]. apply Hr. vm_compute. reflexivity.
Defined.

Definition plan0 : RoutePlan :=
  mkRoutePlan (usd alpha "50") (usd beta "60") ExactInput 1000 1000 998 0 0 (Capped 5000 0) 90 90.
Lemma round_trip_within_budget_witness :
  exists t1 t2, dk_trace (execute_round_trip same "rfq" chains0 "7" 7 plan0 limits0 (idle DoneTransfer)).2 = t1 ++ t2 /\
    within_leg (E := desk) "rfq" "7" 7 (mkLeg (usd alpha "50") (usd beta "60") ExactInput 1000 7 (Some 5000) 90) t1.
Proof.
  destruct (round_trip_within_budget same "rfq" chains0 "7" 7 plan0 limits0 (idle DoneTransfer) 5000 0 eq_refl)
    as (t1 & t2 & Ht & Ht1 & _). exists t1, t2. split; [exact Ht|exact Ht1].
Defined.

Definition discovery0 : RouteDiscovery :=
  mkDiscovery chains0 [usd alpha "50"; usd beta "60"; mkAsset (mkAssetId alpha "0") "" "ETH" 18 (2 * 10 ^ 18) true;
                       mkAsset (mkAssetId beta "0") "" "ETH" 18 (2 * 10 ^ 18) true].
Definition plan1 : RoutePlan :=
  mkRoutePlan (usd alpha "50") (usd beta "60") ExactInput 10000 10000 9998 0 0 (Capped 10000 10000) 90 90.
Lemma sweep_plans_spec_witness : NoDup (map pair_key [plan1]).
Proof.
  refine (proj1 (sweep_plans_spec "rfq" discovery0 7 Token 100 ExactInput (idle DoneTransfer) (idle DoneTransfer) [plan1] _ _ _)).
  - repeat constructor; simpl; lia.
  - lia.
  - vm_compute. reflexivity.
Defined.

Lemma restricted_run_stays_inside_witness : only (permitted (E := desk) args0) (sweep same no_env 10 sweep_args) (fun _ => True).
Proof.
  refine (proj1 (proj2 (proj2 (proj2 (restricted_run_stays_inside same no_env args0 _)))) 10%nat sweep_args eq_refl).
  discriminate.
Defined.

Lemma sweep_within_cap_witness :
  exists t, dk_trace sweep_run.2 = dk_trace (idle DoneTransfer) ++ t /\ Z.of_nat (deposits t) <= 5.
Proof. refine (sweep_within_cap same no_env 10 sweep_args 5 (idle DoneTransfer) eq_refl _). unfold u64_max. lia. Defined.

Lemma traffic_reports_within_cap_witness : tm_intents (mkSummary 2 0 "intent limit") <= 2.
Proof.
  refine (traffic_reports_within_cap same no_env 10 traffic_args 2 (idle DoneTransfer) (traffic_run DoneTransfer).2 _ eq_refl _ _).
  - unfold u64_max. lia.
  - vm_compute. reflexivity.
Defined.

Lemma intent_ends_witness : (leg_run PendingTransfer).1 <> Err OutOfFuel.
Proof. refine (intent_ends same "rfq" chains0 "7" 7 leg0 limits0 (idle PendingTransfer) _ _); simpl; lia. Defined.

(** The cap of a traffic run does not bound what it sends.  With a cap of two
    intents and transfers that fail after their deposit, a run of twelve seconds
    returns with three deposits handed over and no intent reported: only
    fulfilled intents count against the cap. *)
Theorem traffic_exceeds_cap :
  exists args s summary s', ta_max_intents args = Some 2 /\
    traffic (E := desk) same no_env 10 args s = (Ok summary, s') /\ dk_trace s = [] /\
    tm_intents summary = 0 /\ deposits (dk_trace s') = 3%nat.
Proof.
  exists traffic_args, (idle FailedTransfer), (mkSummary 0 3 "duration"), (traffic_run FailedTransfer).2.
  split; [done|]. split; [|split; [done|]; split; [done|by vm_compute]].
  rewrite (surjective_pairing (traffic _ _ _ _ _)). by f_equal.
Qed.
End IntentToy.
