(* ===== verification/StressWitnesses.v ===== *)
(** * A concrete stress run

    The world of IntentWitnesses, and a run in which a deposit is quoted, sent,
    confirmed and joined while another one is quoted. *)

From S2P Require Import Prelude Types Retry Journal Chain Plan Config Intent Verifiers Target Json Cosmos LoadNet Propose ProposeFacts RobustSend SignedCalls Intents IntentAmounts IntentRun IntentSafety IntentBounds IntentCaps IntentWitnesses Pipeline PipelineFacts Stress StressFacts StressBounds.

Module StressToy.
Import IntentToy.

#[export] Instance toy_pipe : PipeNode desk := {
  pending_count _ _ e := (inr (5 + Z.of_nat (length (ie_mined e))), e);
  receipt_gas _ := (21000, 60)
}.
#[export] Instance toy_fair : FairReceipts desk.
Proof. split. intros signer url rq e e1 env url' e' e1' receipt [= <- <-] _. simpl. lia. Qed.

Lemma toy_fill : fill_keeps_nonce (E := desk).
Proof. intros signer url rq e env e' n [= <- <-] Hn. simpl. by rewrite Hn. Qed.

Definition stress_args : StressArgs :=
  mkStressArgs args0 "usd" "0.01" None (Some 3) 2 (Some "0.03") (Some "1") "0.1".
Definition setup_result : result (IntentRuntime * StressLimits * list SourceState) * Desk desk :=
  setup_stress same no_env stress_args (idle DoneTransfer).
Definition setup_parts : IntentRuntime * StressLimits * list SourceState :=
  match setup_result.1 with
  | Ok parts => parts
  | Err _ => (mkRuntime "" 0 (mkChainsConfig ∅ (mkAxelarConfig None None None None None None None None)) "" limits0 false [],
              mkStressLimits None None 0 0 None None 0 0 "", [])
  end.
Definition rt1 : IntentRuntime := setup_parts.1.1.
Definition limits1 : StressLimits := setup_parts.1.2.
Definition sources1 : list SourceState := setup_parts.2.

Lemma setup_done : setup_result = (Ok (rt1, limits1, sources1), setup_result.2).
Proof. vm_compute. reflexivity. Qed.

(** ** The first task goes on *)

Abbreviation step1 := (stress_step (E := desk) same (ir_base_url rt1) (ir_wallet rt1) limits1 None).

Definition quote_first (e : desk) (s : Sched) : Sched :=
  match sc_tasks s with
  | Quoting i plan :: after => set_tasks (quoted (ir_base_url rt1) (ir_wallet rt1) e i plan :: after) s
  | _ => s
  end.
Definition send_first (e : desk) (s : Sched) : Sched :=
  match sc_tasks s with
  | Depositing i p :: after =>
      match sc_sources s !! i with
      | Some src =>
          match broadcast same (pp_transaction p) (mkLane e (ss_sender src)) with
          | (Ok r, lane) => edit_source i (set_sender (ln_sender lane)) (set_tasks (deposited_task (now_ms e) i p r :: after) s)
          | _ => s
          end
      | None => s
      end
  | _ => s
  end.
Definition settle_first (e : desk) (s : Sched) : Sched :=
  match sc_tasks s with
  | Waiting i p pending started :: after =>
      match sc_sources s !! i with
      | Some src =>
          match (wait_receipt_any RECEIPT_FUEL (ps_endpoints (ss_sender src)) [pd_hash pending]
                   (pk_receipt_timeout (ps_limits (ss_sender src))) (mkPool e [])).1 with
          | Ok found =>
              match settle pending found (mkLane e (ss_sender src)) with
              | (Ok r, lane) =>
                  edit_source i (set_sender (ln_sender lane)) (set_tasks (settled_task (now_ms e) i p started r :: after) s)
              | _ => s
              end
          | Err _ => s
          end
      | None => s
      end
  | _ => s
  end.
Definition join_first (now : Z) (s : Sched) : Sched :=
  match sc_tasks s with Finished c :: after => complete_deposit now c (set_tasks after s) | _ => s end.

(** A step, or nothing. *)
Abbreviation path1 := (stress_path (E := desk) same (ir_base_url rt1) (ir_wallet rt1) limits1 None).
Definition goes (s s' : Sched) : Prop := exists receipts, path1 s receipts s'.
Lemma goes_here s : goes s s.
Proof. exists []. apply path_end. Qed.
Lemma goes_once s receipts s' : step1 s receipts s' -> goes s s'.
Proof. intros Hs. exists (receipts ++ []). eapply path_step; [exact Hs|apply path_end]. Qed.
Lemma goes_on s s' s'' : goes s s' -> goes s' s'' -> goes s s''.
Proof.
  intros [rs Hr] [rs' Hr']. exists (rs ++ rs'). induction Hr as [|s r s1 more s2 Hs _ IH]; [done|].
  rewrite <- app_assoc. eapply path_step; [exact Hs|by apply IH].
Qed.

Lemma quote_first_step e s : goes s (quote_first e s).
Proof.
  unfold quote_first. destruct (sc_tasks s) as [|[] after] eqn:Ht; try apply goes_here.
  eapply goes_once. by apply (step_quote _ _ _ _ _ e s []).
Qed.
Lemma send_first_step e s : goes s (send_first e s).
Proof.
  unfold send_first. destruct (sc_tasks s) as [|[] after] eqn:Ht; try apply goes_here.
  destruct (sc_sources s !! source) as [src|] eqn:Hs; [|apply goes_here].
  destruct (broadcast _ _ _) as [[r|] lane] eqn:Hb; [|apply goes_here]. eapply goes_once. by eapply (step_broadcast _ _ _ _ _ e s []).
Qed.
Lemma settle_first_step e s : goes s (settle_first e s).
Proof.
  unfold settle_first. destruct (sc_tasks s) as [|[] after] eqn:Ht; try apply goes_here.
  destruct (sc_sources s !! source) as [src|] eqn:Hs; [|apply goes_here].
  destruct (wait_receipt_any _ _ _ _ _).1 as [found|] eqn:Hw; [|apply goes_here].
  destruct (settle _ _ _) as [[r|] lane] eqn:Hb; [|apply goes_here]. eapply goes_once. by eapply (step_settle _ _ _ _ _ e e s []).
Qed.
Lemma join_first_step now s : goes s (join_first now s).
Proof.
  unfold join_first. destruct (sc_tasks s) as [|[] after] eqn:Ht; try apply goes_here.
  eapply goes_once. by apply (step_join _ _ _ _ _ now s []).
Qed.

(** ** The run *)

Definition env0 : desk := dk_env setup_result.2.
Definition top (s : Sched) : Sched := loop_top limits1 None false 0 s.
Definition sent_state : Sched := send_first env0 (quote_first env0 (top (start_sched sources1))).
(** The node has mined what the run sent. *)
Definition mined_by (s : Sched) : desk := mkToy 0 (map tx_nonce (sc_sources s ≫= fun src => wire (ss_sender src))) DoneTransfer.
Definition joined_state : Sched := join_first 0 (settle_first (mined_by sent_state) sent_state).
(** An interrupt; the second deposit drains. *)
Definition drained_state : Sched :=
  let s := send_first env0 (quote_first env0 (set_stop (Some InterruptedRun) joined_state)) in
  join_first 0 (settle_first (mined_by s) s).

Lemma sent_reached : goes (start_sched sources1) sent_state.
Proof.
  unfold sent_state. eapply goes_on; [|apply send_first_step]. eapply goes_on; [|apply quote_first_step].
  eapply goes_once. apply (step_top _ _ _ _ _ false 0).
Qed.
Lemma joined_reached : goes (start_sched sources1) joined_state.
Proof.
  unfold joined_state. eapply goes_on; [|apply join_first_step]. eapply goes_on; [|apply settle_first_step]. apply sent_reached.
Qed.
Lemma drained_reached : goes (start_sched sources1) drained_state.
Proof.
  unfold drained_state. eapply goes_on; [|apply join_first_step]. eapply goes_on; [|apply settle_first_step].
  eapply goes_on; [|apply send_first_step]. eapply goes_on; [|apply quote_first_step].
  eapply goes_on; [apply joined_reached|]. eapply goes_once, step_stop; [by vm_compute|by left].
Qed.
Lemma sent_stressed : stressed same no_env stress_args (idle DoneTransfer) rt1 limits1 None sent_state.
Proof. exists sources1, setup_result.2. split; [exact setup_done|apply sent_reached]. Qed.
Lemma drained_stressed : stressed same no_env stress_args (idle DoneTransfer) rt1 limits1 None drained_state.
Proof. exists sources1, setup_result.2. split; [exact setup_done|apply drained_reached]. Qed.

Lemma stress_within_caps_witness :
  exists envs, Forall2 (fun src => orderly (ss_sender src)) (sc_sources sent_state) envs /\ Z.of_nat (total_sent envs) <= 3.
Proof.
  destruct (stress_within_caps same no_env stress_args (idle DoneTransfer) rt1 limits1 None sent_state toy_fill sent_stressed)
    as (envs & Hl & Hcap & _). exists envs. split; [exact Hl|]. apply Hcap; [reflexivity|unfold u64_max; lia].
Defined.

Definition first_source : SourceState :=
  match sc_sources sent_state with src :: _ => src | [] => mkSource [] (pipelined_sender [] "" 0 (mkPipelineLimits 0 None 0)) 0 0 (mkSourceReport "" 0 0 0 None) end.
Definition first_envelope : TxEnvelope :=
  match wire (ss_sender first_source) with env :: _ => env | [] => signed0 (mkRequest None None None None None None None None None None None None None) 0 end.

Lemma stress_deposits_as_planned_witness :
  exists plan q rq amount, plan ∈ ss_routes first_source /\
    offered (E := desk) (ir_base_url rt1) (leg_request (ir_wallet rt1) (stress_leg (ir_wallet rt1) plan)) q /\
    quoted_input q amount /\ amount <= sl_amount limits1 /\
    is_deposit (ir_wallet rt1) (lp_from plan) (lp_settlement_contract plan) q rq /\
    signed_for (E := desk) (ir_signer rt1) rq first_envelope.
Proof.
  refine (stress_deposits_as_planned same no_env stress_args (idle DoneTransfer) rt1 limits1 None sent_state first_source first_envelope
    toy_fill sent_stressed _ _).
  - vm_compute. left.
  - vm_compute. left.
Defined.

Lemma stress_gas_within_budget_witness :
  exists receipts, path1 (start_sched sources1) receipts joined_state /\
    0 <= paid_gas (E := desk) 0 receipts /\ paid_gas (E := desk) 0 receipts + pending_gas 0 (sc_tasks joined_state) <= 10 ^ 18.
Proof.
  destruct joined_reached as [receipts Hr]. exists receipts. split; [exact Hr|].
  refine (stress_gas_within_budget same no_env stress_args (idle DoneTransfer) setup_result.2 rt1 limits1 sources1 None receipts
    joined_state 0 (10 ^ 18) toy_fill setup_done Hr _ _ _).
  - vm_compute. reflexivity.
  - lia.
  - vm_compute. by eexists.
Defined.

Lemma stress_accounts_witness :
  ad_attempts (sc_admission drained_state) =
    ad_confirmed (sc_admission drained_state) + ad_skipped (sc_admission drained_state) + ad_failed (sc_admission drained_state).
Proof.
  refine (proj1 (stress_accounts same no_env stress_args (idle DoneTransfer) rt1 limits1 None drained_state toy_fill drained_stressed _)).
  split; [vm_compute; by eexists|vm_compute; reflexivity].
Defined.
End StressToy.
