(* ===== verification/McpWitnesses.v ===== *)
(** * Concrete MCP servers

    The world of IntentWitnesses with servers on it: a load test that is
    admitted, started and sends; two servers that share a ledger; a server whose
    agent runs the traffic simulation. *)

From Stdlib Require Import Ascii.
From S2P Require Import Prelude Types Retry Journal Chain Plan Config Intent Verifiers Target Json Cosmos LoadNet Propose ProposeFacts RobustSend SignedCalls Intents IntentAmounts IntentRun IntentSafety IntentBounds IntentCaps IntentWitnesses Pipeline Stress Mcp McpFacts McpRuns.

Module McpToy.
Import IntentToy.

(** ** A text of the ledger: the count and a closing brace *)

#[export] Instance toy_text : McpText := {
  ledger_text n := to_dec n +:+ "}";
  parse_ledger text := strip_suffix "}" text ≫= parse_uint 64;
  parse_report _ := Some JNull
}.

Lemma no_brace a b acc : parse_digits (a +:+ String "}"%char b) acc = None.
Proof.
  revert acc. induction a as [|c a IH]; intros acc; [done|]. cbn [String.append parse_digits].
  simpl. destruct (digit_value c); [apply IH|done].
Qed.

Lemma no_brace_in_number w a b : parse_uint w (a +:+ String "}"%char b) = None.
Proof.
  unfold parse_uint. destruct a as [|c a]; [done|]. change (String c a +:+ String "}"%char b) with (String c (a +:+ String "}"%char b)).
  pose proof (no_brace (String c a) b 0) as Hc. change (String c a +:+ String "}"%char b) with (String c (a +:+ String "}"%char b)) in Hc.
  destruct (decide (c = "+"%char)) as [->|Hne].
  - rewrite no_brace. by destruct (a +:+ String "}"%char b).
  - assert (match c with "+"%char => a +:+ String "}"%char b | _ => String c (a +:+ String "}"%char b) end = String c (a +:+ String "}"%char b)) as Hb.
    { destruct c as [[] [] [] [] [] [] [] []]; done. }
    rewrite Hb. cbn [mbind option_bind]. by rewrite Hc.
Qed.

#[export] Instance toy_text_laws : McpTextLaws.
Proof.
  split.
  - intros n Hn. simpl. assert (strip_suffix "}" (to_dec n +:+ "}") = Some (to_dec n)) as -> by (by apply strip_suffix_Some).
    simpl. apply parse_to_dec. unfold u64_max in Hn. lia.
  - intros k n Hn. simpl. destruct (strip_suffix "}" (cut k (to_dec n +:+ "}"))) as [d|] eqn:Hd; [|done]. exfalso.
    apply strip_suffix_Some in Hd. unfold cut in Hd. rewrite string_length_app in Hd. simpl in Hd.
    set (j := Nat.min k _) in Hd. assert (j <= String.length (to_dec n))%nat as Hj by (unfold j; lia).
    assert (String.substring 0 j (to_dec n +:+ "}") = String.substring 0 j (to_dec n)) as Hs.
    { clear -Hj. revert Hj. generalize (to_dec n) as s. revert j. induction j as [|j IH]; intros s Hj; [by destruct s|].
      destruct s as [|c s]; simpl in *; [lia|]. f_equal. apply IH. lia. }
    rewrite Hs in Hd. pose proof (parse_to_dec 64 n ltac:(unfold u64_max in Hn; lia)) as Hp.
    rewrite (substring_split j (to_dec n) Hj), Hd, text_app_assoc in Hp. revert Hp. generalize (String.substring j (String.length (to_dec n) - j) (to_dec n)).
    intros y Hp. pose proof (no_brace_in_number 64 d y) as Hnone. change (String "}"%char y) with ("}" +:+ y) in Hnone. congruence.
Qed.

(** ** Runs *)

Definition limits8 : SpendLimits := mkSpendLimits 5 (Some 8) ["alpha"; "beta"].
Definition load5 : Flow := LoadTestFlow "alpha" "beta" 5.
(** Flows of the other kinds send what they reserved. *)
Definition whole (flow : Flow) (sent : Z) (claimed : option Z) : Prop := sent = reserved flow /\ claimed = Some (reserved flow).

Abbreviation go operator used shared := (mcp_step (E := desk) same no_env operator used shared whole).

(** A flow with the slot sends [k] times. *)
Lemma sends operator used shared i sv flow id n k claimed m :
  mc_servers m !! i = Some sv -> mc_active m = [mkActive i flow id n] ->
  flow_runs (E := desk) same no_env whole sv flow (n + Z.of_nat k) claimed ->
  rtc (go operator used shared) m
    (mkMachine (mc_ledger m) (mc_reports m) (mc_locked m) (mc_servers m) (mc_calls m) [mkActive i flow id (n + Z.of_nat k)]
       (mc_sent m + Z.of_nat k)).
Proof.
  revert n m. induction k as [|k IH]; intros n m Hi Ha Hf.
  - rewrite !Z.add_0_r. rewrite <- Ha. destruct m. reflexivity.
  - replace (n + Z.of_nat (S k)) with (n + 1 + Z.of_nat k) in * by lia. replace (mc_sent m + Z.of_nat (S k)) with (mc_sent m + 1 + Z.of_nat k) by lia.
    eapply rtc_l; [|apply (IH (n + 1) (count_sent (with_slot (mc_locked m) [mkActive i flow id (n + 1)] m)) Hi eq_refl Hf)].
    eapply (step_send _ _ _ _ _ _ i sv [] flow id n []); [done|done|exact Hf|lia].
Qed.

Definition server0 (limits : SpendLimits) (count : Z) (runs : RunRegistry) (last : Z) : Server :=
  mkServer Testnet (mkPolicy limits (mkSpent count true)) runs last.
Definition id0 : RunId := "axe-load-test-1000".
Definition run0 : RunRegistry := mkRegistry 0 {[ id0 := false ]}.
Definition started : Machine :=
  mkMachine (Some "5}") ∅ true {[ 0%nat := server0 limits8 5 run0 1000 ]} [] [mkActive 0 load5 (Some id0) 0] 0.

(** A step to a state that is given. *)
Lemma hop {A} (R : A -> A -> Prop) x y y' z : R x y -> y = y' -> rtc R y' z -> rtc R x z.
Proof. intros Hxy <-. by apply rtc_l. Qed.

Definition served (limits : SpendLimits) : Machine := mkMachine None ∅ false {[ 0%nat := server0 limits 0 new_registry 0 ]} [] [] 0.
Definition called : Machine := mkMachine (Some "5}") ∅ false {[ 0%nat := server0 limits8 5 new_registry 0 ]} [(0%nat, load5)] [] 0.

Lemma start_one : rtc (go (with_cap 8) any_but_traffic false) fresh_machine started.
Proof.
  eapply (hop _ _ _ (served limits8)).
  { apply (step_serve _ _ _ _ _ _ 0 Testnet false limits8 true (server0 limits8 0 new_registry 0)); [done|done|by right|reflexivity]. }
  { reflexivity. }
  eapply (hop _ _ _ called).
  { apply (step_call _ _ _ _ _ _ 0 (server0 limits8 0 new_registry 0) None (CallLoadTest "alpha" "beta" (Some 5)) load5 Written
      (mkPolicy limits8 (mkSpent 5 true)) (Some "5}")); [reflexivity|reflexivity|done|done|vm_compute; reflexivity]. }
  { vm_compute. reflexivity. }
  eapply (hop _ _ _ started).
  { apply (step_begin _ _ _ _ _ _ 0 (server0 limits8 5 new_registry 0) [] load5 [] LockOpened 1000 (Some id0) (server0 limits8 5 run0 1000));
      [reflexivity|reflexivity|vm_compute; reflexivity]. }
  { vm_compute. reflexivity. }
  reflexivity.
Qed.

Definition sent_five : Machine :=
  mkMachine (Some "5}") ∅ true {[ 0%nat := server0 limits8 5 run0 1000 ]} [] [mkActive 0 load5 (Some id0) 5] 5.
Lemma run_one : mcp_run (E := desk) same no_env (with_cap 8) any_but_traffic false whole sent_five.
Proof.
  unfold mcp_run. etrans; [exact start_one|].
  refine (sends (with_cap 8) any_but_traffic false 0 _ load5 (Some id0) 0 5 (Some 5) started eq_refl eq_refl _).
  apply runs_elsewhere; [done|by split].
Qed.

Lemma one_flow_at_a_time_witness :
  begin (server0 limits8 5 run0 1000) (ExpressFlow "alpha" "beta") LockOpened true 2000 =
    (inl HeldByAnotherProcess, server0 limits8 5 run0 1000) /\
  exists a, mc_active sent_five = [a].
Proof.
  split; [vm_compute; reflexivity|].
  destruct (proj2 (proj2 (one_flow_at_a_time (E := desk) same no_env (with_cap 8) any_but_traffic false whole sent_five run_one))
    0%nat (server0 limits8 5 run0 1000) (ExpressFlow "alpha" "beta") LockOpened 2000 (inl HeldByAnotherProcess)
    (server0 limits8 5 run0 1000) eq_refl ltac:(vm_compute; reflexivity)) as (a & Ha & _).
  exists a. exact Ha.
Defined.

(** ** A sweep within a budget of two *)

Definition two_only : SpendLimits := mkSpendLimits 2 (Some 2) ["alpha"; "beta"].
Definition sweep2 : Flow := SweepFlow 2 1 100 ExactInput Token.
Definition sweep_id : RunId := "axe-intents-sweep-1000".
Definition sweeping : Server := server0 two_only 2 (mkRegistry 0 {[ sweep_id := false ]}) 1000.

Lemma sweep_sends_two : flow_runs (E := desk) same no_env whole sweeping sweep2 2 (Some 2).
Proof.
  set (m := claims_of sweep2 (fun results => Z.of_nat (length results)) (sweep same no_env 10
    (mkSweepArgs (intents_runtime sweeping "config.json" "7") 1 false false 100 ExactInput Token (Some 2)))).
  pose proof (runs_here (E := desk) same no_env whole sweeping sweep2 10 "config.json" "7" m (idle DoneTransfer)
    (dk_trace (m (idle DoneTransfer)).2) eq_refl eq_refl) as Hf.
  assert (deposits (dk_trace (m (idle DoneTransfer)).2) = 2%nat) as Hd by (vm_compute; reflexivity).
  assert ((m (idle DoneTransfer)).1 = Ok 2) as Hc by (vm_compute; reflexivity). by rewrite Hd, Hc in Hf.
Qed.

Definition swept_two : Machine :=
  mkMachine (Some "2}") ∅ true {[ 0%nat := sweeping ]} [] [mkActive 0 sweep2 (Some sweep_id) 2] 2.
Lemma sweep_run_two : mcp_run (E := desk) same no_env (with_cap 2) counting_tool false whole swept_two.
Proof.
  unfold mcp_run. eapply (hop _ _ _ (served two_only)).
  { apply (step_serve _ _ _ _ _ _ 0 Testnet false two_only true (server0 two_only 0 new_registry 0)); [done|done|by right|reflexivity]. }
  { reflexivity. }
  eapply (hop _ _ _ (mkMachine (Some "2}") ∅ false {[ 0%nat := server0 two_only 2 new_registry 0 ]} [(0%nat, sweep2)] [] 0)).
  { apply (step_call _ _ _ _ _ _ 0 (server0 two_only 0 new_registry 0) None (CallSweep 2 None None None None) sweep2 Written
      (mkPolicy two_only (mkSpent 2 true)) (Some "2}")); [reflexivity|reflexivity|done|done|vm_compute; reflexivity]. }
  { vm_compute. reflexivity. }
  eapply (hop _ _ _ (mkMachine (Some "2}") ∅ true {[ 0%nat := sweeping ]} [] [mkActive 0 sweep2 (Some sweep_id) 0] 0)).
  { apply (step_begin _ _ _ _ _ _ 0 (server0 two_only 2 new_registry 0) [] sweep2 [] LockOpened 1000 (Some sweep_id) sweeping);
      [reflexivity|reflexivity|vm_compute; reflexivity]. }
  { vm_compute. reflexivity. }
  apply (sends _ _ _ 0 sweeping sweep2 (Some sweep_id) 0 2 (Some 2)); [reflexivity|reflexivity|exact sweep_sends_two].
Qed.

Lemma lifetime_budget_holds_witness : mc_sent swept_two <= 2.
Proof.
  refine (proj1 (lifetime_budget_holds (E := desk) same no_env 2 whole swept_two _ sweep_run_two)). unfold u64_max. lia.
Defined.

(** ** Two servers on one ledger *)

Definition id1 : RunId := "axe-load-test-2000".
Definition run1 : RunRegistry := mkRegistry 0 {[ id1 := false ]}.
(** Two servers, with their counts and registries, and what has happened. *)
Definition two (ledger : option string) (reports : gmap string string) (locked : bool) (sv0 sv1 : Server) (calls : list (nat * Flow))
    (active : list Active) (sent : Z) : Machine :=
  mkMachine ledger reports locked (<[0%nat := sv0]> {[ 1%nat := sv1 ]}) calls active sent.
Definition fresh0 : Server := server0 limits8 0 new_registry 0.
Definition done0 : Server := server0 limits8 5 run0 1000.
Definition report0 : gmap string string := {[ report_file id0 := "{}" ]}.

Abbreviation both := (go (with_cap 8) any_but_traffic true).

Lemma second_is_served : rtc both fresh_machine (two None ∅ false fresh0 fresh0 [] [] 0).
Proof.
  eapply (hop _ _ _ (served limits8)).
  { apply (step_serve _ _ _ _ _ _ 0 Testnet false limits8 true fresh0); [done|done|by left|reflexivity]. }
  { reflexivity. }
  eapply (hop _ _ _ (two None ∅ false fresh0 fresh0 [] [] 0)).
  { apply (step_serve _ _ _ _ _ _ 1 Testnet false limits8 true fresh0); [done|done|by left|reflexivity]. }
  { vm_compute. reflexivity. }
  reflexivity.
Qed.

Lemma first_sends : rtc both (two None ∅ false fresh0 fresh0 [] [] 0) (two (Some "5}") report0 false done0 fresh0 [] [] 5).
Proof.
  eapply (hop _ _ _ (two (Some "5}") ∅ false (server0 limits8 5 new_registry 0) fresh0 [(0%nat, load5)] [] 0)).
  { apply (step_call _ _ _ _ _ _ 0 fresh0 None (CallLoadTest "alpha" "beta" (Some 5)) load5 Written
      (mkPolicy limits8 (mkSpent 5 true)) (Some "5}")); [reflexivity|reflexivity|done|done|vm_compute; reflexivity]. }
  { vm_compute. reflexivity. }
  eapply (hop _ _ _ (two (Some "5}") ∅ true done0 fresh0 [] [mkActive 0 load5 (Some id0) 0] 0)).
  { apply (step_begin _ _ _ _ _ _ 0 (server0 limits8 5 new_registry 0) [] load5 [] LockOpened 1000 (Some id0) done0);
      [reflexivity|reflexivity|vm_compute; reflexivity]. }
  { vm_compute. reflexivity. }
  etrans; [apply (sends _ _ _ 0 done0 load5 (Some id0) 0 5 (Some 5)); [reflexivity|reflexivity|apply runs_elsewhere; [done|by split]]|].
  eapply (hop _ _ _ (two (Some "5}") report0 false done0 fresh0 [] [] 5)); [|vm_compute; reflexivity|reflexivity].
  apply (step_finish _ _ _ _ _ _ 0 done0 [] load5 (Some id0) 5 [] 5 (Some "{}") Written (sv_policy done0) (Some "5}"));
    [reflexivity|reflexivity|apply runs_elsewhere; [done|by split]|reflexivity].
Qed.

Definition overspent : Machine :=
  two (Some "5}") report0 true done0 (server0 limits8 5 run1 2000) [] [mkActive 1 load5 (Some id1) 5] 10.
Lemma second_sends : rtc both (two (Some "5}") report0 false done0 fresh0 [] [] 5) overspent.
Proof.
  eapply (hop _ _ _ (two (Some "5}") report0 false done0 (server0 limits8 5 new_registry 0) [(1%nat, load5)] [] 5)).
  { apply (step_call _ _ _ _ _ _ 1 fresh0 None (CallLoadTest "alpha" "beta" (Some 5)) load5 Written
      (mkPolicy limits8 (mkSpent 5 true)) (Some "5}")); [reflexivity|reflexivity|done|done|vm_compute; reflexivity]. }
  { vm_compute. reflexivity. }
  eapply (hop _ _ _ (two (Some "5}") report0 true done0 (server0 limits8 5 run1 2000) [] [mkActive 1 load5 (Some id1) 0] 5)).
  { apply (step_begin _ _ _ _ _ _ 1 (server0 limits8 5 new_registry 0) [] load5 [] LockOpened 2000 (Some id1) (server0 limits8 5 run1 2000));
      [reflexivity|reflexivity|vm_compute; reflexivity]. }
  { vm_compute. reflexivity. }
  apply (sends _ _ _ 1 (server0 limits8 5 run1 2000) load5 (Some id1) 0 5 (Some 5)); [reflexivity|reflexivity|].
  apply runs_elsewhere; [done|by split].
Qed.

(** C30: servers that run beside each other do not share a budget.  Two servers on
    one data directory, both with a lifetime cap of eight transactions, admit
    five each, one after the other, as the run lock demands: ten were sent, and
    the ledger they share says five, since each writes the count it keeps in
    memory. *)
Theorem servers_overspend :
  exists m, mcp_run (E := desk) same no_env (with_cap 8) any_but_traffic true whole m /\
    mc_sent m = 10 /\ mc_ledger m = Some (ledger_text 5).
Proof.
  exists overspent. split; [|split; [done|vm_compute; reflexivity]].
  unfold mcp_run. etrans; [exact second_is_served|]. etrans; [exact first_sends|exact second_sends].
Qed.

(** ** Traffic on a server *)

Definition limits2 : SpendLimits := mkSpendLimits 2 (Some 2) ["alpha"; "beta"].
Definition traffic2 : Flow := TrafficFlow 2 12000 100 None.
Definition id2 : RunId := "axe-intents-traffic-1000".
Definition busy2 : Server := server0 limits2 2 (mkRegistry 0 {[ id2 := false ]}) 1000.

Abbreviation alone := (go (with_cap 2) (fun _ => True) false).

(** Every transfer fails after its deposit. *)
Lemma traffic_sends_three : flow_runs (E := desk) same no_env whole busy2 traffic2 3 (Some 0).
Proof.
  set (m := claims_of traffic2 tm_intents (traffic same no_env 10
    (mkTrafficArgs (intents_runtime busy2 "config.json" "7") 100 None (Some 12000) (Some 2)))).
  pose proof (runs_here (E := desk) same no_env whole busy2 traffic2 10 "config.json" "7" m (idle FailedTransfer)
    (dk_trace (m (idle FailedTransfer)).2) eq_refl eq_refl) as Hf.
  assert (deposits (dk_trace (m (idle FailedTransfer)).2) = 3%nat) as Hd by (vm_compute; reflexivity).
  assert ((m (idle FailedTransfer)).1 = Ok 0) as Hc by (vm_compute; reflexivity). by rewrite Hd, Hc in Hf.
Qed.

Lemma traffic_starts : rtc alone fresh_machine
  (mkMachine (Some "2}") ∅ true {[ 0%nat := busy2 ]} [] [mkActive 0 traffic2 (Some id2) 0] 0).
Proof.
  eapply (hop _ _ _ (served limits2)).
  { apply (step_serve _ _ _ _ _ _ 0 Testnet false limits2 true (server0 limits2 0 new_registry 0)); [done|done|by right|reflexivity]. }
  { reflexivity. }
  eapply (hop _ _ _ (mkMachine (Some "2}") ∅ false {[ 0%nat := server0 limits2 2 new_registry 0 ]} [(0%nat, traffic2)] [] 0)).
  { apply (step_call _ _ _ _ _ _ 0 (server0 limits2 0 new_registry 0) None (CallTraffic 2 12 None (Some 100)) traffic2 Written
      (mkPolicy limits2 (mkSpent 2 true)) (Some "2}")); [reflexivity|reflexivity|done|done|vm_compute; reflexivity]. }
  { vm_compute. reflexivity. }
  eapply (hop _ _ _ (mkMachine (Some "2}") ∅ true {[ 0%nat := busy2 ]} [] [mkActive 0 traffic2 (Some id2) 0] 0)); [| |reflexivity].
  { apply (step_begin _ _ _ _ _ _ 0 (server0 limits2 2 new_registry 0) [] traffic2 [] LockOpened 1000 (Some id2) busy2);
      [reflexivity|reflexivity|vm_compute; reflexivity]. }
  vm_compute. reflexivity.
Qed.

(** C31: the traffic simulation breaks the operator's caps.  A server with a
    lifetime cap of two transactions admits a traffic run of two intents; its
    transfers fail after their deposits, which the run does not count, so it
    deposits three times, claims none, and the whole budget is handed back. *)
Theorem traffic_breaks_budget :
  exists m, mcp_run (E := desk) same no_env (with_cap 2) (fun _ => True) false whole m /\
    mc_sent m = 3 /\ mc_ledger m = Some (ledger_text 0).
Proof.
  exists (mkMachine (Some "0}") {[ report_file id2 := "{}" ]} false
    {[ 0%nat := server0 limits2 0 (mkRegistry 0 {[ id2 := false ]}) 1000 ]} [] [] 3).
  split; [|by split; [|vm_compute]]. unfold mcp_run. etrans; [exact traffic_starts|].
  etrans; [apply (sends _ _ _ 0 busy2 traffic2 (Some id2) 0 3 (Some 0)); [reflexivity|reflexivity|exact traffic_sends_three]|].
  eapply hop; [|vm_compute; reflexivity|reflexivity].
  apply (step_finish _ _ _ _ _ _ 0 busy2 [] traffic2 (Some id2) 3 [] 0 (Some "{}") Written (mkPolicy limits2 (mkSpent 0 true)) (Some "0}"));
    [reflexivity|reflexivity|exact traffic_sends_three|vm_compute; reflexivity].
Qed.

(** An express transfer that finds the slot taken by a run of its own server is
    told that another process has it. *)
Example express_refusal_misnamed :
  claim_slot (sv_runs done0) LockOpened (mc_locked sent_five) = (inl HeldByAnotherProcess, sv_runs done0).
Proof. reflexivity. Qed.
End McpToy.
